(* ===== verification/_CoqProject ===== *)
-Q . S2P
Prelude.v
Utf16.v
Text.v
SpecTypes.v
PlanTypes.v
TopoOrder.v
Kahn.v
Schedule.v
Reach.v
SpecGraph.v
Cycle.v
Json.v
Canonical.v
CanonicalText.v
CanonicalForm.v
JsonRaw.v
SourceIdentity.v
Validate.v
Decisions.v
Semantics.v
Journal.v
JournalOps.v
JournalSafety.v
Datastore.v
Encode.v
Artifact.v
ArtifactSafety.v
MapExec.v
Retry.v
Compile.v
Verify.v
CompileSafety.v
CompileOrder.v
CompileSample.v
Index.v
Resolution.v
World.v
StepRun.v
MapRun.v
Run.v
IndexSafety.v
NoFatal.v
RunKeys.v
RunLogic.v
StepSafety.v
MapItems.v
MapSafety.v
MaterialSafety.v
RunSafety.v
RunCorrect.v
RunSample.v
RunEvents.v
RunEventsSafety.v
SchemaMatch.v
SchemaMatchSafety.v
SchemaClosure.v
FileSys.v
FileLaws.v
LocalStore.v
LocalSafety.v
LocalCorrect.v
LocalAlone.v
LocalRecovery.v
LocalRefines.v
LocalSample.v
ArgoGraph.v
ArgoNames.v
Deployment.v
ArgoPods.v
ArgoTemplate.v
ArgoStatus.v
ArgoSafety.v
ArgoStatusSafety.v
ArgoSample.v
ValueParam.v
ValueText.v
ValueEnvelopes.v
ValueParamSafety.v
Isolated.v
IsolatedSafety.v
