(* ===== verification/Prelude.v ===== *)
(** * Massive: a verification development of the workflow control plane

    Massive compiles a workflow spec to a content-addressed plan and runs the plan against
    a datastore, keeping a journal.  The development follows the Go code of [src/internal/]
    file by file; a Rocq file that models code is named in its own comment, and so are the
    properties it carries.

    ** The parts and how they interact

    A frontend writes a spec; [spec] checks it, [plan] compiles it to a plan whose parts are
    named by their digests ([canonical]), and [orchestrator] runs a plan: it indexes the
    graph, writes the journal ([runjournal]) to a store ([datastore]), invokes steps, reads
    what they published ([artifact]) and collects maps ([mapexec]).

    - Values.  Utf16, Text: Go strings, runes, paths, formatting.  Json, JsonRaw,
      CanonicalText: [encoding/json] as a decoder to trees and its inverse.  Canonical,
      Encode: [canonical/canonical.go]; CanonicalForm proves it.  SourceIdentity:
      [sourceidentity/sourceidentity.go].
    - Specs.  SpecTypes, SpecGraph, Reach, Cycle, Validate, Decisions, Semantics:
      [spec/spec.go].  TopoOrder and Kahn are the reference order and the ready-queue loop
      that its three topological routines share.  Schedule: [plan/schedule.go].
      SchemaMatch: the comparison of JSON schemas of [spec/outcome.go] and [spec/spec.go],
      an instance of the interface [SchemaRules] that Validate uses; SchemaMatchSafety and
      SchemaClosure prove it.
    - Plans.  PlanTypes: the messages of [conformance/schema/planpb].  Compile:
      [plan/compile.go].  Verify: [plan/verify.go], [plan/execution.go], [plan/controlflow.go].
      CompileSafety, CompileOrder and CompileSample prove and exercise them.
    - Stores.  Datastore: the interface of [datastore/datastore.go] as a class, its laws, and
      the memory store that meets them.  Artifact, ArtifactSafety: [artifact/runtime.go].
      LocalStore: [datastore/local.go], each operation a program of file system calls over
      FileSys, a tree of files and directories whose calls may fail.  FileLaws has
      its laws and a rely-guarantee calculus for such programs; LocalSafety, LocalCorrect,
      LocalAlone, LocalRecovery and LocalRefines prove the store, LocalSample exercises it.
    - Argo.  Deployment: the deployment spec's data ([deployment/spec.go]).  ArgoGraph,
      ArgoNames, ArgoPods, ArgoTemplate: [target/argo/argo.go] and [decisions.go], the check
      of a plan's graph, names, pods and the templates of a workflow; ArgoSafety and
      ArgoSample.  ArgoStatus, ArgoStatusSafety: what is made of the scheduler's state
      ([target/argo/exit.go], [item_status.go], [executionphase/evidence.go]).  ValueParam:
      the value parameters that Argo tasks exchange ([valueparam/valueparam.go]); ValueText,
      ValueEnvelopes and ValueParamSafety prove it.
    - Runs.  Journal, JournalOps: [runjournal] and the journal updates of
      [orchestrator/orchestrator.go].  MapExec: [mapexec/values.go].  Retry: [retry.go].
      Index, Resolution: the executor's index, keys, descriptors and value resolution.
      World is what a run calls outside its own code, as a class, with the monad of a run and
      the text of a journal;
      StepRun, MapRun, Run are the run loop in that monad, in the order of the Go code.
      RunEvents, RunEventsSafety: the events an observer of a run gets ([events.go]), a state
      machine beside the run, which never reads it.
    - Remote steps.  Isolated: one attempt of a step or of a map item in a pod
      ([orchestrator/isolated.go]) with its preflight ([preflight.go]), the fatal cause of a
      run ([fatal.go]), published source archives and the record of a phase
      ([executionphase/evidence.go]).  Files, the runner and the probe are its class
      [PodWorld].  IsolatedSafety proves it.

    ** What the theorems show

    - A run (RunCorrect): once its run id is claimed, [Run] ends with a result, never with a
      panic, and its journal's key holds a journal that the reader accepts, whatever the
      store, the invoker or the steps do; a taken run id is refused.  RunLogic is a
      weakest-precondition calculus for the run's monad; StepSafety, MapSafety,
      MaterialSafety and RunSafety apply it to a step's attempts, a map's rounds (MapItems),
      the calls around the loop and the loop; NoFatal and RunKeys show where
      errors come from and that composed keys parse.  RunSample runs the sample plan.
    - The journal (JournalSafety): every sequence of the orchestrator's updates keeps the
      journal readable, also when it is terminated at any moment, failed, or finished.
    - Events (RunEventsSafety): in whatever order workers and the run notify, events are
      numbered without gaps, an attempt starts and finishes at most once, and every attempt
      that started has finished when the run's end is announced.
    - Specs: the reported diagnostics are exactly the violations of the graph rules; a spec
      without diagnostics has a schedule, exhaustive decisions and complete steps.
    - Orders: the schedule exists exactly for acyclic graphs, is the reference order, does
      not depend on declaration order, and the executor follows it (IndexSafety).
    - Plans: a compiled plan passes every check of its reader, and its hash binds it.
    - Values: canonical JSON is a fixed point and identifies values; a published value
      resolves to itself and stays; a map's results collect in item order; a value parameter
      decodes to what was encoded, has one spelling, and stays within its bounds.
    - Schemas: the comparison is equality of the schemas' validating parts, and a closure of
      definitions holds exactly those that are reached.
    - Argo: a lowered plan refers to templates that are there, under valid names that do not
      collide; every task waits for its predecessors; a pod gets each secret once; the node
      reported for a failed workflow is the one whose task failed first; an item is reported
      killed only on evidence.
    - Remote steps (IsolatedSafety): the bytes a pod returns are a value its own attempt
      published; a failed attempt is the outcome of its runner, and one that was killed is
      put down to the author's code only on the record of its phase; the runner's inputs are
      in the store before it starts; published archives stay; the first fatal cause of a run
      is the one that everybody reads.
    - The local store: conditional writes made side by side by any number of programs, with
      failing calls and programs that stop anywhere, never change an object a reader has
      seen, and one at most succeeds (LocalCorrect); one that was cut short can be made
      again (LocalRecovery); a program alone sees the memory store (LocalRefines).

    ** Choices

    A Go error keeps its format and arguments; a panic is an error that only [attempt] lets
    through.  Maps are [gmap]s, slices lists, an [int] a [Z] where it cannot overflow, a
    duration an int64 with its wrap-around.  Loops over a ready queue have one unit of fuel
    per node, searches one per edge, the attempts of a step and the rounds of a map as many
    as the policy's attempts, the closure of a schema one per node of the schema: the
    theorems show that none runs out.  A walk back from an Argo task through the controls
    before it has one unit per node of a checked, acyclic graph, which is enough.  The loop
    that watches for a fatal cause goes on as long as its invocation: its number of turns is
    an argument.  A context
    is part of the world's state, so a cancellation may show between any two calls.  A file
    system call either has its effect or fails, at once; a failed write may leave a part of
    a file; two names of one file are two copies, since no file is written twice.

    Parameters, with their documented behaviour as hypotheses where a theorem needs it: the
    printing of numbers, SHA-256, JSON-schema validation, [protojson], reference parsing,
    the store of a run, its clock and file system, step invokers, the verification and
    extraction of an archive, the probe of an interpreter.

    ** Not modelled

    Command line tools, the graph generator, environment materialization, the control
    plane's HTTP and Kubernetes calls, the S3 store, the tar format of source archives,
    process handling and the batch invoker are I/O around the modelled code; so are the HTTP
    calls that read the scheduler's state.  Of the Argo target, the
    assembly of the YAML bundle is left out; of deployments, the reading of the file.  Strict
    decoding of spec, event and journal files against
    their JSON schemas, and the compilation of a schema, are parameters. *)

From stdpp Require Export base list gmap fin_maps strings pretty sorting relations.
From Stdlib Require Export ZArith.
#[global] Open Scope string_scope.
#[global] Open Scope list_scope.

(** ** Go error values

    An error is kept as the value the code builds: its format string and its
    arguments, not the rendered text.  [AWrap] is an argument under [%w], which
    [errors.Is] and [errors.As] look through; [AErr] is an error printed with
    [%v], which they do not. *)
Inductive error : Type :=
  | ErrNew (message : string)
  | Errorf (format : string) (args : list errArg)
  | ErrJoin (errs : list error)
  | DiagnosticsError (diagnostics : list (string * string * string))
  | InvalidRunInputError (field value message : string)
  | RunDeadlineError (seconds : Z)
  | FatalRunError (message type nodeId : string)
  | PanicError (what : string)
with errArg : Type :=
  | AStr (s : string)
  | AInt (z : Z)
  | AErr (e : error)
  | AWrap (e : error).

(** [errors.Is(err, target)] for a sentinel [target] built with [errors.New]. *)
Fixpoint errorsIs (e : error) (target : string) : bool :=
  match e with
  | ErrNew m => bool_decide (m = target)
  | Errorf _ args =>
      (fix anyArg (l : list errArg) : bool :=
         match l with
         | [] => false
         | AWrap e' :: l' => errorsIs e' target || anyArg l'
         | _ :: l' => anyArg l'
         end) args
  | ErrJoin es =>
      (fix anyErr (l : list error) : bool :=
         match l with [] => false | e' :: l' => errorsIs e' target || anyErr l' end) es
  | _ => false
  end.

(** [errors.As(err, &target)] for the two error types the run looks for: the first one in
    the tree of wrapped errors. *)
Fixpoint errorsAs {A} (f : error → option A) (e : error) : option A :=
  match f e with
  | Some a => Some a
  | None =>
      match e with
      | Errorf _ args =>
          (fix anyArg (l : list errArg) : option A :=
             match l with
             | [] => None
             | AWrap e' :: l' => match errorsAs f e' with Some a => Some a | None => anyArg l' end
             | _ :: l' => anyArg l'
             end) args
      | ErrJoin es =>
          (fix anyErr (l : list error) : option A :=
             match l with
             | [] => None
             | e' :: l' => match errorsAs f e' with Some a => Some a | None => anyErr l' end
             end) es
      | _ => None
      end
  end.
Definition asDeadline : error → option Z :=
  errorsAs (λ e, match e with RunDeadlineError seconds => Some seconds | _ => None end).
Definition asFatal : error → option (string * string * string) :=
  errorsAs (λ e, match e with FatalRunError message type nodeId => Some (message, type, nodeId) | _ => None end).
Definition isPanic (e : error) : bool := match e with PanicError _ => true | _ => false end.

(** ** Results: a Go function that returns [(T, error)] *)
Inductive result (A : Type) : Type :=
  | Ok (a : A)
  | Err (e : error).
Arguments Ok {A} a.
Arguments Err {A} e.

#[global] Instance result_ret : MRet result := λ A a, Ok a.
#[global] Instance result_bind : MBind result := λ A B f m,
  match m with Ok a => f a | Err e => Err e end.
#[global] Instance result_fmap : FMap result := λ A B f m,
  match m with Ok a => Ok (f a) | Err e => Err e end.

(** [if err != nil { return fmt.Errorf(format, args..., err) }] *)
Definition wrapErr {A} (format : string) (args : list errArg) (r : result A) : result A :=
  match r with Ok a => Ok a | Err e => Err (Errorf format (args ++ [AWrap e])) end.

Definition isOk {A} (r : result A) : bool := match r with Ok _ => true | Err _ => false end.

(** A Go loop whose body may return early with an error. *)
Fixpoint foldErr {A B} (f : A → B → result A) (acc : A) (l : list B) : result A :=
  match l with
  | [] => Ok acc
  | x :: l' => acc' ← f acc x; foldErr f acc' l'
  end.

Fixpoint mapErr {A B} (f : A → result B) (l : list A) : result (list B) :=
  match l with
  | [] => Ok []
  | x :: l' => y ← f x; ys ← mapErr f l'; Ok (y :: ys)
  end.

Lemma bind_Ok {A B} (f : A → result B) (m : result A) b :
  (x ← m; f x) = Ok b ↔ ∃ a, m = Ok a ∧ f a = Ok b.
Proof. destruct m; naive_solver. Qed.

(** An early return with an error. *)
Lemma guard_Ok {A} (b : bool) e (r : result A) a : (if b then Err e else r) = Ok a ↔ b = false ∧ r = Ok a.
Proof. destruct b; naive_solver. Qed.
Lemma bind_unit_Ok {A} (m : result unit) (r : result A) a : (_ ← m; r) = Ok a ↔ m = Ok tt ∧ r = Ok a.
Proof. destruct m as [[]|]; naive_solver. Qed.

Lemma wrapErr_Ok {A} format args (r : result A) a : wrapErr format args r = Ok a ↔ r = Ok a.
Proof. by destruct r. Qed.

Lemma mapErr_Ok {A B} (f : A → result B) (l : list A) (k : list B) :
  mapErr f l = Ok k ↔ Forall2 (λ x y, f x = Ok y) l k.
Proof.
  revert k; induction l as [|x l IH]; intros k; simpl.
  - split; [intros [= <-]; constructor | by inversion 1].
  - rewrite bind_Ok. setoid_rewrite bind_Ok. split.
    + intros (y & Hy & ys & Hys & [= <-]). constructor; [done | by apply IH].
    + inversion 1; subst. eexists; split; [done|]. eexists; split; [by apply IH | done].
Qed.

(** The same map over the values of an association list. *)
Fixpoint mapMembers {A B} (f : A → result B) (l : list (string * A)) : result (list (string * B)) :=
  match l with
  | [] => Ok []
  | (k, x) :: l' => y ← f x; ys ← mapMembers f l'; Ok ((k, y) :: ys)
  end.

Lemma mapMembers_Ok {A B} (f : A → result B) l k :
  mapMembers f l = Ok k ↔ Forall2 (λ p q, p.1 = q.1 ∧ f p.2 = Ok q.2) l k.
Proof.
  revert k; induction l as [|[n x] l IH]; intros k; simpl.
  - split; [intros [= <-]; constructor|by inversion 1].
  - rewrite bind_Ok. setoid_rewrite bind_Ok. split.
    + intros (y & Hy & ys & Hys & [= <-]). constructor; [done|by apply IH].
    + inversion 1 as [|? [n' y] ? ? [Hn Hy] Hr]; simplify_eq/=.
      eexists; split; [done|]. eexists; split; [by apply IH|done].
Qed.

Lemma Forall2_fst_eq {A B} (R : A → B → Prop) (l : list (string * A)) k :
  Forall2 (λ p q, p.1 = q.1 ∧ R p.2 q.2) l k → l.*1 = k.*1.
Proof. induction 1 as [|p q l k [E _] _ IH]; [done|]. rewrite !fmap_cons. congruence. Qed.

Lemma fmap_Ok {A B} (f : A → B) (r : result A) b :
  f <$> r = Ok b ↔ ∃ a, r = Ok a ∧ b = f a.
Proof. destruct r; simpl; naive_solver. Qed.

Lemma Forall2_elem_r {A B} (R : A → B → Prop) l k y :
  Forall2 R l k → y ∈ k → ∃ x, x ∈ l ∧ R x y.
Proof.
  induction 1 as [|a b l k Hab _ IH]; [by inversion 1|].
  intros [->|Hy]%elem_of_cons; [exists a; split; [left|done]|].
  destruct (IH Hy) as (x & Hx & HR). exists x. split; [by right|done].
Qed.
Lemma Forall2_elem_l {A B} (R : A → B → Prop) l k x :
  Forall2 R l k → x ∈ l → ∃ y, y ∈ k ∧ R x y.
Proof. intros H%Forall2_flip Hx. by apply (Forall2_elem_r (flip R) k l). Qed.

Lemma filter_singleton {A} (P : A → Prop) `{!∀ x, Decision (P x)} x :
  filter P [x] = if decide (P x) then [x] else [].
Proof. by rewrite filter_cons. Qed.

Lemma bind_nil {A B} (f : A → list B) (l : list A) : l ≫= f = [] ↔ ∀ x, x ∈ l → f x = [].
Proof.
  induction l as [|x l IH]; cbn; [split; [by inversion 2|done]|].
  rewrite app_nil, IH. setoid_rewrite elem_of_cons. naive_solver.
Qed.

Lemma NoDup_fmap_filter {A B} (f : A → B) (P : A → Prop) `{!∀ x, Decision (P x)} (l : list A) :
  NoDup (f <$> l) → NoDup (f <$> filter P l).
Proof.
  induction l as [|x l IH]; [done|]. rewrite fmap_cons, filter_cons. intros [Hx Hl]%NoDup_cons.
  case_decide; [|by apply IH]. rewrite fmap_cons. constructor; [|by apply IH].
  rewrite !list_elem_of_fmap in *. intros (y & E & [_ Hy]%list_elem_of_filter). eauto.
Qed.

Lemma elem_of_flat_map {A B} (f : A → list B) l y : y ∈ flat_map f l ↔ ∃ x, x ∈ l ∧ y ∈ f x.
Proof. rewrite list_elem_of_In, in_flat_map. by setoid_rewrite list_elem_of_In. Qed.

Lemma foldErr_app {A B} (f : A → B → result A) acc l1 l2 :
  foldErr f acc (l1 ++ l2) = (acc' ← foldErr f acc l1; foldErr f acc' l2).
Proof.
  revert acc; induction l1 as [|x l1 IH]; intros acc; simpl; [done|].
  destruct (f acc x); simpl; [apply IH | done].
Qed.

(** A loop that only checks. *)
Lemma foldErr_unit {A} (f : A → result unit) l :
  foldErr (λ _ x, f x) tt l = Ok tt ↔ ∀ x, x ∈ l → f x = Ok tt.
Proof.
  induction l as [|x l IH]; simpl; [split; [by inversion 2|done]|].
  rewrite bind_Ok. setoid_rewrite elem_of_cons. split.
  - intros ([] & Hx & Hl). rewrite IH in Hl. naive_solver.
  - intros H. exists tt. rewrite IH. split; auto.
Qed.

(** An invariant of the loop body is an invariant of the loop. *)
Lemma foldErr_inv {A B} (P : A → Prop) (f : A → B → result A) acc l acc' :
  P acc → (∀ a x a', x ∈ l → P a → f a x = Ok a' → P a') →
  foldErr f acc l = Ok acc' → P acc'.
Proof.
  revert acc; induction l as [|x l IH]; intros acc HP Hf H; simpl in *.
  - by injection H as <-.
  - destruct (f acc x) as [a'|] eqn:E; simpl in H; [|done].
    eapply (IH a'); [|intros; eapply Hf; [by constructor | done | done] | done].
    eapply Hf; [by constructor | done | done].
Qed.

(** ** Tactics and hints *)
Create HintDb massive.

(** Case analysis on the scrutinee of a [match] in the goal or a hypothesis. *)
Ltac split_match :=
  match goal with
  | |- context [match ?x with _ => _ end] =>
      lazymatch x with context [match _ with _ => _ end] => fail | _ => destruct x eqn:? end
  | H : context [match ?x with _ => _ end] |- _ =>
      lazymatch x with context [match _ with _ => _ end] => fail | _ => destruct x eqn:? end
  end.

(** Invert every successful bind in the hypotheses. *)
Ltac inv_ok :=
  repeat match goal with
  | H : Ok _ = Ok _ |- _ => injection H as H; try subst
  | H : Err _ = Ok _ |- _ => discriminate H
  | H : Ok _ = Err _ |- _ => discriminate H
  | H : mbind _ _ = Ok _ |- _ => apply bind_Ok in H as (? & ? & ?)
  end.

(** ** Decimal rendering of Go integers ([fmt.Sprint], [strconv.Itoa]) *)
Definition itoa (z : Z) : string := pretty z.
Definition itoaNat (n : nat) : string := pretty (N.of_nat n).
