(* ===== verification/Utf16.v ===== *)
(** * UTF-16 code-unit order on Go strings

    [internal/canonical] orders every identifier and object key by ECMAScript
    UTF-16 code units ([LessUTF16]).  A Go string is its bytes; [runes] is the
    conversion [[]rune(s)] of the language, [utf16Encode] is [utf16.Encode] of
    the standard library, and [sortUTF16] is [sort.Slice] with [LessUTF16]. *)

From S2P Require Import Prelude.
From Stdlib Require Import Ascii.
#[local] Open Scope Z_scope.

(** ** Bytes and runes *)
Definition byteOf (c : ascii) : Z := Z.of_N (N_of_ascii c).
Definition charOf (b : Z) : ascii := ascii_of_N (Z.to_N b).

Fixpoint bytesOf (s : string) : list Z :=
  match s with EmptyString => [] | String c s' => byteOf c :: bytesOf s' end.
Fixpoint ofBytes (l : list Z) : string :=
  match l with [] => EmptyString | b :: l' => String (charOf b) (ofBytes l') end.

Definition runeError : Z := 0xFFFD.

Definition inRange (lo hi b : Z) : bool := (lo <=? b) && (b <=? hi).
Definition isCont (b : Z) : bool := inRange 0x80 0xBF b.

(** [utf8.DecodeRune]: the first rune of a non-empty byte string and its width;
    an invalid encoding is [RuneError] of width 1. *)
Definition decodeRune (b0 : Z) (rest : list Z) : Z * nat :=
  let bad := (runeError, 1%nat) in
  if b0 <? 0x80 then (b0, 1%nat)
  else if inRange 0xC2 0xDF b0 then
    match rest with
    | b1 :: _ => if isCont b1 then ((b0 - 0xC0) * 64 + (b1 - 0x80), 2%nat) else bad
    | _ => bad
    end
  else if inRange 0xE0 0xEF b0 then
    match rest with
    | b1 :: b2 :: _ =>
        let lo := if b0 =? 0xE0 then 0xA0 else 0x80 in
        let hi := if b0 =? 0xED then 0x9F else 0xBF in
        if inRange lo hi b1 && isCont b2
        then ((b0 - 0xE0) * 4096 + (b1 - 0x80) * 64 + (b2 - 0x80), 3%nat) else bad
    | _ => bad
    end
  else if inRange 0xF0 0xF4 b0 then
    match rest with
    | b1 :: b2 :: b3 :: _ =>
        let lo := if b0 =? 0xF0 then 0x90 else 0x80 in
        let hi := if b0 =? 0xF4 then 0x8F else 0xBF in
        if inRange lo hi b1 && isCont b2 && isCont b3
        then ((b0 - 0xF0) * 262144 + (b1 - 0x80) * 4096 + (b2 - 0x80) * 64 + (b3 - 0x80), 4%nat)
        else bad
    | _ => bad
    end
  else bad.

(** [skip] counts the continuation bytes of the rune already decoded. *)
Fixpoint decodeRunes (skip : nat) (l : list Z) : list Z :=
  match l with
  | [] => []
  | b :: l' =>
      match skip with
      | S k => decodeRunes k l'
      | O => let '(r, w) := decodeRune b l' in r :: decodeRunes (Nat.pred w) l'
      end
  end.

(** [[]rune(s)] *)
Definition runes (s : string) : list Z := decodeRunes 0 (bytesOf s).

(** A Unicode scalar value: what a valid encoding decodes to. *)
Definition isScalar (r : Z) : bool := inRange 0 0xD7FF r || inRange 0xE000 0x10FFFF r.

(** [utf8.EncodeRune] *)
Definition encodeRune (r : Z) : list Z :=
  if isScalar r then
    if r <? 0x80 then [r]
    else if r <? 0x800 then [0xC0 + r / 64; 0x80 + r mod 64]
    else if r <? 0x10000 then [0xE0 + r / 4096; 0x80 + r / 64 mod 64; 0x80 + r mod 64]
    else [0xF0 + r / 262144; 0x80 + r / 4096 mod 64; 0x80 + r / 64 mod 64; 0x80 + r mod 64]
  else [0xEF; 0xBF; 0xBD].

(** [string(runes)] *)
Definition ofRunes (rs : list Z) : string := ofBytes (rs ≫= encodeRune).

(** [utf8.ValidString]: converting to runes and back loses nothing. *)
Definition validUtf8 (s : string) : bool := bool_decide (ofRunes (runes s) = s).

(** ** UTF-16 *)

(** [utf16.Encode]: surrogate pairs above U+FFFF, U+FFFD for what is no scalar. *)
Definition utf16Units (r : Z) : list Z :=
  if inRange 0 0xD7FF r || inRange 0xE000 0xFFFF r then [r]
  else if inRange 0x10000 0x10FFFF r
  then [0xD800 + (r - 0x10000) / 1024; 0xDC00 + (r - 0x10000) mod 1024]
  else [runeError].

Definition utf16Encode (rs : list Z) : list Z := rs ≫= utf16Units.

(** The index loop of [LessUTF16]: the first differing unit decides, then length. *)
Fixpoint lessUnits (a b : list Z) : bool :=
  match a, b with
  | x :: a', y :: b' => if x =? y then lessUnits a' b' else x <? y
  | [], _ :: _ => true
  | _, [] => false
  end.

Definition unitsOf (s : string) : list Z := utf16Encode (runes s).
Definition LessUTF16 (a b : string) : bool := lessUnits (unitsOf a) (unitsOf b).

(** [compareUTF16] of [internal/plan/schedule.go] *)
Definition compareUTF16 (left right : string) : Z :=
  if LessUTF16 left right then -1 else if LessUTF16 right left then 1 else 0.

(** ** Facts about the order *)
Lemma lessUnits_irrefl l : lessUnits l l = false.
Proof. induction l as [|x l IH]; simpl; [done|]. by rewrite Z.eqb_refl. Qed.

Lemma lessUnits_trans a b c : lessUnits a b = true → lessUnits b c = true → lessUnits a c = true.
Proof.
  revert b c; induction a as [|x a IH]; intros [|y b] [|z c]; simpl; try done.
  destruct (Z.eqb_spec x y), (Z.eqb_spec y z), (Z.eqb_spec x z); subst;
    rewrite ?Z.ltb_lt; try lia; eauto.
Qed.

Lemma lessUnits_trichotomy a b : lessUnits a b = false → lessUnits b a = false → a = b.
Proof.
  revert b; induction a as [|x a IH]; intros [|y b]; simpl; try done.
  rewrite (Z.eqb_sym y x). destruct (Z.eqb_spec x y); subst.
  - intros; f_equal; auto.
  - rewrite !Z.ltb_ge. lia.
Qed.

Definition utf16_le (a b : string) : Prop := LessUTF16 b a = false.
#[global] Instance utf16_le_dec : RelDecision utf16_le.
Proof. intros a b. unfold utf16_le. apply _. Defined.

#[global] Instance utf16_le_total : Total utf16_le.
Proof.
  intros a b. unfold utf16_le, LessUTF16.
  destruct (lessUnits (unitsOf b) (unitsOf a)) eqn:E1; [right|by left].
  destruct (lessUnits (unitsOf a) (unitsOf b)) eqn:E2; [|done].
  pose proof (lessUnits_trans _ _ _ E1 E2) as H. by rewrite lessUnits_irrefl in H.
Qed.

Lemma LessUTF16_irrefl a : LessUTF16 a a = false.
Proof. apply lessUnits_irrefl. Qed.
Lemma LessUTF16_trans a b c : LessUTF16 a b = true → LessUTF16 b c = true → LessUTF16 a c = true.
Proof. apply lessUnits_trans. Qed.
Lemma LessUTF16_asymm a b : LessUTF16 a b = true → LessUTF16 b a = false.
Proof.
  intros H. destruct (LessUTF16 b a) eqn:E; [|done].
  pose proof (LessUTF16_trans _ _ _ H E) as X. by rewrite LessUTF16_irrefl in X.
Qed.

#[global] Instance utf16_le_trans : Transitive utf16_le.
Proof.
  intros a b c. unfold utf16_le, LessUTF16. intros H1 H2.
  destruct (lessUnits (unitsOf c) (unitsOf a)) eqn:E; [|done]. exfalso.
  destruct (lessUnits (unitsOf a) (unitsOf b)) eqn:E1.
  - pose proof (lessUnits_trans _ _ _ E E1). congruence.
  - rewrite (lessUnits_trichotomy _ _ E1 H1) in *. congruence.
Qed.

(** ** Distinct valid strings are never equivalent *)
Lemma byteOf_range c : 0 <= byteOf c < 256.
Proof. unfold byteOf. pose proof (N_ascii_bounded c). lia. Qed.

Lemma bytesOf_range s : Forall (λ b, 0 <= b < 256) (bytesOf s).
Proof. induction s; simpl; constructor; auto using byteOf_range. Qed.

(** Turns boolean range tests in the context into inequalities. *)
Ltac range_lia :=
  unfold isScalar, isCont, inRange in *;
  repeat match goal with
  | H : _ && _ = true |- _ => apply andb_prop in H as [? ?]
  | H : (_ <=? _) = true |- _ => apply Z.leb_le in H
  | H : (_ <=? _) = false |- _ => apply Z.leb_gt in H
  | H : (_ <? _) = true |- _ => apply Z.ltb_lt in H
  | H : (_ <? _) = false |- _ => apply Z.ltb_ge in H
  | H : (_ =? _) = true |- _ => apply Z.eqb_eq in H
  | H : (_ =? _) = false |- _ => apply Z.eqb_neq in H
  end;
  rewrite ?orb_true_iff, ?andb_true_iff, ?Z.leb_le; lia.

Lemma decodeRune_scalar b0 rest :
  0 <= b0 → Forall (λ b, 0 <= b < 256) rest → isScalar (decodeRune b0 rest).1 = true.
Proof.
  intros Hb Hr. unfold decodeRune.
  repeat (split_match; simpl; try done); subst; try range_lia.
Qed.

Lemma decodeRunes_scalar l k :
  Forall (λ b, 0 <= b < 256) l → Forall (λ r, isScalar r = true) (decodeRunes k l).
Proof.
  intros H; revert k; induction H as [|b l Hb Hl IH]; intros k; simpl; [constructor|].
  destruct k as [|k]; [|done].
  pose proof (decodeRune_scalar b l ltac:(lia) Hl).
  destruct (decodeRune b l) as [r w]; simpl in *. by constructor.
Qed.

Lemma runes_scalar s : Forall (λ r, isScalar r = true) (runes s).
Proof. apply decodeRunes_scalar, bytesOf_range. Qed.

Lemma utf16Units_head_inj r1 r2 l1 l2 :
  isScalar r1 = true → isScalar r2 = true →
  utf16Units r1 ++ l1 = utf16Units r2 ++ l2 → r1 = r2 ∧ l1 = l2.
Proof.
  intros H1 H2 H. unfold isScalar in *.
  apply orb_prop in H1, H2. unfold utf16Units in H.
  assert (∀ r, inRange 0 55295 r = true ∨ inRange 57344 1114111 r = true →
    (inRange 0 55295 r || inRange 57344 65535 r = true ∧ (0 <= r <= 55295 ∨ 57344 <= r <= 65535))
    ∨ (inRange 0 55295 r || inRange 57344 65535 r = false ∧ inRange 65536 1114111 r = true
        ∧ 65536 <= r <= 1114111)) as Hcase.
  { intros r. unfold inRange. rewrite !andb_true_iff, !Z.leb_le. intros Hr.
    destruct (Z.leb_spec 0 r), (Z.leb_spec r 55295), (Z.leb_spec 57344 r),
      (Z.leb_spec r 65535), (Z.leb_spec 65536 r), (Z.leb_spec r 1114111); simpl; lia. }
  destruct (Hcase r1 H1) as [[E1 ?]|[E1 [E1' ?]]], (Hcase r2 H2) as [[E2 ?]|[E2 [E2' ?]]];
    rewrite E1, E2 in H; rewrite ?E1', ?E2' in H; simpl in H; simplify_eq.
  - done.
  - pose proof (Z.div_pos (r2 - 65536) 1024).
    pose proof (Z.div_lt_upper_bound (r2 - 65536) 1024 1024). lia.
  - pose proof (Z.div_pos (r1 - 65536) 1024).
    pose proof (Z.div_lt_upper_bound (r1 - 65536) 1024 1024). lia.
  - split; [|done].
    pose proof (Z.div_mod (r1 - 65536) 1024). pose proof (Z.div_mod (r2 - 65536) 1024). lia.
Qed.

Lemma utf16Units_nonempty r : utf16Units r ≠ [].
Proof. unfold utf16Units. by repeat case_match. Qed.

Lemma utf16Encode_inj l1 l2 :
  Forall (λ r, isScalar r = true) l1 → Forall (λ r, isScalar r = true) l2 →
  utf16Encode l1 = utf16Encode l2 → l1 = l2.
Proof.
  unfold utf16Encode. intros H1; revert l2; induction H1 as [|r1 l1 ? ? IH]; intros l2 H2 E.
  - destruct H2 as [|r2 l2]; [done|]. simpl in E. symmetry in E.
    apply app_eq_nil in E as [E _]. by apply utf16Units_nonempty in E.
  - destruct H2 as [|r2 l2].
    + simpl in E. apply app_eq_nil in E as [E _]. by apply utf16Units_nonempty in E.
    + simpl in E. apply utf16Units_head_inj in E as [-> E]; [|done..].
      f_equal. by apply IH.
Qed.

Lemma LessUTF16_trichotomy a b :
  validUtf8 a = true → validUtf8 b = true →
  LessUTF16 a b = false → LessUTF16 b a = false → a = b.
Proof.
  unfold validUtf8, LessUTF16. intros Ha Hb H1 H2.
  apply bool_decide_eq_true in Ha, Hb.
  pose proof (lessUnits_trichotomy _ _ H1 H2) as E.
  apply utf16Encode_inj in E; [|apply runes_scalar..]. congruence.
Qed.

Lemma utf16_le_antisymm a b :
  validUtf8 a = true → validUtf8 b = true → utf16_le a b → utf16_le b a → a = b.
Proof. intros Ha Hb H1 H2. by apply LessUTF16_trichotomy. Qed.

(** ** Sorting *)

(** [sort.Slice(l, LessUTF16)].  Go's algorithm is not stable; [sortUTF16_unique]
    shows that no sorting algorithm can give another result on distinct valid strings. *)
Definition sortUTF16 (l : list string) : list string := merge_sort utf16_le l.

Lemma sortUTF16_Permutation l : sortUTF16 l ≡ₚ l.
Proof. apply merge_sort_Permutation. Qed.
Lemma sortUTF16_sorted l : StronglySorted utf16_le (sortUTF16 l).
Proof. apply StronglySorted_merge_sort; apply _. Qed.
Lemma elem_of_sortUTF16 x l : x ∈ sortUTF16 l ↔ x ∈ l.
Proof. by rewrite sortUTF16_Permutation. Qed.

Definition allValid (l : list string) : Prop := Forall (λ s, validUtf8 s = true) l.

Lemma sorted_unique l1 l2 :
  allValid l1 → StronglySorted utf16_le l1 → StronglySorted utf16_le l2 → l1 ≡ₚ l2 → l1 = l2.
Proof.
  intros Hv H1 H2 HP. eapply StronglySorted_unique_strong; [|done..].
  intros x y Hx Hy. rewrite <- HP in Hy.
  unfold allValid in Hv; rewrite Forall_forall in Hv. apply utf16_le_antisymm; by apply Hv.
Qed.

Lemma sortUTF16_unique l l' :
  allValid l → l' ≡ₚ l → StronglySorted utf16_le l' → l' = sortUTF16 l.
Proof.
  intros Hv HP Hs. apply sorted_unique; [|done|apply sortUTF16_sorted|].
  - unfold allValid. by rewrite HP.
  - by rewrite HP, sortUTF16_Permutation.
Qed.

Lemma sortUTF16_proper l1 l2 : allValid l1 → l1 ≡ₚ l2 → sortUTF16 l1 = sortUTF16 l2.
Proof.
  intros Hv HP. apply sortUTF16_unique.
  - unfold allValid. by rewrite <- HP.
  - by rewrite sortUTF16_Permutation.
  - apply sortUTF16_sorted.
Qed.

(** [sortedKeys] of [internal/plan/compile.go] and [internal/spec/spec.go]: the keys
    of a Go map in UTF-16 order.  The map's own iteration order does not matter. *)
Definition sortedKeys {T} (values : gmap string T) : list string :=
  sortUTF16 (map_to_list values).*1.

Lemma elem_of_sortedKeys {T} (m : gmap string T) k : k ∈ sortedKeys m ↔ is_Some (m !! k).
Proof.
  unfold sortedKeys. rewrite elem_of_sortUTF16, list_elem_of_fmap. split.
  - intros ([k' v] & -> & H). apply elem_of_map_to_list in H. by eexists.
  - intros [v Hv]. exists (k, v). by rewrite elem_of_map_to_list.
Qed.

Lemma NoDup_sortedKeys {T} (m : gmap string T) : NoDup (sortedKeys m).
Proof. unfold sortedKeys. rewrite sortUTF16_Permutation. apply NoDup_fst_map_to_list. Qed.

Lemma sortedKeys_unique {T} (m : gmap string T) l :
  (∀ k, is_Some (m !! k) → validUtf8 k = true) →
  NoDup l → (∀ k, k ∈ l ↔ is_Some (m !! k)) → StronglySorted utf16_le l → l = sortedKeys m.
Proof.
  intros Hv Hnd Hl Hs. apply sortUTF16_unique; [| |done].
  - unfold allValid. rewrite Forall_forall. intros k Hk. apply Hv.
    by rewrite <- elem_of_sortedKeys; unfold sortedKeys; rewrite elem_of_sortUTF16.
  - apply NoDup_Permutation; [done|apply NoDup_fst_map_to_list|].
    intros k. rewrite Hl, <- elem_of_sortedKeys. unfold sortedKeys. by rewrite elem_of_sortUTF16.
Qed.

#[export] Hint Resolve LessUTF16_irrefl sortUTF16_sorted sortUTF16_Permutation
  NoDup_sortedKeys : massive.
