(* ===== verification/Text.v ===== *)
(** * Go string functions

    The functions of [strings], [path] and [strconv] the program calls, on the bytes of
    a string. *)

From S2P Require Import Prelude Utf16.
From Stdlib Require Import Ascii.
#[local] Open Scope Z_scope.

(** [strings.HasPrefix] *)
Definition HasPrefix (s p : string) : bool := String.prefix p s.

(** [strings.Split(s, sep)] for a one-byte separator: never empty. *)
Fixpoint splitOn (sep : ascii) (s : string) : list string :=
  match s with
  | EmptyString => [""]
  | String c s' =>
      let rest := splitOn sep s' in
      if Ascii.eqb c sep then "" :: rest
      else match rest with x :: xs => String c x :: xs | [] => [String c ""] end
  end.

(** [strings.Contains(s, c)] for one byte. *)
Fixpoint containsByte (c : ascii) (s : string) : bool :=
  match s with EmptyString => false | String c' s' => Ascii.eqb c c' || containsByte c s' end.

(** [strings.Join(l, sep)] *)
Fixpoint joinStrings (sep : string) (l : list string) : string :=
  match l with [] => "" | [x] => x | x :: l' => x +:+ sep +:+ joinStrings sep l' end.

(** [path.Clean]: the segments are processed left to right, [out] holding those kept so
    far in reverse. *)
Fixpoint cleanSegments (rooted : bool) (out : list string) (segments : list string) : list string :=
  match segments with
  | [] => rev out
  | s :: rest =>
      if bool_decide (s = "") || bool_decide (s = ".") then cleanSegments rooted out rest
      else if bool_decide (s = "..") then
        match out with
        | top :: out' =>
            if bool_decide (top = "..") then cleanSegments rooted (s :: out) rest
            else cleanSegments rooted out' rest
        | [] => if rooted then cleanSegments rooted [] rest else cleanSegments rooted [s] rest
        end
      else cleanSegments rooted (s :: out) rest
  end.

Definition Clean (p : string) : string :=
  let rooted := HasPrefix p "/" in
  let body := joinStrings "/" (cleanSegments rooted [] (splitOn "/" p)) in
  if rooted then "/" +:+ body else if bool_decide (body = "") then "." else body.

(** [%q] ([strconv.Quote]).  The Unicode tables are not modelled: every rune above
    ASCII counts as printable. *)
Definition hexLower (n : Z) : Z := if n <? 10 then 48 + n else 87 + n.
Definition quoteGoRune (r : Z) : list Z :=
  if r =? 34 then [92; 34]
  else if r =? 92 then [92; 92]
  else if r =? 7 then [92; 97]
  else if r =? 8 then [92; 98]
  else if r =? 12 then [92; 102]
  else if r =? 10 then [92; 110]
  else if r =? 13 then [92; 114]
  else if r =? 9 then [92; 116]
  else if r =? 11 then [92; 118]
  else if (r <? 32) || (r =? 127) then [92; 120; hexLower (r / 16); hexLower (r mod 16)]
  else encodeRune r.
Definition goQuote (s : string) : string := ofBytes (34 :: (runes s ≫= quoteGoRune) ++ [34]).

Lemma splitOn_not_nil sep s : splitOn sep s ≠ [].
Proof. destruct s as [|c s]; simpl; [done|]. repeat case_match; done. Qed.

(** A path of proper segments is clean. *)
Definition properSegment (s : string) : Prop := s ≠ "" ∧ s ≠ "." ∧ s ≠ "..".

Lemma cleanSegments_proper rooted out segments :
  Forall properSegment segments → cleanSegments rooted out segments = rev out ++ segments.
Proof.
  intros H; revert out; induction H as [|s segments (H1 & H2 & H3) _ IH]; intros out; simpl.
  - by rewrite app_nil_r.
  - rewrite !bool_decide_eq_false_2 by done. simpl. rewrite IH. simpl. by rewrite <- (assoc_L (++)).
Qed.

Lemma joinStrings_split sep s : joinStrings (String sep "") (splitOn sep s) = s.
Proof.
  induction s as [|c s IH]; [done|]. simpl. pose proof (splitOn_not_nil sep s) as Hne.
  destruct (Ascii.eqb_spec c sep) as [->|Hc].
  - destruct (splitOn sep s) as [|x xs] eqn:E; [done|].
    change (joinStrings (String sep "") ("" :: x :: xs)) with (String sep (joinStrings (String sep "") (x :: xs))).
    by rewrite IH.
  - destruct (splitOn sep s) as [|x xs] eqn:E; [done|].
    destruct xs as [|y xs]; exact (f_equal (String c) IH).
Qed.

Lemma joinStrings_cons sep x y l : joinStrings sep (x :: y :: l) = x +:+ sep +:+ joinStrings sep (y :: l).
Proof. done. Qed.

(** Enumerated elements, as [for index, x := range l]. *)
Definition indexed {A} (l : list A) : list (nat * A) := imap pair l.

Lemma elem_of_indexed {A} (l : list A) i x : (i, x) ∈ indexed l ↔ l !! i = Some x.
Proof. 
  unfold indexed. rewrite elem_of_lookup_imap. split; [by intros (j & y & [= -> ->] & H)|by eauto].
Qed.

(** ** [err.Error()]

    The text of a formatted error: the verbs [%s], [%v], [%d], [%w] print their
    argument, [%q] quotes it. *)
Fixpoint render (format : string) (args : list string) : string :=
  match format with
  | String "%" (String verb rest) =>
      match args with
      | [] => String "%" (String verb (render rest []))
      | arg :: args => (if Ascii.eqb verb "q" then goQuote arg else arg) +:+ render rest args
      end
  | String c rest => String c (render rest args)
  | "" => ""
  end.

Fixpoint errorText (e : error) : string :=
  match e with
  | ErrNew message => message
  | Errorf format args =>
      render format (map (λ arg, match arg with
        | AStr s => s
        | AInt z => itoa z
        | AErr e' | AWrap e' => errorText e'
        end) args)
  | ErrJoin errs => joinStrings (String "010" "") (map errorText errs)
  | DiagnosticsError [] => "workflow spec diagnostics"
  | DiagnosticsError ((path, ref, message) :: _) =>
      if bool_decide (ref = "") then path +:+ ": " +:+ message else path +:+ " (" +:+ ref +:+ "): " +:+ message
  | InvalidRunInputError field value message =>
      "invalid " +:+ field +:+ " " +:+ goQuote value +:+ ": " +:+ message
  | RunDeadlineError seconds => "run exceeded its " +:+ itoa seconds +:+ "-second deadline"
  | FatalRunError message type _ =>
      if bool_decide (type = "") then "fatal run failure: " +:+ message
      else "fatal run failure [" +:+ type +:+ "]: " +:+ message
  | PanicError what => "runtime error: " +:+ what
  end.

Example errorText_wrapped :
  errorText (Errorf "step %q attempt %d: %w" [AStr "a"; AInt 2; AWrap (ErrNew "boom")]) =
  ofBytes (bytesOf "step " ++ [34] ++ bytesOf "a" ++ [34] ++ bytesOf " attempt 2: boom").
Proof. reflexivity. Qed.

(** ** UTF-8 repair *)

(** Replaces every comparison of the goal that linear arithmetic decides. *)
Ltac decide_tests :=
  repeat match goal with
  | |- context [?a <=? ?b] => first [replace (a <=? b) with true by lia | replace (a <=? b) with false by lia]
  | |- context [?a <? ?b] => first [replace (a <? b) with true by lia | replace (a <? b) with false by lia]
  | |- context [?a =? ?b] => first [replace (a =? b) with true by lia | replace (a =? b) with false by lia]
  end.

(** A rune decodes from its encoding, whatever follows. *)
Lemma decodeRune_encode r rest : isScalar r = true →
  ∃ b l, encodeRune r = b :: l ∧ decodeRune b (l ++ rest) = (r, S (length l)).
Proof.
  intros Hr. unfold encodeRune. rewrite Hr.
  assert ((0 <= r <= 0xD7FF) ∨ (0xE000 <= r <= 0x10FFFF)) as Hs.
  { unfold isScalar, inRange in Hr. lia. }
  pose proof (Z.mod_pos_bound r 64 ltac:(lia)) as M0. pose proof (Z_div_mod_eq_full r 64) as D0.
  set (q0 := r / 64) in *. set (m0 := r mod 64) in *.
  pose proof (Z.mod_pos_bound q0 64 ltac:(lia)) as M1. pose proof (Z_div_mod_eq_full q0 64) as D1.
  assert (r / 4096 = q0 / 64) as -> by (unfold q0; by rewrite Z.div_div).
  set (q1 := q0 / 64) in *. set (m1 := q0 mod 64) in *.
  pose proof (Z.mod_pos_bound q1 64 ltac:(lia)) as M2. pose proof (Z_div_mod_eq_full q1 64) as D2.
  assert (r / 262144 = q1 / 64) as -> by (unfold q1, q0; by rewrite !Z.div_div).
  set (q2 := q1 / 64) in *. set (m2 := q1 mod 64) in *.
  clearbody q2 m2 q1 m1 q0 m0.
  destruct (Z.ltb_spec r 0x80); [|destruct (Z.ltb_spec r 0x800); [|destruct (Z.ltb_spec r 0x10000)]].
  - eexists _, _. split; [done|]. unfold decodeRune. by decide_tests.
  - eexists _, _. split; [done|]. unfold decodeRune, isCont, inRange. cbn [app]. decide_tests. cbn [andb].
    f_equal. lia.
  - eexists _, _. split; [done|]. unfold decodeRune, isCont, inRange. cbn [app].
    destruct (Z.eqb_spec (224 + q1) 224), (Z.eqb_spec (224 + q1) 237); try lia; decide_tests; cbn [andb]; f_equal; lia.
  - eexists _, _. split; [done|]. unfold decodeRune, isCont, inRange. cbn [app].
    destruct (Z.eqb_spec (240 + q2) 240), (Z.eqb_spec (240 + q2) 244); try lia; decide_tests; cbn [andb]; f_equal; lia.
Qed.

Lemma bytes_ofBytes l : Forall (λ b, 0 <= b < 256) l → bytesOf (ofBytes l) = l.
Proof.
  induction 1 as [|b l Hb _ IH]; [done|]. simpl. rewrite IH. f_equal.
  unfold byteOf, charOf. rewrite N_ascii_embedding by lia. lia.
Qed.

Lemma encodeRune_bytes r : Forall (λ b, 0 <= b < 256) (encodeRune r).
Proof.
  unfold encodeRune. destruct (isScalar r) eqn:E; [|repeat constructor; lia].
  assert (0 <= r <= 0x10FFFF) by (unfold isScalar, inRange in E; lia).
  pose proof (Z.mod_pos_bound r 64 ltac:(lia)). pose proof (Z.mod_pos_bound (r / 64) 64 ltac:(lia)).
  pose proof (Z.mod_pos_bound (r / 4096) 64 ltac:(lia)).
  destruct (Z.ltb_spec r 0x80); [|destruct (Z.ltb_spec r 0x800); [|destruct (Z.ltb_spec r 0x10000)]];
    repeat constructor; try lia.
  all: Z.to_euclidean_division_equations; lia.
Qed.

Lemma ofRunes_bytes rs : bytesOf (ofRunes rs) = rs ≫= encodeRune.
Proof.
  apply bytes_ofBytes. induction rs as [|r rs IH]; [constructor|]. simpl. apply Forall_app.
  split; [apply encodeRune_bytes|done].
Qed.

(** Continuation bytes are skipped. *)
Lemma decodeRunes_skip l rest : decodeRunes (length l) (l ++ rest) = decodeRunes 0 rest.
Proof. induction l as [|b l IH]; [done|]. simpl. done. Qed.

Lemma runes_ofRunes rs : Forall (λ r, isScalar r = true) rs → runes (ofRunes rs) = rs.
Proof.
  intros H. unfold runes. rewrite ofRunes_bytes. induction H as [|r rs Hr _ IH]; [done|].
  cbn [mbind list_bind]. destruct (decodeRune_encode r (rs ≫= encodeRune) Hr) as (b & l & -> & Hd).
  cbn [app decodeRunes]. rewrite Hd. cbn [Nat.pred]. by rewrite decodeRunes_skip, IH.
Qed.

(** [strings.ToValidUTF8(s, "\uFFFD")]: a run of invalid bytes becomes one U+FFFD. *)
Fixpoint validRunes (skip : nat) (invalid : bool) (l : list Z) : list Z :=
  match l with
  | [] => []
  | b :: l' =>
      match skip with
      | S k => validRunes k invalid l'
      | O =>
          let '(r, w) := decodeRune b l' in
          if (r =? runeError) && (w =? 1)%nat
          then (if invalid then [] else [runeError]) ++ validRunes 0 true l'
          else r :: validRunes (Nat.pred w) false l'
      end
  end.
Definition ToValidUTF8 (s : string) : string := ofRunes (validRunes 0 false (bytesOf s)).

Lemma validRunes_skip l i rest : validRunes (length l) i (l ++ rest) = validRunes 0 i rest.
Proof. induction l as [|b l IH]; [done|]. simpl. done. Qed.

Lemma validRunes_encoded rs i : Forall (λ r, isScalar r = true) rs → validRunes 0 i (rs ≫= encodeRune) = rs.
Proof.
  intros H. revert i. induction H as [|r rs Hr _ IH]; intros i; [done|].
  cbn [mbind list_bind]. destruct (decodeRune_encode r (rs ≫= encodeRune) Hr) as (b & l & E & Hd).
  rewrite E. cbn [app validRunes]. rewrite Hd.
  assert ((r =? runeError) && (S (length l) =? 1)%nat = false) as ->.
  { destruct (Z.eqb_spec r runeError) as [->|]; [|done]. vm_compute in E. by injection E as <- <-. }
  cbn [Nat.pred]. by rewrite validRunes_skip, IH.
Qed.

Lemma validRunes_scalar l k i :
  Forall (λ b, 0 <= b < 256) l → Forall (λ r, isScalar r = true) (validRunes k i l).
Proof.
  intros H. revert k i; induction H as [|b l Hb Hl IH]; intros k i; [constructor|]. cbn [validRunes].
  destruct k as [|k]; [|done]. pose proof (decodeRune_scalar b l ltac:(lia) Hl) as Hs.
  destruct (decodeRune b l) as [r w]. destruct ((r =? runeError) && (w =? 1)%nat).
  - apply Forall_app. split; [|done]. destruct i; by repeat constructor.
  - by constructor.
Qed.

Lemma ToValidUTF8_valid s : validUtf8 (ToValidUTF8 s) = true.
Proof.
  apply bool_decide_eq_true. unfold ToValidUTF8. by rewrite runes_ofRunes by apply validRunes_scalar, bytesOf_range.
Qed.

Lemma ToValidUTF8_same s : validUtf8 s = true → ToValidUTF8 s = s.
Proof.
  intros H%bool_decide_eq_true. unfold ToValidUTF8.
  assert (bytesOf s = runes s ≫= encodeRune) as -> by (rewrite <- ofRunes_bytes; congruence).
  rewrite validRunes_encoded by apply runes_scalar. done.
Qed.

Lemma HasPrefix_app p s : HasPrefix (p +:+ s) p = true.
Proof.
  unfold HasPrefix. induction p as [|c p IH]; [by destruct s|].
  change (String c p +:+ s) with (String c (p +:+ s)). cbn [String.prefix]. by destruct (ascii_dec c c).
Qed.
