(* ===== verification/SpecTypes.v ===== *)
(** * The authored workflow spec

    The data of [internal/spec/spec.go].  A Go struct is a [Record] whose fields
    carry a two-letter prefix; a Go [map[string]T] is a [gmap string T]; a raw JSON
    document is the string of its bytes; [uint32] fields are [Z] in [0, 2^32).
    An [omitempty] string that is absent is the empty string, as in Go. *)

From S2P Require Import Prelude.

Definition NodeKindStart : string := "start".
Definition NodeKindStep : string := "step".
Definition NodeKindDecision : string := "decision".
Definition NodeKindSelect : string := "select".
Definition NodeKindMap : string := "map".
Definition NodeKindEnd : string := "end".
Definition NodeKindExitHook : string := "exit-hook".
Definition MapItemFailuresCollect : string := "collect".

Record DecisionCase := { dc_Tag : string; dc_Schema : string }.
Record SelectInput := { si_Case : string; si_Source : string }.

Record GraphNode := {
  gn_ID : string;
  gn_Kind : string;
  gn_InputSchema : string;
  gn_OutputSchema : string;
  gn_SymbolRef : string;
  gn_ContractRef : string;
  gn_MergeInputs : list string;
  gn_Selector : string;
  gn_Cases : list DecisionCase;
  gn_DecisionRef : string;
  gn_SelectInputs : list SelectInput;
  gn_ItemInputSchema : string;
  gn_ItemOutputSchema : string;
  gn_MaxConcurrency : Z;
  gn_ItemFailures : string;
}.

(** The zero value of the struct: what indexing a map at a missing key returns. *)
Definition zeroNode : GraphNode :=
  {| gn_ID := ""; gn_Kind := ""; gn_InputSchema := ""; gn_OutputSchema := "";
     gn_SymbolRef := ""; gn_ContractRef := ""; gn_MergeInputs := []; gn_Selector := "";
     gn_Cases := []; gn_DecisionRef := ""; gn_SelectInputs := []; gn_ItemInputSchema := "";
     gn_ItemOutputSchema := ""; gn_MaxConcurrency := 0; gn_ItemFailures := "" |}.

Record GraphEdge := { ge_From : string; ge_To : string; ge_Case : string }.

Record Graph := {
  gr_IRVersion : string;
  gr_Start : string;
  gr_End : string;
  gr_Nodes : list GraphNode;
  gr_Edges : list GraphEdge;
  gr_ExitHook : option GraphNode;
}.

Record HashingSpec := {
  hs_Algorithm : string;
  hs_Canonicalization : string;
  hs_Recipe : string;
  hs_RecipeVersion : Z;
}.

Record Workflow := {
  wf_Name : string;
  wf_InputSchema : string;
  wf_OutputSchema : string;
  wf_DeadlineSeconds : Z;
}.

Record Symbol := {
  sy_PackageID : string;
  sy_Language : string;
  sy_Module : string;
  sy_Export : string;
}.

Record SourcePackageFile := { sf_Path : string; sf_Hash : string }.

Record SourcePackage := {
  sp_PackageID : string;
  sp_Language : string;
  sp_PackageHash : string;
  sp_Hashing : HashingSpec;
  sp_Files : list SourcePackageFile;
}.

Record Environment := {
  en_Kind : string;
  en_Image : string;
  en_Platform : string;
  en_Command : list string;
  en_WorkingDirectory : string;
  en_Version : string;
  en_PackageManager : string;
  en_Lockfile : string;
}.

Record RetryPolicy := {
  rp_MaxAttempts : Z;
  rp_DelaySeconds : Z;
  rp_BackoffFactor : Z;
  rp_MaxDelaySeconds : Z;
}.

Record ResourceRequirements := { rr_CPU : string; rr_Memory : string }.
Record SecretRef := { sr_Name : string; sr_Ref : string }.
Record NetworkPolicy := { np_Egress : string; np_Hosts : list string }.

Record ExecutionContract := {
  ec_EnvironmentRef : string;
  ec_Retry : option RetryPolicy;
  ec_TimeoutSeconds : Z;
  ec_Resources : option ResourceRequirements;
  ec_Secrets : list SecretRef;
  ec_Network : option NetworkPolicy;
}.

Record WorkflowSpec := {
  ws_Kind : string;
  ws_SchemaVersion : Z;
  ws_Encoding : string;
  ws_Hashing : HashingSpec;
  ws_SpecHash : string;
  ws_Workflow : Workflow;
  ws_Graph : Graph;
  ws_Schemas : gmap string string;
  ws_Symbols : gmap string Symbol;
  ws_SourcePackages : gmap string SourcePackage;
  ws_Environments : gmap string Environment;
  ws_Contracts : gmap string ExecutionContract;
}.

(** A validation finding: where, about what, and why. *)
Record Diagnostic := { dg_Path : string; dg_Ref : string; dg_Message : string }.

(** [Diagnostic.String] *)
Definition Diagnostic_String (d : Diagnostic) : string :=
  if bool_decide (dg_Ref d = "") then dg_Path d +:+ ": " +:+ dg_Message d
  else dg_Path d +:+ " (" +:+ dg_Ref d +:+ "): " +:+ dg_Message d.

#[global] Instance DecisionCase_eq_dec : EqDecision DecisionCase.
Proof. solve_decision. Defined.
#[global] Instance SelectInput_eq_dec : EqDecision SelectInput.
Proof. solve_decision. Defined.
#[global] Instance GraphNode_eq_dec : EqDecision GraphNode.
Proof. solve_decision. Defined.
#[global] Instance GraphEdge_eq_dec : EqDecision GraphEdge.
Proof. solve_decision. Defined.
#[global] Instance Diagnostic_eq_dec : EqDecision Diagnostic.
Proof. solve_decision. Defined.

(** [node.Kind == k] *)
Definition isKind (k : string) (n : GraphNode) : bool := bool_decide (gn_Kind n = k).

(** The map a Go loop builds with [m[key(x)] = x]: a later entry wins. *)
Definition indexBy {A} (key : A → string) (l : list A) : gmap string A :=
  foldl (λ m x, <[key x := x]> m) ∅ l.

(** [m[key] = append(m[key], x)] *)
Definition appendAt {A} (key : string) (x : A) (m : gmap string (list A)) : gmap string (list A) :=
  <[key := default [] (m !! key) ++ [x]]> m.

(** [m[key]] where the zero value is the empty slice. *)
Definition at_ {A} (m : gmap string (list A)) (key : string) : list A := default [] (m !! key).

Lemma indexBy_snoc {A} (key : A → string) l x :
  indexBy key (l ++ [x]) = <[key x := x]> (indexBy key l).
Proof. unfold indexBy. by rewrite foldl_app. Qed.

Lemma indexBy_is_Some {A} (key : A → string) l k :
  is_Some (indexBy key l !! k) ↔ k ∈ map key l.
Proof.
  induction l as [|x l IH] using rev_ind; simpl.
  - unfold indexBy; simpl. rewrite lookup_empty. split; [by intros []|by inversion 1].
  - rewrite indexBy_snoc, map_app, elem_of_app. simpl. rewrite list_elem_of_singleton.
    destruct (decide (key x = k)) as [->|Hne].
    + rewrite lookup_insert_eq. naive_solver.
    + rewrite lookup_insert_ne by done. rewrite IH. naive_solver.
Qed.

Lemma indexBy_key {A} (key : A → string) l k x : indexBy key l !! k = Some x → key x = k ∧ x ∈ l.
Proof.
  induction l as [|y l IH] using rev_ind; [done|].
  rewrite indexBy_snoc, elem_of_app. simpl. rewrite list_elem_of_singleton.
  destruct (decide (key y = k)) as [<-|Hne].
  - rewrite lookup_insert_eq. intros [= <-]. auto.
  - rewrite lookup_insert_ne by done. intros Hl. destruct (IH Hl). auto.
Qed.

Lemma indexBy_NoDup {A} (key : A → string) l x :
  NoDup (map key l) → x ∈ l → indexBy key l !! key x = Some x.
Proof.
  induction l as [|y l IH] using rev_ind; [by inversion 2|].
  rewrite map_app, NoDup_app, elem_of_app. simpl. rewrite list_elem_of_singleton.
  intros (Hnd & Hdis & _) [Hx| ->]; rewrite indexBy_snoc; [|by rewrite lookup_insert_eq].
  rewrite lookup_insert_ne; [by apply IH|]. intros E.
  apply (Hdis (key x)); [|rewrite <- E; by left].
  by apply (list_elem_of_fmap_2 key).
Qed.

Lemma at_appendAt {A} (m : gmap string (list A)) k x k' :
  at_ (appendAt k x m) k' = if decide (k = k') then at_ m k' ++ [x] else at_ m k'.
Proof.
  unfold at_, appendAt. case_decide as E; [subst|].
  - by rewrite lookup_insert_eq.
  - by rewrite lookup_insert_ne.
Qed.
