(* ===== verification/PlanTypes.v ===== *)
(** * The compiled workflow plan

    The protobuf messages of [conformance/schema/planpb] that the compiler writes and every
    reader of a plan takes.  An [optional] scalar is an [option]: Go keeps a pointer.  The
    generated getters return the zero value of a field that is absent ([GetString],
    [GetUint32]); a repeated message field holds messages, never nil. *)

From S2P Require Import Prelude SpecTypes.
#[local] Open Scope Z_scope.

Definition GetString (field : option string) : string := default "" field.
Definition GetUint32 (field : option Z) : Z := default 0 field.

Record PlanArtifactRef := { pa_Key : option string; pa_Hash : option string; pa_ContentType : option string }.

Record PlanHashing := {
  ph_Algorithm : option string;
  ph_Canonicalization : option string;
  ph_Recipe : option string;
  ph_RecipeVersion : option Z;
}.

Record PlanCase := { pk_Tag : option string; pk_Schema : option string }.
Record PlanSelectInput := { pi_Case : option string; pi_Source : option string }.

Record PlanNode := {
  pn_Id : option string;
  pn_Kind : option string;
  pn_InputSchema : option string;
  pn_OutputSchema : option string;
  pn_SymbolRef : option string;
  pn_ContractRef : option string;
  pn_MergeInputs : list string;
  pn_Selector : option string;
  pn_Cases : list PlanCase;
  pn_DecisionRef : option string;
  pn_SelectInputs : list PlanSelectInput;
  pn_ItemInputSchema : option string;
  pn_ItemOutputSchema : option string;
  pn_MaxConcurrency : option Z;
  pn_ItemFailures : option string;
}.

Record PlanEdge := { pe_From : option string; pe_To : option string; pe_Case : option string }.

Record GraphIR := {
  gi_WorkflowName : option string;
  gi_InputSchema : option string;
  gi_OutputSchema : option string;
  gi_StartNode : option string;
  gi_EndNode : option string;
  gi_Nodes : list PlanNode;
  gi_Edges : list PlanEdge;
  gi_IrVersion : option string;
  gi_DeadlineSeconds : option Z;
  gi_ExitHook : option PlanNode;
}.

Record SchemaEntry := { se_Hash : option string; se_CanonicalJson : option string }.

Record SymbolEntry := {
  ye_SymbolRef : option string;
  ye_PackageId : option string;
  ye_Language : option string;
  ye_Module : option string;
  ye_Export : option string;
}.

Record SourcePackageRef := {
  kr_PackageId : option string;
  kr_Language : option string;
  kr_PackageHash : option string;
  kr_Manifest : option PlanArtifactRef;
  kr_SourceArchive : option PlanArtifactRef;
  kr_Hashing : option PlanHashing;
}.

Record ContainerRequirement := {
  ct_Image : option string;
  ct_Platform : option string;
  ct_Command : list string;
  ct_WorkingDirectory : option string;
}.
Record NodeRequirement := {
  nr_Version : option string;
  nr_PackageManager : option string;
  nr_Lockfile : option string;
}.
(** The [oneof runtime] of an environment. *)
Inductive RuntimeRequirement : Type :=
  | RuntimeContainer (c : ContainerRequirement)
  | RuntimeNode (n : NodeRequirement).
Record EnvironmentRequirement := {
  er_EnvRef : option string;
  er_Runtime : option RuntimeRequirement;
}.

Record PlanRetry := {
  pt_MaxAttempts : option Z;
  pt_DelaySeconds : option Z;
  pt_BackoffFactor : option Z;
  pt_MaxDelaySeconds : option Z;
}.
Record PlanResources := { pr_Cpu : option string; pr_Memory : option string }.
Record PlanSecret := { px_Name : option string; px_Ref : option string }.
Record PlanNetwork := { pw_Egress : option string; pw_Hosts : list string }.

Record PlanContract := {
  pc_ContractRef : option string;
  pc_EnvironmentRef : option string;
  pc_Resources : option PlanResources;
  pc_Secrets : list PlanSecret;
  pc_Network : option PlanNetwork;
  pc_Retry : option PlanRetry;
  pc_TimeoutSeconds : option Z;
}.

Record TargetPlan := {
  tp_Kind : option string;
  tp_TargetHash : option string;
  tp_BundleManifest : option PlanArtifactRef;
}.

Record CompilerProvenance := {
  cp_CompilerName : option string;
  cp_CompilerVersion : option string;
  cp_SourceSpecHash : option string;
}.

Record WorkflowPlan := {
  wp_SchemaVersion : option Z;
  wp_PlanHash : option string;
  wp_SpecHash : option string;
  wp_Graph : option GraphIR;
  wp_Schemas : list SchemaEntry;
  wp_Symbols : list SymbolEntry;
  wp_SourcePackages : list SourcePackageRef;
  wp_Environments : list EnvironmentRequirement;
  wp_Contracts : list PlanContract;
  wp_Targets : list TargetPlan;
  wp_DatastoreManifests : list PlanArtifactRef;
  wp_Provenance : option CompilerProvenance;
  wp_Hashing : option PlanHashing;
  wp_SpecHashing : option PlanHashing;
}.

(** [plan.PlanHash = hash]; [envelope.EnvRef = ref]; [contract.ContractRef = ref]. *)
Definition setPlanHash (hash : option string) (p : WorkflowPlan) : WorkflowPlan :=
  {| wp_SchemaVersion := wp_SchemaVersion p; wp_PlanHash := hash; wp_SpecHash := wp_SpecHash p;
     wp_Graph := wp_Graph p; wp_Schemas := wp_Schemas p; wp_Symbols := wp_Symbols p;
     wp_SourcePackages := wp_SourcePackages p; wp_Environments := wp_Environments p;
     wp_Contracts := wp_Contracts p; wp_Targets := wp_Targets p;
     wp_DatastoreManifests := wp_DatastoreManifests p; wp_Provenance := wp_Provenance p;
     wp_Hashing := wp_Hashing p; wp_SpecHashing := wp_SpecHashing p |}.
Definition setEnvRef (ref : option string) (r : EnvironmentRequirement) : EnvironmentRequirement :=
  {| er_EnvRef := ref; er_Runtime := er_Runtime r |}.
Definition setContractRef (ref : option string) (c : PlanContract) : PlanContract :=
  {| pc_ContractRef := ref; pc_EnvironmentRef := pc_EnvironmentRef c; pc_Resources := pc_Resources c;
     pc_Secrets := pc_Secrets c; pc_Network := pc_Network c; pc_Retry := pc_Retry c;
     pc_TimeoutSeconds := pc_TimeoutSeconds c |}.

(** The messages the compiler hashes or encodes. *)
Inductive Message : Type :=
  | MPlan (p : WorkflowPlan)
  | MEnvironment (r : EnvironmentRequirement)
  | MContract (c : PlanContract)
  | MNode (n : PlanNode).

#[export] Instance PlanArtifactRef_eq_dec : EqDecision PlanArtifactRef.
Proof. solve_decision. Defined.
#[export] Instance PlanHashing_eq_dec : EqDecision PlanHashing.
Proof. solve_decision. Defined.
#[export] Instance PlanCase_eq_dec : EqDecision PlanCase.
Proof. solve_decision. Defined.
#[export] Instance PlanSelectInput_eq_dec : EqDecision PlanSelectInput.
Proof. solve_decision. Defined.
#[export] Instance PlanNode_eq_dec : EqDecision PlanNode.
Proof. solve_decision. Defined.
#[export] Instance PlanEdge_eq_dec : EqDecision PlanEdge.
Proof. solve_decision. Defined.
#[export] Instance GraphIR_eq_dec : EqDecision GraphIR.
Proof. solve_decision. Defined.
#[export] Instance SchemaEntry_eq_dec : EqDecision SchemaEntry.
Proof. solve_decision. Defined.
#[export] Instance SymbolEntry_eq_dec : EqDecision SymbolEntry.
Proof. solve_decision. Defined.
#[export] Instance SourcePackageRef_eq_dec : EqDecision SourcePackageRef.
Proof. solve_decision. Defined.
#[export] Instance ContainerRequirement_eq_dec : EqDecision ContainerRequirement.
Proof. solve_decision. Defined.
#[export] Instance NodeRequirement_eq_dec : EqDecision NodeRequirement.
Proof. solve_decision. Defined.
#[export] Instance RuntimeRequirement_eq_dec : EqDecision RuntimeRequirement.
Proof. solve_decision. Defined.
#[export] Instance EnvironmentRequirement_eq_dec : EqDecision EnvironmentRequirement.
Proof. solve_decision. Defined.
#[export] Instance PlanRetry_eq_dec : EqDecision PlanRetry.
Proof. solve_decision. Defined.
#[export] Instance PlanResources_eq_dec : EqDecision PlanResources.
Proof. solve_decision. Defined.
#[export] Instance PlanSecret_eq_dec : EqDecision PlanSecret.
Proof. solve_decision. Defined.
#[export] Instance PlanNetwork_eq_dec : EqDecision PlanNetwork.
Proof. solve_decision. Defined.
#[export] Instance PlanContract_eq_dec : EqDecision PlanContract.
Proof. solve_decision. Defined.
#[export] Instance TargetPlan_eq_dec : EqDecision TargetPlan.
Proof. solve_decision. Defined.
#[export] Instance CompilerProvenance_eq_dec : EqDecision CompilerProvenance.
Proof. solve_decision. Defined.
#[export] Instance WorkflowPlan_eq_dec : EqDecision WorkflowPlan.
Proof. solve_decision. Defined.

(** ** The authored view of a plan node

    What the getters of a compiled node return, as the [spec.GraphNode] the plan validator
    builds from them ([plan/controlflow.go]). *)
Definition authoredNode (n : PlanNode) : GraphNode :=
  {| gn_ID := GetString (pn_Id n); gn_Kind := GetString (pn_Kind n);
     gn_InputSchema := GetString (pn_InputSchema n); gn_OutputSchema := GetString (pn_OutputSchema n);
     gn_SymbolRef := GetString (pn_SymbolRef n); gn_ContractRef := GetString (pn_ContractRef n);
     gn_MergeInputs := pn_MergeInputs n; gn_Selector := GetString (pn_Selector n);
     gn_Cases := map (λ c, {| dc_Tag := GetString (pk_Tag c); dc_Schema := GetString (pk_Schema c) |}) (pn_Cases n);
     gn_DecisionRef := GetString (pn_DecisionRef n);
     gn_SelectInputs := map (λ i, {| si_Case := GetString (pi_Case i); si_Source := GetString (pi_Source i) |})
                          (pn_SelectInputs n);
     gn_ItemInputSchema := GetString (pn_ItemInputSchema n);
     gn_ItemOutputSchema := GetString (pn_ItemOutputSchema n);
     gn_MaxConcurrency := GetUint32 (pn_MaxConcurrency n); gn_ItemFailures := GetString (pn_ItemFailures n) |}.
Definition authoredEdge (e : PlanEdge) : GraphEdge :=
  {| ge_From := GetString (pe_From e); ge_To := GetString (pe_To e); ge_Case := GetString (pe_Case e) |}.

(** A node with no field set. *)
Definition emptyPlanNode : PlanNode :=
  {| pn_Id := None; pn_Kind := None; pn_InputSchema := None; pn_OutputSchema := None; pn_SymbolRef := None;
     pn_ContractRef := None; pn_MergeInputs := []; pn_Selector := None; pn_Cases := []; pn_DecisionRef := None;
     pn_SelectInputs := []; pn_ItemInputSchema := None; pn_ItemOutputSchema := None; pn_MaxConcurrency := None;
     pn_ItemFailures := None |}.
