(* ===== verification/TopoOrder.v ===== *)
(** * The reference topological order

    Three routines of the program order a workflow graph: [BuildSchedule]
    ([internal/plan/schedule.go]), [graphTopologicalOrder] ([internal/spec/spec.go])
    and [topologicalPlanOrder] ([internal/orchestrator/orchestrator.go]).  This file
    states what they promise: [topoOrder] repeatedly emits the UTF-16-least node all
    of whose predecessors have been emitted.  The files of the three routines prove
    that each computes it; the properties of the order are proved here once. *)

From S2P Require Import Prelude Utf16.

(** ** Paths and cycles *)
Section Graph.
Context (edges : list (string * string)).

Definition edgeRel (u v : string) : Prop := (u, v) ∈ edges.
Definition acyclic : Prop := ∀ x, ¬ tc edgeRel x x.
End Graph.

(** How often [n] occurs in [l]. *)
Definition countOf (n : string) (l : list string) : nat := length (filter (n =.) l).

Lemma countOf_cons n x l :
  countOf n (x :: l) = if decide (n = x) then S (countOf n l) else countOf n l.
Proof. unfold countOf. rewrite filter_cons. by case_decide. Qed.
Lemma countOf_app n l1 l2 : countOf n (l1 ++ l2) = (countOf n l1 + countOf n l2)%nat.
Proof. unfold countOf. by rewrite filter_app, length_app. Qed.
Lemma countOf_pos n l : (0 < countOf n l)%nat ↔ n ∈ l.
Proof.
  induction l as [|x l IH].
  - split; [unfold countOf; simpl; lia|by inversion 1].
  - rewrite countOf_cons, elem_of_cons. case_decide; naive_solver lia.
Qed.
#[global] Instance countOf_proper n : Proper ((≡ₚ) ==> (=)) (countOf n).
Proof. intros l1 l2 H. unfold countOf. by rewrite H. Qed.

Section Reference.
Context (nodes : list string) (edges : list (string * string)).

(** Inbound edges of [n] whose source has not been emitted. *)
Definition pendingIn (P : list string) (n : string) : nat :=
  length (filter (λ e, e.2 = n ∧ e.1 ∉ P) edges).

Definition frontier (P : list string) : list string :=
  sortUTF16 (filter (λ n, (n ∉ P) ∧ pendingIn P n = 0%nat) nodes).

Fixpoint kahnRef (fuel : nat) (P : list string) : list string :=
  match fuel with
  | O => P
  | S fuel' =>
      match frontier P with
      | [] => P
      | c :: _ => kahnRef fuel' (P ++ [c])
      end
  end.

Definition topoOrder : list string := kahnRef (length nodes) [].

(** Every emitted node's predecessors were emitted before it. *)
Definition predsFirst (P : list string) : Prop :=
  ∀ P1 n P2, P = P1 ++ n :: P2 → pendingIn P1 n = 0%nat.

Lemma pendingIn_zero P n : pendingIn P n = 0%nat ↔ ∀ u, (u, n) ∈ edges → u ∈ P.
Proof.
  unfold pendingIn. rewrite length_zero_iff_nil. split.
  - intros H u Hu. destruct (decide (u ∈ P)) as [|Hn]; [done|]. exfalso.
    assert ((u, n) ∈ filter (λ e, e.2 = n ∧ e.1 ∉ P) edges) as Hin
      by (apply list_elem_of_filter; done).
    rewrite H in Hin. by inversion Hin.
  - intros H.
    destruct (filter _ edges) as [|[u v] l] eqn:E; [done|]. exfalso.
    assert ((u, v) ∈ filter (λ e, e.2 = n ∧ e.1 ∉ P) edges) as Hin
      by (rewrite E; left).
    apply list_elem_of_filter in Hin as [[Hv Hu] Hin]; simpl in *; subst. eauto.
Qed.

Lemma pendingIn_snoc P c n :
  c ∉ P →
  pendingIn P n = (countOf n (map snd (filter (λ e, e.1 = c) edges)) + pendingIn (P ++ [c]) n)%nat.
Proof.
  intros Hc. unfold pendingIn, countOf. induction edges as [|[u v] es IH]; [done|].
  rewrite !filter_cons; simpl.
  repeat case_decide; simpl; rewrite ?filter_cons; simpl; repeat case_decide; simpl;
    subst; try lia; set_solver.
Qed.

Lemma pendingIn_mono P c n : (pendingIn (P ++ [c]) n ≤ pendingIn P n)%nat.
Proof.
  destruct (decide (c ∈ P)) as [Hc|Hc].
  - unfold pendingIn. induction edges as [|[u v] es IH]; [done|].
    rewrite !filter_cons; simpl. repeat case_decide; simpl; try lia; set_solver.
  - rewrite (pendingIn_snoc P c n) by done. lia.
Qed.

Lemma elem_of_frontier P n : n ∈ frontier P ↔ n ∈ nodes ∧ (n ∉ P) ∧ pendingIn P n = 0%nat.
Proof. unfold frontier. rewrite elem_of_sortUTF16, list_elem_of_filter. naive_solver. Qed.

Record emitted (P : list string) : Prop := {
  em_NoDup : NoDup P;
  em_nodes : ∀ n, n ∈ P → n ∈ nodes;
  em_preds : predsFirst P;
}.

Lemma predsFirst_snoc P c : predsFirst P → pendingIn P c = 0%nat → predsFirst (P ++ [c]).
Proof.
  intros HP Hc P1 n P2 E.
  destruct P2 as [|x P2 _] using rev_ind.
  - apply app_inj_tail in E as [-> ->]. done.
  - rewrite app_comm_cons, app_assoc in E. apply app_inj_tail in E as [E _].
    by apply (HP P1 n P2).
Qed.

Lemma emitted_step P c R : emitted P → frontier P = c :: R → emitted (P ++ [c]).
Proof.
  intros [Hnd Hin Hp] HF.
  assert (c ∈ frontier P) as Hc by (rewrite HF; left).
  apply elem_of_frontier in Hc as (Hcn & HcP & Hc0). split.
  - apply NoDup_app. split_and!; [done|set_solver|apply NoDup_singleton].
  - set_solver.
  - by apply predsFirst_snoc.
Qed.

Lemma emitted_preds_in P n u : emitted P → n ∈ P → (u, n) ∈ edges → u ∈ P.
Proof.
  intros [_ _ Hp] Hn Hu. apply list_elem_of_split in Hn as (P1 & P2 & ->).
  specialize (Hp P1 n P2 eq_refl). rewrite pendingIn_zero in Hp. set_solver.
Qed.

Lemma emitted_nil : emitted [].
Proof. split; [constructor|set_solver|]. intros [|] ? ? ?; done. Qed.

Lemma kahnRef_emitted fuel P : emitted P → emitted (kahnRef fuel P).
Proof.
  revert P; induction fuel as [|f IH]; intros P HP; simpl; [done|].
  destruct (frontier P) as [|c R] eqn:E; [done|]. eapply IH, emitted_step; eauto.
Qed.

Theorem topoOrder_emitted : emitted topoOrder.
Proof. apply kahnRef_emitted, emitted_nil. Qed.

(** The fuel [length nodes] is enough: the search stops on an empty frontier. *)
Lemma kahnRef_done fuel P :
  NoDup nodes → emitted P → (length nodes ≤ fuel + length P)%nat →
  frontier (kahnRef fuel P) = [].
Proof.
  intros Hnd. revert P; induction fuel as [|f IH]; intros P HP Hlen; simpl.
  - destruct (frontier P) as [|c R] eqn:E; [done|]. exfalso.
    pose proof (emitted_step _ _ _ HP E) as [Hnd' Hin _].
    assert (length (P ++ [c]) ≤ length nodes)%nat.
    { apply submseteq_length, NoDup_submseteq; [done|]. intros x. apply Hin. }
    rewrite length_app in *; simpl in *. lia.
  - destruct (frontier P) as [|c R] eqn:E; [done|].
    apply IH; [eapply emitted_step; eauto|]. rewrite length_app; simpl. lia.
Qed.

Lemma topoOrder_done : NoDup nodes → frontier topoOrder = [].
Proof. intros H. apply kahnRef_done; [done|apply emitted_nil|simpl; lia]. Qed.
End Reference.

(** ** Completeness: every node is emitted exactly when the graph is acyclic *)
Section Cycles.
Context (edges : list (string * string)).

Lemma StronglySorted_dup (R : relation string) (l : list string) :
  StronglySorted R l → ¬ NoDup l → ∃ x, R x x.
Proof.
  induction 1 as [|x l _ IH Hall]; intros Hn; [by destruct Hn; constructor|].
  destruct (decide (x ∈ l)) as [Hx|Hx].
  - rewrite Forall_forall in Hall. eauto.
  - apply IH. intros ?. apply Hn. by constructor.
Qed.

Lemma backwards_chain (S : list string) n :
  S ≠ [] → (∀ x, x ∈ S → ∃ u, u ∈ S ∧ (u, x) ∈ edges) →
  ∃ x p, length p = n ∧ StronglySorted (tc (edgeRel edges)) (x :: p) ∧ ∀ y, y ∈ x :: p → y ∈ S.
Proof.
  intros Hne HS. induction n as [|n (x & p & Hl & Hs & Hin)].
  - destruct S as [|x S']; [done|]. exists x, []. split_and!; [done|repeat constructor|].
    set_solver.
  - destruct (HS x (Hin x ltac:(left))) as (u & Hu & Hux).
    exists u, (x :: p). split_and!; [simpl; congruence| |set_solver].
    constructor; [done|]. apply StronglySorted_inv in Hs as [_ Hall].
    constructor; [by apply tc_once|].
    eapply Forall_impl; [done|]. intros y Hy; simpl in *. by eapply tc_l.
Qed.

(** A finite set in which every node has a predecessor contains a cycle. *)
Lemma stuck_cycle (S : list string) :
  S ≠ [] → (∀ x, x ∈ S → ∃ u, u ∈ S ∧ (u, x) ∈ edges) → ∃ x, tc (edgeRel edges) x x.
Proof.
  intros Hne HS. destruct (backwards_chain S (length S) Hne HS) as (x & p & Hl & Hs & Hin).
  eapply StronglySorted_dup; [done|]. intros Hnd.
  assert (length (x :: p) ≤ length S)%nat; [|simpl in *; lia].
  apply submseteq_length, NoDup_submseteq; auto.
Qed.

Context (nodes : list string).
Context (Hnodes : NoDup nodes).
Context (Hclosed : ∀ u v, (u, v) ∈ edges → u ∈ nodes ∧ v ∈ nodes).

Lemma emitted_before P u v P1 P2 :
  emitted nodes edges P → tc (edgeRel edges) u v → P = P1 ++ v :: P2 → u ∈ P1.
Proof.
  intros [_ _ Hp] Huv. revert P1 P2.
  induction Huv as [u v Huv|u w v Huw _ IH]; intros P1 P2 E.
  - specialize (Hp _ _ _ E). rewrite pendingIn_zero in Hp. by apply Hp.
  - specialize (IH _ _ E). apply list_elem_of_split in IH as (Q1 & Q2 & ->).
    rewrite <- app_assoc in E; simpl in E.
    specialize (Hp _ _ _ E). rewrite pendingIn_zero in Hp. apply elem_of_app. left. by apply Hp.
Qed.

Lemma tc_head x y : tc (edgeRel edges) x y → ∃ w, (x, w) ∈ edges.
Proof. destruct 1; eauto. Qed.

Lemma complete_acyclic P :
  emitted nodes edges P → (∀ n, n ∈ nodes → n ∈ P) → acyclic edges.
Proof.
  intros HP Hall x Hx.
  assert (x ∈ nodes) as Hxn
    by (destruct (tc_head _ _ Hx) as [w Hw]; by apply (Hclosed _ _ Hw)).
  apply Hall, list_elem_of_split in Hxn as (P1 & P2 & E).
  pose proof (emitted_before _ _ _ _ _ HP Hx E) as Hin.
  destruct HP as [Hnd _ _]. rewrite E, NoDup_app in Hnd.
  destruct Hnd as (_ & Hdis & _). by apply (Hdis x Hin); left.
Qed.

(** An order that no node can extend covers an acyclic graph. *)
Lemma stuck_complete P :
  frontier nodes edges P = [] → acyclic edges → ∀ n, n ∈ nodes → n ∈ P.
Proof.
  intros Hstuck Hac n Hn. destruct (decide (n ∈ P)) as [|Hnot]; [done|]. exfalso.
  destruct (stuck_cycle (filter (λ x, x ∉ P) nodes)) as [x Hx]; [| |by apply (Hac x)].
  - intros E. assert (n ∈ filter (λ x, x ∉ P) nodes) as Hin
      by (by apply list_elem_of_filter). rewrite E in Hin. by inversion Hin.
  - intros x [HxP Hx]%list_elem_of_filter.
    assert (pendingIn edges P x ≠ 0%nat) as Hpend.
    { intros H0. assert (x ∈ frontier nodes edges P) as Hf by (by apply elem_of_frontier).
      rewrite Hstuck in Hf. by inversion Hf. }
    unfold pendingIn in Hpend.
    destruct (filter (λ e, e.2 = x ∧ e.1 ∉ P) edges) as [|[u v] l] eqn:E; [done|].
    assert ((u, v) ∈ filter (λ e, e.2 = x ∧ e.1 ∉ P) edges) as Hin by (rewrite E; left).
    apply list_elem_of_filter in Hin as [[Hv Hu] Hin]; simpl in *; subst v.
    exists u. split; [|done]. apply list_elem_of_filter. split; [done|].
    by apply (Hclosed u x).
Qed.

Lemma emitted_complete_iff P :
  emitted nodes edges P → frontier nodes edges P = [] →
  length P = length nodes ↔ acyclic edges.
Proof.
  intros HP Hstuck. split.
  - intros Hlen. apply (complete_acyclic _ HP).
    destruct HP as [Hnd Hin _].
    assert (P ≡ₚ nodes) as HPerm.
    { apply submseteq_length_Permutation; [by apply NoDup_submseteq|lia]. }
    intros n. by rewrite HPerm.
  - intros Hac. destruct HP as [Hnd Hin _]. apply Permutation_length, NoDup_Permutation; [done..|].
    split; [apply Hin|by apply stuck_complete].
Qed.
End Cycles.

(** ** The order does not depend on how nodes and edges are listed *)
Section Invariance.
Context (nodes nodes' : list string) (edges edges' : list (string * string)).
Context (Hvalid : allValid nodes).
Context (Hn : nodes ≡ₚ nodes') (He : edges ≡ₚ edges').

Lemma pendingIn_perm P n : pendingIn edges P n = pendingIn edges' P n.
Proof. unfold pendingIn. by rewrite He. Qed.

Lemma frontier_perm P : frontier nodes edges P = frontier nodes' edges' P.
Proof.
  unfold frontier. apply sortUTF16_proper.
  - unfold allValid. rewrite Forall_forall. intros x [_ Hx]%list_elem_of_filter.
    unfold allValid in Hvalid. rewrite Forall_forall in Hvalid. auto.
  - rewrite Hn. apply reflexive_eq.
    apply list_filter_iff. intros x. by rewrite pendingIn_perm.
Qed.

Lemma topoOrder_perm : topoOrder nodes edges = topoOrder nodes' edges'.
Proof.
  unfold topoOrder. rewrite <- (Permutation_length Hn). generalize (length nodes) ([] : list string).
  intros fuel. induction fuel as [|f IH]; intros P; simpl; [done|].
  rewrite <- frontier_perm. destruct (frontier nodes edges P); [done|]. apply IH.
Qed.
End Invariance.
