(* ===== verification/Kahn.v ===== *)
(** * The ready-queue loop shared by the topological orders

    All three routines keep an [indegree] map, a sorted [ready] queue and the order
    emitted so far, and loop [for len(ready) > 0].  [drainReady] is that loop;
    [Engine] proves, for any loop body that decrements the successors of the popped
    node and enqueues those that reach zero, that it stops within one iteration per
    node and computes the reference order of [TopoOrder]. *)

From S2P Require Import Prelude Utf16 SpecTypes TopoOrder.
#[local] Open Scope Z_scope.

(** [m[key]] of a [map[string]int]: zero when absent. *)
Definition getZ (m : gmap string Z) (k : string) : Z := default 0 (m !! k).

Lemma getZ_insert m k v k' :
  getZ (<[k := v]> m) k' = if decide (k = k') then v else getZ m k'.
Proof.
  unfold getZ. case_decide as E; [subst; by rewrite lookup_insert_eq|by rewrite lookup_insert_ne].
Qed.

(** One step of [indegree[next]--; if indegree[next] == 0 { enqueue next }], for a
    given way to enqueue. *)
Definition relaxWith (enqueue : string → list string → list string)
    (st : gmap string Z * list string) (next : string) : gmap string Z * list string :=
  let d := getZ st.1 next - 1 in
  (<[next := d]> st.1, if d =? 0 then enqueue next st.2 else st.2).

(** [ready = append(ready, next)] *)
Definition enqueueLast (x : string) (ready : list string) : list string := ready ++ [x].

(** The loop [for len(ready) > 0 { current := ready[0]; ready = ready[1:]; ... }];
    [None] only when the fuel runs out. *)
Fixpoint drainReady {St} (ready : St → list string)
    (step : St → string → list string → St) (fuel : nat) (st : St) : option St :=
  match ready st with
  | [] => Some st
  | current :: rest =>
      match fuel with
      | O => None
      | S fuel' => drainReady ready step fuel' (step st current rest)
      end
  end.

(** [for nodeID, degree := range indegree { if degree == 0 { append } }] *)
Definition zeroDegree (indegree : gmap string Z) : list string :=
  (filter (λ kv, kv.2 = 0) (map_to_list indegree)).*1.

(** [adjacency[edge.From] = append(adjacency[edge.From], edge.To)] *)
Definition addAdjacency (m : gmap string (list string)) (e : GraphEdge) : gmap string (list string) :=
  appendAt (ge_From e) (ge_To e) m.
(** [indegree[edge.To]++] *)
Definition addIndegree (m : gmap string Z) (e : GraphEdge) : gmap string Z :=
  <[ge_To e := getZ m (ge_To e) + 1]> m.

(** The endpoints of an edge, as the reference order sees it. *)
Definition edgePair (e : GraphEdge) : string * string := (ge_From e, ge_To e).

(** ** The loops over nodes and edges *)
Lemma addAdjacency_fold es m c :
  at_ (foldl addAdjacency m es) c =
  at_ m c ++ map snd (filter (λ e, e.1 = c) (map edgePair es)).
Proof.
  revert m; induction es as [|e es IH]; intros m; simpl; [by rewrite app_nil_r|].
  rewrite IH. unfold addAdjacency. rewrite at_appendAt, filter_cons; simpl.
  case_decide; simpl; [by rewrite <- app_assoc|done].
Qed.

Lemma addIndegree_fold es m n :
  getZ (foldl addIndegree m es) n = getZ m n + Z.of_nat (countOf n (map ge_To es)).
Proof.
  revert m; induction es as [|e es IH]; intros m; simpl; [unfold countOf; simpl; lia|].
  rewrite IH. unfold addIndegree. rewrite getZ_insert, countOf_cons.
  repeat case_decide; subst; try done; lia.
Qed.

Lemma addIndegree_dom es m n :
  is_Some (foldl addIndegree m es !! n) ↔ is_Some (m !! n) ∨ n ∈ map ge_To es.
Proof.
  revert m; induction es as [|e es IH]; intros m; simpl.
  - split; [by left|]. intros [?|H]; [done|by inversion H].
  - rewrite IH. unfold addIndegree. rewrite elem_of_cons.
    destruct (decide (ge_To e = n)) as [->|Hne].
    + rewrite lookup_insert_eq. naive_solver.
    + rewrite lookup_insert_ne by done. naive_solver.
Qed.

(** [indegree[node.ID] = 0] for every node. *)
Definition initIndegree (ids : list string) : gmap string Z := foldl (λ m n, <[n := 0]> m) ∅ ids.

Lemma initIndegree_lookup ids n :
  initIndegree ids !! n = if decide (n ∈ ids) then Some 0 else None.
Proof.
  unfold initIndegree. induction ids as [|x ids IH] using rev_ind; [done|].
  rewrite foldl_app; simpl. destruct (decide (x = n)) as [->|Hne].
  - rewrite lookup_insert_eq, decide_True; [done|]. rewrite elem_of_app. right; left.
  - rewrite lookup_insert_ne, IH by done. repeat case_decide; try done;
      rewrite elem_of_app, list_elem_of_singleton in *; naive_solver.
Qed.

Lemma getZ_initIndegree ids n : getZ (initIndegree ids) n = 0.
Proof. unfold getZ. rewrite initIndegree_lookup. by case_decide. Qed.

Lemma pendingIn_nil es n : pendingIn (map edgePair es) [] n = countOf n (map ge_To es).
Proof.
  unfold pendingIn, countOf. induction es as [|e es IH]; [done|]; simpl.
  rewrite !filter_cons; simpl. pose proof (not_elem_of_nil (ge_From e)).
  repeat case_decide; simpl; rewrite ?IH; naive_solver.
Qed.

(** The nodes that a pass over [l] brings to zero, each once, are exactly those
    whose indegree is positive and covered by their occurrences in [l]. *)
Lemma relax_spec enqueue l indeg ready :
  (∀ x r, enqueue x r ≡ₚ r ++ [x]) →
  ∃ new,
    (∀ n, getZ (foldl (relaxWith enqueue) (indeg, ready) l).1 n
          = getZ indeg n - Z.of_nat (countOf n l)) ∧
    (foldl (relaxWith enqueue) (indeg, ready) l).2 ≡ₚ ready ++ new ∧
    NoDup new ∧
    (∀ n, n ∈ new ↔ 1 <= getZ indeg n <= Z.of_nat (countOf n l)).
Proof.
  intros Henq. induction l as [|x l (new & Hget & Hready & Hnd & Hnew)] using rev_ind.
  - exists []. split_and!; simpl; [intros n|by rewrite app_nil_r|constructor|intros n];
      unfold countOf; simpl; [lia|set_solver by lia].
  - rewrite foldl_app; simpl.
    destruct (foldl (relaxWith enqueue) (indeg, ready) l) as [indeg' ready']; simpl in *.
    assert (∀ n, countOf n (l ++ [x]) = if decide (n = x) then S (countOf n l) else countOf n l) as Hc.
    { intros n. rewrite countOf_app, countOf_cons. unfold countOf at 2 3; simpl.
      case_decide; lia. }
    destruct (Z.eqb_spec (getZ indeg' x - 1) 0) as [Hz|Hz].
    + exists (new ++ [x]). split_and!.
      * intros n. rewrite getZ_insert, Hc, !Hget. repeat case_decide; subst; try done; lia.
      * rewrite Henq, Hready, <- app_assoc. done.
      * apply NoDup_app. split_and!; [done| |apply NoDup_singleton].
        intros n Hn%Hnew ->%list_elem_of_singleton. rewrite Hget in Hz. lia.
      * intros n. rewrite elem_of_app, Hnew, list_elem_of_singleton, Hc.
        rewrite Hget in Hz. case_decide; subst; [|intuition lia]. split; [lia|by right].
    + exists new. split_and!; [|done..|].
      * intros n. rewrite getZ_insert, Hc, !Hget. repeat case_decide; subst; try done; lia.
      * intros n. rewrite Hnew, Hc. rewrite Hget in Hz. case_decide; subst; lia.
Qed.

Section Engine.
Context {St : Type} (ready order : St → list string) (indeg : St → gmap string Z) (inOrder : list string → Prop).
Context (step : St → string → list string → St).
Context (nodes : list string) (edges : list (string * string)) (adj : string → list string).
Context (Hnodes : NoDup nodes).
Context (Hclosed : ∀ u v, (u, v) ∈ edges → u ∈ nodes ∧ v ∈ nodes).
Context (Hadj : ∀ c, adj c ≡ₚ map snd (filter (λ e, e.1 = c) edges)).

(** What the body of the loop does to the three variables. *)
Definition stepOk : Prop := ∀ st c rest, ready st = c :: rest →
  ∃ new,
    order (step st c rest) = order st ++ [c] ∧
    (∀ n, getZ (indeg (step st c rest)) n = getZ (indeg st) n - Z.of_nat (countOf n (adj c))) ∧
    ready (step st c rest) ≡ₚ rest ++ new ∧ NoDup new ∧
    (∀ n, n ∈ new ↔ 1 <= getZ (indeg st) n <= Z.of_nat (countOf n (adj c))) ∧
    (inOrder (c :: rest) → inOrder (ready (step st c rest))).

Record queueInv (st : St) : Prop := {
  qi_emitted : emitted nodes edges (order st);
  qi_indeg : ∀ n, getZ (indeg st) n = Z.of_nat (pendingIn edges (order st) n);
  qi_NoDup : NoDup (ready st);
  qi_ready : ∀ n, n ∈ ready st ↔ n ∈ frontier nodes edges (order st);
  qi_sorted : inOrder (ready st);
}.

Lemma queueInv_frontier st :
  (∀ l, inOrder l → StronglySorted utf16_le l) → allValid nodes → queueInv st → ready st = frontier nodes edges (order st).
Proof.
  intros Hsorted Hv [_ _ Hnd Hr Hs%Hsorted]. unfold frontier. apply sortUTF16_unique; [| |done].
  - unfold allValid in *. rewrite Forall_forall in *. intros x [_ Hx]%list_elem_of_filter. auto.
  - apply NoDup_Permutation; [done|by apply NoDup_filter|].
    intros n. rewrite Hr. unfold frontier. by rewrite elem_of_sortUTF16.
Qed.

(** The queue before the first iteration: the nodes of indegree zero. *)
Lemma queueInv_init st indegree :
  order st = [] → indeg st = indegree → ready st ≡ₚ zeroDegree indegree → inOrder (ready st) →
  (∀ n, getZ indegree n = Z.of_nat (pendingIn edges [] n)) →
  (∀ n, is_Some (indegree !! n) ↔ n ∈ nodes) → queueInv st.
Proof.
  intros Ho Hi Hr Hs Hget Hdom. split.
  - rewrite Ho. apply emitted_nil.
  - intros n. by rewrite Hi, Ho.
  - rewrite Hr. unfold zeroDegree.
    apply NoDup_fmap_fst; [|apply NoDup_filter, NoDup_map_to_list].
    intros x y1 y2 [_ H1%elem_of_map_to_list]%list_elem_of_filter
      [_ H2%elem_of_map_to_list]%list_elem_of_filter. by simplify_eq.
  - intros n. rewrite Hr, Ho, elem_of_frontier. unfold zeroDegree.
    rewrite list_elem_of_fmap. specialize (Hget n). specialize (Hdom n).
    unfold getZ in Hget. split.
    + intros ([k v] & -> & [Hv Hin%elem_of_map_to_list]%list_elem_of_filter); simpl in *; subst.
      rewrite Hin in *. simpl in Hget. split_and!; [apply Hdom; eauto|by inversion 1|lia].
    + intros (Hn & _ & H0). apply Hdom in Hn as [v Hv]. exists (n, v). split; [done|].
      rewrite Hv in Hget; simpl in Hget. apply list_elem_of_filter.
      rewrite elem_of_map_to_list. simpl. split; [lia|done].
  - done.
Qed.

Context (Hstep : stepOk).

Lemma queueInv_step st c rest :
  queueInv st → ready st = c :: rest →
  queueInv (step st c rest) ∧ order (step st c rest) = order st ++ [c].
Proof.
  intros [Hem Hdeg Hnd Hr Hs] E.
  destruct (Hstep _ _ _ E) as (new & Ho & Hd & Hrd & Hndn & Hnew & Hsort).
  assert (c ∈ frontier nodes edges (order st)) as Hc by (rewrite <- Hr, E; left).
  apply elem_of_frontier in Hc as (Hcn & HcP & Hc0).
  rewrite E in Hnd. apply NoDup_cons in Hnd as [Hcr Hnd].
  assert (∀ n, pendingIn edges (order st) n
    = (countOf n (adj c) + pendingIn edges (order st ++ [c]) n)%nat) as Hpend.
  { intros n. rewrite (pendingIn_snoc edges _ c) by done. by rewrite (Hadj c). }
  assert (∀ n, n ∈ order st → pendingIn edges (order st) n = 0%nat) as Hdone.
  { intros n Hn. apply pendingIn_zero. intros u Hu. by eapply emitted_preds_in. }
  assert (∀ n, (0 < countOf n (adj c))%nat → n ∈ nodes) as Hadjn.
  { intros n Hn%countOf_pos. rewrite (Hadj c) in Hn.
    apply list_elem_of_fmap in Hn as ([u v] & -> & [_ Hin]%list_elem_of_filter).
    by apply (Hclosed u v). }
  split; [|done]. split.
  - rewrite Ho. split.
    + apply NoDup_app. split_and!; [by destruct Hem| |apply NoDup_singleton].
      by intros x Hx ->%list_elem_of_singleton.
    + intros n [Hn| ->%list_elem_of_singleton]%elem_of_app; [by apply (em_nodes _ _ _ Hem)|done].
    + apply predsFirst_snoc; [by destruct Hem|done].
  - intros n. rewrite Ho, Hd, Hdeg, (Hpend n). lia.
  - rewrite Hrd. apply NoDup_app. split_and!; [done| |done].
    intros n Hn Hn'%Hnew. rewrite Hdeg in Hn'.
    assert (n ∈ frontier nodes edges (order st)) as (_ & _ & H0)%elem_of_frontier
      by (rewrite <- Hr, E; by right). lia.
  - intros n. rewrite Hrd, Ho, elem_of_app, Hnew, elem_of_frontier, Hdeg.
    specialize (Hr n). rewrite E, elem_of_cons, elem_of_frontier in Hr.
    specialize (Hpend n). specialize (Hdone n). specialize (Hadjn n).
    rewrite elem_of_app, list_elem_of_singleton. split.
    + intros [Hn|Hn].
      * assert (n ≠ c) by (intros ->; done). destruct (proj1 Hr (or_intror Hn)) as (? & ? & ?).
        split_and!; [done|tauto|lia].
      * split_and!; [apply Hadjn; lia|intros [?| ->]; [rewrite Hdone in Hn by done; lia|lia]|lia].
    + intros (Hnn & Hno & H0). destruct (decide (pendingIn edges (order st) n = 0%nat)) as [Hz|Hz].
      * left. destruct (proj2 Hr ltac:(tauto)) as [->|]; [|done]. exfalso; tauto.
      * right. lia.
  - apply Hsort. by rewrite <- E.
Qed.

(** The loop stops within [length nodes] iterations, on an order no node extends. *)
Lemma drainReady_total fuel st :
  queueInv st → (length nodes ≤ fuel + length (order st))%nat →
  ∃ st', drainReady ready step fuel st = Some st' ∧ queueInv st' ∧ ready st' = [].
Proof.
  revert st; induction fuel as [|f IH]; intros st Hinv Hlen; simpl.
  - destruct (ready st) as [|c rest] eqn:E; [by exists st|]. exfalso.
    destruct (queueInv_step _ _ _ Hinv E) as [[[Hnd Hin _] _ _ _ _] Ho].
    assert (length (order (step st c rest)) ≤ length nodes)%nat as Hle.
    { apply submseteq_length, NoDup_submseteq; [done|]. intros x. apply Hin. }
    rewrite Ho, length_app in Hle; simpl in *. lia.
  - destruct (ready st) as [|c rest] eqn:E; [by exists st|].
    destruct (queueInv_step _ _ _ Hinv E) as [Hinv' Ho].
    apply IH; [done|]. rewrite Ho, length_app; simpl. lia.
Qed.

(** What every iteration preserves holds at the end. *)
Lemma drainReady_ind (I : St → Prop) fuel st st' :
  (∀ st c rest, queueInv st → I st → ready st = c :: rest → I (step st c rest)) →
  queueInv st → I st → drainReady ready step fuel st = Some st' → I st'.
Proof.
  intros HI. revert st; induction fuel as [|f IH]; intros st Hinv Hst; simpl.
  - destruct (ready st); [by intros [= <-]|done].
  - destruct (ready st) as [|c rest] eqn:E; [by intros [= <-]|].
    apply IH; [by apply queueInv_step|by apply HI].
Qed.

Lemma drainReady_reference fuel st st' :
  (∀ l, inOrder l → StronglySorted utf16_le l) → allValid nodes → queueInv st → drainReady ready step fuel st = Some st' →
  order st' = kahnRef nodes edges fuel (order st).
Proof.
  intros Hsorted Hv. revert st; induction fuel as [|f IH]; intros st Hinv; simpl.
  - destruct (ready st); [by intros [= <-]|done].
  - rewrite <- queueInv_frontier by done.
    destruct (ready st) as [|c rest] eqn:E; [by intros [= <-]|]. intros H.
    destruct (queueInv_step _ _ _ Hinv E) as [Hinv' Ho]. rewrite <- Ho. by apply IH.
Qed.
End Engine.

(** ** The loop that re-sorts the queue

    [graphTopologicalOrder] and [topologicalPlanOrder] append to the queue and sort
    it again after every node; the two loops are the same text. *)
Record topoState := {
  ts_ready : list string;
  ts_indegree : gmap string Z;
  ts_order : list string;
}.

Definition topoStep (adjacency : gmap string (list string)) (st : topoState)
    (current : string) (rest : list string) : topoState :=
  let '(indegree, ready) :=
    foldl (relaxWith enqueueLast) (ts_indegree st, rest) (at_ adjacency current) in
  {| ts_ready := sortUTF16 ready; ts_indegree := indegree; ts_order := ts_order st ++ [current] |}.

(** The loop from the initial maps, with one unit of fuel per node. *)
Definition topoRun (adjacency : gmap string (list string)) (indegree : gmap string Z)
    (fuel : nat) : list string :=
  match drainReady ts_ready (topoStep adjacency) fuel
    {| ts_ready := sortUTF16 (zeroDegree indegree); ts_indegree := indegree; ts_order := [] |} with
  | Some st => ts_order st
  | None => []
  end.

Section TopoRun.
Context (ids : list string) (es : list GraphEdge).
Context (Hclosed : ∀ e, e ∈ es → ge_From e ∈ ids ∧ ge_To e ∈ ids).
Let pairs := map edgePair es.
Let nodes := remove_dups ids.
Let adjacency := foldl addAdjacency ∅ es.
Let indegree := foldl addIndegree (initIndegree ids) es.

Lemma topoStep_ok : stepOk ts_ready ts_order ts_indegree (StronglySorted utf16_le) (topoStep adjacency) (at_ adjacency).
Proof.
  intros st c rest E. unfold topoStep.
  destruct (relax_spec enqueueLast (at_ adjacency c) (ts_indegree st) rest)
    as (new & Hget & Hr & Hnd & Hnew); [done|].
  destruct (foldl (relaxWith enqueueLast) _ _) as [deg ready]; simpl in *.
  exists new. split_and!; [done|done|by rewrite sortUTF16_Permutation|done|done|].
  intros _. apply sortUTF16_sorted.
Qed.

Lemma topoRun_closed u v : (u, v) ∈ pairs → u ∈ nodes ∧ v ∈ nodes.
Proof.
  intros (e & [= -> ->] & He)%list_elem_of_fmap. unfold nodes.
  rewrite !elem_of_remove_dups. by apply Hclosed.
Qed.

Lemma topoRun_adj c : at_ adjacency c ≡ₚ map snd (filter (λ e, e.1 = c) pairs).
Proof. unfold adjacency. rewrite addAdjacency_fold. unfold at_. by rewrite lookup_empty. Qed.

Lemma topoRun_spec fuel :
  (length ids ≤ fuel)%nat →
  emitted nodes pairs (topoRun adjacency indegree fuel) ∧
  frontier nodes pairs (topoRun adjacency indegree fuel) = [] ∧
  (allValid ids → topoRun adjacency indegree fuel = kahnRef nodes pairs fuel []).
Proof.
  intros Hf. unfold topoRun.
  set (st0 := {| ts_ready := _; ts_indegree := _; ts_order := _ |}).
  assert (queueInv ts_ready ts_order ts_indegree (StronglySorted utf16_le) nodes pairs st0) as Hinit.
  { apply (queueInv_init _ _ _ _ _ _ _ indegree); [done|done|apply sortUTF16_Permutation|apply sortUTF16_sorted| |].
    - intros n. unfold indegree, pairs. rewrite addIndegree_fold, getZ_initIndegree, pendingIn_nil. lia.
    - intros n. unfold indegree, nodes. rewrite addIndegree_dom, initIndegree_lookup, elem_of_remove_dups.
      split; [|intros H; left; rewrite decide_True by done; eauto].
      intros [H|(e & -> & He)%list_elem_of_fmap]; [|by apply Hclosed].
      case_decide; [done|by destruct H]. }
  destruct (drainReady_total ts_ready ts_order ts_indegree (StronglySorted utf16_le) _ nodes pairs _
    topoRun_closed topoRun_adj topoStep_ok fuel st0 Hinit) as (st & Hrun & Hinv & Hr).
  { assert (length nodes ≤ length ids)%nat; [|simpl; lia].
    apply submseteq_length, NoDup_submseteq; [apply NoDup_remove_dups|].
    intros x. unfold nodes. by rewrite elem_of_remove_dups. }
  rewrite Hrun. split_and!; [apply Hinv| |].
  - destruct (frontier nodes pairs (ts_order st)) as [|x l] eqn:E; [done|]. exfalso.
    assert (x ∈ ts_ready st) as Hx by (rewrite (qi_ready _ _ _ _ _ _ _ Hinv), E; left).
    rewrite Hr in Hx. by inversion Hx.
  - intros Hv. change (@nil string) with (ts_order st0).
    eapply drainReady_reference; [apply NoDup_remove_dups|apply topoRun_closed|apply topoRun_adj
      |apply topoStep_ok|done| |exact Hinit|exact Hrun].
    unfold allValid, nodes in *. rewrite Forall_forall in *. intros x. rewrite elem_of_remove_dups. auto.
Qed.

(** A full-length order exists exactly for distinct ids without a cycle. *)
Lemma topoRun_complete_iff fuel :
  (length ids ≤ fuel)%nat →
  length (topoRun adjacency indegree fuel) = length ids ↔ NoDup ids ∧ acyclic pairs.
Proof.
  intros Hf. destruct (topoRun_spec fuel Hf) as (Hem & Hstuck & _).
  assert (NoDup nodes) as Hnd by apply NoDup_remove_dups.
  assert (∀ x, x ∈ nodes ↔ x ∈ ids) as Hin by (intros; apply elem_of_remove_dups).
  pose proof (emitted_complete_iff pairs nodes Hnd topoRun_closed _ Hem Hstuck) as Hiff.
  assert (length (topoRun adjacency indegree fuel) ≤ length nodes)%nat as H1.
  { apply submseteq_length, NoDup_submseteq; apply Hem. }
  assert (nodes ⊆+ ids) as Hsub by (apply NoDup_submseteq; [done|intros x; apply Hin]).
  pose proof (submseteq_length _ _ Hsub) as H2. split.
  - intros Hlen. split; [|apply Hiff; lia].
    assert (nodes ≡ₚ ids) as HP by (apply submseteq_length_Permutation; [done|lia]).
    by rewrite <- HP.
  - intros [Hids Hac]. assert (nodes ≡ₚ ids) as HP by (by apply NoDup_Permutation).
    rewrite <- HP. by apply Hiff.
Qed.

Lemma topoRun_reference fuel :
  (length ids = fuel) → NoDup ids → allValid ids →
  topoRun adjacency indegree fuel = topoOrder ids pairs.
Proof.
  intros <- Hids Hv. destruct (topoRun_spec (length ids)) as (_ & _ & Href); [lia|]. rewrite Href by done.
  assert (nodes ≡ₚ ids) as HP.
  { apply NoDup_Permutation; [apply NoDup_remove_dups|done|]. intros; apply elem_of_remove_dups. }
  rewrite <- (Permutation_length HP). apply (topoOrder_perm nodes ids); [|done|done].
  unfold allValid. by rewrite HP.
Qed.
End TopoRun.
