(* ===== verification/Schedule.v ===== *)
(** * The compiler's schedule

    [internal/plan/schedule.go]: [BuildSchedule] orders the graph's nodes, lists
    its steps in that order and records each node's depth. *)

From S2P Require Import Prelude Utf16 SpecTypes TopoOrder Kahn.
#[local] Open Scope Z_scope.

Record NodeDepth := { nd_NodeID : string; nd_Depth : Z }.
Record Schedule := {
  sc_NodeOrder : list string;
  sc_StepIDs : list string;
  sc_Depths : list NodeDepth;
}.

(** [slices.BinarySearchFunc]: halve [i, j) while it is non-empty. *)
Fixpoint bsearch (fuel : nat) (x : list string) (target : string) (i j : nat) : nat :=
  match fuel with
  | O => i
  | S fuel' =>
      if (i <? j)%nat then
        let h := ((i + j) / 2)%nat in
        if compareUTF16 (default "" (x !! h)) target <? 0
        then bsearch fuel' x target (S h) j
        else bsearch fuel' x target i h
      else i
  end.

(** [position, _ := slices.BinarySearchFunc(ready, next, compareUTF16);
     ready = slices.Insert(ready, position, next)] *)
Definition sortedInsert (next : string) (ready : list string) : list string :=
  let position := bsearch (length ready) ready next 0 (length ready) in
  take position ready ++ next :: drop position ready.

(** The variables of the scheduling loop. *)
Record schedState := {
  ss_ready : list string;
  ss_indegree : gmap string Z;
  ss_depthByID : gmap string Z;
  ss_nodeOrder : list string;
  ss_stepIDs : list string;
}.

(** [if depthByID[next] < depthByID[current]+1 { depthByID[next] = depthByID[current] + 1 }] *)
Definition raiseDepth (current : string) (depthByID : gmap string Z) (next : string) : gmap string Z :=
  if getZ depthByID next <? getZ depthByID current + 1
  then <[next := getZ depthByID current + 1]> depthByID else depthByID.

(** The body of the inner loop over [adjacency[current]]. *)
Definition scheduleNext (current : string)
    (st : (gmap string Z * list string) * gmap string Z) (next : string) :=
  (relaxWith sortedInsert st.1 next, raiseDepth current st.2 next).

(** One iteration of [for len(ready) > 0]. *)
Definition scheduleStep (nodeByID : gmap string GraphNode) (adjacency : gmap string (list string))
    (st : schedState) (current : string) (rest : list string) : schedState :=
  let '(indegree, ready, depthByID) :=
    foldl (scheduleNext current) ((ss_indegree st, rest), ss_depthByID st) (at_ adjacency current) in
  {| ss_ready := ready;
     ss_indegree := indegree;
     ss_depthByID := depthByID;
     ss_nodeOrder := ss_nodeOrder st ++ [current];
     ss_stepIDs :=
       if isKind NodeKindStep (default zeroNode (nodeByID !! current))
       then ss_stepIDs st ++ [current] else ss_stepIDs st |}.

(** The edge loop: both endpoints must exist. *)
Definition scheduleEdge (nodeByID : gmap string GraphNode)
    (acc : gmap string (list string) * gmap string Z) (edge : GraphEdge)
    : result (gmap string (list string) * gmap string Z) :=
  let '(adjacency, indegree) := acc in
  match nodeByID !! ge_From edge, nodeByID !! ge_To edge with
  | None, _ => Err (Errorf "schedule graph: edge source %q does not exist" [AStr (ge_From edge)])
  | _, None => Err (Errorf "schedule graph: edge target %q does not exist" [AStr (ge_To edge)])
  | Some _, Some _ =>
      Ok (addAdjacency adjacency edge, addIndegree indegree edge)
  end.

Definition BuildSchedule (graph : Graph) : result Schedule :=
  let nodeByID := indexBy gn_ID (gr_Nodes graph) in
  let indegree0 := initIndegree (map gn_ID (gr_Nodes graph)) in
  '(adjacency, indegree) ← foldErr (scheduleEdge nodeByID) (∅, indegree0) (gr_Edges graph);
  let adjacency := sortUTF16 <$> adjacency in
  let ready := sortUTF16 (zeroDegree indegree) in
  let st0 := {| ss_ready := ready; ss_indegree := indegree; ss_depthByID := ∅;
                ss_nodeOrder := []; ss_stepIDs := [] |} in
  match drainReady ss_ready (scheduleStep nodeByID adjacency) (length (gr_Nodes graph)) st0 with
  | None => Err (PanicError "unreachable: more iterations than nodes")
  | Some st =>
      if (length (ss_nodeOrder st) =? length (gr_Nodes graph))%nat then
        Ok {| sc_NodeOrder := ss_nodeOrder st;
              sc_StepIDs := ss_stepIDs st;
              sc_Depths := map (λ nodeID, {| nd_NodeID := nodeID;
                                            nd_Depth := getZ (ss_depthByID st) nodeID |})
                               (ss_nodeOrder st) |}
      else Err (ErrNew "schedule graph: graph contains a cycle")
  end.

(** ** The sorted insert *)
Lemma compareUTF16_neg a b : (compareUTF16 a b <? 0) = LessUTF16 a b.
Proof. unfold compareUTF16. destruct (LessUTF16 a b), (LessUTF16 b a); done. Qed.

Lemma StronglySorted_lookup (l : list string) i j x y :
  StronglySorted utf16_le l → l !! i = Some x → l !! j = Some y → (i ≤ j)%nat → utf16_le x y.
Proof.
  intros Hs. revert i j; induction Hs as [|z l Hs IH Hall]; intros [|i] [|j] Hi Hj Hle;
    simpl in *; simplify_eq; try lia.
  - apply LessUTF16_irrefl.
  - rewrite Forall_forall in Hall. apply Hall. by eapply list_elem_of_lookup_2.
  - eapply IH; eauto; lia.
Qed.

Lemma bsearch_spec fuel l t i j :
  StronglySorted utf16_le l → (i ≤ j ≤ length l)%nat → (j ≤ fuel + i)%nat →
  (∀ k x, (k < i)%nat → l !! k = Some x → LessUTF16 x t = true) →
  (∀ k x, (j ≤ k)%nat → l !! k = Some x → LessUTF16 x t = false) →
  let p := bsearch fuel l t i j in
  (p ≤ length l)%nat ∧
  (∀ k x, (k < p)%nat → l !! k = Some x → LessUTF16 x t = true) ∧
  (∀ k x, (p ≤ k)%nat → l !! k = Some x → LessUTF16 x t = false).
Proof.
  intros Hs. revert i j; induction fuel as [|f IH]; intros i j Hij Hf Hlo Hhi; cbn [bsearch].
  { assert (i = j) as -> by lia. split_and!; [lia|done..]. }
  destruct (Nat.ltb_spec i j) as [Hlt|Hge]; [|assert (i = j) as -> by lia; split_and!; [lia|done..]].
  set (h := ((i + j) / 2)%nat).
  assert (i ≤ h < j)%nat as Hh.
  { unfold h. split; [apply Nat.div_le_lower_bound; lia|apply Nat.Div0.div_lt_upper_bound; lia]. }
  destruct (lookup_lt_is_Some_2 l h) as [y Hy]; [lia|].
  rewrite Hy. cbn [default from_option id]. rewrite compareUTF16_neg. destruct (LessUTF16 y t) eqn:E.
  - apply (IH (S h) j); [lia..| |done]. intros k x Hk Hx.
    destruct (LessUTF16 x t) eqn:Ex; [done|].
    assert (utf16_le x y) as Hxy by (eapply (StronglySorted_lookup l k h); eauto; lia).
    assert (utf16_le t y) as Hty by (eapply transitivity; [|exact Hxy]; done).
    unfold utf16_le in Hty. congruence.
  - apply (IH i h); [lia..|done|]. intros k x Hk Hx.
    destruct (LessUTF16 x t) eqn:Ex; [|done].
    assert (utf16_le y x) as Hyx by (eapply (StronglySorted_lookup l h k); eauto).
    unfold utf16_le in Hyx.
    destruct (LessUTF16 t y) eqn:Et.
    + pose proof (LessUTF16_trans _ _ _ Ex Et). congruence.
    + assert (utf16_le t x) as Htx by (eapply (transitivity (y := y)); [exact E|done]).
      unfold utf16_le in Htx. congruence.
Qed.

Lemma sortedInsert_Permutation x l : sortedInsert x l ≡ₚ l ++ [x].
Proof.
  unfold sortedInsert. set (p := bsearch _ _ _ _ _).
  rewrite <- Permutation_middle, take_drop. apply Permutation_cons_append.
Qed.

Lemma sortedInsert_sorted x l :
  StronglySorted utf16_le l → StronglySorted utf16_le (sortedInsert x l).
Proof.
  intros Hs. unfold sortedInsert.
  destruct (bsearch_spec (length l) l x 0 (length l)) as (Hp & Hlo & Hhi);
    [done|lia|lia|intros; lia|intros k y Hk Hy; apply lookup_lt_Some in Hy; lia|].
  set (p := bsearch _ _ _ _ _) in *.
  assert (∀ y, y ∈ take p l → LessUTF16 y x = true) as Htake.
  { intros y [k Hk]%list_elem_of_lookup. apply lookup_take_Some in Hk as [Hk Hlt]. eauto. }
  assert (∀ y, y ∈ drop p l → LessUTF16 y x = false) as Hdrop.
  { intros y [k Hk]%list_elem_of_lookup. rewrite lookup_drop in Hk. eapply Hhi; [|done]. lia. }
  rewrite <- (take_drop p l) in Hs. apply StronglySorted_app in Hs as (Hcross & Hs1 & Hs2).
  apply StronglySorted_app. split_and!; [|done|].
  - intros a b Ha [->|Hb]%elem_of_cons; [|by apply Hcross].
    unfold utf16_le. by apply LessUTF16_asymm, Htake.
  - constructor; [done|]. rewrite Forall_forall. intros y Hy. by apply Hdrop.
Qed.

Lemma relaxSorted_sorted st l :
  StronglySorted utf16_le st.2 → StronglySorted utf16_le (foldl (relaxWith sortedInsert) st l).2.
Proof.
  revert st; induction l as [|x l IH]; intros st Hs; simpl; [done|].
  apply IH. unfold relaxWith; simpl. case_match; [by apply sortedInsert_sorted|done].
Qed.

(** The inner loop updates the queue and the depths independently. *)
Lemma scheduleNext_fold current l ir d :
  foldl (scheduleNext current) (ir, d) l =
  (foldl (relaxWith sortedInsert) ir l, foldl (raiseDepth current) d l).
Proof. revert ir d; induction l as [|x l IH]; intros ir d; simpl; [done|]. apply IH. Qed.

(** ** The loop body as a step of the reference order *)
Section Loop.
Context (graph : Graph).
Let ids := map gn_ID (gr_Nodes graph).
Let es := map edgePair (gr_Edges graph).
Let nodeByID := indexBy gn_ID (gr_Nodes graph).

(** Every edge joins two nodes of the graph. *)
Definition edgesClosed : Prop :=
  ∀ e, e ∈ gr_Edges graph → ge_From e ∈ ids ∧ ge_To e ∈ ids.

Lemma nodeByID_dom n : is_Some (nodeByID !! n) ↔ n ∈ ids.
Proof. apply indexBy_is_Some. Qed.

Lemma scheduleEdge_closed l adj deg :
  (∀ e, e ∈ l → ge_From e ∈ ids ∧ ge_To e ∈ ids) →
  foldErr (scheduleEdge nodeByID) (adj, deg) l =
    Ok (foldl addAdjacency adj l, foldl addIndegree deg l).
Proof.
  revert adj deg; induction l as [|e l IH]; intros adj deg H; [done|].
  cbn [foldErr]. destruct (H e ltac:(left)) as [H1 H2].
  apply nodeByID_dom in H1 as [x1 H1], H2 as [x2 H2].
  unfold scheduleEdge at 2. rewrite H1, H2. simpl. apply IH. intros; apply H; by right.
Qed.

Lemma scheduleEdge_open l adj deg :
  isOk (foldErr (scheduleEdge nodeByID) (adj, deg) l) = true →
  ∀ e, e ∈ l → ge_From e ∈ ids ∧ ge_To e ∈ ids.
Proof.
  revert adj deg; induction l as [|e l IH]; intros adj deg H e' He'; [by inversion He'|].
  cbn [foldErr] in H. unfold scheduleEdge at 2 in H.
  destruct (nodeByID !! ge_From e) eqn:E1; [|done].
  destruct (nodeByID !! ge_To e) eqn:E2; [|done]. simpl in H.
  apply elem_of_cons in He' as [->|He']; [|by eapply IH].
  split; apply nodeByID_dom; eauto.
Qed.

Let nodes := (map_to_list nodeByID).*1.
Let adjacency := sortUTF16 <$> foldl addAdjacency ∅ (gr_Edges graph).
Let indegree := foldl addIndegree (initIndegree ids) (gr_Edges graph).

Lemma nodes_NoDup : NoDup nodes.
Proof. apply NoDup_fst_map_to_list. Qed.
Lemma elem_of_nodes n : n ∈ nodes ↔ n ∈ ids.
Proof.
  unfold nodes. rewrite <- nodeByID_dom, list_elem_of_fmap. split.
  - intros ([k v] & -> & H%elem_of_map_to_list). by eexists.
  - intros [v Hv]. exists (n, v). by rewrite elem_of_map_to_list.
Qed.

Context (Hclosed : edgesClosed).

Lemma es_closed u v : (u, v) ∈ es → u ∈ nodes ∧ v ∈ nodes.
Proof.
  intros (e & [= -> ->] & He)%list_elem_of_fmap. rewrite !elem_of_nodes. by apply Hclosed.
Qed.

Lemma adjacency_spec c : at_ adjacency c ≡ₚ map snd (filter (λ e, e.1 = c) es).
Proof.
  unfold adjacency, at_. rewrite lookup_fmap.
  pose proof (addAdjacency_fold (gr_Edges graph) ∅ c) as H.
  unfold at_ in H. rewrite lookup_empty in H. simpl in H. fold es in H. rewrite <- H.
  destruct (foldl addAdjacency ∅ (gr_Edges graph) !! c); simpl; [|done].
  apply sortUTF16_Permutation.
Qed.

Definition scheduleInit : schedState :=
  {| ss_ready := sortUTF16 (zeroDegree indegree); ss_indegree := indegree;
     ss_depthByID := ∅; ss_nodeOrder := []; ss_stepIDs := [] |}.

Let inv := queueInv ss_ready ss_nodeOrder ss_indegree (StronglySorted utf16_le) nodes es.

Lemma scheduleInit_inv : inv scheduleInit.
Proof.
  apply (queueInv_init _ _ _ _ _ _ _ indegree); [done|done|apply sortUTF16_Permutation|apply sortUTF16_sorted| |].
  - intros n. unfold indegree, es. rewrite addIndegree_fold, getZ_initIndegree, pendingIn_nil. lia.
  - intros n. unfold indegree. rewrite addIndegree_dom, initIndegree_lookup, elem_of_nodes.
    split; [|intros H; left; rewrite decide_True by done; eauto].
    intros [H|(e & -> & He)%list_elem_of_fmap]; [|by apply Hclosed].
    case_decide; [done|by destruct H].
Qed.

Lemma scheduleStep_ok :
  stepOk ss_ready ss_nodeOrder ss_indegree (StronglySorted utf16_le) (scheduleStep nodeByID adjacency) (at_ adjacency).
Proof.
  intros st c rest E. unfold scheduleStep. rewrite scheduleNext_fold.
  destruct (relax_spec sortedInsert (at_ adjacency c) (ss_indegree st) rest
    sortedInsert_Permutation) as (new & Hget & Hr & Hnd & Hnew).
  pose proof (relaxSorted_sorted (ss_indegree st, rest) (at_ adjacency c)) as Hsort.
  destruct (foldl (relaxWith sortedInsert) _ _) as [deg ready]; simpl in *.
  exists new. split_and!; [done..|]. intros [Hs _]%StronglySorted_inv. by apply Hsort.
Qed.
End Loop.

(** ** Depths are longest paths *)
Section Depth.
Context (edges : list (string * string)).

Record depthInv (P : list string) (d : gmap string Z) : Prop := {
  di_nonneg : ∀ n, 0 <= getZ d n;
  di_lower : ∀ u n, (u, n) ∈ edges → u ∈ P → getZ d u + 1 <= getZ d n;
  di_reached : ∀ n, getZ d n = 0 ∨ ∃ u, u ∈ P ∧ (u, n) ∈ edges ∧ getZ d n = getZ d u + 1;
}.

Lemma raiseDepth_fold c d l n :
  c ∉ l →
  getZ (foldl (raiseDepth c) d l) n =
  if decide (n ∈ l) then Z.max (getZ d n) (getZ d c + 1) else getZ d n.
Proof.
  revert d; induction l as [|x l IH]; intros d Hc; cbn [foldl].
  - by rewrite decide_False by apply not_elem_of_nil.
  - apply not_elem_of_cons in Hc as [Hcx Hc]. rewrite IH by done.
    assert (∀ m, getZ (raiseDepth c d x) m =
      if decide (m = x) then Z.max (getZ d m) (getZ d c + 1) else getZ d m) as Hr.
    { intros m. unfold raiseDepth. destruct (Z.ltb_spec (getZ d x) (getZ d c + 1));
        rewrite ?getZ_insert; repeat case_decide; subst; try done; lia. }
    rewrite !Hr. repeat case_decide; subst; try done; try lia; set_solver.
Qed.

(** Popping [c], none of whose successors has been emitted, keeps the invariant. *)
Lemma depthInv_step P d c l :
  c ∉ l → (∀ n, n ∈ l ↔ (c, n) ∈ edges) → (∀ n, n ∈ l → n ∉ P) →
  depthInv P d → depthInv (P ++ [c]) (foldl (raiseDepth c) d l).
Proof.
  intros Hc Hl HlP [Hnn Hlow Hr].
  assert (∀ u, u ∈ P → getZ (foldl (raiseDepth c) d l) u = getZ d u) as HP.
  { intros u Hu. rewrite raiseDepth_fold by done. case_decide as Hul; [|done].
    by destruct (HlP u Hul). }
  assert (getZ (foldl (raiseDepth c) d l) c = getZ d c) as Hcc.
  { rewrite raiseDepth_fold by done. by rewrite decide_False. }
  split.
  - intros n. rewrite raiseDepth_fold by done. specialize (Hnn n). case_decide; lia.
  - intros u n Hun [Hu| ->%list_elem_of_singleton]%elem_of_app.
    + rewrite (HP u Hu), (raiseDepth_fold c d l n) by done. specialize (Hlow u n Hun Hu). case_decide; lia.
    + apply Hl in Hun as Hn. rewrite Hcc, (raiseDepth_fold c d l n) by done.
      rewrite decide_True by done. lia.
  - intros n. rewrite (raiseDepth_fold c d l n) by done. case_decide as Hn.
    + destruct (Z.max_spec (getZ d n) (getZ d c + 1)) as [[_ ->]|[_ ->]].
      * right. exists c. rewrite Hcc. split_and!; [set_solver|by apply Hl|done].
      * destruct (Hr n) as [|(u & Hu & Hun & E)]; [by left|]. right. exists u.
        rewrite HP by done. split_and!; [set_solver|done..].
    + destruct (Hr n) as [|(u & Hu & Hun & E)]; [by left|]. right. exists u.
      rewrite HP by done. split_and!; [set_solver|done..].
Qed.

(** [d] is the length of a longest path that ends in [n]. *)
Definition longestPathTo (n : string) (d : Z) : Prop :=
  0 <= d ∧ (∃ u, nsteps (edgeRel edges) (Z.to_nat d) u n) ∧
  ∀ k u, nsteps (edgeRel edges) k u n → Z.of_nat k <= d.

Lemma depthInv_longest P d :
  (∀ u n, (u, n) ∈ edges → n ∈ P → u ∈ P) → depthInv P d →
  ∀ n, n ∈ P → longestPathTo n (getZ d n).
Proof.
  intros Hclosed [Hnn Hlow Hr] n Hn. split_and!; [done| |].
  - remember (Z.to_nat (getZ d n)) as k eqn:Ek. revert n Hn Ek.
    induction k as [|k IH]; intros n Hn Ek; [exists n; constructor|].
    destruct (Hr n) as [H0|(u & Hu & Hun & E)]; [lia|].
    destruct (IH u Hu) as [w Hw]; [specialize (Hnn u); lia|].
    exists w. eapply nsteps_r; [exact Hw|done].
  - intros k. revert n Hn. induction k as [|k IH]; intros n Hn u Hsteps; [specialize (Hnn n); lia|].
    apply nsteps_inv_r in Hsteps as (w & Hw & Hwn).
    assert (w ∈ P) as HwP by (by apply (Hclosed w n)).
    specialize (IH w HwP u Hw). specialize (Hlow w n Hwn HwP). lia.
Qed.
End Depth.

(** ** What the schedule is *)
Section Result.
Context (graph : Graph).
Let ids := map gn_ID (gr_Nodes graph).
Let es := map edgePair (gr_Edges graph).
Let nodeByID := indexBy gn_ID (gr_Nodes graph).
Let nodes := (map_to_list nodeByID).*1.
Let adjacency := sortUTF16 <$> foldl addAdjacency ∅ (gr_Edges graph).
Let inv := queueInv ss_ready ss_nodeOrder ss_indegree (StronglySorted utf16_le) nodes es.
Let isStep n := isKind NodeKindStep (default zeroNode (nodeByID !! n)) = true.

Lemma nodes_ids_length : (length nodes ≤ length ids)%nat ∧ (length nodes = length ids ↔ NoDup ids).
Proof.
  pose proof (nodes_NoDup graph) as Hnd. pose proof (elem_of_nodes graph) as Hin.
  fold nodeByID nodes ids in Hnd, Hin. split.
  - apply submseteq_length, NoDup_submseteq; [done|]. intros x. apply Hin.
  - split.
    + intros Hlen. assert (nodes ≡ₚ ids) as HP; [|by rewrite <- HP].
      apply submseteq_length_Permutation; [|lia]. apply NoDup_submseteq; [done|].
      intros x. apply Hin.
    + intros Hids. apply Permutation_length, NoDup_Permutation; done.
Qed.

Definition loopInv (st : schedState) : Prop :=
  depthInv es (ss_nodeOrder st) (ss_depthByID st) ∧
  ss_stepIDs st = filter isStep (ss_nodeOrder st).

Lemma loopInv_step st c rest :
  edgesClosed graph → inv st → loopInv st → ss_ready st = c :: rest →
  loopInv (scheduleStep nodeByID adjacency st c rest).
Proof.
  intros Hcl Hinv [Hd Hs] E.
  assert (c ∈ frontier nodes es (ss_nodeOrder st)) as (_ & HcP & Hc0)%elem_of_frontier
    by (rewrite <- (qi_ready _ _ _ _ _ _ _ Hinv), E; left).
  rewrite pendingIn_zero in Hc0.
  assert (∀ n, n ∈ at_ adjacency c ↔ (c, n) ∈ es) as Hadj.
  { intros n. pose proof (adjacency_spec graph c) as Hadj. fold adjacency es in Hadj.
    rewrite Hadj, list_elem_of_fmap. split.
    - intros ([u v] & -> & [Hu Huv]%list_elem_of_filter); simpl in *; by subst.
    - intros Hn. exists (c, n). by rewrite list_elem_of_filter. }
  unfold loopInv, scheduleStep. rewrite scheduleNext_fold.
  destruct (foldl (relaxWith sortedInsert) _ _) as [deg ready]; simpl. split.
  - apply depthInv_step; [|done| |done].
    + intros Hcc%Hadj. by apply HcP, Hc0.
    + intros n Hn%Hadj HnP. apply HcP.
      by eapply (emitted_preds_in nodes es); [apply (qi_emitted _ _ _ _ _ _ _ Hinv)| |].
  - rewrite filter_app, <- Hs, filter_cons, filter_nil. unfold isStep.
    destruct (isKind _ _); simpl; [done|by rewrite app_nil_r].
Qed.

(** On a closed graph the loop ends, on an order no node extends. *)
Lemma BuildSchedule_run :
  edgesClosed graph → ∃ st,
    inv st ∧ ss_ready st = [] ∧ loopInv st ∧
    (allValid nodes → ss_nodeOrder st = kahnRef nodes es (length (gr_Nodes graph)) []) ∧
    BuildSchedule graph =
      (if (length (ss_nodeOrder st) =? length (gr_Nodes graph))%nat then
         Ok {| sc_NodeOrder := ss_nodeOrder st; sc_StepIDs := ss_stepIDs st;
               sc_Depths := map (λ n, {| nd_NodeID := n; nd_Depth := getZ (ss_depthByID st) n |})
                                (ss_nodeOrder st) |}
       else Err (ErrNew "schedule graph: graph contains a cycle")).
Proof.
  intros Hcl.
  pose proof (scheduleInit_inv graph Hcl) as Hinit.
  pose proof (scheduleStep_ok graph) as Hstep.
  pose proof (drainReady_total ss_ready ss_nodeOrder ss_indegree (StronglySorted utf16_le) _ nodes es _
    (es_closed graph Hcl) (adjacency_spec graph) Hstep
    (length (gr_Nodes graph)) (scheduleInit graph) Hinit) as (st & Hrun & Hinv & Hr).
  { pose proof nodes_ids_length as [Hle _]. unfold ids in Hle. rewrite length_map in Hle. simpl. lia. }
  exists st. split_and!; [done|done| | |].
  - eapply drainReady_ind; [apply (es_closed graph Hcl)|apply (adjacency_spec graph)|exact Hstep|
      |exact Hinit| |exact Hrun].
    + intros. by apply loopInv_step.
    + split; [|done]. split; simpl; [done|set_solver|by left].
  - intros Hv. change (@nil string) with (ss_nodeOrder (scheduleInit graph)).
    eapply (drainReady_reference ss_ready ss_nodeOrder ss_indegree (StronglySorted utf16_le));
      [apply nodes_NoDup|apply (es_closed graph Hcl)|apply (adjacency_spec graph)|exact Hstep
      |done|done|exact Hinit|exact Hrun].
  - unfold BuildSchedule. rewrite (scheduleEdge_closed graph) by done. simpl.
    change (drainReady _ _ _ _) with (drainReady ss_ready (scheduleStep nodeByID adjacency)
      (length (gr_Nodes graph)) (scheduleInit graph)).
    by replace (drainReady _ _ _ _) with (Some st).
Qed.

Lemma BuildSchedule_closed s : BuildSchedule graph = Ok s → edgesClosed graph.
Proof.
  unfold BuildSchedule. intros H e He. eapply scheduleEdge_open; [|done].
  destruct (foldErr _ _ _) as [a|e'] eqn:E; [by rewrite E|]. simpl in H. discriminate.
Qed.

(** Everything a successful call returns, in one statement. *)
Lemma BuildSchedule_Ok s : BuildSchedule graph = Ok s →
  NoDup ids ∧ sc_NodeOrder s ≡ₚ ids ∧ emitted nodes es (sc_NodeOrder s) ∧
  sc_StepIDs s = filter isStep (sc_NodeOrder s) ∧
  (allValid ids → sc_NodeOrder s = topoOrder ids es) ∧
  ∃ d, depthInv es (sc_NodeOrder s) d ∧
    sc_Depths s = map (λ n, {| nd_NodeID := n; nd_Depth := getZ d n |}) (sc_NodeOrder s).
Proof.
  intros H. pose proof (BuildSchedule_closed _ H) as Hcl.
  destruct (BuildSchedule_run Hcl) as (st & Hinv & Hr & [Hd Hs] & Href & E).
  rewrite E in H. destruct (Nat.eqb_spec (length (ss_nodeOrder st)) (length (gr_Nodes graph)))
    as [Hlen|]; [|done]. injection H as <-. simpl.
  pose proof (qi_emitted _ _ _ _ _ _ _ Hinv) as Hem.
  pose proof (elem_of_nodes graph) as Hin. fold nodeByID nodes ids in Hin.
  pose proof (nodes_NoDup graph) as Hnd. fold nodeByID nodes in Hnd.
  pose proof nodes_ids_length as [Hle Heq].
  assert (length (ss_nodeOrder st) ≤ length nodes)%nat as Hsub.
  { apply submseteq_length, NoDup_submseteq; [apply Hem|apply Hem]. }
  assert (length (gr_Nodes graph) = length ids) as Hl by (unfold ids; by rewrite length_map).
  assert (NoDup ids) as Hids by (apply Heq; lia).
  assert (nodes ≡ₚ ids) as HP by (by apply NoDup_Permutation).
  split_and!; [done| |done|done| |by eexists].
  - rewrite <- HP. apply submseteq_length_Permutation; [|lia].
    apply NoDup_submseteq; apply Hem.
  - intros Hv. rewrite Href by (unfold allValid; by rewrite HP).
    rewrite Hl, <- (Permutation_length HP).
    apply (topoOrder_perm nodes ids es es); [unfold allValid; by rewrite HP|done|done].
Qed.
End Result.

(** When [BuildSchedule] succeeds. *)
Lemma BuildSchedule_success graph :
  isOk (BuildSchedule graph) = true ↔
  edgesClosed graph ∧ NoDup (map gn_ID (gr_Nodes graph)) ∧ acyclic (map edgePair (gr_Edges graph)).
Proof.
  pose proof (nodes_NoDup graph) as Hnd. pose proof (elem_of_nodes graph) as Hin.
  pose proof (nodes_ids_length graph) as [Hle Heq]. split.
  - destruct (BuildSchedule graph) as [s|] eqn:E; [|done]. intros _.
    pose proof (BuildSchedule_closed _ _ E) as Hcl.
    destruct (BuildSchedule_Ok _ _ E) as (Hids & HP & Hem & _).
    split_and!; [done|done|]. eapply complete_acyclic; [by apply (es_closed graph)|exact Hem|].
    intros n. rewrite HP. apply Hin.
  - intros (Hcl & Hids & Hac).
    destruct (BuildSchedule_run graph Hcl) as (st & Hinv & Hr & _ & _ & ->).
    rewrite (proj2 (Nat.eqb_eq _ _)); [done|].
    rewrite <- (length_map gn_ID (gr_Nodes graph)), <- (proj2 Heq Hids).
    apply (emitted_complete_iff (map edgePair (gr_Edges graph))); try done.
    + by apply (es_closed graph).
    + apply (qi_emitted _ _ _ _ _ _ _ Hinv).
    + destruct (frontier _ _ _) as [|x l] eqn:E; [done|]. exfalso.
      assert (x ∈ ss_ready st) as Hx by (rewrite (qi_ready _ _ _ _ _ _ _ Hinv), E; left).
      rewrite Hr in Hx. by inversion Hx.
Qed.


(** The scheduled order lists every node once, puts the source of every edge
    before its target, and lists exactly the step nodes as [StepIDs], in that order. *)
Theorem BuildSchedule_topological graph s :
  BuildSchedule graph = Ok s →
  sc_NodeOrder s ≡ₚ map gn_ID (gr_Nodes graph) ∧
  (∀ e before after, e ∈ gr_Edges graph →
     sc_NodeOrder s = before ++ ge_To e :: after → ge_From e ∈ before) ∧
  sc_StepIDs s = filter (λ n, isKind NodeKindStep
    (default zeroNode (indexBy gn_ID (gr_Nodes graph) !! n)) = true) (sc_NodeOrder s).
Proof.
  intros H. destruct (BuildSchedule_Ok _ _ H) as (Hids & HP & Hem & Hs & _).
  split_and!; [done| |done]. intros e P1 P2 He E.
  pose proof (em_preds _ _ _ Hem _ _ _ E) as H0. rewrite pendingIn_zero in H0.
  apply H0, list_elem_of_fmap. by exists e.
Qed.

(** [Depths] gives, node by node in schedule order, the number of edges of a
    longest path that ends in the node. *)
Theorem BuildSchedule_depths graph s :
  BuildSchedule graph = Ok s →
  map nd_NodeID (sc_Depths s) = sc_NodeOrder s ∧
  ∀ nd, nd ∈ sc_Depths s →
    longestPathTo (map edgePair (gr_Edges graph)) (nd_NodeID nd) (nd_Depth nd).
Proof.
  intros H. destruct (BuildSchedule_Ok _ _ H) as (_ & _ & Hem & _ & _ & d & Hd & E).
  rewrite E. split; [rewrite map_map; apply map_id|].
  intros nd (n & -> & Hn)%list_elem_of_fmap; simpl.
  eapply depthInv_longest; [|done|done]. intros u v Huv Hv. by eapply emitted_preds_in.
Qed.

(** C16: The schedule is the reference order: it repeatedly emits the UTF-16-least
    node whose predecessors have all been emitted.  The binary-search insertion of
    the code is an optimisation of re-sorting the whole queue. *)
Theorem BuildSchedule_reference graph s :
  allValid (map gn_ID (gr_Nodes graph)) → BuildSchedule graph = Ok s →
  sc_NodeOrder s = topoOrder (map gn_ID (gr_Nodes graph)) (map edgePair (gr_Edges graph)).
Proof. intros Hv H. by apply (BuildSchedule_Ok _ _ H). Qed.

Lemma longestPathTo_unique edges n d1 d2 :
  longestPathTo edges n d1 → longestPathTo edges n d2 → d1 = d2.
Proof.
  intros (Hn1 & [u1 H1] & Hm1) (Hn2 & [u2 H2] & Hm2).
  apply Hm1 in H2. apply Hm2 in H1. lia.
Qed.

Lemma BuildSchedule_perm graph graph' s :
  allValid (map gn_ID (gr_Nodes graph)) →
  gr_Nodes graph ≡ₚ gr_Nodes graph' → gr_Edges graph ≡ₚ gr_Edges graph' →
  BuildSchedule graph = Ok s → BuildSchedule graph' = Ok s.
Proof.
  intros Hv Hn He H.
  assert (isOk (BuildSchedule graph) = true) as Hok by (by rewrite H).
  apply BuildSchedule_success in Hok as (Hcl & Hids & Hac).
  assert (isOk (BuildSchedule graph') = true) as Hok'.
  { apply BuildSchedule_success. split_and!.
    - intros e Hin. rewrite <- He in Hin. destruct (Hcl e Hin). by rewrite <- Hn.
    - by rewrite <- Hn.
    - intros x Hx. apply (Hac x). eapply tc_congruence with (f := id); [|exact Hx].
      intros u v Huv. unfold edgeRel in *; simpl in *. by rewrite He. }
  destruct (BuildSchedule graph') as [s'|] eqn:H'; [|done]. f_equal.
  pose proof (BuildSchedule_Ok _ _ H) as (_ & _ & Hem & Hs & Ho & d & Hd & Ed).
  pose proof (BuildSchedule_Ok _ _ H') as (_ & _ & Hem' & Hs' & Ho' & d' & Hd' & Ed').
  assert (sc_NodeOrder s' = sc_NodeOrder s) as Eo.
  { rewrite Ho by done. rewrite Ho' by (unfold allValid; by rewrite <- Hn).
    symmetry. apply topoOrder_perm; [done| |]; [by rewrite Hn|by rewrite He]. }
  destruct s as [o st ds], s' as [o' st' ds']; simpl in *; subst o'. f_equal.
  - rewrite Hs, Hs'. apply list_filter_iff. intros n.
    destruct (indexBy gn_ID (gr_Nodes graph) !! n) as [x|] eqn:E.
    + apply indexBy_key in E as [<- Hx].
      rewrite (indexBy_NoDup gn_ID (gr_Nodes graph')) by (rewrite <- Hn; done). done.
    + destruct (indexBy gn_ID (gr_Nodes graph') !! n) as [y|] eqn:E'; [|done].
      apply indexBy_key in E' as [<- Hy].
      rewrite (indexBy_NoDup gn_ID (gr_Nodes graph)) in E; [done|done|by rewrite Hn].
  - rewrite Ed, Ed'. apply map_ext_in. intros n Hn'%list_elem_of_In. f_equal.
    eapply (longestPathTo_unique (map edgePair (gr_Edges graph'))).
    + eapply depthInv_longest; [|done|done]. intros u v Huv Hvin. by eapply emitted_preds_in.
    + eapply depthInv_longest; [| |exact Hn'].
      * intros u v Huv Hvin. eapply (emitted_preds_in _ _ _ _ _ Hem Hvin). by rewrite He.
      * destruct Hd as [D0 D1 D2]. split; [done| |].
        -- intros u v Huv Hu. apply D1; [by rewrite He|done].
        -- intros v. destruct (D2 v) as [|(u & Hu & Huv & Eq)]; [by left|].
           right. exists u. split_and!; [done|by rewrite <- He|done].
Qed.

(** The order in which a frontend lists nodes and edges does not change the
    schedule. *)
Theorem BuildSchedule_declaration_order graph graph' s :
  allValid (map gn_ID (gr_Nodes graph)) →
  gr_Nodes graph ≡ₚ gr_Nodes graph' → gr_Edges graph ≡ₚ gr_Edges graph' →
  BuildSchedule graph = Ok s → BuildSchedule graph' = Ok s.
Proof. apply BuildSchedule_perm. Qed.

(** ** A concrete graph *)
Definition plainNode (id kind : string) : GraphNode :=
  {| gn_ID := id; gn_Kind := kind; gn_InputSchema := ""; gn_OutputSchema := "";
     gn_SymbolRef := ""; gn_ContractRef := ""; gn_MergeInputs := []; gn_Selector := "";
     gn_Cases := []; gn_DecisionRef := ""; gn_SelectInputs := []; gn_ItemInputSchema := "";
     gn_ItemOutputSchema := ""; gn_MaxConcurrency := 0; gn_ItemFailures := "" |}.
Definition plainEdge (a b : string) : GraphEdge := {| ge_From := a; ge_To := b; ge_Case := "" |}.
Definition diamond : Graph :=
  {| gr_IRVersion := "v0"; gr_Start := "start"; gr_End := "end";
     gr_Nodes := [plainNode "start" "start"; plainNode "b" "step"; plainNode "a" "step";
                  plainNode "join" "step"; plainNode "end" "end"];
     gr_Edges := [plainEdge "start" "b"; plainEdge "start" "a"; plainEdge "b" "join";
                  plainEdge "a" "join"; plainEdge "join" "end"];
     gr_ExitHook := None |}.
Definition diamondSchedule : Schedule :=
  {| sc_NodeOrder := ["start"; "a"; "b"; "join"; "end"];
     sc_StepIDs := ["a"; "b"; "join"];
     sc_Depths := [{| nd_NodeID := "start"; nd_Depth := 0 |}; {| nd_NodeID := "a"; nd_Depth := 1 |};
                   {| nd_NodeID := "b"; nd_Depth := 1 |}; {| nd_NodeID := "join"; nd_Depth := 2 |};
                   {| nd_NodeID := "end"; nd_Depth := 3 |}] |}.
Definition reversedDiamond : Graph :=
  {| gr_IRVersion := "v0"; gr_Start := "start"; gr_End := "end";
     gr_Nodes := rev (gr_Nodes diamond); gr_Edges := rev (gr_Edges diamond);
     gr_ExitHook := None |}.

Example diamond_schedule : BuildSchedule diamond = Ok diamondSchedule.
Proof. vm_compute. reflexivity. Qed.

Lemma diamond_valid : allValid (map gn_ID (gr_Nodes diamond)).
Proof. repeat constructor; vm_compute; reflexivity. Qed.

Lemma BuildSchedule_topological_witness :
  sc_NodeOrder diamondSchedule ≡ₚ map gn_ID (gr_Nodes diamond).
Proof. apply (BuildSchedule_topological diamond diamondSchedule). vm_compute. reflexivity. Defined.

Lemma BuildSchedule_depths_witness :
  map nd_NodeID (sc_Depths diamondSchedule) = sc_NodeOrder diamondSchedule.
Proof. apply (BuildSchedule_depths diamond diamondSchedule). vm_compute. reflexivity. Defined.

Lemma BuildSchedule_reference_witness :
  sc_NodeOrder diamondSchedule =
  topoOrder (map gn_ID (gr_Nodes diamond)) (map edgePair (gr_Edges diamond)).
Proof.
  apply (BuildSchedule_reference diamond diamondSchedule).
  - exact diamond_valid.
  - vm_compute. reflexivity.
Defined.

Lemma BuildSchedule_declaration_order_witness : BuildSchedule reversedDiamond = Ok diamondSchedule.
Proof.
  apply (BuildSchedule_declaration_order diamond reversedDiamond diamondSchedule).
  - exact diamond_valid.
  - apply Permutation_rev.
  - apply Permutation_rev.
  - vm_compute. reflexivity.
Defined.
