(* ===== verification/Reach.v ===== *)
(** * Breadth-first searches

    The reachability loops of [internal/spec/spec.go]: [unreachableDiagnostics] and
    [graphReachable] mark a node when they enqueue it, [graphReachableBefore] when it
    leaves the queue.  All three terminate because every edge is followed at most
    once: the fuel is one more than the number of edges. *)

From S2P Require Import Prelude Utf16 SpecTypes TopoOrder Kahn.

(** [adjacency] as the loops over all edges build it. *)
Definition edgeAdjacency (edges : list GraphEdge) : gmap string (list string) :=
  foldl addAdjacency ∅ edges.

(** [if seen[next] { continue }; seen[next] = true; queue = append(queue, next)] *)
Definition markNext (st : gset string * list string) (next : string) : gset string * list string :=
  if bool_decide (next ∈ st.1) then st else ({[next]} ∪ st.1, st.2 ++ [next]).

(** The loop of [unreachableDiagnostics]. *)
Fixpoint reachLoop (adjacency : gmap string (list string)) (fuel : nat)
    (seen : gset string) (queue : list string) : option (gset string) :=
  match queue with
  | [] => Some seen
  | current :: rest =>
      match fuel with
      | O => None
      | S fuel' =>
          let '(seen', queue') := foldl markNext (seen, rest) (at_ adjacency current) in
          reachLoop adjacency fuel' seen' queue'
      end
  end.

(** The inner loop of [graphReachable]; [None] when it meets [target]. *)
Fixpoint scanFor (target : string) (seen : gset string) (queue nexts : list string)
    : option (gset string * list string) :=
  match nexts with
  | [] => Some (seen, queue)
  | next :: nexts' =>
      if bool_decide (next = target) then None
      else let '(seen', queue') := markNext (seen, queue) next in
           scanFor target seen' queue' nexts'
  end.

Fixpoint targetLoop (adjacency : gmap string (list string)) (target : string) (fuel : nat)
    (seen : gset string) (queue : list string) : option bool :=
  match queue with
  | [] => Some false
  | current :: rest =>
      match fuel with
      | O => None
      | S fuel' =>
          match scanFor target seen rest (at_ adjacency current) with
          | None => Some true
          | Some (seen', queue') => targetLoop adjacency target fuel' seen' queue'
          end
      end
  end.

Definition graphReachable (start target : string) (edges : list GraphEdge) : bool :=
  if bool_decide (start = target) then true
  else default false
    (targetLoop (edgeAdjacency edges) target (S (length edges)) {[start]} [start]).

(** The loop of [graphReachableBefore]: marks on dequeue and never enters [stop]. *)
Fixpoint beforeLoop (adjacency : gmap string (list string)) (stop : string) (fuel : nat)
    (seen : gset string) (queue : list string) : option (gset string) :=
  match queue with
  | [] => Some seen
  | current :: rest =>
      match fuel with
      | O => None
      | S fuel' =>
          if bool_decide (current = stop) || bool_decide (current ∈ seen)
          then beforeLoop adjacency stop fuel' seen rest
          else
            let seen' := {[current]} ∪ seen in
            beforeLoop adjacency stop fuel' seen'
              (rest ++ filter (λ next, next ∉ seen') (at_ adjacency current))
      end
  end.

Definition graphReachableBefore (start stop : string) (edges : list GraphEdge) : gset string :=
  default ∅ (beforeLoop (edgeAdjacency edges) stop (S (length edges)) ∅ [start]).

(** ** Proofs *)
Section Search.
Context (adjacency : gmap string (list string)) (edges : list (string * string)).
Context (Hadj : ∀ c, at_ adjacency c ≡ₚ map snd (filter (λ e, e.1 = c) edges)).

Lemma elem_of_adj c n : n ∈ at_ adjacency c ↔ (c, n) ∈ edges.
Proof.
  rewrite Hadj, list_elem_of_fmap. split.
  - intros ([u v] & -> & [Hu Huv]%list_elem_of_filter); simpl in *; by subst.
  - intros Hn. exists (c, n). by rewrite list_elem_of_filter.
Qed.

(** Edges whose source has not been expanded. *)
Definition pendingOut (P : gset string) : nat := length (filter (λ e, e.1 ∉ P) edges).

Lemma pendingOut_expand P c :
  c ∉ P → pendingOut P = (length (at_ adjacency c) + pendingOut ({[c]} ∪ P))%nat.
Proof.
  intros Hc. rewrite Hadj, length_map. unfold pendingOut. clear Hadj.
  induction edges as [|[u v] es IH]; [done|]. rewrite !filter_cons; simpl.
  destruct (decide (u = c)) as [->|Hne].
  - rewrite decide_True by done. rewrite decide_False by set_solver. simpl. lia.
  - destruct (decide (u ∉ P)).
    + rewrite (decide_True (P := u ∉ {[c]} ∪ P)) by set_solver. simpl. lia.
    + rewrite (decide_False (P := u ∉ {[c]} ∪ P)) by set_solver. lia.
Qed.

Lemma pendingOut_empty : pendingOut ∅ = length edges.
Proof.
  unfold pendingOut. f_equal. clear Hadj. induction edges as [|e es IH]; [done|].
  rewrite filter_cons, decide_True by set_solver. by rewrite IH.
Qed.

Lemma markNext_fold seen queue l :
  ∃ new, foldl markNext (seen, queue) l = (list_to_set new ∪ seen, queue ++ new) ∧
    NoDup new ∧ (∀ n, n ∈ new ↔ n ∈ l ∧ n ∉ seen) ∧ (length new ≤ length l)%nat.
Proof.
  induction l as [|x l (new & E & Hnd & Hnew & Hlen)] using rev_ind.
  - exists []. rewrite app_nil_r. split_and!; [f_equal/=; set_solver|constructor|set_solver|done].
  - rewrite foldl_app, E. simpl. unfold markNext; simpl. rewrite length_app; simpl.
    case_bool_decide as Hx.
    + exists new. split_and!; [done|done| |lia]. intros n. rewrite Hnew.
      rewrite elem_of_app, list_elem_of_singleton. rewrite elem_of_union, elem_of_list_to_set, Hnew in Hx.
      naive_solver.
    + exists (new ++ [x]). rewrite elem_of_union, elem_of_list_to_set in Hx.
      split_and!; [f_equal; [set_solver|by rewrite app_assoc]| | |rewrite length_app; simpl; lia].
      * apply NoDup_app. split_and!; [done|set_solver|apply NoDup_singleton].
      * intros n. rewrite !elem_of_app, !list_elem_of_singleton, Hnew. naive_solver.
Qed.

Context (start : string).

(** [P] is the set of expanded nodes. *)
Record searchInv (P seen : gset string) (queue : list string) : Prop := {
  se_start : start ∈ seen;
  se_seen : ∀ n, n ∈ seen ↔ n ∈ P ∨ n ∈ queue;
  se_disj : ∀ n, n ∈ queue → n ∉ P;
  se_NoDup : NoDup queue;
  se_reach : ∀ n, n ∈ seen → rtc (edgeRel edges) start n;
  se_closed : ∀ u v, u ∈ P → (u, v) ∈ edges → v ∈ seen;
}.

Lemma searchInv_init : searchInv ∅ {[start]} [start].
Proof.
  clear Hadj. split; [set_solver|set_solver|set_solver|apply NoDup_singleton| |set_solver].
  intros n ->%elem_of_singleton. constructor.
Qed.

Lemma searchInv_step P seen c rest :
  searchInv P seen (c :: rest) → ∃ seen' queue',
    foldl markNext (seen, rest) (at_ adjacency c) = (seen', queue') ∧
    searchInv ({[c]} ∪ P) seen' queue' ∧
    (length queue' + pendingOut ({[c]} ∪ P) ≤ length rest + pendingOut P)%nat.
Proof.
  intros [Hst Hseen Hdisj Hnd Hreach Hcl].
  apply NoDup_cons in Hnd as [Hc Hnd].
  destruct (markNext_fold seen rest (at_ adjacency c)) as (new & E & Hndn & Hnew & Hlen).
  exists (list_to_set new ∪ seen), (rest ++ new). split; [done|].
  assert (c ∈ seen) as Hcs by (apply Hseen; right; left). split; [split|].
  - set_solver.
  - intros n. rewrite elem_of_union, elem_of_list_to_set, Hseen, elem_of_app, elem_of_cons. set_solver.
  - intros n [Hn|Hn]%elem_of_app.
    + assert (n ∉ P) by (apply Hdisj; by right). set_solver.
    + apply Hnew in Hn as [_ Hn]. rewrite Hseen in Hn. set_solver.
  - apply NoDup_app. split_and!; [done| |done].
    intros n Hn [_ Hn']%Hnew. apply Hn', Hseen. right. by right.
  - intros n [[Hn _]%elem_of_list_to_set%Hnew|Hn]%elem_of_union; [|by apply Hreach].
    eapply rtc_r; [by apply Hreach|]. by apply elem_of_adj.
  - intros u v [->%elem_of_singleton|Hu]%elem_of_union Huv; [|by apply elem_of_union_r, (Hcl u)].
    destruct (decide (v ∈ seen)); [by apply elem_of_union_r|].
    apply elem_of_union_l, elem_of_list_to_set, Hnew. by rewrite elem_of_adj.
  - rewrite (pendingOut_expand P c) by (apply Hdisj; left). rewrite length_app. lia.
Qed.

Lemma closed_reach (S : gset string) :
  start ∈ S → (∀ u v, u ∈ S → (u, v) ∈ edges → v ∈ S) →
  ∀ n, rtc (edgeRel edges) start n → n ∈ S.
Proof. intros Hs Hcl. apply (rtc_ind_r (λ n, n ∈ S)); [done|]. intros; by eapply Hcl. Qed.

Lemma reachLoop_spec fuel P seen queue :
  searchInv P seen queue → (length queue + pendingOut P ≤ fuel)%nat →
  ∃ r, reachLoop adjacency fuel seen queue = Some r ∧
    ∀ n, n ∈ r ↔ rtc (edgeRel edges) start n.
Proof.
  revert P seen queue; induction fuel as [|f IH]; intros P seen [|c rest] Hinv Hf;
    cbn [reachLoop]; simpl in Hf; try lia.
  3: { destruct (searchInv_step _ _ _ _ Hinv) as (seen' & queue' & -> & Hinv' & Hle).
       apply (IH ({[c]} ∪ P)); [done|lia]. }
  all: exists seen; split; [done|]; intros n; split; [apply Hinv|];
    apply closed_reach; [apply Hinv|]; intros u v [Hu|Hu]%(se_seen _ _ _ Hinv) Huv;
      [by eapply se_closed|by inversion Hu].
Qed.

Lemma scanFor_spec target seen queue l :
  scanFor target seen queue l =
    if decide (target ∈ l) then None else Some (foldl markNext (seen, queue) l).
Proof.
  revert seen queue; induction l as [|x l IH]; intros seen queue; cbn [scanFor foldl].
  - by rewrite decide_False by apply not_elem_of_nil.
  - case_bool_decide as Hx; [subst; by rewrite decide_True by left|].
    destruct (markNext (seen, queue) x) as [seen' queue'] eqn:E. rewrite IH.
    destruct (decide (target ∈ l)); [by rewrite decide_True by (by right)|].
    by rewrite decide_False by set_solver.
Qed.

Lemma targetLoop_spec target fuel P seen queue :
  searchInv P seen queue → (length queue + pendingOut P ≤ fuel)%nat → target ∉ seen →
  ∃ b, targetLoop adjacency target fuel seen queue = Some b ∧
    (b = true ↔ rtc (edgeRel edges) start target).
Proof.
  revert P seen queue; induction fuel as [|f IH]; intros P seen [|c rest] Hinv Hf Ht;
    cbn [targetLoop]; simpl in Hf; try lia.
  3: { rewrite scanFor_spec. case_decide as Htl.
       - exists true. split; [done|]. split; [|done]. intros _. apply elem_of_adj in Htl.
         eapply rtc_r; [|exact Htl]. apply (se_reach _ _ _ Hinv), (se_seen _ _ _ Hinv). right; left.
       - destruct (searchInv_step _ _ _ _ Hinv) as (seen' & queue' & E & Hinv' & Hle).
         destruct (markNext_fold seen rest (at_ adjacency c)) as (new & E' & _ & Hnew & _).
         rewrite E. apply (IH ({[c]} ∪ P)); [done|lia|].
         rewrite E in E'. injection E' as -> _. set_solver. }
  all: exists false; split; [done|]; split; [done|]; intros Hr; exfalso; apply Ht;
    eapply closed_reach; [apply Hinv| |exact Hr];
    intros u v [Hu|Hu]%(se_seen _ _ _ Hinv) Huv; [by eapply se_closed|by inversion Hu].
Qed.
End Search.

Section Before.
Context (adjacency : gmap string (list string)) (edges : list (string * string)).
Context (Hadj : ∀ c, at_ adjacency c ≡ₚ map snd (filter (λ e, e.1 = c) edges)).
Context (start stop : string).

(** An edge that does not enter [stop]. *)
Definition avoiding (u v : string) : Prop := edgeRel edges u v ∧ v ≠ stop.

Record beforeInv (seen : gset string) (queue : list string) : Prop := {
  bi_start : start = stop ∨ start ∈ seen ∨ start ∈ queue;
  bi_seen : ∀ n, n ∈ seen → n ≠ stop ∧ start ≠ stop ∧ rtc avoiding start n;
  bi_queue : ∀ n, n ∈ queue → n = start ∨ ∃ u, u ∈ seen ∧ (u, n) ∈ edges;
  bi_closed : ∀ u v, u ∈ seen → (u, v) ∈ edges → v = stop ∨ v ∈ seen ∨ v ∈ queue;
}.

Lemma beforeInv_skip seen c rest :
  beforeInv seen (c :: rest) → c = stop ∨ c ∈ seen → beforeInv seen rest.
Proof.
  intros [Hs Hn Hq Hc] Hskip. split; [|done| |].
  - set_solver.
  - intros n Hin. apply Hq. by right.
  - intros u v Hu Huv. destruct (Hc u v Hu Huv) as [|[|[->|]%elem_of_cons]]; tauto.
Qed.

Lemma beforeInv_expand seen c rest :
  beforeInv seen (c :: rest) → c ≠ stop → c ∉ seen →
  beforeInv ({[c]} ∪ seen)
    (rest ++ filter (λ next, next ∉ ({[c]} ∪ seen : gset string)) (at_ adjacency c)).
Proof.
  intros [Hs Hn Hq Hc] Hcs Hcn.
  assert (start ≠ stop ∧ rtc avoiding start c) as [Hss Hrc].
  { destruct (Hq c ltac:(left)) as [->|(u & Hu & Huc)]; [split; [done|constructor]|].
    destruct (Hn u Hu) as (? & ? & ?). split; [done|]. by eapply rtc_r. }
  split.
  - set_solver.
  - intros n [->%elem_of_singleton|Hin]%elem_of_union; [done|by apply Hn].
  - intros n [Hin|[_ Hin]%list_elem_of_filter]%elem_of_app.
    + destruct (Hq n ltac:(by right)) as [|(u & Hu & Hun)]; [by left|]. right. exists u. set_solver.
    + right. exists c. split; [set_solver|]. by apply (elem_of_adj adjacency edges Hadj).
  - intros u v [->%elem_of_singleton|Hu]%elem_of_union Huv.
    + destruct (decide (v ∈ ({[c]} ∪ seen : gset string))); [tauto|]. right; right.
      apply elem_of_app; right. apply list_elem_of_filter. split; [done|].
      by apply (elem_of_adj adjacency edges Hadj).
    + destruct (Hc u v Hu Huv) as [|[|[->|]%elem_of_cons]]; set_solver.
Qed.

Lemma beforeLoop_spec fuel seen queue :
  beforeInv seen queue → (length queue + pendingOut edges seen ≤ fuel)%nat →
  ∃ r, beforeLoop adjacency stop fuel seen queue = Some r ∧
    ∀ n, n ∈ r ↔ start ≠ stop ∧ rtc avoiding start n.
Proof.
  revert seen queue; induction fuel as [|f IH]; intros seen [|c rest] Hinv Hf;
    cbn [beforeLoop]; simpl in Hf; try lia.
  3: { destruct (bool_decide (c = stop) || bool_decide (c ∈ seen)) eqn:E.
       - apply IH; [|lia]. eapply beforeInv_skip; [done|].
         apply orb_prop in E as [E|E]; apply bool_decide_eq_true in E; tauto.
       - apply orb_false_elim in E as [E1 E2].
         apply bool_decide_eq_false in E1, E2.
         apply IH; [by apply beforeInv_expand|].
         rewrite (pendingOut_expand adjacency edges Hadj seen c) in Hf by done.
         rewrite length_app.
         pose proof (length_filter (λ next, next ∉ ({[c]} ∪ seen : gset string)) (at_ adjacency c)).
         lia. }
  all: exists seen; split; [done|]; intros n; split; [intros Hn%Hinv; tauto|];
    intros [Hss Hr]; revert n Hr; apply (rtc_ind_r (λ n, n ∈ seen));
    [destruct (bi_start _ _ Hinv) as [|[|Hx]]; [done|done|by inversion Hx]|];
    intros y z _ [Hyz Hz] Hy; destruct (bi_closed _ _ Hinv y z Hy Hyz) as [|[|Hx]];
      [done|done|by inversion Hx].
Qed.
End Before.

(** ** The three searches on a graph's edges *)
Lemma edgeAdjacency_spec edges c :
  at_ (edgeAdjacency edges) c ≡ₚ map snd (filter (λ e, e.1 = c) (map edgePair edges)).
Proof. unfold edgeAdjacency. rewrite addAdjacency_fold. unfold at_. by rewrite lookup_empty. Qed.

Lemma at_edgeAdjacency edges n :
  length (at_ (edgeAdjacency edges) n) = length (filter (λ e, ge_From e = n) edges).
Proof.
  rewrite (edgeAdjacency_spec edges n), length_map. induction edges as [|e es IH]; [done|].
  cbn [map]. rewrite !filter_cons. simpl. repeat case_decide; simpl; by rewrite ?IH.
Qed.

(** [graphReachable] decides whether the edges lead from [start] to [target]. *)
Theorem graphReachable_spec start target edges :
  graphReachable start target edges = true ↔
  rtc (edgeRel (map edgePair edges)) start target.
Proof.
  unfold graphReachable. case_bool_decide as E; [subst; split; [constructor|done]|].
  destruct (targetLoop_spec (edgeAdjacency edges) (map edgePair edges) (edgeAdjacency_spec edges)
    start target (S (length edges)) ∅ {[start]} [start]) as (b & -> & Hb);
    [apply searchInv_init| |set_solver|done].
  rewrite pendingOut_empty, length_map. simpl. lia.
Qed.

(** [graphReachableBefore] returns exactly the nodes that paths from [start]
    reach without entering [stop]; nothing when [start] is [stop]. *)
Theorem graphReachableBefore_spec start stop edges n :
  n ∈ graphReachableBefore start stop edges ↔
  start ≠ stop ∧ rtc (avoiding (map edgePair edges) stop) start n.
Proof.
  unfold graphReachableBefore.
  destruct (beforeLoop_spec (edgeAdjacency edges) (map edgePair edges) (edgeAdjacency_spec edges)
    start stop (S (length edges)) ∅ [start]) as (r & -> & Hr); [| |apply Hr].
  - split; [set_solver|set_solver| |set_solver]. intros m ->%list_elem_of_singleton. by left.
  - rewrite pendingOut_empty, length_map. simpl. lia.
Qed.
