(* ===== verification/SpecGraph.v ===== *)
(** * Graph checks of the spec validator

    The graph routines of [internal/spec/spec.go]: the topological order used for
    activation lineage, the cycle search and the unreachable-node report. *)

From S2P Require Import Prelude Utf16 SpecTypes TopoOrder Kahn Schedule Reach.
#[local] Open Scope Z_scope.

(** ** graphTopologicalOrder *)

(** Edges with an unknown endpoint are skipped. *)
Definition keepEdge (acc : gmap string (list string) * gmap string Z) (edge : GraphEdge)
    : gmap string (list string) * gmap string Z :=
  let '(adjacency, indegree) := acc in
  match indegree !! ge_From edge, indegree !! ge_To edge with
  | Some _, Some _ => (addAdjacency adjacency edge, addIndegree indegree edge)
  | _, _ => acc
  end.

Definition graphTopologicalOrder (nodes : list GraphNode) (edges : list GraphEdge)
    : list string * bool :=
  let '(adjacency, indegree) := foldl keepEdge (∅, initIndegree (map gn_ID nodes)) edges in
  let order := topoRun adjacency indegree (length nodes) in
  (order, (length order =? length nodes)%nat).

Definition knownEdge (nodes : list GraphNode) (e : GraphEdge) : Prop :=
  ge_From e ∈ map gn_ID nodes ∧ ge_To e ∈ map gn_ID nodes.
#[global] Instance knownEdge_dec nodes e : Decision (knownEdge nodes e).
Proof. unfold knownEdge. apply _. Defined.

Lemma keepEdge_fold nodes edges adj deg :
  (∀ n, is_Some (deg !! n) ↔ n ∈ map gn_ID nodes) →
  foldl keepEdge (adj, deg) edges =
  (foldl addAdjacency adj (filter (knownEdge nodes) edges),
   foldl addIndegree deg (filter (knownEdge nodes) edges)).
Proof.
  revert adj deg; induction edges as [|e es IH]; intros adj deg Hdom; [done|].
  cbn [foldl]. rewrite filter_cons. unfold keepEdge at 2. case_decide as Hk.
  - destruct Hk as [[x Hx]%Hdom [y Hy]%Hdom]. rewrite Hx, Hy. apply IH.
    intros n. unfold addIndegree. destruct (decide (ge_To e = n)) as [<-|Hne].
    + rewrite lookup_insert_eq, <- Hdom. split; eauto.
    + by rewrite lookup_insert_ne by done.
  - destruct (deg !! ge_From e) eqn:E1; [|by apply IH].
    destruct (deg !! ge_To e) eqn:E2; [|by apply IH].
    exfalso. apply Hk. split; apply Hdom; eauto.
Qed.

Lemma graphTopologicalOrder_run nodes edges :
  graphTopologicalOrder nodes edges =
  let kept := filter (knownEdge nodes) edges in
  let order := topoRun (foldl addAdjacency ∅ kept)
    (foldl addIndegree (initIndegree (map gn_ID nodes)) kept) (length nodes) in
  (order, (length order =? length nodes)%nat).
Proof.
  unfold graphTopologicalOrder. rewrite (keepEdge_fold nodes); [done|].
  intros n. rewrite initIndegree_lookup. case_decide; [|by split; [intros []|]].
  split; eauto.
Qed.

Lemma knownEdge_closed nodes (edges : list GraphEdge) e :
  e ∈ filter (knownEdge nodes) edges → ge_From e ∈ map gn_ID nodes ∧ ge_To e ∈ map gn_ID nodes.
Proof. by intros [? _]%list_elem_of_filter. Qed.

(** [graphTopologicalOrder] reports a complete order exactly when the node ids are
    distinct and the edges between known nodes have no directed cycle. *)
Theorem graphTopologicalOrder_complete nodes (edges : list GraphEdge) :
  (graphTopologicalOrder nodes edges).2 = true ↔
  NoDup (map gn_ID nodes) ∧ acyclic (map edgePair (filter (knownEdge nodes) edges)).
Proof.
  rewrite graphTopologicalOrder_run. simpl. rewrite Nat.eqb_eq.
  rewrite <- (length_map gn_ID nodes).
  apply topoRun_complete_iff; [apply knownEdge_closed|done].
Qed.

(** Both compute the reference order. *)
Lemma graphTopologicalOrder_agrees graph s :
  allValid (map gn_ID (gr_Nodes graph)) → BuildSchedule graph = Ok s →
  graphTopologicalOrder (gr_Nodes graph) (gr_Edges graph) = (sc_NodeOrder s, true).
Proof.
  intros Hv H. rewrite graphTopologicalOrder_run. simpl.
  destruct (BuildSchedule_Ok _ _ H) as (Hids & HP & _ & _ & Href & _).
  assert (filter (knownEdge (gr_Nodes graph)) (gr_Edges graph) = gr_Edges graph) as Ek.
  { pose proof (BuildSchedule_closed _ _ H) as Hcl.
    unfold edgesClosed in Hcl. clear -Hcl. induction (gr_Edges graph) as [|e es IH]; [done|].
    rewrite filter_cons_True by (apply Hcl; left). f_equal. apply IH. intros; apply Hcl; by right. }
  rewrite Ek, (topoRun_reference _ _); [|by apply (BuildSchedule_closed _ _ H)|apply length_map|done|done].
  rewrite <- Href by done. f_equal. apply Nat.eqb_eq.
  rewrite HP. apply length_map.
Qed.

(** The validator's order and the compiler's schedule are the same list: re-sorting
    the queue after every node and inserting by binary search agree. *)
Theorem graphTopologicalOrder_is_schedule graph s :
  allValid (map gn_ID (gr_Nodes graph)) → BuildSchedule graph = Ok s →
  graphTopologicalOrder (gr_Nodes graph) (gr_Edges graph) = (sc_NodeOrder s, true).
Proof. apply graphTopologicalOrder_agrees. Qed.

Lemma graphTopologicalOrder_is_schedule_witness :
  graphTopologicalOrder (gr_Nodes diamond) (gr_Edges diamond)
  = (["start"; "a"; "b"; "join"; "end"], true).
Proof.
  apply (graphTopologicalOrder_is_schedule diamond diamondSchedule);
    [exact diamond_valid|vm_compute; reflexivity].
Defined.
