(* ===== verification/Cycle.v ===== *)
(** * The cycle search

    [findCycle] of [internal/spec/spec.go]: a depth-first search that returns the
    cycle it runs into, or nothing. *)

From S2P Require Import Prelude Utf16 SpecTypes TopoOrder Kahn Schedule.
#[local] Open Scope Z_scope.

Definition unvisited : Z := 0.
Definition visiting : Z := 1.
Definition visited : Z := 2.

(** The variables the closure [visit] captures. *)
Record dfs := {
  df_state : gmap string Z;
  df_stack : list string;
  df_stackIndex : gmap string Z;
}.

Definition enterNode (nodeID : string) (st : dfs) : dfs :=
  {| df_state := <[nodeID := visiting]> (df_state st);
     df_stack := df_stack st ++ [nodeID];
     df_stackIndex := <[nodeID := Z.of_nat (length (df_stack st))]> (df_stackIndex st) |}.

Definition leaveNode (nodeID : string) (st : dfs) : dfs :=
  {| df_state := <[nodeID := visited]> (df_state st);
     df_stack := take (length (df_stack st) - 1) (df_stack st);
     df_stackIndex := delete nodeID (df_stackIndex st) |}.

(** The loop over [adjacency[nodeID]]: [inl] is the cycle found. *)
Fixpoint visitAll (visit : string → dfs → option (list string + dfs)) (nexts : list string)
    (st : dfs) : option (list string + dfs) :=
  match nexts with
  | [] => Some (inr st)
  | next :: nexts' =>
      if getZ (df_state st) next =? unvisited then
        match visit next st with
        | Some (inr st') => visitAll visit nexts' st'
        | r => r
        end
      else if negb (getZ (df_state st) next =? visiting) then visitAll visit nexts' st
      else
        let start := getZ (df_stackIndex st) next in
        Some (inl (drop (Z.to_nat start) (df_stack st) ++ [next]))
  end.

Fixpoint visit (adjacency : gmap string (list string)) (fuel : nat) (nodeID : string) (st : dfs)
    : option (list string + dfs) :=
  match fuel with
  | O => None
  | S fuel' =>
      match visitAll (visit adjacency fuel') (at_ adjacency nodeID) (enterNode nodeID st) with
      | Some (inr st') => Some (inr (leaveNode nodeID st'))
      | r => r
      end
  end.

(** The outer loop over the node ids in UTF-16 order. *)
Fixpoint visitRoots (adjacency : gmap string (list string)) (fuel : nat) (roots : list string)
    (st : dfs) : option (list string + dfs) :=
  match roots with
  | [] => Some (inr st)
  | nodeID :: roots' =>
      if negb (getZ (df_state st) nodeID =? unvisited) then visitRoots adjacency fuel roots' st
      else
        match visit adjacency fuel nodeID st with
        | Some (inr st') => visitRoots adjacency fuel roots' st'
        | r => r
        end
  end.

(** [None] is Go's nil slice.  A call enters an unvisited node, so the recursion is
    no deeper than the number of nodes. *)
Definition findCycle (nodes : list GraphNode) (adjacency : gmap string (list string))
    : option (list string) :=
  let orderedIDs := sortUTF16 (map gn_ID nodes) in
  match visitRoots adjacency (S (length nodes)) orderedIDs
    {| df_state := ∅; df_stack := []; df_stackIndex := ∅ |} with
  | Some (inl cycle) => Some cycle
  | _ => None
  end.

(** A closed walk along the edges: it ends where it starts. *)
Definition isCycle (E : string → string → Prop) (c : list string) : Prop :=
  (2 ≤ length c)%nat ∧ head c = last c ∧
  ∀ i a b, c !! i = Some a → c !! S i = Some b → E a b.

Section Correct.
Context (adjacency : gmap string (list string)).
Context (U : list string) (HU : NoDup U).
Context (Hclosed : ∀ u v, u ∈ U → v ∈ at_ adjacency u → v ∈ U).

Let E (u v : string) : Prop := v ∈ at_ adjacency u.
Let stateOf (st : dfs) (n : string) : Z := getZ (df_state st) n.

Record dfsInv (st : dfs) : Prop := {
  df_range : ∀ n, stateOf st n = unvisited ∨ stateOf st n = visiting ∨ stateOf st n = visited;
  df_visiting : ∀ n, n ∈ df_stack st ↔ stateOf st n = visiting;
  df_nodup : NoDup (df_stack st);
  df_index : ∀ i n, df_stack st !! i = Some n → getZ (df_stackIndex st) n = Z.of_nat i;
  df_path : ∀ i a b, df_stack st !! i = Some a → df_stack st !! S i = Some b → E a b;
  df_closed : ∀ u v, stateOf st u = visited → E u v → stateOf st v = visited;
  df_acyclic : ∀ u, stateOf st u = visited → ¬ tc E u u;
  df_inU : ∀ n, n ∈ df_stack st → n ∈ U;
}.

(** How many nodes remain unvisited: the bound on the recursion. *)
Definition remaining (st : dfs) : nat := length (filter (λ n, stateOf st n = unvisited) U).

Definition reachableFromStack (st : dfs) (n : string) : Prop :=
  ∀ c, last (df_stack st) = Some c → E c n.

Definition goodResult (st : dfs) (done : list string) (r : list string + dfs) : Prop :=
  match r with
  | inl c => isCycle E c ∧ ∀ n, n ∈ c → n ∈ U
  | inr st' =>
      dfsInv st' ∧ df_stack st' = df_stack st ∧
      (∀ n, n ∈ done → stateOf st' n = visited) ∧
      (∀ n, stateOf st n ≠ unvisited → stateOf st' n = stateOf st n) ∧
      (remaining st' ≤ remaining st)%nat
  end.

Lemma stateOf_insert st n v stk idx m :
  stateOf {| df_state := <[n := v]> (df_state st); df_stack := stk; df_stackIndex := idx |} m =
  if decide (n = m) then v else stateOf st m.
Proof. apply getZ_insert. Qed.

Lemma filter_length_le (P Q : string → Prop) `{!∀ x, Decision (P x), !∀ x, Decision (Q x)} l :
  (∀ x, x ∈ l → P x → Q x) → (length (filter P l) ≤ length (filter Q l))%nat.
Proof.
  intros HPQ. induction l as [|x l IH]; [done|]. rewrite (filter_cons P), (filter_cons Q).
  assert (length (filter P l) ≤ length (filter Q l))%nat by (apply IH; intros; apply HPQ; [by right|done]).
  assert (P x → Q x) by (apply HPQ; left).
  destruct (decide (P x)), (decide (Q x)); simpl; try lia. tauto.
Qed.

Lemma remaining_enter st n :
  n ∈ U → stateOf st n = unvisited → (remaining (enterNode n st) < remaining st)%nat.
Proof.
  intros Hn H0. unfold remaining. revert Hn. generalize HU. clear HU Hclosed. intros HU.
  induction HU as [|x l Hx Hl IH]; [by inversion 1|].
  intros [->|Hn]%elem_of_cons; rewrite !filter_cons.
  - rewrite decide_False by (unfold enterNode; rewrite stateOf_insert, decide_True by done; done).
    rewrite decide_True by done. simpl. apply Nat.lt_succ_r, filter_length_le.
    intros y _. unfold enterNode. rewrite stateOf_insert. by case_decide.
  - specialize (IH Hn).
    assert (stateOf (enterNode n st) x = unvisited ↔ stateOf st x = unvisited) as Hiff.
    { unfold enterNode. rewrite stateOf_insert, decide_False by (by intros ->). done. }
    destruct (decide (stateOf st x = unvisited)) as [Hd|Hd].
    + rewrite decide_True by (by apply Hiff). simpl. lia.
    + rewrite decide_False by (by rewrite Hiff). done.
Qed.

Lemma remaining_leave st n : (remaining (leaveNode n st) ≤ remaining st)%nat.
Proof.
  apply filter_length_le. intros x _. unfold leaveNode. rewrite stateOf_insert.
  case_decide; [by intros [=]|done].
Qed.

Lemma dfsInv_enter st n :
  dfsInv st → n ∈ U → stateOf st n = unvisited → reachableFromStack st n →
  dfsInv (enterNode n st).
Proof.
  intros [Hr Hv Hnd Hi Hp Hc Ha Hin] Hn H0 Hs.
  assert (n ∉ df_stack st) as Hns by (rewrite Hv, H0; done).
  split; unfold enterNode; try (intros m; rewrite stateOf_insert); simpl.
  - case_decide; [by right; left|apply Hr].
  - rewrite elem_of_app, list_elem_of_singleton, Hv. case_decide; subst; naive_solver.
  - apply NoDup_app. split_and!; [done|set_solver|apply NoDup_singleton].
  - intros i m Hm. rewrite getZ_insert. apply lookup_snoc_Some in Hm as [[Hlt Hm]|[-> ->]].
    + rewrite decide_False; [by apply Hi|]. intros ->. apply Hns. by eapply list_elem_of_lookup_2.
    + by rewrite decide_True.
  - intros i a b Ha1 Hb1.
    apply lookup_snoc_Some in Hb1 as [[Hlt Hb1]|[Hlen ->]].
    + rewrite lookup_app_l in Ha1 by lia. by eapply Hp.
    + rewrite lookup_app_l in Ha1 by lia. apply Hs. rewrite last_lookup.
      rewrite <- Hlen. done.
  - intros v. rewrite stateOf_insert. case_decide as E1; [done|]. intros Hm Hmv.
    pose proof (Hc m v Hm Hmv) as Hvv. case_decide; [subst; by rewrite Hvv in H0|done].
  - case_decide; [done|]. apply Ha.
  - intros m. rewrite elem_of_app, list_elem_of_singleton. naive_solver.
Qed.

Lemma dfsInv_leave st n stk :
  dfsInv st → df_stack st = stk ++ [n] → (∀ v, E n v → stateOf st v = visited) →
  dfsInv (leaveNode n st) ∧ df_stack (leaveNode n st) = stk.
Proof.
  intros [Hr Hv Hnd Hi Hp Hc Ha Hin] Hstk Hsucc.
  assert (df_stack (leaveNode n st) = stk) as Estk.
  { unfold leaveNode; simpl. rewrite Hstk, length_app. simpl.
    rewrite Nat.add_sub. by rewrite take_app_length. }
  assert (stateOf st n = visiting) as Hn by (apply Hv; rewrite Hstk; set_solver).
  rewrite Hstk in Hnd. apply NoDup_app in Hnd as (Hnd & Hdis & _).
  assert (∀ i m, stk !! i = Some m → df_stack st !! i = Some m) as Hpre.
  { intros i m Hm. rewrite Hstk. by apply lookup_app_l_Some. }
  split; [|done]. split; try rewrite Estk;
    try (intros m; unfold leaveNode; rewrite stateOf_insert); simpl.
  - case_decide; [by right; right|apply Hr].
  - case_decide; subst.
    + split; [|done]. intros Hm. exfalso. apply (Hdis m Hm). left.
    + rewrite <- Hv, Hstk, elem_of_app, list_elem_of_singleton. naive_solver.
  - done.
  - intros i m Hm. unfold getZ. rewrite lookup_delete_ne; [apply Hi; by apply Hpre|].
    intros ->. apply (Hdis m); [by eapply list_elem_of_lookup_2|left].
  - intros i a b Ha1 Hb1. eapply Hp; by apply Hpre.
  - intros v Hm Hmv. rewrite stateOf_insert. destruct (decide (n = v)) as [|Hne]; [done|].
    case_decide; [subst; by apply Hsucc|by apply (Hc m v)].
  - case_decide; [subst m|by apply Ha]. intros _ Hcyc.
    (* a path from [n] stays among visited nodes, and [n] is not one *)
    assert (∀ x y, tc E x y → (x = n ∨ stateOf st x = visited) → stateOf st y = visited) as Hstay.
    { induction 1 as [x y Hxy|x y z Hxy _ IH]; intros [->|Hx]; eauto. }
    specialize (Hstay n n Hcyc (or_introl eq_refl)). by rewrite Hn in Hstay.
  - intros m Hm. apply Hin. rewrite Hstk. set_solver.
Qed.

Lemma back_edge_cycle st c next :
  dfsInv st → last (df_stack st) = Some c → E c next → stateOf st next = visiting →
  goodResult st [] (inl (drop (Z.to_nat (getZ (df_stackIndex st) next)) (df_stack st) ++ [next])).
Proof.
  intros [Hr Hv Hnd Hi Hp Hc Ha Hin] Hlast Hcn Hnext.
  apply Hv, list_elem_of_lookup in Hnext as [i Hnext].
  rewrite (Hi i next Hnext), Nat2Z.id.
  pose proof (lookup_lt_Some _ _ _ Hnext) as Hlt.
  split; [split_and!|].
  - rewrite length_app, length_drop. simpl. lia.
  - rewrite last_snoc. rewrite (drop_S _ next i) by done. done.
  - intros j a b Ha1 Hb1.
    apply lookup_snoc_Some in Hb1 as [[Hl Hb1]|[Hl <-]].
    + rewrite lookup_app_l in Ha1 by lia. rewrite lookup_drop in *.
      apply (Hp (i + j)%nat); [done|]. by rewrite <- Nat.add_succ_r || replace (S (i + j)) with (i + S j)%nat by lia.
    + rewrite lookup_app_l, lookup_drop in Ha1 by lia.
      rewrite length_drop in Hl. rewrite last_lookup in Hlast.
      replace (i + j)%nat with (pred (length (df_stack st))) in Ha1 by lia. congruence.
  - intros m [Hm|Hm%list_elem_of_singleton]%elem_of_app; apply Hin;
      [|subst; by eapply list_elem_of_lookup_2].
    apply list_elem_of_lookup in Hm as [j Hm]. rewrite lookup_drop in Hm.
    by eapply list_elem_of_lookup_2.
Qed.
Definition goodCall (fuel : nat) (call : string → dfs → option (list string + dfs)) : Prop :=
  ∀ n st, dfsInv st → n ∈ U → stateOf st n = unvisited → reachableFromStack st n →
    (remaining st ≤ fuel)%nat → ∃ r, call n st = Some r ∧ goodResult st [n] r.

Lemma goodResult_trans st st' done done' r :
  goodResult st done (inr st') → goodResult st' done' r → goodResult st (done ++ done') r.
Proof.
  intros (Hinv & Hstk & Hdone & Hkeep & Hrem). destruct r as [c|st'']; [done|].
  intros (Hinv' & Hstk' & Hdone' & Hkeep' & Hrem').
  split_and!; [done|congruence| | |lia].
  - intros n [Hn|Hn]%elem_of_app; [|by apply Hdone'].
    rewrite Hkeep'; [by apply Hdone|]. by rewrite Hdone.
  - intros n Hn. rewrite Hkeep'; [by apply Hkeep|]. by rewrite Hkeep.
Qed.

Lemma goodResult_refl st done :
  dfsInv st → (∀ n, n ∈ done → stateOf st n = visited) → goodResult st done (inr st).
Proof. intros; split_and!; auto. Qed.

Lemma visitAll_spec fuel call nexts st c :
  goodCall fuel call → dfsInv st → last (df_stack st) = Some c → (∀ n, n ∈ nexts → E c n) →
  (remaining st ≤ fuel)%nat →
  ∃ r, visitAll call nexts st = Some r ∧ goodResult st nexts r.
Proof.
  intros Hcall. revert st. induction nexts as [|n nexts IH]; intros st Hinv Hlast Hnexts Hrem.
  { eexists; split; [done|]. apply goodResult_refl; [done|by inversion 1]. }
  assert (E c n) as Hcn by (apply Hnexts; left).
  assert (n ∈ U) as HnU.
  { apply (Hclosed c); [|done]. apply (df_inU _ Hinv). rewrite last_lookup in Hlast.
    by eapply list_elem_of_lookup_2. }
  assert (∀ m, m ∈ nexts → E c m) as Hrest by (intros; apply Hnexts; by right).
  simpl. fold (stateOf st n). destruct (Z.eqb_spec (stateOf st n) unvisited) as [H0|H0].
  - destruct (Hcall n st) as (r & -> & Hr); [done..|intros c'; by rewrite Hlast; intros [= <-]|done|].
    destruct r as [cyc|st']; [by exists (inl cyc)|].
    destruct Hr as (Hinv' & Hstk' & Hr).
    destruct (IH st') as (r & -> & Hr'); [done|congruence|done|lia|].
    exists r. split; [done|]. by apply (goodResult_trans st st' [n] nexts).
  - destruct (Z.eqb_spec (stateOf st n) visiting) as [H1|H1]; simpl.
    + eexists; split; [done|]. by apply (back_edge_cycle st c).
    + destruct (IH st) as (r & -> & Hr); [done..|]. exists r. split; [done|].
      apply (goodResult_trans st st [n] nexts); [|done].
      apply goodResult_refl; [done|]. intros m ->%list_elem_of_singleton.
      by destruct (df_range _ Hinv n) as [|[|]].
Qed.

Lemma visit_spec fuel : goodCall fuel (visit adjacency fuel).
Proof.
  induction fuel as [|fuel IH]; intros n st Hinv HnU H0 Hreach Hrem;
    pose proof (remaining_enter st n HnU H0) as Hlt; [lia|].
  pose proof (dfsInv_enter st n Hinv HnU H0 Hreach) as Hinv'. simpl.
  destruct (visitAll_spec fuel (visit adjacency fuel) (at_ adjacency n) (enterNode n st) n)
    as (r & -> & Hr); [done..|by apply last_snoc|done|lia|].
  destruct r as [c|st']; [by exists (inl c)|].
  destruct Hr as (Hi & Hstk & Hdone & Hkeep & Hrem').
  destruct (dfsInv_leave st' n (df_stack st) Hi Hstk Hdone) as [Hi' Hstk'].
  eexists; split; [done|]. split_and!; [done|done| | |].
  - intros m ->%list_elem_of_singleton. unfold leaveNode. by rewrite stateOf_insert, decide_True.
  - intros m Hm. unfold leaveNode. rewrite stateOf_insert.
    destruct (decide (n = m)) as [->|Hne]; [by rewrite H0 in Hm|].
    specialize (Hkeep m). unfold enterNode in Hkeep. rewrite stateOf_insert, decide_False in Hkeep by done.
    auto.
  - etrans; [apply remaining_leave|]. lia.
Qed.

Lemma visitRoots_spec fuel roots st :
  dfsInv st → df_stack st = [] → (∀ n, n ∈ roots → n ∈ U) → (remaining st ≤ fuel)%nat →
  ∃ r, visitRoots adjacency fuel roots st = Some r ∧ goodResult st roots r.
Proof.
  revert st. induction roots as [|n roots IH]; intros st Hinv Hstk HU' Hrem.
  { eexists; split; [done|]. apply goodResult_refl; [done|by inversion 1]. }
  assert (∀ m, m ∈ roots → m ∈ U) as Hrest by (intros; apply HU'; by right).
  simpl. fold (stateOf st n). destruct (Z.eqb_spec (stateOf st n) unvisited) as [H0|H0]; simpl.
  - destruct (visit_spec fuel n st) as (r & -> & Hr);
      [done|apply HU'; left|done|intros c; by rewrite Hstk|done|].
    destruct r as [cyc|st']; [by exists (inl cyc)|].
    destruct Hr as (Hinv' & Hstk' & Hr).
    destruct (IH st') as (r & -> & Hr'); [done|congruence|done|lia|].
    exists r. split; [done|]. by apply (goodResult_trans st st' [n] roots).
  - destruct (IH st) as (r & -> & Hr); [done..|]. exists r. split; [done|].
    apply (goodResult_trans st st [n] roots); [|done].
    apply goodResult_refl; [done|]. intros m ->%list_elem_of_singleton.
    destruct (df_range _ Hinv n) as [|[Hv|]]; [done| |done].
    apply (df_visiting _ Hinv) in Hv. rewrite Hstk in Hv. by apply not_elem_of_nil in Hv.
Qed.

Lemma dfsInv_initial : dfsInv {| df_state := ∅; df_stack := []; df_stackIndex := ∅ |}.
Proof.
  clear. split; unfold stateOf, getZ; simpl; intros;
    rewrite ?lookup_empty in *; try done; [by left|by rewrite elem_of_nil|constructor|set_solver].
Qed.
End Correct.

(** A closed walk of at least two vertices is a path from a vertex to itself. *)
Lemma isCycle_tc E c : isCycle E c → ∃ a, head c = Some a ∧ tc E a a.
Proof.
  intros (Hlen & Hends & Hedges). destruct c as [|a c]; [simpl in Hlen; lia|]. exists a. split; [done|].
  assert (∀ i b, (a :: c) !! S i = Some b → tc E a b) as Hwalk.
  { induction i as [|i IH]; intros b Hb.
    - apply tc_once. by apply (Hedges 0%nat).
    - destruct (lookup_lt_is_Some_2 (a :: c) (S i)) as [m Hm].
      { apply lookup_lt_Some in Hb. lia. }
      eapply tc_r; [by apply IH|]. by apply (Hedges (S i)). }
  rewrite last_lookup in Hends. destruct c as [|b c]; [simpl in Hlen; lia|].
  simpl in Hends. by apply (Hwalk (length c)).
Qed.



Definition edgeIn (adjacency : gmap string (list string)) (u v : string) : Prop :=
  v ∈ at_ adjacency u.

Definition closedOver (ids : list string) (adjacency : gmap string (list string)) : Prop :=
  ∀ u v, u ∈ ids → v ∈ at_ adjacency u → v ∈ ids.

Lemma findCycle_result nodes adjacency :
  closedOver (map gn_ID nodes) adjacency →
  match findCycle nodes adjacency with
  | Some c => isCycle (edgeIn adjacency) c ∧ ∀ n, n ∈ c → n ∈ map gn_ID nodes
  | None => ∀ n, n ∈ map gn_ID nodes → ¬ tc (edgeIn adjacency) n n
  end.
Proof.
  intros Hcl. unfold findCycle.
  destruct (visitRoots_spec adjacency (remove_dups (map gn_ID nodes)) (NoDup_remove_dups _))
    with (fuel := S (length nodes)) (roots := sortUTF16 (map gn_ID nodes))
         (st := {| df_state := ∅; df_stack := [] : list string; df_stackIndex := ∅ |}) as (r & -> & Hr).
  - intros u v. rewrite !elem_of_remove_dups. apply Hcl.
  - apply dfsInv_initial.
  - done.
  - intros n Hn. apply elem_of_remove_dups. by rewrite elem_of_sortUTF16 in Hn.
  - unfold remaining. etrans; [apply length_filter|].
    rewrite <- (length_map gn_ID). etrans; [|apply Nat.le_succ_diag_r].
    apply submseteq_length, NoDup_submseteq; [apply NoDup_remove_dups|]. intros x. by rewrite elem_of_remove_dups.
  - destruct r as [c|st].
    { destruct Hr as [Hc HcU]. split; [done|]. intros n Hn. by apply elem_of_remove_dups, HcU. }
    destruct Hr as (Hinv & _ & Hdone & _).
    intros n Hn. apply (df_acyclic _ _ _ Hinv). apply Hdone. by rewrite elem_of_sortUTF16.
Qed.

(** What [findCycle] returns is a closed walk along the edges, and it returns
    nothing exactly when no node lies on a cycle; the search always finishes. *)
Theorem findCycle_correct nodes adjacency
    (Hclosed : closedOver (map gn_ID nodes) adjacency) :
  (∀ c, findCycle nodes adjacency = Some c → isCycle (edgeIn adjacency) c) ∧
  (findCycle nodes adjacency = None ↔
   ∀ n, n ∈ map gn_ID nodes → ¬ tc (edgeIn adjacency) n n).
Proof.
  pose proof (findCycle_result nodes adjacency Hclosed) as H.
  destruct (findCycle nodes adjacency) as [c|] eqn:E.
  - destruct H as [H HU]. split; [by intros ? [= <-]|]. split; [done|]. intros Hno. exfalso.
    destruct (isCycle_tc _ _ H) as (a & Ha & Hcyc). apply (Hno a); [|done].
    apply HU. by destruct c; [|injection Ha as ->; left].
  - by split.
Qed.

Lemma findCycle_correct_witness :
  findCycle (map (λ n, plainNode n NodeKindStep) ["c"; "b"; "a"])
    {["a" := ["b"]; "b" := ["c"]; "c" := ["b"]]} = Some ["b"; "c"; "b"] ∧
  findCycle (map (λ n, plainNode n NodeKindStep) ["c"; "b"; "a"])
    {["a" := ["b"]; "b" := ["c"]]} = None ∧
  ¬ tc (edgeIn {["a" := ["b"]; "b" := ["c"]]}) "a" "a".
Proof.
  split; [vm_compute; reflexivity|]. split; [vm_compute; reflexivity|].
  refine (proj1 (proj2 (findCycle_correct (map (λ n, plainNode n NodeKindStep) ["c"; "b"; "a"])
    {["a" := ["b"]; "b" := ["c"]]} _)) _ _ _).
  - intros u v Hu Hv. repeat (apply elem_of_cons in Hu as [->|Hu]); [..|by apply elem_of_nil in Hu];
      vm_compute in Hv; set_solver.
  - vm_compute; reflexivity.
  - set_solver.
Defined.
