(* ===== verification/Json.v ===== *)
(** * JSON texts

    What the program uses of Go's [encoding/json]: the decoder as a function from
    bytes to a syntax tree.  [strict] is [jsontext] with its defaults (UTF-8 is
    checked, duplicate member names are refused); otherwise the v1 behaviour, which
    repairs text and keeps every member.  Numbers keep their token
    ([json.Number]). *)

From S2P Require Import Prelude Utf16.
From Stdlib Require Import Ascii.
#[local] Open Scope Z_scope.

Definition ch (c : ascii) : Z := byteOf c.

(** [strings.ContainsAny(s, "...")] on bytes. *)
Definition isOneOf (chars : string) (b : Z) : bool := existsb (Z.eqb b) (bytesOf chars).

Inductive json : Type :=
  | JNull
  | JBool (b : bool)
  | JNum (token : string)
  | JStr (s : string)
  | JArr (items : list json)
  | JObj (members : list (string * json)).

(** ** Lexing *)
Definition isSpace (b : Z) : bool := (b =? 32) || (b =? 9) || (b =? 10) || (b =? 13).

Fixpoint skipWs (l : list Z) : list Z :=
  match l with b :: l' => if isSpace b then skipWs l' else l | [] => [] end.

Fixpoint stripPrefix (p l : list Z) : option (list Z) :=
  match p, l with
  | [], _ => Some l
  | a :: p', b :: l' => if a =? b then stripPrefix p' l' else None
  | _, [] => None
  end.

Definition isDigit (b : Z) : bool := inRange 48 57 b.

(** A run of digits, possibly empty. *)
Fixpoint digits (l : list Z) : list Z * list Z :=
  match l with
  | b :: l' => if isDigit b then let '(d, r) := digits l' in (b :: d, r) else ([], l)
  | [] => ([], [])
  end.

(** [0] or a digit sequence that does not start with 0. *)
Definition scanInt (l : list Z) : option (list Z * list Z) :=
  match l with
  | b :: l' =>
      if b =? ch "0" then Some ([b], l')
      else if isDigit b then Some (digits l) else None
  | [] => None
  end.

Definition scanFrac (l : list Z) : option (list Z * list Z) :=
  match l with
  | b :: l' =>
      if b =? ch "." then
        match digits l' with ([], _) => None | (d, r) => Some (b :: d, r) end
      else Some ([], l)
  | [] => Some ([], [])
  end.

Definition scanExp (l : list Z) : option (list Z * list Z) :=
  match l with
  | b :: l' =>
      if (b =? ch "e") || (b =? ch "E") then
        let '(sign, l'') :=
          match l' with
          | c :: r => if (c =? ch "+") || (c =? ch "-") then ([c], r) else ([], l')
          | [] => ([], l')
          end in
        match digits l'' with ([], _) => None | (d, r) => Some (b :: sign ++ d, r) end
      else Some ([], l)
  | [] => Some ([], [])
  end.

(** A number token and what follows it. *)
Definition scanNumber (l : list Z) : option (list Z * list Z) :=
  let '(sign, l1) :=
    match l with b :: l' => if b =? ch "-" then ([b], l') else ([], l) | [] => ([], l) end in
  '(i, l2) ← scanInt l1; '(f, l3) ← scanFrac l2; '(e, l4) ← scanExp l3;
  Some (sign ++ i ++ f ++ e, l4).

Definition hexDigit (b : Z) : option Z :=
  if isDigit b then Some (b - 48)
  else if inRange 97 102 b then Some (b - 87)
  else if inRange 65 70 b then Some (b - 55)
  else None.

Definition hex4 (a b c d : Z) : option Z :=
  x ← hexDigit a; y ← hexDigit b; z ← hexDigit c; w ← hexDigit d;
  Some (x * 4096 + y * 256 + z * 16 + w).

Definition simpleEscape (b : Z) : option Z :=
  if (b =? 34) || (b =? 92) || (b =? 47) then Some b
  else if b =? ch "b" then Some 8
  else if b =? ch "f" then Some 12
  else if b =? ch "n" then Some 10
  else if b =? ch "r" then Some 13
  else if b =? ch "t" then Some 9
  else None.

Definition isHigh (r : Z) : bool := inRange 0xD800 0xDBFF r.
Definition isLow (r : Z) : bool := inRange 0xDC00 0xDFFF r.

(** The text after [\u]: the decoded bytes and how much of it they took.  A surrogate
    that is not half of a pair is an error, or becomes U+FFFD. *)
Definition unicodeEscape (strict : bool) (l : list Z) : option (list Z * nat) :=
  let lone := if strict then None else Some (encodeRune runeError, 4%nat) in
  match l with
  | h1 :: h2 :: h3 :: h4 :: l' =>
      r ← hex4 h1 h2 h3 h4;
      if isHigh r then
        match l' with
        | b :: u :: g1 :: g2 :: g3 :: g4 :: _ =>
            if (b =? 92) && (u =? 117) then
              r2 ← hex4 g1 g2 g3 g4;
              if isLow r2
              then Some (encodeRune (0x10000 + (r - 0xD800) * 1024 + (r2 - 0xDC00)), 10%nat)
              else lone
            else lone
        | _ => lone
        end
      else if isLow r then lone
      else Some (encodeRune r, 4%nat)
  | _ => None
  end.

(** The text after an opening quote: the decoded bytes and what follows the closing
    quote.  34 is the quote, 92 the backslash, 117 the letter u; [skip] counts the
    bytes of an escape sequence already decoded. *)
Fixpoint scanString (strict : bool) (skip : nat) (l : list Z) : option (list Z * list Z) :=
  let emit out r := '(s, rest) ← r; Some (out ++ s, rest) in
  match l with
  | [] => None
  | b :: l1 =>
      match skip with
      | S k => scanString strict k l1
      | O =>
          if b =? 34 then Some ([], l1)
          else if b <? 32 then None
          else if negb (b =? 92) then emit [b] (scanString strict 0 l1)
          else
            match l1 with
            | [] => None
            | e :: l2 =>
                if e =? 117 then
                  '(out, w) ← unicodeEscape strict l2; emit out (scanString strict (S w) l1)
                else
                  b' ← simpleEscape e; emit [b'] (scanString strict 1 l1)
            end
      end
  end.

(** A string literal after its opening quote: invalid UTF-8 is an error, or repaired. *)
Definition parseString (strict : bool) (l : list Z) : option (string * list Z) :=
  '(bytes, rest) ← scanString strict 0 l;
  let s := ofBytes bytes in
  if validUtf8 s then Some (s, rest)
  else if strict then None
  else Some (ofRunes (runes s), rest).

(** ** Values *)
Definition maxNestingDepth : Z := 10000.

(** The rest of a non-empty array or object.  [value] parses one element. *)
Fixpoint parseItems (value : list Z → option (json * list Z)) (fuel : nat) (l : list Z)
    : option (list json * list Z) :=
  match fuel with
  | O => None
  | S fuel' =>
      '(v, l1) ← value l;
      match skipWs l1 with
      | b :: l2 =>
          if b =? ch "," then '(vs, l3) ← parseItems value fuel' l2; Some (v :: vs, l3)
          else if b =? ch "]" then Some ([v], l2) else None
      | [] => None
      end
  end.

Fixpoint parseMembers (strict : bool) (value : list Z → option (json * list Z)) (fuel : nat)
    (seen : list string) (l : list Z) : option (list (string * json) * list Z) :=
  match fuel with
  | O => None
  | S fuel' =>
      match skipWs l with
      | b :: l0 =>
          if negb (b =? 34) then None else
          '(name, l1) ← parseString strict l0;
          if strict && bool_decide (name ∈ seen) then None else
          match skipWs l1 with
          | c :: l2 =>
              if negb (c =? ch ":") then None else
              '(v, l3) ← value l2;
              match skipWs l3 with
              | d :: l4 =>
                  if d =? ch "," then
                    '(ms, l5) ← parseMembers strict value fuel' (name :: seen) l4;
                    Some ((name, v) :: ms, l5)
                  else if d =? ch "}" then Some ([(name, v)], l4) else None
              | [] => None
              end
          | [] => None
          end
      | [] => None
      end
  end.

Fixpoint parseValue (strict : bool) (fuel : nat) (depth : Z) (l : list Z)
    : option (json * list Z) :=
  match fuel with
  | O => None
  | S fuel' =>
      let nested := parseValue strict fuel' (depth + 1) in
      match skipWs l with
      | [] => None
      | b :: l1 =>
          if b =? ch "{" then
            if depth =? maxNestingDepth then None else
            match skipWs l1 with
            | c :: l2 =>
                if c =? ch "}" then Some (JObj [], l2)
                else '(ms, l3) ← parseMembers strict nested fuel' [] (c :: l2); Some (JObj ms, l3)
            | [] => None
            end
          else if b =? ch "[" then
            if depth =? maxNestingDepth then None else
            match skipWs l1 with
            | c :: l2 =>
                if c =? ch "]" then Some (JArr [], l2)
                else '(vs, l3) ← parseItems nested fuel' (c :: l2); Some (JArr vs, l3)
            | [] => None
            end
          else if b =? 34 then '(s, l2) ← parseString strict l1; Some (JStr s, l2)
          else if b =? ch "n" then l2 ← stripPrefix (bytesOf "ull") l1; Some (JNull, l2)
          else if b =? ch "t" then l2 ← stripPrefix (bytesOf "rue") l1; Some (JBool true, l2)
          else if b =? ch "f" then l2 ← stripPrefix (bytesOf "alse") l1; Some (JBool false, l2)
          else '(tok, l2) ← scanNumber (b :: l1); Some (JNum (ofBytes tok), l2)
      end
  end.

(** The first value of a text, and the bytes after it.  Every nested call is on a
    shorter text, so the length bounds the recursion. *)
Definition readValue (strict : bool) (data : string) : option (json * list Z) :=
  parseValue strict (S (String.length data)) 0 (bytesOf data).

(** [json.Unmarshal] into [any] (with [UseNumber]): one value and trailing space. *)
Definition unmarshal (data : string) : option json :=
  match readValue false data with
  | Some (v, rest) => match skipWs rest with [] => Some v | _ => None end
  | None => None
  end.

(** Go maps keep the last of duplicated members. *)
Fixpoint member {A} (name : string) (ms : list (string * A)) : option A :=
  match ms with
  | [] => None
  | (n, v) :: ms' =>
      match member name ms' with
      | Some v' => Some v'
      | None => if bool_decide (n = name) then Some v else None
      end
  end.
