(* ===== verification/Canonical.v ===== *)
(** * Canonical JSON

    [internal/canonical/canonical.go]: the canonical form every digest of the system
    is taken over.  [NumberToJSON] belongs to a third-party package and SHA-256 is
    left uninterpreted: both are parameters.  A [map[string]any] is an association
    list without duplicate names; theorems about it do not depend on its order. *)

From S2P Require Import Prelude Utf16 Json.
From Stdlib Require Import Ascii SpecFloat.
#[local] Open Scope Z_scope.

#[global] Instance spec_float_eq_dec : EqDecision spec_float.
Proof. solve_decision. Defined.

(** ** [strconv.ParseFloat(s, 64)] on a JSON number token *)

Definition digitsValue (l : list Z) : Z := foldl (λ acc b, acc * 10 + (b - 48)) 0 l.

(** The token as sign, decimal mantissa and decimal exponent. *)
Definition decimalOf (token : list Z) : bool * Z * Z :=
  let '(neg, l1) :=
    match token with b :: l' => if b =? ch "-" then (true, l') else (false, token) | [] => (false, []) end in
  let '(i, l2) := digits l1 in
  let '(f, l3) :=
    match l2 with b :: l' => if b =? ch "." then digits l' else ([], l2) | [] => ([], []) end in
  let e :=
    match l3 with
    | _ :: c :: l' =>
        if c =? ch "-" then - digitsValue l'
        else if c =? ch "+" then digitsValue l' else digitsValue (c :: l')
    | _ => 0
    end in
  (neg, digitsValue (i ++ f), e - Z.of_nat (length f)).

(** The nearest double; [None] is the range error of a value that rounds to infinity. *)
Definition ParseFloat (token : string) : option spec_float :=
  let '(neg, m, e) := decimalOf (bytesOf token) in
  let d :=
    if m =? 0 then S754_zero neg
    else if 0 <=? e then binary_normalize 53 1024 ((if neg then -1 else 1) * (m * 10 ^ e)) 0 neg
    else SFdiv 53 1024 (S754_finite neg (Z.to_pos m) 0) (S754_finite false (Z.to_pos (10 ^ (- e))) 0)
  in
  match d with S754_infinity _ | S754_nan => None | _ => Some d end.

(** ** The decoded tree *)

(** [any] after [decodeNumbers]: numbers are doubles. *)
Inductive value : Type :=
  | VNull
  | VBool (b : bool)
  | VNum (d : spec_float)
  | VStr (s : string)
  | VArr (items : list value)
  | VObj (members : list (string * value)).

(** The case [default] of the switch on a rune. *)
Definition lowerHex (n : Z) : Z := if n <? 10 then 48 + n else 87 + n.

Definition quoteRune (r : Z) : list Z :=
  if r =? 34 then [92; 34]
  else if r =? 92 then [92; 92]
  else if r =? 8 then [92; 98]
  else if r =? 9 then [92; 116]
  else if r =? 10 then [92; 110]
  else if r =? 12 then [92; 102]
  else if r =? 13 then [92; 114]
  else if r <? 32 then [92; 117; 48; 48; lowerHex (r / 16); lowerHex (r mod 16)]
  else encodeRune r.

Definition quoteBytes (value : string) : list Z := 34 :: (runes value ≫= quoteRune) ++ [34].
Definition jsonQuote (value : string) : string := ofBytes (quoteBytes value).

Definition isHexLower (b : Z) : bool := isDigit b || inRange 97 102 b.

(** [^sha256:[0-9a-f]{64}$] *)
Definition IsSHA256Ref (value : string) : bool :=
  match stripPrefix (bytesOf "sha256:") (bytesOf value) with
  | Some hex => (Z.of_nat (length hex) =? 64) && forallb isHexLower hex
  | None => false
  end.

(** [sort.Slice(keys, LessUTF16)], with what belongs to each key. *)
Definition keyLe {A} (p q : string * A) : Prop := utf16_le p.1 q.1.
#[global] Instance keyLe_dec {A} : RelDecision (@keyLe A).
Proof. intros p q. unfold keyLe. apply _. Defined.
Definition sortMembers {A} (ms : list (string * A)) : list (string * A) := merge_sort keyLe ms.

(** [","]-separated output of the elements, in order; the first error wins. *)
Fixpoint joinOut (outs : list (result string)) : result string :=
  match outs with
  | [] => Ok ""
  | [o] => o
  | o :: outs' => s ← o; rest ← joinOut outs'; Ok (s +:+ "," +:+ rest)
  end.

Section Canonical.
(** [jsoncanonicalizer.NumberToJSON] and [sha256.Sum256] with [hex.EncodeToString]. *)
Context (NumberToJSON : spec_float → result string) (sha256Hex : string → string).

(** A number token is its double; an integer token must survive the round trip. *)
Definition decodeNumber (token : string) : result spec_float :=
  match ParseFloat token with
  | None => Err (Errorf "decode finite JSON number %q: %w" [AStr token; AWrap (ErrNew "value out of range")])
  | Some double =>
      if negb (existsb (isOneOf ".eE") (bytesOf token)) && negb (bool_decide (token = "-0")) then
        encoded ← NumberToJSON double;
        if bool_decide (encoded = token) then Ok double
        else Err (Errorf
          "integer JSON token %q changes under double serialization to %s; use a string for exact integers"
          [AStr token; AStr encoded])
      else Ok double
  end.

Fixpoint decodeNumbers (v : json) : result value :=
  match v with
  | JNull => Ok VNull
  | JBool b => Ok (VBool b)
  | JNum token => VNum <$> decodeNumber token
  | JStr s => Ok (VStr s)
  | JArr items => VArr <$> mapErr decodeNumbers items
  | JObj members => VObj <$> mapMembers decodeNumbers members
  end.

Definition decodeJSON (data : string) : result value :=
  match readValue true data with
  | None => Err (Errorf "decode JSON field tree: %w" [AWrap (ErrNew "jsontext: invalid JSON")])
  | Some (v, rest) =>
      match skipWs rest with
      | [] => decodeNumbers v
      | _ => Err (ErrNew "decode JSON field tree: trailing JSON content")
      end
  end.

Fixpoint writeCanonicalJSON (v : value) : result string :=
  match v with
  | VNull => Ok "null"
  | VBool b => Ok (if b then "true" else "false")
  | VNum d => wrapErr "encode finite JSON number %v: %w" [] (NumberToJSON d)
  | VStr s => Ok (jsonQuote s)
  | VArr items =>
      body ← joinOut (map writeCanonicalJSON items); Ok ("[" +:+ body +:+ "]")
  | VObj members =>
      let outs := map (λ kv, (kv.1, writeCanonicalJSON kv.2)) members in
      body ← joinOut (map (λ kv : string * result string,
        s ← kv.2; Ok (jsonQuote kv.1 +:+ ":" +:+ s)) (sortMembers outs));
      Ok ("{" +:+ body +:+ "}")
  end.

Definition canonicalize (v : value) : result string := writeCanonicalJSON v.

Definition CanonicalizeJSON (data : string) : result string :=
  v ← decodeJSON data; canonicalize v.

Definition DigestBytes (data : string) : string := "sha256:" +:+ sha256Hex data.

Definition DigestJSON (data : string) : result string :=
  canonical ← CanonicalizeJSON data; Ok (DigestBytes canonical).

Definition DigestJSONWithRootMemberExcluded (data m : string) : result string :=
  v ← decodeJSON data;
  match v with
  | VObj members =>
      canonical ← canonicalize (VObj (filter (λ kv, kv.1 ≠ m) members));
      Ok (DigestBytes canonical)
  | _ => Err (ErrNew "self-exclusion requires a root JSON object")
  end.
End Canonical.
