(* ===== verification/CanonicalText.v ===== *)
(** * Canonical texts parse back

    The strict decoder of [Json] inverts the printing of [Canonical]: [readValue_print]
    (a printed tree reads back as itself) and [readValue_sound] (what the decoder
    accepts is a well-formed tree).  [CanonicalForm] builds the properties of
    [CanonicalizeJSON] on these two. *)
From S2P Require Import Prelude Utf16 Json Canonical.
From Stdlib Require Import Ascii.
#[local] Open Scope Z_scope.

(** ** Bytes and strings *)
Definition byteRange (b : Z) : Prop := 0 <= b < 256.

Lemma byteOf_charOf b : byteRange b → byteOf (charOf b) = b.
Proof.
  intros Hb. unfold byteOf, charOf. rewrite N_ascii_embedding; [by rewrite Z2N.id by apply Hb|].
  unfold byteRange in Hb. lia.
Qed.
Lemma bytesOf_ofBytes l : Forall byteRange l → bytesOf (ofBytes l) = l.
Proof. induction 1; simpl; [done|]. by rewrite byteOf_charOf, IHForall by done. Qed.
Lemma charOf_byteOf c : charOf (byteOf c) = c.
Proof. unfold charOf, byteOf. by rewrite N2Z.id, ascii_N_embedding. Qed.
Lemma ofBytes_bytesOf s : ofBytes (bytesOf s) = s.
Proof. induction s as [|c s IH]; simpl; [done|]. by rewrite charOf_byteOf, IH. Qed.
Lemma bytesOf_app a b : bytesOf (a +:+ b) = bytesOf a ++ bytesOf b.
Proof. induction a as [|x a IH]; simpl; [done|]. by rewrite IH. Qed.
Lemma ofBytes_app a b : ofBytes (a ++ b) = ofBytes a +:+ ofBytes b.
Proof. induction a as [|x a IH]; simpl; [done|]. by rewrite IH. Qed.
Lemma string_length_app a b : String.length (a +:+ b) = (String.length a + String.length b)%nat.
Proof. induction a as [|x a IH]; [done|]. change (String x a +:+ b) with (String x (a +:+ b)). cbn [String.length]. by rewrite IH. Qed.
Lemma append_assoc (a b c : string) : (a +:+ b) +:+ c = a +:+ b +:+ c.
Proof. induction a as [|x a IH]; [done|]. exact (f_equal (String x) IH). Qed.
Lemma length_bytesOf s : length (bytesOf s) = String.length s.
Proof. induction s; simpl; auto. Qed.

Lemma encodeRune_range r : isScalar r = true → Forall byteRange (encodeRune r).
Proof.
  intros H. assert (0 <= r <= 0x10FFFF) as Hr by range_lia.
  unfold encodeRune. rewrite H.
  pose proof (Z.mod_pos_bound r 64). pose proof (Z.mod_pos_bound (r / 64) 64).
  pose proof (Z.mod_pos_bound (r / 4096) 64). unfold byteRange.
  destruct (Z.ltb_spec r 0x80); [repeat constructor; lia|].
  destruct (Z.ltb_spec r 0x800).
  { pose proof (Z.div_le_lower_bound r 64 0). pose proof (Z.div_lt_upper_bound r 64 32).
    repeat constructor; lia. }
  destruct (Z.ltb_spec r 0x10000).
  { pose proof (Z.div_le_lower_bound r 4096 0). pose proof (Z.div_lt_upper_bound r 4096 16).
    repeat constructor; lia. }
  pose proof (Z.div_le_lower_bound r 262144 0). pose proof (Z.div_lt_upper_bound r 262144 5).
  repeat constructor; lia.
Qed.

(** Above ASCII, every byte of an encoding has its high bit set. *)
Lemma encodeRune_high r : isScalar r = true → 0x80 <= r → Forall (λ b, 0x80 <= b) (encodeRune r).
Proof.
  intros H Hr. unfold encodeRune. rewrite H.
  pose proof (Z.mod_pos_bound r 64). pose proof (Z.mod_pos_bound (r / 64) 64).
  pose proof (Z.mod_pos_bound (r / 4096) 64).
  destruct (Z.ltb_spec r 0x80); [lia|].
  pose proof (Z.div_pos r 64). pose proof (Z.div_pos r 4096). pose proof (Z.div_pos r 262144).
  repeat case_match; repeat constructor; lia.
Qed.

(** ** Quoted strings *)
Definition plainByte (b : Z) : Prop := 32 <= b ∧ b ≠ 34 ∧ b ≠ 92.

Definition prepend (out : list Z) (r : option (list Z * list Z)) : option (list Z * list Z) :=
  '(s, rest) ← r; Some (out ++ s, rest).

Lemma prepend_app a b r : prepend a (prepend b r) = prepend (a ++ b) r.
Proof. destruct r as [[s rest]|]; simpl; [|done]. by rewrite (assoc_L (++)). Qed.

Lemma scanString_plain strict bs l :
  Forall plainByte bs → scanString strict 0 (bs ++ l) = prepend bs (scanString strict 0 l).
Proof.
  induction 1 as [|b bs (H1 & H2 & H3) _ IH]; [simpl app; by destruct (scanString strict 0 l) as [[]|]|].
  simpl app. cbn [scanString].
  destruct (Z.eqb_spec b 34); [done|]. destruct (Z.ltb_spec b 32); [lia|].
  destruct (Z.eqb_spec b 92); [done|]. cbn [negb]. rewrite IH.
  by rewrite <- (prepend_app [b] bs).
Qed.

(** The control characters [jsonQuote] writes as [\u00xx]. *)
Lemma hex4_control r : 0 <= r < 32 →
  hex4 48 48 (lowerHex (r / 16)) (lowerHex (r mod 16)) = Some r ∧ isHigh r = false ∧ isLow r = false.
Proof.
  intros Hr.
  assert (forallb (λ r, bool_decide (hex4 48 48 (lowerHex (r / 16)) (lowerHex (r mod 16)) = Some r)
    && negb (isHigh r) && negb (isLow r)) (seqZ 0 32) = true) as H by (vm_compute; reflexivity).
  rewrite forallb_forall in H. specialize (H r).
  rewrite <- list_elem_of_In in H. specialize (H ltac:(by apply elem_of_seqZ)).
  apply andb_prop in H as [[H1 H2]%andb_prop H3].
  apply bool_decide_eq_true in H1. apply negb_true_iff in H2, H3. done.
Qed.

Lemma scanString_quoteRune strict r l :
  isScalar r = true →
  scanString strict 0 (quoteRune r ++ l) = prepend (encodeRune r) (scanString strict 0 l).
Proof.
  intros Hr. unfold quoteRune.
  destruct (Z.eqb_spec r 34); [by subst|]. destruct (Z.eqb_spec r 92); [by subst|].
  destruct (Z.eqb_spec r 8); [by subst|]. destruct (Z.eqb_spec r 9); [by subst|].
  destruct (Z.eqb_spec r 10); [by subst|]. destruct (Z.eqb_spec r 12); [by subst|].
  destruct (Z.eqb_spec r 13); [by subst|].
  destruct (Z.ltb_spec r 32) as [Hlt|Hge].
  - assert (0 <= r) as Hr0 by range_lia. destruct (hex4_control r ltac:(lia)) as (H4 & Hh & Hl).
    cbn [app scanString Z.eqb Z.ltb Z.compare negb Pos.eqb Pos.compare Pos.compare_cont].
    unfold unicodeEscape. rewrite H4. cbn [mbind option_bind]. rewrite Hh, Hl. done.
  - apply scanString_plain. destruct (Z.ltb_spec r 0x80) as [Ha|Ha].
    + unfold encodeRune. rewrite Hr. destruct (Z.ltb_spec r 0x80); [|lia].
      repeat constructor; done.
    + eapply Forall_impl; [by apply encodeRune_high|]. intros b Hb. simpl in Hb. unfold plainByte. lia.
Qed.

Lemma scanString_quoted strict rs rest :
  Forall (λ r, isScalar r = true) rs →
  scanString strict 0 ((rs ≫= quoteRune) ++ 34 :: rest) = Some (rs ≫= encodeRune, rest).
Proof.
  induction 1 as [|r rs Hr _ IH]; [done|].
  cbn [mbind list_bind]. rewrite <- (assoc_L (++)), scanString_quoteRune, IH by done. done.
Qed.

Lemma parseString_quoted strict s rest :
  validUtf8 s = true →
  parseString strict ((runes s ≫= quoteRune) ++ 34 :: rest) = Some (s, rest).
Proof.
  intros Hs. unfold parseString. rewrite scanString_quoted by apply runes_scalar. simpl.
  pose proof (bool_decide_eq_true_1 _ Hs) as E. unfold ofRunes in E. by rewrite E, Hs.
Qed.

Lemma quoteRune_range r : isScalar r = true → Forall byteRange (quoteRune r).
Proof.
  intros Hr. assert (0 <= r) by range_lia. unfold quoteRune.
  repeat (case_match; [repeat constructor; unfold byteRange; lia|]).
  destruct (Z.ltb_spec r 32); [|by apply encodeRune_range].
  pose proof (Z.mod_pos_bound r 16). pose proof (Z.div_pos r 16).
  pose proof (Z.div_lt_upper_bound r 16 2). unfold lowerHex.
  repeat case_match; repeat constructor; unfold byteRange; lia.
Qed.

Lemma quoteBytes_range s : Forall byteRange (quoteBytes s).
Proof.
  unfold quoteBytes. constructor; [unfold byteRange; lia|]. apply Forall_app. split.
  - apply Forall_bind. eapply Forall_impl; [apply runes_scalar|]. apply quoteRune_range.
  - repeat constructor; unfold byteRange; lia.
Qed.

(** ** Number tokens *)

(** What may follow a number token in a canonical text. *)
Definition delimiter (rest : list Z) : Prop :=
  match rest with [] => True | b :: _ => b = 44 ∨ b = 93 ∨ b = 125 end.

Definition numberToken (t : list Z) : Prop := scanNumber t = Some (t, []) ∧ Forall byteRange t.

Lemma digits_app l d r rest :
  digits l = (d, r) → delimiter rest → digits (l ++ rest) = (d, r ++ rest).
Proof.
  revert d r; induction l as [|b l IH]; intros d r; simpl.
  - intros [= <- <-] Hd. destruct rest as [|b rest]; [done|]. simpl.
    by destruct Hd as [->|[->| ->]].
  - destruct (isDigit b); [|by intros [= <- <-]].
    destruct (digits l) as [d' r'] eqn:E. intros [= <- <-] Hd. by rewrite (IH d' r').
Qed.

Lemma scanInt_app l d r rest :
  scanInt l = Some (d, r) → delimiter rest → scanInt (l ++ rest) = Some (d, r ++ rest).
Proof.
  destruct l as [|b l]; [done|]. intros H Hd. unfold scanInt in *. cbn [app].
  destruct (Z.eqb_spec b (ch "0")); [by injection H as <- <-|].
  destruct (isDigit b) eqn:Eb; [|done]. injection H as E. f_equal.
  by apply (digits_app (b :: l)).
Qed.

Lemma scanFrac_app l d r rest :
  scanFrac l = Some (d, r) → delimiter rest → scanFrac (l ++ rest) = Some (d, r ++ rest).
Proof.
  destruct l as [|b l]; simpl.
  - intros [= <- <-] Hd. destruct rest as [|b rest]; [done|]. simpl.
    by destruct Hd as [->|[->| ->]].
  - destruct (b =? ch "."); [|by intros [= <- <-]].
    destruct (digits l) as [[|x d'] r'] eqn:E; [done|]. intros [= <- <-] Hd.
    by rewrite (digits_app _ _ _ _ E Hd).
Qed.

Lemma scanExp_app l d r rest :
  scanExp l = Some (d, r) → delimiter rest → scanExp (l ++ rest) = Some (d, r ++ rest).
Proof.
  intros H Hd. destruct l as [|b l].
  { injection H as <- <-. destruct rest as [|b rest]; [done|].
    by destruct Hd as [->|[->| ->]]. }
  unfold scanExp in *. cbn [app].
  destruct ((b =? ch "e") || (b =? ch "E")); [|by injection H as <- <-].
  destruct l as [|c l]; [done|]. cbn [app].
  destruct ((c =? ch "+") || (c =? ch "-")).
  - destruct (digits l) as [[|x d'] r'] eqn:E; [done|]. injection H as <- <-.
    by rewrite (digits_app _ _ _ _ E Hd).
  - destruct (digits (c :: l)) as [[|x d'] r'] eqn:E; [done|]. injection H as <- <-.
    change (c :: l ++ rest) with ((c :: l) ++ rest).
    by rewrite (digits_app _ _ _ _ E Hd).
Qed.

Lemma scanNumber_app l t r rest :
  scanNumber l = Some (t, r) → delimiter rest → scanNumber (l ++ rest) = Some (t, r ++ rest).
Proof.
  unfold scanNumber. intros H Hd.
  set (sgn := λ l : list Z, match l with
    | b :: l' => if b =? ch "-" then ([b], l') else ([], l) | [] => ([], l) end) in *.
  change (match l with
    | b :: l' => if b =? ch "-" then ([b], l') else ([], l) | [] => ([], l) end) with (sgn l) in H.
  change (match l ++ rest with
    | b :: l' => if b =? ch "-" then ([b], l') else ([], l ++ rest)
    | [] => ([], l ++ rest) end) with (sgn (l ++ rest)).
  destruct (sgn l) as [sign l1] eqn:Es.
  destruct (scanInt l1) as [[i l2]|] eqn:Ei; [|done]. simpl in H.
  destruct (scanFrac l2) as [[f l3]|] eqn:Ef; [|done]. simpl in H.
  destruct (scanExp l3) as [[e l4]|] eqn:Ee; [|done]. simpl in H. injection H as <- <-.
  assert (sgn (l ++ rest) = (sign, l1 ++ rest)) as ->.
  { destruct l as [|b l]; simpl in *; [by injection Es as <- <-|].
    by destruct (b =? ch "-"); injection Es as <- <-. }
  rewrite (scanInt_app _ _ _ _ Ei Hd). simpl. rewrite (scanFrac_app _ _ _ _ Ef Hd). simpl.
  by rewrite (scanExp_app _ _ _ _ Ee Hd).
Qed.

Lemma numberToken_head t : numberToken t → ∃ b t', t = b :: t' ∧ (isDigit b = true ∨ b = 45).
Proof.
  intros [H _]. destruct t as [|b t]; [done|]. exists b, t. split; [done|].
  unfold scanNumber in H. destruct (Z.eqb_spec b (ch "-")) as [->|Hne]; [by right|].
  destruct (Z.eqb_spec b (ch "0")) as [->|]; [by left|]. left.
  simpl in H. destruct (Z.eqb_spec b (ch "0")); [done|].
  by destruct (isDigit b).
Qed.

(** ** Trees *)
Section JsonInd.
Context (P : json → Prop).
Context (Hnull : P JNull) (Hbool : ∀ b, P (JBool b)) (Hnum : ∀ t, P (JNum t))
  (Hstr : ∀ s, P (JStr s)) (Harr : ∀ l, Forall P l → P (JArr l))
  (Hobj : ∀ ms, Forall (λ kv, P kv.2) ms → P (JObj ms)).

Fixpoint json_nested_ind (t : json) : P t :=
  match t with
  | JNull => Hnull
  | JBool b => Hbool b
  | JNum tok => Hnum tok
  | JStr s => Hstr s
  | JArr l => Harr l ((fix go l : Forall P l :=
      match l with [] => Forall_nil_2 _ | x :: l' => Forall_cons_2 _ _ _ (json_nested_ind x) (go l') end) l)
  | JObj ms => Hobj ms ((fix go ms : Forall (λ kv, P kv.2) ms :=
      match ms with
      | [] => Forall_nil_2 _
      | kv :: ms' => Forall_cons_2 _ _ _ (json_nested_ind kv.2) (go ms')
      end) ms)
  end.
End JsonInd.

Fixpoint joinBytes (ls : list (list Z)) : list Z :=
  match ls with [] => [] | [l] => l | l :: ls' => l ++ 44 :: joinBytes ls' end.

(** The text of a tree whose members are written in the order they have. *)
Fixpoint printBytes (t : json) : list Z :=
  match t with
  | JNull => bytesOf "null"
  | JBool b => if b then bytesOf "true" else bytesOf "false"
  | JNum token => bytesOf token
  | JStr s => quoteBytes s
  | JArr items => 91 :: joinBytes (map printBytes items) ++ [93]
  | JObj members =>
      123 :: joinBytes (map (λ kv, quoteBytes kv.1 ++ 58 :: printBytes kv.2) members) ++ [125]
  end.

(** What the strict decoder returns at nesting [depth]. *)
Fixpoint wellFormed (depth : Z) (t : json) : Prop :=
  match t with
  | JNull | JBool _ => True
  | JNum token => numberToken (bytesOf token)
  | JStr s => validUtf8 s = true
  | JArr items =>
      depth < maxNestingDepth ∧
      (fix all (l : list json) : Prop :=
        match l with [] => True | x :: l' => wellFormed (depth + 1) x ∧ all l' end) items
  | JObj members =>
      depth < maxNestingDepth ∧ NoDup members.*1 ∧
      (fix all (l : list (string * json)) : Prop :=
        match l with
        | [] => True
        | kv :: l' => (validUtf8 kv.1 = true ∧ wellFormed (depth + 1) kv.2) ∧ all l'
        end) members
  end.

Lemma wellFormed_JArr d l :
  wellFormed d (JArr l) ↔ d < maxNestingDepth ∧ Forall (wellFormed (d + 1)) l.
Proof.
  simpl. f_equiv. induction l as [|x l IH]; [by split|]. rewrite Forall_cons, IH. done.
Qed.
Lemma wellFormed_JObj d ms :
  wellFormed d (JObj ms) ↔ d < maxNestingDepth ∧ NoDup ms.*1 ∧
    Forall (λ kv, validUtf8 kv.1 = true ∧ wellFormed (d + 1) kv.2) ms.
Proof.
  simpl. f_equiv. f_equiv. induction ms as [|x l IH]; [by split|]. rewrite Forall_cons, IH. done.
Qed.

Lemma isDigit_range b : isDigit b = true → 48 <= b <= 57.
Proof. unfold isDigit. intros. range_lia. Qed.

(** The first byte of a tree's text is neither space nor a closing bracket. *)
Lemma printBytes_head d t : wellFormed d t →
  ∃ b l, printBytes t = b :: l ∧ isSpace b = false ∧ (b =? 93) = false ∧ (b =? 125) = false.
Proof.
  destruct t as [|b|token|s|items|ms]; intros Hwf; simpl printBytes.
  - exists (ch "n"), (bytesOf "ull"). done.
  - destruct b; [exists (ch "t"), (bytesOf "rue")|exists (ch "f"), (bytesOf "alse")]; done.
  - destruct (numberToken_head _ Hwf) as (b & l & E & Hb). exists b, l. split; [done|].
    destruct Hb as [Hb%isDigit_range| ->]; [|done]. unfold isSpace.
    rewrite !orb_false_iff, !Z.eqb_neq. lia.
  - eexists 34, _. done.
  - eexists 91, _. done.
  - eexists 123, _. done.
Qed.

Lemma skipWs_print d t rest : wellFormed d t →
  skipWs (printBytes t ++ rest) = printBytes t ++ rest.
Proof.
  intros (b & l & -> & Hs & _)%printBytes_head. simpl. by rewrite Hs.
Qed.

Definition parsesBack (t : json) : Prop := ∀ d fuel rest,
  wellFormed d t → (length (printBytes t ++ rest) < fuel)%nat → delimiter rest →
  parseValue true fuel d (printBytes t ++ rest) = Some (t, rest).

Lemma length_printBytes d t : wellFormed d t → (1 ≤ length (printBytes t))%nat.
Proof. intros (b & l & -> & _)%printBytes_head. simpl. lia. Qed.

Lemma joinBytes_cons l l' ls : joinBytes (l :: l' :: ls) = l ++ 44 :: joinBytes (l' :: ls).
Proof. done. Qed.

Lemma parseItems_print d fuel n items rest :
  items ≠ [] → Forall parsesBack items → Forall (wellFormed d) items →
  (length (joinBytes (map printBytes items) ++ 93%Z :: rest) < fuel)%nat →
  (length (joinBytes (map printBytes items) ++ 93%Z :: rest) < n)%nat →
  parseItems (parseValue true fuel d) n (joinBytes (map printBytes items) ++ 93 :: rest)
  = Some (items, rest).
Proof.
  intros Hne Hp. revert n Hne. induction Hp as [|v vs Hv Hp IH]; intros n Hne Hwf Hf Hn; [done|].
  apply Forall_cons in Hwf as [Hwv Hwf]. destruct n as [|n]; [lia|]. cbn [parseItems map].
  destruct vs as [|w vs].
  - cbn [map joinBytes] in *. by rewrite Hv; [|done|lia|right; left].
  - cbn [map] in *. rewrite joinBytes_cons in *. rewrite <- (assoc_L (++)) in *.
    cbn [app] in *. rewrite Hv; [|done|exact Hf|by left]. cbn [mbind option_bind skipWs].
    change (isSpace 44) with false. change (44 =? ch ",") with true. cbv iota.
    pose proof (length_printBytes d v Hwv). rewrite length_app in Hf, Hn.
    cbn [length] in Hf, Hn. by rewrite IH by (done || lia).
Qed.

Definition printMember (kv : string * json) : list Z := quoteBytes kv.1 ++ 58 :: printBytes kv.2.

Lemma parseMembers_print d fuel n seen ms rest :
  ms ≠ [] → Forall (λ kv, parsesBack kv.2) ms →
  Forall (λ kv, validUtf8 kv.1 = true ∧ wellFormed d kv.2) ms →
  NoDup ms.*1 → (∀ k, k ∈ ms.*1 → k ∉ seen) →
  (length (joinBytes (map printMember ms) ++ 125%Z :: rest) < fuel)%nat →
  (length (joinBytes (map printMember ms) ++ 125%Z :: rest) < n)%nat →
  parseMembers true (parseValue true fuel d) n seen (joinBytes (map printMember ms) ++ 125 :: rest)
  = Some (ms, rest).
Proof.
  intros Hne Hp. revert n seen Hne.
  induction Hp as [|[k v] ms Hv Hp IH]; intros n seen Hne Hwf Hnd Hseen Hf Hn; [done|].
  apply Forall_cons in Hwf as [[Hk Hwv] Hwf]. simpl in Hk, Hwv, Hv.
  rewrite fmap_cons in Hnd. apply NoDup_cons in Hnd as [Hkn Hnd]. simpl in Hkn.
  assert (k ∉ seen) as Hks by (apply Hseen; left).
  assert (∀ tail, joinBytes (map printMember ((k, v) :: ms)) ++ 125 :: rest
    = quoteBytes k ++ 58 :: printBytes v ++ tail →
    (length (printBytes v ++ tail) < fuel)%nat) as Hlen.
  { intros tail E. rewrite E, length_app in Hf. simpl in Hf. lia. }
  assert (∀ tail, delimiter tail →
    joinBytes (map printMember ((k, v) :: ms)) ++ 125 :: rest = quoteBytes k ++ 58 :: printBytes v ++ tail →
    parseMembers true (parseValue true fuel d) (S (Nat.pred n)) seen
      (joinBytes (map printMember ((k, v) :: ms)) ++ 125 :: rest) =
    match skipWs tail with
    | e :: l4 =>
        if e =? ch "," then
          '(ms', l5) ← parseMembers true (parseValue true fuel d) (Nat.pred n) (k :: seen) l4;
          Some ((k, v) :: ms', l5)
        else if e =? ch "}" then Some ([(k, v)], l4) else None
    | [] => None
    end) as Hstep.
  { intros tail Hd E. specialize (Hlen tail E). rewrite E. unfold quoteBytes. simpl app.
    cbn [parseMembers].
    change (skipWs (34 :: ?l)) with (34 :: l). cbv iota. change (negb (34 =? 34)) with false. cbv iota.
    rewrite <- (assoc_L (++)). simpl app. rewrite parseString_quoted by done. cbn [mbind option_bind].
    rewrite bool_decide_eq_false_2 by done. cbn [andb].
    change (skipWs (58 :: ?l)) with (58 :: l). cbv iota. change (negb (58 =? ch ":")) with false. cbv iota.
    rewrite Hv by done. done. }
  destruct n as [|n]; [lia|]. cbn [Nat.pred] in Hstep.
  destruct ms as [|kv ms].
  - rewrite (Hstep (125 :: rest)); [done|by right; right|].
    cbn [map joinBytes]. unfold printMember. simpl. by rewrite <- (assoc_L (++)).
  - rewrite (Hstep (44 :: joinBytes (map printMember (kv :: ms)) ++ 125 :: rest)); [|by left|].
    + change (skipWs (44 :: ?l)) with (44 :: l). cbv iota. change (44 =? ch ",") with true. cbv iota.
      cbn [map] in Hf, Hn. change (joinBytes (printMember (k, v) :: printMember kv :: map printMember ms))
        with (printMember (k, v) ++ 44 :: joinBytes (map printMember (kv :: ms))) in Hf, Hn.
      rewrite <- (assoc_L (++)), length_app in Hf, Hn. simpl length in Hf, Hn.
      assert (1 ≤ length (printMember (k, v)))%nat by (unfold printMember, quoteBytes; simpl; lia).
      rewrite IH; [done|done|done|done| | |].
      * intros k' Hk'. rewrite not_elem_of_cons. split; [by intros ->|]. apply Hseen. by right.
      * simpl in *. lia.
      * simpl in *. lia.
    + cbn [map]. change (joinBytes (printMember (k, v) :: printMember kv :: map printMember ms))
        with (printMember (k, v) ++ 44 :: joinBytes (map printMember (kv :: ms))).
      unfold printMember at 1. simpl. by rewrite <- !(assoc_L (++)).
Qed.

Lemma stripPrefix_app p rest : stripPrefix p (p ++ rest) = Some rest.
Proof. induction p as [|a p IH]; simpl; [done|]. by rewrite Z.eqb_refl. Qed.

Lemma stripPrefix_Some p l r : stripPrefix p l = Some r → l = p ++ r.
Proof.
  revert l; induction p as [|a p IH]; intros l; cbn [stripPrefix]; [by intros [= ->]|].
  destruct l as [|b l]; [done|]. destruct (Z.eqb_spec a b) as [->|]; [|done]. by intros ->%IH.
Qed.

Lemma parse_print t : parsesBack t.
Proof.
  induction t as [|b|token|s|items Hitems|ms Hms] using json_nested_ind;
    intros d [|fuel] rest Hwf Hf Hd; try lia.
  - done.
  - by destruct b.
  - destruct (numberToken_head _ Hwf) as (b & l & E & Hb).
    assert (isSpace b = false ∧ b ≠ 123 ∧ b ≠ 91 ∧ b ≠ 34 ∧ b ≠ 110 ∧ b ≠ 116 ∧ b ≠ 102) as (Hs & Hne).
    { split; [|destruct Hb as [Hb%isDigit_range| ->]; lia].
      destruct (printBytes_head d _ Hwf) as (b' & l' & E' & Hs & _). simpl in E'. congruence. }
    simpl printBytes in *. rewrite E in *. simpl app. cbn [parseValue].
    cbn [skipWs]. rewrite Hs.
    change (ch "{") with 123. change (ch "[") with 91. change (ch "n") with 110.
    change (ch "t") with 116. change (ch "f") with 102.
    do 6 (match goal with |- context [b =? ?k] => destruct (Z.eqb_spec b k); [lia|] end).
    destruct Hwf as [Hsc _]. change (b :: l ++ rest) with ((b :: l) ++ rest). rewrite <- E.
    rewrite (scanNumber_app _ _ _ _ Hsc Hd). simpl. by rewrite ofBytes_bytesOf.
  - simpl printBytes. unfold quoteBytes. simpl app. cbn [parseValue].
    change (skipWs (34 :: ?l)) with (34 :: l). cbv iota.
    change (34 =? ch "{") with false. change (34 =? ch "[") with false. change (34 =? 34) with true.
    cbv iota. rewrite <- (assoc_L (++)). simpl app. by rewrite parseString_quoted.
  - apply wellFormed_JArr in Hwf as [Hdep Hwf].
    assert ((d =? maxNestingDepth) = false) as Hde by (apply Z.eqb_neq; lia).
    simpl printBytes. simpl app. cbn [parseValue]. change (skipWs (91 :: ?l)) with (91 :: l). cbv iota.
    change (91 =? ch "{") with false. change (91 =? ch "[") with true. cbv iota. rewrite Hde.
    destruct items as [|v items]; [done|].
    set (body := joinBytes (map printBytes (v :: items))).
    assert (length (body ++ [93%Z] ++ rest) < fuel)%nat as Hlen.
    { change (length ((91%Z :: body ++ [93%Z]) ++ rest) < S fuel)%nat in Hf.
      cbn [app length] in Hf. rewrite <- (assoc_L (++)) in Hf. lia. }
    change (joinBytes _) with body. rewrite <- (assoc_L (++)).
    assert (∃ b l, body ++ [93] ++ rest = b :: l ∧ isSpace b = false ∧ (b =? 93) = false) as (b & l & E & Hs & H93).
    { apply Forall_cons in Hwf as [Hv _]. destruct (printBytes_head _ _ Hv) as (b & l & E & Hs & Hb & _).
      unfold body. cbn [map]. rewrite E. destruct items; simpl; by eexists _, _. }
    rewrite E. simpl skipWs. rewrite Hs. change (ch "]") with 93. rewrite H93. rewrite <- E.
    unfold body in *. cbn [app] in *. by rewrite parseItems_print.
  - apply wellFormed_JObj in Hwf as (Hdep & Hnd & Hwf).
    assert ((d =? maxNestingDepth) = false) as Hde by (apply Z.eqb_neq; lia).
    simpl printBytes. simpl app. cbn [parseValue]. change (skipWs (123 :: ?l)) with (123 :: l). cbv iota.
    change (123 =? ch "{") with true. cbv iota. rewrite Hde.
    destruct ms as [|kv ms]; [done|].
    set (body := joinBytes (map printMember (kv :: ms))).
    assert (length (body ++ [125%Z] ++ rest) < fuel)%nat as Hlen.
    { change (length ((123%Z :: body ++ [125%Z]) ++ rest) < S fuel)%nat in Hf.
      cbn [app length] in Hf. rewrite <- (assoc_L (++)) in Hf. lia. }
    change (joinBytes _) with body. rewrite <- (assoc_L (++)).
    assert (∃ l, body ++ [125] ++ rest = 34 :: l) as (l & E).
    { unfold body. cbn [map]. unfold printMember at 1, quoteBytes. destruct ms; simpl; by eexists. }
    rewrite E. simpl skipWs. change (34 =? ch "}") with false. cbv iota. rewrite <- E.
    unfold body in *. cbn [app] in *. rewrite parseMembers_print; try done. set_solver.
Qed.

(** ** What the strict decoder accepts is well formed *)
Lemma digits_spec l d r : digits l = (d, r) → l = d ++ r ∧ Forall (λ b, isDigit b = true) d.
Proof.
  revert d r; induction l as [|b l IH]; simpl; intros d r; [by intros [= <- <-]|].
  destruct (isDigit b) eqn:E; [|by intros [= <- <-]].
  destruct (digits l) as [d' r'] eqn:E'. intros [= <- <-]. destruct (IH d' r' eq_refl) as [-> Hd].
  split; [done|by constructor].
Qed.

Definition notDigitHead (r : list Z) : Prop := match r with b :: _ => isDigit b = false | [] => True end.

Lemma digits_all d r : Forall (λ b, isDigit b = true) d → notDigitHead r → digits (d ++ r) = (d, r).
Proof.
  intros Hd Hr. induction Hd as [|b d Hb Hd IH]; simpl; [|by rewrite Hb, IH].
  destruct r as [|b r]; [done|]. simpl in *. by rewrite Hr.
Qed.

Lemma scanInt_spec l i r : scanInt l = Some (i, r) →
  l = i ++ r ∧ ∀ r', notDigitHead r' → scanInt (i ++ r') = Some (i, r').
Proof.
  intros H. destruct l as [|b l]; [done|]. unfold scanInt in H.
  destruct (Z.eqb_spec b (ch "0")) as [->|Hb]; [by injection H as <- <-|].
  destruct (isDigit b) eqn:Eb; [|done]. apply (inj Some) in H.
  destruct (digits_spec _ _ _ H) as [E Hd]. split; [done|]. intros r' Hr'.
  cbn [digits] in H. rewrite Eb in H. destruct (digits l) as [d' r''] eqn:E'. injection H as <- <-.
  unfold scanInt. cbn [app]. destruct (Z.eqb_spec b (ch "0")); [done|]. rewrite Eb.
  change (b :: d' ++ r') with ((b :: d') ++ r'). by rewrite digits_all by done.
Qed.

Lemma scanFrac_spec l f r : scanFrac l = Some (f, r) →
  l = f ++ r ∧ notDigitHead f ∧
  ∀ r', notDigitHead r' → (∀ x, head r' = Some x → x ≠ 46) → scanFrac (f ++ r') = Some (f, r').
Proof.
  intros H. destruct l as [|b l].
  { injection H as <- <-. split_and!; [done..|]. intros [|x r'] _ Hx; [done|]. simpl.
    destruct (Z.eqb_spec x (ch ".")) as [->|]; [by destruct (Hx 46)|done]. }
  unfold scanFrac in H. destruct (Z.eqb_spec b (ch ".")) as [->|Hb].
  - destruct (digits l) as [[|x d] r1] eqn:E; [done|]. injection H as <- <-.
    destruct (digits_spec _ _ _ E) as [-> Hd]. split_and!; [done..|]. intros r' Hr' _.
    unfold scanFrac. cbn [app]. change (ch "." =? ch ".") with true. cbv iota.
    change (x :: d ++ r') with ((x :: d) ++ r'). by rewrite digits_all by done.
  - injection H as <- <-. split_and!; [done..|]. intros [|y r'] _ Hx; [done|]. simpl.
    destruct (Z.eqb_spec y (ch ".")) as [->|]; [by destruct (Hx 46)|done].
Qed.

Lemma scanExp_spec l e r : scanExp l = Some (e, r) →
  l = e ++ r ∧ notDigitHead e ∧ (∀ x, head e = Some x → x ≠ 46) ∧ scanExp e = Some (e, []).
Proof.
  intros H. destruct l as [|b l]; [by injection H as <- <-|].
  unfold scanExp in H. destruct ((b =? ch "e") || (b =? ch "E")) eqn:Eb; [|by injection H as <- <-].
  assert (b ≠ 46 ∧ isDigit b = false) as [H46 Hbd].
  { apply orb_true_iff in Eb as [->%Z.eqb_eq| ->%Z.eqb_eq]; done. }
  assert (∀ sign d, (sign = [] ∧ (∃ x, head d = Some x ∧ (x =? ch "+") || (x =? ch "-") = false)
      ∨ ∃ c, sign = [c] ∧ (c =? ch "+") || (c =? ch "-") = true) →
    Forall (λ b, isDigit b = true) d → d ≠ [] →
    scanExp (b :: sign ++ d) = Some (b :: sign ++ d, [])) as Hgo.
  { intros sign d Hs Hd Hne. unfold scanExp. rewrite Eb.
    destruct d as [|x d]; [done|].
    assert (digits (x :: d) = (x :: d, [])) as Ed.
    { pose proof (digits_all (x :: d) [] Hd I) as X. by rewrite app_nil_r in X. }
    destruct Hs as [[-> (y & [= <-] & Hx)]|(c & -> & Hc)]; cbn [app].
    - by rewrite Hx, Ed.
    - by rewrite Hc, Ed. }
  assert (∀ sign d r1, l = sign ++ d ++ r1 → b :: l = (b :: sign ++ d) ++ r1) as Happ.
  { intros sign d r1 ->. simpl. by rewrite (assoc_L (++)). }
  destruct l as [|c l]; [done|].
  destruct ((c =? ch "+") || (c =? ch "-")) eqn:Ec.
  - destruct (digits l) as [[|x d] r1] eqn:E; [done|]. injection H as <- <-.
    destruct (digits_spec _ _ _ E) as [-> Hd]. split_and!; [by apply (Happ [c])|done|naive_solver|].
    apply (Hgo [c] (x :: d)); [right; by exists c|done|done].
  - destruct (digits (c :: l)) as [[|x d] r1] eqn:E; [done|]. injection H as <- <-.
    destruct (digits_spec _ _ _ E) as [E2 Hd]. split_and!; [by apply (Happ [] (x :: d))|done|naive_solver|].
    apply (Hgo [] (x :: d)); [|done|done]. left. split; [done|]. exists x. split; [done|].
    by injection E2 as -> _.
Qed.

Lemma scanNumber_spec l t r : scanNumber l = Some (t, r) → l = t ++ r ∧ scanNumber t = Some (t, []).
Proof.
  unfold scanNumber at 1. intros H.
  assert (∃ sign l1, l = sign ++ l1 ∧ (sign = [] ∧ (∀ b, head l1 = Some b → b ≠ 45) ∨ sign = [45]) ∧
    ('(i, l2) ← scanInt l1; '(f, l3) ← scanFrac l2; '(e, l4) ← scanExp l3;
     Some (sign ++ i ++ f ++ e, l4)) = Some (t, r)) as (sign & l1 & -> & Hsign & H').
  { destruct l as [|b l]; [done|]. destruct (Z.eqb_spec b (ch "-")) as [->|Hb].
    - exists [45], l. split_and!; [done|by right|done].
    - exists [], (b :: l). split_and!; [done|left; naive_solver|done]. }
  clear H. destruct (scanInt l1) as [[i l2]|] eqn:Ei; [|done]. simpl in H'.
  destruct (scanFrac l2) as [[f l3]|] eqn:Ef; [|done]. simpl in H'.
  destruct (scanExp l3) as [[e l4]|] eqn:Ee; [|done]. simpl in H'. injection H' as <- <-.
  apply scanInt_spec in Ei as [-> Hi]. apply scanFrac_spec in Ef as (-> & Hfd & Hf).
  apply scanExp_spec in Ee as (-> & Hed & He46 & He).
  split; [by rewrite <- !(assoc_L (++))|]. unfold scanNumber.
  assert (notDigitHead (f ++ e)) as Hfe by (by destruct f).
  assert (scanInt (i ++ f ++ e) = Some (i, f ++ e)) as Hint by (by apply Hi).
  assert (∃ l0, (match sign ++ i ++ f ++ e with
    | b :: l' => if b =? ch "-" then ([b], l') else ([], sign ++ i ++ f ++ e)
    | [] => ([], sign ++ i ++ f ++ e) end) = (sign, l0) ∧ l0 = i ++ f ++ e) as (l0 & -> & ->).
  { exists (i ++ f ++ e). split; [|done]. destruct Hsign as [[-> Hs]| ->]; [|done]. cbn [app].
    destruct (i ++ f ++ e) as [|b l0] eqn:E; [done|].
    destruct (Z.eqb_spec b (ch "-")) as [->|]; done. }
  rewrite Hint. simpl. rewrite Hf by done. simpl. by rewrite He.
Qed.

Definition ranged (l : list Z) : Prop := Forall byteRange l.

Lemma skipWs_ranged l : ranged l → ranged (skipWs l).
Proof. unfold ranged. induction 1; simpl; [constructor|]. case_match; [done|by constructor]. Qed.

Lemma stripPrefix_ranged p l r : ranged l → stripPrefix p l = Some r → ranged r.
Proof.
  revert l; induction p as [|a p IH]; intros [|b l] Hl; simpl; try done.
  - by intros [= <-].
  - by intros [= <-].
  - apply Forall_cons in Hl as [_ Hl]. case_match; [by apply IH|done].
Qed.

Lemma scanString_ranged strict skip l s rest :
  ranged l → scanString strict skip l = Some (s, rest) → ranged rest.
Proof.
  intros Hl; revert skip s; induction Hl as [|b l Hb Hl IH]; intros skip s; [done|].
  assert (∀ out k, prepend out (scanString strict k l) = Some (s, rest) → ranged rest) as Hrec.
  { intros out k H. destruct (scanString strict k l) as [[s' r']|] eqn:E; [|done].
    injection H as _ <-. by apply (IH k s'). }
  cbn [scanString]. destruct skip as [|k]; [|apply IH].
  destruct (b =? 34); [by intros [= <- <-]|]. destruct (b <? 32); [done|].
  destruct (negb (b =? 92)); [apply Hrec|].
  destruct l as [|e l2]; [done|]. destruct (e =? 117).
  - destruct (unicodeEscape strict l2) as [[out w]|]; [apply Hrec|done].
  - destruct (simpleEscape e); [apply Hrec|done].
Qed.

Lemma parseString_ok l s rest : ranged l →
  parseString true l = Some (s, rest) → validUtf8 s = true ∧ ranged rest.
Proof.
  intros Hl. unfold parseString. destruct (scanString true 0 l) as [[b r]|] eqn:E; [|done]. simpl.
  destruct (validUtf8 (ofBytes b)) eqn:Ev; [|done]. intros [= <- <-]. split; [done|].
  by eapply scanString_ranged.
Qed.

Definition soundAt (d : Z) (p : list Z → option (json * list Z)) : Prop :=
  ∀ l t rest, ranged l → p l = Some (t, rest) → wellFormed d t ∧ ranged rest.

Lemma parseItems_sound d value n l items rest :
  soundAt d value → ranged l → parseItems value n l = Some (items, rest) →
  Forall (wellFormed d) items ∧ ranged rest.
Proof.
  intros Hv. revert l items rest; induction n as [|n IH]; intros l items rest Hl H; [done|].
  cbn [parseItems] in H. destruct (value l) as [[v l1]|] eqn:Ev; [|done]. simpl in H.
  destruct (Hv _ _ _ Hl Ev) as [Hwf H1]. apply skipWs_ranged in H1.
  destruct (skipWs l1) as [|b l2]; [done|]. apply Forall_cons in H1 as [_ H1].
  destruct (b =? ch ",").
  - destruct (parseItems value n l2) as [[vs l3]|] eqn:Er; [|done]. injection H as <- <-.
    destruct (IH _ _ _ H1 Er). split; [by constructor|done].
  - destruct (b =? ch "]"); [|done]. injection H as <- <-. split; [by constructor|done].
Qed.

Lemma parseMembers_sound d value n seen l ms rest :
  soundAt d value → ranged l → parseMembers true value n seen l = Some (ms, rest) →
  NoDup ms.*1 ∧ (∀ k, k ∈ ms.*1 → k ∉ seen) ∧
  Forall (λ kv, validUtf8 kv.1 = true ∧ wellFormed d kv.2) ms ∧ ranged rest.
Proof.
  intros Hv. revert seen l ms rest; induction n as [|n IH]; intros seen l ms rest Hl H; [done|].
  cbn [parseMembers] in H. apply skipWs_ranged in Hl.
  destruct (skipWs l) as [|b l0]; [done|]. apply Forall_cons in Hl as [_ Hl].
  destruct (negb (b =? 34)); [done|].
  destruct (parseString true l0) as [[name l1]|] eqn:Es; [|done]. simpl in H.
  destruct (parseString_ok _ _ _ Hl Es) as [Hname H1]. apply skipWs_ranged in H1.
  case_bool_decide as Hseen; [done|].
  destruct (skipWs l1) as [|c l2]; [done|]. apply Forall_cons in H1 as [_ H1].
  destruct (negb (c =? ch ":")); [done|].
  destruct (value l2) as [[v l3]|] eqn:Ev; [|done]. simpl in H.
  destruct (Hv _ _ _ H1 Ev) as [Hwf H3]. apply skipWs_ranged in H3.
  destruct (skipWs l3) as [|e l4]; [done|]. apply Forall_cons in H3 as [_ H3].
  destruct (e =? ch ",").
  - destruct (parseMembers true value n (name :: seen) l4) as [[ms' l5]|] eqn:Er; [|done].
    injection H as <- <-. destruct (IH _ _ _ _ H3 Er) as (Hnd & Hks & Hall & Hr).
    split_and!; [| |by constructor|done].
    + rewrite fmap_cons. constructor; [|done]. intros Hin. apply (Hks name Hin). by left.
    + intros k. rewrite fmap_cons, elem_of_cons. intros [->|Hk]; [done|].
      specialize (Hks k Hk). by intros ?; apply Hks; right.
  - destruct (e =? ch "}"); [|done]. injection H as <- <-.
    split_and!; [apply NoDup_singleton| |by constructor|done].
    intros k. simpl. by rewrite list_elem_of_singleton; intros ->.
Qed.

Lemma parseValue_sound fuel d : d ≤ maxNestingDepth → soundAt d (parseValue true fuel d).
Proof.
  revert d; induction fuel as [|fuel IH]; intros d Hd l t rest Hl H; [done|].
  cbn [parseValue] in H. apply skipWs_ranged in Hl.
  destruct (skipWs l) as [|b l1] eqn:El; [done|]. apply Forall_cons in Hl as [Hb Hl].
  destruct (b =? ch "{").
  { destruct (Z.eqb_spec d maxNestingDepth); [done|]. apply skipWs_ranged in Hl.
    destruct (skipWs l1) as [|c l2]; [done|]. destruct (c =? ch "}").
    - injection H as <- <-. apply Forall_cons in Hl as [_ Hl]. split; [|done].
      apply wellFormed_JObj. split_and!; [lia|constructor|constructor].
    - destruct (parseMembers _ _ _ _ _) as [[ms l3]|] eqn:E; [|done]. injection H as <- <-.
      destruct (parseMembers_sound (d + 1) _ _ _ _ _ _ (IH (d + 1) ltac:(lia)) Hl E) as (Hnd & _ & Hall & Hr).
      split; [|done]. apply wellFormed_JObj. split_and!; [lia|done|done]. }
  destruct (b =? ch "[").
  { destruct (Z.eqb_spec d maxNestingDepth); [done|]. apply skipWs_ranged in Hl.
    destruct (skipWs l1) as [|c l2]; [done|]. destruct (c =? ch "]").
    - injection H as <- <-. apply Forall_cons in Hl as [_ Hl]. split; [|done].
      apply wellFormed_JArr. split; [lia|constructor].
    - destruct (parseItems _ _ _) as [[vs l3]|] eqn:E; [|done]. injection H as <- <-.
      destruct (parseItems_sound (d + 1) _ _ _ _ _ (IH (d + 1) ltac:(lia)) Hl E) as [Hall Hr].
      split; [|done]. apply wellFormed_JArr. split; [lia|done]. }
  destruct (b =? 34).
  { destruct (parseString true l1) as [[s l2]|] eqn:E; [|done]. injection H as <- <-.
    by apply (parseString_ok l1). }
  destruct (b =? ch "n").
  { destruct (stripPrefix _ l1) eqn:E; [|done]. injection H as <- <-. split; [done|].
    by eapply stripPrefix_ranged. }
  destruct (b =? ch "t").
  { destruct (stripPrefix _ l1) eqn:E; [|done]. injection H as <- <-. split; [done|].
    by eapply stripPrefix_ranged. }
  destruct (b =? ch "f").
  { destruct (stripPrefix _ l1) eqn:E; [|done]. injection H as <- <-. split; [done|].
    by eapply stripPrefix_ranged. }
  destruct (scanNumber (b :: l1)) as [[tok l2]|] eqn:E; [|done]. injection H as <- <-.
  apply scanNumber_spec in E as [E Htok].
  assert (ranged (tok ++ l2)) as Hr by (rewrite <- E; by constructor).
  apply Forall_app in Hr as [Hr1 Hr2]. split; [|done].
  simpl. rewrite bytesOf_ofBytes by done. by split.
Qed.

Lemma readValue_sound data t rest :
  readValue true data = Some (t, rest) → wellFormed 0 t ∧ ranged rest.
Proof. apply parseValue_sound; [done|apply bytesOf_range]. Qed.

(** ** Printing and reading whole texts *)
Definition printJson (t : json) : string := ofBytes (printBytes t).

Lemma joinBytes_ranged ls : Forall ranged ls → ranged (joinBytes ls).
Proof.
  induction 1 as [|l ls Hl Hls IH]; [constructor|]. destruct ls as [|l' ls]; [done|].
  change (ranged (l ++ 44 :: joinBytes (l' :: ls))). apply Forall_app. split; [done|].
  constructor; [unfold byteRange; lia|done].
Qed.

Lemma printBytes_ranged t : ranged (printBytes t).
Proof.
  assert (∀ s, ranged (bytesOf s)) as Hb by (intros; apply bytesOf_range).
  induction t as [|b|token|s|items Hitems|ms Hms] using json_nested_ind; simpl.
  - apply (Hb "null").
  - destruct b; [apply (Hb "true")|apply (Hb "false")].
  - apply Hb.
  - apply quoteBytes_range.
  - constructor; [unfold byteRange; lia|]. apply Forall_app. split; [|repeat constructor; unfold byteRange; lia].
    apply joinBytes_ranged. by apply Forall_map.
  - constructor; [unfold byteRange; lia|]. apply Forall_app. split; [|repeat constructor; unfold byteRange; lia].
    apply joinBytes_ranged, Forall_map. eapply Forall_impl; [done|]. intros kv Hkv.
    change (ranged (quoteBytes kv.1 ++ 58 :: printBytes kv.2)). apply Forall_app. split; [apply quoteBytes_range|]. constructor; [unfold byteRange; lia|done].
Qed.

Lemma readValue_print t : wellFormed 0 t → readValue true (printJson t) = Some (t, []).
Proof.
  intros Hwf. unfold readValue, printJson. rewrite bytesOf_ofBytes by apply printBytes_ranged.
  rewrite <- (app_nil_r (printBytes t)) at 2. apply parse_print; [done| |done].
  rewrite app_nil_r, <- length_bytesOf, bytesOf_ofBytes by apply printBytes_ranged. lia.
Qed.

Lemma printJson_inj t1 t2 : wellFormed 0 t1 → wellFormed 0 t2 → printJson t1 = printJson t2 → t1 = t2.
Proof. intros H1%readValue_print H2%readValue_print E. rewrite E in H1. congruence. Qed.
