(* ===== verification/CanonicalForm.v ===== *)
(** * The canonical form of a JSON value

    [CanonicalizeJSON] writes a tree that reads back ([canonTree]): so the form is a
    fixed point, and two texts share it exactly when they decode to the same value up
    to the order of object members.  The laws assumed of the third-party number
    printer are those of ECMAScript's [Number::toString]: its output is a number
    token, and a number of the same text reads back from it. *)

From S2P Require Import Prelude Utf16 Json Canonical CanonicalText.
From Stdlib Require Import Ascii SpecFloat.
#[local] Open Scope Z_scope.

Section ValueInd.
Context (P : value → Prop).
Context (Hnull : P VNull) (Hbool : ∀ b, P (VBool b)) (Hnum : ∀ d, P (VNum d))
  (Hstr : ∀ s, P (VStr s)) (Harr : ∀ l, Forall P l → P (VArr l))
  (Hobj : ∀ ms, Forall (λ kv, P kv.2) ms → P (VObj ms)).

Fixpoint value_nested_ind (t : value) : P t :=
  match t with
  | VNull => Hnull
  | VBool b => Hbool b
  | VNum d => Hnum d
  | VStr s => Hstr s
  | VArr l => Harr l ((fix go l : Forall P l :=
      match l with [] => Forall_nil_2 _ | x :: l' => Forall_cons_2 _ _ _ (value_nested_ind x) (go l') end) l)
  | VObj ms => Hobj ms ((fix go ms : Forall (λ kv, P kv.2) ms :=
      match ms with
      | [] => Forall_nil_2 _
      | kv :: ms' => Forall_cons_2 _ _ _ (value_nested_ind kv.2) (go ms')
      end) ms)
  end.
End ValueInd.

(** ** Sorting members *)
#[global] Instance keyLe_total {A} : Total (@keyLe A).
Proof. intros p q. unfold keyLe. apply utf16_le_total. Qed.
#[global] Instance keyLe_trans {A} : Transitive (@keyLe A).
Proof. intros p q r. unfold keyLe. apply utf16_le_trans. Qed.

Definition validKeys {A} (l : list (string * A)) : Prop := allValid l.*1.
#[global] Instance validKeys_proper {A} : Proper ((≡ₚ) ==> iff) (@validKeys A).
Proof. intros l k H. unfold validKeys, allValid. by rewrite H. Qed.

Lemma sortMembers_Permutation {A} (l : list (string * A)) : sortMembers l ≡ₚ l.
Proof. apply merge_sort_Permutation. Qed.
Lemma sortMembers_sorted {A} (l : list (string * A)) : StronglySorted keyLe (sortMembers l).
Proof. apply StronglySorted_merge_sort; apply _. Qed.

(** Among distinct valid names the sorted list is unique. *)
Lemma sortMembers_unique {A} (l k : list (string * A)) :
  NoDup l.*1 → validKeys l → k ≡ₚ l → StronglySorted keyLe k → k = sortMembers l.
Proof.
  intros Hnd Hv HP Hs. apply (StronglySorted_unique_strong keyLe k (sortMembers l)); [|done|apply sortMembers_sorted|].
  - intros p q Hp Hq H1 H2.
    rewrite HP in Hp. rewrite sortMembers_Permutation in Hq.
    unfold validKeys, allValid in Hv. rewrite Forall_forall in Hv.
    assert (p.1 = q.1) as E.
    { apply utf16_le_antisymm; [..|done|done]; apply Hv; by apply list_elem_of_fmap_2. }
    apply list_elem_of_lookup in Hp as [i Hi], Hq as [j Hj].
    assert (i = j) as <-; [|congruence].
    apply (NoDup_lookup l.*1 i j p.1); [done|by rewrite list_lookup_fmap, Hi|].
    by rewrite list_lookup_fmap, Hj, E.
  - by rewrite HP, sortMembers_Permutation.
Qed.

Lemma sortMembers_proper {A} (l k : list (string * A)) :
  NoDup l.*1 → validKeys l → k ≡ₚ l → sortMembers k = sortMembers l.
Proof.
  intros Hnd Hv HP. apply sortMembers_unique; [done|done| |apply sortMembers_sorted].
  by rewrite sortMembers_Permutation.
Qed.

Lemma StronglySorted_keyLe {A} (l : list (string * A)) :
  StronglySorted keyLe l ↔ StronglySorted utf16_le l.*1.
Proof.
  induction l as [|p l IH]; [split; constructor|]. rewrite fmap_cons. split.
  - intros [Hs Ha]%StronglySorted_inv. constructor; [by apply IH|]. by apply Forall_fmap.
  - intros [Hs Ha]%StronglySorted_inv. constructor; [by apply IH|]. exact (proj1 (Forall_fmap _ _ _) Ha).
Qed.

(** Sorting both sides keeps a correspondence of members. *)
Lemma sortMembers_Forall2 {A B} (R : A → B → Prop) (l : list (string * A)) k :
  NoDup l.*1 → validKeys l → Forall2 (λ p q, p.1 = q.1 ∧ R p.2 q.2) l k →
  Forall2 (λ p q, p.1 = q.1 ∧ R p.2 q.2) (sortMembers l) (sortMembers k).
Proof.
  intros Hnd Hv HF. pose proof (Forall2_fst_eq _ _ _ HF) as Ek.
  destruct (Permutation.Permutation_Forall2 (symmetry (sortMembers_Permutation l)) HF) as (k' & HP & HF').
  pose proof (Forall2_fst_eq _ _ _ HF') as Ek'.
  rewrite <- (sortMembers_unique k k'); [done| | |by symmetry|].
  - by rewrite <- Ek.
  - unfold validKeys. by rewrite <- Ek.
  - apply StronglySorted_keyLe. rewrite <- Ek'. apply StronglySorted_keyLe, sortMembers_sorted.
Qed.

(** ** The tree a value is written as *)
Section Form.
Context (NumberToJSON : spec_float → result string).

Fixpoint canonTree (v : value) : result json :=
  match v with
  | VNull => Ok JNull
  | VBool b => Ok (JBool b)
  | VNum d => JNum <$> NumberToJSON d
  | VStr s => Ok (JStr s)
  | VArr items => JArr <$> mapErr canonTree items
  | VObj members => (JObj ∘ sortMembers) <$> mapMembers canonTree members
  end.

(** What [decodeNumbers] makes of a well-formed tree at nesting [d]. *)
Fixpoint wellFormedValue (d : Z) (v : value) : Prop :=
  match v with
  | VNull | VBool _ | VNum _ => True
  | VStr s => validUtf8 s = true
  | VArr items =>
      d < maxNestingDepth ∧
      (fix all (l : list value) : Prop :=
        match l with [] => True | x :: l' => wellFormedValue (d + 1) x ∧ all l' end) items
  | VObj members =>
      d < maxNestingDepth ∧ NoDup members.*1 ∧
      (fix all (l : list (string * value)) : Prop :=
        match l with
        | [] => True
        | kv :: l' => (validUtf8 kv.1 = true ∧ wellFormedValue (d + 1) kv.2) ∧ all l'
        end) members
  end.

Lemma wellFormedValue_VArr d l :
  wellFormedValue d (VArr l) ↔ d < maxNestingDepth ∧ Forall (wellFormedValue (d + 1)) l.
Proof. simpl. f_equiv. induction l as [|x l IH]; [by split|]. rewrite Forall_cons, IH. done. Qed.
Lemma wellFormedValue_VObj d ms :
  wellFormedValue d (VObj ms) ↔ d < maxNestingDepth ∧ NoDup ms.*1 ∧
    Forall (λ kv, validUtf8 kv.1 = true ∧ wellFormedValue (d + 1) kv.2) ms.
Proof. simpl. do 2 f_equiv. induction ms as [|x l IH]; [by split|]. rewrite Forall_cons, IH. done. Qed.

Lemma decodeNumbers_wellFormed d t v :
  wellFormed d t → decodeNumbers NumberToJSON t = Ok v → wellFormedValue d v.
Proof.
  revert d v. induction t as [|b|token|s|items IH|ms IH] using json_nested_ind; intros d v Hwf H.
  1,2,4: simpl in H; by injection H as <-.
  - cbn [decodeNumbers] in H. apply fmap_Ok in H as (x & _ & ->). done.
  - cbn [decodeNumbers] in H. apply fmap_Ok in H as (vs & Hvs%mapErr_Ok & ->).
    apply wellFormed_JArr in Hwf as [Hd Hwf]. apply wellFormedValue_VArr. split; [done|].
    apply Forall_forall. intros v Hv.
    destruct (Forall2_elem_r _ _ _ _ Hvs Hv) as (t & Ht & E).
    eapply (proj1 (Forall_forall _ _) IH t Ht); [|done]. exact (proj1 (Forall_forall _ _) Hwf t Ht).
  - cbn [decodeNumbers] in H. apply fmap_Ok in H as (vs & Hvs%mapMembers_Ok & ->).
    apply wellFormed_JObj in Hwf as (Hd & Hnd & Hwf). apply wellFormedValue_VObj.
    rewrite (Forall2_fst_eq (λ x y, decodeNumbers NumberToJSON x = Ok y) _ _ Hvs) in Hnd.
    split_and!; [done|done|]. apply Forall_forall. intros v Hv.
    destruct (Forall2_elem_r _ _ _ _ Hvs Hv) as (t & Ht & En & E).
    destruct (proj1 (Forall_forall _ _) Hwf t Ht). split; [congruence|].
    by eapply (proj1 (Forall_forall _ _) IH t Ht).
Qed.

(** *** Writing *)
Lemma joinOut_Ok outs s :
  joinOut outs = Ok s ↔ ∃ ss, outs = map Ok ss ∧ s = ofBytes (joinBytes (map bytesOf ss)).
Proof.
  revert s; induction outs as [|o outs IH]; intros s.
  { split; [intros [= <-]; by exists []|]. by intros ([|x ss] & ? & ->). }
  destruct outs as [|o' outs].
  - simpl. split.
    + intros ->. exists [s]. simpl. by rewrite ofBytes_bytesOf.
    + intros ([|x [|y ss]] & ? & ->); simplify_eq/=. by rewrite ofBytes_bytesOf.
  - change (joinOut (o :: o' :: outs)) with
      (x ← o; rest ← joinOut (o' :: outs); Ok (x +:+ "," +:+ rest)).
    rewrite bind_Ok. setoid_rewrite bind_Ok. setoid_rewrite IH. clear IH. split.
    + intros (x & -> & r & (ss & E & ->) & [= <-]). exists (x :: ss). split; [by rewrite E|].
      destruct ss as [|y ss]; [done|]. cbn [map]. rewrite joinBytes_cons, ofBytes_app, ofBytes_bytesOf.
      done.
    + intros ([|x ss] & E & ->); [done|]. injection E as -> E. exists x. split; [done|].
      eexists; split; [by exists ss|]. destruct ss as [|y ss]; [done|]. cbn [map].
      rewrite joinBytes_cons, ofBytes_app, ofBytes_bytesOf. done.
Qed.

Lemma map_Ok_Forall2 {A B} (f : A → result B) l ss :
  map f l = map Ok ss ↔ Forall2 (λ x s, f x = Ok s) l ss.
Proof.
  revert ss; induction l as [|x l IH]; intros [|s ss]; simpl.
  - by split; [constructor|].
  - by split; [|inversion 1].
  - by split; [|inversion 1].
  - rewrite Forall2_cons, <- IH. split; [by intros [= H1 H2]|by intros [-> ->]].
Qed.

Lemma joinOut_map {A T} (f : A → result string) (g : A → result T) (pr : T → list Z) l s :
  (∀ t, ranged (pr t)) →
  Forall (λ x, ∀ s, f x = Ok s ↔ ∃ t, g x = Ok t ∧ s = ofBytes (pr t)) l →
  joinOut (map f l) = Ok s ↔
  ∃ ts, Forall2 (λ x t, g x = Ok t) l ts ∧ s = ofBytes (joinBytes (map pr ts)).
Proof.
  intros Hpr Hl. rewrite joinOut_Ok. setoid_rewrite map_Ok_Forall2.
  assert (∀ ts, map bytesOf (map (ofBytes ∘ pr) ts) = map pr ts) as Ej.
  { intros ts. rewrite map_map. apply map_ext. intros t. apply bytesOf_ofBytes, Hpr. }
  split.
  - intros (ss & Hss & ->).
    assert (∃ ts, Forall2 (λ x t, g x = Ok t) l ts ∧ ss = map (ofBytes ∘ pr) ts) as (ts & Hts & ->).
    { induction Hss as [|x y l ss Hx _ IH]; [by exists []|].
      apply Forall_cons in Hl as [Hx' Hl]. apply Hx' in Hx as (t & Ht & ->).
      destruct (IH Hl) as (ts & Hts & ->). exists (t :: ts). by split; [constructor|]. }
    exists ts. by rewrite Ej.
  - intros (ts & Hts & ->). exists (map (ofBytes ∘ pr) ts). rewrite Ej. split; [|done].
    induction Hts as [|x t l ts Ht _ IH]; [constructor|].
    apply Forall_cons in Hl as [Hx Hl]. constructor; [apply Hx; eauto|auto].
Qed.

Lemma printMember_string k t :
  jsonQuote k +:+ ":" +:+ printJson t = ofBytes (printMember (k, t)).
Proof. unfold printMember. by rewrite ofBytes_app. Qed.

Lemma write_canonTree d v s : wellFormedValue d v →
  writeCanonicalJSON NumberToJSON v = Ok s ↔ ∃ t, canonTree v = Ok t ∧ s = printJson t.
Proof.
  revert d s. induction v as [|b|n|x|items IH|ms IH] using value_nested_ind; intros d s Hwf.
  - simpl. split; [intros [= <-]; by exists JNull|by intros (t & [= <-] & ->)].
  - simpl. split; [intros [= <-]; exists (JBool b); by destruct b|].
    intros (t & [= <-] & ->). by destruct b.
  - simpl. destruct (NumberToJSON n) as [t|e]; simpl; [|split; [done|by intros (t & ? & _)]].
    split; [intros [= <-]; exists (JNum t)|intros (t' & [= <-] & ->)];
      unfold printJson; simpl; by rewrite ofBytes_bytesOf.
  - simpl. split; [intros [= <-]; by exists (JStr x)|by intros (t & [= <-] & ->)].
  - apply wellFormedValue_VArr in Hwf as [_ Hwf].
    cbn [writeCanonicalJSON canonTree]. rewrite bind_Ok.
    setoid_rewrite (joinOut_map _ canonTree printBytes);
      [|apply printBytes_ranged|apply Forall_forall; intros x Hx s';
       eapply (proj1 (Forall_forall _ _) IH x Hx), (proj1 (Forall_forall _ _) Hwf x Hx)].
    setoid_rewrite fmap_Ok. setoid_rewrite mapErr_Ok. split.
    + intros (body & (ts & Hts & ->) & [= <-]). exists (JArr ts). split; [by exists ts|].
      unfold printJson. cbn [printBytes ofBytes]. by rewrite ofBytes_app.
    + intros (t & (ts & Hts & ->) & ->). eexists. split; [by exists ts|].
      unfold printJson. cbn [printBytes ofBytes]. by rewrite ofBytes_app.
  - apply wellFormedValue_VObj in Hwf as (_ & Hnd & Hwf).
    assert (validKeys ms) as Hk by (apply Forall_fmap; eapply Forall_impl; [done|]; by intros kv []).
    cbn [writeCanonicalJSON canonTree]. rewrite bind_Ok.
    assert (Forall2 (λ p q, p.1 = q.1 ∧ q.2 = writeCanonicalJSON NumberToJSON p.2) (sortMembers ms)
      (sortMembers (map (λ kv, (kv.1, writeCanonicalJSON NumberToJSON kv.2)) ms))) as Hsort.
    { apply (sortMembers_Forall2 (λ v r, r = writeCanonicalJSON NumberToJSON v)); [done..|].
      clear. induction ms; constructor; auto. }
    set (outs := sortMembers (map _ ms)) in *.
    assert (map (λ kv : string * result string, s ← kv.2; Ok (jsonQuote kv.1 +:+ ":" +:+ s)) outs
      = map (λ kv, s ← writeCanonicalJSON NumberToJSON kv.2; Ok (jsonQuote kv.1 +:+ ":" +:+ s))
          (sortMembers ms)) as ->.
    { clear -Hsort. induction Hsort as [|p q l k [E1 E2] _ IH]; [done|]. simpl. by rewrite IH, E1, E2. }
    setoid_rewrite (joinOut_map _ (λ kv, (kv.1,.) <$> canonTree kv.2) printMember).
    2: { intros kv. apply Forall_app. split; [apply quoteBytes_range|].
         constructor; [by unfold byteRange|apply printBytes_ranged]. }
    2: { apply Forall_forall. intros kv Hkv s'. rewrite sortMembers_Permutation in Hkv.
         rewrite bind_Ok. setoid_rewrite fmap_Ok.
         setoid_rewrite (λ s, proj1 (Forall_forall _ _) IH kv Hkv (d + 1) s
           (proj2 (proj1 (Forall_forall _ _) Hwf kv Hkv))).
         setoid_rewrite <- printMember_string. naive_solver. }
    set (conv := λ p q : string * _, p.1 = q.1 ∧ canonTree p.2 = Ok q.2).
    assert (∀ l ts, Forall2 (λ x t, (x.1,.) <$> canonTree x.2 = Ok t) l ts ↔ Forall2 conv l ts) as Hconv.
    { intros l ts. split; intros HF; (eapply Forall2_impl; [done|]); intros [k v] [k' t]; unfold conv; simpl.
      - rewrite fmap_Ok. naive_solver.
      - intros [<- ->]. done. }
    assert (∀ ts, Forall2 conv ms ts → Forall2 conv (sortMembers ms) (sortMembers ts)) as Hts.
    { intros ts. by apply (sortMembers_Forall2 (λ v r, canonTree v = Ok r)). }
    split.
    + intros (body & (ts' & Hts'%Hconv & ->) & [= <-]).
      destruct (Permutation.Permutation_Forall2 (sortMembers_Permutation ms) Hts') as (ts & HP & HF).
      assert (sortMembers ts = ts') as <-.
      { apply Hts in HF. clear -HF Hts'. revert HF. generalize (sortMembers ts). intros ts2 HF.
        revert ts2 HF. induction Hts' as [|p q l k [E1 E2] _ IH]; intros ts2 HF; inversion HF as [|? q' ? ? [E3 E4]]; subst; [done|].
        f_equal; [|by apply IH]. destruct q, q'; simpl in *. congruence. }
      exists (JObj (sortMembers ts)). split.
      { apply fmap_Ok. exists ts. split; [by apply mapMembers_Ok|done]. }
      unfold printJson. cbn [printBytes ofBytes]. by rewrite ofBytes_app.
    + intros (t & (ts & HF%mapMembers_Ok & ->)%fmap_Ok & ->). eexists. split.
      { exists (sortMembers ts). split; [by apply Hconv, Hts|done]. }
      unfold printJson, compose. cbn [printBytes ofBytes]. by rewrite ofBytes_app.
Qed.

(** *** Reading back *)
Definition number_token_law : Prop :=
  ∀ d t, NumberToJSON d = Ok t → scanNumber (bytesOf t) = Some (bytesOf t, []).
Definition number_reads_law : Prop :=
  ∀ d t, NumberToJSON d = Ok t → ∃ d', ParseFloat t = Some d' ∧ NumberToJSON d' = Ok t.
Context (number_token : number_token_law) (number_reads : number_reads_law).

Lemma canonTree_wellFormed d v t : wellFormedValue d v → canonTree v = Ok t → wellFormed d t.
Proof.
  revert d t. induction v as [|b|n|x|items IH|ms IH] using value_nested_ind; intros d t Hwf H.
  1,2,4: simpl in H; by injection H as <-.
  - cbn [canonTree] in H. apply fmap_Ok in H as (tok & Ht & ->). split; [by eapply number_token|].
    apply bytesOf_range.
  - cbn [canonTree] in H. apply fmap_Ok in H as (ts & Hts%mapErr_Ok & ->).
    apply wellFormedValue_VArr in Hwf as [Hd Hwf]. apply wellFormed_JArr. split; [done|].
    apply Forall_forall. intros t Ht. destruct (Forall2_elem_r _ _ _ _ Hts Ht) as (v & Hv & E).
    by apply (proj1 (Forall_forall _ _) IH v Hv), E; apply (proj1 (Forall_forall _ _) Hwf v Hv).
  - cbn [canonTree] in H. apply fmap_Ok in H as (ts & Hts%mapMembers_Ok & ->).
    apply wellFormedValue_VObj in Hwf as (Hd & Hnd & Hwf). apply wellFormed_JObj.
    pose proof (sortMembers_Permutation ts) as HP.
    assert (∀ (P : string * json → Prop), Forall P ts → Forall P (sortMembers ts)) as HPerm
      by (intros P HF; by rewrite HP).
    rewrite (Forall2_fst_eq (λ x y, canonTree x = Ok y) _ _ Hts) in Hnd.
    split_and!; [done|by rewrite HP|]. apply HPerm.
    apply Forall_forall. intros t Ht. destruct (Forall2_elem_r _ _ _ _ Hts Ht) as (v & Hv & En & E).
    destruct (proj1 (Forall_forall _ _) Hwf v Hv). split; [congruence|].
    by apply (proj1 (Forall_forall _ _) IH v Hv), E.
Qed.

Lemma decodeNumber_reads n t : NumberToJSON n = Ok t →
  ∃ n', decodeNumber NumberToJSON t = Ok n' ∧ NumberToJSON n' = Ok t.
Proof.
  intros (n' & Hp & Hn)%number_reads. exists n'. split; [|done].
  unfold decodeNumber. rewrite Hp, Hn. simpl. rewrite (bool_decide_eq_true_2 (t = t)) by done.
  by case_match.
Qed.

(** The tree decodes to a value that is written the same. *)
Lemma canonTree_reads d v t : wellFormedValue d v → canonTree v = Ok t →
  ∃ v', decodeNumbers NumberToJSON t = Ok v' ∧ canonTree v' = Ok t.
Proof.
  revert d t. induction v as [|b|n|x|items IH|ms IH] using value_nested_ind; intros d t Hwf H.
  1,2,4: simpl in H; injection H as <-; eexists; by split.
  - cbn [canonTree] in H. apply fmap_Ok in H as (tok & (n' & H1 & H2)%decodeNumber_reads & ->).
    exists (VNum n'). simpl. by rewrite H1, H2.
  - cbn [canonTree] in H. apply fmap_Ok in H as (ts & Hts%mapErr_Ok & ->).
    apply wellFormedValue_VArr in Hwf as [Hd Hwf].
    assert (∃ vs, Forall2 (λ t v, decodeNumbers NumberToJSON t = Ok v) ts vs ∧
      Forall2 (λ v t, canonTree v = Ok t) vs ts) as (vs & H1%mapErr_Ok & H2%mapErr_Ok).
    { clear Hd. induction Hts as [|v t items ts Hv _ IHts]; [by exists []|].
      apply Forall_cons in IH as [IHv IH], Hwf as [Hwv Hwf].
      destruct (IHv _ _ Hwv Hv) as (v' & Hv1 & Hv2). destruct (IHts IH Hwf) as (vs & Hvs1 & Hvs2).
      exists (v' :: vs). by split; constructor. }
    exists (VArr vs). cbn [decodeNumbers canonTree]. by rewrite H1, H2.
  - cbn [canonTree] in H. apply fmap_Ok in H as (ts & Hts%mapMembers_Ok & ->).
    apply wellFormedValue_VObj in Hwf as (Hd & Hnd & Hwf).
    pose proof (Forall2_fst_eq (λ x y, canonTree x = Ok y) _ _ Hts) as Ek.
    assert (validKeys ts) as Hvk.
    { unfold validKeys. rewrite <- Ek. apply Forall_fmap. eapply Forall_impl; [done|]. by intros kv []. }
    assert (∃ vs, Forall2 (λ p q, p.1 = q.1 ∧ decodeNumbers NumberToJSON p.2 = Ok q.2) ts vs ∧
      Forall2 (λ p q, p.1 = q.1 ∧ canonTree p.2 = Ok q.2) vs ts) as (vs & H1 & H2).
    { clear Hd Hnd Ek Hvk. induction Hts as [|[k v] [k' t] ms ts [E Hv] _ IHts]; [by exists []|].
      apply Forall_cons in IH as [IHv IH], Hwf as [[_ Hwv] Hwf]. simpl in *.
      destruct (IHv _ _ Hwv Hv) as (v' & Hv1 & Hv2). destruct (IHts IH Hwf) as (vs & Hvs1 & Hvs2).
      exists ((k', v') :: vs). by split; constructor. }
    pose proof (Forall2_fst_eq (λ x y, canonTree x = Ok y) _ _ H2) as Evs.
    rewrite Ek in Hnd.
    apply (sortMembers_Forall2 (λ x y, decodeNumbers NumberToJSON x = Ok y)) in H1; [|done|done].
    apply (sortMembers_Forall2 (λ x y, canonTree x = Ok y)) in H2;
      [|by rewrite Evs|unfold validKeys; by rewrite Evs].
    exists (VObj (sortMembers vs)). unfold compose. cbn [decodeNumbers canonTree].
    apply mapMembers_Ok in H1, H2. rewrite H1, H2. split; [done|]. simpl. do 2 f_equal.
    symmetry. apply sortMembers_unique; [| |done|apply sortMembers_sorted].
    + by rewrite sortMembers_Permutation.
    + by rewrite sortMembers_Permutation.
Qed.

Lemma decodeJSON_ok data v :
  decodeJSON NumberToJSON data = Ok v → wellFormedValue 0 v.
Proof.
  unfold decodeJSON. destruct (readValue true data) as [[t rest]|] eqn:E; [|done].
  destruct (skipWs rest); [|done]. apply decodeNumbers_wellFormed.
  by apply readValue_sound in E as [].
Qed.

Lemma decodeJSON_print t v :
  wellFormed 0 t → decodeNumbers NumberToJSON t = Ok v → decodeJSON NumberToJSON (printJson t) = Ok v.
Proof. intros Hwf H. unfold decodeJSON. by rewrite readValue_print. Qed.

(** Every canonical text reads back to a value written the same. *)
Lemma canonicalize_reads v out :
  wellFormedValue 0 v → canonicalize NumberToJSON v = Ok out →
  ∃ v', decodeJSON NumberToJSON out = Ok v' ∧ canonicalize NumberToJSON v' = Ok out.
Proof.
  intros Hwf H. apply (write_canonTree 0) in H as (t & Ht & ->); [|done].
  destruct (canonTree_reads 0 v t Hwf Ht) as (v' & Hd & Hc). exists v'.
  pose proof (decodeJSON_print t v' (canonTree_wellFormed 0 v t Hwf Ht) Hd) as Hdec. split; [done|].
  apply (write_canonTree 0); [by eapply decodeJSON_ok|by exists t].
Qed.
End Form.

(** ** Values that share a canonical form *)
Inductive sameValue (NumberToJSON : spec_float → result string) : value → value → Prop :=
  | same_null : sameValue NumberToJSON VNull VNull
  | same_bool b : sameValue NumberToJSON (VBool b) (VBool b)
  | same_num n1 n2 :
      NumberToJSON n1 = NumberToJSON n2 → sameValue NumberToJSON (VNum n1) (VNum n2)
  | same_str s : sameValue NumberToJSON (VStr s) (VStr s)
  | same_arr l1 l2 :
      Forall2 (sameValue NumberToJSON) l1 l2 → sameValue NumberToJSON (VArr l1) (VArr l2)
  | same_obj m1 m2 m2' :
      m2 ≡ₚ m2' → Forall2 (λ p q, p.1 = q.1 ∧ sameValue NumberToJSON p.2 q.2) m1 m2' →
      sameValue NumberToJSON (VObj m1) (VObj m2).

Section Same.
Context (NumberToJSON : spec_float → result string).

Lemma Forall2_conv_eq {A B} (f : A → result B) (R : A → A → Prop) l1 l2 k1 k2 :
  Forall (λ v1, ∀ v2 t1 t2, f v1 = Ok t1 → f v2 = Ok t2 → R v1 v2 → t1 = t2) l1 →
  Forall2 R l1 l2 → Forall2 (λ v t, f v = Ok t) l1 k1 → Forall2 (λ v t, f v = Ok t) l2 k2 → k1 = k2.
Proof.
  intros HI HR. revert k1 k2. induction HR as [|a b l1 l2 Hab _ IH]; intros k1 k2 H1 H2;
    inversion H1; inversion H2; subst; [done|].
  apply Forall_cons in HI as [Ha HI]. f_equal; [by eapply Ha|by apply IH].
Qed.

Lemma canonTree_same_l v1 : ∀ d v2 t1 t2,
  wellFormedValue d v1 → wellFormedValue d v2 →
  canonTree NumberToJSON v1 = Ok t1 → canonTree NumberToJSON v2 = Ok t2 →
  sameValue NumberToJSON v1 v2 → t1 = t2.
Proof.
  induction v1 as [|b|n|x|items IH|ms IH] using value_nested_ind; intros d v2 t1 t2 W1 W2 H1 H2 Hs;
    inversion Hs as [|?|? ? En|?|? l2 HF|? m2 m2' HP HF]; subst; cbn [canonTree] in H1, H2.
  1,2,4: congruence.
  - rewrite En in H1. congruence.
  - apply fmap_Ok in H1 as (k1 & H1%mapErr_Ok & ->), H2 as (k2 & H2%mapErr_Ok & ->). f_equal.
    apply wellFormedValue_VArr in W1 as [_ W1], W2 as [_ W2]. clear Hs. revert k1 k2 H1 H2.
    induction HF as [|a b l1 l2 Hab _ IHF]; intros k1 k2 H1 H2; inversion H1; inversion H2; subst; [done|].
    apply Forall_cons in IH as [Ha IH], W1 as [Wa W1], W2 as [Wb W2].
    f_equal; [by eapply Ha|by apply IHF].
  - apply fmap_Ok in H1 as (k1 & H1%mapMembers_Ok & ->), H2 as (k2 & H2%mapMembers_Ok & ->).
    apply wellFormedValue_VObj in W1 as (_ & _ & W1), W2 as (_ & N2 & W2).
    pose proof (Forall2_fst_eq (λ x y, canonTree NumberToJSON x = Ok y) _ _ H2) as E2.
    assert (validKeys k2) as Hv.
    { unfold validKeys. rewrite <- E2. apply Forall_fmap. eapply Forall_impl; [done|]. by intros kv []. }
    unfold compose. f_equal. apply sortMembers_proper; [by rewrite <- E2|done|].
    destruct (Permutation.Permutation_Forall2 HP H2) as (k2' & HP2 & H2').
    assert (k1 = k2') as ->; [|by symmetry]. rewrite HP in W2. clear -HF H1 H2' IH W1 W2.
    revert k1 k2' H1 H2'. induction HF as [|[n1 a] [n2 b] l1 l2 [En Hab] _ IHF]; intros k1 k2 H1 H2;
      inversion H1 as [|? [] ? ? [E1 F1]]; inversion H2 as [|? [] ? ? [E2 F2]]; subst; [done|].
    simpl in *. apply Forall_cons in IH as [Ha IH], W1 as [[_ Wa] W1], W2 as [[_ Wb] W2].
    f_equal; [|by apply IHF]. subst. f_equal. by eapply (Ha (d + 1)).
Qed.

(** The shape of a value is that of its tree. *)
Lemma canonTree_inv v t : canonTree NumberToJSON v = Ok t →
  match t with
  | JNull => v = VNull
  | JBool b => v = VBool b
  | JNum tok => ∃ n, v = VNum n ∧ NumberToJSON n = Ok tok
  | JStr s => v = VStr s
  | JArr ts => ∃ items, v = VArr items ∧ Forall2 (λ v t, canonTree NumberToJSON v = Ok t) items ts
  | JObj ts => ∃ ms ts', v = VObj ms ∧ ts = sortMembers ts' ∧
      Forall2 (λ p q, p.1 = q.1 ∧ canonTree NumberToJSON p.2 = Ok q.2) ms ts'
  end.
Proof.
  destruct v; cbn [canonTree]; try (by intros [= <-]).
  - intros (x & Hx & ->)%fmap_Ok. eauto.
  - intros (x & Hx%mapErr_Ok & ->)%fmap_Ok. eauto.
  - intros (x & Hx%mapMembers_Ok & ->)%fmap_Ok. unfold compose. eauto.
Qed.

Lemma canonTree_same_r v1 : ∀ v2 t,
  canonTree NumberToJSON v1 = Ok t → canonTree NumberToJSON v2 = Ok t → sameValue NumberToJSON v1 v2.
Proof.
  induction v1 as [|b|n|x|items IH|ms IH] using value_nested_ind; intros v2 t H1 H2%canonTree_inv;
    cbn [canonTree] in H1.
  1,2,4: injection H1 as <-; subst; constructor.
  - apply fmap_Ok in H1 as (tok & H1 & ->). destruct H2 as (n' & -> & H2). constructor. congruence.
  - apply fmap_Ok in H1 as (k & H1%mapErr_Ok & ->). destruct H2 as (items' & -> & H2). constructor.
    revert items' H2. induction H1 as [|a t l k Ha _ IHF]; intros items' H2; inversion H2; subst; constructor;
      apply Forall_cons in IH as [IHa IH]; [by eapply IHa|by apply IHF].
  - apply fmap_Ok in H1 as (k1 & H1%mapMembers_Ok & ->). destruct H2 as (ms' & k2 & -> & E & H2).
    assert (k2 ≡ₚ k1) as HP by (rewrite <- (sortMembers_Permutation k1); unfold compose in E;
      by rewrite E, sortMembers_Permutation).
    destruct (Permutation.Permutation_Forall2 HP (proj2 (Forall2_flip _ _ _) H2)) as (ms2 & HP2 & HF).
    apply (same_obj _ _ _ ms2); [done|]. clear -IH H1 HF. revert ms2 HF.
    induction H1 as [|[n1 a] [m1 t] l k [En Ha] _ IHF]; intros ms2 HF;
      inversion HF as [|? [n2 b] ? ? [E2 F2]]; subst; constructor; apply Forall_cons in IH as [IHa IH];
      simpl in *; [split; [congruence|by eapply IHa]|by apply IHF].
Qed.
End Same.

Lemma CanonicalizeJSON_fixed (NumberToJSON : spec_float → result string) data out :
  number_token_law NumberToJSON → number_reads_law NumberToJSON →
  CanonicalizeJSON NumberToJSON data = Ok out → CanonicalizeJSON NumberToJSON out = Ok out.
Proof.
  intros Ht Hr H. unfold CanonicalizeJSON in *. apply bind_Ok in H as (v & Hv & H).
  destruct (canonicalize_reads NumberToJSON Ht Hr v out) as (v' & Hv' & Hc);
    [by eapply decodeJSON_ok|done|]. by rewrite Hv'.
Qed.

(** Canonicalization is idempotent: a canonical text is its own canonical form.
    Every digest of the system is therefore a digest of a fixed point. *)
Theorem CanonicalizeJSON_idempotent (NumberToJSON : spec_float → result string) data out :
  number_token_law NumberToJSON → number_reads_law NumberToJSON →
  CanonicalizeJSON NumberToJSON data = Ok out → CanonicalizeJSON NumberToJSON out = Ok out.
Proof. apply CanonicalizeJSON_fixed. Qed.

(** C28: Two texts have the same canonical form exactly when they decode to the same
    value: equal up to the order of object members and the spelling of numbers. *)
Theorem CanonicalizeJSON_same (NumberToJSON : spec_float → result string) a b va vb oa ob :
  number_token_law NumberToJSON →
  decodeJSON NumberToJSON a = Ok va → decodeJSON NumberToJSON b = Ok vb →
  canonicalize NumberToJSON va = Ok oa → canonicalize NumberToJSON vb = Ok ob →
  (oa = ob) ↔ sameValue NumberToJSON va vb.
Proof.
  intros Ht Ha Hb Ca Cb. apply decodeJSON_ok in Ha, Hb.
  apply (write_canonTree _ 0) in Ca as (ta & Ca & ->); [|done].
  apply (write_canonTree _ 0) in Cb as (tb & Cb & ->); [|done].
  split.
  - intros E%printJson_inj; [subst; by eapply canonTree_same_r| |].
    + exact (canonTree_wellFormed NumberToJSON Ht 0 va ta Ha Ca).
    + exact (canonTree_wellFormed NumberToJSON Ht 0 vb tb Hb Cb).
  - intros Hs. f_equal. by eapply (canonTree_same_l _ va 0 vb).
Qed.

(** The self-excluded digest is taken over a canonical text that decodes to an
    object without the excluded member, so storing the digest in that member does not
    change it. *)
Theorem DigestJSONWithRootMemberExcluded_spec (NumberToJSON : spec_float → result string)
    (sha256Hex : string → string) data m digest :
  number_token_law NumberToJSON → number_reads_law NumberToJSON →
  DigestJSONWithRootMemberExcluded NumberToJSON sha256Hex data m = Ok digest →
  ∃ out members, digest = DigestBytes sha256Hex out ∧
    decodeJSON NumberToJSON out = Ok (VObj members) ∧ (m ∉ members.*1) ∧
    CanonicalizeJSON NumberToJSON out = Ok out.
Proof.
  intros Ht Hr H. unfold DigestJSONWithRootMemberExcluded in H.
  apply bind_Ok in H as (v & Hv & H). destruct v as [| | | | |ms]; try done.
  apply bind_Ok in H as (out & Hc & [= <-]).
  pose proof (decodeJSON_ok _ _ _ Hv) as Hwf. apply wellFormedValue_VObj in Hwf as (Hd & Hnd & Hwf).
  set (ms' := filter (λ kv : string * value, kv.1 ≠ m) ms) in *.
  assert (wellFormedValue 0 (VObj ms')) as Hwf'.
  { apply wellFormedValue_VObj. split_and!; [done| |].
    - by apply NoDup_fmap_filter.
    - apply Forall_forall. intros kv [_ Hkv]%list_elem_of_filter.
      exact (proj1 (Forall_forall _ _) Hwf kv Hkv). }
  destruct (canonicalize_reads NumberToJSON Ht Hr _ out Hwf' Hc) as (v' & Hv' & Hc').
  assert (∃ members, v' = VObj members ∧ ms'.*1 ≡ₚ members.*1) as (members & -> & HP).
  { pose proof (decodeJSON_ok _ _ _ Hv') as Hw.
    apply (write_canonTree _ 0) in Hc as (t1 & C1 & ->), Hc' as (t2 & C2 & E2); [|done..].
    apply printJson_inj in E2 as <-;
      [|exact (canonTree_wellFormed NumberToJSON Ht 0 _ t1 Hwf' C1)|exact (canonTree_wellFormed NumberToJSON Ht 0 _ t2 Hw C2)].
    pose proof (canonTree_same_r NumberToJSON _ _ _ C1 C2) as Hs. inversion Hs as [| | | | |? m2 m2' HP HF]; subst.
    exists m2. split; [done|]. rewrite (Forall2_fst_eq (sameValue NumberToJSON) _ _ HF). by rewrite HP. }
  exists out, members. split_and!; [done|done| |].
  - rewrite <- HP. unfold ms'. rewrite list_elem_of_fmap. intros ([k x] & -> & [Hk _]%list_elem_of_filter). done.
  - unfold CanonicalizeJSON. by rewrite Hv'.
Qed.

(** ** A concrete number printer

    It prints three doubles, as [Number::toString] does, and refuses the others: enough
    to evaluate the definitions on concrete texts. *)
Definition smallNumbers (d : spec_float) : result string :=
  match d with
  | S754_zero _ => Ok "0"
  | _ =>
      if bool_decide (ParseFloat "1" = Some d) then Ok "1"
      else if bool_decide (ParseFloat "1.5" = Some d) then Ok "1.5"
      else Err (ErrNew "unsupported number")
  end.

Lemma smallNumbers_token : number_token_law smallNumbers.
Proof. intros d t. unfold smallNumbers. repeat case_match; by intros [= <-]. Qed.

Lemma smallNumbers_reads : number_reads_law smallNumbers.
Proof.
  intros d t H.
  assert (t = "0" ∨ t = "1" ∨ t = "1.5") as [->|[->| ->]].
  { unfold smallNumbers in H. repeat case_match; simplify_eq; auto. }
  all: eexists; split; [vm_compute; reflexivity|vm_compute; reflexivity].
Qed.

(** A text written with single quotes for double ones. *)
Fixpoint jsonText (s : string) : string :=
  match s with
  | EmptyString => EmptyString
  | String c s' => String (if byteOf c =? 39 then charOf 34 else c) (jsonText s')
  end.

Definition sampleText : string := jsonText "{'b': [1.5, 0, '\u00e9\n'], 'a': {}}".
Definition sampleForm : string := jsonText "{'a':{},'b':[1.5,0,'é\n']}".

Lemma CanonicalizeJSON_idempotent_witness :
  CanonicalizeJSON smallNumbers sampleText = Ok sampleForm ∧
  CanonicalizeJSON smallNumbers sampleForm = Ok sampleForm.
Proof.
  assert (CanonicalizeJSON smallNumbers sampleText = Ok sampleForm) as H by (vm_compute; reflexivity).
  split; [exact H|].
  exact (CanonicalizeJSON_idempotent smallNumbers _ _ smallNumbers_token smallNumbers_reads H).
Defined.

(** The member order differs, the value does not. *)
Definition swappedText : string := jsonText "{'a':{},'b':[1.50,-0,'\u00E9\u000a']}".
Definition decodeOr (data : string) : value :=
  match decodeJSON smallNumbers data with Ok v => v | Err _ => VNull end.

Lemma CanonicalizeJSON_same_witness :
  sameValue smallNumbers (decodeOr sampleText) (decodeOr swappedText).
Proof.
  refine (proj1 (CanonicalizeJSON_same smallNumbers sampleText swappedText _ _ sampleForm sampleForm
    smallNumbers_token _ _ _ _) eq_refl); vm_compute; reflexivity.
Defined.

Definition sampleHash (s : string) : string := "h" +:+ itoaNat (String.length s).

(** A stand-in for SHA-256: a checksum in 64 hexadecimal digits. *)
Definition checksumHash (s : string) : string :=
  let z := foldl (λ acc b, (acc * 31 + b) mod 1000003) 7 (bytesOf s) in
  ofBytes (map (λ i, lowerHex (z / 16 ^ Z.of_nat (63 - i) mod 16)) (seq 0 64)).

Lemma lowerHex_hex n : 0 <= n < 16 → isHexLower (lowerHex n) = true.
Proof.
  intros Hn. assert (n ∈ map Z.of_nat (seq 0 16)) as Hin.
  { apply list_elem_of_fmap. exists (Z.to_nat n). split; [lia|]. apply elem_of_seq. lia. }
  assert (forallb (λ n, isHexLower (lowerHex n)) (map Z.of_nat (seq 0 16)) = true) as Hall by reflexivity.
  exact (proj1 (forallb_forall _ _) Hall n (proj1 (list_elem_of_In _ _) Hin)).
Qed.
Lemma checksumHash_ref s : IsSHA256Ref (DigestBytes checksumHash s) = true.
Proof.
  unfold IsSHA256Ref, DigestBytes, checksumHash. generalize (foldl (λ acc b, (acc * 31 + b) mod 1000003) 7 (bytesOf s)) as z.
  intros z. set (l := map _ (seq 0 64)).
  assert (Forall (λ b, isHexLower b = true) l) as Hl.
  { apply Forall_forall. intros b (i & -> & _)%list_elem_of_fmap. apply lowerHex_hex, Z.mod_pos_bound. lia. }
  assert (length l = 64%nat) as Hlen by done. clearbody l.
  rewrite bytesOf_app, bytesOf_ofBytes; [rewrite stripPrefix_app, Hlen|].
  - change (Z.of_nat 64 =? 64) with true. apply forallb_forall. intros b Hb%list_elem_of_In.
    exact (proj1 (Forall_forall _ _) Hl b Hb).
  - eapply Forall_impl; [exact Hl|]. intros b Hb. cbn in Hb. unfold isHexLower, isDigit, inRange in Hb; unfold byteRange; lia.
Qed.

Lemma DigestJSONWithRootMemberExcluded_spec_witness :
  ∃ out members, "sha256:h14" = DigestBytes sampleHash out ∧
    decodeJSON smallNumbers out = Ok (VObj members) ∧ ("hash" ∉ members.*1) ∧
    CanonicalizeJSON smallNumbers out = Ok out.
Proof.
  apply (DigestJSONWithRootMemberExcluded_spec smallNumbers sampleHash
    (jsonText "{'hash':'sha256:h14','a':1,'b':[]}") "hash");
    [exact smallNumbers_token|exact smallNumbers_reads|vm_compute; reflexivity].
Defined.
