(* ===== verification/JsonRaw.v ===== *)
(** * Raw JSON values

    [json.Unmarshal] into [[]json.RawMessage] and [map[string]json.RawMessage]: the texts of
    the elements of an array and of the members of an object.
    The lenient reader accepts whatever the strict one does, with the same result, so
    the elements of a canonical array are the canonical texts of its elements. *)

From S2P Require Import Prelude Utf16 Json Canonical CanonicalText.
From Stdlib Require Import Ascii.
#[local] Open Scope Z_scope.

(** The elements after an opening bracket, each with the bytes it takes. *)
Fixpoint rawItems (fuel : nat) (l : list Z) : option (list string) :=
  match fuel with
  | O => None
  | S fuel' =>
      let l0 := skipWs l in
      '(_, l1) ← parseValue false (S (length l0)) 1 l0;
      let raw := ofBytes (take (length l0 - length l1) l0) in
      match skipWs l1 with
      | b :: l2 =>
          if b =? ch "," then raws ← rawItems fuel' l2; Some (raw :: raws)
          else if b =? ch "]" then match skipWs l2 with [] => Some [raw] | _ => None end
          else None
      | [] => None
      end
  end.

(** The JSON value [null] decodes into the nil slice. *)
Definition unmarshalRawItems (data : string) : option (list string) :=
  match skipWs (bytesOf data) with
  | b :: l1 =>
      if b =? ch "[" then
        match skipWs l1 with
        | c :: l2 =>
            if c =? ch "]" then match skipWs l2 with [] => Some [] | _ => None end
            else rawItems (S (length l1)) l1
        | [] => None
        end
      else match unmarshal data with Some JNull => Some [] | _ => None end
  | [] => None
  end.

(** The members after an opening brace, each with the bytes its value takes. *)
Fixpoint rawMembers (fuel : nat) (l : list Z) : option (list (string * string)) :=
  match fuel with
  | O => None
  | S fuel' =>
      match skipWs l with
      | b :: l0 =>
          if negb (b =? 34) then None else
          '(name, l1) ← parseString false l0;
          match skipWs l1 with
          | c :: l2 =>
              if negb (c =? ch ":") then None else
              let l3 := skipWs l2 in
              '(_, l4) ← parseValue false (S (length l3)) 1 l3;
              let raw := ofBytes (take (length l3 - length l4) l3) in
              match skipWs l4 with
              | d :: l5 =>
                  if d =? ch "," then raws ← rawMembers fuel' l5; Some ((name, raw) :: raws)
                  else if d =? ch "}" then match skipWs l5 with [] => Some [(name, raw)] | _ => None end
                  else None
              | [] => None
              end
          | [] => None
          end
      | [] => None
      end
  end.

(** [json.Unmarshal] into [map[string]json.RawMessage], duplicated members included: [member]
    finds the last.  The JSON value [null] decodes into the nil map. *)
Definition unmarshalRawMembers (data : string) : option (list (string * string)) :=
  match skipWs (bytesOf data) with
  | b :: l1 =>
      if b =? ch "{" then
        match skipWs l1 with
        | c :: l2 =>
            if c =? ch "}" then match skipWs l2 with [] => Some [] | _ => None end
            else rawMembers (S (length l1)) l1
        | [] => None
        end
      else match unmarshal data with Some JNull => Some [] | _ => None end
  | [] => None
  end.

(** ** The lenient reader extends the strict one *)
Lemma unicodeEscape_lenient l r : unicodeEscape true l = Some r → unicodeEscape false l = Some r.
Proof.
  unfold unicodeEscape. do 4 (destruct l as [|? l]; [done|]). destruct (hex4 _ _ _ _); [|done]. simpl.
  destruct (isHigh _); [|by destruct (isLow _)].
  do 6 (destruct l as [|? l]; [done|]). destruct (_ && _); [|done].
  destruct (hex4 _ _ _ _); [|done]. simpl. by destruct (isLow _).
Qed.

Lemma bind_Some_mono {A B} (m m' : option A) (f f' : A → option B) b :
  (∀ a, m = Some a → m' = Some a) → (∀ a b, f a = Some b → f' a = Some b) →
  (m ≫= f) = Some b → (m' ≫= f') = Some b.
Proof. intros Hm Hf. destruct m as [a|]; [|done]. rewrite (Hm a eq_refl). simpl. auto. Qed.

Lemma scanString_lenient l k r : scanString true k l = Some r → scanString false k l = Some r.
Proof.
  revert k r; induction l as [|b l IH]; intros k r; [done|]. cbn [scanString].
  destruct k as [|k]; [|by apply IH]. destruct (b =? 34); [done|]. destruct (b <? 32); [done|].
  destruct (negb (b =? 92)).
  { apply bind_Some_mono; [by apply IH|done]. }
  destruct l as [|e l2]; [done|]. destruct (e =? 117).
  - apply bind_Some_mono; [apply unicodeEscape_lenient|]. intros [out w] r'.
    apply bind_Some_mono; [exact (λ a, IH (S w) a)|done].
  - destruct (simpleEscape e); [|done]. cbn [mbind option_bind].
    apply bind_Some_mono; [exact (λ a, IH 1%nat a)|done].
Qed.

Lemma parseString_lenient l r : parseString true l = Some r → parseString false l = Some r.
Proof.
  unfold parseString. apply bind_Some_mono; [apply scanString_lenient|]. intros [bytes rest] r'.
  by destruct (validUtf8 _).
Qed.

Lemma parseItems_mono value value' n l r :
  (∀ l r, value l = Some r → value' l = Some r) → parseItems value n l = Some r → parseItems value' n l = Some r.
Proof.
  intros Hv. revert l r; induction n as [|n IH]; intros l r; [done|]. cbn [parseItems].
  apply bind_Some_mono; [apply Hv|]. intros [v l1] r'. destruct (skipWs l1) as [|b l2]; [done|].
  destruct (b =? ch ","); [|done]. by apply bind_Some_mono; [apply IH|].
Qed.

Lemma parseMembers_lenient value value' n seen seen' l r :
  (∀ l r, value l = Some r → value' l = Some r) →
  parseMembers true value n seen l = Some r → parseMembers false value' n seen' l = Some r.
Proof.
  intros Hv. revert seen seen' l r; induction n as [|n IH]; intros seen seen' l r; [done|]. cbn [parseMembers].
  destruct (skipWs l) as [|b l0]; [done|]. destruct (negb (b =? 34)); [done|].
  apply bind_Some_mono; [apply parseString_lenient|]. intros [name l1] r1. cbn [andb].
  destruct (bool_decide (name ∈ seen)); [done|]. destruct (skipWs l1) as [|c l2]; [done|].
  destruct (negb (c =? ch ":")); [done|]. apply bind_Some_mono; [apply Hv|]. intros [v l3] r2.
  destruct (skipWs l3) as [|d l4]; [done|]. destruct (d =? ch ","); [|done].
  apply bind_Some_mono; [by apply IH|done].
Qed.

Lemma parseValue_lenient fuel d l r : parseValue true fuel d l = Some r → parseValue false fuel d l = Some r.
Proof.
  revert d l r; induction fuel as [|fuel IH]; intros d l r; [done|]. cbn [parseValue].
  destruct (skipWs l) as [|b l1]; [done|]. destruct (b =? ch "{").
  { destruct (d =? maxNestingDepth); [done|]. destruct (skipWs l1) as [|c l2]; [done|].
    destruct (c =? ch "}"); [done|]. apply bind_Some_mono; [|done].
    intros a. apply parseMembers_lenient. intros ??. apply IH. }
  destruct (b =? ch "[").
  { destruct (d =? maxNestingDepth); [done|]. destruct (skipWs l1) as [|c l2]; [done|].
    destruct (c =? ch "]"); [done|]. apply bind_Some_mono; [|done].
    intros a. apply parseItems_mono. intros ??. apply IH. }
  destruct (b =? 34); [|done]. apply bind_Some_mono; [apply parseString_lenient|done].
Qed.

Lemma unmarshal_print t : wellFormed 0 t → unmarshal (printJson t) = Some t.
Proof.
  intros Hp%readValue_print. unfold readValue in Hp. apply parseValue_lenient in Hp.
  unfold unmarshal, readValue. by rewrite Hp.
Qed.

Lemma take_printed (a b : list Z) : take (length (a ++ b) - length b) (a ++ b) = a.
Proof. rewrite length_app, Nat.add_sub. apply take_app_length. Qed.

(** ** The elements of a printed array *)
Lemma rawItems_print fuel items :
  items ≠ [] → Forall (wellFormed 1) items → (length (joinBytes (map printBytes items)) < fuel)%nat →
  rawItems fuel (joinBytes (map printBytes items) ++ [93]) = Some (map printJson items).
Proof.
  revert fuel; induction items as [|t items IH]; intros fuel Hne Hwf Hf; [done|].
  destruct fuel as [|fuel]; [lia|]. apply Forall_cons in Hwf as [Ht Hwf].
  assert (∃ rest, joinBytes (map printBytes (t :: items)) ++ [93] = printBytes t ++ rest ∧ delimiter rest ∧
    ((items = [] ∧ rest = [93]) ∨ items ≠ [] ∧ rest = 44 :: joinBytes (map printBytes items) ++ [93]))
    as (rest & E & Hd & Hrest).
  { destruct items as [|t' items].
    - exists [93]. split; [done|]. split; [right; by left|by left].
    - exists (44 :: joinBytes (map printBytes (t' :: items)) ++ [93]). cbn [map].
      rewrite joinBytes_cons, <- (assoc_L (++)). split; [done|]. split; [by left|by right]. }
  rewrite E. cbn [rawItems]. rewrite (skipWs_print 1 t rest Ht).
  rewrite (parseValue_lenient _ _ _ (t, rest)) by (apply parse_print; [done|lia|done]).
  cbn [mbind option_bind]. rewrite take_printed.
  destruct Hrest as [[-> ->]|[Hne' ->]]; [done|].
  change (skipWs (44 :: ?l)) with (44 :: l). cbn [Z.eqb].
  change (44 =? ch ",") with true. cbn iota. rewrite IH; [done|done|done|].
  destruct items as [|t' items]; [done|]. cbn [map] in Hf. rewrite joinBytes_cons, length_app in Hf.
  simpl in Hf. simpl. lia.
Qed.

Lemma unmarshalRawItems_print items :
  wellFormed 0 (JArr items) → unmarshalRawItems (printJson (JArr items)) = Some (map printJson items).
Proof.
  intros [_ Hwf]%wellFormed_JArr. unfold unmarshalRawItems, printJson at 1.
  rewrite bytesOf_ofBytes by apply printBytes_ranged.
  change (printBytes (JArr items)) with (91 :: joinBytes (map printBytes items) ++ [93]).
  change (skipWs (91 :: ?l)) with (91 :: l). cbn iota. change (91 =? ch "[") with true. cbn iota.
  destruct items as [|t items]; [done|].
  assert (∃ b l, joinBytes (map printBytes (t :: items)) ++ [93] = b :: l ∧ isSpace b = false ∧ (b =? 93) = false)
    as (b & l & E & Hs & Hb).
  { apply Forall_cons in Hwf as [Ht _]. destruct (printBytes_head _ _ Ht) as (b & l & E & Hs & Hb & _).
    destruct items as [|t' items].
    - exists b, (l ++ [93]). cbn [map joinBytes]. by rewrite E.
    - exists b, (l ++ 44 :: joinBytes (map printBytes (t' :: items)) ++ [93]).
      cbn [map]. rewrite joinBytes_cons, E. simpl. by rewrite <- (assoc_L (++)). }
  rewrite E. cbn [skipWs]. rewrite Hs. change (ch "]") with 93. rewrite Hb, <- E.
  apply rawItems_print; [done|done|]. rewrite length_app. simpl. lia.
Qed.

(** ** The members of a printed object *)
Definition rawMember (kv : string * json) : string * string := (kv.1, printJson kv.2).

Lemma joinMembers_cons kv kv' ms :
  joinBytes (map printMember (kv :: kv' :: ms)) = printMember kv ++ 44 :: joinBytes (map printMember (kv' :: ms)).
Proof. apply joinBytes_cons. Qed.

Lemma rawMembers_print fuel ms :
  ms ≠ [] → Forall (λ kv, validUtf8 kv.1 = true ∧ wellFormed 1 kv.2) ms →
  (length (joinBytes (map printMember ms)) < fuel)%nat →
  rawMembers fuel (joinBytes (map printMember ms) ++ [125]) = Some (map rawMember ms).
Proof.
  revert fuel; induction ms as [|[k t] ms IH]; intros fuel Hne Hwf Hf; [done|].
  destruct fuel as [|fuel]; [lia|]. apply Forall_cons in Hwf as [[Hk Ht] Hwf]. cbn [fst snd] in Hk, Ht.
  assert (∃ rest, joinBytes (map printMember ((k, t) :: ms)) ++ [125] = printMember (k, t) ++ rest ∧ delimiter rest ∧
    ((ms = [] ∧ rest = [125]) ∨ ms ≠ [] ∧ rest = 44 :: joinBytes (map printMember ms) ++ [125]))
    as (rest & E & Hd & Hrest).
  { destruct ms as [|kv ms].
    - exists [125]. split; [done|]. split; [right; by right|by left].
    - exists (44 :: joinBytes (map printMember (kv :: ms)) ++ [125]).
      rewrite joinMembers_cons, <- (assoc_L (++)). split; [done|]. split; [by left|by right]. }
  rewrite E. unfold printMember at 1, quoteBytes. cbn [fst snd app]. cbn [rawMembers].
  change (skipWs (34 :: ?l)) with (34 :: l). cbv iota. change (negb (34 =? 34)) with false. cbv iota.
  rewrite <- !(assoc_L (++)). cbn [app]. rewrite parseString_quoted by done. cbn [mbind option_bind].
  change (skipWs (58 :: ?l)) with (58 :: l). cbv iota. change (negb (58 =? ch ":")) with false. cbv iota zeta.
  rewrite (skipWs_print 1 t rest Ht).
  rewrite (parseValue_lenient _ _ _ (t, rest)) by (apply parse_print; [done|lia|done]).
  cbn [mbind option_bind]. rewrite take_printed.
  destruct Hrest as [[-> ->]|[Hne' ->]]; [done|].
  change (skipWs (44 :: ?l)) with (44 :: l). cbv iota. change (44 =? ch ",") with true. cbv iota.
  rewrite IH; [done|done|done|]. destruct ms as [|kv ms]; [done|].
  rewrite joinMembers_cons, length_app in Hf. cbn [length] in Hf. lia.
Qed.

Lemma unmarshalRawMembers_print ms :
  wellFormed 0 (JObj ms) → unmarshalRawMembers (printJson (JObj ms)) = Some (map rawMember ms).
Proof.
  intros (_ & _ & Hwf)%wellFormed_JObj. unfold unmarshalRawMembers, printJson.
  rewrite bytesOf_ofBytes by apply printBytes_ranged.
  change (printBytes (JObj ms)) with (123 :: joinBytes (map printMember ms) ++ [125]).
  change (skipWs (123 :: ?l)) with (123 :: l). cbv iota. change (123 =? ch "{") with true. cbv iota.
  destruct ms as [|[k t] ms]; [done|].
  assert (∃ l, joinBytes (map printMember ((k, t) :: ms)) ++ [125] = 34 :: l) as (l & E).
  { destruct ms; cbn [map joinBytes]; unfold printMember, quoteBytes; cbn; eauto. }
  rewrite E. change (skipWs (34 :: l)) with (34 :: l). cbv iota. change (34 =? ch "}") with false. cbv iota.
  rewrite <- E. apply rawMembers_print; [done|done|]. rewrite length_app. cbn [length]. lia.
Qed.
