(* ===== verification/SourceIdentity.v ===== *)
(** * Source package identity

    [internal/sourceidentity/sourceidentity.go]: the digest of an ordered list of
    normalized file paths and their hashes. *)

From S2P Require Import Prelude Utf16 Text Json Canonical CanonicalForm.
From Stdlib Require Import Ascii SpecFloat.
#[local] Open Scope Z_scope.

Record File := { fi_Path : string; fi_Hash : string }.

(** The string encoder of [json.Marshal]: HTML characters and the two line separators
    are escaped too. *)
Definition marshalRune (r : Z) : list Z :=
  if (r =? 60) || (r =? 62) || (r =? 38) then [92; 117; 48; 48; lowerHex (r / 16); lowerHex (r mod 16)]
  else if (r =? 0x2028) then [92; 117; 50; 48; 50; 56]
  else if (r =? 0x2029) then [92; 117; 50; 48; 50; 57]
  else quoteRune r.
Definition marshalString (s : string) : string := ofBytes (34 :: (runes s ≫= marshalRune) ++ [34]).

(** A Go string literal holding JSON, written with single quotes. *)
Fixpoint quoted (s : string) : string :=
  match s with
  | EmptyString => EmptyString
  | String c s' => String (if byteOf c =? 39 then charOf 34 else c) (quoted s')
  end.

Definition marshalFile (f : File) : string :=
  quoted "{'path':" +:+ marshalString (fi_Path f) +:+
  quoted ",'hash':" +:+ marshalString (fi_Hash f) +:+ "}".

(** [json.Marshal(hashInput{...})] *)
Definition marshalHashInput (files : list File) : string :=
  quoted "{'files':[" +:+ joinStrings "," (map marshalFile files) +:+
  quoted "],'hashing':{'algorithm':'sha256','canonicalization':'canonical-json-v0','recipe':'source-package','recipeVersion':1},'kind':'SourcePackageHashInput','schemaVersion':0}".

Definition hasInvalidSegment (segments : list string) : bool :=
  existsb (λ s, bool_decide (s = "") || bool_decide (s = ".") || bool_decide (s = "..")) segments.

Definition normalizedPath (path : string) : bool :=
  negb (bool_decide (path = "") || containsByte (charOf 92) path || HasPrefix path "/"
    || negb (bool_decide (Clean path = path)) || hasInvalidSegment (splitOn "/" path)).

Section Digest.
Context (NumberToJSON : spec_float → result string) (sha256Hex : string → string).

(** The loop of [Digest]: [prev] is [files[index-1]]. *)
Fixpoint checkFiles (index : nat) (prev : option File) (files : list File) : result unit :=
  match files with
  | [] => Ok tt
  | file :: rest =>
      if negb (normalizedPath (fi_Path file)) then
        Err (Errorf "source package file %d path %q is not a normalized relative path"
          [AInt (Z.of_nat index); AStr (fi_Path file)])
      else if negb (IsSHA256Ref (fi_Hash file)) then
        Err (Errorf "source package file %d hash must be sha256:<64 lowercase hex>" [AInt (Z.of_nat index)])
      else if match prev with Some p => negb (LessUTF16 (fi_Path p) (fi_Path file)) | None => false end then
        Err (ErrNew "source package files must have unique paths in UTF-16 code-unit order")
      else checkFiles (S index) (Some file) rest
  end.

Definition Digest (files : list File) : result string :=
  match files with
  | [] => Err (ErrNew "source package files must not be empty")
  | _ =>
      _ ← checkFiles 0 None files;
      DigestJSON NumberToJSON sha256Hex (marshalHashInput files)
  end.
End Digest.

(** ** Properties *)

(** [path.Clean] never changes a path of proper segments: the segment check implies the
    clean check. *)
Lemma hasInvalidSegment_false segments :
  hasInvalidSegment segments = false ↔ Forall properSegment segments.
Proof.
  unfold properSegment. induction segments as [|s l IH]; [split; intros; [constructor|done]|]. simpl.
  rewrite Forall_cons, <- IH, orb_false_iff, !orb_false_iff, !bool_decide_eq_false. tauto.
Qed.

Lemma normalizedPath_spec path :
  normalizedPath path = true ↔
  containsByte (charOf 92) path = false ∧ Forall properSegment (splitOn "/" path).
Proof.
  unfold normalizedPath. rewrite negb_true_iff, !orb_false_iff, hasInvalidSegment_false,
    negb_false_iff, bool_decide_eq_true, bool_decide_eq_false.
  split; [tauto|]. intros [Hb Hs].
  assert (path ≠ "") as Hne by (intros ->; inversion Hs as [|? ? [H _]]; by apply H).
  assert (HasPrefix path "/" = false) as Hp.
  { destruct path as [|c path]; [done|]. unfold HasPrefix. cbn [String.prefix].
    destruct (ascii_dec "/" c) as [<-|]; [|done]. inversion Hs as [|? ? [H _]]. by destruct H. }
  split_and!; try done. unfold Clean. rewrite Hp, cleanSegments_proper by done. simpl.
  pose proof (joinStrings_split "/" path) as E. simpl in E. rewrite E.
  by rewrite bool_decide_eq_false_2.
Qed.

Lemma checkFiles_Ok index prev files :
  checkFiles index prev files = Ok tt ↔
  Forall (λ f, normalizedPath (fi_Path f) = true ∧ IsSHA256Ref (fi_Hash f) = true) files ∧
  (∀ i f g, (option_list prev ++ files) !! i = Some f → (option_list prev ++ files) !! S i = Some g →
    LessUTF16 (fi_Path f) (fi_Path g) = true).
Proof.
  revert index prev; induction files as [|file rest IH]; intros index prev; cbn [checkFiles].
  - split; [|done]. intros _. split; [constructor|]. rewrite app_nil_r.
    destruct prev as [p|]; simpl; intros [|i] f g; simpl; try done; by destruct i.
  - rewrite Forall_cons. destruct (normalizedPath (fi_Path file)); simpl; [|naive_solver].
    destruct (IsSHA256Ref (fi_Hash file)); simpl; [|naive_solver].
    assert ((∀ i f g, (option_list prev ++ file :: rest) !! i = Some f →
        (option_list prev ++ file :: rest) !! S i = Some g → LessUTF16 (fi_Path f) (fi_Path g) = true) ↔
      (match prev with Some p => LessUTF16 (fi_Path p) (fi_Path file) = true | None => True end ∧
       ∀ i f g, (file :: rest) !! i = Some f → (file :: rest) !! S i = Some g →
        LessUTF16 (fi_Path f) (fi_Path g) = true)) as ->.
    { destruct prev as [p|]; simpl; [|naive_solver]. split.
      - intros H. split; [by apply (H 0%nat)|]. intros i. apply (H (S i)).
      - intros [Hp H] [|i] f g; simpl; [by intros [= <-] [= <-]|]. apply (H i). }
    destruct prev as [p|]; simpl.
    + destruct (LessUTF16 (fi_Path p) (fi_Path file)); simpl; [|naive_solver].
      rewrite IH. simpl. naive_solver.
    + rewrite IH. simpl. naive_solver.
Qed.

(** A list of files that [Digest] gives an identity is non-empty, its paths are
    relative, made of proper segments and free of duplicates (they increase strictly in
    UTF-16 order), and every hash is a digest reference. *)
Theorem Digest_checks files NumberToJSON sha256Hex digest :
  Digest NumberToJSON sha256Hex files = Ok digest →
  files ≠ [] ∧ NoDup (map fi_Path files) ∧
  Forall (λ f, Forall properSegment (splitOn "/" (fi_Path f)) ∧ IsSHA256Ref (fi_Hash f) = true) files.
Proof.
  unfold Digest. destruct files as [|f0 files]; [done|]. set (l := f0 :: files).
  intros ([] & [Hf Hs]%checkFiles_Ok & _)%bind_Ok. simpl option_list in Hs. rewrite app_nil_l in Hs.
  split_and!; [done| |].
  - assert (∀ j i f g, l !! i = Some f → l !! (S i + j)%nat = Some g →
      LessUTF16 (fi_Path f) (fi_Path g) = true) as Hlt.
    { induction j as [|j IH]; intros i f g Hi Hj.
      - rewrite Nat.add_0_r in Hj. by eapply Hs.
      - destruct (lookup_lt_is_Some_2 l (S i + j)%nat) as [h Hh].
        { apply lookup_lt_Some in Hj. lia. }
        eapply LessUTF16_trans; [by eapply IH|]. eapply Hs; [done|].
        by replace (S (S i + j)) with (S i + S j)%nat by lia. }
    apply NoDup_alt. intros i j x Hi Hj. rewrite list_lookup_fmap in Hi, Hj.
    destruct (l !! i) as [f|] eqn:Ei; [|done]. destruct (l !! j) as [g|] eqn:Ej; [|done].
    simpl in Hi, Hj. destruct (lt_eq_lt_dec i j) as [[Hij|]|Hij]; [|done|].
    + pose proof (Hlt (j - S i)%nat i f g Ei) as H. replace (S i + (j - S i))%nat with j in H by lia.
      specialize (H Ej). rewrite <- Hi in Hj. injection Hj as E. rewrite E, LessUTF16_irrefl in H. done.
    + pose proof (Hlt (i - S j)%nat j g f Ej) as H. replace (S j + (i - S j))%nat with i in H by lia.
      specialize (H Ei). rewrite <- Hi in Hj. injection Hj as E. rewrite E, LessUTF16_irrefl in H. done.
  - eapply Forall_impl; [done|]. intros f [[_ H]%normalizedPath_spec Hh]. done.
Qed.

Lemma Digest_checks_witness :
  let files := [{| fi_Path := "a/b.ts"; fi_Hash := "sha256:" +:+ joinStrings "" (replicate 64 "0") |};
                {| fi_Path := "a/c.ts"; fi_Hash := "sha256:" +:+ joinStrings "" (replicate 64 "a") |}] in
  NoDup (map fi_Path files).
Proof.
  apply (Digest_checks _ smallNumbers sampleHash "sha256:h375"). vm_compute. reflexivity.
Defined.
