(* ===== verification/Validate.v ===== *)
(** * Semantic validation of a workflow spec

    [validateSemantics] of [internal/spec/spec.go] and the passes it calls, as functions
    from a spec to its list of diagnostics.  Go's map iteration order is unspecified:
    where the code ranges over a map without sorting, the order of the diagnostics is
    that of [map_to_list].

    The comparison of JSON schemas ([SchemaRules]) is an interface: its operations are
    what this pass asks of a schema document. *)

From S2P Require Import Prelude Utf16 Text SpecTypes TopoOrder Kahn Schedule Reach SpecGraph Cycle Json Canonical SourceIdentity.
From Stdlib Require Import SpecFloat.
#[local] Open Scope Z_scope.

Definition diag (path ref message : string) : Diagnostic :=
  {| dg_Path := path; dg_Ref := ref; dg_Message := message |}.

(** [if cond { diagnostics = append(diagnostics, d) }] *)
Definition diagIf (cond : bool) (d : Diagnostic) : list Diagnostic := if cond then [d] else [].

Definition nodePath (index : nat) : string := "$.graph.nodes[" +:+ itoaNat index +:+ "]".
Definition edgePath (index : nat) : string := "$.graph.edges[" +:+ itoaNat index +:+ "]".

(** [_, exists := m[k]; !exists] *)
Definition missing {A} (m : gmap string A) (k : string) : bool := bool_decide (m !! k = None).

(** [m[k]] on a map whose zero value is [zeroNode]. *)
Definition nodeAt (nodeByID : gmap string GraphNode) (id : string) : GraphNode :=
  default zeroNode (nodeByID !! id).

Definition boolAt (m : gmap string bool) (k : string) : bool := default false (m !! k).

(** [m[a][b]] of a map of maps. *)
Definition at2 {A} (m : gmap string (gmap string A)) (a b : string) : option A :=
  inner ← m !! a; inner !! b.
Definition put2 {A} (a b : string) (x : A) (m : gmap string (gmap string A)) : gmap string (gmap string A) :=
  <[a := <[b := x]> (default ∅ (m !! a))]> m.

(** ** Value producers and consumers *)
Definition outputSchemaOfValueProducer (node : GraphNode) : string * bool :=
  if negb (isKind NodeKindStep node) && negb (isKind NodeKindSelect node) && negb (isKind NodeKindMap node)
  then ("", false) else (gn_OutputSchema node, true).

Definition graphValueOutputSchema (node : GraphNode) (workflowInputSchema : string) : string * bool :=
  if isKind NodeKindStart node then (workflowInputSchema, true)
  else outputSchemaOfValueProducer node.

Definition graphValueInputSchema (node : GraphNode) (workflowOutputSchema : string) : string * bool :=
  if isKind NodeKindEnd node then (workflowOutputSchema, true)
  else if isKind NodeKindStep node || isKind NodeKindDecision node || isKind NodeKindMap node
  then (gn_InputSchema node, true) else ("", false).

(** ** Nodes *)
Record nodeScan := {
  ns_diagnostics : list Diagnostic;
  ns_nodeByID : gmap string GraphNode;
  ns_nodeIndexes : gmap string nat;
  ns_startCount : Z;
  ns_endCount : Z;
}.

Definition scanNode (st : nodeScan) (x : nat * GraphNode) : nodeScan :=
  let '(index, node) := x in
  match ns_nodeByID st !! gn_ID node with
  | Some _ =>
      {| ns_diagnostics := ns_diagnostics st ++
           [diag (nodePath index +:+ ".id") (gn_ID node) "duplicate graph node id"];
         ns_nodeByID := ns_nodeByID st; ns_nodeIndexes := ns_nodeIndexes st;
         ns_startCount := ns_startCount st; ns_endCount := ns_endCount st |}
  | None =>
      {| ns_diagnostics := ns_diagnostics st;
         ns_nodeByID := <[gn_ID node := node]> (ns_nodeByID st);
         ns_nodeIndexes := <[gn_ID node := index]> (ns_nodeIndexes st);
         ns_startCount := if isKind NodeKindStart node then ns_startCount st + 1 else ns_startCount st;
         ns_endCount := if isKind NodeKindEnd node then ns_endCount st + 1 else ns_endCount st |}
  end.

Definition scanNodes (nodes : list GraphNode) : nodeScan :=
  foldl scanNode
    {| ns_diagnostics := []; ns_nodeByID := ∅; ns_nodeIndexes := ∅; ns_startCount := 0; ns_endCount := 0 |}
    (indexed nodes).

(** [node, exists := nodeByID[id]; !exists || node.Kind != kind] *)
Definition notOfKind (nodeByID : gmap string GraphNode) (id kind : string) : bool :=
  match nodeByID !! id with Some node => negb (isKind kind node) | None => true end.

Definition endpointDiagnostics (graph : Graph) (st : nodeScan) : list Diagnostic :=
  diagIf (negb (ns_startCount st =? 1)) (diag "$.graph.nodes" ""
    ("expected exactly one start node, found " +:+ itoa (ns_startCount st))) ++
  diagIf (negb (ns_endCount st =? 1)) (diag "$.graph.nodes" ""
    ("expected exactly one end node, found " +:+ itoa (ns_endCount st))) ++
  diagIf (notOfKind (ns_nodeByID st) (gr_Start graph) NodeKindStart)
    (diag "$.graph.start" (gr_Start graph) "start must reference the start node") ++
  diagIf (notOfKind (ns_nodeByID st) (gr_End graph) NodeKindEnd)
    (diag "$.graph.end" (gr_End graph) "end must reference the end node").

(** ** Edges *)
Record edgeScan := {
  es_diagnostics : list Diagnostic;
  es_upstream : gmap string (gset string);
  es_inbound : gmap string (list string);
  es_outbound : gmap string (list string);
  es_adjacency : gmap string (list string);
  es_edgeIndexes : gmap string nat;
}.

Definition nul : string := String Ascii.zero "".
Definition edgeKey (edge : GraphEdge) : string :=
  ge_From edge +:+ nul +:+ ge_To edge +:+ nul +:+ ge_Case edge.

Definition addDiagnostics (ds : list Diagnostic) (st : edgeScan) : edgeScan :=
  {| es_diagnostics := es_diagnostics st ++ ds; es_upstream := es_upstream st;
     es_inbound := es_inbound st; es_outbound := es_outbound st;
     es_adjacency := es_adjacency st; es_edgeIndexes := es_edgeIndexes st |}.

Definition scanEdge (nodeByID : gmap string GraphNode) (st : edgeScan) (x : nat * GraphEdge) : edgeScan :=
  let '(index, edge) := x in
  let noFrom := missing nodeByID (ge_From edge) in
  let noTo := missing nodeByID (ge_To edge) in
  let st := addDiagnostics
    (diagIf noFrom (diag (edgePath index +:+ ".from") (ge_From edge) "edge source node does not exist") ++
     diagIf noTo (diag (edgePath index +:+ ".to") (ge_To edge) "edge target node does not exist")) st in
  if noFrom then st else if noTo then st else
  match es_edgeIndexes st !! edgeKey edge with
  | Some firstIndex =>
      addDiagnostics [diag (edgePath index) (ge_From edge +:+ " -> " +:+ ge_To edge)
        ("duplicate graph edge; first declared at $.graph.edges[" +:+ itoaNat firstIndex +:+ "]")] st
  | None =>
      {| es_diagnostics := es_diagnostics st;
         es_upstream := <[ge_To edge := {[ge_From edge]} ∪ default ∅ (es_upstream st !! ge_To edge)]> (es_upstream st);
         es_inbound := appendAt (ge_To edge) (ge_From edge) (es_inbound st);
         es_outbound := appendAt (ge_From edge) (ge_To edge) (es_outbound st);
         es_adjacency := appendAt (ge_From edge) (ge_To edge) (es_adjacency st);
         es_edgeIndexes := <[edgeKey edge := index]> (es_edgeIndexes st) |}
  end.

Definition scanEdges (nodeByID : gmap string GraphNode) (edges : list GraphEdge) : edgeScan :=
  foldl (scanEdge nodeByID)
    {| es_diagnostics := []; es_upstream := ∅; es_inbound := ∅; es_outbound := ∅; es_adjacency := ∅;
       es_edgeIndexes := ∅ |} (indexed edges).

(** The successor lists are sorted in place before the searches. *)
Definition sortedAdjacency (st : edgeScan) : gmap string (list string) := sortUTF16 <$> es_adjacency st.

Definition degreeDiagnostics (graph : Graph) (st : edgeScan) : list Diagnostic :=
  let inStart := at_ (es_inbound st) (gr_Start graph) in
  let outStart := at_ (es_outbound st) (gr_Start graph) in
  let outEnd := at_ (es_outbound st) (gr_End graph) in
  let inEnd := at_ (es_inbound st) (gr_End graph) in
  diagIf (negb (length inStart =? 0)%nat)
    (diag "$.graph.edges" (gr_Start graph) "start node must not have inbound edges") ++
  diagIf (negb (length outStart =? 1)%nat) (diag "$.graph.start" (gr_Start graph)
    ("start node must have exactly one outbound edge, found " +:+ itoaNat (length outStart))) ++
  diagIf (negb (length outEnd =? 0)%nat)
    (diag "$.graph.edges" (gr_End graph) "end node must not have outbound edges") ++
  diagIf (negb (length inEnd =? 1)%nat) (diag "$.graph.end" (gr_End graph)
    ("end node must have exactly one inbound edge, found " +:+ itoaNat (length inEnd))).

(** ** Reachability *)
Definition unreachableDiagnostics (graph : Graph) (adjacency : gmap string (list string))
    (nodeByID : gmap string GraphNode) : list Diagnostic :=
  if missing nodeByID (gr_Start graph) then [] else
  let reachable := default ∅
    (reachLoop adjacency (S (length (gr_Edges graph))) {[gr_Start graph]} [gr_Start graph]) in
  let unreachable := filter (λ id, id ∉ reachable) (map gn_ID (gr_Nodes graph)) in
  map (λ nodeID, diag "$.graph.nodes" nodeID "node is not reachable from start") (sortUTF16 unreachable).

(** ** Steps *)
Fixpoint duplicateSources (path : string) (declared : gset string) (sources : list string)
    : list Diagnostic :=
  match sources with
  | [] => []
  | sourceID :: rest =>
      if bool_decide (sourceID ∈ declared) then
        diag (path +:+ ".mergeInputs") sourceID "mergeInputs must not contain duplicate source ids"
          :: duplicateSources path declared rest
      else duplicateSources path ({[sourceID]} ∪ declared) rest
  end.

Definition mergeInputDiagnostics (nodeByID : gmap string GraphNode) (upstream : gset string) (path : string)
    (x : nat * string) : list Diagnostic :=
  let '(mergeIndex, sourceID) := x in
  let at_path := path +:+ ".mergeInputs[" +:+ itoaNat mergeIndex +:+ "]" in
  if missing nodeByID sourceID || negb (outputSchemaOfValueProducer (nodeAt nodeByID sourceID)).2 then
    [diag at_path sourceID "merge input value producer does not exist"]
  else diagIf (negb (bool_decide (sourceID ∈ upstream)))
    (diag at_path sourceID "merge input is not an upstream step").

Definition stepDiagnostics (spec : WorkflowSpec) (nodeByID : gmap string GraphNode) (st : edgeScan)
    (x : nat * GraphNode) : list Diagnostic :=
  let '(index, node) := x in
  if negb (isKind NodeKindStep node) then [] else
  let path := nodePath index in
  let inbound := at_ (es_inbound st) (gn_ID node) in
  let upstream := default ∅ (es_upstream st !! gn_ID node) in
  let merges := gn_MergeInputs node in
  diagIf (missing (ws_Schemas spec) (gn_InputSchema node))
    (diag (path +:+ ".inputSchema") (gn_InputSchema node) "input schema reference does not exist") ++
  diagIf (missing (ws_Schemas spec) (gn_OutputSchema node))
    (diag (path +:+ ".outputSchema") (gn_OutputSchema node) "output schema reference does not exist") ++
  diagIf (missing (ws_Symbols spec) (gn_SymbolRef node))
    (diag (path +:+ ".symbolRef") (gn_SymbolRef node) "symbol reference does not exist") ++
  diagIf (missing (ws_Contracts spec) (gn_ContractRef node))
    (diag (path +:+ ".contractRef") (gn_ContractRef node) "contract reference does not exist") ++
  (indexed merges ≫= mergeInputDiagnostics nodeByID upstream path) ++
  diagIf ((length merges =? 0)%nat && (1 <? length inbound)%nat)
    (diag (path +:+ ".mergeInputs") (gn_ID node) "step with multiple inbound edges must declare mergeInputs") ++
  if (0 <? length merges)%nat then
    if negb (length merges =? length inbound)%nat then
      [diag (path +:+ ".mergeInputs") (gn_ID node) "mergeInputs must exactly match inbound edges"]
    else
      duplicateSources path ∅ merges ++
      (inbound ≫= λ sourceID, diagIf (negb (bool_decide (sourceID ∈ merges)))
        (diag (path +:+ ".mergeInputs") sourceID "mergeInputs must exactly match inbound edges"))
  else [].

(** ** The interface to the schema comparison; the instance is in SchemaMatch *)
Class SchemaRules := {
  schemaAdmitsObject : string → bool;
  arraySchemaItemsExactlyMatch : string → string → bool;
  MapOutcomeListSchemaMatches : string → string → bool;
}.

Section Validate.
Context `{SR : SchemaRules} (NumberToJSON : spec_float → result string) (sha256Hex : string → string).
(** [reference.ParseNormalizedNamed]: the digest of the reference it parses, if any;
    and the embedded run-outcome schema. *)
Context (ParseNormalizedNamed : string → result (option string)) (RunOutcomeSchemaJSON : string).

(** ** Exit hooks *)

(** One row of the table of fixed schemas. *)
Definition fixedSchemaDiagnostics (spec : WorkflowSpec) (field reference fixed : string) : list Diagnostic :=
  match ws_Schemas spec !! reference with
  | None => [diag ("$.graph.exitHook." +:+ field) reference "schema reference does not exist"]
  | Some schema =>
      diagIf
        match CanonicalizeJSON NumberToJSON schema, CanonicalizeJSON NumberToJSON fixed with
        | Ok actual, Ok expected => negb (bool_decide (actual = expected))
        | _, _ => true
        end
        (diag ("$.graph.exitHook." +:+ field) reference
          "exit hooks take the run-outcome schema (conformance/schema/run-outcome.schema.json) and return null")
  end.

Definition ValidateExitHook (spec : WorkflowSpec) (nodeByID : gmap string GraphNode) : list Diagnostic :=
  match gr_ExitHook (ws_Graph spec) with
  | None => []
  | Some hook =>
      diagIf (negb (missing nodeByID (gn_ID hook)))
        (diag "$.graph.exitHook.id" (gn_ID hook) "exit hook id must differ from every graph node id") ++
      fixedSchemaDiagnostics spec "inputSchema" (gn_InputSchema hook) RunOutcomeSchemaJSON ++
      fixedSchemaDiagnostics spec "outputSchema" (gn_OutputSchema hook) (quoted "{'type':'null'}") ++
      diagIf (missing (ws_Symbols spec) (gn_SymbolRef hook))
        (diag "$.graph.exitHook.symbolRef" (gn_SymbolRef hook) "symbol reference does not exist") ++
      match ws_Contracts spec !! gn_ContractRef hook with
      | None => [diag "$.graph.exitHook.contractRef" (gn_ContractRef hook) "contract reference does not exist"]
      | Some contract =>
          diagIf match ec_Retry contract with Some r => 1 <? rp_MaxAttempts r | None => false end
            (diag "$.graph.exitHook.contractRef" (gn_ContractRef hook)
              "exit hooks run once; their contract must not retry") ++
          diagIf (ec_TimeoutSeconds contract =? 0)
            (diag "$.graph.exitHook.contractRef" (gn_ContractRef hook)
              "exit hooks require a finite timeoutSeconds; rebuild the workflow")
      end
  end.

(** ** Maps *)
Definition validateMapOutputSchema (node : GraphNode) (schemas : gmap string string) (path : string)
    : list Diagnostic :=
  match schemas !! gn_OutputSchema node, schemas !! gn_ItemOutputSchema node with
  | Some outputSchema, Some itemOutputSchema =>
      if bool_decide (gn_ItemFailures node = MapItemFailuresCollect) then
        diagIf (negb (MapOutcomeListSchemaMatches outputSchema itemOutputSchema))
          (diag (path +:+ ".outputSchema") (gn_OutputSchema node)
            "a map that collects item failures must output an array of item outcomes wrapping itemOutputSchema")
      else if bool_decide (gn_ItemFailures node = "") then
        diagIf (negb (arraySchemaItemsExactlyMatch outputSchema itemOutputSchema))
          (diag (path +:+ ".outputSchema") (gn_OutputSchema node)
            "map outputSchema must be an array whose items exactly equal itemOutputSchema")
      else []
  | _, _ => []
  end.

Definition mapTargetDiagnostics (spec : WorkflowSpec) (nodeByID : gmap string GraphNode)
    (node : GraphNode) (path targetID : string) : list Diagnostic :=
  let target := nodeAt nodeByID targetID in
  if isKind NodeKindSelect target then []
  else if (0 <? length (gn_MergeInputs target))%nat then []
  else
    let '(targetSchema, consumesValue) := graphValueInputSchema target (wf_OutputSchema (ws_Workflow spec)) in
    if negb consumesValue then
      [diag (path +:+ ".outputSchema") targetID "map output must target a value consumer"]
    else diagIf (negb (bool_decide (targetSchema = gn_OutputSchema node)))
      (diag (path +:+ ".outputSchema") targetID "map outputSchema must exactly equal each downstream input schema").

(** The predecessor check; [None] is the [continue] of a predecessor that does not
    exist, which skips the targets. *)
Definition mapPredecessorDiagnostics (spec : WorkflowSpec) (nodeByID : gmap string GraphNode)
    (node : GraphNode) (path : string) (inbound : list string) : option (list Diagnostic) :=
  match inbound with
  | [predecessor] =>
      match nodeByID !! predecessor with
      | None => None
      | Some source =>
          let '(sourceSchema, producesValue) :=
            graphValueOutputSchema source (wf_InputSchema (ws_Workflow spec)) in
          Some (if negb producesValue then
            [diag (path +:+ ".inputSchema") (gn_ID source) "map predecessor must produce a value"]
          else diagIf (negb (bool_decide (sourceSchema = gn_InputSchema node)))
            (diag (path +:+ ".inputSchema") (gn_ID source)
              "map inputSchema must exactly equal its predecessor output schema"))
      end
  | _ => Some [diag (path +:+ ".inputSchema") (gn_ID node) "map requires exactly one predecessor"]
  end.

Definition mapNodeDiagnostics (spec : WorkflowSpec) (nodeByID : gmap string GraphNode)
    (inbound outbound : gmap string (list string)) (x : nat * GraphNode) : list Diagnostic :=
  let '(index, node) := x in
  if negb (isKind NodeKindMap node) then [] else
  let path := nodePath index in
  let schemas := ws_Schemas spec in
  ([("inputSchema", gn_InputSchema node); ("itemInputSchema", gn_ItemInputSchema node);
    ("itemOutputSchema", gn_ItemOutputSchema node); ("outputSchema", gn_OutputSchema node)]
    ≫= λ '(name, ref), diagIf (missing schemas ref)
      (diag (path +:+ "." +:+ name) ref "map schema reference does not exist")) ++
  diagIf (missing (ws_Symbols spec) (gn_SymbolRef node))
    (diag (path +:+ ".symbolRef") (gn_SymbolRef node) "symbol reference does not exist") ++
  diagIf (missing (ws_Contracts spec) (gn_ContractRef node))
    (diag (path +:+ ".contractRef") (gn_ContractRef node) "contract reference does not exist") ++
  diagIf (gn_MaxConcurrency node =? 0)
    (diag (path +:+ ".maxConcurrency") (gn_ID node) "map maxConcurrency must be positive") ++
  diagIf
    match schemas !! gn_InputSchema node, schemas !! gn_ItemInputSchema node with
    | Some input, Some item => negb (arraySchemaItemsExactlyMatch input item)
    | _, _ => false
    end
    (diag (path +:+ ".inputSchema") (gn_InputSchema node)
      "map inputSchema must be an array whose items exactly equal itemInputSchema") ++
  validateMapOutputSchema node schemas path ++
  match mapPredecessorDiagnostics spec nodeByID node path (at_ inbound (gn_ID node)) with
  | None => []
  | Some ds => ds ++ (at_ outbound (gn_ID node) ≫= mapTargetDiagnostics spec nodeByID node path)
  end.

Definition validateMapSemantics (spec : WorkflowSpec) (nodeByID : gmap string GraphNode)
    (inbound outbound : gmap string (list string)) : list Diagnostic :=
  indexed (gr_Nodes (ws_Graph spec)) ≫= mapNodeDiagnostics spec nodeByID inbound outbound.

(** ** Contracts, environments, packages and symbols *)
Definition contractDiagnostics (spec : WorkflowSpec) (x : string * ExecutionContract) : list Diagnostic :=
  let '(contractRef, contract) := x in
  diagIf (missing (ws_Environments spec) (ec_EnvironmentRef contract))
    (diag ("$.contracts." +:+ contractRef +:+ ".environmentRef") (ec_EnvironmentRef contract)
      "contract environment reference does not exist") ++
  diagIf match ec_Retry contract with Some r => rp_MaxDelaySeconds r <? rp_DelaySeconds r | None => false end
    (diag ("$.contracts." +:+ contractRef +:+ ".retry.maxDelaySeconds") contractRef
      "retry maxDelaySeconds must be at least delaySeconds").

(** [containerimage.ValidatePinned] *)
Definition ValidatePinned (image : string) : option error :=
  match ParseNormalizedNamed image with
  | Err e => Some (Errorf "container image must be an immutable image digest reference: %w" [AWrap e])
  | Ok pinned =>
      if match pinned with Some digest => negb (IsSHA256Ref digest) | None => true end
      then Some (ErrNew "container image must be an immutable image digest reference using sha256")
      else None
  end.

Definition validateContainerRecipe (environmentRef : string) (environment : Environment) : list Diagnostic :=
  if negb (bool_decide (en_Kind environment = "container")) then [] else
  let path := "$.environments." +:+ environmentRef in
  diagIf (bool_decide (en_Platform environment = ""))
    (diag (path +:+ ".platform") "" "container recipe requires platform") ++
  match ValidatePinned (en_Image environment) with
  | Some err => [diag (path +:+ ".image") (en_Image environment) (errorText err)]
  | None => []
  end.

Definition packageDiagnostics (spec : WorkflowSpec) (packageRef : string) : list Diagnostic :=
  match ws_SourcePackages spec !! packageRef with
  | None => []
  | Some sourcePackage =>
      diagIf (negb (bool_decide (sp_PackageID sourcePackage = packageRef)))
        (diag ("$.sourcePackages." +:+ packageRef +:+ ".packageId") (sp_PackageID sourcePackage)
          "source package id must match map key") ++
      let files := map (λ f, {| fi_Path := sf_Path f; fi_Hash := sf_Hash f |}) (sp_Files sourcePackage) in
      match Digest NumberToJSON sha256Hex files with
      | Err err => [diag ("$.sourcePackages." +:+ packageRef +:+ ".packageHash")
          (sp_PackageHash sourcePackage) (errorText err)]
      | Ok recomputed =>
          diagIf (negb (bool_decide (recomputed = sp_PackageHash sourcePackage)))
            (diag ("$.sourcePackages." +:+ packageRef +:+ ".packageHash") (sp_PackageHash sourcePackage)
              "source package hash does not match the versioned file manifest")
      end
  end.

Definition symbolDiagnostics (spec : WorkflowSpec) (x : string * Symbol) : list Diagnostic :=
  let '(symbolRef, symbol) := x in
  diagIf (missing (ws_SourcePackages spec) (sy_PackageID symbol))
    (diag ("$.symbols." +:+ symbolRef +:+ ".packageId") (sy_PackageID symbol)
      "symbol package reference does not exist").
End Validate.

(** ** Empty reports *)
Lemma diagIf_nil b d : diagIf b d = [] ↔ b = false.
Proof. by destruct b. Qed.
Lemma missing_false {A} (m : gmap string A) k : missing m k = false ↔ is_Some (m !! k).
Proof. unfold missing. rewrite bool_decide_eq_false. destruct (m !! k); naive_solver. Qed.
