(* ===== verification/Decisions.v ===== *)
(** * Decision and select semantics

    [validateDecisionAndSelectSemantics] of [internal/spec/spec.go] with the two passes
    it ends in: [validateExclusiveDecisionBranches] and
    [validateDecisionActivationLineage]. *)

From S2P Require Import Prelude Utf16 Text SpecTypes Kahn Reach SpecGraph Validate.
#[local] Open Scope Z_scope.

(** ** Activation lineage *)

(** The decision cases a node needs: [map[string]string] from decision to tag. *)
Abbreviation lineage := (gmap string string).

(** [lineage[decisionID] = tag] for every requirement not already present with another
    tag: what is there stays. *)
Definition mergeLineage (acc other : lineage) : lineage := acc ∪ other.

Definition inboundLineage (lineages : gmap string lineage) (acc : lineage) (edge : GraphEdge) : lineage :=
  let merged := mergeLineage acc (default ∅ (lineages !! ge_From edge)) in
  if bool_decide (ge_Case edge = "") then merged else <[ge_From edge := ge_Case edge]> merged.

Definition activationLineagesEqual (actual expected : lineage) : bool :=
  (size actual =? size expected)%nat &&
  forallb (λ '(decisionID, tag), bool_decide (default "" (actual !! decisionID) = tag)) (map_to_list expected).

Definition activationLineageDiagnostic (actual expected : lineage) : string :=
  let extras := sortedKeys actual ≫= λ decisionID,
    let tag := default "" (actual !! decisionID) in
    if bool_decide (default "" (expected !! decisionID) = tag) then []
    else [decisionID +:+ "=" +:+ goQuote tag] in
  match extras with
  | _ :: _ =>
      "select input source has unresolved nested decision requirement " +:+ joinStrings ", " extras +:+
      "; select nested decision outputs before using them in an enclosing select"
  | [] => "select input source activation lineage must exactly match its decision case lineage"
  end.

(** The inner loop over [node.SelectInputs]. *)
Definition selectLineageDiagnostics (lineages : gmap string lineage) (enclosing : lineage)
    (decisionRef : string) (nodeIndex : nat) (x : nat * SelectInput) : list Diagnostic :=
  let '(inputIndex, input) := x in
  match lineages !! si_Source input with
  | None => []
  | Some actual =>
      let expected := <[decisionRef := si_Case input]> enclosing in
      diagIf (negb (activationLineagesEqual actual expected))
        (diag ("$.graph.nodes[" +:+ itoaNat nodeIndex +:+ "].selectInputs[" +:+ itoaNat inputIndex +:+ "].source")
          (si_Source input) (activationLineageDiagnostic actual expected))
  end.

(** One node of the topological order. *)
Definition lineageStep (nodeByID : gmap string GraphNode) (nodeIndexes : gmap string nat)
    (inbound : gmap string (list GraphEdge)) (st : gmap string lineage * list Diagnostic)
    (nodeID : string) : gmap string lineage * list Diagnostic :=
  let '(lineages, diagnostics) := st in
  match nodeByID !! nodeID with
  | None => st
  | Some node =>
      if isKind NodeKindSelect node then
        match lineages !! gn_DecisionRef node with
        | None => st
        | Some enclosing =>
            let lineages' := <[nodeID := enclosing]> lineages in
            (lineages', diagnostics ++
              (indexed (gn_SelectInputs node) ≫=
                selectLineageDiagnostics lineages' enclosing (gn_DecisionRef node)
                  (default 0%nat (nodeIndexes !! nodeID))))
        end
      else (<[nodeID := foldl (inboundLineage lineages) ∅ (at_ inbound nodeID)]> lineages, diagnostics)
  end.

Definition inboundEdges (edges : list GraphEdge) : gmap string (list GraphEdge) :=
  foldl (λ m edge, appendAt (ge_To edge) edge m) ∅ edges.

Definition validateDecisionActivationLineage (graph : Graph) (nodeByID : gmap string GraphNode)
    (nodeIndexes : gmap string nat) : list Diagnostic :=
  let '(order, complete) := graphTopologicalOrder (gr_Nodes graph) (gr_Edges graph) in
  if negb complete then [] else
  (foldl (lineageStep nodeByID nodeIndexes (inboundEdges (gr_Edges graph))) (∅, []) order).2.

(** ** Exclusive branches *)
Definition selectsByDecision (nodes : list GraphNode) : gmap string (list string) :=
  foldl (λ m node, if isKind NodeKindSelect node then appendAt (gn_DecisionRef node) (gn_ID node) m else m)
    ∅ nodes.

(** The cases whose branch reaches each node before the select. *)
Definition branchOwners (edges : list GraphEdge) (selectID : string) (targets : gmap string string)
    (owners : gmap string (list string)) (tag : string) : gmap string (list string) :=
  let root := default "" (targets !! tag) in
  if bool_decide (root = "") then owners
  else foldl (λ m nodeID, appendAt nodeID tag m) owners
    (elements (graphReachableBefore root selectID edges)).

Definition exclusiveDecision (graph : Graph) (decisionCases : gmap string (gmap string bool))
    (branchTargets : gmap string (gmap string string)) (nodeIndexes : gmap string nat)
    (decisionID : string) : list Diagnostic :=
  let indexOf id := default 0%nat (nodeIndexes !! id) in
  match at_ (selectsByDecision (gr_Nodes graph)) decisionID with
  | [selectID] =>
      let tags := sortedKeys (default ∅ (decisionCases !! decisionID)) in
      let owners := foldl
        (branchOwners (gr_Edges graph) selectID (default ∅ (branchTargets !! decisionID))) ∅ tags in
      sortedKeys owners ≫= λ nodeID,
        diagIf (negb (length (at_ owners nodeID) <? 2)%nat)
          (diag (nodePath (indexOf nodeID)) nodeID
            ("decision " +:+ goQuote decisionID +:+ " cases may converge only through select " +:+ goQuote selectID))
  | _ => [diag (nodePath (indexOf decisionID)) decisionID "decision requires exactly one select node"]
  end.

Definition validateExclusiveDecisionBranches (graph : Graph)
    (decisionCases : gmap string (gmap string bool)) (branchTargets : gmap string (gmap string string))
    (nodeIndexes : gmap string nat) : list Diagnostic :=
  sortedKeys decisionCases ≫= exclusiveDecision graph decisionCases branchTargets nodeIndexes.

(** ** Decisions *)
Record caseScan := {
  cs_diagnostics : list Diagnostic;
  cs_tags : gmap string bool;
  cs_schemas : gmap string string;
}.

Section Decisions.
Context `{SR : SchemaRules}.

(** The schema of a decision input or case must exist and admit an object. *)
Definition objectSchemaDiagnostics (schemas : gmap string string) (path ref absent notObject : string)
    : list Diagnostic :=
  match schemas !! ref with
  | None => [diag path ref absent]
  | Some schema => diagIf (negb (schemaAdmitsObject schema)) (diag path ref notObject)
  end.

Definition scanCase (schemas : gmap string string) (path : string) (st : caseScan)
    (x : nat * DecisionCase) : caseScan :=
  let '(caseIndex, decisionCase) := x in
  let casePath := path +:+ ".cases[" +:+ itoaNat caseIndex +:+ "]" in
  let tag := dc_Tag decisionCase in
  if boolAt (cs_tags st) tag then
    {| cs_diagnostics := cs_diagnostics st ++ [diag (casePath +:+ ".tag") tag "decision case tags must be unique"];
       cs_tags := cs_tags st; cs_schemas := cs_schemas st |}
  else
    {| cs_diagnostics := cs_diagnostics st ++
         objectSchemaDiagnostics schemas (casePath +:+ ".schema") (dc_Schema decisionCase)
           "decision case schema reference does not exist"
           "decision case schema must admit the routed JSON object";
       cs_tags := <[tag := true]> (cs_tags st);
       cs_schemas := <[tag := dc_Schema decisionCase]> (cs_schemas st) |}.

Definition scanCases (schemas : gmap string string) (path : string) (cases : list DecisionCase) : caseScan :=
  foldl (scanCase schemas path) {| cs_diagnostics := []; cs_tags := ∅; cs_schemas := ∅ |} (indexed cases).

Definition decisionProducerDiagnostics (graph : Graph) (nodeByID : gmap string GraphNode)
    (node : GraphNode) (path : string) : list Diagnostic :=
  match filter (λ e, ge_To e = gn_ID node) (gr_Edges graph) with
  | [edge] =>
      let '(producerSchema, valueProducer) := outputSchemaOfValueProducer (nodeAt nodeByID (ge_From edge)) in
      if missing nodeByID (ge_From edge) || negb valueProducer || negb (bool_decide (ge_Case edge = "")) then
        [diag (path +:+ ".inputSchema") (ge_From edge)
          "decision requires exactly one inbound value producer (step or select)"]
      else diagIf (negb (bool_decide (producerSchema = gn_InputSchema node)))
        (diag (path +:+ ".inputSchema") (ge_From edge)
          "decision input schema must equal its sole producer output schema")
  | _ => [diag (path +:+ ".inputSchema") (gn_ID node) "decision requires exactly one inbound value producer"]
  end.

Record decisionScan := {
  ds_diagnostics : list Diagnostic;
  ds_cases : gmap string (gmap string bool);
  ds_caseSchemas : gmap string (gmap string string);
}.

Definition scanDecision (graph : Graph) (schemas : gmap string string) (nodeByID : gmap string GraphNode)
    (st : decisionScan) (x : nat * GraphNode) : decisionScan :=
  let '(index, node) := x in
  if negb (isKind NodeKindDecision node) then st else
  let path := nodePath index in
  let cs := scanCases schemas path (gn_Cases node) in
  {| ds_diagnostics := ds_diagnostics st ++
       objectSchemaDiagnostics schemas (path +:+ ".inputSchema") (gn_InputSchema node)
         "decision input schema reference does not exist"
         "decision input must be a JSON object carrying its selector" ++
       cs_diagnostics cs ++ decisionProducerDiagnostics graph nodeByID node path;
     ds_cases := <[gn_ID node := cs_tags cs]> (ds_cases st);
     ds_caseSchemas := <[gn_ID node := cs_schemas cs]> (ds_caseSchemas st) |}.

Definition scanDecisions (graph : Graph) (schemas : gmap string string)
    (nodeByID : gmap string GraphNode) : decisionScan :=
  foldl (scanDecision graph schemas nodeByID)
    {| ds_diagnostics := []; ds_cases := ∅; ds_caseSchemas := ∅ |} (indexed (gr_Nodes graph)).

(** ** Conditional edges *)
Record branchScan := {
  bs_diagnostics : list Diagnostic;
  bs_counts : gmap string (gmap string Z);
  bs_targets : gmap string (gmap string string);
  bs_conditionalTargets : gmap string (list nat);
}.

Definition branchDiag (ds : list Diagnostic) (st : branchScan) : branchScan :=
  {| bs_diagnostics := bs_diagnostics st ++ ds; bs_counts := bs_counts st; bs_targets := bs_targets st;
     bs_conditionalTargets := bs_conditionalTargets st |}.

Definition scanBranch (nodeByID : gmap string GraphNode) (nodeIndexes : gmap string nat) (dec : decisionScan)
    (st : branchScan) (x : nat * GraphEdge) : branchScan :=
  let '(edgeIndex, edge) := x in
  let path := edgePath edgeIndex in
  let isDecision := match nodeByID !! ge_From edge with Some n => isKind NodeKindDecision n | None => false end in
  if bool_decide (ge_Case edge = "") then
    branchDiag (diagIf isDecision (diag path (ge_From edge +:+ " -> " +:+ ge_To edge)
      "decision outputs require a conditional edge case")) st
  else if negb isDecision then
    branchDiag [diag (path +:+ ".case") (ge_Case edge) "conditional edge source must be a decision node"] st
  else if negb (default false (at2 (ds_cases dec) (ge_From edge) (ge_Case edge))) then
    branchDiag [diag (path +:+ ".case") (ge_Case edge) "conditional edge case is not declared by its decision"] st
  else
    let caseSchema := default "" (at2 (ds_caseSchemas dec) (ge_From edge) (ge_Case edge)) in
    let ds := match nodeByID !! ge_To edge with
      | None => []
      | Some target =>
          if negb (isKind NodeKindStep target) then
            [diag (path +:+ ".to") (ge_To edge) "conditional edge target must be a step node"]
          else diagIf (negb (bool_decide (gn_InputSchema target = caseSchema)))
            (diag (nodePath (default 0%nat (nodeIndexes !! ge_To edge)) +:+ ".inputSchema") (ge_To edge)
              "conditional target input schema must equal decision case schema")
      end in
    let count := default 0 (at2 (bs_counts st) (ge_From edge) (ge_Case edge)) in
    let target := default "" (at2 (bs_targets st) (ge_From edge) (ge_Case edge)) in
    {| bs_diagnostics := bs_diagnostics st ++ ds;
       bs_counts := put2 (ge_From edge) (ge_Case edge) (count + 1) (bs_counts st);
       bs_targets := if bool_decide (target = "")
         then put2 (ge_From edge) (ge_Case edge) (ge_To edge) (bs_targets st) else bs_targets st;
       bs_conditionalTargets := appendAt (ge_To edge) edgeIndex (bs_conditionalTargets st) |}.

Definition scanBranches (graph : Graph) (nodeByID : gmap string GraphNode) (nodeIndexes : gmap string nat)
    (dec : decisionScan) : branchScan :=
  foldl (scanBranch nodeByID nodeIndexes dec)
    {| bs_diagnostics := []; bs_counts := ∅; bs_targets := ∅; bs_conditionalTargets := ∅ |}
    (indexed (gr_Edges graph)).

Definition sharedTargetDiagnostics (st : branchScan) : list Diagnostic :=
  sortedKeys (bs_conditionalTargets st) ≫= λ target,
    let indexes := at_ (bs_conditionalTargets st) target in
    if (length indexes <? 2)%nat then []
    else map (λ edgeIndex, diag (edgePath edgeIndex +:+ ".to") target
      "conditional branches may not share a target") indexes.

Definition caseCountDiagnostics (nodeIndexes : gmap string nat) (dec : decisionScan) (st : branchScan)
    : list Diagnostic :=
  sortedKeys (ds_cases dec) ≫= λ decisionID,
    sortedKeys (default ∅ (ds_cases dec !! decisionID)) ≫= λ tag,
      diagIf (negb (default 0 (at2 (bs_counts st) decisionID tag) =? 1))
        (diag (nodePath (default 0%nat (nodeIndexes !! decisionID)) +:+ ".cases") tag
          "each decision case requires exactly one conditional outgoing edge").

(** ** Selects *)
Record selectScan := {
  ss_diagnostics : list Diagnostic;
  ss_cases : gmap string bool;
  ss_sources : gmap string bool;
}.

Definition selectSourceDiagnostics (nodeByID : gmap string GraphNode) (node : GraphNode) (path source : string)
    : list Diagnostic :=
  let n := nodeAt nodeByID source in
  if missing nodeByID source || (negb (isKind NodeKindStep n) && negb (isKind NodeKindSelect n) && negb (isKind NodeKindMap n))
  then [diag path source "select input source must reference a value-producing step, select, or map node"]
  else diagIf (negb (bool_decide (gn_OutputSchema n = gn_OutputSchema node)))
    (diag path source "select source output schema must equal select output schema").

(** [declaredSources] and [selectedSources] hold the same keys: one map models both. *)
Definition scanSelectInput (graph : Graph) (nodeByID : gmap string GraphNode) (node : GraphNode)
    (decisionExists : bool) (tags : gmap string bool) (targets : gmap string string) (path : string)
    (st : selectScan) (x : nat * SelectInput) : selectScan :=
  let '(inputIndex, input) := x in
  let inputPath := path +:+ ".selectInputs[" +:+ itoaNat inputIndex +:+ "]" in
  let branchTarget := default "" (targets !! si_Case input) in
  {| ss_diagnostics := ss_diagnostics st ++
       diagIf (boolAt (ss_cases st) (si_Case input))
         (diag (inputPath +:+ ".case") (si_Case input) "select input cases must be unique") ++
       diagIf (decisionExists && negb (boolAt tags (si_Case input)))
         (diag (inputPath +:+ ".case") (si_Case input) "select input case is not declared by its decision") ++
       diagIf (boolAt (ss_sources st) (si_Source input))
         (diag (inputPath +:+ ".source") (si_Source input) "select input sources must be unique") ++
       selectSourceDiagnostics nodeByID node (inputPath +:+ ".source") (si_Source input) ++
       diagIf (negb (bool_decide (branchTarget = "")) &&
           negb (graphReachable branchTarget (si_Source input) (gr_Edges graph)))
         (diag (inputPath +:+ ".source") (si_Source input)
           "select input source must be reachable from its decision case branch");
     ss_cases := <[si_Case input := true]> (ss_cases st);
     ss_sources := <[si_Source input := true]> (ss_sources st) |}.

(** The names of [a] that [b] does not hold, in order. *)
Definition uncovered (a b : gmap string bool) (path message : string) : list Diagnostic :=
  sortedKeys a ≫= λ name, diagIf (negb (boolAt b name)) (diag path name message).

Definition selectEdgeDiagnostics (node : GraphNode) (x : nat * GraphEdge) : list Diagnostic :=
  let '(edgeIndex, edge) := x in
  diagIf (bool_decide (ge_To edge = gn_ID node) && negb (bool_decide (ge_Case edge = "")))
    (diag (edgePath edgeIndex +:+ ".case") (ge_Case edge) "select inputs require ordinary source edges").

Definition actualSources (graph : Graph) (node : GraphNode) : gmap string bool :=
  foldl (λ m edge, <[ge_From edge := true]> m) ∅
    (filter (λ e, ge_To e = gn_ID node ∧ ge_Case e = "") (gr_Edges graph)).

Definition selectDiagnostics (graph : Graph) (schemas : gmap string string)
    (nodeByID : gmap string GraphNode) (dec : decisionScan) (br : branchScan) (x : nat * GraphNode)
    : list Diagnostic :=
  let '(index, node) := x in
  if negb (isKind NodeKindSelect node) then [] else
  let path := nodePath index in
  let decisionExists := negb (missing nodeByID (gn_DecisionRef node)) in
  let tags := default ∅ (ds_cases dec !! gn_DecisionRef node) in
  let st := foldl (scanSelectInput graph nodeByID node decisionExists tags
      (default ∅ (bs_targets br !! gn_DecisionRef node)) path)
    {| ss_diagnostics := []; ss_cases := ∅; ss_sources := ∅ |} (indexed (gn_SelectInputs node)) in
  let actual := actualSources graph node in
  diagIf (notOfKind nodeByID (gn_DecisionRef node) NodeKindDecision)
    (diag (path +:+ ".decisionRef") (gn_DecisionRef node) "select decisionRef must reference a decision node") ++
  diagIf (missing schemas (gn_OutputSchema node))
    (diag (path +:+ ".outputSchema") (gn_OutputSchema node) "select output schema reference does not exist") ++
  ss_diagnostics st ++
  (if decisionExists then
     uncovered tags (ss_cases st) (path +:+ ".selectInputs") "select inputs must exactly cover decision case tags" ++
     uncovered (ss_cases st) tags (path +:+ ".selectInputs") "select inputs must exactly cover decision case tags"
   else []) ++
  (indexed (gr_Edges graph) ≫= selectEdgeDiagnostics node) ++
  uncovered (ss_sources st) actual (path +:+ ".selectInputs") "select input sources must exactly match inbound edges" ++
  uncovered actual (ss_sources st) (path +:+ ".selectInputs") "select input sources must exactly match inbound edges".

Definition validateDecisionAndSelectSemantics (graph : Graph) (schemas : gmap string string)
    (nodeByID : gmap string GraphNode) (nodeIndexes : gmap string nat) : list Diagnostic :=
  let dec := scanDecisions graph schemas nodeByID in
  let br := scanBranches graph nodeByID nodeIndexes dec in
  ds_diagnostics dec ++ bs_diagnostics br ++ sharedTargetDiagnostics br ++
  caseCountDiagnostics nodeIndexes dec br ++
  (indexed (gr_Nodes graph) ≫= selectDiagnostics graph schemas nodeByID dec br) ++
  validateExclusiveDecisionBranches graph (ds_cases dec) (bs_targets br) nodeIndexes ++
  validateDecisionActivationLineage graph nodeByID nodeIndexes.
End Decisions.

(** ** Exhaustive decisions *)
Section Exhaustive.
Context `{SR : SchemaRules} (graph : Graph) (schemas : gmap string string).
Context (nodeByID : gmap string GraphNode) (nodeIndexes : gmap string nat).

Lemma scanCases_spec path cases :
  cs_diagnostics (scanCases schemas path cases) = [] →
  NoDup (map dc_Tag cases) ∧
  ∀ tag, boolAt (cs_tags (scanCases schemas path cases)) tag = true ↔ tag ∈ map dc_Tag cases.
Proof.
  induction cases as [|c cases IH] using rev_ind.
  { intros _. split; [constructor|]. intros tag. split; [done|by inversion 1]. }
  unfold scanCases, indexed in *. rewrite imap_app, foldl_app. simpl.
  set (st := foldl _ _ _) in *. unfold scanCase.
  destruct (boolAt (cs_tags st) (dc_Tag c)) eqn:E; simpl.
  { intros H. by apply app_nil in H as [_ ?]. }
  intros [Hnil _]%app_nil. destruct (IH Hnil) as [Hnd Htags]. rewrite map_app. split.
  - apply NoDup_app. split_and!; [done| |apply NoDup_singleton].
    intros t Ht ->%list_elem_of_singleton. apply Htags in Ht. congruence.
  - intros tag. unfold boolAt. rewrite elem_of_app. simpl. rewrite list_elem_of_singleton.
    destruct (decide (dc_Tag c = tag)) as [<-|Hne].
    + rewrite lookup_insert_eq. naive_solver.
    + rewrite lookup_insert_ne by done. fold (boolAt (cs_tags st) tag). rewrite Htags. naive_solver.
Qed.

Definition declares (dec : decisionScan) (id tag : string) : bool := default false (at2 (ds_cases dec) id tag).

Lemma scanDecisions_spec nodes :
  NoDup (map gn_ID nodes) →
  let dec := foldl (scanDecision graph schemas nodeByID)
    {| ds_diagnostics := []; ds_cases := ∅; ds_caseSchemas := ∅ |} (indexed nodes) in
  ds_diagnostics dec = [] →
  (∀ n, n ∈ nodes → gn_Kind n = NodeKindDecision →
    NoDup (map dc_Tag (gn_Cases n)) ∧ ∀ tag, declares dec (gn_ID n) tag = true ↔ tag ∈ map dc_Tag (gn_Cases n)) ∧
  (∀ id, is_Some (ds_cases dec !! id) → ∃ n, n ∈ nodes ∧ gn_ID n = id ∧ gn_Kind n = NodeKindDecision).
Proof.
  induction nodes as [|node nodes IH] using rev_ind; intros Hnd; cbv zeta.
  { intros _. split; [by inversion 1|]. by intros id []. }
  rewrite map_app in Hnd. apply NoDup_app in Hnd as (Hnd & Hdis & _).
  unfold indexed in *. rewrite imap_app, foldl_app. simpl.
  set (dec := foldl _ _ _) in *. specialize (IH Hnd). cbv zeta in IH.
  assert (∀ n, n ∈ nodes → gn_ID n ≠ gn_ID node) as Hfresh.
  { intros n Hn E. apply (Hdis (gn_ID n)); [by apply (list_elem_of_fmap_2 gn_ID)|rewrite E; left]. }
  unfold scanDecision, isKind. case_bool_decide as Hk; cbn [negb].
  - simpl. set (path := nodePath _). intros [Hnil [_ [Hcs _]%app_nil]%app_nil]%app_nil.
    destruct (IH Hnil) as [Hall Hdom]. destruct (scanCases_spec path _ Hcs) as [Htn Htags]. split.
    + intros n [Hn| ->%list_elem_of_singleton]%elem_of_app Hkn; unfold declares, at2; simpl.
      * rewrite lookup_insert_ne by (intros E; by apply (Hfresh n Hn)). by apply Hall.
      * rewrite lookup_insert_eq. split; [done|]. intros tag. apply Htags.
    + intros id. destruct (decide (gn_ID node = id)) as [<-|Hne].
      * intros _. exists node. split; [|done]. apply elem_of_app. right. left.
      * rewrite lookup_insert_ne by done. intros (n & Hn & Hid)%Hdom. exists n. split; [|done].
        apply elem_of_app. by left.
  - intros Hnil. destruct (IH Hnil) as [Hall Hdom]. split.
    + intros n [Hn| ->%list_elem_of_singleton]%elem_of_app Hkn; [by apply Hall|done].
    + intros id (n & Hn & Hid)%Hdom. exists n. split; [|done]. apply elem_of_app. by left.
Qed.

Definition fromCase (id tag : string) (edges : list GraphEdge) : list GraphEdge :=
  filter (λ e, ge_From e = id ∧ ge_Case e = tag) edges.

Lemma at2_put2 {A} (m : gmap string (gmap string A)) a b x c d :
  at2 (put2 a b x m) c d = if decide (a = c ∧ b = d) then Some x else at2 m c d.
Proof.
  unfold at2, put2. destruct (decide (a = c)) as [<-|Ha].
  - rewrite lookup_insert_eq. simpl. destruct (decide (b = d)) as [<-|Hb].
    + by rewrite lookup_insert_eq, decide_True.
    + rewrite lookup_insert_ne, decide_False by naive_solver. by destruct (m !! a).
  - rewrite lookup_insert_ne by done. by rewrite decide_False by naive_solver.
Qed.

Lemma scanBranches_spec dec edges :
  let br := foldl (scanBranch nodeByID nodeIndexes dec)
    {| bs_diagnostics := []; bs_counts := ∅; bs_targets := ∅; bs_conditionalTargets := ∅ |} (indexed edges) in
  bs_diagnostics br = [] →
  (∀ e n, e ∈ edges → nodeByID !! ge_From e = Some n → gn_Kind n = NodeKindDecision →
    ge_Case e ≠ "" ∧ declares dec (ge_From e) (ge_Case e) = true) ∧
  (∀ id tag, default 0 (at2 (bs_counts br) id tag) =
    if decide (tag = "") then 0 else Z.of_nat (length (fromCase id tag edges))).
Proof.
  induction edges as [|edge edges IH] using rev_ind; cbv zeta.
  { intros _. split; [by inversion 1|]. intros id tag. by case_decide. }
  unfold indexed in *. rewrite imap_app, foldl_app. simpl.
  set (br := foldl _ _ _) in *. cbv zeta in IH.
  set (isDec := match nodeByID !! ge_From edge with Some n => isKind NodeKindDecision n | None => false end).
  assert (∀ n, nodeByID !! ge_From edge = Some n → gn_Kind n = NodeKindDecision → isDec = true) as HisDec.
  { intros n Hn Hk. unfold isDec. rewrite Hn. unfold isKind. by rewrite bool_decide_eq_true_2. }
  unfold scanBranch. fold isDec. case_bool_decide as Ec.
  - unfold branchDiag. simpl. rewrite app_nil, diagIf_nil. intros [Hnil Hno].
    destruct (IH Hnil) as [He Hc]. split.
    + intros e n [Hin| ->%list_elem_of_singleton]%elem_of_app Hn Hk; [by eapply He|].
      rewrite (HisDec n Hn Hk) in Hno. done.
    + intros id tag. rewrite Hc. case_decide; [done|]. unfold fromCase. rewrite filter_app, filter_singleton.
      rewrite decide_False by naive_solver. by rewrite app_nil_r.
  - destruct isDec eqn:Ed; cbn [negb].
    2: { unfold branchDiag. simpl. intros H. by apply app_nil in H as [_ ?]. }
    fold (declares dec (ge_From edge) (ge_Case edge)).
    destruct (declares dec (ge_From edge) (ge_Case edge)) eqn:Edecl; cbn [negb].
    2: { unfold branchDiag. simpl. intros H. by apply app_nil in H as [_ ?]. }
    simpl. intros [Hnil _]%app_nil. destruct (IH Hnil) as [He Hc]. split.
    + intros e n [Hin| ->%list_elem_of_singleton]%elem_of_app Hn Hk; [by eapply He|done].
    + intros id tag. rewrite at2_put2. unfold fromCase. rewrite filter_app, filter_singleton, length_app.
      fold (fromCase id tag edges).
      destruct (decide (ge_From edge = id ∧ ge_Case edge = tag)) as [[<- <-]|Hne].
      * rewrite Hc, !decide_False by done. simpl. lia.
      * rewrite Hc. case_decide; [done|]. cbn [length]. by rewrite Nat.add_0_r.
Qed.

Lemma decision_exhaustive :
  NoDup (map gn_ID (gr_Nodes graph)) → nodeByID = indexBy gn_ID (gr_Nodes graph) →
  validateDecisionAndSelectSemantics graph schemas nodeByID nodeIndexes = [] →
  ∀ node, node ∈ gr_Nodes graph → gn_Kind node = NodeKindDecision →
    NoDup (map dc_Tag (gn_Cases node)) ∧
    (∀ c, c ∈ gn_Cases node → ∃ e, fromCase (gn_ID node) (dc_Tag c) (gr_Edges graph) = [e]) ∧
    (∀ e, e ∈ gr_Edges graph → ge_From e = gn_ID node → ge_Case e ∈ map dc_Tag (gn_Cases node)).
Proof.
  intros Hnd Hby Hv node Hn Hk. unfold validateDecisionAndSelectSemantics in Hv.
  apply app_nil in Hv as [Hdec [Hbr [_ [Hcount _]%app_nil]%app_nil]%app_nil].
  destruct (scanDecisions_spec (gr_Nodes graph) Hnd Hdec) as [Hcases _].
  destruct (Hcases node Hn Hk) as [Htn Htags].
  destruct (scanBranches_spec _ (gr_Edges graph) Hbr) as [Hedges Hcounts].
  split_and!; [done| |].
  - intros c Hc. apply (list_elem_of_fmap_2 dc_Tag) in Hc. apply Htags in Hc.
    unfold caseCountDiagnostics in Hcount. rewrite bind_nil in Hcount.
    unfold declares, at2 in Hc.
    destruct (ds_cases (scanDecisions graph schemas nodeByID) !! gn_ID node) as [tags|] eqn:Et.
    2: { unfold scanDecisions in Et. rewrite Et in Hc. done. }
    specialize (Hcount (gn_ID node)). rewrite elem_of_sortedKeys, bind_nil in Hcount.
    unfold scanDecisions in Et. rewrite Et in Hc. simpl in Hc.
    assert (is_Some (tags !! dc_Tag c)) as Htag by (destruct (tags !! dc_Tag c); [eauto|done]).
    specialize (Hcount ltac:(unfold scanDecisions; rewrite Et; eauto) (dc_Tag c)).
    unfold scanDecisions in Hcount at 1. rewrite Et in Hcount.
    rewrite elem_of_sortedKeys, diagIf_nil, negb_false_iff, Z.eqb_eq in Hcount.
    specialize (Hcount Htag). unfold scanBranches in Hcount. rewrite Hcounts in Hcount.
    case_decide as Ee; [done|].
    destruct (fromCase _ _ _) as [|e [|e' l]] eqn:El; simpl in Hcount; try lia. by exists e.
  - intros e He Hfrom. apply Htags. rewrite <- Hfrom.
    apply (Hedges e node He); [|done]. rewrite Hfrom, Hby. by apply indexBy_NoDup.
Qed.
End Exhaustive.
