(* ===== verification/Semantics.v ===== *)
(** * The whole semantic check

    [validateSemantics] composes the passes of [Validate] and [Decisions]; [Parse] adds
    the check of the recorded hash; [ValidateControlFlow] repeats the control-flow
    passes on a compiled plan's graph. *)

From S2P Require Import Prelude Utf16 Text SpecTypes TopoOrder Kahn Schedule Reach SpecGraph Cycle Json Canonical CanonicalForm SourceIdentity Validate Decisions.
From Stdlib Require Import SpecFloat.
#[local] Open Scope Z_scope.

Section Semantics.
Context `{SR : SchemaRules} (NumberToJSON : spec_float → result string) (sha256Hex : string → string).
Context (ParseNormalizedNamed : string → result (option string)) (RunOutcomeSchemaJSON : string).

(** The graph passes: cycles are searched only in a graph without earlier findings,
    unreachable nodes only in an acyclic one. *)
Definition searchDiagnostics (graph : Graph) (ns : nodeScan) (es : edgeScan) (before : list Diagnostic)
    : list Diagnostic :=
  let adjacency := sortedAdjacency es in
  let afterCycle :=
    match before with
    | [] =>
        match findCycle (gr_Nodes graph) adjacency with
        | Some (c :: cycle) =>
            [diag "$.graph.edges" (joinStrings " -> " (c :: cycle)) "graph contains a directed cycle"]
        | _ => []
        end
    | _ => before
    end in
  match afterCycle with
  | [] => unreachableDiagnostics graph adjacency (ns_nodeByID ns)
  | _ => afterCycle
  end.

Definition graphDiagnostics (graph : Graph) : list Diagnostic :=
  let ns := scanNodes (gr_Nodes graph) in
  let es := scanEdges (ns_nodeByID ns) (gr_Edges graph) in
  searchDiagnostics graph ns es
    (ns_diagnostics ns ++ endpointDiagnostics graph ns ++ es_diagnostics es ++ degreeDiagnostics graph es).

Definition validateSemantics (parsed : WorkflowSpec) : list Diagnostic :=
  let graph := ws_Graph parsed in
  let ns := scanNodes (gr_Nodes graph) in
  let es := scanEdges (ns_nodeByID ns) (gr_Edges graph) in
  graphDiagnostics graph ++
  (indexed (gr_Nodes graph) ≫= stepDiagnostics parsed (ns_nodeByID ns) es) ++
  ValidateExitHook NumberToJSON RunOutcomeSchemaJSON parsed (ns_nodeByID ns) ++
  validateMapSemantics parsed (ns_nodeByID ns) (es_inbound es) (es_outbound es) ++
  validateDecisionAndSelectSemantics graph (ws_Schemas parsed) (ns_nodeByID ns) (ns_nodeIndexes ns) ++
  diagIf (missing (ws_Schemas parsed) (wf_InputSchema (ws_Workflow parsed)))
    (diag "$.workflow.inputSchema" (wf_InputSchema (ws_Workflow parsed))
      "workflow input schema reference does not exist") ++
  diagIf (missing (ws_Schemas parsed) (wf_OutputSchema (ws_Workflow parsed)))
    (diag "$.workflow.outputSchema" (wf_OutputSchema (ws_Workflow parsed))
      "workflow output schema reference does not exist") ++
  (map_to_list (ws_Contracts parsed) ≫= contractDiagnostics parsed) ++
  (map_to_list (ws_Environments parsed) ≫= λ '(ref, env), validateContainerRecipe ParseNormalizedNamed ref env) ++
  (sortedKeys (ws_SourcePackages parsed) ≫= packageDiagnostics NumberToJSON sha256Hex parsed) ++
  (map_to_list (ws_Symbols parsed) ≫= symbolDiagnostics parsed).

Definition RecomputedSpecHash (data : string) : result string :=
  wrapErr "compute spec hash: %w" [] (DigestJSONWithRootMemberExcluded NumberToJSON sha256Hex data "specHash").

(** [Parse] after the schema check and the decoding of [data] into [parsed]. *)
Definition checkParsed (data : string) (parsed : WorkflowSpec) : result WorkflowSpec :=
  recomputed ← RecomputedSpecHash data;
  let diagnostics := validateSemantics parsed ++
    diagIf (negb (bool_decide (ws_SpecHash parsed = recomputed)))
      (diag "$.specHash" (ws_SpecHash parsed)
        ("does not match canonical workflow content; expected " +:+ recomputed)) in
  match diagnostics with
  | [] => Ok parsed
  | _ => Err (DiagnosticsError (map (λ d, (dg_Path d, dg_Ref d, dg_Message d)) diagnostics))
  end.

(** [ValidateControlFlow]; [graphSchema] is the validation of the marshalled graph
    against the graph part of the workflow schema, by a third-party package. *)
Definition ValidateControlFlow (graphSchema : Graph → result unit) (graph : Graph)
    (schemas : gmap string string) : result unit :=
  _ ← wrapErr "compiled graph violates graph schema: %w" [] (graphSchema graph);
  let nodes := indexBy gn_ID (gr_Nodes graph) in
  let indexes := foldl (λ m '(i, n), <[gn_ID n := i]> m) ∅ (indexed (gr_Nodes graph)) in
  let diagnostics := validateDecisionAndSelectSemantics graph schemas nodes indexes ++
    (indexed (gr_Nodes graph) ≫= λ '(index, node),
      if isKind NodeKindMap node then validateMapOutputSchema node schemas (nodePath index) else []) in
  match diagnostics with
  | [] => Ok tt
  | _ => Err (DiagnosticsError (map (λ d, (dg_Path d, dg_Ref d, dg_Message d)) diagnostics))
  end.
End Semantics.

(** ** What an empty list of diagnostics means *)
Lemma scanNodes_snoc nodes node :
  scanNodes (nodes ++ [node]) = scanNode (scanNodes nodes) (length nodes, node).
Proof. unfold scanNodes, indexed. rewrite imap_app, foldl_app. simpl. by rewrite Nat.add_0_r. Qed.

(** Without findings every node is indexed under its own id. *)
Record nodesOk (nodes : list GraphNode) (ns : nodeScan) : Prop := {
  no_nodup : NoDup (map gn_ID nodes);
  no_byID : ns_nodeByID ns = indexBy gn_ID nodes;
  no_indexes : ∀ i n, nodes !! i = Some n → ns_nodeIndexes ns !! gn_ID n = Some i;
  no_starts : ns_startCount ns = Z.of_nat (length (filter (λ n, gn_Kind n = NodeKindStart) nodes));
  no_ends : ns_endCount ns = Z.of_nat (length (filter (λ n, gn_Kind n = NodeKindEnd) nodes));
}.

Lemma scanNodes_spec nodes :
  ns_diagnostics (scanNodes nodes) = [] → nodesOk nodes (scanNodes nodes).
Proof.
  induction nodes as [|node nodes IH] using rev_ind.
  { intros _. split; [constructor|done|done|done|done]. }
  rewrite scanNodes_snoc. unfold scanNode.
  destruct (ns_nodeByID (scanNodes nodes) !! gn_ID node) as [m|] eqn:E; simpl.
  { intros H. by apply app_eq_nil in H as [_ ?]. }
  intros Hnil. destruct (IH Hnil) as [Hnd Hby Hidx Hs He]. rewrite Hby in E.
  assert (gn_ID node ∉ map gn_ID nodes) as Hnew.
  { intros Hin%indexBy_is_Some. rewrite E in Hin. by destruct Hin. }
  split; simpl; rewrite ?map_app, ?indexBy_snoc, ?filter_app, ?length_app.
  - apply NoDup_app. split_and!; [done| |apply NoDup_singleton].
    intros x Hx ->%list_elem_of_singleton. done.
  - by rewrite Hby.
  - intros i n Hn. apply lookup_snoc_Some in Hn as [[Hlt Hn]|[-> <-]].
    + rewrite lookup_insert_ne; [by apply Hidx|]. intros Eq. apply Hnew. rewrite Eq.
      apply (list_elem_of_fmap_2 gn_ID). by eapply list_elem_of_lookup_2.
    + by rewrite lookup_insert_eq.
  - rewrite Hs. unfold isKind, bool_decide. rewrite filter_singleton.
    repeat case_decide; simpl; try done; lia.
  - rewrite He. unfold isKind, bool_decide. rewrite filter_singleton.
    repeat case_decide; simpl; try done; lia.
Qed.

Lemma scanNodes_complete nodes :
  NoDup (map gn_ID nodes) → ns_diagnostics (scanNodes nodes) = [].
Proof.
  induction nodes as [|node nodes IH] using rev_ind; [done|].
  rewrite map_app, NoDup_app. intros (Hnd & Hdis & _). rewrite scanNodes_snoc. unfold scanNode.
  rewrite (no_byID _ _ (scanNodes_spec nodes (IH Hnd))).
  destruct (indexBy gn_ID nodes !! gn_ID node) as [m|] eqn:E; [|by apply IH].
  exfalso. apply (Hdis (gn_ID node)); [apply indexBy_is_Some; eauto|by left].
Qed.

Lemma scanEdges_snoc nodeByID edges edge :
  scanEdges nodeByID (edges ++ [edge]) = scanEdge nodeByID (scanEdges nodeByID edges) (length edges, edge).
Proof. unfold scanEdges, indexed. rewrite imap_app, foldl_app. simpl. by rewrite Nat.add_0_r. Qed.

Definition endpointsKnown (nodeByID : gmap string GraphNode) (edges : list GraphEdge) : Prop :=
  ∀ e, e ∈ edges → is_Some (nodeByID !! ge_From e) ∧ is_Some (nodeByID !! ge_To e).

Record edgesOk (edges : list GraphEdge) (es : edgeScan) : Prop := {
  eo_adjacency : es_adjacency es = edgeAdjacency edges;
  eo_outbound : es_outbound es = edgeAdjacency edges;
  eo_inbound : ∀ n, at_ (es_inbound es) n = map ge_From (filter (λ e, ge_To e = n) edges);
  eo_upstream : ∀ n m, m ∈ default ∅ (es_upstream es !! n) ↔ m ∈ at_ (es_inbound es) n;
  eo_keys : ∀ k, is_Some (es_edgeIndexes es !! k) ↔ k ∈ map edgeKey edges;
}.

(** Registering a fresh edge keeps the four maps in step with the edges seen. *)
Lemma edgesOk_register edges edge es i ds :
  edgesOk edges es →
  edgesOk (edges ++ [edge])
    {| es_diagnostics := ds;
       es_upstream := <[ge_To edge := {[ge_From edge]} ∪ default ∅ (es_upstream es !! ge_To edge)]> (es_upstream es);
       es_inbound := appendAt (ge_To edge) (ge_From edge) (es_inbound es);
       es_outbound := appendAt (ge_From edge) (ge_To edge) (es_outbound es);
       es_adjacency := appendAt (ge_From edge) (ge_To edge) (es_adjacency es);
       es_edgeIndexes := <[edgeKey edge := i]> (es_edgeIndexes es) |}.
Proof.
  intros [Ha Ho Hi Hu Hk]. split; simpl.
  - unfold edgeAdjacency. rewrite foldl_app. simpl. by rewrite Ha.
  - unfold edgeAdjacency. rewrite foldl_app. simpl. by rewrite Ho.
  - intros n. rewrite at_appendAt, filter_app, map_app, Hi. case_decide as E.
    + by rewrite filter_singleton, decide_True.
    + rewrite filter_singleton, decide_False by done. by rewrite app_nil_r.
  - intros n m. rewrite at_appendAt. case_decide as E.
    + subst. rewrite lookup_insert_eq. simpl. rewrite elem_of_union, elem_of_singleton, elem_of_app,
        list_elem_of_singleton, Hu. tauto.
    + rewrite lookup_insert_ne by done. apply Hu.
  - intros k. rewrite map_app, elem_of_app. simpl. rewrite list_elem_of_singleton, <- Hk.
    destruct (decide (edgeKey edge = k)) as [<-|Hne].
    + rewrite lookup_insert_eq. split; [by right|eauto].
    + rewrite lookup_insert_ne by done. naive_solver.
Qed.

Lemma scanEdges_spec nodeByID edges :
  es_diagnostics (scanEdges nodeByID edges) = [] →
  endpointsKnown nodeByID edges ∧ NoDup (map edgeKey edges) ∧ edgesOk edges (scanEdges nodeByID edges).
Proof.
  induction edges as [|edge edges IH] using rev_ind.
  { intros _. split_and!; [by inversion 1|constructor|].
    split; try done; simpl; intros; rewrite lookup_empty; [set_solver|].
    split; [by intros []|by inversion 1]. }
  rewrite scanEdges_snoc. unfold scanEdge, missing.
  destruct (nodeByID !! ge_From edge) as [f|] eqn:Ef; simpl.
  2: { intros H. by apply app_eq_nil in H as [_ ?]. }
  destruct (nodeByID !! ge_To edge) as [t|] eqn:Et; simpl.
  2: { intros H. by apply app_eq_nil in H as [_ ?]. }
  destruct (es_edgeIndexes (scanEdges nodeByID edges) !! edgeKey edge) as [i|] eqn:Ei; simpl; rewrite app_nil_r.
  { intros H. by apply app_eq_nil in H as [_ ?]. }
  intros Hnil. destruct (IH Hnil) as (Hc & Hnd & Hok). split_and!.
  - intros e [He| ->%list_elem_of_singleton]%elem_of_app; [by apply Hc|]. rewrite Ef, Et. eauto.
  - rewrite map_app. apply NoDup_app. split_and!; [done| |apply NoDup_singleton].
    intros k Hk ->%list_elem_of_singleton. apply (eo_keys _ _ Hok) in Hk as [j Hj]. congruence.
  - rewrite Hnil. by apply edgesOk_register.
Qed.

Lemma scanEdges_complete nodeByID edges :
  endpointsKnown nodeByID edges → NoDup (map edgeKey edges) → es_diagnostics (scanEdges nodeByID edges) = [].
Proof.
  induction edges as [|edge edges IH] using rev_ind; [done|].
  intros Hc. rewrite map_app, NoDup_app. intros (Hnd & Hdis & _).
  assert (endpointsKnown nodeByID edges) as Hc' by (intros e He; apply Hc; set_solver).
  destruct (Hc edge) as [[f Ef] [t Et]]; [set_solver|].
  destruct (scanEdges_spec nodeByID edges (IH Hc' Hnd)) as (_ & _ & Hok).
  rewrite scanEdges_snoc. unfold scanEdge, missing. rewrite Ef, Et. simpl.
  destruct (es_edgeIndexes (scanEdges nodeByID edges) !! edgeKey edge) as [i|] eqn:Ei; simpl.
  - exfalso. apply (Hdis (edgeKey edge)); [apply (eo_keys _ _ Hok); eauto|by left].
  - rewrite app_nil_r. by apply IH.
Qed.

(** ** Valid graphs *)

(** What the graph passes promise. *)
Record validGraph (graph : Graph) : Prop := {
  vg_ids : NoDup (map gn_ID (gr_Nodes graph));
  vg_keys : NoDup (map edgeKey (gr_Edges graph));
  vg_closed : ∀ e, e ∈ gr_Edges graph →
    ge_From e ∈ map gn_ID (gr_Nodes graph) ∧ ge_To e ∈ map gn_ID (gr_Nodes graph);
  vg_start : ∃ n, filter (λ n, gn_Kind n = NodeKindStart) (gr_Nodes graph) = [n] ∧ gn_ID n = gr_Start graph;
  vg_end : ∃ n, filter (λ n, gn_Kind n = NodeKindEnd) (gr_Nodes graph) = [n] ∧ gn_ID n = gr_End graph;
  vg_start_in : filter (λ e, ge_To e = gr_Start graph) (gr_Edges graph) = [];
  vg_start_out : length (filter (λ e, ge_From e = gr_Start graph) (gr_Edges graph)) = 1%nat;
  vg_end_out : filter (λ e, ge_From e = gr_End graph) (gr_Edges graph) = [];
  vg_end_in : length (filter (λ e, ge_To e = gr_End graph) (gr_Edges graph)) = 1%nat;
  vg_acyclic : acyclic (map edgePair (gr_Edges graph));
  vg_reachable : ∀ id, id ∈ map gn_ID (gr_Nodes graph) →
    rtc (edgeRel (map edgePair (gr_Edges graph))) (gr_Start graph) id;
}.

(** One node of a kind, and the declared one has it. *)
Lemma single_of_kind nodes kind id (count : Z) :
  NoDup (map gn_ID nodes) →
  count = Z.of_nat (length (filter (λ n, gn_Kind n = kind) nodes)) →
  (count = 1 ∧ notOfKind (indexBy gn_ID nodes) id kind = false) ↔
  ∃ n, filter (λ n, gn_Kind n = kind) nodes = [n] ∧ gn_ID n = id.
Proof.
  intros Hnd ->. unfold notOfKind, isKind. split.
  - intros [Hc Hk]. destruct (indexBy gn_ID nodes !! id) as [n|] eqn:E; [|done].
    apply negb_false_iff, bool_decide_eq_true in Hk. apply indexBy_key in E as [Eid Hn].
    assert (n ∈ filter (λ n, gn_Kind n = kind) nodes) as Hin by (by apply list_elem_of_filter).
    destruct (filter _ nodes) as [|m [|m' l]]; simpl in Hc; try lia.
    apply list_elem_of_singleton in Hin as ->. by exists m.
  - intros (n & Hf & <-). rewrite Hf. split; [done|].
    assert (n ∈ filter (λ n, gn_Kind n = kind) nodes) as [Hk Hn]%list_elem_of_filter by (rewrite Hf; left).
    rewrite (indexBy_NoDup gn_ID nodes n) by done. by rewrite bool_decide_eq_true_2.
Qed.

Lemma endpointDiagnostics_nil graph :
  nodesOk (gr_Nodes graph) (scanNodes (gr_Nodes graph)) →
  endpointDiagnostics graph (scanNodes (gr_Nodes graph)) = [] ↔
  (∃ n, filter (λ n, gn_Kind n = NodeKindStart) (gr_Nodes graph) = [n] ∧ gn_ID n = gr_Start graph) ∧
  (∃ n, filter (λ n, gn_Kind n = NodeKindEnd) (gr_Nodes graph) = [n] ∧ gn_ID n = gr_End graph).
Proof.
  intros [Hnd Hby _ Hs He]. unfold endpointDiagnostics.
  rewrite !app_nil, !diagIf_nil, !negb_false_iff, !Z.eqb_eq, Hby.
  rewrite <- (single_of_kind _ _ _ _ Hnd Hs), <- (single_of_kind _ _ _ _ Hnd He). tauto.
Qed.

Lemma degreeDiagnostics_nil graph es :
  edgesOk (gr_Edges graph) es →
  degreeDiagnostics graph es = [] ↔
  filter (λ e, ge_To e = gr_Start graph) (gr_Edges graph) = [] ∧
  length (filter (λ e, ge_From e = gr_Start graph) (gr_Edges graph)) = 1%nat ∧
  filter (λ e, ge_From e = gr_End graph) (gr_Edges graph) = [] ∧
  length (filter (λ e, ge_To e = gr_End graph) (gr_Edges graph)) = 1%nat.
Proof.
  intros [_ Ho Hi _ _]. unfold degreeDiagnostics.
  rewrite !app_nil, !diagIf_nil, !negb_false_iff, !Nat.eqb_eq, Ho, !at_edgeAdjacency, !Hi, !length_map.
  rewrite !length_zero_iff_nil. done.
Qed.

Lemma at_sorted es n : at_ (sortedAdjacency es) n = sortUTF16 (at_ (es_adjacency es) n).
Proof. unfold at_, sortedAdjacency. rewrite lookup_fmap. by destruct (es_adjacency es !! n). Qed.

Lemma edgeIn_sorted edges es u v :
  edgesOk edges es → edgeIn (sortedAdjacency es) u v ↔ edgeRel (map edgePair edges) u v.
Proof.
  intros [Ha _ _ _ _]. unfold edgeIn. rewrite at_sorted, elem_of_sortUTF16, Ha.
  apply elem_of_adj. apply edgeAdjacency_spec.
Qed.

Lemma tc_iff {A} (R S : relation A) : (∀ x y, R x y ↔ S x y) → ∀ x y, tc R x y ↔ tc S x y.
Proof.
  intros H x y. split; (induction 1; [by apply tc_once, H|eapply tc_l; [by apply H|done]]).
Qed.

Lemma unreachableDiagnostics_nil graph es :
  edgesOk (gr_Edges graph) es → gr_Start graph ∈ map gn_ID (gr_Nodes graph) →
  unreachableDiagnostics graph (sortedAdjacency es) (indexBy gn_ID (gr_Nodes graph)) = [] ↔
  ∀ id, id ∈ map gn_ID (gr_Nodes graph) →
    rtc (edgeRel (map edgePair (gr_Edges graph))) (gr_Start graph) id.
Proof.
  intros Hok Hstart. unfold unreachableDiagnostics, missing.
  rewrite bool_decide_eq_false_2.
  2: { apply indexBy_is_Some in Hstart as [? ->]. done. }
  destruct (reachLoop_spec (sortedAdjacency es) (map edgePair (gr_Edges graph))) with
    (start := gr_Start graph) (fuel := S (length (gr_Edges graph))) (P := (∅ : gset string))
    (seen := ({[gr_Start graph]} : gset string)) (queue := [gr_Start graph]) as (r & -> & Hr).
  - intros c. rewrite at_sorted, sortUTF16_Permutation, (eo_adjacency _ _ Hok). apply edgeAdjacency_spec.
  - apply searchInv_init.
  - rewrite pendingOut_empty, length_map. simpl. lia.
  - simpl. split.
    + intros Hnil id Hid. apply Hr. destruct (decide (id ∈ r)) as [|Hn]; [done|]. exfalso.
      assert (id ∈ sortUTF16 (filter (λ id, id ∉ r) (map gn_ID (gr_Nodes graph)))) as Hin.
      { apply elem_of_sortUTF16. by apply list_elem_of_filter. }
      destruct (sortUTF16 _); [by apply elem_of_nil in Hin|done].
    + intros Hall. assert (filter (λ id, id ∉ r) (map gn_ID (gr_Nodes graph)) = []) as ->; [|done].
      destruct (filter _ _) as [|id l] eqn:E; [done|]. exfalso.
      assert (id ∈ filter (λ id, id ∉ r) (map gn_ID (gr_Nodes graph))) as [Hn Hid]%list_elem_of_filter
        by (rewrite E; left).
      by apply Hn, Hr, Hall.
Qed.

Lemma findCycle_nil nodes es edges :
  edgesOk edges es →
  (∀ e, e ∈ edges → ge_From e ∈ map gn_ID nodes ∧ ge_To e ∈ map gn_ID nodes) →
  match findCycle nodes (sortedAdjacency es) with Some (_ :: _) => False | _ => True end ↔
  acyclic (map edgePair edges).
Proof.
  intros Hok Hcl.
  assert (closedOver (map gn_ID nodes) (sortedAdjacency es)) as Hclosed.
  { intros u v _ (e & [= -> ->] & He)%(edgeIn_sorted edges es u v Hok)%list_elem_of_fmap. by apply Hcl. }
  pose proof (findCycle_result nodes _ Hclosed) as Hf.
  destruct (findCycle nodes (sortedAdjacency es)) as [c|] eqn:E.
  - destruct Hf as [Hc _]. destruct (isCycle_tc _ _ Hc) as (a & Ha & Hcyc).
    destruct c as [|x c]; [done|]. split; [done|]. intros Hac. apply (Hac a).
    by apply (tc_iff _ _ (λ u v, edgeIn_sorted edges es u v Hok)).
  - split; [|done]. intros _ x Hx. pose proof Hx as Hx'.
    apply (tc_iff _ _ (λ u v, edgeIn_sorted edges es u v Hok)) in Hx'. revert Hx'. apply Hf.
    assert (∃ y, edgeRel (map edgePair edges) x y) as (y & (e & [= -> ->] & He)%list_elem_of_fmap)
      by (by inversion Hx; eexists).
    by apply Hcl.
Qed.

Lemma searchDiagnostics_before graph ns es before d ds :
  before = d :: ds → searchDiagnostics graph ns es before = before.
Proof. by intros ->. Qed.

(** The graph passes report nothing exactly for a valid graph:
    distinct ids and edges, known endpoints, one start and one end node with the right
    degrees, no directed cycle, and every node reachable from the start. *)
Lemma graphDiagnostics_iff graph : graphDiagnostics graph = [] ↔ validGraph graph.
Proof.
  unfold graphDiagnostics.
  set (ns := scanNodes (gr_Nodes graph)). set (es := scanEdges (ns_nodeByID ns) (gr_Edges graph)).
  set (before := _ ++ _).
  assert (∀ d ds, before = d :: ds → searchDiagnostics graph ns es before = [] → False) as Hbad.
  { intros d ds E. by rewrite (searchDiagnostics_before _ _ _ _ d ds E), E. }
  assert (before = [] → nodesOk (gr_Nodes graph) ns →
    endpointsKnown (ns_nodeByID ns) (gr_Edges graph) → edgesOk (gr_Edges graph) es →
    gr_Start graph ∈ map gn_ID (gr_Nodes graph) →
    searchDiagnostics graph ns es before = [] ↔
      acyclic (map edgePair (gr_Edges graph)) ∧ ∀ id, id ∈ map gn_ID (gr_Nodes graph) →
        rtc (edgeRel (map edgePair (gr_Edges graph))) (gr_Start graph) id) as Hgood.
  { intros Hb Hno Hknown Hok Hst. rewrite Hb. unfold searchDiagnostics.
    rewrite (no_byID _ _ Hno). pose proof (unreachableDiagnostics_nil graph es Hok Hst) as Hu.
    assert (∀ e, e ∈ gr_Edges graph → ge_From e ∈ map gn_ID (gr_Nodes graph) ∧
      ge_To e ∈ map gn_ID (gr_Nodes graph)) as Hcl.
    { intros e He. rewrite <- !(indexBy_is_Some gn_ID), <- (no_byID _ _ Hno). by apply Hknown. }
    pose proof (findCycle_nil (gr_Nodes graph) es (gr_Edges graph) Hok Hcl) as Hc.
    destruct (findCycle (gr_Nodes graph) (sortedAdjacency es)) as [[|c cycle]|]; [tauto| |tauto].
    split; [done|]. intros [Hac _]. by apply Hc in Hac. }
  split.
  - intros H. destruct before as [|d ds] eqn:Eb; [|by destruct (Hbad d ds eq_refl H)].
    unfold before in Eb. apply app_nil in Eb as [En Eb]. apply app_nil in Eb as [Ee Eb].
    apply app_nil in Eb as [Es Ed].
    pose proof (scanNodes_spec _ En) as Hno. destruct (scanEdges_spec _ _ Es) as (Hknown & Hkeys & Hok).
    apply (endpointDiagnostics_nil graph Hno) in Ee as [Hstart Hend].
    apply (degreeDiagnostics_nil graph es Hok) in Ed as (D1 & D2 & D3 & D4).
    assert (gr_Start graph ∈ map gn_ID (gr_Nodes graph)) as Hst.
    { destruct Hstart as (n & Hn & <-). apply (list_elem_of_fmap_2 gn_ID).
      assert (n ∈ filter (λ n, gn_Kind n = NodeKindStart) (gr_Nodes graph)) as [_ ?]%list_elem_of_filter
        by (rewrite Hn; left). done. }
    apply (Hgood eq_refl Hno Hknown Hok Hst) in H as [Hac Hreach].
    split; try done; [apply (no_nodup _ _ Hno)|].
    intros e He. rewrite <- !(indexBy_is_Some gn_ID), <- (no_byID _ _ Hno). by apply Hknown.
  - intros V. pose proof (scanNodes_spec _ (scanNodes_complete _ (vg_ids _ V))) as Hno.
    assert (endpointsKnown (ns_nodeByID ns) (gr_Edges graph)) as Hknown.
    { intros e He. unfold ns. rewrite (no_byID _ _ Hno), !(indexBy_is_Some gn_ID). by apply (vg_closed _ V). }
    pose proof (scanEdges_complete _ _ Hknown (vg_keys _ V)) as Es.
    destruct (scanEdges_spec _ _ Es) as (_ & _ & Hok).
    assert (before = []) as Eb.
    { unfold before. rewrite !app_nil. split_and!.
      - apply scanNodes_complete, V.
      - apply (endpointDiagnostics_nil graph Hno). split; apply V.
      - done.
      - apply (degreeDiagnostics_nil graph es Hok). split_and!; apply V. }
    apply (Hgood Eb Hno Hknown Hok); [|split; apply V].
    destruct (vg_start _ V) as (n & Hn & <-). apply (list_elem_of_fmap_2 gn_ID).
    assert (n ∈ filter (λ n, gn_Kind n = NodeKindStart) (gr_Nodes graph)) as [_ ?]%list_elem_of_filter
      by (rewrite Hn; left). done.
Qed.

(** C14: The graph passes of the validator report nothing exactly for a valid graph:
    distinct ids and edges, known endpoints, one start and one end node with the right
    degrees, no directed cycle, and every node reachable from the start. *)
Theorem graphDiagnostics_valid graph : graphDiagnostics graph = [] ↔ validGraph graph.
Proof. apply graphDiagnostics_iff. Qed.

Lemma validateSemantics_graph `{SR : SchemaRules} N H P R parsed :
  validateSemantics N H P R parsed = [] → validGraph (ws_Graph parsed).
Proof. unfold validateSemantics. intros [E _]%app_nil. by apply graphDiagnostics_iff. Qed.

(** C17: A spec without semantic findings has a deterministic schedule: [BuildSchedule]
    succeeds, on the order the validator itself computes. *)
Theorem valid_spec_schedules `{SR : SchemaRules} N H P R parsed :
  validateSemantics N H P R parsed = [] → allValid (map gn_ID (gr_Nodes (ws_Graph parsed))) →
  ∃ s, BuildSchedule (ws_Graph parsed) = Ok s ∧
    graphTopologicalOrder (gr_Nodes (ws_Graph parsed)) (gr_Edges (ws_Graph parsed)) = (sc_NodeOrder s, true).
Proof.
  intros V%validateSemantics_graph Hv.
  assert (isOk (BuildSchedule (ws_Graph parsed)) = true) as Hok.
  { apply BuildSchedule_success. split_and!; [exact (vg_closed _ V)|apply V|apply V]. }
  destruct (BuildSchedule (ws_Graph parsed)) as [s|] eqn:Hs; [|done].
  exists s. split; [done|]. by apply graphTopologicalOrder_agrees.
Qed.

(** ** Steps *)
Lemma duplicateSources_nil path declared sources :
  duplicateSources path declared sources = [] ↔ NoDup sources ∧ ∀ s, s ∈ sources → s ∉ declared.
Proof.
  revert declared; induction sources as [|s l IH]; intros declared; simpl.
  { split; [|done]. split; [constructor|by inversion 1]. }
  rewrite NoDup_cons. case_bool_decide as Hs.
  - split; [done|]. intros [_ H]. exfalso. by apply (H s); [left|].
  - rewrite IH. setoid_rewrite elem_of_cons. setoid_rewrite not_elem_of_union.
    setoid_rewrite not_elem_of_singleton. naive_solver.
Qed.

(** The sources of the edges into a node. *)
Definition inboundSources (graph : Graph) (id : string) : list string :=
  map ge_From (filter (λ e, ge_To e = id) (gr_Edges graph)).

Record stepOk (spec : WorkflowSpec) (node : GraphNode) : Prop := {
  so_input : is_Some (ws_Schemas spec !! gn_InputSchema node);
  so_output : is_Some (ws_Schemas spec !! gn_OutputSchema node);
  so_symbol : is_Some (ws_Symbols spec !! gn_SymbolRef node);
  so_contract : is_Some (ws_Contracts spec !! gn_ContractRef node);
  so_merge : gn_MergeInputs node ≠ [] →
    gn_MergeInputs node ≡ₚ inboundSources (ws_Graph spec) (gn_ID node);
  so_single : gn_MergeInputs node = [] →
    (length (inboundSources (ws_Graph spec) (gn_ID node)) ≤ 1)%nat;
}.

Lemma mergeInputs_permutation (merges inbound : list string) :
  NoDup merges → length merges = length inbound → (∀ s, s ∈ merges → s ∈ inbound) → merges ≡ₚ inbound.
Proof.
  intros Hnd Hlen Hin. apply submseteq_length_Permutation; [by apply NoDup_submseteq|]. lia.
Qed.

Lemma stepDiagnostics_nil spec nodeByID es i node :
  edgesOk (gr_Edges (ws_Graph spec)) es → gn_Kind node = NodeKindStep →
  stepDiagnostics spec nodeByID es (i, node) = [] → stepOk spec node.
Proof.
  intros Hok Hk. unfold stepDiagnostics, isKind. rewrite bool_decide_eq_true_2 by done. cbn [negb].
  intros [H1 [H2 [H3 [H4 [H5 [H6 H7]%app_nil]%app_nil]%app_nil]%app_nil]%app_nil]%app_nil.
  rewrite diagIf_nil in H1, H2, H3, H4, H6. apply missing_false in H1, H2, H3, H4.
  rewrite (eo_inbound _ _ Hok) in H6, H7. fold (inboundSources (ws_Graph spec) (gn_ID node)) in H6, H7.
  rewrite bind_nil in H5.
  set (inbound := inboundSources (ws_Graph spec) (gn_ID node)) in *.
  split; try done.
  - intros Hne. destruct (gn_MergeInputs node) as [|m ms] eqn:Em; [done|]. rewrite <- Em in *.
    replace (0 <? length (gn_MergeInputs node))%nat with true in H7 by (by rewrite Em).
    destruct (length (gn_MergeInputs node) =? length inbound)%nat eqn:El; [|done]. simpl in H7.
    apply app_nil in H7 as [H7 _]. apply duplicateSources_nil in H7 as [Hnd _].
    apply mergeInputs_permutation; [done|by apply Nat.eqb_eq|].
    intros s [j Hj]%list_elem_of_lookup. specialize (H5 (j, s)). rewrite elem_of_indexed in H5.
    specialize (H5 Hj). unfold mergeInputDiagnostics in H5.
    destruct (missing nodeByID s || _); [done|].
    rewrite diagIf_nil, negb_false_iff, bool_decide_eq_true in H5.
    by rewrite (eo_upstream _ _ Hok), (eo_inbound _ _ Hok) in H5.
  - intros Hnil. rewrite Hnil in H6. cbn [length Nat.eqb andb] in H6. by apply Nat.ltb_ge in H6.
Qed.

(** In a spec without findings every step's schemas, symbol and contract resolve, a
    step's merge inputs are a permutation of the sources of its inbound edges, and a
    step without merge inputs has at most one inbound edge. *)
Theorem valid_spec_steps `{SR : SchemaRules} N H P R parsed node :
  validateSemantics N H P R parsed = [] →
  node ∈ gr_Nodes (ws_Graph parsed) → gn_Kind node = NodeKindStep → stepOk parsed node.
Proof.
  intros Hv [i Hi]%list_elem_of_lookup Hk. unfold validateSemantics in Hv.
  apply app_nil in Hv as [Hg [Hs _]%app_nil]. apply graphDiagnostics_iff in Hg as V.
  pose proof (scanNodes_spec _ (scanNodes_complete _ (vg_ids _ V))) as Hno.
  assert (endpointsKnown (ns_nodeByID (scanNodes (gr_Nodes (ws_Graph parsed)))) (gr_Edges (ws_Graph parsed)))
    as Hknown.
  { intros e He. rewrite (no_byID _ _ Hno), !(indexBy_is_Some gn_ID). by apply (vg_closed _ V). }
  destruct (scanEdges_spec _ _ (scanEdges_complete _ _ Hknown (vg_keys _ V))) as (_ & _ & Hok).
  rewrite bind_nil in Hs. eapply stepDiagnostics_nil; [done|done|].
  apply (Hs (i, node)). by apply elem_of_indexed.
Qed.

(** C18: In a spec without findings every decision is exhaustive and deterministic: its
    tags are distinct, each has exactly one conditional edge, and every edge that leaves
    the decision carries one of its tags. *)
Theorem valid_spec_decisions `{SR : SchemaRules} N H P R parsed node :
  validateSemantics N H P R parsed = [] →
  node ∈ gr_Nodes (ws_Graph parsed) → gn_Kind node = NodeKindDecision →
  let edges := gr_Edges (ws_Graph parsed) in
  NoDup (map dc_Tag (gn_Cases node)) ∧
  (∀ c, c ∈ gn_Cases node → ∃ e, fromCase (gn_ID node) (dc_Tag c) edges = [e]) ∧
  (∀ e, e ∈ edges → ge_From e = gn_ID node → ge_Case e ∈ map dc_Tag (gn_Cases node)).
Proof.
  intros Hv Hn Hk. unfold validateSemantics in Hv.
  apply app_nil in Hv as [Hg [_ [_ [_ [Hd _]%app_nil]%app_nil]%app_nil]%app_nil].
  apply graphDiagnostics_iff in Hg as V.
  pose proof (scanNodes_spec _ (scanNodes_complete _ (vg_ids _ V))) as Hno.
  by eapply (decision_exhaustive _ _ _ _ (no_nodup _ _ Hno) (no_byID _ _ Hno)).
Qed.

(** ** A concrete spec *)
#[local] Instance anySchema : SchemaRules :=
  {| schemaAdmitsObject := λ _, true; arraySchemaItemsExactlyMatch := λ _ _, true;
     MapOutcomeListSchemaMatches := λ _ _, true |}.

Definition sampleStep : GraphNode :=
  {| gn_ID := "work"; gn_Kind := "step"; gn_InputSchema := "in"; gn_OutputSchema := "out";
     gn_SymbolRef := "sym"; gn_ContractRef := "contract"; gn_MergeInputs := []; gn_Selector := "";
     gn_Cases := []; gn_DecisionRef := ""; gn_SelectInputs := []; gn_ItemInputSchema := "";
     gn_ItemOutputSchema := ""; gn_MaxConcurrency := 0; gn_ItemFailures := "" |}.

Definition sampleFiles : list SourcePackageFile :=
  [{| sf_Path := "a.ts"; sf_Hash := "sha256:" +:+ joinStrings "" (replicate 64 "0") |}].

(** A spec over the given inner nodes. *)
Definition specWith (nodes : list GraphNode) (edges : list GraphEdge) : WorkflowSpec :=
  let hashing := {| hs_Algorithm := "sha256"; hs_Canonicalization := "canonical-json-v0";
    hs_Recipe := "workflow"; hs_RecipeVersion := 1 |} in
  {| ws_Kind := "WorkflowSpec"; ws_SchemaVersion := 0; ws_Encoding := "json"; ws_Hashing := hashing;
     ws_SpecHash := "";
     ws_Workflow := {| wf_Name := "sample"; wf_InputSchema := "in"; wf_OutputSchema := "out"; wf_DeadlineSeconds := 0 |};
     ws_Graph := {| gr_IRVersion := "v0"; gr_Start := "start"; gr_End := "end";
       gr_Nodes := [plainNode "start" "start"] ++ nodes ++ [plainNode "end" "end"]; gr_Edges := edges;
       gr_ExitHook := None |};
     ws_Schemas := {["in" := "{}"; "out" := "{}"]};
     ws_Symbols := {["sym" := {| sy_PackageID := "pkg"; sy_Language := "ts"; sy_Module := "a"; sy_Export := "f" |}]};
     ws_SourcePackages := {["pkg" := {| sp_PackageID := "pkg"; sp_Language := "ts"; sp_PackageHash := "sha256:h274";
       sp_Hashing := hashing; sp_Files := sampleFiles |}]};
     ws_Environments := {["env" := {| en_Kind := "local"; en_Image := ""; en_Platform := ""; en_Command := [];
       en_WorkingDirectory := ""; en_Version := ""; en_PackageManager := ""; en_Lockfile := "" |}]};
     ws_Contracts := {["contract" := {| ec_EnvironmentRef := "env"; ec_Retry := None; ec_TimeoutSeconds := 0;
       ec_Resources := None; ec_Secrets := []; ec_Network := None |}]} |}.

Definition sampleSpec (edges : list GraphEdge) : WorkflowSpec := specWith [sampleStep] edges.

(** A step that routes through a decision with two cases into a select. *)
Definition stepNamed (id : string) : GraphNode :=
  {| gn_ID := id; gn_Kind := "step"; gn_InputSchema := "in"; gn_OutputSchema := "in";
     gn_SymbolRef := "sym"; gn_ContractRef := "contract"; gn_MergeInputs := []; gn_Selector := "";
     gn_Cases := []; gn_DecisionRef := ""; gn_SelectInputs := []; gn_ItemInputSchema := "";
     gn_ItemOutputSchema := ""; gn_MaxConcurrency := 0; gn_ItemFailures := "" |}.
Definition sampleDecision : GraphNode :=
  {| gn_ID := "route"; gn_Kind := "decision"; gn_InputSchema := "in"; gn_OutputSchema := "";
     gn_SymbolRef := ""; gn_ContractRef := ""; gn_MergeInputs := []; gn_Selector := "kind";
     gn_Cases := [{| dc_Tag := "a"; dc_Schema := "in" |}; {| dc_Tag := "b"; dc_Schema := "in" |}];
     gn_DecisionRef := ""; gn_SelectInputs := []; gn_ItemInputSchema := "";
     gn_ItemOutputSchema := ""; gn_MaxConcurrency := 0; gn_ItemFailures := "" |}.
Definition sampleSelect : GraphNode :=
  {| gn_ID := "pick"; gn_Kind := "select"; gn_InputSchema := ""; gn_OutputSchema := "in";
     gn_SymbolRef := ""; gn_ContractRef := ""; gn_MergeInputs := []; gn_Selector := "";
     gn_Cases := []; gn_DecisionRef := "route";
     gn_SelectInputs := [{| si_Case := "a"; si_Source := "left" |}; {| si_Case := "b"; si_Source := "right" |}];
     gn_ItemInputSchema := ""; gn_ItemOutputSchema := ""; gn_MaxConcurrency := 0; gn_ItemFailures := "" |}.
Definition caseEdge (a b c : string) : GraphEdge := {| ge_From := a; ge_To := b; ge_Case := c |}.
Definition branchSpec : WorkflowSpec :=
  specWith [stepNamed "first"; sampleDecision; stepNamed "left"; stepNamed "right"; sampleSelect]
    [plainEdge "start" "first"; plainEdge "first" "route"; caseEdge "route" "left" "a";
     caseEdge "route" "right" "b"; plainEdge "left" "pick"; plainEdge "right" "pick"; plainEdge "pick" "end"].

Definition noReference (image : string) : result (option string) := Ok None.
Definition sampleDiagnostics (edges : list GraphEdge) : list Diagnostic :=
  validateSemantics smallNumbers sampleHash noReference "{}" (sampleSpec edges).
Definition sampleEdges : list GraphEdge := [plainEdge "start" "work"; plainEdge "work" "end"].

Example sample_dangling_edge :
  sampleDiagnostics (sampleEdges ++ [plainEdge "work" "nowhere"]) =
  [diag "$.graph.edges[2].to" "nowhere" "edge target node does not exist"].
Proof. vm_compute. reflexivity. Qed.

Lemma valid_spec_schedules_witness :
  ∃ s, BuildSchedule (ws_Graph (sampleSpec sampleEdges)) = Ok s ∧
    graphTopologicalOrder (gr_Nodes (ws_Graph (sampleSpec sampleEdges))) sampleEdges = (sc_NodeOrder s, true).
Proof.
  apply (valid_spec_schedules smallNumbers sampleHash noReference "{}" (sampleSpec sampleEdges));
    [vm_compute; reflexivity|].
  repeat constructor; vm_compute; reflexivity.
Defined.

Lemma valid_spec_steps_witness : stepOk (sampleSpec sampleEdges) sampleStep.
Proof.
  apply (valid_spec_steps smallNumbers sampleHash noReference "{}" (sampleSpec sampleEdges));
    [vm_compute; reflexivity|right; left|reflexivity].
Defined.

Lemma valid_spec_decisions_witness :
  ∃ e, fromCase "route" "b" (gr_Edges (ws_Graph branchSpec)) = [e].
Proof.
  refine (proj1 (proj2 (valid_spec_decisions smallNumbers sampleHash noReference "{}" branchSpec
    sampleDecision _ _ _)) {| dc_Tag := "b"; dc_Schema := "in" |} _).
  - vm_compute. reflexivity.
  - simpl. right. right. left.
  - reflexivity.
  - right. left.
Defined.
