(* ===== verification/Journal.v ===== *)
(** * The run journal

    [internal/runjournal]: the manifest of a run, the reader's consistency checks
    ([Parse] after its schema validation and decoding), and [Terminate], which closes
    the journal of an interrupted run.  An [int] is a [Z]. *)

From S2P Require Import Prelude.
#[local] Open Scope Z_scope.

Definition StatusPending : string := "pending".
Definition StatusRunning : string := "running".
Definition StatusSucceeded : string := "succeeded".
Definition StatusFailed : string := "failed".
Definition StatusCancelled : string := "cancelled".
Definition StatusSkipped : string := "skipped".
Definition StatusNotStarted : string := "not-started".

Record FatalFailure := { ff_Message : string; ff_Type : string; ff_NodeID : string }.
Record ArtifactRef := { ar_Key : string; ar_Hash : string; ar_Size : Z; ar_ContentType : string }.
Record DataArtifact := { da_Key : string; da_Hash : string; da_ContentType : string; da_Schema : string }.
Record PublishedArtifact := { pa_Manifest : ArtifactRef; pa_Body : ArtifactRef; pa_Schema : string }.
Record RunEnvironment := { re_RequirementHash : string; re_RealizationHash : string; re_Record : ArtifactRef }.
Record SkipReason := { sk_Kind : string; sk_DecisionID : string; sk_Case : string }.

(** [runjournal.Attempt] *)
Record Attempt := {
  att_Attempt : Z;
  att_Status : string;
  att_Input : DataArtifact;
  att_Output : option PublishedArtifact;
  att_Diagnostic : string;
}.

Record MapItem := {
  mi_Index : Z;
  mi_Status : string;
  mi_Attempts : list Attempt;
  mi_Diagnostic : string;
}.

(** [runjournal.Step]; [st_Items] is nil for a node that is not a map. *)
Record Step := {
  st_NodeID : string;
  st_Status : string;
  st_Attempts : list Attempt;
  st_Items : option (list MapItem);
  st_ItemFailures : string;
  st_SkipReason : option SkipReason;
}.

Record Decision := {
  de_NodeID : string;
  de_Status : string;
  de_SelectedCase : string;
  de_Diagnostic : string;
  de_SkipReason : option SkipReason;
}.

Record Manifest := {
  mf_Kind : string;
  mf_SchemaVersion : Z;
  mf_Encoding : string;
  mf_PlanHash : string;
  mf_ProjectKey : string;
  mf_RunID : string;
  mf_Status : string;
  mf_Diagnostic : string;
  mf_Failure : option FatalFailure;
  mf_Environment : option RunEnvironment;
  mf_Steps : list Step;
  mf_Decisions : list Decision;
  mf_Result : option DataArtifact;
  mf_ExitHook : option Step;
}.

(** The zero value of the struct. *)
Definition zeroDataArtifact : DataArtifact :=
  {| da_Key := ""; da_Hash := ""; da_ContentType := ""; da_Schema := "" |}.

(** Assignments to fields. *)
Definition att_set (status diagnostic : string) (a : Attempt) : Attempt :=
  {| att_Attempt := att_Attempt a; att_Status := status; att_Input := att_Input a;
     att_Output := att_Output a; att_Diagnostic := diagnostic |}.
Definition att_succeed (output : PublishedArtifact) (a : Attempt) : Attempt :=
  {| att_Attempt := att_Attempt a; att_Status := StatusSucceeded; att_Input := att_Input a;
     att_Output := Some output; att_Diagnostic := att_Diagnostic a |}.

Definition mi_set (status : string) (attempts : list Attempt) (diagnostic : string) (i : MapItem) : MapItem :=
  {| mi_Index := mi_Index i; mi_Status := status; mi_Attempts := attempts; mi_Diagnostic := diagnostic |}.

Definition st_set (status : string) (attempts : list Attempt) (s : Step) : Step :=
  {| st_NodeID := st_NodeID s; st_Status := status; st_Attempts := attempts; st_Items := st_Items s;
     st_ItemFailures := st_ItemFailures s; st_SkipReason := st_SkipReason s |}.
Definition st_setItems (items : list MapItem) (s : Step) : Step :=
  {| st_NodeID := st_NodeID s; st_Status := st_Status s; st_Attempts := st_Attempts s;
     st_Items := Some items; st_ItemFailures := st_ItemFailures s; st_SkipReason := st_SkipReason s |}.
Definition st_skip (reason : SkipReason) (s : Step) : Step :=
  {| st_NodeID := st_NodeID s; st_Status := StatusSkipped; st_Attempts := st_Attempts s;
     st_Items := st_Items s; st_ItemFailures := st_ItemFailures s; st_SkipReason := Some reason |}.

Definition mf_setSteps (steps : list Step) (m : Manifest) : Manifest :=
  {| mf_Kind := mf_Kind m; mf_SchemaVersion := mf_SchemaVersion m; mf_Encoding := mf_Encoding m;
     mf_PlanHash := mf_PlanHash m; mf_ProjectKey := mf_ProjectKey m; mf_RunID := mf_RunID m;
     mf_Status := mf_Status m; mf_Diagnostic := mf_Diagnostic m; mf_Failure := mf_Failure m;
     mf_Environment := mf_Environment m; mf_Steps := steps; mf_Decisions := mf_Decisions m;
     mf_Result := mf_Result m; mf_ExitHook := mf_ExitHook m |}.
Definition mf_setDecisions (decisions : list Decision) (m : Manifest) : Manifest :=
  {| mf_Kind := mf_Kind m; mf_SchemaVersion := mf_SchemaVersion m; mf_Encoding := mf_Encoding m;
     mf_PlanHash := mf_PlanHash m; mf_ProjectKey := mf_ProjectKey m; mf_RunID := mf_RunID m;
     mf_Status := mf_Status m; mf_Diagnostic := mf_Diagnostic m; mf_Failure := mf_Failure m;
     mf_Environment := mf_Environment m; mf_Steps := mf_Steps m; mf_Decisions := decisions;
     mf_Result := mf_Result m; mf_ExitHook := mf_ExitHook m |}.
Definition mf_setOutcome (status diagnostic : string) (result : option DataArtifact) (m : Manifest) : Manifest :=
  {| mf_Kind := mf_Kind m; mf_SchemaVersion := mf_SchemaVersion m; mf_Encoding := mf_Encoding m;
     mf_PlanHash := mf_PlanHash m; mf_ProjectKey := mf_ProjectKey m; mf_RunID := mf_RunID m;
     mf_Status := status; mf_Diagnostic := diagnostic; mf_Failure := mf_Failure m;
     mf_Environment := mf_Environment m; mf_Steps := mf_Steps m; mf_Decisions := mf_Decisions m;
     mf_Result := result; mf_ExitHook := mf_ExitHook m |}.
Definition mf_setFailure (failure : option FatalFailure) (m : Manifest) : Manifest :=
  {| mf_Kind := mf_Kind m; mf_SchemaVersion := mf_SchemaVersion m; mf_Encoding := mf_Encoding m;
     mf_PlanHash := mf_PlanHash m; mf_ProjectKey := mf_ProjectKey m; mf_RunID := mf_RunID m;
     mf_Status := mf_Status m; mf_Diagnostic := mf_Diagnostic m; mf_Failure := failure;
     mf_Environment := mf_Environment m; mf_Steps := mf_Steps m; mf_Decisions := mf_Decisions m;
     mf_Result := mf_Result m; mf_ExitHook := mf_ExitHook m |}.
Definition mf_setExitHook (hook : Step) (m : Manifest) : Manifest :=
  {| mf_Kind := mf_Kind m; mf_SchemaVersion := mf_SchemaVersion m; mf_Encoding := mf_Encoding m;
     mf_PlanHash := mf_PlanHash m; mf_ProjectKey := mf_ProjectKey m; mf_RunID := mf_RunID m;
     mf_Status := mf_Status m; mf_Diagnostic := mf_Diagnostic m; mf_Failure := mf_Failure m;
     mf_Environment := mf_Environment m; mf_Steps := mf_Steps m; mf_Decisions := mf_Decisions m;
     mf_Result := mf_Result m; mf_ExitHook := Some hook |}.

(** [x == "..."] on Go strings. *)
Definition eqs (a b : string) : bool := bool_decide (a = b).
Definition isOneOfS (a : string) (l : list string) : bool := existsb (eqs a) l.

(** ** Terminate *)
Definition terminateRunningAttempts (attempts : list Attempt) (status diagnostic : string) : list Attempt :=
  map (λ a, if eqs (att_Status a) StatusRunning then att_set status diagnostic a else a) attempts.

Definition terminateItem (status diagnostic : string) (item : MapItem) : MapItem :=
  if eqs (mi_Status item) StatusPending then mi_set StatusNotStarted (mi_Attempts item) diagnostic item
  else if eqs (mi_Status item) StatusRunning then
    mi_set status (terminateRunningAttempts (mi_Attempts item) status diagnostic) (mi_Diagnostic item) item
  else item.

Definition terminateStep (status diagnostic : string) (step : Step) : Step :=
  let step :=
    if eqs (st_Status step) StatusPending then st_set StatusNotStarted (st_Attempts step) step
    else if eqs (st_Status step) StatusRunning then
      st_set status (terminateRunningAttempts (st_Attempts step) status diagnostic) step
    else step in
  match st_Items step with
  | None => step
  | Some items => st_setItems (map (terminateItem status diagnostic) items) step
  end.

Definition Terminate (status diagnostic : string) (manifest : Manifest) : Manifest :=
  let m := mf_setOutcome status diagnostic None manifest in
  mf_setSteps (map (terminateStep status diagnostic) (mf_Steps m)) m.

(** ** Reading a journal *)

(** [validateAttempts]: the loop, then the last attempt. *)
Fixpoint denseAttempts (index : Z) (attempts : list Attempt) : result unit :=
  match attempts with
  | [] => Ok tt
  | a :: rest =>
      if negb (att_Attempt a =? index + 1) then Err (ErrNew "attempts must be dense and 1-based")
      else if match rest with [] => false | _ => negb (eqs (att_Status a) StatusFailed) end then
        Err (Errorf "attempt %d was retried without failing" [AInt (att_Attempt a)])
      else denseAttempts (index + 1) rest
  end.

Definition validateAttempts (attempts : list Attempt) (status : string) : result unit :=
  _ ← denseAttempts 0 attempts;
  match last attempts with
  | None => Ok tt
  | Some a =>
      let l := att_Status a in
      if negb (eqs l status) &&
         (negb (eqs l StatusFailed) || (negb (eqs status StatusRunning) && negb (eqs status StatusCancelled)))
      then Err (ErrNew "last attempt status differs from entry status")
      else Ok tt
  end.

Definition dispatched (attempts : list Attempt) : bool := negb (length attempts =? 0)%nat.

(** Does a step account for the fatal cause? *)
Definition explainsFailure (nodeID : string) (step : Step) : bool :=
  eqs (st_NodeID step) nodeID && eqs (st_Status step) StatusFailed && dispatched (st_Attempts step) &&
  match st_Items step with
  | None => true
  | Some items => existsb (λ item, eqs (mi_Status item) StatusFailed && dispatched (mi_Attempts item)) items
  end.

Fixpoint checkItems (step : Step) (index : Z) (items : list MapItem) : result unit :=
  match items with
  | [] => Ok tt
  | item :: rest =>
      let id := AStr (st_NodeID step) in
      let closed := isOneOfS (st_Status step) [StatusFailed; StatusCancelled] in
      if negb (mi_Index item =? index) then
        Err (Errorf "map %q item indexes must be dense and source ordered" [id])
      else
        _ ← wrapErr "map %q item %d %w" [id; AInt index] (validateAttempts (mi_Attempts item) (mi_Status item));
        if eqs (mi_Status item) StatusNotStarted && negb closed then
          Err (Errorf "map %q has not-started items without termination" [id])
        else if eqs (st_Status step) StatusSucceeded && negb (eqs (mi_Status item) StatusSucceeded) &&
                (eqs (st_ItemFailures step) "" || negb (eqs (mi_Status item) StatusFailed)) then
          Err (Errorf "successful map %q has unsuccessful items" [id])
        else if closed && isOneOfS (mi_Status item) [StatusPending; StatusRunning] then
          Err (Errorf "terminal map %q has unfinished items" [id])
        else checkItems step (index + 1) rest
  end.

Definition checkStep (status : string) (step : Step) : result unit :=
  let id := AStr (st_NodeID step) in
  if negb (eqs status StatusRunning) && isOneOfS (st_Status step) [StatusPending; StatusRunning] then
    Err (Errorf "terminal run has unfinished step %q" [id])
  else if eqs status StatusSucceeded && negb (eqs (st_Status step) StatusSucceeded) &&
          negb (eqs (st_Status step) StatusSkipped) then
    Err (Errorf "successful run has unsuccessful step %q" [id])
  else
    _ ← wrapErr "step %q %w" [id] (validateAttempts (st_Attempts step) (st_Status step));
    match st_Items step with
    | None => Ok tt
    | Some items =>
        if isOneOfS (st_Status step) [StatusPending; StatusSkipped; StatusNotStarted] &&
           negb (length items =? 0)%nat then
          Err (Errorf "inactive map %q contains item records" [id])
        else checkItems step 0 items
    end.

(** [Parse] from the decoded manifest on. *)
Definition checkManifest (manifest : Manifest) : result Manifest :=
  _ ← match mf_Failure manifest with
      | Some failure =>
          if existsb (explainsFailure (ff_NodeID failure)) (mf_Steps manifest) then Ok tt
          else Err (ErrNew "fatal cause does not name a failed dispatched step")
      | None => Ok tt
      end;
  _ ← foldErr (λ _ step, checkStep (mf_Status manifest) step) tt (mf_Steps manifest);
  _ ← match mf_ExitHook manifest with
      | Some hook => wrapErr "exit hook %q %w" [AStr (st_NodeID hook)]
          (validateAttempts (st_Attempts hook) (st_Status hook))
      | None => Ok tt
      end;
  Ok manifest.
