(* ===== verification/JournalOps.v ===== *)
(** * Journal updates of the orchestrator

    The functions of [internal/orchestrator/orchestrator.go] that write the run
    journal, in the order of the file.  A pointer into the manifest is an update of the
    first step with the given id; dereferencing the nil pointer of [lastAttempt] is a
    [PanicError]. *)

From S2P Require Import Prelude SpecTypes Journal.
#[local] Open Scope Z_scope.

(** [findManifestStep] *)
Definition findManifestStep (manifest : Manifest) (nodeID : string) : option Step :=
  head (filter (λ step, st_NodeID step = nodeID) (mf_Steps manifest)).

(** An assignment through the pointer [findManifestStep] returns; none when it is nil. *)
Fixpoint updateFirst (nodeID : string) (f : Step → Step) (steps : list Step) : list Step :=
  match steps with
  | [] => []
  | step :: rest =>
      if eqs (st_NodeID step) nodeID then f step :: rest else step :: updateFirst nodeID f rest
  end.
Definition updateStep (nodeID : string) (f : Step → Step) (m : Manifest) : Manifest :=
  mf_setSteps (updateFirst nodeID f (mf_Steps m)) m.

(** [lastAttempt(attempts)] with an assignment through it. *)
Fixpoint updateLast (f : Attempt → Attempt) (attempts : list Attempt) : list Attempt :=
  match attempts with
  | [] => []
  | [a] => [f a]
  | a :: rest => a :: updateLast f rest
  end.

Definition lastAttempt (attempts : list Attempt) : option Attempt := last attempts.

(** [item := &( *step.Items)[itemIndex]] guarded by the bounds check. *)
Definition updateItem (nodeID : string) (itemIndex : Z) (f : MapItem → MapItem) (m : Manifest) : Manifest :=
  updateStep nodeID (λ step,
    match st_Items step with
    | None => step
    | Some items =>
        if (itemIndex <? 0) || (Z.of_nat (length items) <=? itemIndex) then step
        else st_setItems (alter f (Z.to_nat itemIndex) items) step
    end) m.

Definition newRunManifest (planHash projectKey runID : string) (stepOrder : list string)
    (nodesByID : gmap string GraphNode) : Manifest :=
  let newStep stepID :=
    let node := default zeroNode (nodesByID !! stepID) in
    {| st_NodeID := stepID; st_Status := StatusPending; st_Attempts := [];
       st_Items := if isKind NodeKindMap node then Some [] else None;
       st_ItemFailures := if isKind NodeKindMap node then gn_ItemFailures node else "";
       st_SkipReason := None |} in
  {| mf_Kind := "RunManifest"; mf_SchemaVersion := 6; mf_Encoding := "json-v6";
     mf_PlanHash := planHash; mf_ProjectKey := projectKey; mf_RunID := runID;
     mf_Status := StatusRunning; mf_Diagnostic := ""; mf_Failure := None; mf_Environment := None;
     mf_Steps := map newStep stepOrder; mf_Decisions := []; mf_Result := None; mf_ExitHook := None |}.

(** [items] are the indexes of the expanded map items. *)
Definition markMapItemsPending (nodeID : string) (items : list Z) (m : Manifest) : Manifest :=
  updateStep nodeID (λ step,
    match st_Items step with
    | None => step
    | Some _ => st_setItems (map (λ index,
        {| mi_Index := index; mi_Status := StatusPending; mi_Attempts := []; mi_Diagnostic := "" |}) items) step
    end) m.

Definition newAttempt (attempt : Z) (status : string) (input : DataArtifact) (diagnostic : string) : Attempt :=
  {| att_Attempt := attempt; att_Status := status; att_Input := input; att_Output := None;
     att_Diagnostic := diagnostic |}.

Definition markMapItemRunning (nodeID : string) (itemIndex attempt : Z) (input : DataArtifact) (m : Manifest)
    : Manifest :=
  updateItem nodeID itemIndex (λ item,
    mi_set StatusRunning (mi_Attempts item ++ [newAttempt attempt StatusRunning input ""])
      (mi_Diagnostic item) item) m.

Definition markMapItemRetrying (nodeID : string) (itemIndex : Z) (diagnostic : string) (m : Manifest) : Manifest :=
  updateItem nodeID itemIndex (λ item,
    mi_set (mi_Status item) (updateLast (att_set StatusFailed diagnostic) (mi_Attempts item))
      (mi_Diagnostic item) item) m.

(** Reads [step.Items[itemIndex].Attempts] under the guards of the marking functions. *)
Definition itemAt (m : Manifest) (nodeID : string) (itemIndex : Z) : option MapItem :=
  step ← findManifestStep m nodeID;
  items ← st_Items step;
  if itemIndex <? 0 then None else items !! Z.to_nat itemIndex.

Definition nilAttempt : error := PanicError "invalid memory address or nil pointer dereference".

Definition markMapItemSucceeded (nodeID : string) (itemIndex : Z) (output : PublishedArtifact) (m : Manifest)
    : result Manifest :=
  match itemAt m nodeID itemIndex with
  | Some item =>
      match lastAttempt (mi_Attempts item) with
      | None => Err nilAttempt
      | Some _ => Ok (updateItem nodeID itemIndex (λ item,
          mi_set StatusSucceeded (updateLast (att_succeed output) (mi_Attempts item)) (mi_Diagnostic item) item) m)
      end
  | None => Ok m
  end.

(** [Attempts: []Attempt{{Attempt: 1, ...}}] when there is none, else the last one. *)
Definition closeAttempts (status diagnostic : string) (attempts : list Attempt) : list Attempt :=
  match attempts with
  | [] => [newAttempt 1 status zeroDataArtifact diagnostic]
  | _ => updateLast (att_set status diagnostic) attempts
  end.

Definition markMapItemTerminal (nodeID : string) (itemIndex : Z) (status diagnostic : string) (m : Manifest)
    : Manifest :=
  updateItem nodeID itemIndex (λ item,
    mi_set status (closeAttempts status diagnostic (mi_Attempts item)) (mi_Diagnostic item) item) m.

(** [collected] is the key set of the collected failures. *)
Definition mapHasFailedItem (m : Manifest) (nodeID : string) (collected : list Z) : bool :=
  existsb (λ step,
    eqs (st_NodeID step) nodeID &&
    match st_Items step with
    | None => false
    | Some items => existsb (λ item,
        negb (eqs (mi_Status item) StatusSucceeded) && negb (bool_decide (mi_Index item ∈ collected))) items
    end) (mf_Steps m).

Definition closeUnfinishedItem (status : string) (item : MapItem) : MapItem :=
  if eqs (mi_Status item) StatusPending then
    mi_set StatusNotStarted (mi_Attempts item)
      ("map ended with status " +:+ status +:+ " before item dispatch") item
  else if eqs (mi_Status item) StatusRunning then
    mi_set status
      match lastAttempt (mi_Attempts item) with
      | Some a =>
          if eqs (att_Status a) StatusRunning
          then updateLast (att_set status "map item did not complete") (mi_Attempts item)
          else mi_Attempts item
      | None => mi_Attempts item
      end (mi_Diagnostic item) item
  else item.

Definition markUnfinishedMapItemsTerminal (nodeID status : string) (m : Manifest) : Manifest :=
  updateStep nodeID (λ step,
    match st_Items step with
    | None => step
    | Some items => st_setItems (map (closeUnfinishedItem status) items) step
    end) m.

Definition markAttemptRunning (nodeID : string) (attempt : Z) (input : DataArtifact) (m : Manifest) : Manifest :=
  updateStep nodeID (λ step,
    st_set StatusRunning (st_Attempts step ++ [newAttempt attempt StatusRunning input ""]) step) m.

Definition markAttemptRetrying (nodeID diagnostic : string) (m : Manifest) : Manifest :=
  updateStep nodeID (λ step,
    st_set (st_Status step) (updateLast (att_set StatusFailed diagnostic) (st_Attempts step)) step) m.

Definition markAttemptSucceeded (nodeID : string) (output : PublishedArtifact) (m : Manifest) : result Manifest :=
  match findManifestStep m nodeID with
  | None => Ok m
  | Some step =>
      match lastAttempt (st_Attempts step) with
      | None => Err nilAttempt
      | Some _ => Ok (updateStep nodeID (λ step,
          st_set StatusSucceeded (updateLast (att_succeed output) (st_Attempts step)) step) m)
      end
  end.

Definition markAttemptTerminal (nodeID status diagnostic : string) (m : Manifest) : Manifest :=
  updateStep nodeID (λ step, st_set status (closeAttempts status diagnostic (st_Attempts step)) step) m.

Definition markStepSkipped (nodeID : string) (reason : SkipReason) (m : Manifest) : Manifest :=
  updateStep nodeID (st_skip reason) m.

Definition addDecision (d : Decision) (m : Manifest) : Manifest := mf_setDecisions (mf_Decisions m ++ [d]) m.

Definition markDecisionFailed (nodeID diagnostic : string) (m : Manifest) : Manifest :=
  addDecision {| de_NodeID := nodeID; de_Status := "failed"; de_SelectedCase := "";
    de_Diagnostic := diagnostic; de_SkipReason := None |} m.

Definition markDecisionSkipped (nodeID : string) (reason : SkipReason) (m : Manifest) : Manifest :=
  addDecision {| de_NodeID := nodeID; de_Status := StatusSkipped; de_SelectedCase := "";
    de_Diagnostic := ""; de_SkipReason := Some reason |} m.

(** [failMapNode]: [cancelled] is [ctx.Err() != nil && errors.Is(cause, ctx.Err())]. *)
Definition failMapNode (cancelled : bool) (nodeID durableDiagnostic : string) (m : Manifest) : Manifest :=
  let status := if cancelled then StatusCancelled else StatusFailed in
  markAttemptTerminal nodeID status durableDiagnostic (markUnfinishedMapItemsTerminal nodeID status m).

(** The removal of an attempt the invoker never dispatched. *)
Definition dropUndispatchedAttempt (nodeID : string) (m : Manifest) : Manifest :=
  updateStep nodeID (λ step,
    let attempts := take (length (st_Attempts step) - 1) (st_Attempts step) in
    st_set (if (length attempts =? 0)%nat then StatusNotStarted else st_Status step) attempts step) m.

Record StepSummary := { su_NodeID : string; su_Status : string; su_Diagnostic : string }.
Definition summariesFromManifest (m : Manifest) : list StepSummary :=
  map (λ step, {| su_NodeID := st_NodeID step; su_Status := st_Status step;
    su_Diagnostic := match lastAttempt (st_Attempts step) with Some a => att_Diagnostic a | None => "" end |})
    (mf_Steps m).
