(* ===== verification/JournalSafety.v ===== *)
(** * Every journal the orchestrator publishes can be read back

    [JournalStep] is the orchestrator's discipline: which marking function it calls in
    which state of a step or map item.  By induction on the steps every manifest
    reachable from [newRunManifest] passes the reader's checks, and so does the
    manifest [Terminate] makes of it at any point, and the one of a successful end. *)

From S2P Require Import Prelude SpecTypes Journal JournalOps.
#[local] Open Scope Z_scope.

(** ** The reader's checks as propositions *)
Record attemptsOk (attempts : list Attempt) (status : string) : Prop := {
  ao_dense : ∀ i a, attempts !! i = Some a → att_Attempt a = Z.of_nat i + 1;
  ao_retried : ∀ i a, attempts !! i = Some a → (S i < length attempts)%nat → att_Status a = StatusFailed;
  ao_last : ∀ a, last attempts = Some a → att_Status a = status ∨
    att_Status a = StatusFailed ∧ (status = StatusRunning ∨ status = StatusCancelled);
}.

Lemma eqs_spec a b : eqs a b = true ↔ a = b.
Proof. apply bool_decide_eq_true. Qed.
Lemma eqs_false a b : eqs a b = false ↔ a ≠ b.
Proof. apply bool_decide_eq_false. Qed.
Lemma isOneOfS_spec a l : isOneOfS a l = true ↔ a ∈ l.
Proof.
  unfold isOneOfS. rewrite existsb_exists. setoid_rewrite eqs_spec.
  setoid_rewrite <- list_elem_of_In. split; [by intros (x & Hx & ->)|eauto].
Qed.
Lemma isOneOfS_false a l : isOneOfS a l = false ↔ a ∉ l.
Proof. rewrite <- isOneOfS_spec. by destruct (isOneOfS a l). Qed.

Lemma denseAttempts_Ok k attempts :
  denseAttempts k attempts = Ok tt ↔
  (∀ i a, attempts !! i = Some a → att_Attempt a = k + Z.of_nat i + 1) ∧
  (∀ i a, attempts !! i = Some a → (S i < length attempts)%nat → att_Status a = StatusFailed).
Proof.
  revert k; induction attempts as [|a rest IH]; intros k; cbn [denseAttempts].
  { split; [|done]. intros _. split; by intros. }
  destruct (Z.eqb_spec (att_Attempt a) (k + 1)) as [Ha|Ha]; cbn [negb].
  2: { split; [done|]. intros [Hd _]. specialize (Hd 0%nat a eq_refl). lia. }
  destruct (match rest with [] => false | _ :: _ => negb (eqs (att_Status a) StatusFailed) end) eqn:E.
  - split; [done|]. intros [_ Hr]. destruct rest as [|b rest]; [done|].
    apply negb_true_iff, eqs_false in E. exfalso. apply E, (Hr 0%nat); [done|]. simpl. lia.
  - rewrite IH. split.
    + intros [Hd Hr]. split.
      * intros [|i] x; [intros [= <-]; lia|]. intros Hx%Hd. lia.
      * intros [|i] x Hx Hlt; [|apply (Hr i x Hx); simpl in Hlt; lia].
        injection Hx as <-. destruct rest as [|b rest]; [simpl in Hlt; lia|].
        by apply negb_false_iff, eqs_spec in E.
    + intros [Hd Hr]. split.
      * intros i x Hx. specialize (Hd (S i) x Hx). lia.
      * intros i x Hx Hlt. apply (Hr (S i) x Hx). simpl. lia.
Qed.

Lemma validateAttempts_Ok attempts status :
  validateAttempts attempts status = Ok tt ↔ attemptsOk attempts status.
Proof.
  unfold validateAttempts. destruct (denseAttempts 0 attempts) as [[]|e] eqn:E; simpl.
  2: { split; [done|]. intros [Hd Hr _]. assert (denseAttempts 0 attempts = Ok tt) as X; [|congruence].
       apply denseAttempts_Ok. split; [|done]. intros i a Ha. rewrite (Hd i a Ha). lia. }
  apply denseAttempts_Ok in E as [Hd Hr].
  assert (∀ P : Prop, P ↔ (∀ a, last attempts = Some a → att_Status a = status ∨
    att_Status a = StatusFailed ∧ (status = StatusRunning ∨ status = StatusCancelled)) →
    P ↔ attemptsOk attempts status) as Hgo.
  { intros P ->. split; [|by intros []]. intros Hl. split; [|done|done].
    intros i a Ha. rewrite (Hd i a Ha). lia. }
  apply Hgo. destruct (last attempts) as [a|]; [|naive_solver].
  destruct (eqs (att_Status a) status) eqn:E1; cbn [negb andb].
  { apply eqs_spec in E1. naive_solver. }
  apply eqs_false in E1. destruct (eqs (att_Status a) StatusFailed) eqn:E2; cbn [negb orb].
  - apply eqs_spec in E2. destruct (eqs status StatusRunning) eqn:E3; cbn [negb andb].
    { apply eqs_spec in E3. naive_solver. }
    destruct (eqs status StatusCancelled) eqn:E4; cbn [negb].
    { apply eqs_spec in E4. naive_solver. }
    apply eqs_false in E3, E4. split; [done|]. intros H. destruct (H a eq_refl) as [|[_ [|]]]; done.
  - apply eqs_false in E2. split; [done|]. intros H. destruct (H a eq_refl) as [|[? _]]; done.
Qed.

Definition closedStatus (status : string) : Prop := status = StatusFailed ∨ status = StatusCancelled.

Record itemOk (step : Step) (item : MapItem) : Prop := {
  io_attempts : attemptsOk (mi_Attempts item) (mi_Status item);
  io_notStarted : mi_Status item = StatusNotStarted → closedStatus (st_Status step);
  io_succeeded : st_Status step = StatusSucceeded →
    mi_Status item = StatusSucceeded ∨ mi_Status item = StatusFailed ∧ st_ItemFailures step ≠ "";
  io_finished : closedStatus (st_Status step) →
    mi_Status item ≠ StatusPending ∧ mi_Status item ≠ StatusRunning;
}.

Record stepOk (status : string) (step : Step) : Prop := {
  sk_terminal : status ≠ StatusRunning → st_Status step ≠ StatusPending ∧ st_Status step ≠ StatusRunning;
  sk_succeeded : status = StatusSucceeded → st_Status step = StatusSucceeded ∨ st_Status step = StatusSkipped;
  sk_attempts : attemptsOk (st_Attempts step) (st_Status step);
  sk_inactive : ∀ items, st_Items step = Some items →
    st_Status step ∈ [StatusPending; StatusSkipped; StatusNotStarted] → items = [];
  sk_indexes : ∀ items i item, st_Items step = Some items → items !! i = Some item → mi_Index item = Z.of_nat i;
  sk_items : ∀ items item, st_Items step = Some items → item ∈ items → itemOk step item;
}.

Lemma closedStatus_spec s : isOneOfS s [StatusFailed; StatusCancelled] = true ↔ closedStatus s.
Proof. rewrite isOneOfS_spec, !elem_of_cons, elem_of_nil. unfold closedStatus. tauto. Qed.

Lemma checkItems_Ok step k items :
  checkItems step k items = Ok tt ↔
  (∀ i item, items !! i = Some item → mi_Index item = k + Z.of_nat i) ∧ Forall (itemOk step) items.
Proof.
  revert k; induction items as [|item rest IH]; intros k; cbn [checkItems].
  { split; [|done]. intros _. split; [by intros|constructor]. }
  rewrite Forall_cons. destruct (Z.eqb_spec (mi_Index item) k) as [Hk|Hk]; cbn [negb].
  2: { split; [done|]. intros [Hi _]. specialize (Hi 0%nat item eq_refl). lia. }
  assert ((∀ i x, (item :: rest) !! i = Some x → mi_Index x = k + Z.of_nat i) ↔
    (∀ i x, rest !! i = Some x → mi_Index x = k + 1 + Z.of_nat i)) as ->.
  { split; intros H.
    - intros i x Hx. rewrite (H (S i) x Hx). lia.
    - intros [|i] x; [intros [= <-]; lia|]. intros Hx. rewrite (H i x Hx). lia. }
  rewrite bind_Ok.
  setoid_rewrite wrapErr_Ok.
  set (closed := isOneOfS (st_Status step) [StatusFailed; StatusCancelled]).
  destruct (eqs (mi_Status item) StatusNotStarted && negb closed) eqn:E1.
  { split; [by intros ([] & _ & ?)|]. intros (_ & Hio & _). exfalso.
    apply andb_prop in E1 as [Hns%eqs_spec Hc%negb_true_iff].
    pose proof (io_notStarted _ _ Hio Hns) as Hcl. apply closedStatus_spec in Hcl. unfold closed in Hc. congruence. }
  destruct (eqs (st_Status step) StatusSucceeded && negb (eqs (mi_Status item) StatusSucceeded) &&
      (eqs (st_ItemFailures step) "" || negb (eqs (mi_Status item) StatusFailed))) eqn:E2.
  { split; [by intros ([] & _ & ?)|]. intros (_ & Hio & _). exfalso.
    apply andb_prop in E2 as [[Hs%eqs_spec Hi%negb_true_iff%eqs_false]%andb_prop Hf].
    destruct (io_succeeded _ _ Hio Hs) as [|[Hfail Hne]]; [done|].
    by apply orb_true_iff in Hf as [Hf%eqs_spec|Hf%negb_true_iff%eqs_false]. }
  destruct (closed && isOneOfS (mi_Status item) [StatusPending; StatusRunning]) eqn:E3.
  { split; [by intros ([] & _ & ?)|]. intros (_ & Hio & _). exfalso.
    apply andb_prop in E3 as [Hc%closedStatus_spec Hi%isOneOfS_spec].
    destruct (io_finished _ _ Hio Hc). by rewrite !elem_of_cons, elem_of_nil in Hi; destruct Hi as [|[|]]. }
  setoid_rewrite IH. assert (itemOk step item ↔ attemptsOk (mi_Attempts item) (mi_Status item)) as ->.
  { split; [by intros []|]. intros Ha. split; [done| | |].
    - intros Hns%eqs_spec. rewrite Hns in E1. simpl in E1. apply negb_false_iff in E1. by apply closedStatus_spec.
    - intros Hs%eqs_spec. rewrite Hs in E2. cbn [andb] in E2.
      destruct (eqs (mi_Status item) StatusSucceeded) eqn:E4; [left; by apply eqs_spec|]. right.
      simpl in E2. apply orb_false_iff in E2 as [H1%eqs_false H2%negb_false_iff%eqs_spec]. done.
    - intros Hc%closedStatus_spec. fold closed in Hc. rewrite Hc in E3. cbn [andb] in E3.
      apply isOneOfS_false in E3. rewrite !not_elem_of_cons in E3. naive_solver. }
  rewrite <- validateAttempts_Ok. split; [intros ([] & Hv & ? & ?); done|].
  intros (? & ? & ?). exists tt. done.
Qed.

Lemma checkStep_Ok status step : checkStep status step = Ok tt ↔ stepOk status step.
Proof.
  unfold checkStep.
  destruct (negb (eqs status StatusRunning) && isOneOfS (st_Status step) [StatusPending; StatusRunning]) eqn:E1.
  { split; [done|]. intros H. apply andb_prop in E1 as [Hr%negb_true_iff%eqs_false Hs%isOneOfS_spec].
    destruct (sk_terminal _ _ H Hr). by rewrite !elem_of_cons, elem_of_nil in Hs; destruct Hs as [|[|]]. }
  destruct (eqs status StatusSucceeded && negb (eqs (st_Status step) StatusSucceeded) &&
    negb (eqs (st_Status step) StatusSkipped)) eqn:E2.
  { split; [done|]. intros H.
    apply andb_prop in E2 as [[Hs%eqs_spec H1%negb_true_iff%eqs_false]%andb_prop H2%negb_true_iff%eqs_false].
    by destruct (sk_succeeded _ _ H Hs). }
  assert (status ≠ StatusRunning → st_Status step ≠ StatusPending ∧ st_Status step ≠ StatusRunning) as HT.
  { intros Hr%eqs_false. rewrite Hr in E1. cbn [negb andb] in E1. apply isOneOfS_false in E1.
    rewrite !not_elem_of_cons in E1. naive_solver. }
  assert (status = StatusSucceeded → st_Status step = StatusSucceeded ∨ st_Status step = StatusSkipped) as HS.
  { intros Hs%eqs_spec. rewrite Hs in E2. cbn [andb] in E2.
    apply andb_false_iff in E2 as [H%negb_false_iff%eqs_spec|H%negb_false_iff%eqs_spec]; auto. }
  rewrite bind_Ok. setoid_rewrite wrapErr_Ok.
  destruct (st_Items step) as [items|] eqn:Ei.
  2: { split; [intros ([] & Ha%validateAttempts_Ok & _)|intros H; exists tt; split; [apply validateAttempts_Ok, H|done]].
       split; try done; by rewrite Ei. }
  destruct (isOneOfS (st_Status step) [StatusPending; StatusSkipped; StatusNotStarted] &&
    negb (length items =? 0)%nat) eqn:E3.
  { split; [by intros ([] & _ & ?)|]. intros H. apply andb_prop in E3 as [H1%isOneOfS_spec H2%negb_true_iff].
    rewrite (sk_inactive _ _ H items Ei H1) in H2. done. }
  setoid_rewrite checkItems_Ok. split.
  - intros ([] & Ha%validateAttempts_Ok & Hi & Hf). split; try done.
    + intros items' E Hin. injection (eq_trans (eq_sym Ei) E) as <-. apply isOneOfS_spec in Hin.
      rewrite Hin in E3. cbn [andb] in E3. apply negb_false_iff, Nat.eqb_eq in E3. by apply length_zero_iff_nil.
    + intros items' i item E Hin. injection (eq_trans (eq_sym Ei) E) as <-. rewrite (Hi i item Hin). lia.
    + intros items' item E Hin. injection (eq_trans (eq_sym Ei) E) as <-.
      by apply (proj1 (Forall_forall _ _) Hf).
  - intros H. exists tt. split; [apply validateAttempts_Ok, H|]. split.
    + intros i item Hin. rewrite (sk_indexes _ _ H items i item Ei Hin). lia.
    + apply Forall_forall. intros item Hin. by apply (sk_items _ _ H items item Ei).
Qed.

Record manifestOk (m : Manifest) : Prop := {
  mo_failure : ∀ f, mf_Failure m = Some f → ∃ step, step ∈ mf_Steps m ∧ explainsFailure (ff_NodeID f) step = true;
  mo_steps : ∀ step, step ∈ mf_Steps m → stepOk (mf_Status m) step;
  mo_hook : ∀ hook, mf_ExitHook m = Some hook → attemptsOk (st_Attempts hook) (st_Status hook);
}.

Lemma checkManifest_Ok m : checkManifest m = Ok m ↔ manifestOk m.
Proof.
  unfold checkManifest. rewrite bind_Ok. setoid_rewrite bind_Ok. setoid_rewrite bind_Ok. split.
  - intros ([] & Hf & [] & Hs & [] & Hh & _). rewrite foldErr_unit in Hs. split.
    + intros f E. rewrite E in Hf. destruct (existsb _ _) eqn:Ex; [|done].
      apply existsb_exists in Ex as (step & Hin & Hstep). exists step. by rewrite list_elem_of_In.
    + intros step Hin. by apply checkStep_Ok, Hs.
    + intros hook E. rewrite E in Hh. by apply wrapErr_Ok, validateAttempts_Ok in Hh.
  - intros [Hf Hs Hh]. exists tt. split.
    { destruct (mf_Failure m) as [f|]; [|done]. destruct (Hf f eq_refl) as (step & Hin & Hstep).
      assert (existsb (explainsFailure (ff_NodeID f)) (mf_Steps m) = true) as ->; [|done].
      apply existsb_exists. exists step. by rewrite <- list_elem_of_In. }
    exists tt. split. { rewrite foldErr_unit. intros step Hin. by apply checkStep_Ok, Hs. }
    exists tt. split; [|done]. destruct (mf_ExitHook m) as [hook|]; [|done].
    by apply wrapErr_Ok, validateAttempts_Ok, Hh.
Qed.

(** ** Attempts *)
Lemma updateLast_length f l : length (updateLast f l) = length l.
Proof. induction l as [|a [|b l] IH]; [done|done|]. simpl in *. by rewrite IH. Qed.
Lemma updateLast_snoc f l a : updateLast f (l ++ [a]) = l ++ [f a].
Proof. induction l as [|b l IH]; [done|]. simpl. rewrite IH. by destruct (l ++ [a]) eqn:E; [destruct l|]. Qed.

Lemma attemptsOk_snoc_iff l a status :
  attemptsOk (l ++ [a]) status ↔
  (∀ i x, l !! i = Some x → att_Attempt x = Z.of_nat i + 1 ∧ att_Status x = StatusFailed) ∧
  att_Attempt a = Z.of_nat (length l) + 1 ∧
  (att_Status a = status ∨ att_Status a = StatusFailed ∧ (status = StatusRunning ∨ status = StatusCancelled)).
Proof.
  split.
  - intros [Hd Hr Hl]. split_and!.
    + intros i x Hx. split; [apply Hd; by apply lookup_app_l_Some|].
      apply (Hr i); [by apply lookup_app_l_Some|]. apply lookup_lt_Some in Hx. rewrite length_app. simpl. lia.
    + apply Hd. by rewrite lookup_app_r, Nat.sub_diag.
    + apply Hl. apply last_snoc.
  - intros (Hp & Ha & Hs). split.
    + intros i x [[_ Hx]|[-> <-]]%lookup_snoc_Some; [by apply Hp|done].
    + intros i x [[_ Hx]|[-> <-]]%lookup_snoc_Some Hlt; [by apply (Hp i)|]. rewrite length_app in Hlt. simpl in Hlt. lia.
    + intros x. rewrite last_snoc. by intros [= <-].
Qed.

Lemma attemptsOk_nil status : attemptsOk [] status.
Proof. by split. Qed.

(** A later attempt follows a failed one. *)
Definition retrying (attempts : list Attempt) : Prop :=
  ∀ a, last attempts = Some a → att_Status a = StatusFailed.

Lemma attemptsOk_start l status k input :
  attemptsOk l status → retrying l → k = Z.of_nat (length l) + 1 →
  attemptsOk (l ++ [newAttempt k StatusRunning input ""]) StatusRunning.
Proof.
  intros Ha Hr ->. apply attemptsOk_snoc_iff. split_and!; [|done|by left].
  destruct l as [|a l _] using rev_ind; [by intros ? ?|].
  specialize (Hr a). rewrite last_snoc in Hr. apply attemptsOk_snoc_iff in Ha as (Hp & Hn & _).
  intros i x [[_ Hx]|[-> <-]]%lookup_snoc_Some; [by apply Hp|]. auto.
Qed.

Lemma attemptsOk_updateLast l status f status' :
  attemptsOk l status → (∀ a, att_Attempt (f a) = att_Attempt a) →
  (∀ a, att_Status (f a) = status' ∨
    att_Status (f a) = StatusFailed ∧ (status' = StatusRunning ∨ status' = StatusCancelled)) →
  attemptsOk (updateLast f l) status'.
Proof.
  intros Ha Hf Hs. destruct l as [|a l _] using rev_ind; [apply attemptsOk_nil|].
  rewrite updateLast_snoc. apply attemptsOk_snoc_iff in Ha as (Hp & Hn & _).
  apply attemptsOk_snoc_iff. split_and!; [done|by rewrite Hf|done].
Qed.

Lemma attemptsOk_close l status status' diagnostic :
  attemptsOk l status → attemptsOk (closeAttempts status' diagnostic l) status'.
Proof.
  intros Ha. unfold closeAttempts. destruct l as [|a l].
  - apply (attemptsOk_snoc_iff [] _ status'). split_and!; [done|done|by left].
  - apply (attemptsOk_updateLast _ status); [done|done|by left].
Qed.

Lemma attemptsOk_drop l status :
  attemptsOk l status → attemptsOk (take (length l - 1) l) StatusRunning ∧ retrying (take (length l - 1) l).
Proof.
  intros Ha. destruct l as [|a l _] using rev_ind; [done|].
  rewrite length_app. simpl. rewrite Nat.add_sub, take_app_length.
  apply attemptsOk_snoc_iff in Ha as (Hp & _ & _). split.
  - destruct l as [|b l _] using rev_ind; [apply attemptsOk_nil|].
    destruct (Hp (length l) b) as [Hb Hs]; [by rewrite lookup_app_r, Nat.sub_diag|].
    apply attemptsOk_snoc_iff. split_and!; [|done|by right; split; [|left]].
    intros i x Hx. apply Hp. by apply lookup_app_l_Some.
  - intros x Hx. rewrite last_lookup in Hx. by apply (Hp _ x Hx).
Qed.

Lemma attemptsOk_terminate l status diagnostic :
  attemptsOk l StatusRunning → closedStatus status →
  attemptsOk (terminateRunningAttempts l status diagnostic) status.
Proof.
  intros Ha Hc. unfold terminateRunningAttempts. destruct l as [|a l _] using rev_ind; [apply attemptsOk_nil|].
  apply attemptsOk_snoc_iff in Ha as (Hp & Hn & Hs). rewrite map_app. simpl. apply attemptsOk_snoc_iff.
  split_and!.
  - intros i x Hx. apply list_lookup_fmap_Some in Hx as (y & -> & Hy). destruct (Hp i y Hy) as [H1 H2].
    rewrite H2. done.
  - rewrite length_map. by case_match.
  - destruct (eqs (att_Status a) StatusRunning) eqn:E; [by left|]. apply eqs_false in E.
    destruct Hs as [|[-> _]]; [done|]. destruct Hc as [->| ->]; [by left|right; split; [done|by right]].
Qed.

(** ** Live journals: what holds while the run goes on *)
Record liveItem (item : MapItem) : Prop := {
  li_attempts : attemptsOk (mi_Attempts item) (mi_Status item);
  li_status : mi_Status item ≠ StatusNotStarted;
  li_pending : mi_Status item = StatusPending → mi_Attempts item = [];
  li_running : mi_Status item = StatusRunning → mi_Attempts item ≠ [];
}.

Record liveStep (step : Step) : Prop := {
  ls_ok : stepOk StatusRunning step;
  ls_pending : st_Status step = StatusPending → st_Attempts step = [];
  ls_running : st_Status step = StatusRunning → st_Attempts step ≠ [];
  ls_items : ∀ items item, st_Status step = StatusRunning → st_Items step = Some items →
    item ∈ items → liveItem item;
  ls_ended : ∀ items item, st_Status step ≠ StatusPending → st_Status step ≠ StatusRunning →
    st_Items step = Some items → item ∈ items →
    mi_Status item ≠ StatusPending ∧ mi_Status item ≠ StatusRunning;
}.

Record liveManifest (m : Manifest) : Prop := {
  lm_status : mf_Status m = StatusRunning;
  lm_failure : mf_Failure m = None;
  lm_hook : mf_ExitHook m = None;
  lm_steps : ∀ step, step ∈ mf_Steps m → liveStep step;
}.

Lemma liveManifest_ok m : liveManifest m → manifestOk m.
Proof.
  intros [Hs Hf Hh Hl]. split; [by rewrite Hf| |by rewrite Hh].
  intros step Hin. rewrite Hs. by apply Hl.
Qed.

Lemma find_cons id step steps :
  head (filter (λ s, st_NodeID s = id) (step :: steps)) =
  if eqs (st_NodeID step) id then Some step else head (filter (λ s, st_NodeID s = id) steps).
Proof.
  rewrite filter_cons. destruct (eqs (st_NodeID step) id) eqn:E.
  - apply eqs_spec in E. by rewrite decide_True.
  - apply eqs_false in E. by rewrite decide_False.
Qed.

Lemma findManifestStep_elem m id step :
  findManifestStep m id = Some step → step ∈ mf_Steps m ∧ st_NodeID step = id.
Proof.
  unfold findManifestStep. intros (rest & Hr)%head_Some.
  assert (step ∈ filter (λ s, st_NodeID s = id) (mf_Steps m)) as Hin by (rewrite Hr; left).
  apply list_elem_of_filter in Hin. tauto.
Qed.

Lemma updateFirst_elem id f steps step' :
  step' ∈ updateFirst id f steps →
  step' ∈ steps ∨ ∃ step, head (filter (λ s, st_NodeID s = id) steps) = Some step ∧ step' = f step.
Proof.
  induction steps as [|step steps IH]; [by left|]. rewrite find_cons. cbn [updateFirst].
  destruct (eqs (st_NodeID step) id); rewrite !elem_of_cons; [naive_solver|].
  intros [->|[|]%IH]; auto.
Qed.

Lemma live_update m id f :
  liveManifest m → (∀ step, findManifestStep m id = Some step → liveStep (f step)) →
  liveManifest (updateStep id f m).
Proof.
  intros [Hs Hf Hh Hl] H. split; [done..|]. intros step' Hin.
  apply updateFirst_elem in Hin as [|(step & Hstep & ->)]; [by apply Hl|by apply H].
Qed.

Lemma live_find m id step : liveManifest m → findManifestStep m id = Some step → liveStep step.
Proof. intros Hl [? _]%findManifestStep_elem. by apply Hl. Qed.

(** A step without items needs only its attempts in order. *)
Lemma liveStep_plain step :
  st_Items step = None → attemptsOk (st_Attempts step) (st_Status step) →
  (st_Status step = StatusPending → st_Attempts step = []) →
  (st_Status step = StatusRunning → st_Attempts step ≠ []) → liveStep step.
Proof.
  intros Hi Ha Hp Hr. split; [split|done|done| |]; by rewrite ?Hi.
Qed.

Lemma attempts_snoc_ne (l : list Attempt) a : l ++ [a] ≠ [].
Proof. by destruct l. Qed.
Lemma updateLast_ne f l : l ≠ [] → updateLast f l ≠ [].
Proof. intros H E%(f_equal length). rewrite updateLast_length in E. by destruct l. Qed.
#[export] Hint Resolve attempts_snoc_ne updateLast_ne : massive.

(** A running step whose items are live. *)
Lemma liveStep_running step items :
  st_Status step = StatusRunning → st_Items step = Some items →
  attemptsOk (st_Attempts step) StatusRunning → st_Attempts step ≠ [] →
  (∀ i item, items !! i = Some item → mi_Index item = Z.of_nat i) →
  (∀ item, item ∈ items → liveItem item) → liveStep step.
Proof.
  intros Hs Hi Ha Hne Hx Hl. split.
  - split; [done|done|by rewrite Hs| | |].
    + intros items' E. rewrite Hs. rewrite !elem_of_cons, elem_of_nil. by intros [|[|[|]]].
    + intros items' i item E. simplify_eq. apply Hx.
    + intros items' item E Hin. simplify_eq. destruct (Hl item Hin) as [H1 H2 _ _].
      split; [done|done|by rewrite Hs|]. unfold closedStatus. rewrite Hs. by intros [|].
  - by rewrite Hs.
  - by intros _.
  - intros items' item _ E Hin. simplify_eq. by apply Hl.
  - by intros ? ? _ ?.
Qed.

(** An update of one item of a running step. *)
Lemma liveStep_item step items i f item :
  liveStep step → st_Status step = StatusRunning → st_Items step = Some items → items !! i = Some item →
  mi_Index (f item) = mi_Index item → liveItem (f item) → liveStep (st_setItems (alter f i items) step).
Proof.
  intros Hl Hs Hi Hit Hx Hf.
  apply liveStep_running with (items := alter f i items); try done.
  - cbn [st_setItems st_Attempts]. rewrite <- Hs. apply Hl.
  - by apply Hl.
  - intros j x. destruct (decide (i = j)) as [->|Hne].
    + rewrite list_lookup_alter_eq, Hit. intros [= <-]. rewrite Hx. by apply (sk_indexes _ _ (ls_ok _ Hl) items).
    + rewrite list_lookup_alter_ne by done. by apply (sk_indexes _ _ (ls_ok _ Hl) items).
  - intros x Hin. apply list_elem_of_lookup in Hin as [j Hj]. destruct (decide (i = j)) as [->|Hne].
    + rewrite list_lookup_alter_eq, Hit in Hj. by injection Hj as <-.
    + rewrite list_lookup_alter_ne in Hj by done. eapply Hl; [done|done|]. by eapply list_elem_of_lookup_2.
Qed.

Lemma itemAt_inv m id i item :
  itemAt m id i = Some item → ∃ step items, findManifestStep m id = Some step ∧
    st_Items step = Some items ∧ 0 ≤ i ∧ items !! Z.to_nat i = Some item.
Proof.
  unfold itemAt. intros (step & Hstep & (items & Hitems & H)%bind_Some)%bind_Some.
  destruct (Z.ltb_spec i 0); [done|]. eauto 6.
Qed.

(** [updateItem] keeps the journal live when the item it changes stays live. *)
Lemma live_updateItem m id i f step item :
  liveManifest m → findManifestStep m id = Some step → st_Status step = StatusRunning →
  itemAt m id i = Some item → mi_Index (f item) = mi_Index item → liveItem (f item) →
  liveManifest (updateItem id i f m).
Proof.
  intros Hl Hstep Hs Hit Hx Hf. apply live_update; [done|]. intros step' E. simplify_eq.
  apply itemAt_inv in Hit as (step' & items & E & Hi & Hnn & Hlk). simplify_eq. rewrite Hi.
  assert ((i <? 0) || (Z.of_nat (length items) <=? i) = false) as ->.
  { apply lookup_lt_Some in Hlk. lia. }
  eapply liveStep_item; try done. by eapply live_find.
Qed.

Lemma live_item m id i step item :
  liveManifest m → findManifestStep m id = Some step → st_Status step = StatusRunning →
  itemAt m id i = Some item → liveItem item.
Proof.
  intros Hl Hstep Hs (step' & items & E & Hi & Hnn & Hlk)%itemAt_inv. simplify_eq.
  eapply (ls_items step); [by eapply live_find|done..|]. by eapply list_elem_of_lookup_2.
Qed.

(** ** The orchestrator's discipline *)

(** Every item of a map is accounted for when the map succeeds. *)
Definition settledItems (step : Step) : Prop :=
  ∀ items item, st_Items step = Some items → item ∈ items →
    mi_Status item = StatusSucceeded ∨ mi_Status item = StatusFailed ∧ st_ItemFailures step ≠ "".

(** One journal update, in the states of the journal the orchestrator makes it in. *)
Inductive JournalStep : Manifest → Manifest → Prop :=
  | js_start m id step input :
      findManifestStep m id = Some step → st_Status step = StatusPending →
      JournalStep m (markAttemptRunning id 1 input m)
  | js_retry m id step attempt input :
      findManifestStep m id = Some step → st_Status step = StatusRunning → st_Items step = None →
      retrying (st_Attempts step) → attempt = Z.of_nat (length (st_Attempts step)) + 1 →
      JournalStep m (markAttemptRunning id attempt input m)
  | js_retrying m id step diagnostic :
      findManifestStep m id = Some step → st_Status step = StatusRunning →
      JournalStep m (markAttemptRetrying id diagnostic m)
  | js_succeeded m id step output m' :
      findManifestStep m id = Some step → st_Status step = StatusRunning → settledItems step →
      markAttemptSucceeded id output m = Ok m' → JournalStep m m'
  | js_terminal m id step status diagnostic :
      findManifestStep m id = Some step → st_Status step = StatusRunning → st_Items step = None →
      closedStatus status → JournalStep m (markAttemptTerminal id status diagnostic m)
  | js_drop m id step :
      findManifestStep m id = Some step → st_Status step = StatusRunning → st_Items step = None →
      JournalStep m (dropUndispatchedAttempt id m)
  | js_skipped m id step reason :
      findManifestStep m id = Some step → st_Status step = StatusPending →
      JournalStep m (markStepSkipped id reason m)
  | js_decision m decision : JournalStep m (addDecision decision m)
  | js_expand m id step n :
      findManifestStep m id = Some step → st_Status step = StatusRunning → st_Items step = Some [] →
      JournalStep m (markMapItemsPending id (seqZ 0 n) m)
  | js_itemStart m id step i item attempt input :
      findManifestStep m id = Some step → st_Status step = StatusRunning → itemAt m id i = Some item →
      (mi_Status item = StatusPending ∨ mi_Status item = StatusRunning ∧ retrying (mi_Attempts item)) →
      attempt = Z.of_nat (length (mi_Attempts item)) + 1 →
      JournalStep m (markMapItemRunning id i attempt input m)
  | js_itemRetrying m id step i item diagnostic :
      findManifestStep m id = Some step → st_Status step = StatusRunning → itemAt m id i = Some item →
      mi_Status item = StatusRunning → JournalStep m (markMapItemRetrying id i diagnostic m)
  | js_itemSucceeded m id step i item output m' :
      findManifestStep m id = Some step → st_Status step = StatusRunning → itemAt m id i = Some item →
      mi_Status item = StatusRunning → markMapItemSucceeded id i output m = Ok m' → JournalStep m m'
  | js_itemTerminal m id step i item status diagnostic :
      findManifestStep m id = Some step → st_Status step = StatusRunning → itemAt m id i = Some item →
      mi_Status item = StatusRunning → closedStatus status →
      JournalStep m (markMapItemTerminal id i status diagnostic m)
  | js_failMap m id step cancelled diagnostic :
      findManifestStep m id = Some step → st_Status step = StatusRunning →
      JournalStep m (failMapNode cancelled id diagnostic m).

Lemma updateLast_Some f l a : last l = Some a → last (updateLast f l) = Some (f a).
Proof.
  destruct l as [|b l _] using rev_ind; [done|]. rewrite last_snoc, updateLast_snoc, last_snoc. by intros [= <-].
Qed.

(** A running step that stays running, with other attempts. *)
Lemma liveStep_attempts step attempts :
  liveStep step → st_Status step = StatusRunning → attemptsOk attempts StatusRunning → attempts ≠ [] →
  liveStep (st_set StatusRunning attempts step).
Proof.
  intros Hl Hs Ha Hne. destruct (st_Items step) as [items|] eqn:Hi.
  - apply liveStep_running with items; try done.
    + intros i item. by apply (sk_indexes _ _ (ls_ok _ Hl) items).
    + intros item. by apply (ls_items _ Hl).
  - by apply liveStep_plain.
Qed.

(** A step that has ended, with its items ended. *)
Lemma liveStep_ended step status attempts :
  status ∈ [StatusSucceeded; StatusFailed; StatusCancelled] → attemptsOk attempts status →
  (∀ items i item, st_Items step = Some items → items !! i = Some item → mi_Index item = Z.of_nat i) →
  (∀ items item, st_Items step = Some items → item ∈ items → itemOk (st_set status attempts step) item) →
  liveStep (st_set status attempts step).
Proof.
  intros Hst Ha Hin Hi.
  assert (status ≠ StatusRunning ∧ status ∉ [StatusPending; StatusSkipped; StatusNotStarted]) as [Hr Hn].
  { rewrite !elem_of_cons, elem_of_nil in Hst. rewrite !not_elem_of_cons.
    by destruct Hst as [->|[->|[->|[]]]]; repeat split; try inversion 1. }
  assert (status ≠ StatusPending) as Hp by (intros ->; apply Hn; left).
  split; [split|..]; cbn [st_set st_Status st_Items]; try done.
  intros items item _ _ E Hit. destruct (Hi items item E Hit) as [_ _ Hsucc Hfin].
  rewrite !elem_of_cons, elem_of_nil in Hst. destruct Hst as [Hst|[Hst|[Hst|[]]]].
  - by destruct (Hsucc Hst) as [->|[-> _]].
  - apply Hfin. by left.
  - apply Hfin. by right.
Qed.

Lemma liveItem_running item attempts diagnostic :
  attemptsOk attempts StatusRunning → attempts ≠ [] → liveItem (mi_set StatusRunning attempts diagnostic item).
Proof. by intros; split. Qed.

Lemma liveItem_ended item status attempts diagnostic :
  status ≠ StatusPending → status ≠ StatusRunning → status ≠ StatusNotStarted →
  attemptsOk attempts status → liveItem (mi_set status attempts diagnostic item).
Proof. by intros; split. Qed.

Lemma closed_cases status : closedStatus status →
  status ≠ StatusPending ∧ status ≠ StatusRunning ∧ status ≠ StatusNotStarted ∧
  status ≠ StatusSucceeded ∧ status ≠ StatusSkipped.
Proof. by intros [->| ->]. Qed.

Lemma attempts_running step : liveStep step → st_Status step = StatusRunning →
  attemptsOk (st_Attempts step) StatusRunning.
Proof. intros Hl <-. apply Hl. Qed.
Lemma item_attempts_running item : liveItem item → mi_Status item = StatusRunning →
  attemptsOk (mi_Attempts item) StatusRunning.
Proof. intros Hl <-. apply Hl. Qed.

(** A failed map closes its items. *)
Lemma closeUnfinishedItem_ok step status item :
  closedStatus status → st_Status step = status → liveItem item → itemOk step (closeUnfinishedItem status item).
Proof.
  intros Hc Hs [Ha Hn Hp Hr]. pose proof (closed_cases _ Hc) as (C1 & C2 & C3 & C4 & C5).
  unfold closeUnfinishedItem.
  destruct (eqs (mi_Status item) StatusPending) eqn:E1.
  { apply eqs_spec in E1. split; cbn [mi_set mi_Status mi_Attempts]; rewrite ?Hp by done;
      [apply attemptsOk_nil|by rewrite Hs|congruence|done]. }
  apply eqs_false in E1. destruct (eqs (mi_Status item) StatusRunning) eqn:E2.
  - apply eqs_spec in E2. rewrite E2 in Ha.
    split; cbn [mi_set mi_Status mi_Attempts]; [|congruence|congruence|done].
    destruct (mi_Attempts item) as [|a l _] using rev_ind; [apply attemptsOk_nil|].
    unfold lastAttempt. rewrite last_snoc. destruct (eqs (att_Status a) StatusRunning) eqn:E3.
    { eapply attemptsOk_updateLast; [done|done|by left]. }
    apply eqs_false in E3. apply attemptsOk_snoc_iff in Ha as (H1 & H2 & [|[H3 _]]); [done|].
    apply attemptsOk_snoc_iff. split_and!; [done|done|]. destruct Hc as [->| ->]; auto.
  - apply eqs_false in E2. split; [done|congruence|congruence|done].
Qed.

Lemma updateStep_compose id f g m :
  (∀ step, st_NodeID (f step) = st_NodeID step) →
  updateStep id g (updateStep id f m) = updateStep id (λ step, g (f step)) m.
Proof.
  intros Hf. unfold updateStep. cbn [mf_setSteps mf_Steps].
  assert (updateFirst id g (updateFirst id f (mf_Steps m)) =
    updateFirst id (λ step, g (f step)) (mf_Steps m)) as ->; [|done].
  induction (mf_Steps m) as [|step steps IH]; [done|]. cbn [updateFirst].
  destruct (eqs (st_NodeID step) id) eqn:E; cbn [updateFirst]; [by rewrite Hf, E|]. by rewrite E, IH.
Qed.

Lemma markAttemptSucceeded_inv m id output m' step :
  findManifestStep m id = Some step → markAttemptSucceeded id output m = Ok m' →
  st_Attempts step ≠ [] ∧ m' = updateStep id (λ step,
    st_set StatusSucceeded (updateLast (att_succeed output) (st_Attempts step)) step) m.
Proof.
  unfold markAttemptSucceeded. intros ->. destruct (lastAttempt (st_Attempts step)) eqn:E; [|done].
  intros [= <-]. split; [|done]. by intros H; rewrite H in E.
Qed.

Lemma markMapItemSucceeded_inv m id i output m' item :
  itemAt m id i = Some item → markMapItemSucceeded id i output m = Ok m' →
  m' = updateItem id i (λ item,
    mi_set StatusSucceeded (updateLast (att_succeed output) (mi_Attempts item)) (mi_Diagnostic item) item) m.
Proof.
  unfold markMapItemSucceeded. intros ->. by destruct (lastAttempt (mi_Attempts item)); [intros [= <-]|].
Qed.

Lemma failMap_live m id step cancelled diagnostic :
  liveManifest m → findManifestStep m id = Some step → st_Status step = StatusRunning →
  liveManifest (failMapNode cancelled id diagnostic m).
Proof.
  intros Hl Hstep Hs. unfold failMapNode, markAttemptTerminal, markUnfinishedMapItemsTerminal.
  set (status := if cancelled then StatusCancelled else StatusFailed).
  assert (closedStatus status) as Hc by (unfold status; destruct cancelled; [by right|by left]).
  destruct (closed_cases _ Hc) as (C1 & C2 & C3 & C4 & C5).
  rewrite updateStep_compose by (intros s; by destruct (st_Items s)).
  apply live_update; [done|]. intros step' E. simplify_eq. pose proof (live_find _ _ _ Hl Hstep) as Hls.
  pose proof (attemptsOk_close _ _ status diagnostic (attempts_running _ Hls Hs)) as Ha.
  destruct (st_Items step) as [items|] eqn:Hi; [|apply liveStep_plain; [done|exact Ha|done|done]].
  apply liveStep_ended; cbn [st_setItems st_Items st_Attempts]; try done.
  - rewrite !elem_of_cons. destruct Hc as [-> | ->]; auto.
  - intros items' j x [= <-] Hx. apply list_lookup_fmap_Some in Hx as (y & -> & Hy).
    rewrite <- (sk_indexes _ _ (ls_ok _ Hls) items j y Hi Hy). unfold closeUnfinishedItem. by repeat case_match.
  - intros items' x [= <-] Hx. apply list_elem_of_fmap in Hx as (y & -> & Hy).
    apply closeUnfinishedItem_ok; [done|done|]. by eapply (ls_items step).
Qed.

Lemma journalStep_live m m' : liveManifest m → JournalStep m m' → liveManifest m'.
Proof.
  intros Hl Hstep. destruct Hstep as
    [m id step input Hf Hs|m id step k input Hf Hs Hi Hr Hk|m id step d Hf Hs|m id step output m' Hf Hs Hi Hm
    |m id step status d Hf Hs Hi Hc|m id step Hf Hs Hi|m id step r Hf Hs|m d|m id step n Hf Hs Hi
    |m id step i item k input Hf Hs Hit Hst Hk|m id step i item d Hf Hs Hit Hst|m id step i item output m' Hf Hs Hit Hst Hm
    |m id step i item status d Hf Hs Hit Hst Hc|m id step c d Hf Hs];
    try (pose proof (live_find _ _ _ Hl Hf) as Hls); try (pose proof (live_item _ _ _ _ _ Hl Hf Hs Hit) as Hli);
    try (pose proof (closed_cases _ Hc) as (C1 & C2 & C3 & C4 & C5)).
  - apply live_update; [done|]. intros step' E. simplify_eq.
    assert (attemptsOk (st_Attempts step ++ [newAttempt 1 StatusRunning input ""]) StatusRunning) as Ha.
    { rewrite (ls_pending _ Hls Hs). apply (attemptsOk_start [] StatusPending); [apply attemptsOk_nil|done|done]. }
    destruct (st_Items step) as [items|] eqn:Hi; [|by apply liveStep_plain; [| |done|intros _; apply attempts_snoc_ne]].
    assert (items = []) as -> by (apply (sk_inactive _ _ (ls_ok _ Hls) items Hi); rewrite Hs; by left).
    apply liveStep_running with []; try done; [apply attempts_snoc_ne|].
    intros ? H. by apply elem_of_nil in H.
  - apply live_update; [done|]. intros step' E. simplify_eq. apply liveStep_attempts; auto with massive.
    eapply attemptsOk_start; [by apply attempts_running|done|done].
  - apply live_update; [done|]. intros step' E. simplify_eq. rewrite Hs.
    apply liveStep_attempts; [done|done| |by apply updateLast_ne, Hls].
    eapply attemptsOk_updateLast; [by apply attempts_running|done|]. right. split; [done|by left].
  - destruct (markAttemptSucceeded_inv _ _ _ _ _ Hf Hm) as [Hne ->].
    apply live_update; [done|]. intros step' E. simplify_eq. apply liveStep_ended.
    + left.
    + eapply attemptsOk_updateLast; [by apply attempts_running|done|by left].
    + apply Hls.
    + intros items item E Hin. destruct (ls_items _ Hls items item Hs E Hin) as [H1 H2 _ _].
      split; [done|done|intros _; by apply (Hi items)|]. by intros [|].
  - apply live_update; [done|]. intros step' E. simplify_eq. apply liveStep_plain; try done.
    eapply attemptsOk_close. by apply attempts_running.
  - apply live_update; [done|]. intros step' E. simplify_eq. rewrite Hs.
    destruct (attemptsOk_drop _ _ (attempts_running _ Hls Hs)) as [Hd _].
    destruct (take _ _) as [|a l] eqn:Et; [|by apply liveStep_plain].
    by apply liveStep_plain.
  - apply live_update; [done|]. intros step' E. simplify_eq. pose proof (ls_pending _ Hls Hs) as Hp.
    assert (∀ items, st_Items step = Some items → items = []) as Hnil.
    { intros items Hi. apply (sk_inactive _ _ (ls_ok _ Hls) items Hi). rewrite Hs. by left. }
    split; [split|..]; cbn [st_skip st_Status st_Items st_Attempts]; try done.
    + rewrite Hp. apply attemptsOk_nil.
    + intros items H _. by apply Hnil.
    + intros items j item H%Hnil. by subst.
    + intros items item H%Hnil. subst. by intros ?%elem_of_nil.
    + intros items item _ _ H%Hnil. subst. by intros ?%elem_of_nil.
  - destruct Hl. by split.
  - apply live_update; [done|]. intros step' E. simplify_eq. rewrite Hi.
    eapply liveStep_running; [exact Hs|done|exact (attempts_running _ Hls Hs)|exact (ls_running _ Hls Hs)| |].
    + intros j x Hx. apply list_lookup_fmap_Some in Hx as (y & -> & Hy). apply lookup_seqZ in Hy as [-> _]. done.
    + intros x Hx. apply list_elem_of_fmap in Hx as (y & -> & _). by split.
  - eapply live_updateItem; try done. apply liveItem_running; auto with massive. destruct Hst as [Hst|[Hst Hr]].
    + rewrite (li_pending _ Hli Hst) in *. subst k. by apply (attemptsOk_start [] StatusPending); [apply attemptsOk_nil| |].
    + eapply attemptsOk_start; [by apply item_attempts_running|done|done].
  - eapply live_updateItem; try done. rewrite Hst. apply liveItem_running; [|by apply updateLast_ne, Hli].
    eapply attemptsOk_updateLast; [by apply item_attempts_running|done|]. right. split; [done|by left].
  - rewrite (markMapItemSucceeded_inv _ _ _ _ _ _ Hit Hm). eapply live_updateItem; try done.
    apply liveItem_ended; try done. eapply attemptsOk_updateLast; [by apply item_attempts_running|done|by left].
  - eapply live_updateItem; try done. apply liveItem_ended; try done.
    eapply attemptsOk_close. by apply item_attempts_running.
  - by eapply failMap_live.
Qed.

Lemma newRunManifest_live planHash projectKey runID order nodes :
  liveManifest (newRunManifest planHash projectKey runID order nodes).
Proof.
  split; [done..|]. intros step (id & -> & _)%list_elem_of_fmap.
  cbv beta zeta. destruct (isKind NodeKindMap (default zeroNode (nodes !! id))); [|by apply liveStep_plain].
  assert (∀ (items : list MapItem) item, Some [] = Some items → item ∉ items) as Hnil.
  { intros items item [= <-]. apply not_elem_of_nil. }
  split; [split|..]; cbn; try done.
  - by intros items [= <-].
  - intros items i item E Hi%list_elem_of_lookup_2. by destruct (Hnil _ _ E Hi).
  - intros items item E Hi. by destruct (Hnil _ _ E Hi).
Qed.

(** The manifests a run's journal goes through. *)
Definition reachable (m0 m : Manifest) : Prop := rtc JournalStep m0 m.

Lemma reachable_live planHash projectKey runID order nodes m :
  reachable (newRunManifest planHash projectKey runID order nodes) m → liveManifest m.
Proof.
  intros H. pose proof (newRunManifest_live planHash projectKey runID order nodes) as Hl.
  induction H as [|m1 m2 m3 Hstep _ IH]; [done|]. apply IH. by eapply journalStep_live.
Qed.

(** ** The end of a run *)
Lemma terminateItem_ok status diagnostic step step' item :
  closedStatus status → liveItem item → st_Status step' = status →
  st_Status step = StatusRunning → itemOk step' (terminateItem status diagnostic item).
Proof.
  intros Hc [Ha Hn Hp Hr] Hs' Hs. destruct (closed_cases _ Hc) as (C1 & C2 & C3 & C4 & C5).
  unfold terminateItem. destruct (eqs (mi_Status item) StatusPending) eqn:E1.
  { apply eqs_spec in E1. split; cbn [mi_set mi_Status mi_Attempts]; rewrite ?Hp by done;
      [apply attemptsOk_nil|by rewrite Hs'|congruence|done]. }
  apply eqs_false in E1. destruct (eqs (mi_Status item) StatusRunning) eqn:E2.
  - apply eqs_spec in E2. rewrite E2 in Ha.
    split; cbn [mi_set mi_Status mi_Attempts]; [by apply attemptsOk_terminate|congruence|congruence|done].
  - apply eqs_false in E2. split; [done|congruence|congruence|done].
Qed.

Lemma terminateItem_same status diagnostic item :
  mi_Status item ≠ StatusPending → mi_Status item ≠ StatusRunning → terminateItem status diagnostic item = item.
Proof. unfold terminateItem. by intros ->%eqs_false ->%eqs_false. Qed.

Lemma terminateItem_index status diagnostic item :
  mi_Index (terminateItem status diagnostic item) = mi_Index item.
Proof. unfold terminateItem. by repeat case_match. Qed.

(** The items of a step that has ended are not touched. *)
Lemma terminateItems_same status diagnostic step items :
  liveStep step → st_Status step ≠ StatusPending → st_Status step ≠ StatusRunning →
  st_Items step = Some items → map (terminateItem status diagnostic) items = items.
Proof.
  intros Hl Hp Hr Hi. rewrite <- (map_id items) at 2. apply map_ext_in. intros item Hit%list_elem_of_In.
  destruct (ls_ended _ Hl items item Hp Hr Hi Hit). by apply terminateItem_same.
Qed.

Lemma terminateStep_ok status diagnostic step :
  closedStatus status → liveStep step → stepOk status (terminateStep status diagnostic step).
Proof.
  intros Hc Hl. destruct (closed_cases _ Hc) as (C1 & C2 & C3 & C4 & C5). unfold terminateStep.
  destruct (eqs (st_Status step) StatusPending) eqn:E1.
  { apply eqs_spec in E1. pose proof (ls_pending _ Hl E1) as Hp. cbn [st_set st_Items].
    destruct (st_Items step) as [items|] eqn:Hi.
    - assert (items = []) as -> by (apply (sk_inactive _ _ (ls_ok _ Hl) items Hi); rewrite E1; left).
      split; cbn; rewrite ?Hp; try done; [by intros ? [= <-]|by intros ? ? ? [= <-]|].
      intros ? ? [= <-] H. by apply elem_of_nil in H.
    - split; cbn; rewrite ?Hp, ?Hi; try done. }
  apply eqs_false in E1. destruct (eqs (st_Status step) StatusRunning) eqn:E2.
  - apply eqs_spec in E2. pose proof (attempts_running _ Hl E2) as Ha.
    pose proof (attemptsOk_terminate _ _ diagnostic Ha Hc) as Ha'. cbn [st_set st_Items].
    destruct (st_Items step) as [items|] eqn:Hi; [|by split; cbn; rewrite ?Hi].
    split; cbn; try done.
    + intros items' _. rewrite !elem_of_cons, elem_of_nil. by intros [|[|[|]]].
    + intros items' j x [= <-] Hx. apply list_lookup_fmap_Some in Hx as (y & -> & Hy).
      rewrite terminateItem_index. by apply (sk_indexes _ _ (ls_ok _ Hl) items).
    + intros items' x [= <-] Hx. apply list_elem_of_fmap in Hx as (y & -> & Hy).
      eapply terminateItem_ok; [done|by eapply (ls_items step)|done|done].
  - apply eqs_false in E2. destruct (ls_ok _ Hl) as [_ _ Ha Hin Hx Hit].
    destruct (st_Items step) as [items|] eqn:Hi; [|by split; rewrite ?Hi].
    rewrite (terminateItems_same _ _ step) by done. split; cbn; try done.
    intros items' item [= <-] He. by destruct (Hit items item eq_refl He).
Qed.

Lemma terminate_steps status diagnostic m :
  closedStatus status → liveManifest m →
  ∀ step, step ∈ mf_Steps (Terminate status diagnostic m) → stepOk status step.
Proof.
  intros Hc Hl step (step' & -> & Hin)%list_elem_of_fmap. apply terminateStep_ok; [done|]. by apply Hl.
Qed.

(** A step the run has closed as failed stays the explanation of the failure. *)
Lemma explainsFailure_terminate status diagnostic id step :
  explainsFailure id step = true → explainsFailure id (terminateStep status diagnostic step) = true.
Proof.
  unfold explainsFailure. intros [[[H1 H2%eqs_spec]%andb_prop H3]%andb_prop H4]%andb_prop.
  unfold terminateStep. rewrite H2.
  assert (eqs StatusFailed StatusPending = false) as -> by done.
  assert (eqs StatusFailed StatusRunning = false) as -> by done.
  destruct (st_Items step) as [items|] eqn:Hi; [|by rewrite H1, H2, H3, Hi].
  cbn [st_setItems st_NodeID st_Status st_Attempts st_Items]. rewrite H1, H2, H3. cbn [andb].
  assert (eqs StatusFailed StatusFailed = true) as -> by done. cbn [andb].
  apply existsb_exists in H4 as (item & Hin & Hs). apply existsb_exists. exists item. split; [|done].
  apply andb_prop in Hs as [Hs%eqs_spec _]. apply in_map_iff. exists item. split; [|done].
  apply terminateItem_same; by rewrite Hs.
Qed.

(** The end of a successful run: the status and the result of the journal. *)
Definition finishManifest (result : DataArtifact) (m : Manifest) : Manifest :=
  mf_setOutcome StatusSucceeded (mf_Diagnostic m) (Some result) m.

Lemma finishManifest_ok m result : liveManifest m →
  (∀ step, step ∈ mf_Steps m → st_Status step = StatusSucceeded ∨ st_Status step = StatusSkipped) →
  manifestOk (finishManifest result m).
Proof.
  intros Hl Hall. split; [by cbn; rewrite (lm_failure _ Hl)| |by cbn; rewrite (lm_hook _ Hl)].
  intros step Hin. pose proof (Hall step Hin) as Hs.
  destruct (ls_ok _ (lm_steps _ Hl _ Hin)) as [H1 H2 H3 H4 H5 H6].
  split; try done. intros _. by destruct Hs as [-> | ->].
Qed.

Section Runs.
Context (planHash projectKey runID : string) (order : list string) (nodes : gmap string GraphNode).
#[local] Abbreviation fresh := (newRunManifest planHash projectKey runID order nodes).


(** A run that stops on a fatal failure of a dispatched step publishes a journal
    that names its cause, and the reader accepts it. *)
Theorem fatal_journal_readable m failure step diagnostic
    (Hm : reachable fresh m) (Hin : step ∈ mf_Steps m)
    (Hcause : explainsFailure (ff_NodeID failure) step = true) :
  let final := Terminate StatusFailed diagnostic (mf_setFailure (Some failure) m) in
  mf_Failure final = Some failure ∧ checkManifest final = Ok final.
Proof.
  cbv zeta. split; [done|]. pose proof (reachable_live _ _ _ _ _ _ Hm) as Hl.
  apply checkManifest_Ok. split.
  - intros f [= <-]. exists (terminateStep StatusFailed diagnostic step).
    split; [by apply list_elem_of_fmap_2|by apply explainsFailure_terminate].
  - apply (terminate_steps StatusFailed diagnostic m); [by left|done].
  - by cbn; rewrite (lm_hook _ Hl).
Qed.

(** When every step has succeeded or was skipped, the finished journal with the
    run's result passes the reader's checks; no step of it is left open. *)
Theorem finished_journal_readable m result
    (Hm : reachable fresh m)
    (Hall : Forall (λ step, st_Status step = StatusSucceeded ∨ st_Status step = StatusSkipped) (mf_Steps m)) :
  checkManifest (finishManifest result m) = Ok (finishManifest result m).
Proof.
  apply checkManifest_Ok, finishManifest_ok; [by eapply reachable_live|]. exact (proj1 (Forall_forall _ _) Hall).
Qed.

(** Marking a running step, or a running item of a running map, succeeded never
    dereferences a missing attempt. *)
Theorem succeeded_never_panics m id step
    (Hm : reachable fresh m) (Hf : findManifestStep m id = Some step) (Hs : st_Status step = StatusRunning) output :
  (∃ m', markAttemptSucceeded id output m = Ok m') ∧
  ∀ i item, itemAt m id i = Some item → mi_Status item = StatusRunning →
    ∃ m', markMapItemSucceeded id i output m = Ok m'.
Proof.
  pose proof (reachable_live _ _ _ _ _ _ Hm) as Hl. split.
  - unfold markAttemptSucceeded, lastAttempt. rewrite Hf.
    destruct (last (st_Attempts step)) eqn:E; [eauto|]. apply last_None in E.
    by destruct (ls_running _ (live_find _ _ _ Hl Hf) Hs).
  - intros i item Hit Hr. unfold markMapItemSucceeded, lastAttempt. rewrite Hit.
    destruct (last (mi_Attempts item)) eqn:E; [eauto|]. apply last_None in E.
    by destruct (li_running _ (live_item _ _ _ _ _ Hl Hf Hs Hit) Hr).
Qed.
End Runs.

(** ** A run of a step and a map of one item, which fails once *)
Definition mapNode : GraphNode :=
  {| gn_ID := "m"; gn_Kind := "map"; gn_InputSchema := ""; gn_OutputSchema := "";
     gn_SymbolRef := ""; gn_ContractRef := ""; gn_MergeInputs := []; gn_Selector := "";
     gn_Cases := []; gn_DecisionRef := ""; gn_SelectInputs := []; gn_ItemInputSchema := "";
     gn_ItemOutputSchema := ""; gn_MaxConcurrency := 1; gn_ItemFailures := "" |}.
Definition sampleNodes : gmap string GraphNode :=
  list_to_map [("m", mapNode)].
Definition sampleFresh : Manifest := newRunManifest "plan" "project" "run" ["a"; "m"] sampleNodes.
Definition sampleOutput : PublishedArtifact :=
  let ref := {| ar_Key := "k"; ar_Hash := "h"; ar_Size := 2; ar_ContentType := "application/json" |} in
  {| pa_Manifest := ref; pa_Body := ref; pa_Schema := "s" |}.
Definition orNow (r : result Manifest) (m : Manifest) : Manifest := match r with Ok m' => m' | Err _ => m end.
Definition succeedNow (id : string) (m : Manifest) : Manifest := orNow (markAttemptSucceeded id sampleOutput m) m.
Definition sampleMid : Manifest :=
  markMapItemRunning "m" 0 1 zeroDataArtifact (markMapItemsPending "m" (seqZ 0 1)
    (markAttemptRunning "m" 1 zeroDataArtifact
      (succeedNow "a" (markAttemptRunning "a" 1 zeroDataArtifact sampleFresh)))).
Definition sampleEnd : Manifest :=
  let m := markMapItemRunning "m" 0 2 zeroDataArtifact (markMapItemRetrying "m" 0 "exit status 1" sampleMid) in
  succeedNow "m" (orNow (markMapItemSucceeded "m" 0 sampleOutput m) m).
Definition sampleFailed : Manifest :=
  failMapNode false "m" "one or more map items failed"
    (markMapItemTerminal "m" 0 StatusFailed "out of memory" sampleMid).

Lemma settledItems_check step :
  match st_Items step with
  | None => true
  | Some items => forallb (λ item, eqs (mi_Status item) StatusSucceeded) items
  end = true → settledItems step.
Proof.
  intros H items item E Hin. rewrite E in H. left. apply eqs_spec.
  by apply (proj1 (forallb_forall _ _) H), list_elem_of_In.
Qed.

Lemma sampleMid_reachable : reachable sampleFresh sampleMid.
Proof.
  eapply rtc_l; [by eapply (js_start _ "a")|].
  eapply rtc_l; [eapply (js_succeeded _ "a"); [reflexivity..|by apply settledItems_check|reflexivity]|].
  eapply rtc_l; [by eapply (js_start _ "m")|].
  eapply rtc_l; [by eapply (js_expand _ "m" _ 1)|].
  eapply rtc_l; [eapply (js_itemStart _ "m" _ 0); [reflexivity..|by left|reflexivity]|].
  apply rtc_refl.
Qed.

Lemma sampleEnd_reachable : reachable sampleFresh sampleEnd.
Proof.
  unfold reachable; transitivity sampleMid; [apply sampleMid_reachable|].
  eapply rtc_l; [by eapply (js_itemRetrying _ "m" _ 0)|].
  eapply rtc_l; [eapply (js_itemStart _ "m" _ 0 _ 2)|].
  1-3: reflexivity.
  - right. split; [reflexivity|]. by intros a [= <-].
  - reflexivity.
  - eapply rtc_l; [by eapply (js_itemSucceeded _ "m" _ 0)|].
    eapply rtc_l; [eapply (js_succeeded _ "m"); [reflexivity..|by apply settledItems_check|reflexivity]|].
    apply rtc_refl.
Qed.

Lemma sampleFailed_reachable : reachable sampleFresh sampleFailed.
Proof.
  unfold reachable; transitivity sampleMid; [apply sampleMid_reachable|].
  eapply rtc_l; [eapply (js_itemTerminal _ "m" _ 0); [reflexivity..|by left]|].
  eapply rtc_l; [by eapply (js_failMap _ "m" _ false)|].
  apply rtc_refl.
Qed.


Lemma fatal_journal_readable_witness :
  let failure := {| ff_Message := "disk full"; ff_Type := "fatal"; ff_NodeID := "m" |} in
  let final := Terminate StatusFailed "fatal" (mf_setFailure (Some failure) sampleFailed) in
  mf_Failure final = Some failure ∧ checkManifest final = Ok final.
Proof.
  cbv zeta. eapply (fatal_journal_readable "plan" "project" "run" ["a"; "m"] sampleNodes sampleFailed _ _ "fatal"
    sampleFailed_reachable); [right; left|reflexivity].
Defined.

Lemma finished_journal_readable_witness :
  checkManifest (finishManifest zeroDataArtifact sampleEnd) = Ok (finishManifest zeroDataArtifact sampleEnd).
Proof.
  apply (finished_journal_readable "plan" "project" "run" ["a"; "m"] sampleNodes sampleEnd zeroDataArtifact
    sampleEnd_reachable).
  repeat constructor.
Defined.

Lemma succeeded_never_panics_witness :
  (∃ m', markAttemptSucceeded "m" sampleOutput sampleMid = Ok m') ∧
  ∃ m', markMapItemSucceeded "m" 0 sampleOutput sampleMid = Ok m'.
Proof.
  destruct (succeeded_never_panics "plan" "project" "run" ["a"; "m"] sampleNodes sampleMid "m" _
    sampleMid_reachable eq_refl eq_refl sampleOutput) as [H1 H2].
  split; [exact H1|]. eapply H2; reflexivity.
Defined.
