(* ===== verification/Datastore.v ===== *)
(** * The datastore interface

    [internal/datastore/datastore.go]: object keys and the operations a store offers.
    [Datastore] is the interface the rest of the program is written against, and
    [DatastoreLaws] what every implementation promises ([RunDatastoreContract] in
    [contract.go]): a conditional write never changes an existing object, a write never
    changes another object, and a read returns what was written.

    Platform: not Windows.  SHA-256 is left uninterpreted. *)

From S2P Require Import Prelude Utf16 Text Json Canonical CanonicalForm SourceIdentity.
From Stdlib Require Import Ascii.
#[local] Open Scope Z_scope.

Definition ErrInvalidKey : error := ErrNew "invalid datastore key".
Definition ErrNotFound : error := ErrNew "datastore object not found".
Definition ErrAccessDenied : error := ErrNew "datastore read denied".
Definition ErrAlreadyExists : error := ErrNew "datastore object already exists".

(** [errors.Is(err, ErrX)] for one of the errors above. *)
Definition isErr (e target : error) : bool :=
  match target with ErrNew m => errorsIs e m | _ => false end.

Record Key := { key_value : string }.
#[global] Instance Key_eq_dec : EqDecision Key.
Proof. solve_decision. Defined.
#[global] Program Instance Key_countable : Countable Key :=
  inj_countable' key_value Build_Key _.
Next Obligation. by intros []. Qed.

Definition isLetter (b : Z) : bool := inRange 65 90 b || inRange 97 122 b.
Definition isWindowsAbs (value : string) : bool :=
  match bytesOf value with
  | drive :: colon :: slash :: _ => isLetter drive && (colon =? 58) && ((slash =? 47) || (slash =? 92))
  | _ => false
  end.

(** The first segment the loop of [ParseKey] refuses. *)
Fixpoint badSegment (segments : list string) : option string :=
  match segments with
  | [] => None
  | s :: rest =>
      if bool_decide (s = "") || bool_decide (s = ".") || bool_decide (s = "..") then Some s else badSegment rest
  end.

Definition ParseKey (value : string) : result Key :=
  let invalid format := Err (Errorf format [AWrap ErrInvalidKey; AStr value]) in
  if bool_decide (value = "") then invalid "%w %q: key cannot be empty"
  else if HasPrefix value "/" then invalid "%w %q: key cannot have a leading slash"
  else if HasPrefix value "/" || isWindowsAbs value then invalid "%w %q: key cannot be absolute"
  else if containsByte (charOf 92) value then invalid "%w %q: key must use forward slashes"
  else
    match badSegment (splitOn "/" value) with
    | Some segment =>
        Err (Errorf "%w %q: invalid path segment %q" [AWrap ErrInvalidKey; AStr value; AStr segment])
    | None =>
        if negb (bool_decide (Clean value = value)) then invalid "%w %q: key is not normalized"
        else Ok {| key_value := value |}
    end.

(** [panic(err)] *)
Definition MustKey (value : string) : result Key :=
  match ParseKey value with Ok key => Ok key | Err e => Err (PanicError (errorText e)) end.

(** [^[0-9a-f]{64}$] *)
Definition digestHex (value : string) : bool :=
  (Z.of_nat (length (bytesOf value)) =? 64) && forallb isHexLower (bytesOf value).

Definition BlobKeySHA256Hex (digest : string) : result Key :=
  if negb (digestHex digest) then
    Err (Errorf "%w %q: blob digest must be 64 lowercase hex characters" [AWrap ErrInvalidKey; AStr digest])
  else ParseKey ("blobs/sha256/" +:+ digest).

Definition BlobKeyForBytes (sha256Hex : string → string) (body : string) : result Key :=
  match BlobKeySHA256Hex (sha256Hex body) with Ok key => Ok key | Err e => Err (PanicError (errorText e)) end.

Record PutOptions := { po_ContentType : string; po_IfAbsent : bool }.
Record ObjectInfo := { oi_Key : Key; oi_Size : Z; oi_ContentType : string }.
Record Object := { ob_Info : ObjectInfo; ob_Body : string }.

Definition defaultContentType (contentType : string) : string :=
  if bool_decide (contentType = "") then "application/octet-stream" else contentType.

Definition objectInfo (key : Key) (contentType body : string) : ObjectInfo :=
  {| oi_Key := key; oi_Size := Z.of_nat (String.length body); oi_ContentType := contentType |}.

(** The operations; [S] is the state of the store, the caller's context included. *)
Class Datastore (S : Type) := {
  Put : Key → string → PutOptions → S → result ObjectInfo * S;
  Get : Key → S → result Object;
  Exists : Key → S → result bool;
}.

(** [Open]: the object's declared size and type, and a reader, which gives bytes and then
    ends or fails. *)
Record Reader := { rd_Bytes : string; rd_Err : option error }.
Class Opener (S : Type) := { Open : Key → S → result (Reader * ObjectInfo) }.

(** [io.ReadAll(io.LimitReader(reader, n))] *)
Definition readAllLimited (n : Z) (reader : Reader) : result string :=
  if n <=? Z.of_nat (String.length (rd_Bytes reader)) then Ok (String.substring 0 (Z.to_nat n) (rd_Bytes reader))
  else match rd_Err reader with Some e => Err e | None => Ok (rd_Bytes reader) end.

(** What a store promises.  [view] is the objects a reader can see, each with its content
    type; [serving] says that reads are not refused (context, permissions, I/O).  A write that
    fails half way may leave the new body under the old content type. *)
Class DatastoreLaws (S : Type) `{Datastore S} := {
  view : S → gmap Key (string * string);
  serving : S → Prop;
  put_ok : ∀ key body options s info s', Put key body options s = (Ok info, s') →
    info = objectInfo key (defaultContentType (po_ContentType options)) body ∧
    (po_IfAbsent options = true → view s !! key = None) ∧
    view s' = <[ key := (defaultContentType (po_ContentType options), body) ]> (view s);
  put_frame : ∀ key body options s r s' key', Put key body options s = (r, s') → key' ≠ key →
    view s' !! key' = view s !! key';
  put_absent : ∀ key body options s r s', Put key body options s = (r, s') →
    po_IfAbsent options = true → is_Some (view s !! key) → view s' !! key = view s !! key;
  put_atomic : ∀ key body options s r s', Put key body options s = (r, s') →
    view s' !! key = view s !! key ∨ ∃ contentType, view s' !! key = Some (contentType, body);
  put_refused : ∀ key body options s e s', Put key body options s = (Err e, s') →
    isErr e ErrAlreadyExists = true → is_Some (view s !! key);
  get_ok : ∀ key s object, Get key s = Ok object →
    ∃ contentType body, view s !! key = Some (contentType, body) ∧
      object = {| ob_Info := objectInfo key contentType body; ob_Body := body |};
  get_serving : ∀ key s, serving s →
    match view s !! key with
    | Some _ => ∃ object, Get key s = Ok object
    | None => ∃ e, Get key s = Err e ∧ isErr e ErrNotFound = true
    end;
  exists_ok : ∀ key s b, Exists key s = Ok b → b = bool_decide (is_Some (view s !! key));
}.

Class OpenerLaws (S : Type) `{DatastoreLaws S, Opener S} := {
  open_serving : ∀ key s contentType body, serving s → view s !! key = Some (contentType, body) →
    Open key s = Ok ({| rd_Bytes := body; rd_Err := None |}, objectInfo key contentType body);
}.

(** ** The reference store: a map, which always serves *)
Module MemoryStore.
Definition store : Type := gmap Key (string * string).

Definition put (key : Key) (body : string) (options : PutOptions) (s : store) : result ObjectInfo * store :=
  let contentType := defaultContentType (po_ContentType options) in
  if po_IfAbsent options && bool_decide (is_Some (s !! key)) then
    (Err (Errorf "put %s if absent: %w" [AStr (key_value key); AWrap ErrAlreadyExists]), s)
  else (Ok (objectInfo key contentType body), <[ key := (contentType, body) ]> s).

Definition get (key : Key) (s : store) : result Object :=
  match s !! key with
  | Some (contentType, body) => Ok {| ob_Info := objectInfo key contentType body; ob_Body := body |}
  | None => Err (Errorf "get %s: %w" [AStr (key_value key); AWrap ErrNotFound])
  end.

#[export] Instance datastore : Datastore store :=
  {| Put := put; Get := get; Exists := λ key s, Ok (bool_decide (is_Some (s !! key))) |}.

#[export] Program Instance laws : DatastoreLaws store := {| view := id; serving := λ _, True |}.
Next Obligation.
  intros key body options s info s'. cbn. unfold put. destruct (po_IfAbsent options) eqn:E; cbn.
  - case_bool_decide as Hs; [done|]. intros [= <- <-]. split_and!; [done| |done]. intros _. by apply eq_None_not_Some.
  - by intros [= <- <-].
Qed.
Next Obligation.
  intros key body options s r s' key'. cbn. unfold put. destruct (_ && _); intros [= <- <-] Hne; [done|].
  by apply lookup_insert_ne.
Qed.
Next Obligation.
  intros key body options s r s'. cbn. unfold put. intros H Ha Hs. rewrite Ha, bool_decide_eq_true_2 in H by done.
  by injection H as <- <-.
Qed.
Next Obligation.
  intros key body options s r s'. cbn. unfold put. destruct (_ && _); intros [= <- <-]; [by left|right].
  eexists. apply lookup_insert_eq.
Qed.
Next Obligation.
  intros key body options s e s'. cbn. unfold put. destruct (po_IfAbsent options); cbn; [|done].
  by case_bool_decide.
Qed.
Next Obligation.
  intros key s object. cbn. unfold get, id. destruct (s !! key) as [[contentType body]|] eqn:E; [|done].
  intros [= <-]. by exists contentType, body.
Qed.
Next Obligation.
  intros key s _. change (match s !! key with
    | Some _ => ∃ object, get key s = Ok object
    | None => ∃ e, get key s = Err e ∧ isErr e ErrNotFound = true
    end). unfold get. destruct (s !! key) as [[contentType body]|]; eauto.
Qed.
Next Obligation. by intros key s b [= <-]. Qed.

Definition open (key : Key) (s : store) : result (Reader * ObjectInfo) :=
  object ← get key s; Ok ({| rd_Bytes := ob_Body object; rd_Err := None |}, ob_Info object).
#[export] Instance opener : Opener store := {| Open := open |}.
#[export] Program Instance openerLaws : OpenerLaws store.
Next Obligation.
  intros key s contentType body _ E. cbn. unfold open, get. change (s !! key = Some (contentType, body)) in E.
  by rewrite E.
Qed.
End MemoryStore.

(** ** Keys *)
Lemma badSegment_None segments : badSegment segments = None ↔ Forall properSegment segments.
Proof.
  rewrite <- hasInvalidSegment_false. induction segments as [|s l IH]; [done|]. cbn [badSegment hasInvalidSegment existsb].
  destruct (_ || _ || _); [by split|]. exact IH.
Qed.

Lemma ParseKey_Ok value key :
  ParseKey value = Ok key ↔
  key = {| key_value := value |} ∧ Forall properSegment (splitOn "/" value) ∧
  containsByte (charOf 92) value = false ∧ isWindowsAbs value = false.
Proof.
  pose proof (normalizedPath_spec value) as HN. unfold normalizedPath in HN.
  rewrite negb_true_iff, !orb_false_iff, hasInvalidSegment_false, negb_false_iff, bool_decide_eq_true,
    bool_decide_eq_false in HN.
  unfold ParseKey. case_bool_decide as He.
  { split; [done|]. intros (_ & Hs & Hb & _). by destruct (proj2 HN (conj Hb Hs)) as [[[[]]]]. }
  destruct (HasPrefix value "/") eqn:Ep.
  { split; [done|]. intros (_ & Hs & Hb & _). by destruct (proj2 HN (conj Hb Hs)) as [[[]]]. }
  cbn [orb]. destruct (isWindowsAbs value); [naive_solver|].
  destruct (containsByte (charOf 92) value) eqn:Eb; [naive_solver|].
  destruct (badSegment (splitOn "/" value)) as [seg|] eqn:Es.
  { split; [done|]. intros (_ & Hs%badSegment_None & _). congruence. }
  apply badSegment_None in Es. destruct (proj2 HN (conj eq_refl Es)) as [[_ Hc] _].
  rewrite bool_decide_eq_true_2 by done. cbn [negb]. split; [by intros [= <-]|by intros [-> _]].
Qed.

(** A datastore key is a relative slash path of proper segments, without backslashes
    and not absolute on Windows; the string is kept as it is. *)
Theorem ParseKey_spec value key :
  ParseKey value = Ok key ↔
  key = {| key_value := value |} ∧ Forall properSegment (splitOn "/" value) ∧
  containsByte (charOf 92) value = false ∧ isWindowsAbs value = false.
Proof. apply ParseKey_Ok. Qed.
