(* ===== verification/Encode.v ===== *)
(** * Encoding and decoding of structs

    [canonical.Marshal] of [internal/canonical/canonical.go], and what [json.Unmarshal]
    reads back into a struct: the fields of an object by name, integers and strings.  A
    struct is marshalled as the tree of its fields; the canonical form only sorts the
    members, so decoding the canonical text gives the struct back. *)

From S2P Require Import Prelude Utf16 Json Canonical CanonicalText CanonicalForm JsonRaw.
From Stdlib Require Import Ascii SpecFloat.
#[local] Open Scope Z_scope.

(** ** Decimal integers *)

(** [json.Unmarshal] into an [int] field: an integer literal in range. *)
Definition decodeInt (token : string) : option Z :=
  let '(neg, l) :=
    match bytesOf token with b :: l => if b =? 45 then (true, l) else (false, b :: l) | [] => (false, []) end in
  match digits l with
  | (d :: ds, []) =>
      let z := (if neg then -1 else 1) * digitsValue (d :: ds) in
      if (- 2 ^ 63 <=? z) && (z <? 2 ^ 63) then Some z else None
  | _ => None
  end.

Lemma digitsValue_snoc l b : digitsValue (l ++ [b]) = digitsValue l * 10 + (b - 48).
Proof. unfold digitsValue. by rewrite foldl_app. Qed.

Lemma pretty_char_byte x : (x < 10)%N → byteOf (pretty_N_char x) = 48 + Z.of_N x.
Proof.
  intros H. assert (x = 0 ∨ x = 1 ∨ x = 2 ∨ x = 3 ∨ x = 4 ∨ x = 5 ∨ x = 6 ∨ x = 7 ∨ x = 8 ∨ x = 9)%N as Hx by lia.
  by destruct Hx as [->|[->|[->|[->|[->|[->|[->|[->|[->| ->]]]]]]]]].
Qed.

Lemma pretty_go_digits x s : ∃ ds, bytesOf (pretty_N_go x s) = ds ++ bytesOf s ∧
  Forall (λ b, isDigit b = true) ds ∧ digitsValue ds = Z.of_N x ∧
  match ds with [] => x = 0%N | b :: _ => b ≠ 48 end.
Proof.
  revert s. induction (N.lt_wf_0 x) as [x _ IH]; intros s. destruct (decide (x = 0)%N) as [->|Hx].
  { exists []. rewrite pretty_N_go_0. split_and!; [done|constructor|done|done]. }
  rewrite pretty_N_go_step by lia.
  destruct (IH (x / 10)%N ltac:(apply N.div_lt; lia) (String (pretty_N_char (x mod 10)) s)) as (ds & E & Hd & Hv & Hh).
  pose proof (N.mod_lt x 10 ltac:(done)) as Hm. rewrite E. exists (ds ++ [48 + Z.of_N (x mod 10)]). split_and!.
  - cbn [bytesOf]. rewrite pretty_char_byte by done. by rewrite <- (assoc_L (++)).
  - apply Forall_app. split; [done|]. constructor; [|constructor]. unfold isDigit, inRange.
    revert Hm. generalize (x mod 10)%N. intros m Hm. lia.
  - rewrite digitsValue_snoc, Hv. rewrite (N.div_mod x 10) at 3 by done.
    revert Hm. generalize (x mod 10)%N (x / 10)%N. intros m q Hm. lia.
  - destruct ds as [|b ds]; [|exact Hh]. cbn [app]. pose proof (N.div_mod x 10 ltac:(done)) as Hdm.
    rewrite Hh in Hdm. revert Hdm. generalize (x mod 10)%N. intros m Hdm. lia.
Qed.

(** Decimal digits without a leading zero. *)
Definition plainDigits (ds : list Z) : Prop :=
  Forall (λ b, isDigit b = true) ds ∧ match ds with [] => False | b :: ds' => b = 48 → ds' = [] end.

Lemma pretty_N_digits x : plainDigits (bytesOf (pretty x)) ∧ digitsValue (bytesOf (pretty x)) = Z.of_N x.
Proof.
  unfold pretty, pretty_N. case_decide as Hx.
  { subst. split; [|done]. by split; [constructor|]. }
  destruct (pretty_go_digits x "") as (ds & E & Hd & Hv & Hh).
  rewrite E. cbn [bytesOf]. rewrite app_nil_r. split; [|done]. split; [done|]. by destruct ds as [|b ds].
Qed.

Lemma digits_only ds : Forall (λ b, isDigit b = true) ds → digits ds = (ds, []).
Proof. induction 1 as [|b ds Hb _ IH]; [done|]. cbn [digits]. by rewrite Hb, IH. Qed.

Lemma itoa_bytes z : ∃ ds, plainDigits ds ∧ digitsValue ds = Z.abs z ∧
  bytesOf (itoa z) = (if z <? 0 then 45 :: ds else ds).
Proof.
  unfold itoa, pretty, pretty_Z. destruct z as [|p|p].
  - exists [48]. split_and!; [|done|done]. by split; [constructor|].
  - destruct (pretty_N_digits (N.pos p)) as [Hd Hv]. by eexists.
  - destruct (pretty_N_digits (N.pos p)) as [Hd Hv]. exists (bytesOf (pretty (N.pos p))). split_and!; done.
Qed.

Lemma digit_not_dash b : isDigit b = true → (b =? 45) = false.
Proof. intros H%isDigit_range. lia. Qed.

Lemma decodeInt_itoa z : - 2 ^ 63 <= z < 2 ^ 63 → decodeInt (itoa z) = Some z.
Proof.
  intros Hz. destruct (itoa_bytes z) as (ds & [Hd Hh] & Hv & E). unfold decodeInt. rewrite E.
  destruct ds as [|b ds]; [done|]. pose proof (digit_not_dash b (Forall_inv Hd)) as Hb.
  destruct (Z.ltb_spec z 0); [change (45 =? 45) with true|rewrite Hb]; cbn iota beta;
    rewrite digits_only by done; rewrite Hv;
    match goal with |- context [?a && ?b] => replace (a && b) with true by lia end; f_equal; lia.
Qed.

Lemma itoa_numberToken z : numberToken (bytesOf (itoa z)).
Proof.
  split; [|apply bytesOf_range]. destruct (itoa_bytes z) as (ds & [Hd Hh] & _ & ->).
  assert (scanInt ds = Some (ds, [])) as Hs.
  { destruct ds as [|b ds]; [done|]. unfold scanInt. pose proof (Forall_inv Hd) as Hb.
    destruct (Z.eqb_spec b (ch "0")) as [->|Hne]; [by rewrite Hh|]. rewrite Hb. by rewrite digits_only. }
  assert (∀ sign, ('(i, l2) ← scanInt ds; '(f, l3) ← scanFrac l2; '(e, l4) ← scanExp l3;
    Some (sign ++ i ++ f ++ e, l4)) = Some (sign ++ ds, [])) as Hr.
  { intros sign. rewrite Hs. cbn. by rewrite app_nil_r. }
  unfold scanNumber. destruct (z <? 0).
  - change (45 =? ch "-") with true. cbn iota beta. apply Hr.
  - destruct ds as [|b ds]; [done|]. rewrite (digit_not_dash b (Forall_inv Hd) : (b =? ch "-") = false). apply Hr.
Qed.

Lemma itoa_plain z : existsb (isOneOf ".eE") (bytesOf (itoa z)) = false ∧ itoa z ≠ "-0".
Proof.
  destruct (itoa_bytes z) as (ds & [Hd Hh] & Hv & E). split.
  - assert (existsb (isOneOf ".eE") ds = false) as Hds.
    { clear Hh Hv E. induction Hd as [|b ds Hb%isDigit_range _ IH]; [done|]. cbn [existsb]. rewrite IH, orb_false_r.
      unfold isOneOf. cbn [bytesOf existsb]. change (byteOf ".") with 46. change (byteOf "e") with 101.
      change (byteOf "E") with 69. lia. }
    rewrite E. destruct (z <? 0); [|done]. cbn [existsb]. by rewrite Hds.
  - intros E0. rewrite E0 in E. destruct (Z.ltb_spec z 0).
    + cbn [bytesOf] in E. injection E as E. change (byteOf "0") with 48 in E. subst ds.
      unfold digitsValue in Hv. simpl in Hv. lia.
    + destruct ds as [|b ds]; [done|]. cbn [bytesOf] in E. injection E as E _.
      apply Forall_inv, isDigit_range in Hd. change (byteOf "-") with 45 in E. lia.
Qed.

(** A field that is absent or [null] keeps its zero value.  Names match exactly: the schemas
    the documents are checked against admit no other names. *)
Definition stringField (name : string) (ms : list (string * json)) : option string :=
  match member name ms with
  | None | Some JNull => Some ""
  | Some (JStr s) => Some s
  | Some _ => None
  end.
Definition intField (name : string) (ms : list (string * json)) : option Z :=
  match member name ms with
  | None | Some JNull => Some 0
  | Some (JNum token) => decodeInt token
  | Some _ => None
  end.

(** The fold of [encoding/json]: a member whose name is not a field's is matched without
    regard to case, the long s and the Kelvin sign included. *)
Definition foldRune (r : Z) : Z :=
  if inRange 97 122 r then r - 32 else if r =? 0x17F then 83 else if r =? 0x212A then 75 else r.
Definition foldName (name : string) : list Z := map foldRune (runes name).
Definition isField (field name : string) : bool := bool_decide (foldName name = foldName field).

(** [omitempty] of a string and of a pointer. *)
Definition omitEmpty (name value : string) : list (string * json) :=
  if bool_decide (value = "") then [] else [(name, JStr value)].
Definition omitNil {A} (name : string) (tree : A → json) (value : option A) : list (string * json) :=
  match value with Some x => [(name, tree x)] | None => [] end.

(** ** [canonical.Marshal] *)

(** Every string of the tree is valid UTF-8 ([AllowInvalidUTF8(false)]). *)
Fixpoint validStrings (t : json) : bool :=
  match t with
  | JNull | JBool _ | JNum _ => true
  | JStr s => validUtf8 s
  | JArr items => forallb validStrings items
  | JObj ms => forallb (λ kv, validUtf8 kv.1 && validStrings kv.2) ms
  end.

(** The canonical form with members sorted and number tokens kept. *)
Fixpoint sortTree (t : json) : json :=
  match t with
  | JArr items => JArr (map sortTree items)
  | JObj ms => JObj (sortMembers (map (λ kv, (kv.1, sortTree kv.2)) ms))
  | _ => t
  end.

(** Every number of the tree is an integer token. *)
Fixpoint integerTree (t : json) : Prop :=
  match t with
  | JNum token => ∃ z, token = itoa z
  | JArr items =>
      (fix all (l : list json) : Prop := match l with [] => True | x :: l' => integerTree x ∧ all l' end) items
  | JObj ms =>
      (fix all (l : list (string * json)) : Prop :=
        match l with [] => True | kv :: l' => integerTree kv.2 ∧ all l' end) ms
  | _ => True
  end.

Section Marshal.
Context (NumberToJSON : spec_float → result string).

(** The tree is the encoder's; the HTML escapes of its text are undone by the canonical form. *)
Definition Marshal (t : json) : result string :=
  if validStrings t then CanonicalizeJSON NumberToJSON (printJson t)
  else Err (Errorf "marshal JSON: %w" [AWrap (ErrNew "jsontext: invalid UTF-8 within string")]).

Lemma integerTree_JArr l : integerTree (JArr l) ↔ Forall integerTree l.
Proof. simpl. induction l as [|x l IH]; [by split|]. rewrite Forall_cons, IH. done. Qed.
Lemma integerTree_JObj ms : integerTree (JObj ms) ↔ Forall (λ kv, integerTree kv.2) ms.
Proof. simpl. induction ms as [|x l IH]; [by split|]. rewrite Forall_cons, IH. done. Qed.

Lemma decodeNumber_integer z d : decodeNumber NumberToJSON (itoa z) = Ok d → NumberToJSON d = Ok (itoa z).
Proof.
  unfold decodeNumber. destruct (ParseFloat (itoa z)) as [double|]; [|done].
  destruct (itoa_plain z) as [-> Hne]. rewrite bool_decide_eq_false_2 by done. cbn [negb andb].
  intros (encoded & He & H)%bind_Ok. case_bool_decide as E; [|done]. injection H as <-. congruence.
Qed.

(** The canonical form of a tree of integers. *)
Lemma canonTree_sortTree t : ∀ d v t', wellFormed d t → integerTree t →
  decodeNumbers NumberToJSON t = Ok v → canonTree NumberToJSON v = Ok t' → t' = sortTree t.
Proof.
  induction t as [|b|token|s|items IH|ms IH] using json_nested_ind; intros d v t' Hwf Hi Hd Hc;
    cbn [decodeNumbers] in Hd.
  1,2,4: injection Hd as <-; cbn in Hc; by injection Hc as <-.
  - destruct Hi as [z ->]. apply fmap_Ok in Hd as (x & Hx%decodeNumber_integer & ->). cbn in Hc.
    rewrite Hx in Hc. by injection Hc as <-.
  - apply fmap_Ok in Hd as (vs & Hd%mapErr_Ok & ->). cbn [canonTree] in Hc.
    apply fmap_Ok in Hc as (ts & Hc%mapErr_Ok & ->). cbn [sortTree]. f_equal.
    apply wellFormed_JArr in Hwf as [_ Hwf]. apply integerTree_JArr in Hi.
    revert ts Hc. induction Hd as [|t v items vs Htv _ IHd]; intros ts Hc; inversion Hc as [|? t' ? ts' Ht Hts]; subst; [done|].
    apply Forall_cons in IH as [IHt IH], Hwf as [Hwt Hwf], Hi as [Hit Hi]. cbn [map]. f_equal; [by eapply IHt|by apply IHd].
  - apply fmap_Ok in Hd as (vs & Hd%mapMembers_Ok & ->). cbn [canonTree] in Hc.
    apply fmap_Ok in Hc as (ts & Hc%mapMembers_Ok & ->). cbn [sortTree]. unfold compose. do 2 f_equal.
    apply wellFormed_JObj in Hwf as (_ & _ & Hwf). apply integerTree_JObj in Hi.
    revert ts Hc. induction Hd as [|t v items vs [Ek Htv] _ IHd]; intros ts Hc;
      inversion Hc as [|? t' ? ts' [Ek' Ht] Hts]; subst; [done|].
    apply Forall_cons in IH as [IHt IH], Hwf as [[_ Hwt] Hwf], Hi as [Hit Hi]. cbn [map]. f_equal; [|by apply IHd].
    destruct t' as [k' t']. cbn in *. f_equal; [congruence|]. by eapply IHt.
Qed.

(** A tree of integers marshals to its sorted form, which reads back. *)
Lemma Marshal_Ok t out : number_token_law NumberToJSON → number_reads_law NumberToJSON →
  wellFormed 0 t → integerTree t → Marshal t = Ok out →
  out = printJson (sortTree t) ∧ wellFormed 0 (sortTree t) ∧ unmarshal out = Some (sortTree t) ∧
  CanonicalizeJSON NumberToJSON out = Ok out.
Proof.
  intros Ht Hr Hwf Hi H. unfold Marshal in H. destruct (validStrings t); [|done].
  unfold CanonicalizeJSON in H. apply bind_Ok in H as (v & Hv & H).
  unfold decodeJSON in Hv. rewrite readValue_print in Hv by done. cbn [skipWs] in Hv.
  pose proof (decodeNumbers_wellFormed NumberToJSON 0 t v Hwf Hv) as Hwv.
  apply (write_canonTree NumberToJSON 0) in H as (t' & Hc & ->); [|done].
  pose proof (canonTree_wellFormed NumberToJSON Ht 0 v t' Hwv Hc) as Hwf'.
  destruct (canonTree_reads NumberToJSON Hr 0 v t' Hwv Hc) as (v' & Hd' & Hc').
  rewrite (canonTree_sortTree t 0 v t' Hwf Hi Hv Hc) in *. split_and!; [done|done| |].
  - unfold unmarshal. pose proof (readValue_print _ Hwf') as Hp. unfold readValue in *.
    by rewrite (parseValue_lenient _ _ _ _ Hp).
  - unfold CanonicalizeJSON. pose proof (decodeJSON_print NumberToJSON _ v' Hwf' Hd') as Hdj. rewrite Hdj.
    cbn [mbind result_bind]. apply (write_canonTree NumberToJSON 0); [by eapply decodeJSON_ok|by eexists].
Qed.
End Marshal.

(** ** Fields of the sorted tree *)
Lemma member_Some {A} name (ms : list (string * A)) v : NoDup ms.*1 →
  member name ms = Some v ↔ (name, v) ∈ ms.
Proof.
  revert v. induction ms as [|[n x] ms IH]; intros v; cbn; [intros _; split; [done|by intros ?%elem_of_nil]|].
  intros [Hn Hnd]%NoDup_cons. pose proof (λ v, IH v Hnd) as IH'. rewrite elem_of_cons.
  destruct (member name ms) as [v'|] eqn:E.
  - pose proof (proj1 (IH' v') eq_refl) as Hv'. rewrite (IH' v). split; [by right|]. intros [Heq|Hin]; [|done].
    injection Heq as -> ->. destruct Hn. by apply (list_elem_of_fmap_2 fst _ (n, v')).
  - assert ((name, v) ∉ ms) as Hnin by (intros Hin%IH'; done). case_bool_decide as Hne.
    + subst. split; [intros [= ->]; by left|]. by intros [[= ->]|].
    + split; [done|]. intros [Heq|]; [|done]. by injection Heq as -> ->.
Qed.

Lemma member_sorted name ms : NoDup ms.*1 →
  member name (sortMembers (map (λ kv, (kv.1, sortTree kv.2)) ms)) = sortTree <$> member name ms.
Proof.
  intros Hnd. set (ms' := map _ ms).
  assert (ms'.*1 = ms.*1) as Ek by (unfold ms'; clear; induction ms as [|kv ms IH]; [done|]; cbn; by rewrite IH).
  assert (NoDup ms'.*1) as Hnd' by (by rewrite Ek).
  assert (NoDup (sortMembers ms').*1) as Hnds by (by rewrite (sortMembers_Permutation ms')).
  apply option_eq. intros v. rewrite member_Some by done. rewrite (sortMembers_Permutation ms').
  unfold ms'. rewrite list_elem_of_fmap. split.
  - intros ([k t] & [= -> ->] & Hin). apply (member_Some _ _ _ Hnd) in Hin. by rewrite Hin.
  - intros (t & Hm & ->)%fmap_Some. exists (name, t). split; [done|]. by apply member_Some.
Qed.
