(* ===== verification/Artifact.v ===== *)
(** * Published values

    [internal/artifact/runtime.go]: a step's output is published as a content-addressed
    body and then a run-scoped manifest, both by conditional writes; the manifest is the
    commit point.  Resolving reads the manifest, checks it against the expected producer
    and schema, and checks the body against the manifest.

    JSON-schema validation belongs to a third-party package: [ValidateJSONSchema] and the
    compiled manifest schema are parameters.  The store is any [Datastore]. *)

From S2P Require Import Prelude Utf16 Text Json Canonical CanonicalText CanonicalForm JsonRaw SourceIdentity Datastore Encode.
From Stdlib Require Import Ascii SpecFloat.
#[local] Open Scope Z_scope.

Definition JSONContentType : string := "application/json".
Definition ManifestContentType : string := "application/vnd.massive.data-artifact-manifest+json".
Definition MaxJSONSafeInteger : Z := 9007199254740991.

Definition ErrValidation : error := ErrNew "artifact validation failed".
Definition ErrIntegrity : error := ErrNew "artifact integrity check failed".
Definition ErrBodyConflict : error := ErrNew "artifact body conflict".
Definition ErrManifestConflict : error := ErrNew "artifact manifest conflict".

Record Destination := { ds_ManifestKey : Key; ds_Schema : string }.

Record MapItemScopeFrame := { fr_Kind : string; fr_MapID : string; fr_Index : Z }.
Record ExecutionScope := { es_Frames : list MapItemScopeFrame }.

Record Producer := {
  pr_ProjectKey : string;
  pr_PlanHash : string;
  pr_RunID : string;
  pr_NodeID : string;
  pr_Attempt : Z;
  pr_Scope : option ExecutionScope;
}.

Record ArtifactRef := { rf_Key : string; rf_Hash : string; rf_Size : Z; rf_ContentType : string }.
Record PublishedJSON := { pj_Manifest : ArtifactRef; pj_Body : ArtifactRef; pj_Schema : string }.

Record dataArtifactManifest := {
  dm_Kind : string;
  dm_SchemaVersion : Z;
  dm_Encoding : string;
  dm_Producer : Producer;
  dm_Schema : string;
  dm_Body : ArtifactRef;
}.

#[global] Instance frame_eq_dec : EqDecision MapItemScopeFrame.
Proof. solve_decision. Defined.

(** ** The manifest's JSON *)
Definition frameTree (f : MapItemScopeFrame) : json :=
  JObj [("kind", JStr (fr_Kind f)); ("mapId", JStr (fr_MapID f)); ("index", JNum (itoa (fr_Index f)))].
Definition scopeTree (s : ExecutionScope) : json := JObj [("frames", JArr (map frameTree (es_Frames s)))].
Definition producerTree (p : Producer) : json :=
  JObj ([("projectKey", JStr (pr_ProjectKey p)); ("planHash", JStr (pr_PlanHash p)); ("runId", JStr (pr_RunID p));
         ("nodeId", JStr (pr_NodeID p)); ("attempt", JNum (itoa (pr_Attempt p)))] ++
        match pr_Scope p with Some s => [("scope", scopeTree s)] | None => [] end).
Definition refTree (r : ArtifactRef) : json :=
  JObj [("key", JStr (rf_Key r)); ("hash", JStr (rf_Hash r)); ("size", JNum (itoa (rf_Size r)));
        ("contentType", JStr (rf_ContentType r))].
Definition manifestTree (m : dataArtifactManifest) : json :=
  JObj [("kind", JStr (dm_Kind m)); ("schemaVersion", JNum (itoa (dm_SchemaVersion m)));
        ("encoding", JStr (dm_Encoding m)); ("producer", producerTree (dm_Producer m));
        ("schema", JStr (dm_Schema m)); ("body", refTree (dm_Body m))].

(** A struct field: absent or [null] is the zero struct. *)
Definition objectField (name : string) (ms : list (string * json)) : option (list (string * json)) :=
  match member name ms with
  | None | Some JNull => Some []
  | Some (JObj fields) => Some fields
  | Some _ => None
  end.

Definition decodeRef (ms : list (string * json)) : option ArtifactRef :=
  key ← stringField "key" ms; hash ← stringField "hash" ms; size ← intField "size" ms;
  contentType ← stringField "contentType" ms;
  Some {| rf_Key := key; rf_Hash := hash; rf_Size := size; rf_ContentType := contentType |}.

Definition decodeFrame (t : json) : option MapItemScopeFrame :=
  match t with
  | JNull => Some {| fr_Kind := ""; fr_MapID := ""; fr_Index := 0 |}
  | JObj ms =>
      kind ← stringField "kind" ms; mapId ← stringField "mapId" ms; index ← intField "index" ms;
      Some {| fr_Kind := kind; fr_MapID := mapId; fr_Index := index |}
  | _ => None
  end.

(** The scope is a pointer: absent or [null] is nil. *)
Definition decodeScope (ms : list (string * json)) : option (option ExecutionScope) :=
  match member "scope" ms with
  | None | Some JNull => Some None
  | Some (JObj fields) =>
      match member "frames" fields with
      | None | Some JNull => Some (Some {| es_Frames := [] |})
      | Some (JArr items) => frames ← mapM decodeFrame items; Some (Some {| es_Frames := frames |})
      | Some _ => None
      end
  | Some _ => None
  end.

Definition decodeProducer (ms : list (string * json)) : option Producer :=
  projectKey ← stringField "projectKey" ms; planHash ← stringField "planHash" ms; runId ← stringField "runId" ms;
  nodeId ← stringField "nodeId" ms; attempt ← intField "attempt" ms; scope ← decodeScope ms;
  Some {| pr_ProjectKey := projectKey; pr_PlanHash := planHash; pr_RunID := runId; pr_NodeID := nodeId;
          pr_Attempt := attempt; pr_Scope := scope |}.

Definition decodeManifestFields (ms : list (string * json)) : option dataArtifactManifest :=
  kind ← stringField "kind" ms; schemaVersion ← intField "schemaVersion" ms;
  encoding ← stringField "encoding" ms; producer ← objectField "producer" ms ≫= decodeProducer;
  schema ← stringField "schema" ms; ref ← objectField "body" ms ≫= decodeRef;
  if (schemaVersion <? 0) || (2 ^ 32 <=? schemaVersion) then None
  else Some {| dm_Kind := kind; dm_SchemaVersion := schemaVersion; dm_Encoding := encoding;
               dm_Producer := producer; dm_Schema := schema; dm_Body := ref |}.

(** [json.Unmarshal(body, &manifest)] *)
Definition decodeManifest (body : string) : option dataArtifactManifest :=
  match unmarshal body with
  | Some (JObj ms) => decodeManifestFields ms
  | Some JNull => decodeManifestFields []
  | _ => None
  end.

(** ** Identity checks *)
Definition safeByte (b : Z) : bool :=
  inRange 97 122 b || inRange 65 90 b || inRange 48 57 b || isOneOf "_.@:#-" b.

Definition isSafePathSegment (value : string) : bool :=
  negb ((Z.of_nat (String.length value) =? 0) || (128 <? Z.of_nat (String.length value)) ||
    bool_decide (value = ".") || bool_decide (value = "..")) && forallb safeByte (bytesOf value).

Definition isLowerHex (l : list Z) : bool := forallb isHexLower l.
Definition prefixedHex (prefix value : string) : bool :=
  (String.length value =? String.length prefix + 64)%nat &&
  match stripPrefix (bytesOf prefix) (bytesOf value) with Some rest => isLowerHex rest | None => false end.
Definition isSafeProjectKey (value : string) : bool := prefixedHex "sha256-" value.
Definition isHashRef (value : string) : bool := prefixedHex "sha256:" value.

Definition validFrame (frame : MapItemScopeFrame) : bool :=
  negb (negb (bool_decide (fr_Kind frame = "map-item")) || negb (isSafePathSegment (fr_MapID frame)) ||
    (fr_Index frame <? 0) || (MaxJSONSafeInteger <? fr_Index frame)).

Definition ValidateExecutionScope (scope : option ExecutionScope) : result unit :=
  match scope with
  | None => Ok tt
  | Some s =>
      match es_Frames s with
      | [] => Err (ErrNew "scope must contain at least one frame")
      | frames =>
          if forallb validFrame frames then Ok tt
          else Err (ErrNew "scope frame must be a map item with a safe map ID and exact nonnegative JSON index")
      end
  end.

Definition validateProducerIdentity (producer : Producer) : result unit :=
  if negb (isSafeProjectKey (pr_ProjectKey producer)) then
    Err (Errorf "%w: project key %q is not a normalized project namespace key"
      [AWrap ErrValidation; AStr (pr_ProjectKey producer)])
  else if negb (isHashRef (pr_PlanHash producer)) then
    Err (Errorf "%w: plan hash %q is not a SHA-256 reference" [AWrap ErrValidation; AStr (pr_PlanHash producer)])
  else if negb (isSafePathSegment (pr_RunID producer)) then
    Err (Errorf "%w: run ID %q is not a safe path segment" [AWrap ErrValidation; AStr (pr_RunID producer)])
  else if negb (isSafePathSegment (pr_NodeID producer)) then
    Err (Errorf "%w: node ID %q is not a safe path segment" [AWrap ErrValidation; AStr (pr_NodeID producer)])
  else if (pr_Attempt producer <? 1) || (MaxJSONSafeInteger <? pr_Attempt producer) then
    Err (Errorf "%w: attempt must be an exact positive JSON integer" [AWrap ErrValidation])
  else
    match ValidateExecutionScope (pr_Scope producer) with
    | Ok _ => Ok tt
    | Err e => Err (Errorf "%w: %v" [AWrap ErrValidation; AErr e])
    end.

Definition scopePath (scope : option ExecutionScope) : string :=
  match scope with
  | None => ""
  | Some s => foldl (λ key frame, key +:+ "/maps/" +:+ fr_MapID frame +:+ "/items/" +:+ itoa (fr_Index frame))
      "/scopes" (es_Frames s)
  end.

Definition outputManifestKey (producer : Producer) : result Key :=
  ParseKey ("projects/" +:+ pr_ProjectKey producer +:+ "/runs/" +:+ pr_RunID producer +:+ "/steps/" +:+
    pr_NodeID producer +:+ scopePath (pr_Scope producer) +:+ "/" +:+ itoa (pr_Attempt producer) +:+
    "/output-manifest.json").

Definition ValidateDestination (destination : Destination) (producer : Producer) : result unit :=
  _ ← validateProducerIdentity producer;
  if negb (isHashRef (ds_Schema destination)) then
    Err (Errorf "%w: schema %q is not a SHA-256 reference" [AWrap ErrValidation; AStr (ds_Schema destination)])
  else
    match outputManifestKey producer with
    | Err e => Err (Errorf "%w: invalid producer identity: %v" [AWrap ErrValidation; AErr e])
    | Ok want =>
        if negb (bool_decide (ds_ManifestKey destination = want)) then
          Err (Errorf "%w: manifest destination %s does not match producer slot %s"
            [AWrap ErrValidation; AStr (key_value (ds_ManifestKey destination)); AStr (key_value want)])
        else Ok tt
    end.

Definition sameProducer (left right : Producer) : bool :=
  bool_decide (pr_ProjectKey left = pr_ProjectKey right) && bool_decide (pr_PlanHash left = pr_PlanHash right) &&
  bool_decide (pr_RunID left = pr_RunID right) && bool_decide (pr_NodeID left = pr_NodeID right) &&
  (pr_Attempt left =? pr_Attempt right) &&
  match pr_Scope left, pr_Scope right with
  | Some l, Some r => bool_decide (es_Frames l = es_Frames r)
  | None, None => true
  | _, _ => false
  end.

Definition blobKey (hash : string) : result Key :=
  match stripPrefix (bytesOf "sha256:") (bytesOf hash) with
  | None => Err (Errorf "invalid SHA-256 reference %q" [AStr hash])
  | Some digest => BlobKeySHA256Hex (ofBytes digest)
  end.

(** ** Publishing and resolving *)
Section Operations.
Context (NumberToJSON : spec_float → result string) (sha256Hex : string → string).
Context (ValidateJSONSchema : string → string → result unit) (validateManifestSchema : string → result unit).
Context {S : Type} `{Datastore S}.

(** [bytes.Equal] of a text with its own canonical form. *)
Definition canonicalBytes (body : string) : bool :=
  match CanonicalizeJSON NumberToJSON body with Ok c => bool_decide (c = body) | Err _ => false end.

Definition validateCanonicalJSON (store : S) (schemaRef body : string) : result unit :=
  if negb (canonicalBytes body) then Err (Errorf "%w: value is not canonical JSON" [AWrap ErrValidation])
  else
    match blobKey schemaRef with
    | Err _ => Err (Errorf "%w: invalid schema reference %q" [AWrap ErrValidation; AStr schemaRef])
    | Ok schemaKey =>
        match Get schemaKey store with
        | Err e => Err (Errorf "%w: read schema %s: %v" [AWrap ErrValidation; AStr (key_value schemaKey); AErr e])
        | Ok schemaObject =>
            if negb (canonicalBytes (ob_Body schemaObject)) ||
               negb (bool_decide (DigestBytes sha256Hex (ob_Body schemaObject) = schemaRef)) then
              Err (Errorf "%w: schema %s is not canonical or does not match its digest"
                [AWrap ErrValidation; AStr schemaRef])
            else
              match ValidateJSONSchema (ob_Body schemaObject) body with
              | Ok _ => Ok tt
              | Err e => Err (Errorf "%w: value does not satisfy schema %s: %v"
                  [AWrap ErrValidation; AStr schemaRef; AErr e])
              end
        end
    end.

Definition putImmutable (key : Key) (body contentType : string) (conflict : error) (store : S) : result unit * S :=
  match Put key body {| po_ContentType := contentType; po_IfAbsent := true |} store with
  | (Ok _, store') => (Ok tt, store')
  | (Err err, store') =>
      (if negb (isErr err ErrAlreadyExists) then
         Err (Errorf "publish immutable object %s: %w" [AStr (key_value key); AWrap err])
       else
         match Get key store' with
         | Err getErr => Err (Errorf "%w: read existing object %s after create conflict: %v"
             [AWrap conflict; AStr (key_value key); AErr getErr])
         | Ok existing =>
             if negb (bool_decide (oi_ContentType (ob_Info existing) = contentType)) ||
                negb (bool_decide (ob_Body existing = body)) then
               Err (Errorf "%w: existing object %s differs" [AWrap conflict; AStr (key_value key)])
             else Ok tt
         end, store')
  end.

Definition canonicalManifest (manifest : dataArtifactManifest) : result string :=
  encoded ← wrapErr "encode canonical artifact manifest: %w" [] (Marshal NumberToJSON (manifestTree manifest));
  match validateManifestSchema encoded with
  | Ok _ => Ok encoded
  | Err e => Err (Errorf "%w: artifact manifest: %v" [AWrap ErrValidation; AErr e])
  end.

Definition sizeOf (s : string) : Z := Z.of_nat (String.length s).

Definition bodyRefOf (bodyKey : Key) (body : string) : ArtifactRef :=
  {| rf_Key := key_value bodyKey; rf_Hash := DigestBytes sha256Hex body; rf_Size := sizeOf body;
     rf_ContentType := JSONContentType |}.
Definition manifestOf (destination : Destination) (producer : Producer) (ref : ArtifactRef) : dataArtifactManifest :=
  {| dm_Kind := "DataArtifactManifest"; dm_SchemaVersion := 1; dm_Encoding := "canonical-json-v0";
     dm_Producer := producer; dm_Schema := ds_Schema destination; dm_Body := ref |}.
Definition manifestRefOf (destination : Destination) (manifestBytes : string) : ArtifactRef :=
  {| rf_Key := key_value (ds_ManifestKey destination); rf_Hash := DigestBytes sha256Hex manifestBytes;
     rf_Size := sizeOf manifestBytes; rf_ContentType := ManifestContentType |}.

(** The checks and encodings of [PublishJSON], before its writes. *)
Definition preparePublication (store : S) (destination : Destination) (producer : Producer) (body : string)
    : result (Key * ArtifactRef * string) :=
  _ ← ValidateDestination destination producer;
  _ ← validateCanonicalJSON store (ds_Schema destination) body;
  bodyKey ← blobKey (DigestBytes sha256Hex body);
  let bodyRef := bodyRefOf bodyKey body in
  manifestBytes ← canonicalManifest (manifestOf destination producer bodyRef);
  Ok (bodyKey, bodyRef, manifestBytes).

Definition PublishJSON (destination : Destination) (producer : Producer) (body : string) (store : S)
    : result PublishedJSON * S :=
  match preparePublication store destination producer body with
  | Err e => (Err e, store)
  | Ok (bodyKey, bodyRef, manifestBytes) =>
      match putImmutable bodyKey body JSONContentType ErrBodyConflict store with
      | (Err e, store1) => (Err e, store1)
      | (Ok _, store1) =>
          match putImmutable (ds_ManifestKey destination) manifestBytes ManifestContentType ErrManifestConflict store1 with
          | (Err e, store2) => (Err e, store2)
          | (Ok _, store2) =>
              (Ok {| pj_Manifest := manifestRefOf destination manifestBytes; pj_Body := bodyRef;
                     pj_Schema := ds_Schema destination |}, store2)
          end
      end
  end.

(** [ResolveJSON] once the manifest object is read: its checks, then the body's. *)
Definition resolveManifest (store : S) (destination : Destination) (producer : Producer) (manifestObject : Object)
    : result (PublishedJSON * string) :=
  let key := AStr (key_value (ds_ManifestKey destination)) in
  if negb (bool_decide (oi_ContentType (ob_Info manifestObject) = ManifestContentType)) then
    Err (Errorf "%w: manifest %s content type is %q"
      [AWrap ErrIntegrity; key; AStr (oi_ContentType (ob_Info manifestObject))])
  else if negb (canonicalBytes (ob_Body manifestObject)) then
    Err (Errorf "%w: manifest %s is not canonical JSON" [AWrap ErrIntegrity; key])
  else
    match validateManifestSchema (ob_Body manifestObject) with
    | Err e => Err (Errorf "%w: manifest %s: %v" [AWrap ErrIntegrity; key; AErr e])
    | Ok _ =>
        match decodeManifest (ob_Body manifestObject) with
        | None => Err (Errorf "%w: decode manifest %s: %v"
            [AWrap ErrIntegrity; key; AErr (ErrNew "json: cannot unmarshal")])
        | Some manifest =>
            if negb (sameProducer (dm_Producer manifest) producer) ||
               negb (bool_decide (dm_Schema manifest = ds_Schema destination)) then
              Err (Errorf "%w: manifest %s does not match its expected producer and schema" [AWrap ErrIntegrity; key])
            else
              match blobKey (rf_Hash (dm_Body manifest)) with
              | Err _ => Err (Errorf "%w: manifest %s body key does not match its digest" [AWrap ErrIntegrity; key])
              | Ok bodyKey =>
                  if negb (bool_decide (key_value bodyKey = rf_Key (dm_Body manifest))) then
                    Err (Errorf "%w: manifest %s body key does not match its digest" [AWrap ErrIntegrity; key])
                  else
                    match Get bodyKey store with
                    | Err e => Err (Errorf "%w: read manifest body %s: %v"
                        [AWrap ErrIntegrity; AStr (key_value bodyKey); AErr e])
                    | Ok bodyObject =>
                        if negb (bool_decide (oi_ContentType (ob_Info bodyObject) = JSONContentType)) ||
                           negb (sizeOf (ob_Body bodyObject) =? rf_Size (dm_Body manifest)) ||
                           negb (bool_decide (DigestBytes sha256Hex (ob_Body bodyObject) = rf_Hash (dm_Body manifest)))
                        then Err (Errorf "%w: body %s does not match its manifest"
                          [AWrap ErrIntegrity; AStr (key_value bodyKey)])
                        else
                          match validateCanonicalJSON store (dm_Schema manifest) (ob_Body bodyObject) with
                          | Err e => Err (Errorf "%w: body %s: %v"
                              [AWrap ErrIntegrity; AStr (key_value bodyKey); AErr e])
                          | Ok _ =>
                              Ok ({| pj_Manifest := manifestRefOf destination (ob_Body manifestObject);
                                     pj_Body := dm_Body manifest; pj_Schema := dm_Schema manifest |},
                                  ob_Body bodyObject)
                          end
                    end
              end
        end
    end.

Definition ResolveJSON (destination : Destination) (producer : Producer) (store : S)
    : result (PublishedJSON * string) :=
  _ ← ValidateDestination destination producer;
  manifestObject ← wrapErr "read artifact manifest %s: %w" [AStr (key_value (ds_ManifestKey destination))]
    (Get (ds_ManifestKey destination) store);
  resolveManifest store destination producer manifestObject.
End Operations.
