(* ===== verification/ArtifactSafety.v ===== *)
(** * What publishing and resolving guarantee

    A resolved value is exactly what its digest, manifest and schema say; a published
    value resolves to itself; once it resolves, no later publication changes it; and the
    slots of different producers are different. *)

From S2P Require Import Prelude Utf16 Text Json Canonical CanonicalText CanonicalForm JsonRaw SourceIdentity Datastore Encode Artifact.
From Stdlib Require Import Ascii SpecFloat.
#[local] Open Scope Z_scope.

(** ** Manifests read back *)
Ltac nodup_keys := apply (bool_decide_unpack _); vm_compute; reflexivity.

Lemma member_None {A} name (ms : list (string * A)) : name ∉ ms.*1 → member name ms = None.
Proof.
  induction ms as [|[n x] ms IH]; [done|]. cbn. intros H. rewrite not_elem_of_cons in H. destruct H as [Hn H].
  rewrite IH by done. by rewrite bool_decide_eq_false_2.
Qed.

Definition sorted (ms : list (string * json)) : list (string * json) :=
  sortMembers (map (λ kv, (kv.1, sortTree kv.2)) ms).

Lemma stringField_get name ms s : NoDup ms.*1 → (name, JStr s) ∈ ms → stringField name (sorted ms) = Some s.
Proof.
  intros Hnd Hin. unfold stringField, sorted. rewrite member_sorted by done.
  by rewrite (proj2 (member_Some _ _ _ Hnd) Hin).
Qed.
Lemma intField_get name ms z : - 2 ^ 63 <= z < 2 ^ 63 → NoDup ms.*1 → (name, JNum (itoa z)) ∈ ms →
  intField name (sorted ms) = Some z.
Proof.
  intros Hz Hnd Hin. unfold intField, sorted. rewrite member_sorted by done.
  rewrite (proj2 (member_Some _ _ _ Hnd) Hin). by apply decodeInt_itoa.
Qed.
Lemma objectField_get name ms fields : NoDup ms.*1 → (name, JObj fields) ∈ ms →
  objectField name (sorted ms) = Some (sorted fields).
Proof.
  intros Hnd Hin. unfold objectField, sorted. rewrite member_sorted by done.
  by rewrite (proj2 (member_Some _ _ _ Hnd) Hin).
Qed.

Ltac in_list := first [apply list_elem_of_here|apply list_elem_of_further; in_list].
Ltac field := first [assumption|lia|in_list|nodup_keys].

Definition intRange (z : Z) : Prop := - 2 ^ 63 <= z < 2 ^ 63.

Lemma decodeRef_tree r fields : intRange (rf_Size r) → refTree r = JObj fields → decodeRef (sorted fields) = Some r.
Proof.
  intros Hs [= <-]. unfold decodeRef.
  rewrite (stringField_get "key" _ (rf_Key r)) by field.
  rewrite (stringField_get "hash" _ (rf_Hash r)) by field.
  rewrite (intField_get "size" _ (rf_Size r)) by field.
  rewrite (stringField_get "contentType" _ (rf_ContentType r)) by field.
  by destruct r.
Qed.

Lemma decodeFrame_tree f : intRange (fr_Index f) → decodeFrame (sortTree (frameTree f)) = Some f.
Proof.
  intros Hi. unfold frameTree. cbn [sortTree].
  change (sortMembers (map (λ kv, (kv.1, sortTree kv.2)) ?l)) with (sorted l). cbn [decodeFrame].
  rewrite (stringField_get "kind" _ (fr_Kind f)) by field.
  rewrite (stringField_get "mapId" _ (fr_MapID f)) by field.
  rewrite (intField_get "index" _ (fr_Index f)) by field.
  by destruct f.
Qed.

Definition scopeRange (scope : option ExecutionScope) : Prop :=
  ∀ s, scope = Some s → Forall (λ f, intRange (fr_Index f)) (es_Frames s).

Lemma producerTree_keys p fields : producerTree p = JObj fields → NoDup fields.*1.
Proof. intros [= <-]. destruct (pr_Scope p); nodup_keys. Qed.

Lemma decodeScope_tree p fields : scopeRange (pr_Scope p) → producerTree p = JObj fields →
  decodeScope (sorted fields) = Some (pr_Scope p).
Proof.
  intros Hs E. pose proof (producerTree_keys p fields E) as Hnd. unfold decodeScope, sorted.
  rewrite member_sorted by done. destruct (pr_Scope p) as [s|] eqn:Es.
  - assert (("scope", scopeTree s) ∈ fields) as Hin.
    { injection E as <-. rewrite Es. in_list. }
    rewrite (proj2 (member_Some _ _ _ Hnd) Hin). unfold scopeTree. cbn [fmap option_fmap option_map sortTree].
    rewrite member_sorted by nodup_keys.
    rewrite (proj2 (member_Some "frames" [("frames", JArr (map frameTree (es_Frames s)))] _ ltac:(nodup_keys)) ltac:(in_list)).
    cbn [fmap option_fmap option_map sortTree].
    assert (mapM decodeFrame (map sortTree (map frameTree (es_Frames s))) = Some (es_Frames s)) as ->; [|by destruct s].
    apply mapM_Some. specialize (Hs s eq_refl). induction Hs as [|f frames Hf _ IH]; [constructor|].
    cbn [map]. constructor; [by apply decodeFrame_tree|done].
  - assert ("scope" ∉ fields.*1) as Hn.
    { injection E as <-. rewrite Es. apply (bool_decide_unpack _). vm_compute. reflexivity. }
    by rewrite member_None.
Qed.

Lemma decodeProducer_tree p fields : intRange (pr_Attempt p) → scopeRange (pr_Scope p) →
  producerTree p = JObj fields → decodeProducer (sorted fields) = Some p.
Proof.
  intros Ha Hs E. pose proof (producerTree_keys p fields E) as Hnd. unfold decodeProducer.
  rewrite (decodeScope_tree p fields Hs E). injection E as <-.
  rewrite (stringField_get "projectKey" _ (pr_ProjectKey p)) by field.
  rewrite (stringField_get "planHash" _ (pr_PlanHash p)) by field.
  rewrite (stringField_get "runId" _ (pr_RunID p)) by field.
  rewrite (stringField_get "nodeId" _ (pr_NodeID p)) by field.
  rewrite (intField_get "attempt" _ (pr_Attempt p)) by field.
  by destruct p.
Qed.

Definition manifestRange (m : dataArtifactManifest) : Prop :=
  0 <= dm_SchemaVersion m < 2 ^ 32 ∧ intRange (pr_Attempt (dm_Producer m)) ∧
  scopeRange (pr_Scope (dm_Producer m)) ∧ intRange (rf_Size (dm_Body m)).

Lemma decodeManifestFields_tree m fields : manifestRange m → manifestTree m = JObj fields →
  decodeManifestFields (sorted fields) = Some m.
Proof.
  intros (Hv & Ha & Hs & Hb) [= <-]. unfold decodeManifestFields.
  rewrite (stringField_get "kind" _ (dm_Kind m)) by field.
  rewrite (intField_get "schemaVersion" _ (dm_SchemaVersion m)) by field.
  rewrite (stringField_get "encoding" _ (dm_Encoding m)) by field.
  unfold producerTree at 1. erewrite (objectField_get "producer") by field. cbn [mbind option_bind].
  erewrite (decodeProducer_tree (dm_Producer m)) by first [done|reflexivity].
  rewrite (stringField_get "schema" _ (dm_Schema m)) by field.
  unfold refTree at 1. erewrite (objectField_get "body") by field. cbn [mbind option_bind].
  erewrite (decodeRef_tree (dm_Body m)) by first [done|reflexivity].
  cbn [mbind option_bind]. replace (_ || _) with false by lia. by destruct m.
Qed.

Lemma manifest_wellFormed m : validStrings (manifestTree m) = true → wellFormed 0 (manifestTree m).
Proof.
  intros H.
  assert (∀ d s, d < 100 → validStrings (JStr s) = true → wellFormed d (JStr s)) as Hstr by done.
  assert (∀ d z, wellFormed d (JNum (itoa z))) as Hnum by (intros; apply itoa_numberToken).
  assert (∀ d f, d < 100 → validStrings (frameTree f) = true → wellFormed d (frameTree f)) as Hframe.
  { intros d f Hd Hv. unfold frameTree in *. cbn [validStrings forallb fst snd] in Hv.
    rewrite !andb_true_iff in Hv. apply wellFormed_JObj. unfold maxNestingDepth. split; [lia|].
    split; [nodup_keys|]. repeat apply Forall_cons_2; try apply Forall_nil_2; cbn [fst snd];
      split; try tauto; apply itoa_numberToken. }
  assert (∀ d s, d < 90 → validStrings (scopeTree s) = true → wellFormed d (scopeTree s)) as Hscope.
  { intros d s Hd Hv. unfold scopeTree in *. cbn [validStrings forallb fst snd] in Hv.
    rewrite !andb_true_iff in Hv. destruct Hv as [[_ Hv] _]. apply wellFormed_JObj. unfold maxNestingDepth.
    split; [lia|]. split; [nodup_keys|]. apply Forall_singleton. split; [done|].
    apply wellFormed_JArr. unfold maxNestingDepth. split; [lia|]. apply Forall_forall.
    intros t (f & -> & Hin)%list_elem_of_fmap. apply Hframe; [lia|].
    apply (proj1 (forallb_forall _ _) Hv). apply in_map_iff. exists f. by rewrite <- list_elem_of_In. }
  assert (∀ d p, d < 80 → validStrings (producerTree p) = true → wellFormed d (producerTree p)) as Hprod.
  { intros d p Hd Hv. pose proof (producerTree_keys p _ eq_refl) as Hnd. unfold producerTree in *.
    cbn [validStrings] in Hv. apply wellFormed_JObj. unfold maxNestingDepth. split; [lia|]. split; [exact Hnd|].
    apply Forall_forall. intros kv Hin.
    pose proof (proj1 (forallb_forall _ _) Hv kv (proj1 (list_elem_of_In _ _) Hin)) as [Hk Ht]%andb_prop.
    split; [done|]. apply elem_of_app in Hin as [Hin|Hin].
    - rewrite !elem_of_cons, elem_of_nil in Hin. destruct Hin as [->|[->|[->|[->|[->|[]]]]]]; cbn [snd] in *;
        first [done|apply itoa_numberToken].
    - destruct (pr_Scope p); [|by apply elem_of_nil in Hin]. apply list_elem_of_singleton in Hin as ->. cbn [snd] in *.
      apply Hscope; [lia|done]. }
  unfold manifestTree in *. cbn [validStrings forallb fst snd] in H. rewrite !andb_true_iff in H.
  destruct H as [Hk1 [Hk2 [Hk3 [[Hn4 Hk4] [Hk5 [[Hn6 Hk6] _]]]]]].
  apply wellFormed_JObj. unfold maxNestingDepth. split; [lia|]. split; [nodup_keys|].
  repeat apply Forall_cons_2; try apply Forall_nil_2; cbn [fst snd]; (split; [tauto|]);
    try tauto; try apply itoa_numberToken.
  - by apply Hprod; [lia|].
  - unfold refTree in *. cbn [validStrings forallb fst snd] in Hk6. rewrite !andb_true_iff in Hk6.
    apply wellFormed_JObj. unfold maxNestingDepth. split; [lia|]. split; [nodup_keys|].
    repeat apply Forall_cons_2; try apply Forall_nil_2; cbn [fst snd]; split; try tauto; apply itoa_numberToken.
Qed.

Lemma manifest_integerTree m : integerTree (manifestTree m).
Proof.
  assert (∀ z, integerTree (JNum (itoa z))) as Hnum by (intros z; by exists z).
  assert (∀ s, integerTree (JStr s)) as Hstr by done.
  unfold manifestTree. apply integerTree_JObj.
  repeat apply Forall_cons_2; try apply Forall_nil_2; cbn [snd]; auto.
  - unfold producerTree. apply integerTree_JObj. apply Forall_app. split.
    { repeat apply Forall_cons_2; try apply Forall_nil_2; cbn [snd]; auto. }
    destruct (pr_Scope _); [|constructor]. apply Forall_singleton. unfold scopeTree. cbn [snd].
    apply integerTree_JObj, Forall_singleton. cbn [snd]. apply integerTree_JArr. apply Forall_forall.
    intros t (f & -> & _)%list_elem_of_fmap. apply integerTree_JObj.
    repeat apply Forall_cons_2; try apply Forall_nil_2; cbn [snd]; auto.
  - apply integerTree_JObj. repeat apply Forall_cons_2; try apply Forall_nil_2; cbn [snd]; auto.
Qed.

(** What [canonicalManifest] writes is canonical and decodes to the manifest. *)
Lemma canonicalManifest_reads NumberToJSON validate m encoded :
  number_token_law NumberToJSON → number_reads_law NumberToJSON → manifestRange m →
  canonicalManifest NumberToJSON validate m = Ok encoded →
  canonicalBytes NumberToJSON encoded = true ∧ validate encoded = Ok tt ∧ decodeManifest encoded = Some m.
Proof.
  intros Ht Hr Hm H. unfold canonicalManifest in H. apply bind_Ok in H as (e & He & H).
  destruct (validate e) as [[]|] eqn:Ev; [|done]. injection H as <-.
  destruct (Marshal NumberToJSON (manifestTree m)) as [e'|] eqn:Em; [|done]. injection He as <-.
  assert (validStrings (manifestTree m) = true) as Hv.
  { unfold Marshal in Em. by destruct (validStrings (manifestTree m)). }
  destruct (Marshal_Ok NumberToJSON (manifestTree m) e' Ht Hr (manifest_wellFormed m Hv) (manifest_integerTree m) Em)
    as (_ & _ & Hu & Hc).
  split_and!; [unfold canonicalBytes; rewrite Hc; by apply bool_decide_eq_true|done|].
  unfold decodeManifest. rewrite Hu. unfold manifestTree. cbn [sortTree].
  change (sortMembers (map (λ kv, (kv.1, sortTree kv.2)) ?l)) with (sorted l).
  by apply (decodeManifestFields_tree m).
Qed.

(** ** Against any store *)
Section Store.
Context (NumberToJSON : spec_float → result string) (sha256Hex : string → string).
Context (ValidateJSONSchema : string → string → result unit) (validateManifestSchema : string → result unit).
Context {S : Type} `{DatastoreLaws S}.
#[local] Abbreviation PublishJSON := (PublishJSON NumberToJSON sha256Hex ValidateJSONSchema validateManifestSchema).
#[local] Abbreviation ResolveJSON := (ResolveJSON NumberToJSON sha256Hex ValidateJSONSchema validateManifestSchema).
#[local] Abbreviation validateCanonicalJSON := (validateCanonicalJSON NumberToJSON sha256Hex ValidateJSONSchema).

(** Every object of the first store is in the second, unchanged. *)
Definition extends (s s' : S) : Prop := ∀ key x, view s !! key = Some x → view s' !! key = Some x.

#[local] Instance extends_preorder : PreOrder extends.
Proof. split; [by intros s k x|]. intros a b c H1 H2 k x Hx. auto. Qed.

Lemma putImmutable_extends key body contentType conflict s r s' :
  putImmutable key body contentType conflict s = (r, s') → extends s s'.
Proof.
  unfold putImmutable. destruct (Put key body _ s) as [p s1] eqn:Ep. intros E.
  assert (s1 = s') as -> by (destruct p; by injection E).
  intros k x Hx. destruct (decide (k = key)) as [->|Hne].
  - rewrite (put_absent _ _ _ _ _ _ Ep); [done|done|by eexists].
  - by rewrite (put_frame _ _ _ _ _ _ _ Ep Hne).
Qed.

(** After a successful conditional write the object is there, whoever wrote it. *)
Lemma putImmutable_stored key body contentType conflict s s' :
  contentType ≠ "" → putImmutable key body contentType conflict s = (Ok tt, s') →
  view s' !! key = Some (contentType, body).
Proof.
  intros Hct. unfold putImmutable. destruct (Put key body _ s) as [[info|e] s1] eqn:Ep.
  - intros [= <-]. destruct (put_ok _ _ _ _ _ _ Ep) as (_ & _ & ->). cbn [po_ContentType].
    unfold defaultContentType. rewrite bool_decide_eq_false_2 by done. apply lookup_insert_eq.
  - destruct (negb (isErr e ErrAlreadyExists)); [done|]. destruct (Get key s1) as [existing|] eqn:Eg; [|done].
    destruct (get_ok _ _ _ Eg) as (ct & b & Hv & ->). cbn [ob_Info oi_ContentType objectInfo ob_Body].
    do 2 case_bool_decide; cbn [negb orb]; intros [= <-]; subst; try done.
Qed.

Lemma PublishJSON_extends destination producer body s r s' :
  PublishJSON destination producer body s = (r, s') → extends s s'.
Proof.
  unfold Artifact.PublishJSON. destruct (preparePublication _ _ _ _ _ _ _ _) as [[[bodyKey bodyRef] manifestBytes]|];
    [|by intros [= _ <-]].
  destruct (putImmutable bodyKey _ _ _ s) as [[[]|] s1] eqn:E1; [|intros [= _ <-]; by eapply putImmutable_extends].
  apply putImmutable_extends in E1.
  destruct (putImmutable (ds_ManifestKey destination) _ _ _ s1) as [[[]|] s2] eqn:E2;
    apply putImmutable_extends in E2; intros [= _ <-]; by etrans.
Qed.

(** What a successful check of a value against its schema object read. *)
Lemma validateCanonicalJSON_Ok s schemaRef body : validateCanonicalJSON s schemaRef body = Ok tt →
  canonicalBytes NumberToJSON body = true ∧ ∃ schemaKey contentType schema, blobKey schemaRef = Ok schemaKey ∧
  view s !! schemaKey = Some (contentType, schema) ∧ canonicalBytes NumberToJSON schema = true ∧
  DigestBytes sha256Hex schema = schemaRef ∧ ValidateJSONSchema schema body = Ok tt.
Proof.
  unfold Artifact.validateCanonicalJSON. destruct (canonicalBytes NumberToJSON body) eqn:Eb; [|done]. cbn [negb].
  destruct (blobKey schemaRef) as [schemaKey|] eqn:Ek; [|done].
  destruct (Get schemaKey s) as [object|] eqn:Eg; [|done].
  destruct (get_ok _ _ _ Eg) as (ct & schema & Hv & ->). cbn [ob_Body].
  destruct (canonicalBytes NumberToJSON schema) eqn:Ec; [|done]. case_bool_decide as Ed; [|done]. cbn [negb orb].
  destruct (ValidateJSONSchema schema body) as [[]|] eqn:Es; [|done]. intros _. split; [done|].
  by exists schemaKey, ct, schema.
Qed.

Lemma serving_get s key contentType body : serving s → view s !! key = Some (contentType, body) →
  Get key s = Ok {| ob_Info := objectInfo key contentType body; ob_Body := body |}.
Proof.
  intros Hs Hv. pose proof (get_serving key s Hs) as Hg. rewrite Hv in Hg. destruct Hg as [object Hg].
  destruct (get_ok _ _ _ Hg) as (ct & b & Hv' & ->). rewrite Hg. congruence.
Qed.

(** The check depends only on the objects it read. *)
Lemma validateCanonicalJSON_extends s s' schemaRef body : serving s' → extends s s' →
  validateCanonicalJSON s schemaRef body = Ok tt → validateCanonicalJSON s' schemaRef body = Ok tt.
Proof.
  intros Hs He (Hb & schemaKey & ct & schema & Hk & Hv & Hc & Hd & Hval)%validateCanonicalJSON_Ok.
  unfold Artifact.validateCanonicalJSON. rewrite Hb, Hk, (serving_get _ _ _ _ Hs (He _ _ Hv)). cbn [negb ob_Body].
  by rewrite Hc, Hval, bool_decide_eq_true_2.
Qed.

(** What a resolved value was checked against. *)
Record resolved (destination : Destination) (producer : Producer) (s : S) (published : PublishedJSON) (body : string) : Prop := {
  rv_destination : ValidateDestination destination producer = Ok tt;
  rv_body_stored : ∃ bodyKey, blobKey (rf_Hash (pj_Body published)) = Ok bodyKey ∧
    rf_Key (pj_Body published) = key_value bodyKey ∧ view s !! bodyKey = Some (JSONContentType, body);
  rv_digest : rf_Hash (pj_Body published) = DigestBytes sha256Hex body;
  rv_size : rf_Size (pj_Body published) = sizeOf body;
  rv_schema_ref : pj_Schema published = ds_Schema destination;
  rv_schema : validateCanonicalJSON s (ds_Schema destination) body = Ok tt;
  rv_manifest : ∃ manifestBytes manifest,
    view s !! ds_ManifestKey destination = Some (ManifestContentType, manifestBytes) ∧
    canonicalBytes NumberToJSON manifestBytes = true ∧ validateManifestSchema manifestBytes = Ok tt ∧
    decodeManifest manifestBytes = Some manifest ∧ sameProducer (dm_Producer manifest) producer = true ∧
    dm_Schema manifest = ds_Schema destination ∧ dm_Body manifest = pj_Body published ∧
    pj_Manifest published = manifestRefOf sha256Hex destination manifestBytes;
}.

Lemma ResolveJSON_Ok destination producer s published body :
  ResolveJSON destination producer s = Ok (published, body) → resolved destination producer s published body.
Proof.
  unfold Artifact.ResolveJSON. intros ([] & Hd & (object & Hg & Hr)%bind_Ok)%bind_Ok.
  destruct (Get (ds_ManifestKey destination) s) as [object'|] eqn:Eg; [|done]. injection Hg as ->.
  destruct (get_ok _ _ _ Eg) as (ct & mbytes & Hv & ->). unfold resolveManifest in Hr.
  cbn [ob_Info oi_ContentType objectInfo ob_Body] in Hr. case_bool_decide as Ect; [|done]. subst ct. cbn [negb] in Hr.
  destruct (canonicalBytes NumberToJSON mbytes) eqn:Ec; [|done]. cbn [negb] in Hr.
  destruct (validateManifestSchema mbytes) as [[]|] eqn:Es; [|done].
  destruct (decodeManifest mbytes) as [manifest|] eqn:Em; [|done].
  destruct (sameProducer (dm_Producer manifest) producer) eqn:Ep; [|done].
  case_bool_decide as Esch; [|done]. cbn [negb orb] in Hr.
  destruct (blobKey (rf_Hash (dm_Body manifest))) as [bodyKey|] eqn:Ek; [|done].
  case_bool_decide as Ebk; [|done]. cbn [negb] in Hr.
  destruct (Get bodyKey s) as [bobject|] eqn:Eb; [|done].
  destruct (get_ok _ _ _ Eb) as (ct & b & Hvb & ->). cbn [ob_Info oi_ContentType objectInfo ob_Body] in Hr.
  case_bool_decide as Ect; [|done]. subst ct. cbn [negb orb] in Hr.
  destruct (Z.eqb_spec (sizeOf b) (rf_Size (dm_Body manifest))) as [Esz|]; [|done]. cbn [negb orb] in Hr.
  case_bool_decide as Edg; [|done]. cbn [negb] in Hr.
  destruct (validateCanonicalJSON s (dm_Schema manifest) b) as [[]|] eqn:Ev; [|done].
  injection Hr as <- <-. split; cbn [pj_Body pj_Schema pj_Manifest].
  - done.
  - exists bodyKey. by split_and!.
  - by rewrite Edg.
  - done.
  - done.
  - by rewrite <- Esch.
  - exists mbytes, manifest. by split_and!.
Qed.

Lemma sameProducer_refl p : sameProducer p p = true.
Proof.
  unfold sameProducer. rewrite !bool_decide_eq_true_2 by done. rewrite Z.eqb_refl. cbn [andb].
  destruct (pr_Scope p); [by apply bool_decide_eq_true|done].
Qed.

Lemma ValidateDestination_range destination producer : ValidateDestination destination producer = Ok tt →
  intRange (pr_Attempt producer) ∧ scopeRange (pr_Scope producer).
Proof.
  unfold ValidateDestination. intros ([] & Hp & _)%bind_Ok. unfold validateProducerIdentity in Hp.
  do 4 (match type of Hp with (if ?b then _ else _) = _ => destruct b; [done|] end).
  destruct ((pr_Attempt producer <? 1) || (MaxJSONSafeInteger <? pr_Attempt producer)) eqn:Ea; [done|].
  unfold MaxJSONSafeInteger in *. split; [unfold intRange; lia|]. intros s Es. rewrite Es in Hp. cbn [ValidateExecutionScope] in Hp.
  destruct (es_Frames s) as [|f frames] eqn:Ef; [done|].
  destruct (forallb validFrame (f :: frames)) eqn:Ev; [|done]. apply Forall_forall. intros x Hx.
  pose proof (proj1 (forallb_forall _ _) Ev x (proj1 (list_elem_of_In _ _) Hx)) as Hf.
  unfold validFrame, MaxJSONSafeInteger in Hf. rewrite negb_true_iff, !orb_false_iff in Hf. unfold intRange. lia.
Qed.

Lemma publication_resolves destination producer body published s s' s'' :
  number_token_law NumberToJSON → number_reads_law NumberToJSON → sizeOf body < 2 ^ 63 →
  PublishJSON destination producer body s = (Ok published, s') → extends s' s'' → serving s'' →
  ResolveJSON destination producer s'' = Ok (published, body).
Proof.
  intros Ht Hr Hsz Hp He Hs. unfold Artifact.PublishJSON in Hp.
  destruct (preparePublication _ _ _ _ _ _ _ _) as [[[bodyKey bodyRef] manifestBytes]|] eqn:Eprep; [|done].
  unfold preparePublication in Eprep. apply bind_Ok in Eprep as ([] & Hd & Eprep).
  apply bind_Ok in Eprep as ([] & Hv & Eprep). apply bind_Ok in Eprep as (key & Hk & Eprep).
  apply bind_Ok in Eprep as (bytes & Hm & Eprep). injection Eprep as -> <- ->.
  destruct (putImmutable bodyKey _ _ _ s) as [[[]|] s1] eqn:E1; [|done].
  destruct (putImmutable (ds_ManifestKey destination) _ _ _ s1) as [[[]|] s2] eqn:E2; [|done].
  injection Hp as <- <-. pose proof (putImmutable_extends _ _ _ _ _ _ _ E1) as X1.
  pose proof (putImmutable_extends _ _ _ _ _ _ _ E2) as X2.
  apply putImmutable_stored in E1; [|done]. apply putImmutable_stored in E2; [|done].
  apply X2, He in E1. apply He in E2.
  destruct (ValidateDestination_range _ _ Hd) as [Ha Hsc].
  set (m := manifestOf destination producer (bodyRefOf sha256Hex bodyKey body)) in *.
  assert (manifestRange m) as Hmr.
  { unfold manifestRange, m, intRange, sizeOf in *. cbn. unfold sizeOf in *. split_and!; try done; lia. }
  destruct (canonicalManifest_reads _ _ m manifestBytes Ht Hr Hmr Hm) as (Hc & Hms & Hdec).
  unfold Artifact.ResolveJSON. rewrite Hd. cbn [mbind result_bind]. rewrite (serving_get _ _ _ _ Hs E2).
  cbn [wrapErr mbind result_bind]. unfold resolveManifest. cbn [ob_Info oi_ContentType objectInfo ob_Body].
  rewrite (bool_decide_eq_true_2 (ManifestContentType = _)) by done. cbn [negb]. rewrite Hc, Hms, Hdec. cbn [negb].
  unfold m. cbn [dm_Producer dm_Schema dm_Body manifestOf rf_Hash rf_Key rf_Size bodyRefOf].
  rewrite sameProducer_refl, bool_decide_eq_true_2 by done. cbn [negb orb]. rewrite Hk.
  rewrite bool_decide_eq_true_2 by done. cbn [negb]. rewrite (serving_get _ _ _ _ Hs E1).
  cbn [ob_Info oi_ContentType objectInfo ob_Body].
  rewrite (bool_decide_eq_true_2 (JSONContentType = _)) by done. rewrite Z.eqb_refl, bool_decide_eq_true_2 by done.
  cbn [negb orb]. rewrite (validateCanonicalJSON_extends s s''); [done|done| |done].
  do 2 (etrans; [eassumption|]). done.
Qed.

Lemma resolved_unique destination producer s s' published published' body body' : extends s s' →
  resolved destination producer s published body → resolved destination producer s' published' body' →
  published' = published ∧ body' = body.
Proof.
  intros He [_ (k1 & K1 & _ & B1) _ _ S1 _ (m1 & d1 & M1 & _ & _ & D1 & _ & _ & P1 & R1)]
    [_ (k2 & K2 & _ & B2) _ _ S2 _ (m2 & d2 & M2 & _ & _ & D2 & _ & _ & P2 & R2)].
  apply He in M1, B1. assert (m2 = m1) as -> by congruence. assert (d2 = d1) as -> by congruence.
  assert (pj_Body published' = pj_Body published) as Eb by congruence.
  assert (k2 = k1) as -> by congruence. split; [|congruence].
  destruct published, published'. cbn in *. congruence.
Qed.

(** Publications by anyone, to any slot. *)
Definition publication (s s' : S) : Prop :=
  ∃ destination producer body r, PublishJSON destination producer body s = (r, s').

Lemma publications_extend s s' : rtc publication s s' → extends s s'.
Proof.
  induction 1 as [s|s1 s2 s3 (d & p & b & r & H1) _ IH]; [done|]. etrans; [by eapply PublishJSON_extends|done].
Qed.
End Store.

(** ** The guarantees *)

(** A resolved value is the stored object its digest names, is canonical, satisfies
    the schema its slot pins, and was committed by a manifest of the expected producer. *)
Theorem ResolveJSON_verified (NumberToJSON : spec_float → result string) sha256Hex ValidateJSONSchema
    validateManifestSchema (S : Type) `{DatastoreLaws S} destination producer (s : S) published body
    (Hresolve : ResolveJSON NumberToJSON sha256Hex ValidateJSONSchema validateManifestSchema
      destination producer s = Ok (published, body)) :
  rf_Hash (pj_Body published) = DigestBytes sha256Hex body ∧
  CanonicalizeJSON NumberToJSON body = Ok body ∧
  (∃ schema, DigestBytes sha256Hex schema = ds_Schema destination ∧ ValidateJSONSchema schema body = Ok tt) ∧
  ∃ manifestBytes manifest,
    view s !! ds_ManifestKey destination = Some (ManifestContentType, manifestBytes) ∧
    decodeManifest manifestBytes = Some manifest ∧ sameProducer (dm_Producer manifest) producer = true ∧
    dm_Body manifest = pj_Body published ∧ validateManifestSchema manifestBytes = Ok tt.
Proof.
  pose proof (ResolveJSON_Ok _ _ _ _ _ _ _ _ _ Hresolve) as [_ _ Hd _ _ Hs (mb & m & Hv & _ & Hms & Hdec & Hp & _ & Hb & _)].
  pose proof (validateCanonicalJSON_Ok _ _ _ _ _ _ Hs) as (Hc & k & ct & schema & _ & _ & _ & Hdig & Hval).
  split_and!; [done| |by exists schema|by exists mb, m]. unfold canonicalBytes in Hc.
  destruct (CanonicalizeJSON NumberToJSON body); [|done]. by apply bool_decide_eq_true in Hc as ->.
Qed.

(** C32: a value published to its producer's slot resolves, at every later state of a store
    that serves, to that value and to the reference the publication returned. *)
Theorem Publish_Resolve (NumberToJSON : spec_float → result string) sha256Hex ValidateJSONSchema
    validateManifestSchema (S : Type) `{DatastoreLaws S} destination producer body published (s s' s'' : S)
    (Htoken : number_token_law NumberToJSON) (Hreads : number_reads_law NumberToJSON)
    (Hsize : sizeOf body < 2 ^ 63)
    (Hpublish : PublishJSON NumberToJSON sha256Hex ValidateJSONSchema validateManifestSchema
      destination producer body s = (Ok published, s'))
    (Hlater : rtc (publication NumberToJSON sha256Hex ValidateJSONSchema validateManifestSchema) s' s'')
    (Hserving : serving s'') :
  ResolveJSON NumberToJSON sha256Hex ValidateJSONSchema validateManifestSchema destination producer s'' =
  Ok (published, body).
Proof. eapply publication_resolves; try done. by eapply publications_extend. Qed.

(** C33: once a slot resolves to a value, no publication, whoever makes it, changes what it
    resolves to. *)
Theorem resolved_immutable (NumberToJSON : spec_float → result string) sha256Hex ValidateJSONSchema
    validateManifestSchema (S : Type) `{DatastoreLaws S} destination producer (s s' : S) r r'
    (Hfirst : ResolveJSON NumberToJSON sha256Hex ValidateJSONSchema validateManifestSchema
      destination producer s = Ok r)
    (Hlater : rtc (publication NumberToJSON sha256Hex ValidateJSONSchema validateManifestSchema) s s')
    (Hsecond : ResolveJSON NumberToJSON sha256Hex ValidateJSONSchema validateManifestSchema
      destination producer s' = Ok r') :
  r' = r.
Proof.
  destruct r as [published body], r' as [published' body'].
  pose proof (ResolveJSON_Ok _ _ _ _ _ _ _ _ _ Hfirst) as R1. pose proof (ResolveJSON_Ok _ _ _ _ _ _ _ _ _ Hsecond) as R2.
  by destruct (resolved_unique _ _ _ _ _ _ _ _ _ _ _ _ (publications_extend _ _ _ _ _ _ Hlater) R1 R2) as [-> ->].
Qed.

(** ** Distinct producers have distinct slots *)
Definition noSlash (s : string) : Prop := containsByte "/" s = false.

Lemma splitOn_plain sep s : containsByte sep s = false → splitOn sep s = [s].
Proof.
  induction s as [|c s IH]; [done|]. cbn [containsByte splitOn]. intros [Hc Hs]%orb_false_iff.
  rewrite Ascii.eqb_sym in Hc. rewrite Hc. by rewrite IH.
Qed.
Lemma splitOn_app sep a b : containsByte sep a = false → splitOn sep (a +:+ String sep b) = a :: splitOn sep b.
Proof.
  induction a as [|c a IH].
  - intros _. change ("" +:+ String sep b) with (String sep b). cbn [splitOn]. by rewrite Ascii.eqb_refl.
  - cbn [containsByte]. intros [Hc Hs]%orb_false_iff. rewrite Ascii.eqb_sym in Hc.
    change (String c a +:+ String sep b) with (String c (a +:+ String sep b)). cbn [splitOn].
    rewrite Hc. by rewrite IH.
Qed.

Lemma string_app_nil (s : string) : s +:+ "" = s.
Proof. induction s as [|c s IH]; [done|]. change (String c s +:+ "") with (String c (s +:+ "")). by rewrite IH. Qed.
Lemma string_app_assoc (a b c : string) : (a +:+ b) +:+ c = a +:+ (b +:+ c).
Proof.
  induction a as [|x a IH]; [done|].
  change ((String x a +:+ b) +:+ c) with (String x ((a +:+ b) +:+ c)). by rewrite IH.
Qed.

(** A path is determined by its segments. *)
Definition pathOf (segments : list string) : string := foldr (λ s acc, "/" +:+ s +:+ acc) "" segments.

Lemma splitOn_path s segments : noSlash s → Forall noSlash segments →
  splitOn "/" (s +:+ pathOf segments) = s :: segments.
Proof.
  intros Hs Hall. revert s Hs; induction Hall as [|x l Hx _ IH]; intros s Hs.
  - cbn [pathOf foldr]. rewrite string_app_nil. by apply splitOn_plain.
  - change (pathOf (x :: l)) with (String "/" (x +:+ pathOf l)).
    rewrite splitOn_app by done. by rewrite IH.
Qed.

Lemma noSlash_bytes s : noSlash s ↔ 47 ∉ bytesOf s.
Proof.
  unfold noSlash. induction s as [|c s IH]; [split; [intros _; apply not_elem_of_nil|done]|].
  cbn [containsByte bytesOf]. rewrite orb_false_iff, not_elem_of_cons, IH.
  assert (Ascii.eqb "/" c = false ↔ 47 ≠ byteOf c) as ->; [|done].
  destruct (Ascii.eqb_spec "/" c) as [<-|Hne]; [split; [done|by intros []]|].
  split; [|done]. intros _ E. apply Hne. rewrite <- (charOf_byteOf c), <- E. done.
Qed.

Lemma itoa_noSlash z : noSlash (itoa z).
Proof.
  apply noSlash_bytes. destruct (itoa_bytes z) as (ds & [Hd _] & _ & ->).
  assert (47 ∉ ds) as Hn.
  { intros Hin. pose proof (proj1 (Forall_forall _ _) Hd _ Hin) as H. done. }
  destruct (z <? 0); [|done]. apply not_elem_of_cons. by split.
Qed.

Lemma safeSegment_noSlash s : isSafePathSegment s = true → noSlash s.
Proof.
  intros [_ H]%andb_prop. apply noSlash_bytes. intros Hin.
  pose proof (proj1 (forallb_forall _ _) H 47 (proj1 (list_elem_of_In _ _) Hin)) as X. vm_compute in X. done.
Qed.

Lemma projectKey_noSlash s : isSafeProjectKey s = true → noSlash s.
Proof.
  unfold isSafeProjectKey, prefixedHex. intros [_ H]%andb_prop.
  destruct (stripPrefix _ _) as [rest|] eqn:E; [|done]. apply stripPrefix_Some in E.
  apply noSlash_bytes. rewrite E. rewrite not_elem_of_app. split; [by apply (bool_decide_unpack _); vm_compute|].
  intros Hin. pose proof (proj1 (forallb_forall _ _) H 47 (proj1 (list_elem_of_In _ _) Hin)) as X. done.
Qed.

Definition frameSegments (f : MapItemScopeFrame) : list string := ["maps"; fr_MapID f; "items"; itoa (fr_Index f)].
Definition scopeSegments (scope : option ExecutionScope) : list string :=
  match scope with None => [] | Some s => "scopes" :: mjoin (map frameSegments (es_Frames s)) end.
Definition slotSegments (p : Producer) : list string :=
  [pr_ProjectKey p; "runs"; pr_RunID p; "steps"; pr_NodeID p] ++ scopeSegments (pr_Scope p) ++
  [itoa (pr_Attempt p); "output-manifest.json"].

Lemma pathOf_app a b : pathOf (a ++ b) = pathOf a +:+ pathOf b.
Proof.
  induction a as [|x a IH]; [done|]. cbn [pathOf foldr app]. fold (pathOf a). fold (pathOf (a ++ b)).
  by rewrite IH, !string_app_assoc.
Qed.

Lemma scopePath_segments scope : scopePath scope = pathOf (scopeSegments scope).
Proof.
  destruct scope as [s|]; [|done]. unfold scopePath, scopeSegments.
  assert (∀ acc, foldl (λ key frame, key +:+ "/maps/" +:+ fr_MapID frame +:+ "/items/" +:+ itoa (fr_Index frame))
    acc (es_Frames s) = acc +:+ pathOf (mjoin (map frameSegments (es_Frames s)))) as ->; [|done].
  induction (es_Frames s) as [|f frames IH]; intros acc; cbn [foldl map].
  - by rewrite string_app_nil.
  - rewrite IH. cbn [mjoin list_join]. rewrite pathOf_app, !string_app_assoc. f_equal.
    unfold frameSegments. cbn [pathOf foldr]. rewrite string_app_nil, !string_app_assoc. done.
Qed.

Lemma slot_key p key : outputManifestKey p = Ok key → key_value key = "projects" +:+ pathOf (slotSegments p).
Proof.
  unfold outputManifestKey. intros (-> & _)%ParseKey_Ok. cbn [key_value]. unfold slotSegments.
  rewrite !pathOf_app, <- scopePath_segments. unfold pathOf. cbn [foldr].
  rewrite !string_app_nil, !string_app_assoc. done.
Qed.

Record validIdentity (p : Producer) : Prop := {
  vi_project : isSafeProjectKey (pr_ProjectKey p) = true;
  vi_run : isSafePathSegment (pr_RunID p) = true;
  vi_node : isSafePathSegment (pr_NodeID p) = true;
  vi_frames : ∀ s, pr_Scope p = Some s → Forall (λ f, fr_Kind f = "map-item" ∧ isSafePathSegment (fr_MapID f) = true) (es_Frames s);
}.

Lemma validateProducerIdentity_Ok p : validateProducerIdentity p = Ok tt → validIdentity p.
Proof.
  unfold validateProducerIdentity. destruct (isSafeProjectKey (pr_ProjectKey p)) eqn:E1; [|done].
  destruct (isHashRef (pr_PlanHash p)); [|done]. destruct (isSafePathSegment (pr_RunID p)) eqn:E3; [|done].
  destruct (isSafePathSegment (pr_NodeID p)) eqn:E4; [|done]. cbn [negb]. destruct (_ || _); [done|].
  intros Hs. split; [done..|]. intros s Es. rewrite Es in Hs. cbn [ValidateExecutionScope] in Hs.
  destruct (es_Frames s) as [|f frames]; [done|].
  destruct (forallb validFrame (f :: frames)) eqn:Ev; [|done]. apply Forall_forall. intros x Hx.
  pose proof (proj1 (forallb_forall _ _) Ev x (proj1 (list_elem_of_In _ _) Hx)) as Hf.
  unfold validFrame in Hf. rewrite negb_true_iff, !orb_false_iff, !negb_false_iff, bool_decide_eq_true in Hf. tauto.
Qed.

Lemma slotSegments_noSlash p : validIdentity p → Forall noSlash (slotSegments p).
Proof.
  intros [H1 H3 H4 H5]. unfold slotSegments. apply Forall_app. split.
  { repeat apply Forall_cons_2; try apply Forall_nil_2; try done;
      first [by apply projectKey_noSlash|by apply safeSegment_noSlash]. }
  apply Forall_app. split.
  - destruct (pr_Scope p) as [s|]; [|constructor]. constructor; [done|].
    specialize (H5 s eq_refl). induction H5 as [|f frames [_ Hf] _ IH]; [constructor|]. cbn.
    repeat (constructor; [first [done|by apply safeSegment_noSlash|apply itoa_noSlash]|]). done.
  - repeat (constructor; [first [done|apply itoa_noSlash]|]). constructor.
Qed.

Lemma itoa_inj a b : itoa a = itoa b → a = b.
Proof. apply (inj pretty). Qed.

Lemma frameSegments_inj l k : Forall (λ f, fr_Kind f = "map-item") l → Forall (λ f, fr_Kind f = "map-item") k →
  mjoin (map frameSegments l) = mjoin (map frameSegments k) → l = k.
Proof.
  intros Hl; revert k. induction Hl as [|f l Hf _ IH]; intros k Hk E; destruct Hk as [|g k Hg Hk]; try done.
  cbn in E. injection E as E1 E2 E3. apply itoa_inj in E2. f_equal; [|by apply IH].
  destruct f, g; cbn in *; congruence.
Qed.

(** Producers with valid identities that share an output slot are the same producer,
    up to the hash of the plan: same project, run, node, map items and attempt. *)
Theorem outputManifestKey_injective p q key
    (Hp : validateProducerIdentity p = Ok tt) (Hq : validateProducerIdentity q = Ok tt)
    (Kp : outputManifestKey p = Ok key) (Kq : outputManifestKey q = Ok key) :
  pr_ProjectKey p = pr_ProjectKey q ∧ pr_RunID p = pr_RunID q ∧ pr_NodeID p = pr_NodeID q ∧
  pr_Scope p = pr_Scope q ∧ pr_Attempt p = pr_Attempt q.
Proof.
  apply validateProducerIdentity_Ok in Hp, Hq. apply slot_key in Kp, Kq.
  assert (slotSegments p = slotSegments q) as E.
  { assert ("projects" :: slotSegments p = "projects" :: slotSegments q) as E; [|exact (f_equal tail E)].
    rewrite <- (splitOn_path "projects" (slotSegments p)), <- (splitOn_path "projects" (slotSegments q));
      [congruence|done|by apply slotSegments_noSlash|done|by apply slotSegments_noSlash]. }
  unfold slotSegments in E. injection E as E1 E2 E3 E4.
  change [itoa (pr_Attempt p); "output-manifest.json"] with ([itoa (pr_Attempt p)] ++ ["output-manifest.json"]) in E4.
  change [itoa (pr_Attempt q); "output-manifest.json"] with ([itoa (pr_Attempt q)] ++ ["output-manifest.json"]) in E4.
  rewrite !(assoc_L (++)) in E4. apply app_inj_tail in E4 as [E4 _]. apply app_inj_tail in E4 as [E4 E5%itoa_inj].
  split_and!; try done. unfold scopeSegments in E4.
  destruct (pr_Scope p) as [s|] eqn:Es, (pr_Scope q) as [t|] eqn:Et; try done. injection E4 as E4.
  apply frameSegments_inj in E4; [by destruct s, t; cbn in *; subst| |];
    (eapply Forall_impl; [first [exact (vi_frames p Hp s Es)|exact (vi_frames q Hq t Et)]|]; by intros f []).
Qed.

(** ** A publication in the reference store *)

Import MemoryStore.

Definition sampleRef (s : string) : string := DigestBytes checksumHash s.
Definition sampleProducer : Producer :=
  {| pr_ProjectKey := "sha256-" +:+ checksumHash "project"; pr_PlanHash := sampleRef "plan"; pr_RunID := "run-1";
     pr_NodeID := "m"; pr_Attempt := 1;
     pr_Scope := Some {| es_Frames := [{| fr_Kind := "map-item"; fr_MapID := "m"; fr_Index := 0 |}] |} |}.
Definition sampleKey : Key :=
  {| key_value := "projects/" +:+ pr_ProjectKey sampleProducer +:+ "/runs/run-1/steps/m/scopes/maps/m/items/0/1/output-manifest.json" |}.
Definition sampleDestination : Destination := {| ds_ManifestKey := sampleKey; ds_Schema := sampleRef "{}" |}.
Definition schemaStore : MemoryStore.store :=
  {[ {| key_value := "blobs/sha256/" +:+ checksumHash "{}" |} := ("application/json", "{}") ]}.

Definition accept (_ _ : string) : result unit := Ok tt.
Definition acceptManifest (_ : string) : result unit := Ok tt.
Abbreviation publishSample := (PublishJSON smallNumbers checksumHash accept acceptManifest sampleDestination sampleProducer) (only parsing).
Abbreviation resolveSample := (ResolveJSON smallNumbers checksumHash accept acceptManifest sampleDestination sampleProducer) (only parsing).

Definition samplePublished : PublishedJSON :=
  match (publishSample "0" schemaStore).1 with Ok p => p | Err _ =>
    let r := {| rf_Key := ""; rf_Hash := ""; rf_Size := 0; rf_ContentType := "" |} in
    {| pj_Manifest := r; pj_Body := r; pj_Schema := "" |} end.
Definition publishedStore : MemoryStore.store := (publishSample "0" schemaStore).2.
(** A second, different value is refused. *)
Definition laterStore : MemoryStore.store := (publishSample "1" publishedStore).2.

Example second_publication_refused :
  match (publishSample "1" publishedStore).1 with Err e => isErr e ErrManifestConflict | Ok _ => false end = true.
Proof. vm_compute. reflexivity. Qed.

Lemma sample_later : rtc (publication (S := MemoryStore.store) smallNumbers checksumHash accept acceptManifest) publishedStore laterStore.
Proof.
  apply rtc_once. exists sampleDestination, sampleProducer, "1", (publishSample "1" publishedStore).1.
  apply surjective_pairing.
Qed.

Lemma Publish_Resolve_witness : resolveSample laterStore = Ok (samplePublished, "0").
Proof.
  apply (Publish_Resolve smallNumbers checksumHash accept acceptManifest MemoryStore.store sampleDestination
    sampleProducer "0" samplePublished schemaStore publishedStore laterStore smallNumbers_token smallNumbers_reads);
    [vm_compute; reflexivity| |exact sample_later|exact I].
  apply injective_projections; [vm_compute; reflexivity|exact (eq_refl publishedStore)].
Defined.

Lemma resolved_immutable_witness :
  ((samplePublished, "0") : PublishedJSON * string) = match resolveSample laterStore with Ok r => r | Err _ => (samplePublished, "") end.
Proof.
  apply (resolved_immutable smallNumbers checksumHash accept acceptManifest MemoryStore.store sampleDestination
    sampleProducer publishedStore laterStore); [vm_compute; reflexivity|exact sample_later|vm_compute; reflexivity].
Defined.

Lemma ResolveJSON_verified_witness : rf_Hash (pj_Body samplePublished) = sampleRef "0".
Proof.
  apply (ResolveJSON_verified smallNumbers checksumHash accept acceptManifest MemoryStore.store sampleDestination
    sampleProducer publishedStore samplePublished "0"). vm_compute. reflexivity.
Defined.

Lemma outputManifestKey_injective_witness :
  pr_RunID sampleProducer = "run-1" ∧ pr_Attempt sampleProducer = 1.
Proof.
  destruct (outputManifestKey_injective sampleProducer sampleProducer sampleKey) as (_ & _ & _ & _ & H);
    [vm_compute; reflexivity..|]. by split.
Defined.
