(* ===== verification/MapExec.v ===== *)
(** * Map values

    [internal/mapexec/values.go]: a map scope expands one canonical JSON array into
    source-indexed items, and collects the results of the items, in whatever order
    they finished, into one canonical array.  An [int] is a [Z].

    The decoder of [ParseFailure] checks a JSON schema with a third-party package:
    that check is a parameter. *)

From S2P Require Import Prelude Utf16 Text Json Canonical CanonicalText CanonicalForm JsonRaw Encode SourceIdentity.
From Stdlib Require Import Ascii SpecFloat.
#[local] Open Scope Z_scope.

Record Item := { it_Index : Z; it_Body : string }.
Record Result := { rs_Index : Z; rs_Body : string }.

Definition FailureError : string := "error".
Definition FailureKilled : string := "killed".
Definition FailureNonRetryable : string := "non-retryable".
Definition FailureTimeout : string := "timeout".

Definition DiagnosticLimit : nat := 1024.

Record Failure := { fl_Attempts : Z; fl_Diagnostic : string; fl_Kind : string }.
Definition zeroFailure : Failure := {| fl_Attempts := 0; fl_Diagnostic := ""; fl_Kind := "" |}.

(** [string(runes[:DiagnosticLimit])] when there are more. *)
Definition NewFailure (kind : string) (attempts : Z) (diagnostic : string) : Failure :=
  let diagnostic := ToValidUTF8 diagnostic in
  let diagnostic :=
    if (DiagnosticLimit <? length (runes diagnostic))%nat then ofRunes (take DiagnosticLimit (runes diagnostic))
    else diagnostic in
  {| fl_Attempts := attempts; fl_Diagnostic := diagnostic; fl_Kind := kind |}.

(** [Value] is nil for a failure. *)
Record Outcome := { oc_Index : Z; oc_Value : option string; oc_Failure : option Failure }.

(** The JSON encoding of a [Failure]. *)
Definition marshalFailure (f : Failure) : string :=
  quoted "{'attempts':" +:+ itoa (fl_Attempts f) +:+ quoted ",'diagnostic':" +:+ marshalString (fl_Diagnostic f) +:+
  quoted ",'kind':" +:+ marshalString (fl_Kind f) +:+ "}".

Definition decodeFailure (body : string) : option Failure :=
  match unmarshal body with
  | Some (JObj ms) =>
      attempts ← intField "attempts" ms;
      diagnostic ← stringField "diagnostic" ms;
      kind ← stringField "kind" ms;
      Some {| fl_Attempts := attempts; fl_Diagnostic := diagnostic; fl_Kind := kind |}
  | Some JNull => Some zeroFailure
  | _ => None
  end.

Section MapExec.
Context (NumberToJSON : spec_float → result string).
#[local] Abbreviation CanonicalizeJSON := (Canonical.CanonicalizeJSON NumberToJSON).

(** [canonicalBody, err := CanonicalizeJSON(body); err != nil || !bytes.Equal(canonicalBody, body)] *)
Definition isCanonical (body : string) : bool :=
  match CanonicalizeJSON body with Ok c => bool_decide (c = body) | Err _ => false end.

Definition expandItem (x : nat * string) : result Item :=
  body ← wrapErr "canonicalize map item %d: %w" [AInt (Z.of_nat x.1)] (CanonicalizeJSON x.2);
  Ok {| it_Index := Z.of_nat x.1; it_Body := body |}.

Definition Expand (body : string) : result (list Item) :=
  if negb (isCanonical body) then Err (ErrNew "map input must be canonical JSON")
  else if negb (HasPrefix body "[") then Err (ErrNew "map input must be a JSON array")
  else
    match unmarshalRawItems body with
    | None => Err (Errorf "decode map input array: %w" [AWrap (ErrNew "json: invalid JSON")])
    | Some values => mapErr expandItem (indexed values)
    end.

(** One result of the loop of [Collect]: [ordered] and [seen] are slices of the expected length. *)
Definition collectStep (expectedCount : Z) (st : list string * list bool) (r : Result)
    : result (list string * list bool) :=
  let '(ordered, seen) := st in
  if (rs_Index r <? 0) || (expectedCount <=? rs_Index r) then
    Err (Errorf "map result index %d is outside dense range 0..%d" [AInt (rs_Index r); AInt (expectedCount - 1)])
  else if default false (seen !! Z.to_nat (rs_Index r)) then
    Err (Errorf "map result index %d is duplicated" [AInt (rs_Index r)])
  else if negb (isCanonical (rs_Body r)) then
    Err (Errorf "map item %d output must be canonical JSON" [AInt (rs_Index r)])
  else Ok (<[ Z.to_nat (rs_Index r) := rs_Body r ]> ordered, <[ Z.to_nat (rs_Index r) := true ]> seen).

(** [canonical.Marshal] of a slice of raw messages; a nil message is [null].  The encoder
    may escape HTML characters, which the canonical form undoes. *)
Definition marshalRaw (ordered : list string) : result string :=
  CanonicalizeJSON ("[" +:+ joinStrings "," ordered +:+ "]").

Definition Collect (expectedCount : Z) (results : list Result) : result string :=
  if (expectedCount <? 0) || negb (Z.of_nat (length results) =? expectedCount) then
    Err (Errorf "map returned %d results, want %d" [AInt (Z.of_nat (length results)); AInt expectedCount])
  else
    st ← foldErr (collectStep expectedCount)
      (replicate (Z.to_nat expectedCount) "null", replicate (Z.to_nat expectedCount) false) results;
    marshalRaw st.1.

Definition outcomeResult (outcome : Outcome) : result Result :=
  body ← match oc_Failure outcome with
    | None =>
        let value := default "" (oc_Value outcome) in
        if negb (isCanonical value) then
          Err (Errorf "map item %d output must be canonical JSON" [AInt (oc_Index outcome)])
        else CanonicalizeJSON (quoted "{'status':'succeeded','value':" +:+ value +:+ "}")
    | Some failure =>
        match oc_Value outcome with
        | None => CanonicalizeJSON (quoted "{'failure':" +:+ marshalFailure failure +:+ quoted ",'status':'failed'}")
        | Some _ => Err (Errorf "map item %d has both a value and a failure" [AInt (oc_Index outcome)])
        end
    end;
  Ok {| rs_Index := oc_Index outcome; rs_Body := body |}.

Definition CollectOutcomes (expectedCount : Z) (outcomes : list Outcome) : result string :=
  results ← mapErr outcomeResult outcomes; Collect expectedCount results.

(** [artifact.ValidateJSONSchema(schemacontract.MapItemFailureSchemaJSON, body)] *)
Context (validateFailureSchema : string → result unit).

Definition ParseFailure (body : string) (maxAttempts : Z) : result Failure :=
  if negb (isCanonical body) then Err (ErrNew "failure record must be canonical JSON")
  else
    _ ← wrapErr "invalid failure record: %w" [] (validateFailureSchema body);
    match decodeFailure body with
    | None => Err (Errorf "decode failure record: %w" [AWrap (ErrNew "json: invalid JSON")])
    | Some failure =>
        if (fl_Attempts failure <? 1) || (maxAttempts <? fl_Attempts failure) then
          Err (Errorf "failure after %d attempts is outside the %d-attempt budget"
            [AInt (fl_Attempts failure); AInt maxAttempts])
        else Ok failure
    end.
End MapExec.

(** ** Properties *)

Lemma NewFailure_text kind attempts diagnostic :
  let f := NewFailure kind attempts diagnostic in
  validUtf8 (fl_Diagnostic f) = true ∧ (length (runes (fl_Diagnostic f)) ≤ 1024)%nat ∧
  (validUtf8 diagnostic = true → (length (runes diagnostic) ≤ 1024)%nat → fl_Diagnostic f = diagnostic).
Proof.
  unfold NewFailure. cbn [fl_Diagnostic]. pose proof (ToValidUTF8_valid diagnostic) as Hv.
  destruct (Nat.ltb_spec DiagnosticLimit (length (runes (ToValidUTF8 diagnostic)))) as [Hl|Hl].
  - assert (Forall (λ r, isScalar r = true) (take DiagnosticLimit (runes (ToValidUTF8 diagnostic)))) as Hs.
    { apply Forall_take, runes_scalar. }
    rewrite (runes_ofRunes _ Hs), length_take. unfold validUtf8. rewrite (runes_ofRunes _ Hs).
    split_and!; [by apply bool_decide_eq_true|unfold DiagnosticLimit in *; lia|].
    intros H Hle. rewrite (ToValidUTF8_same _ H) in Hl. unfold DiagnosticLimit in *. lia.
  - split_and!; [done|done|]. intros H _. by apply ToValidUTF8_same.
Qed.

(** A failure record holds at most 1024 code points of valid UTF-8, and a valid
    diagnostic that short is kept as it is. *)
Theorem NewFailure_bounded kind attempts diagnostic :
  let f := NewFailure kind attempts diagnostic in
  validUtf8 (fl_Diagnostic f) = true ∧ (length (runes (fl_Diagnostic f)) ≤ 1024)%nat ∧
  (validUtf8 diagnostic = true → (length (runes diagnostic) ≤ 1024)%nat → fl_Diagnostic f = diagnostic).
Proof. apply NewFailure_text. Qed.

Lemma NewFailure_short kind attempts diagnostic :
  (length (runes (fl_Diagnostic (NewFailure kind attempts diagnostic))) ≤ 1024)%nat.
Proof. apply NewFailure_text. Qed.

Lemma NewFailure_bounded_witness :
  fl_Diagnostic (NewFailure FailureKilled 1 "out of memory") = "out of memory".
Proof.
  apply (NewFailure_bounded FailureKilled 1 "out of memory");
    [apply bool_decide_eq_true; vm_compute; reflexivity|vm_compute; lia].
Defined.

(** ** Canonical arrays *)
Section Collecting.
Context (NumberToJSON : spec_float → result string).
Context (number_token : number_token_law NumberToJSON) (number_reads : number_reads_law NumberToJSON).
#[local] Abbreviation CanonicalizeJSON := (Canonical.CanonicalizeJSON NumberToJSON).

(** A tree that is its own canonical form. *)
Definition canonicalTree (t : json) : Prop :=
  ∃ v, decodeNumbers NumberToJSON t = Ok v ∧ canonTree NumberToJSON v = Ok t.

Lemma isCanonical_inv body : isCanonical NumberToJSON body = true →
  ∃ t, body = printJson t ∧ wellFormed 0 t ∧ canonicalTree t.
Proof.
  unfold isCanonical. destruct (CanonicalizeJSON body) as [c|] eqn:E; [|done]. intros ->%bool_decide_eq_true.
  unfold Canonical.CanonicalizeJSON in E. apply bind_Ok in E as (v & Hv & Hw). apply decodeJSON_ok in Hv.
  apply (write_canonTree NumberToJSON 0) in Hw as (t & Ht & ->); [|done]. exists t. split; [done|].
  split; [by eapply canonTree_wellFormed|]. by eapply canonTree_reads.
Qed.

Lemma canonicalTree_Ok t : wellFormed 0 t → canonicalTree t → CanonicalizeJSON (printJson t) = Ok (printJson t).
Proof.
  intros Hwf (v & Hd & Hc). unfold Canonical.CanonicalizeJSON.
  pose proof (decodeJSON_print NumberToJSON t v Hwf Hd) as Hj. rewrite Hj. cbn [mbind result_bind].
  apply (write_canonTree NumberToJSON 0); [by eapply decodeJSON_ok|eauto].
Qed.

Lemma canonicalTree_isCanonical t : wellFormed 0 t → canonicalTree t → isCanonical NumberToJSON (printJson t) = true.
Proof. intros Hwf Hc. unfold isCanonical. rewrite canonicalTree_Ok by done. by apply bool_decide_eq_true. Qed.

Lemma canonicalTree_JArr ts : canonicalTree (JArr ts) ↔ Forall canonicalTree ts.
Proof.
  unfold canonicalTree. split.
  - intros (v & Hd & Hc). cbn [decodeNumbers] in Hd. apply fmap_Ok in Hd as (vs & Hd%mapErr_Ok & ->).
    cbn [canonTree] in Hc. apply fmap_Ok in Hc as (ts' & Hc%mapErr_Ok & E). injection E as <-.
    clear -Hd Hc. revert ts Hd Hc. induction vs as [|v vs IH]; intros ts Hd Hc; inversion Hd; inversion Hc; simplify_eq;
      constructor; eauto.
  - intros H. assert (∃ vs, Forall2 (λ t v, decodeNumbers NumberToJSON t = Ok v) ts vs ∧
      Forall2 (λ v t, canonTree NumberToJSON v = Ok t) vs ts) as (vs & H1%mapErr_Ok & H2%mapErr_Ok).
    { induction H as [|t ts (v & H1 & H2) _ (vs & IH1 & IH2)]; [by exists []|]. exists (v :: vs).
      by split; constructor. }
    exists (VArr vs). cbn [decodeNumbers canonTree]. by rewrite H1, H2.
Qed.

Lemma wellFormed_mono t : ∀ d d', wellFormed d t → d' ≤ d → wellFormed d' t.
Proof.
  induction t as [|b|token|s|items IH|ms IH] using json_nested_ind; intros d d' Hwf Hle; try done.
  - apply wellFormed_JArr in Hwf as [Hd Hwf]. apply wellFormed_JArr. split; [lia|].
    apply Forall_forall. intros t Ht. eapply (proj1 (Forall_forall _ _) IH t Ht);
      [apply (proj1 (Forall_forall _ _) Hwf t Ht)|lia].
  - apply wellFormed_JObj in Hwf as (Hd & Hnd & Hwf). apply wellFormed_JObj. split_and!; [lia|done|].
    apply Forall_forall. intros t Ht. destruct (proj1 (Forall_forall _ _) Hwf t Ht) as [Hk Hv]. split; [done|].
    eapply (proj1 (Forall_forall _ _) IH t Ht); [done|lia].
Qed.

Lemma joinStrings_ofBytes ls : joinStrings "," (map ofBytes ls) = ofBytes (joinBytes ls).
Proof.
  induction ls as [|l [|l' ls] IH]; [done|done|]. rewrite joinBytes_cons, ofBytes_app.
  cbn [map]. rewrite joinStrings_cons. f_equal. cbn [map] in IH. rewrite IH. done.
Qed.

Lemma marshalRaw_print ts : "[" +:+ joinStrings "," (map printJson ts) +:+ "]" = printJson (JArr ts).
Proof.
  unfold printJson at 2. change (printBytes (JArr ts)) with (91 :: joinBytes (map printBytes ts) ++ [93]).
  cbn [ofBytes]. rewrite ofBytes_app, <- joinStrings_ofBytes, map_map. done.
Qed.

(** The elements of a canonical array. *)
Lemma Expand_print ts : wellFormed 0 (JArr ts) → canonicalTree (JArr ts) →
  Expand NumberToJSON (printJson (JArr ts)) =
  Ok (imap (λ i t, {| it_Index := Z.of_nat i; it_Body := printJson t |}) ts).
Proof.
  intros Hwf Hc. unfold Expand. rewrite canonicalTree_isCanonical by done. cbn [negb].
  assert (HasPrefix (printJson (JArr ts)) "[" = true) as ->.
  { rewrite <- marshalRaw_print. apply HasPrefix_app. }
  cbn [negb]. rewrite unmarshalRawItems_print by done. unfold indexed.
  apply wellFormed_JArr in Hwf as [_ Hwf]. apply canonicalTree_JArr in Hc.
  apply mapErr_Ok. rewrite Forall2_lookup. intros i. rewrite !list_lookup_imap, list_lookup_fmap.
  destruct (ts !! i) as [t|] eqn:E; [|constructor]. constructor. unfold expandItem. cbn [fst snd].
  rewrite canonicalTree_Ok; [done| |].
  - eapply wellFormed_mono; [by apply (proj1 (Forall_lookup _ _) Hwf i)|lia].
  - by apply (proj1 (Forall_lookup _ _) Hc i).
Qed.

Lemma printJson_bracket t : wellFormed 0 t → HasPrefix (printJson t) "[" = true → ∃ ts, t = JArr ts.
Proof.
  intros Hwf Hp. assert (∀ b l, printBytes t = b :: l → 0 <= b < 256 → b = 91) as Hb.
  { intros b l E Hb. unfold printJson in Hp. rewrite E in Hp. unfold HasPrefix in Hp. cbn [ofBytes String.prefix] in Hp.
    destruct (Ascii.ascii_dec "[" (charOf b)) as [Ec|]; [|done]. apply (f_equal byteOf) in Ec.
    change (byteOf "[") with 91 in Ec. unfold byteOf, charOf in Ec. rewrite N_ascii_embedding in Ec by lia. lia. }
  destruct t as [|b|token|s|items|ms]; [..|by eexists|].
  - by specialize (Hb 110 (bytesOf "ull") eq_refl ltac:(lia)).
  - destruct b; [by specialize (Hb 116 (bytesOf "rue") eq_refl ltac:(lia))|
      by specialize (Hb 102 (bytesOf "alse") eq_refl ltac:(lia))].
  - destruct (numberToken_head _ Hwf) as (b & l & E & Hd). specialize (Hb b l E).
    exfalso. destruct Hd as [Hd%isDigit_range|Hd]; [lia|]. change (ch "-") with 45 in Hd. lia.
  - by specialize (Hb _ _ eq_refl ltac:(lia)).
  - by specialize (Hb _ _ eq_refl ltac:(lia)).
Qed.

(** ** Collecting results *)
Lemma collect_fold n (bodies : list string) (rs : list Result) ordered seen :
  Forall (λ r, 0 <= rs_Index r < n ∧ bodies !! Z.to_nat (rs_Index r) = Some (rs_Body r) ∧
    isCanonical NumberToJSON (rs_Body r) = true) rs →
  NoDup (map rs_Index rs) → Z.of_nat (length ordered) = n → Z.of_nat (length seen) = n →
  Forall (λ r, seen !! Z.to_nat (rs_Index r) = Some false) rs →
  ∃ ordered' seen', foldErr (collectStep NumberToJSON n) (ordered, seen) rs = Ok (ordered', seen') ∧
    length ordered' = length ordered ∧
    ∀ i, ordered' !! i = if bool_decide (Z.of_nat i ∈ map rs_Index rs) then bodies !! i else ordered !! i.
Proof.
  revert ordered seen; induction rs as [|r rs IH]; intros ordered seen Hrs Hnd Ho Hs Hseen.
  { by exists ordered, seen. }
  apply Forall_cons in Hrs as [(Hr & Hb & Hc) Hrs]. apply Forall_cons in Hseen as [Hsr Hseen].
  cbn [map] in Hnd. apply NoDup_cons in Hnd as [Hnin Hnd].
  assert (∀ r', r' ∈ rs → Z.to_nat (rs_Index r') ≠ Z.to_nat (rs_Index r)) as Hne.
  { intros r' Hin E. pose proof (proj1 (Forall_forall _ _) Hrs r' Hin) as (Hr' & _).
    apply Hnin. apply list_elem_of_fmap. exists r'. split; [lia|done]. }
  cbn [foldErr]. assert (collectStep NumberToJSON n (ordered, seen) r =
    Ok (<[ Z.to_nat (rs_Index r) := rs_Body r ]> ordered, <[ Z.to_nat (rs_Index r) := true ]> seen)) as ->.
  { unfold collectStep. replace ((rs_Index r <? 0) || (n <=? rs_Index r)) with false by lia.
    rewrite Hsr. cbn [default]. by rewrite Hc. }
  cbn [mbind result_bind].
  destruct (IH (<[ Z.to_nat (rs_Index r) := rs_Body r ]> ordered) (<[ Z.to_nat (rs_Index r) := true ]> seen))
    as (o & s & E & Hl & Hlk); [done|done|by rewrite length_insert|by rewrite length_insert| |].
  { apply Forall_forall. intros r' Hin. rewrite list_lookup_insert_ne by (by apply not_eq_sym, Hne).
    by apply (proj1 (Forall_forall _ _) Hseen). }
  exists o, s. split; [done|]. rewrite length_insert in Hl. split; [done|]. intros i. rewrite Hlk.
  cbn [map]. destruct (decide (Z.of_nat i = rs_Index r)) as [Ei|Ei].
  - rewrite bool_decide_eq_false_2 by (rewrite Ei; done).
    rewrite bool_decide_eq_true_2 by (rewrite Ei; left). rewrite <- Ei, Nat2Z.id in *.
    rewrite list_lookup_insert_eq by lia. done.
  - rewrite list_lookup_insert_ne by lia.
    rewrite (bool_decide_ext (Z.of_nat i ∈ rs_Index r :: map rs_Index rs) (Z.of_nat i ∈ map rs_Index rs));
      [done|]. rewrite elem_of_cons. tauto.
Qed.

Definition asResult (i : Item) : Result := {| rs_Index := it_Index i; rs_Body := it_Body i |}.

Lemma Collect_print ts rs : wellFormed 0 (JArr ts) → canonicalTree (JArr ts) →
  rs ≡ₚ imap (λ i t, {| rs_Index := Z.of_nat i; rs_Body := printJson t |}) ts →
  Collect NumberToJSON (Z.of_nat (length ts)) rs = Ok (printJson (JArr ts)).
Proof.
  intros Hwf Hc HP. pose proof (Permutation_length HP) as Hlen. rewrite length_imap in Hlen.
  unfold Collect. rewrite Hlen, Z.eqb_refl. replace (Z.of_nat (length ts) <? 0) with false by lia. cbn [orb negb].
  set (bodies := map printJson ts).
  assert (∀ r, r ∈ rs → ∃ i t, ts !! i = Some t ∧ r = {| rs_Index := Z.of_nat i; rs_Body := printJson t |}) as Hin.
  { intros r Hr. rewrite HP, elem_of_lookup_imap in Hr. destruct Hr as (i & t & -> & Ht). eauto. }
  assert (map rs_Index rs ≡ₚ map Z.of_nat (seq 0 (length ts))) as HI.
  { etrans; [apply Permutation_map, HP|]. clear. apply reflexive_eq. apply list_eq. intros i.
    rewrite !list_lookup_fmap, list_lookup_imap. destruct (decide (i < length ts)%nat).
    - destruct (lookup_lt_is_Some_2 ts i) as [t E]; [done|]. rewrite E. by rewrite lookup_seq_lt.
    - rewrite lookup_ge_None_2 by lia. by rewrite lookup_seq_ge by lia. }
  destruct (collect_fold (Z.of_nat (length ts)) bodies rs (replicate (Z.to_nat (Z.of_nat (length ts))) "null")
    (replicate (Z.to_nat (Z.of_nat (length ts))) false)) as (o & s & E & Hl & Hlk).
  - apply Forall_forall. intros r Hr. destruct (Hin r Hr) as (i & t & Ht & ->). cbn.
    apply lookup_lt_Some in Ht as Hlt. split; [lia|]. rewrite Nat2Z.id. unfold bodies. rewrite list_lookup_fmap, Ht.
    split; [done|]. apply wellFormed_JArr in Hwf as [_ Hwf]. apply canonicalTree_JArr in Hc.
    apply canonicalTree_isCanonical; [|by apply (proj1 (Forall_lookup _ _) Hc i)].
    eapply wellFormed_mono; [by apply (proj1 (Forall_lookup _ _) Hwf i)|lia].
  - rewrite HI. apply NoDup_fmap_2; [intros ??; lia|apply NoDup_seq].
  - by rewrite length_replicate, Nat2Z.id.
  - by rewrite length_replicate, Nat2Z.id.
  - apply Forall_forall. intros r Hr. destruct (Hin r Hr) as (i & t & Ht & ->). cbn.
    apply lookup_lt_Some in Ht. apply lookup_replicate. lia.
  - rewrite E. cbn [mbind result_bind fst]. unfold marshalRaw.
    assert (o = bodies) as ->.
    { apply list_eq. intros i. rewrite Hlk. destruct (decide (i < length ts)%nat) as [Hi|Hi].
      - rewrite bool_decide_eq_true_2; [done|]. rewrite HI. apply list_elem_of_fmap. exists i.
        split; [done|]. apply elem_of_seq. lia.
      - assert (bodies !! i = None) as ->. { apply lookup_ge_None_2. unfold bodies. rewrite length_map. lia. }
        case_bool_decide; [done|]. apply lookup_replicate_None. lia. }
    unfold bodies. rewrite marshalRaw_print. by apply canonicalTree_Ok.
Qed.

Lemma Expand_inv out items : Expand NumberToJSON out = Ok items →
  ∃ ts, out = printJson (JArr ts) ∧ wellFormed 0 (JArr ts) ∧ canonicalTree (JArr ts) ∧
    items = imap (λ i t, {| it_Index := Z.of_nat i; it_Body := printJson t |}) ts.
Proof.
  intros H. assert (∃ ts, out = printJson (JArr ts) ∧ wellFormed 0 (JArr ts) ∧ canonicalTree (JArr ts))
    as (ts & -> & Hwf & Hc).
  { unfold Expand in H. destruct (isCanonical NumberToJSON out) eqn:Ec; [|done]. cbn [negb] in H.
    apply isCanonical_inv in Ec as (t & -> & Hwf & Hc).
    destruct (HasPrefix (printJson t) "[") eqn:Ep; [|done].
    destruct (printJson_bracket t Hwf Ep) as [ts ->]. eauto. }
  rewrite Expand_print in H by done. injection H as <-. eauto.
Qed.

Lemma Collect_expanded out items rs : Expand NumberToJSON out = Ok items →
  rs ≡ₚ map asResult items → Collect NumberToJSON (Z.of_nat (length items)) rs = Ok out.
Proof.
  intros (ts & -> & Hwf & Hc & ->)%Expand_inv HP. rewrite length_imap.
  apply Collect_print; [done|done|]. etrans; [exact HP|]. apply reflexive_eq. apply list_eq. intros i.
  rewrite list_lookup_fmap, !list_lookup_imap. by destruct (ts !! i).
Qed.
End Collecting.

(** ** What a successful collection says of its results *)
Section CollectSuccess.
Context (NumberToJSON : spec_float → result string).

Lemma collect_fold_inv n rs ordered seen st :
  foldErr (collectStep NumberToJSON n) (ordered, seen) rs = Ok st →
  Z.of_nat (length ordered) = n → Z.of_nat (length seen) = n →
  Forall (λ r, 0 <= rs_Index r < n ∧ isCanonical NumberToJSON (rs_Body r) = true ∧
    seen !! Z.to_nat (rs_Index r) = Some false ∧ st.1 !! Z.to_nat (rs_Index r) = Some (rs_Body r)) rs ∧
  NoDup (map rs_Index rs) ∧ Z.of_nat (length st.1) = n ∧
  ∀ i, seen !! i = Some true → st.1 !! i = ordered !! i.
Proof.
  revert ordered seen; induction rs as [|r rs IH]; intros ordered seen H Ho Hs.
  { injection H as <-. split_and!; [constructor|constructor|done|done]. }
  cbn [foldErr] in H. apply bind_Ok in H as ([o s] & Hstep & H). unfold collectStep in Hstep.
  destruct ((rs_Index r <? 0) || (n <=? rs_Index r)) eqn:E1; [done|].
  assert (0 <= rs_Index r < n) as Hr by lia.
  destruct (seen !! Z.to_nat (rs_Index r)) as [b|] eqn:E2; [|apply lookup_ge_None in E2; lia].
  cbn [default] in Hstep. destruct b; [done|].
  destruct (isCanonical NumberToJSON (rs_Body r)) eqn:E3; [|done]. injection Hstep as <- <-.
  destruct (IH _ _ H) as (HF & Hnd & Hlen & Hkeep); [by rewrite length_insert|by rewrite length_insert|].
  assert (∀ r', r' ∈ rs → rs_Index r' ≠ rs_Index r) as Hne.
  { intros r' Hin E. destruct (proj1 (Forall_forall _ _) HF r' Hin) as (_ & _ & Hf & _).
    rewrite E, list_lookup_insert_eq in Hf by (apply lookup_lt_Some in E2; lia). done. }
  split_and!; [| |done|].
  - constructor.
    + split_and!; [lia|lia|done|done|]. rewrite Hkeep.
      * apply list_lookup_insert_eq. lia.
      * apply list_lookup_insert_eq. lia.
    + apply Forall_forall. intros r' Hin. destruct (proj1 (Forall_forall _ _) HF r' Hin) as (H1 & H2 & H3 & H4).
      split_and!; try done; try lia. rewrite list_lookup_insert_ne in H3; [done|]. specialize (Hne r' Hin). lia.
  - cbn [map]. apply NoDup_cons. split; [|done]. intros (r' & E & Hin)%list_elem_of_fmap. by apply (Hne r').
  - intros i Hi. rewrite Hkeep.
    + apply list_lookup_insert_ne. intros <-. congruence.
    + rewrite list_lookup_insert_ne; [done|]. intros <-. congruence.
Qed.

Lemma dense_indices n (l : list Z) : NoDup l → (∀ i, i ∈ l → 0 <= i < n) → Z.of_nat (length l) = n →
  l ≡ₚ seqZ 0 n.
Proof.
  intros Hnd Hr Hlen. apply submseteq_length_Permutation.
  - apply NoDup_submseteq; [done|]. intros i Hi. apply elem_of_seqZ. specialize (Hr i Hi). lia.
  - rewrite length_seqZ. lia.
Qed.

Lemma Collect_inv n rs out : Collect NumberToJSON n rs = Ok out →
  0 <= n ∧ Z.of_nat (length rs) = n ∧ ∃ st, marshalRaw NumberToJSON st = Ok out ∧ Z.of_nat (length st) = n ∧
  NoDup (map rs_Index rs) ∧
  Forall (λ r, 0 <= rs_Index r < n ∧ isCanonical NumberToJSON (rs_Body r) = true ∧
    st !! Z.to_nat (rs_Index r) = Some (rs_Body r)) rs.
Proof.
  unfold Collect. destruct (_ || _) eqn:E; [done|]. intros ([o s] & Hf & Hm)%bind_Ok.
  destruct (collect_fold_inv _ _ _ _ _ Hf) as (HF & Hnd & Hl & _);
    [rewrite length_replicate; lia|rewrite length_replicate; lia|].
  split; [lia|]. split; [lia|]. exists o. split_and!; [done|done|done|].
  eapply Forall_impl; [exact HF|]. by intros r (? & ? & _ & ?).
Qed.

Lemma Collect_perm n rs rs' out : Collect NumberToJSON n rs = Ok out → rs ≡ₚ rs' → Collect NumberToJSON n rs' = Ok out.
Proof.
  intros (Hn & Hlen & st & Hm & Hl & Hnd & HF)%Collect_inv HP. unfold Collect.
  rewrite <- (Permutation_length HP), Hlen, Z.eqb_refl. replace (n <? 0) with false by lia. cbn [orb negb].
  assert (map rs_Index rs' ≡ₚ seqZ 0 n) as HD.
  { etrans; [apply Permutation_map; symmetry; exact HP|]. apply dense_indices; [done| |by rewrite length_map].
    intros i (r & -> & Hr)%list_elem_of_fmap. by destruct (proj1 (Forall_forall _ _) HF r Hr). }
  destruct (collect_fold NumberToJSON n st rs' (replicate (Z.to_nat n) "null") (replicate (Z.to_nat n) false))
    as (o & s & E & Ho & Hlk); [| |by rewrite length_replicate; lia|by rewrite length_replicate; lia| |].
  - rewrite <- HP. eapply Forall_impl; [exact HF|]. by intros r (? & ? & ?).
  - rewrite HD. apply NoDup_seqZ.
  - apply Forall_forall. intros r Hr. apply lookup_replicate. split; [done|].
    assert (rs_Index r ∈ map rs_Index rs') as Hin%(elem_of_Permutation_proper _ _ _ HD)%elem_of_seqZ
      by (by apply list_elem_of_fmap_2). lia.
  - rewrite E. cbn [mbind result_bind fst]. assert (o = st) as ->; [|done]. apply list_eq. intros i. rewrite Hlk.
    case_bool_decide as Hi; [done|]. rewrite HD, elem_of_seqZ in Hi.
    rewrite (proj2 (lookup_ge_None st i)) by lia. apply lookup_replicate_None. lia.
Qed.

(** C40: a map's results are collected only when they are canonical values for the
    indexes 0 to n-1, each exactly once. *)
Theorem Collect_dense n rs out : Collect NumberToJSON n rs = Ok out →
  map rs_Index rs ≡ₚ seqZ 0 n ∧ Forall (λ r, isCanonical NumberToJSON (rs_Body r) = true) rs.
Proof.
  intros (Hn & Hlen & st & _ & _ & Hnd & HF)%Collect_inv. split.
  - apply dense_indices; [done| |by rewrite length_map].
    intros i (r & -> & Hr)%list_elem_of_fmap. by destruct (proj1 (Forall_forall _ _) HF r Hr).
  - eapply Forall_impl; [exact HF|]. by intros r (_ & ? & _).
Qed.

(** The collected outcomes do not depend on the order in which the items finish. *)
Theorem CollectOutcomes_order n outcomes outcomes' out :
  outcomes ≡ₚ outcomes' → CollectOutcomes NumberToJSON n outcomes = Ok out →
  CollectOutcomes NumberToJSON n outcomes' = Ok out.
Proof.
  unfold CollectOutcomes. intros HP (rs & Hrs%mapErr_Ok & Hc)%bind_Ok.
  destruct (Permutation.Permutation_Forall2 HP Hrs) as (rs' & HP' & Hrs').
  apply bind_Ok. exists rs'. split; [by apply mapErr_Ok|]. by eapply Collect_perm.
Qed.
End CollectSuccess.

(** Expanding a canonical array and collecting, for each item, a result with the
    item's index and value gives the array back, in whatever order the results come. *)
Theorem Collect_Expand (NumberToJSON : spec_float → result string) out items results :
  number_token_law NumberToJSON → number_reads_law NumberToJSON →
  Expand NumberToJSON out = Ok items → results ≡ₚ map asResult items →
  Collect NumberToJSON (Z.of_nat (length items)) results = Ok out.
Proof. intros Ht Hr. by apply Collect_expanded. Qed.

(** Three items, two of them equal, finishing out of order. *)
Definition sampleArray : string := jsonText "[{'a':1},0,0]".
Definition sampleResults : list Result :=
  [{| rs_Index := 2; rs_Body := "0" |}; {| rs_Index := 0; rs_Body := jsonText "{'a':1}" |}; {| rs_Index := 1; rs_Body := "0" |}].

Lemma Collect_Expand_witness : Collect smallNumbers 3 sampleResults = Ok sampleArray.
Proof.
  refine (Collect_Expand smallNumbers sampleArray [_; _; _] sampleResults smallNumbers_token smallNumbers_reads _ _);
    [vm_compute; reflexivity|]. cbn.
  unfold sampleResults, asResult. cbn.
  etrans; [apply perm_swap|]. apply perm_skip, perm_swap.
Defined.

Lemma Collect_dense_witness : map rs_Index sampleResults ≡ₚ seqZ 0 3.
Proof. apply (Collect_dense smallNumbers 3 sampleResults sampleArray). vm_compute. reflexivity. Defined.

Definition sampleOutcomes : list Outcome :=
  [{| oc_Index := 1; oc_Value := None; oc_Failure := Some (NewFailure FailureTimeout 1 "step-timeout") |};
   {| oc_Index := 0; oc_Value := Some "0"; oc_Failure := None |}].

Lemma CollectOutcomes_order_witness :
  CollectOutcomes smallNumbers 2 (rev sampleOutcomes) = Ok (jsonText
    "[{'status':'succeeded','value':0},{'failure':{'attempts':1,'diagnostic':'step-timeout','kind':'timeout'},'status':'failed'}]").
Proof.
  apply (CollectOutcomes_order smallNumbers 2 sampleOutcomes); [apply Permutation_rev|vm_compute; reflexivity].
Defined.

Example decodeFailure_round_trip :
  ParseFailure smallNumbers (λ _, Ok tt) (marshalFailure (NewFailure FailureError 1 "boom")) 1 =
  Ok (NewFailure FailureError 1 "boom").
Proof. vm_compute. reflexivity. Qed.
