(* ===== verification/Retry.v ===== *)
(** * Retry policy and outcome classification

    [internal/orchestrator/retry.go] and the diagnostics of runner outcomes
    ([orchestrator.go]): how often an attempt is made, how long the executor waits
    before it, and which outcomes another attempt may fix.  A [time.Duration] is an
    int64 count of nanoseconds, with its wrap-around. *)

From S2P Require Import Prelude Utf16 Text SpecTypes PlanTypes Artifact Journal MapExec.
From Stdlib Require Import Ascii.
#[local] Open Scope Z_scope.

(** ** 64-bit durations *)
Definition wrap64 (z : Z) : Z := (z + 2 ^ 63) mod 2 ^ 64 - 2 ^ 63.
Definition Second : Z := 1000000000.

(** [Duration.String]: fmtFrac drops the trailing zeros of the fraction of [prec] digits. *)
Fixpoint fmtFrac (prec : nat) (v : Z) (printed : bool) (buf : string) : string * Z :=
  match prec with
  | O => ((if printed then String (charOf 46) buf else buf), v)
  | S prec' =>
      let digit := v mod 10 in
      let printed := printed || negb (digit =? 0) in
      fmtFrac prec' (v / 10) printed (if printed then String (charOf (48 + digit)) buf else buf)
  end.

Definition durationString (d : Z) : string :=
  let u := Z.abs d in
  let text :=
    if u <? Second then
      if u =? 0 then "0s"
      else if u <? 1000 then itoa u +:+ "ns"
      else if u <? 1000000 then let '(frac, v) := fmtFrac 3 u false "µs" in itoa v +:+ frac
      else let '(frac, v) := fmtFrac 6 u false "ms" in itoa v +:+ frac
    else
      let '(frac, v) := fmtFrac 9 u false "s" in
      let seconds := itoa (v mod 60) +:+ frac in
      let minutes := v / 60 in
      if 0 <? minutes then
        let hours := minutes / 60 in
        (if 0 <? hours then itoa hours +:+ "h" else "") +:+ itoa (minutes mod 60) +:+ "m" +:+ seconds
      else seconds in
  if d <? 0 then "-" +:+ text else text.

Example durationString_examples :
  (durationString 1500000000, durationString 3600000000000, durationString 90000000000, durationString 2500000) =
  ("1.5s", "1h0m0s", "1m30s", "2.5ms").
Proof. reflexivity. Qed.

(** ** Outcomes *)

(** [StepInvocationOutcome], without its measured duration. *)
Record StepInvocationOutcome := {
  so_NodeID : string;
  so_Attempt : Z;
  so_Scope : option ExecutionScope;
  so_Status : string;
  so_ExitCode : Z;
  so_Diagnostic : string;
  so_Fatal : option FatalFailure;
  so_RunnerMessage : string;
  so_TimedOutAfter : Z;
}.

Definition stepInvocationStatusInfraFailed : string := "infrastructure-failed".
Definition runnerExitDescriptorResolution : Z := 64.
Definition runnerExitSchemaValidation : Z := 65.
Definition runnerExitStepExecution : Z := 66.
Definition runnerExitNonRetryable : Z := 67.
Definition FatalRunExitCode : Z := 69.
Definition runnerExitInfrastructure : Z := 70.

Definition runnerFailureSummary (outcome : StepInvocationOutcome) (fallback : string) : string :=
  let code := so_ExitCode outcome in
  if 0 <? so_TimedOutAfter outcome then
    "step-timeout (timed out after " +:+ durationString (so_TimedOutAfter outcome) +:+ ")"
  else if code <? 0 then "runner-killed (signal)"
  else
    let label :=
      if code =? runnerExitDescriptorResolution then "descriptor-resolution-failure"
      else if code =? runnerExitSchemaValidation then "schema-validation-failure"
      else if code =? runnerExitStepExecution then "step-execution-failure"
      else if code =? FatalRunExitCode then "fatal-run-failure"
      else if code =? runnerExitNonRetryable then "non-retryable-step-failure"
      else fallback in
    label +:+ " (exit " +:+ itoa code +:+ ")".

Definition runnerDiagnostic (outcome : StepInvocationOutcome) : string :=
  let summary := runnerFailureSummary outcome "runner failed" in
  if bool_decide (so_Diagnostic outcome = "") then summary else summary +:+ ": " +:+ so_Diagnostic outcome.

Definition durableRunnerDiagnostic (outcome : StepInvocationOutcome) : string :=
  runnerFailureSummary outcome "runner-failure".

Definition retryableOutcome (outcome : StepInvocationOutcome) : bool :=
  eqs (so_Status outcome) StatusFailed &&
  negb (existsb (Z.eqb (so_ExitCode outcome))
    [runnerExitDescriptorResolution; runnerExitSchemaValidation; runnerExitNonRetryable; FatalRunExitCode;
     runnerExitInfrastructure]).

Definition withRunnerMessage (summary message : string) : string :=
  if bool_decide (message = "") then summary else summary +:+ ": " +:+ message.

Definition mapItemFailure (outcome : StepInvocationOutcome) (attempt : Z) : Failure * bool :=
  let summary := runnerFailureSummary outcome "runner-failure" in
  let code := so_ExitCode outcome in
  if 0 <? so_TimedOutAfter outcome then (NewFailure FailureTimeout attempt summary, true)
  else if (code =? runnerExitDescriptorResolution) || (code =? runnerExitSchemaValidation) ||
          (code =? runnerExitInfrastructure) || (code =? FatalRunExitCode) then (zeroFailure, false)
  else if code =? runnerExitNonRetryable then
    (NewFailure FailureNonRetryable attempt (withRunnerMessage summary (so_RunnerMessage outcome)), true)
  else if code =? runnerExitStepExecution then
    (NewFailure FailureError attempt (withRunnerMessage summary (so_RunnerMessage outcome)), true)
  else if code <? 0 then (NewFailure FailureKilled attempt summary, true)
  else (NewFailure FailureError attempt summary, true).

(** ** Policies *)

Record executionPolicy := {
  ep_maxAttempts : Z;
  ep_delay : Z;
  ep_backoffFactor : Z;
  ep_maxDelay : Z;
  ep_timeout : Z;
}.

Definition policyForContract (contract : option PlanContract) : executionPolicy :=
  let timeout := wrap64 (match contract with Some c => GetUint32 (pc_TimeoutSeconds c) | None => 0 end * Second) in
  let once := {| ep_maxAttempts := 1; ep_delay := 0; ep_backoffFactor := 1; ep_maxDelay := 0; ep_timeout := timeout |} in
  match contract ≫= pc_Retry with
  | Some retry =>
      if 0 <? GetUint32 (pt_MaxAttempts retry) then
        {| ep_maxAttempts := GetUint32 (pt_MaxAttempts retry);
           ep_delay := wrap64 (GetUint32 (pt_DelaySeconds retry) * Second);
           ep_backoffFactor := Z.max (GetUint32 (pt_BackoffFactor retry)) 1;
           ep_maxDelay := wrap64 (GetUint32 (pt_MaxDelaySeconds retry) * Second);
           ep_timeout := timeout |}
      else once
  | None => once
  end.

(** The loop [for range attempt - 2]. *)
Fixpoint backoff (policy : executionPolicy) (rounds : nat) (delay : Z) : Z :=
  match rounds with
  | O => delay
  | S rounds' =>
      if ep_maxDelay policy <=? delay then delay
      else backoff policy rounds' (wrap64 (delay * ep_backoffFactor policy))
  end.

Definition delayBefore (policy : executionPolicy) (attempt : Z) : Z :=
  Z.min (backoff policy (Z.to_nat (attempt - 2)) (ep_delay policy)) (ep_maxDelay policy).

Definition attemptSuffix (attempt : Z) (policy : executionPolicy) : string :=
  if ep_maxAttempts policy <=? 1 then ""
  else " (attempt " +:+ itoa attempt +:+ " of " +:+ itoa (ep_maxAttempts policy) +:+ ")".

(** ** Properties *)

(** What the spec schema admits of a retry policy. *)
Record retryBounds (r : PlanRetry) : Prop := {
  rb_attempts : 1 <= GetUint32 (pt_MaxAttempts r) <= 100;
  rb_delay : 0 <= GetUint32 (pt_DelaySeconds r) <= 86400;
  rb_factor : 1 <= GetUint32 (pt_BackoffFactor r) <= 10;
  rb_maxDelay : 0 <= GetUint32 (pt_MaxDelaySeconds r) <= 86400;
}.

Lemma wrap64_id z : - 2 ^ 63 <= z < 2 ^ 63 → wrap64 z = z.
Proof. intros H. unfold wrap64. rewrite Z.mod_small; lia. Qed.

(** As long as the product of the cap and the factor fits, the loop is the closed form. *)
Lemma backoff_closed policy rounds delay :
  0 <= delay → 1 <= ep_backoffFactor policy → 0 <= ep_maxDelay policy →
  ep_maxDelay policy * ep_backoffFactor policy < 2 ^ 63 →
  Z.min (backoff policy rounds delay) (ep_maxDelay policy) =
  Z.min (delay * ep_backoffFactor policy ^ Z.of_nat rounds) (ep_maxDelay policy).
Proof.
  intros Hd Hf Hm Hov. revert delay Hd; induction rounds as [|rounds IH]; intros delay Hd.
  { cbn [backoff]. change (Z.of_nat 0) with 0. by rewrite Z.pow_0_r, Z.mul_1_r. }
  cbn [backoff]. rewrite Nat2Z.inj_succ, Z.pow_succ_r by lia.
  set (f := ep_backoffFactor policy) in *. set (p := f ^ Z.of_nat rounds).
  assert (1 <= p) by (pose proof (Z.pow_pos_nonneg f (Z.of_nat rounds)); lia).
  destruct (Z.leb_spec (ep_maxDelay policy) delay) as [Hle|Hlt].
  - assert (delay <= delay * (f * p)) by (assert (1 <= f * p) by nia; nia). lia.
  - rewrite wrap64_id by nia. rewrite IH by nia. unfold p, f. by rewrite Z.mul_assoc.
Qed.

(** With the bounds of the spec schema, the wait before attempt n is
    min(delay * backoffFactor^(n-2), maxDelay); no product overflows. *)
Theorem delayBefore_closed_form contract r attempt
    (Hretry : pc_Retry contract = Some r) (Hb : retryBounds r) (Ha : 2 <= attempt) :
  delayBefore (policyForContract (Some contract)) attempt =
  Z.min (GetUint32 (pt_DelaySeconds r) * GetUint32 (pt_BackoffFactor r) ^ (attempt - 2)) (GetUint32 (pt_MaxDelaySeconds r)) * Second.
Proof.
  destruct Hb as [H1 H2 H3 H4]. unfold delayBefore, policyForContract.
  assert (Some contract ≫= pc_Retry = Some r) as -> by done. replace (0 <? GetUint32 (pt_MaxAttempts r)) with true by lia.
  unfold Second in *.
  rewrite backoff_closed; cbn [ep_delay ep_backoffFactor ep_maxDelay]; rewrite ?wrap64_id by lia; [|nia..].
  rewrite Z2Nat.id, Z.max_l by lia. rewrite <- Z.mul_min_distr_nonneg_r by lia. f_equal. lia.
Qed.

(** An outcome that another attempt may fix is, once attempts run out, one that a
    collecting map keeps as the item's failure: its kind is one of the four of the outcome
    schema and its diagnostic is bounded. *)
Theorem retryable_collected outcome attempt (Hr : retryableOutcome outcome = true) :
  ∃ failure, mapItemFailure outcome attempt = (failure, true) ∧ fl_Attempts failure = attempt ∧
    fl_Kind failure ∈ [FailureError; FailureKilled; FailureTimeout] ∧
    (length (runes (fl_Diagnostic failure)) ≤ 1024)%nat.
Proof.
  unfold retryableOutcome in Hr. apply andb_prop in Hr as [_ Hc%negb_true_iff].
  cbn [existsb] in Hc. rewrite !orb_false_iff in Hc. destruct Hc as (H1 & H2 & H3 & H4 & H5 & _).
  unfold mapItemFailure. rewrite H1, H2, H3, H4, H5. cbn [orb].
  destruct (0 <? so_TimedOutAfter outcome); [|destruct (so_ExitCode outcome =? runnerExitStepExecution);
    [|destruct (so_ExitCode outcome <? 0)]]; eexists; (split; [done|]); split_and!; try done;
    first [by left|by right; left|by right; right; left|apply NewFailure_short].
Qed.

(** Three attempts: waits of 5 and, capped, 8 seconds. *)
Definition retryOf (attempts delay factor maxDelay : Z) : PlanRetry :=
  {| pt_MaxAttempts := Some attempts; pt_DelaySeconds := Some delay; pt_BackoffFactor := Some factor;
     pt_MaxDelaySeconds := Some maxDelay |}.
Definition contractOf (retry : PlanRetry) : PlanContract :=
  {| pc_ContractRef := None; pc_EnvironmentRef := Some "env"; pc_Resources := None; pc_Secrets := [];
     pc_Network := None; pc_Retry := Some retry; pc_TimeoutSeconds := Some 60 |}.
Definition sampleRetry : PlanRetry := retryOf 3 5 2 8.
Definition sampleContract : PlanContract := contractOf sampleRetry.

Lemma delayBefore_closed_form_witness :
  delayBefore (policyForContract (Some sampleContract)) 2 = 5000000000 ∧
  delayBefore (policyForContract (Some sampleContract)) 3 = 8000000000.
Proof.
  split.
  - apply (delayBefore_closed_form sampleContract sampleRetry 2); [reflexivity| |lia]. split; simpl; lia.
  - apply (delayBefore_closed_form sampleContract sampleRetry 3); [reflexivity| |lia]. split; simpl; lia.
Defined.

(** Outside those bounds a product may wrap around: a wait of at least three seconds
    becomes negative, that is, none at all. *)
Example delayBefore_overflow :
  let contract := contractOf (retryOf 3 3 4294967295 4294967295) in
  delayBefore (policyForContract (Some contract)) 3 < 0.
Proof. vm_compute. reflexivity. Qed.

Definition sampleOutcome : StepInvocationOutcome :=
  {| so_NodeID := "m"; so_Attempt := 1; so_Scope := None; so_Status := StatusFailed; so_ExitCode := 66;
     so_Diagnostic := ""; so_Fatal := None; so_RunnerMessage := "boom"; so_TimedOutAfter := 0 |}.

Lemma retryable_collected_witness :
  ∃ failure, mapItemFailure sampleOutcome 1 = (failure, true) ∧ fl_Attempts failure = 1 ∧
    fl_Kind failure ∈ [FailureError; FailureKilled; FailureTimeout] ∧
    (length (runes (fl_Diagnostic failure)) ≤ 1024)%nat.
Proof. apply (retryable_collected sampleOutcome 1). reflexivity. Defined.
