(* ===== verification/Compile.v ===== *)
(** * Compiling a workflow spec to a plan

    [internal/plan/compile.go]: every schema, environment and contract is addressed by the
    hash of its content, and the references of the graph are rewritten to these hashes.
    [protojson.Marshal] is a parameter.  [sort.Slice] and [slices.SortFunc] are not stable:
    the order they give is the one [merge_sort] gives where their keys are distinct.  Go
    ranges over the map of schemas in an unspecified order, the argument [schemaOrder]. *)

From S2P Require Import Prelude Utf16 Text SpecTypes PlanTypes TopoOrder Kahn Schedule Json Canonical SourceIdentity Validate Semantics.
From Stdlib Require Import SpecFloat.
#[local] Open Scope Z_scope.

Definition CompilerName : string := "massive-go".
Definition CompilerVersion : string := "0.0.0".

(** [compareUTF16] on the three fields of an edge, in turn. *)
Definition compareEdges (left right : GraphEdge) : Z :=
  let order := compareUTF16 (ge_From left) (ge_From right) in
  if negb (order =? 0) then order
  else let order := compareUTF16 (ge_To left) (ge_To right) in
  if negb (order =? 0) then order
  else compareUTF16 (ge_Case left) (ge_Case right).
Definition edgeLe (left right : GraphEdge) : Prop := compareEdges left right <= 0.
#[global] Instance edgeLe_dec : RelDecision edgeLe.
Proof. intros l r. unfold edgeLe. apply _. Defined.

(** [sort.Slice(values, func(i, j) { LessUTF16(key(values[i]), key(values[j])) })] *)
Definition sortOn {A} (key : A → string) (values : list A) : list A :=
  map snd (sortMembers (map (λ x, (key x, x)) values)).

(** [if value != "" { field = stringPtr(value) }] *)
Definition nonEmpty (value : string) : option string := if bool_decide (value = "") then None else Some value.
Definition nonZero (value : Z) : option Z := if value =? 0 then None else Some value.

Definition hashingSpec (recipe : string) : PlanHashing :=
  {| ph_Algorithm := Some "sha256"; ph_Canonicalization := Some "canonical-json-v0";
     ph_Recipe := Some recipe; ph_RecipeVersion := Some 1 |}.

(** [m[key]] of a map of strings. *)
Definition hashOf (hashes : gmap string string) (reference : string) : string := default "" (hashes !! reference).

(** ** The graph *)
Section Graph.
Context (schemaHashes contractHashes : gmap string string).

Definition compileNode (node : GraphNode) : PlanNode :=
  let base :=
    {| pn_Id := Some (gn_ID node); pn_Kind := Some (gn_Kind node); pn_InputSchema := None;
       pn_OutputSchema := None; pn_SymbolRef := None; pn_ContractRef := None; pn_MergeInputs := [];
       pn_Selector := None; pn_Cases := []; pn_DecisionRef := None; pn_SelectInputs := [];
       pn_ItemInputSchema := None; pn_ItemOutputSchema := None; pn_MaxConcurrency := None;
       pn_ItemFailures := None |} in
  if isKind NodeKindStep node then
    {| pn_Id := pn_Id base; pn_Kind := pn_Kind base;
       pn_InputSchema := Some (hashOf schemaHashes (gn_InputSchema node));
       pn_OutputSchema := Some (hashOf schemaHashes (gn_OutputSchema node));
       pn_SymbolRef := Some (gn_SymbolRef node);
       pn_ContractRef := Some (hashOf contractHashes (gn_ContractRef node));
       pn_MergeInputs := gn_MergeInputs node;
       pn_Selector := None; pn_Cases := []; pn_DecisionRef := None; pn_SelectInputs := [];
       pn_ItemInputSchema := None; pn_ItemOutputSchema := None; pn_MaxConcurrency := None;
       pn_ItemFailures := None |}
  else if isKind NodeKindDecision node then
    {| pn_Id := pn_Id base; pn_Kind := pn_Kind base;
       pn_InputSchema := Some (hashOf schemaHashes (gn_InputSchema node));
       pn_OutputSchema := None; pn_SymbolRef := None; pn_ContractRef := None; pn_MergeInputs := [];
       pn_Selector := Some (gn_Selector node);
       pn_Cases := map (λ c, {| pk_Tag := Some (dc_Tag c);
                                pk_Schema := Some (hashOf schemaHashes (dc_Schema c)) |}) (gn_Cases node);
       pn_DecisionRef := None; pn_SelectInputs := []; pn_ItemInputSchema := None;
       pn_ItemOutputSchema := None; pn_MaxConcurrency := None; pn_ItemFailures := None |}
  else if isKind NodeKindSelect node then
    {| pn_Id := pn_Id base; pn_Kind := pn_Kind base; pn_InputSchema := None;
       pn_OutputSchema := Some (hashOf schemaHashes (gn_OutputSchema node));
       pn_SymbolRef := None; pn_ContractRef := None; pn_MergeInputs := []; pn_Selector := None; pn_Cases := [];
       pn_DecisionRef := Some (gn_DecisionRef node);
       pn_SelectInputs := map (λ i, {| pi_Case := Some (si_Case i); pi_Source := Some (si_Source i) |})
                            (gn_SelectInputs node);
       pn_ItemInputSchema := None; pn_ItemOutputSchema := None; pn_MaxConcurrency := None;
       pn_ItemFailures := None |}
  else if isKind NodeKindMap node then
    {| pn_Id := pn_Id base; pn_Kind := pn_Kind base;
       pn_InputSchema := Some (hashOf schemaHashes (gn_InputSchema node));
       pn_OutputSchema := Some (hashOf schemaHashes (gn_OutputSchema node));
       pn_SymbolRef := Some (gn_SymbolRef node);
       pn_ContractRef := Some (hashOf contractHashes (gn_ContractRef node));
       pn_MergeInputs := []; pn_Selector := None; pn_Cases := []; pn_DecisionRef := None; pn_SelectInputs := [];
       pn_ItemInputSchema := Some (hashOf schemaHashes (gn_ItemInputSchema node));
       pn_ItemOutputSchema := Some (hashOf schemaHashes (gn_ItemOutputSchema node));
       pn_MaxConcurrency := Some (gn_MaxConcurrency node);
       pn_ItemFailures := nonEmpty (gn_ItemFailures node) |}
  else base.

Definition compileEdge (edge : GraphEdge) : PlanEdge :=
  {| pe_From := Some (ge_From edge); pe_To := Some (ge_To edge); pe_Case := nonEmpty (ge_Case edge) |}.

Definition compileExitHook (hook : GraphNode) : PlanNode :=
  {| pn_Id := Some (gn_ID hook); pn_Kind := Some NodeKindExitHook;
     pn_InputSchema := Some (hashOf schemaHashes (gn_InputSchema hook));
     pn_OutputSchema := Some (hashOf schemaHashes (gn_OutputSchema hook));
     pn_SymbolRef := Some (gn_SymbolRef hook);
     pn_ContractRef := Some (hashOf contractHashes (gn_ContractRef hook));
     pn_MergeInputs := []; pn_Selector := None; pn_Cases := []; pn_DecisionRef := None; pn_SelectInputs := [];
     pn_ItemInputSchema := None; pn_ItemOutputSchema := None; pn_MaxConcurrency := None;
     pn_ItemFailures := None |}.

Definition compileGraph (workflowSpec : WorkflowSpec) (schedule : Schedule) : GraphIR :=
  let graph := ws_Graph workflowSpec in
  let workflow := ws_Workflow workflowSpec in
  let nodeByID := indexBy gn_ID (gr_Nodes graph) in
  {| gi_WorkflowName := Some (wf_Name workflow);
     gi_InputSchema := Some (hashOf schemaHashes (wf_InputSchema workflow));
     gi_OutputSchema := Some (hashOf schemaHashes (wf_OutputSchema workflow));
     gi_StartNode := Some (gr_Start graph);
     gi_EndNode := Some (gr_End graph);
     gi_Nodes := map (λ nodeID, compileNode (nodeAt nodeByID nodeID)) (sc_NodeOrder schedule);
     gi_Edges := map compileEdge (merge_sort edgeLe (gr_Edges graph));
     gi_IrVersion := Some (gr_IRVersion graph);
     gi_DeadlineSeconds := nonZero (wf_DeadlineSeconds workflow);
     gi_ExitHook := compileExitHook <$> gr_ExitHook graph |}.
End Graph.

(** ** Symbols and source packages *)
Definition zeroSymbol : Symbol := {| sy_PackageID := ""; sy_Language := ""; sy_Module := ""; sy_Export := "" |}.

Definition symbolEntry (symbols : gmap string Symbol) (symbolRef : string) : SymbolEntry :=
  let symbol := default zeroSymbol (symbols !! symbolRef) in
  {| ye_SymbolRef := Some symbolRef; ye_PackageId := Some (sy_PackageID symbol);
     ye_Language := Some (sy_Language symbol); ye_Module := Some (sy_Module symbol);
     ye_Export := Some (sy_Export symbol) |}.

(** One iteration of either loop: [seen] holds the references already listed. *)
Definition addSymbol (symbols : gmap string Symbol) (mark : bool)
    (st : list SymbolEntry * gset string) (symbolRef : string) : list SymbolEntry * gset string :=
  if bool_decide (symbolRef ∈ st.2) then st
  else (st.1 ++ [symbolEntry symbols symbolRef], if mark then {[symbolRef]} ∪ st.2 else st.2).

Definition compileSymbols (workflowSpec : WorkflowSpec) (schedule : Schedule) : list SymbolEntry :=
  let nodeByID := indexBy gn_ID (gr_Nodes (ws_Graph workflowSpec)) in
  let symbols := ws_Symbols workflowSpec in
  let st := foldl (addSymbol symbols true) ([], ∅)
              (map (λ stepID, gn_SymbolRef (nodeAt nodeByID stepID)) (sc_StepIDs schedule)) in
  (foldl (addSymbol symbols false) st (sortedKeys symbols)).1.

Definition zeroPackage : SourcePackage :=
  {| sp_PackageID := ""; sp_Language := ""; sp_PackageHash := "";
     sp_Hashing := {| hs_Algorithm := ""; hs_Canonicalization := ""; hs_Recipe := ""; hs_RecipeVersion := 0 |};
     sp_Files := [] |}.

Definition sourcePackageRef (sourcePackage : SourcePackage) : SourcePackageRef :=
  {| kr_PackageId := Some (sp_PackageID sourcePackage); kr_Language := Some (sp_Language sourcePackage);
     kr_PackageHash := Some (sp_PackageHash sourcePackage); kr_Manifest := None; kr_SourceArchive := None;
     kr_Hashing := Some (hashingSpec "source-package") |}.

Definition compileSourcePackages (workflowSpec : WorkflowSpec) : list SourcePackageRef :=
  map (λ packageID, sourcePackageRef (default zeroPackage (ws_SourcePackages workflowSpec !! packageID)))
    (sortedKeys (ws_SourcePackages workflowSpec)).

(** ** Content addresses *)
Definition containerRequirement (environment : Environment) : ContainerRequirement :=
  {| ct_Image := Some (en_Image environment); ct_Platform := Some (en_Platform environment);
     ct_Command := en_Command environment; ct_WorkingDirectory := nonEmpty (en_WorkingDirectory environment) |}.

Definition runtimeOf (environment : Environment) : result RuntimeRequirement :=
  if bool_decide (en_Kind environment = "container") then Ok (RuntimeContainer (containerRequirement environment))
  else if bool_decide (en_Kind environment = "node") then
    Ok (RuntimeNode {| nr_Version := Some (en_Version environment);
                       nr_PackageManager := Some (en_PackageManager environment);
                       nr_Lockfile := Some (en_Lockfile environment) |})
  else Err (Errorf "unsupported environment requirement kind %q" [AStr (en_Kind environment)]).

Definition compileContract (environmentHashes : gmap string string) (contract : ExecutionContract) : PlanContract :=
  {| pc_ContractRef := None;
     pc_EnvironmentRef := Some (hashOf environmentHashes (ec_EnvironmentRef contract));
     pc_Resources := (λ r, {| pr_Cpu := nonEmpty (rr_CPU r); pr_Memory := nonEmpty (rr_Memory r) |})
                     <$> ec_Resources contract;
     pc_Secrets := map (λ s, {| px_Name := Some (sr_Name s); px_Ref := Some (sr_Ref s) |}) (ec_Secrets contract);
     pc_Network := (λ n, {| pw_Egress := Some (np_Egress n); pw_Hosts := np_Hosts n |}) <$> ec_Network contract;
     pc_Retry := (λ r, {| pt_MaxAttempts := Some (rp_MaxAttempts r); pt_DelaySeconds := Some (rp_DelaySeconds r);
                          pt_BackoffFactor := Some (rp_BackoffFactor r);
                          pt_MaxDelaySeconds := Some (rp_MaxDelaySeconds r) |}) <$> ec_Retry contract;
     pc_TimeoutSeconds := nonZero (ec_TimeoutSeconds contract) |}.

Definition zeroEnvironment : Environment :=
  {| en_Kind := ""; en_Image := ""; en_Platform := ""; en_Command := []; en_WorkingDirectory := "";
     en_Version := ""; en_PackageManager := ""; en_Lockfile := "" |}.
Definition zeroContract : ExecutionContract :=
  {| ec_EnvironmentRef := ""; ec_Retry := None; ec_TimeoutSeconds := 0; ec_Resources := None;
     ec_Secrets := []; ec_Network := None |}.

Record CompileResult := {
  cr_Plan : WorkflowPlan;
  cr_CanonicalJSON : string;
  cr_PlanHash : string;
  cr_SpecHash : string;
  cr_Schedule : Schedule;
}.

Section Compile.
Context (NumberToJSON : spec_float → result string) (sha256Hex : string → string).
(** [protojson.Marshal], a third-party package. *)
Context (protojsonMarshal : Message → result string).

Definition hashPlanMessage (message : Message) : result string :=
  data ← wrapErr "marshal plan field tree: %w" [] (protojsonMarshal message);
  DigestJSON NumberToJSON sha256Hex data.

Definition MarshalCanonical (plan : WorkflowPlan) : result string :=
  protoJSON ← wrapErr "marshal workflow plan protojson: %w" [] (protojsonMarshal (MPlan plan));
  wrapErr "canonicalize workflow plan JSON: %w" [] (CanonicalizeJSON NumberToJSON protoJSON).

(** [proto.Clone] keeps every field; the hash of a plan excludes its own hash. *)
Definition hashPlan (plan : WorkflowPlan) : result string :=
  protoJSON ← wrapErr "marshal workflow plan for hash: %w" [] (protojsonMarshal (MPlan (setPlanHash None plan)));
  wrapErr "hash workflow plan: %w" [] (DigestJSON NumberToJSON sha256Hex protoJSON).

Definition addSchema (st : gmap string string * gmap string string) (x : string * string)
    : result (gmap string string * gmap string string) :=
  canonicalJSON ← wrapErr "canonicalize schema %s: %w" [AStr x.1] (CanonicalizeJSON NumberToJSON x.2);
  let newHash := DigestBytes sha256Hex canonicalJSON in
  Ok (<[x.1 := newHash]> st.1, <[newHash := canonicalJSON]> st.2).

Definition compileSchemas (schemaOrder : list (string * string))
    : result (gmap string string * list SchemaEntry) :=
  '(oldToNew, byHash) ← foldErr addSchema (∅, ∅) schemaOrder;
  Ok (oldToNew, map (λ hash, {| se_Hash := Some hash; se_CanonicalJson := Some (hashOf byHash hash) |})
                  (sortedKeys byHash)).

(** [oldToNew], the entries so far and [seen], which holds their hashes. *)
Definition addEnvironment (environments : gmap string Environment)
    (st : gmap string string * list EnvironmentRequirement * gset string) (oldRef : string)
    : result (gmap string string * list EnvironmentRequirement * gset string) :=
  let '(oldToNew, entries, seen) := st in
  runtime ← runtimeOf (default zeroEnvironment (environments !! oldRef));
  let requirement := {| er_EnvRef := None; er_Runtime := Some runtime |} in
  hash ← wrapErr "hash environment %s: %w" [AStr oldRef] (hashPlanMessage (MEnvironment requirement));
  Ok (<[oldRef := hash]> oldToNew,
      if bool_decide (hash ∈ seen) then entries else entries ++ [setEnvRef (Some hash) requirement],
      {[hash]} ∪ seen).

Definition compileEnvironments (workflowSpec : WorkflowSpec)
    : result (gmap string string * list EnvironmentRequirement) :=
  let environments := ws_Environments workflowSpec in
  '(oldToNew, entries, _) ← foldErr (addEnvironment environments) (∅, [], ∅) (sortedKeys environments);
  Ok (oldToNew, sortOn (λ e, GetString (er_EnvRef e)) entries).

Definition addContract (contracts : gmap string ExecutionContract) (environmentHashes : gmap string string)
    (st : gmap string string * gmap string PlanContract) (oldRef : string)
    : result (gmap string string * gmap string PlanContract) :=
  let compiled := compileContract environmentHashes (default zeroContract (contracts !! oldRef)) in
  hash ← wrapErr "hash contract %s: %w" [AStr oldRef] (hashPlanMessage (MContract compiled));
  Ok (<[oldRef := hash]> st.1, <[hash := setContractRef (Some hash) compiled]> st.2).

Definition compileContracts (workflowSpec : WorkflowSpec) (environmentHashes : gmap string string)
    : result (gmap string string * list PlanContract) :=
  let contracts := ws_Contracts workflowSpec in
  '(oldToNew, compiledByHash) ← foldErr (addContract contracts environmentHashes) (∅, ∅) (sortedKeys contracts);
  Ok (oldToNew, omap (λ hash, compiledByHash !! hash) (sortedKeys compiledByHash)).

Definition compiledPlan (workflowSpec : WorkflowSpec) (schedule : Schedule) (specHash : string)
    (schemaHashes contractHashes : gmap string string) (schemas : list SchemaEntry)
    (environments : list EnvironmentRequirement) (contracts : list PlanContract) : WorkflowPlan :=
  {| wp_SchemaVersion := Some 1;
     wp_PlanHash := None;
     wp_SpecHash := Some specHash;
     wp_Graph := Some (compileGraph schemaHashes contractHashes workflowSpec schedule);
     wp_Schemas := schemas;
     wp_Symbols := compileSymbols workflowSpec schedule;
     wp_SourcePackages := compileSourcePackages workflowSpec;
     wp_Environments := environments;
     wp_Contracts := contracts;
     wp_Targets := [];
     wp_DatastoreManifests := [];
     wp_Provenance := Some {| cp_CompilerName := Some CompilerName; cp_CompilerVersion := Some CompilerVersion;
                              cp_SourceSpecHash := Some specHash |};
     wp_Hashing := Some (hashingSpec "workflow-plan");
     wp_SpecHashing := Some (hashingSpec "workflow-spec") |}.

Definition Compile (workflowSpec : WorkflowSpec) (sourceJSON : string) (schemaOrder : list (string * string))
    : result CompileResult :=
  schedule ← wrapErr "build schedule: %w" [] (BuildSchedule (ws_Graph workflowSpec));
  specHash ← RecomputedSpecHash NumberToJSON sha256Hex sourceJSON;
  if negb (bool_decide (ws_SpecHash workflowSpec = specHash)) then
    Err (Errorf "embedded workflow spec hash %q does not match canonical content %q"
      [AStr (ws_SpecHash workflowSpec); AStr specHash])
  else
  '(schemaHashes, schemas) ← compileSchemas schemaOrder;
  '(environmentHashes, environments) ← compileEnvironments workflowSpec;
  '(contractHashes, contracts) ← compileContracts workflowSpec environmentHashes;
  let plan := compiledPlan workflowSpec schedule specHash schemaHashes contractHashes schemas environments contracts in
  planHash ← hashPlan plan;
  let plan := setPlanHash (Some planHash) plan in
  canonicalJSON ← MarshalCanonical plan;
  Ok {| cr_Plan := plan; cr_CanonicalJSON := canonicalJSON; cr_PlanHash := planHash;
        cr_SpecHash := specHash; cr_Schedule := schedule |}.
End Compile.
