(* ===== verification/Verify.v ===== *)
(** * Reading a compiled plan back

    [internal/plan/verify.go], [execution.go] and [controlflow.go]: what every reader of a
    plan checks before it trusts it.  [protojson], [jsonschema] and the decoding of a
    protobuf node's JSON into a [spec.GraphNode] are parameters. *)

From S2P Require Import Prelude Utf16 Text SpecTypes PlanTypes TopoOrder Kahn Schedule Json Canonical SourceIdentity Validate Decisions Semantics Compile.
From Stdlib Require Import SpecFloat.
#[local] Open Scope Z_scope.

(** [irversion.Current] *)
Definition Current : string := "0.3".

(** [plan.GetGraph().GetIrVersion()] and the like: getters of a nil message. *)
Definition GetIrVersion (graph : option GraphIR) : string := GetString (graph ≫= gi_IrVersion).

Section Verify.
Context `{SR : SchemaRules} (NumberToJSON : spec_float → result string) (sha256Hex : string → string).
(** [protojson.Marshal]; [protojson.Unmarshal] into a plan. *)
Context (protojsonMarshal : Message → result string) (protojsonUnmarshal : string → result WorkflowPlan).
(** [encoding/json] decoding the protobuf JSON of a node into a [spec.GraphNode]. *)
Context (unmarshalNode : string → result GraphNode).
(** The compiled fragments of the workflow schema, and the marshalled-graph check. *)
Context (deadlineSchema timeoutSchema : Z → result unit) (exitHookSchema : string → result unit)
  (graphSchema : Graph → result unit).
Context (RunOutcomeSchemaJSON : string).

Definition ParseCanonicalJSON (data : string) : result WorkflowPlan :=
  parsed ← wrapErr "parse workflow plan schema v1 JSON (rebuild older plans): %w" [] (protojsonUnmarshal data);
  if negb (bool_decide (GetIrVersion (wp_Graph parsed) = Current)) then
    Err (Errorf "workflow plan graph.irVersion must equal %s; rebuild with the current SDK" [AStr Current])
  else Ok parsed.

Definition validateHashingSpec (hashing : option PlanHashing) (recipe subject : string) : result unit :=
  match hashing with
  | Some {| ph_Algorithm := Some algorithm; ph_Canonicalization := Some canonicalization;
            ph_Recipe := Some actual; ph_RecipeVersion := Some version |} =>
      if negb (bool_decide (algorithm = "sha256")) || negb (bool_decide (canonicalization = "canonical-json-v0")) ||
         negb (bool_decide (actual = recipe)) || negb (version =? 1)
      then Err (Errorf "%s hashing descriptor must be sha256/canonical-json-v0/%s@1" [AStr subject; AStr recipe])
      else Ok tt
  | _ => Err (Errorf "%s hashing descriptor must be present and complete" [AStr subject])
  end.

(** One source package of the loop. *)
Definition validatePackage (x : nat * SourcePackageRef) : result unit :=
  let '(index, sourcePackage) := x in
  _ ← validateHashingSpec (kr_Hashing sourcePackage) "source-package"
        ("workflow plan sourcePackages[" +:+ itoaNat index +:+ "]");
  if match kr_PackageHash sourcePackage with None => true | Some hash => negb (IsSHA256Ref hash) end
  then Err (Errorf "workflow plan sourcePackages[%d].packageHash must be sha256:<64 lowercase hex>"
             [AInt (Z.of_nat index)])
  else Ok tt.

(** One environment of the loop; [seen] is the map [environments]. *)
Definition validateRequirement (seen : gset string) (requirement : EnvironmentRequirement) : result (gset string) :=
  let ref := GetString (er_EnvRef requirement) in
  if bool_decide (er_Runtime requirement = None) || negb (IsSHA256Ref ref) || bool_decide (ref ∈ seen) then
    Err (ErrNew "workflow plan requires unique, typed environment requirements with sha256 references")
  else
    hash ← hashPlanMessage NumberToJSON sha256Hex protojsonMarshal (MEnvironment (setEnvRef None requirement));
    if bool_decide (hash = ref) then Ok ({[ref]} ∪ seen)
    else Err (Errorf "workflow plan environment reference %s does not match requirement %s" [AStr ref; AStr hash]).

Definition absent (field : option string) : bool := match field with None => true | Some value => bool_decide (value = "") end.

Definition validateVersionedIdentity (plan : WorkflowPlan) : result unit :=
  if negb (bool_decide (wp_SchemaVersion plan = Some 1)) then
    Err (ErrNew "workflow plan schemaVersion must be present and equal 1; rebuild older plans")
  else if bool_decide (wp_SpecHash plan = None) then Err (ErrNew "workflow plan specHash must be present")
  else if negb (IsSHA256Ref (GetString (wp_SpecHash plan))) then
    Err (ErrNew "workflow plan specHash must be sha256:<64 lowercase hex>")
  else
  _ ← validateHashingSpec (wp_Hashing plan) "workflow-plan" "workflow plan";
  _ ← validateHashingSpec (wp_SpecHashing plan) "workflow-spec" "workflow plan specHash";
  if match wp_Provenance plan with
     | None => true
     | Some p => absent (cp_CompilerName p) || absent (cp_CompilerVersion p) ||
                 bool_decide (cp_SourceSpecHash p = None)
     end then
    Err (ErrNew "workflow plan provenance compiler name, version, and source spec hash must be present")
  else if negb (bool_decide (GetString (wp_Provenance plan ≫= cp_SourceSpecHash) = GetString (wp_SpecHash plan))) then
    Err (ErrNew "workflow plan provenance sourceSpecHash must equal specHash")
  else
  _ ← mapErr validatePackage (indexed (wp_SourcePackages plan));
  _ ← foldErr validateRequirement ∅ (wp_Environments plan);
  Ok tt.

(** ** The exit hook of a plan *)
Definition contractView (entry : PlanContract) : ExecutionContract :=
  {| ec_EnvironmentRef := GetString (pc_EnvironmentRef entry);
     ec_Retry := (λ r, {| rp_MaxAttempts := GetUint32 (pt_MaxAttempts r); rp_DelaySeconds := 0;
                          rp_BackoffFactor := 0; rp_MaxDelaySeconds := 0 |}) <$> pc_Retry entry;
     ec_TimeoutSeconds := GetUint32 (pc_TimeoutSeconds entry);
     ec_Resources := None; ec_Secrets := []; ec_Network := None |}.

(** The loop over the contracts: the hook's own contract has its timeout checked. *)
Definition checkHookTimeout (hook : PlanNode) (entry : PlanContract) : result unit :=
  if bool_decide (GetString (pc_ContractRef entry) = GetString (pn_ContractRef hook)) then
    wrapErr "workflow plan exit hook requires a valid finite timeoutSeconds; rebuild the plan: %w" []
      (timeoutSchema (GetUint32 (pc_TimeoutSeconds entry)))
  else Ok tt.

(** [m[key(x)] = value(x)] over a repeated field. *)
Definition mapBy {A B} (key : A → string) (value : A → B) (l : list A) : gmap string B :=
  value <$> indexBy key l.

Definition zeroHashing : HashingSpec := {| hs_Algorithm := ""; hs_Canonicalization := ""; hs_Recipe := ""; hs_RecipeVersion := 0 |}.

(** The workflow spec the validator projects the plan's hook onto. *)
Definition hookSpec (p : WorkflowPlan) (node : GraphNode) : WorkflowSpec :=
  {| ws_Kind := ""; ws_SchemaVersion := 0; ws_Encoding := ""; ws_Hashing := zeroHashing; ws_SpecHash := "";
     ws_Workflow := {| wf_Name := ""; wf_InputSchema := ""; wf_OutputSchema := ""; wf_DeadlineSeconds := 0 |};
     ws_Graph := {| gr_IRVersion := ""; gr_Start := ""; gr_End := ""; gr_Nodes := []; gr_Edges := [];
                    gr_ExitHook := Some node |};
     ws_Schemas := mapBy (λ e, GetString (se_Hash e)) (λ e, GetString (se_CanonicalJson e)) (wp_Schemas p);
     ws_Symbols := mapBy (λ e, GetString (ye_SymbolRef e))
       (λ e, {| sy_PackageID := GetString (ye_PackageId e); sy_Language := GetString (ye_Language e);
                sy_Module := GetString (ye_Module e); sy_Export := GetString (ye_Export e) |}) (wp_Symbols p);
     ws_SourcePackages := ∅; ws_Environments := ∅;
     ws_Contracts := mapBy (λ e, GetString (pc_ContractRef e)) contractView (wp_Contracts p) |}.

Definition nodesByID (graph : GraphIR) : gmap string GraphNode :=
  let bare id := {| gn_ID := id; gn_Kind := ""; gn_InputSchema := ""; gn_OutputSchema := "";
     gn_SymbolRef := ""; gn_ContractRef := ""; gn_MergeInputs := []; gn_Selector := "";
     gn_Cases := []; gn_DecisionRef := ""; gn_SelectInputs := []; gn_ItemInputSchema := "";
     gn_ItemOutputSchema := ""; gn_MaxConcurrency := 0; gn_ItemFailures := "" |} in
  mapBy (λ n, GetString (pn_Id n)) (λ n, bare (GetString (pn_Id n))) (gi_Nodes graph).

Definition packageExists (p : WorkflowPlan) (symbol : Symbol) : bool :=
  existsb (λ e, bool_decide (GetString (kr_PackageId e) = sy_PackageID symbol) &&
                bool_decide (GetString (kr_Language e) = sy_Language symbol)) (wp_SourcePackages p).
Definition environmentExists (p : WorkflowPlan) (reference : string) : bool :=
  existsb (λ e, bool_decide (GetString (er_EnvRef e) = reference)) (wp_Environments p).

Definition diagnosticsError (diagnostics : list Diagnostic) : error :=
  DiagnosticsError (map (λ d, (dg_Path d, dg_Ref d, dg_Message d)) diagnostics).

Definition validateHook (p : WorkflowPlan) (graph : GraphIR) (hook : PlanNode) : result unit :=
  body ← protojsonMarshal (MNode hook);
  _ ← wrapErr "workflow plan graph.exitHook violates the exit hook schema; rebuild the plan: %w" [] (exitHookSchema body);
  node ← unmarshalNode body;
  let authored := hookSpec p node in
  _ ← mapErr (checkHookTimeout hook) (wp_Contracts p);
  match ValidateExitHook NumberToJSON RunOutcomeSchemaJSON authored (nodesByID graph) with
  | [] =>
      if negb (packageExists p (default zeroSymbol (ws_Symbols authored !! gn_SymbolRef node))) then
        Err (ErrNew "workflow plan graph.exitHook symbol references an unknown source package; rebuild the plan")
      else if negb (environmentExists p
                (ec_EnvironmentRef (default zeroContract (ws_Contracts authored !! gn_ContractRef node)))) then
        Err (ErrNew "workflow plan graph.exitHook contract references an unknown environment; rebuild the plan")
      else Ok tt
  | diagnostics => Err (Errorf "workflow plan has an invalid exit hook; rebuild the plan: %w"
                         [AWrap (diagnosticsError diagnostics)])
  end.

Definition ValidateExecution (p : WorkflowPlan) : result unit :=
  match wp_Graph p with
  | None => Err (ErrNew "workflow plan is missing graph; rebuild the plan")
  | Some graph =>
      _ ← match gi_DeadlineSeconds graph with
          | None => Ok tt
          | Some deadline =>
              wrapErr "workflow plan graph.deadlineSeconds violates the workflow deadline schema; rebuild the plan: %w"
                [] (deadlineSchema deadline)
          end;
      match gi_ExitHook graph with
      | None => Ok tt
      | Some hook => validateHook p graph hook
      end
  end.

(** ** The whole plan *)
Definition VerifyCanonicalJSON (planJSON expectedHash : string) : result WorkflowPlan :=
  canonicalJSON ← wrapErr "plan JSON is not valid JSON: %w" [] (CanonicalizeJSON NumberToJSON planJSON);
  if negb (bool_decide (canonicalJSON = planJSON)) then Err (ErrNew "plan JSON is not canonical")
  else
  parsed ← ParseCanonicalJSON planJSON;
  _ ← ValidateExecution parsed;
  _ ← validateVersionedIdentity parsed;
  recomputed ← wrapErr "recompute workflow plan hash: %w" []
    (hashPlan NumberToJSON sha256Hex protojsonMarshal parsed);
  if negb (bool_decide (recomputed = expectedHash)) then
    Err (Errorf "expected plan hash %q does not match canonical plan content %q" [AStr expectedHash; AStr recomputed])
  else if negb (bool_decide (GetString (wp_PlanHash parsed) = expectedHash)) then
    Err (Errorf "embedded plan hash %q does not match expected plan hash %q"
      [AStr (GetString (wp_PlanHash parsed)); AStr expectedHash])
  else Ok parsed.

(** [plan.ValidateControlFlow] *)
Definition authoredGraph (graph : option GraphIR) : Graph :=
  match graph with
  | None => {| gr_IRVersion := ""; gr_Start := ""; gr_End := ""; gr_Nodes := []; gr_Edges := []; gr_ExitHook := None |}
  | Some g =>
      {| gr_IRVersion := GetString (gi_IrVersion g); gr_Start := GetString (gi_StartNode g);
         gr_End := GetString (gi_EndNode g); gr_Nodes := map authoredNode (gi_Nodes g);
         gr_Edges := map authoredEdge (gi_Edges g); gr_ExitHook := None |}
  end.

Definition ValidatePlanControlFlow (p : WorkflowPlan) : result unit :=
  _ ← ValidateExecution p;
  ValidateControlFlow graphSchema (authoredGraph (wp_Graph p))
    (mapBy (λ e, GetString (se_Hash e)) (λ e, GetString (se_CanonicalJson e)) (wp_Schemas p)).
End Verify.
