(* ===== verification/CompileSafety.v ===== *)
(** * What the compiler promises the readers of a plan

    Every reference of a compiled plan is the hash of the content it names, the plan does
    not depend on the order in which a frontend lists the graph, and a plan the compiler
    returns passes every check of [VerifyCanonicalJSON]. *)

From S2P Require Import Prelude Utf16 Text SpecTypes PlanTypes TopoOrder Kahn Schedule SpecGraph Json Canonical CanonicalText CanonicalForm SourceIdentity Validate Decisions Semantics Encode Compile Verify.
From Stdlib Require Import SpecFloat.
#[local] Open Scope Z_scope.

(** ** Maps filled by a loop *)

(** Where entries with one key are equal, the loop order does not matter. *)
Lemma indexBy_functional {A} (key : A → string) l x :
  (∀ x y, x ∈ l → y ∈ l → key x = key y → x = y) → x ∈ l → indexBy key l !! key x = Some x.
Proof.
  intros Hf Hx. destruct (indexBy key l !! key x) as [y|] eqn:E.
  - destruct (indexBy_key _ _ _ _ E) as [Ek Hy]. f_equal. by apply Hf.
  - assert (is_Some (indexBy key l !! key x)) as [? H]; [|by rewrite H in E].
    apply indexBy_is_Some. by apply list_elem_of_fmap_2.
Qed.

Lemma mapBy_functional {A B} (key : A → string) (value : A → B) l x :
  (∀ x y, x ∈ l → y ∈ l → key x = key y → x = y) → x ∈ l → mapBy key value l !! key x = Some (value x).
Proof. intros Hf Hx. unfold mapBy. by rewrite lookup_fmap, (indexBy_functional _ _ x Hf Hx). Qed.

Lemma mapBy_missing {A B} (key : A → string) (value : A → B) l k : k ∉ map key l → mapBy key value l !! k = None.
Proof.
  intros Hk. unfold mapBy. rewrite lookup_fmap. destruct (indexBy key l !! k) as [x|] eqn:E; [|done].
  destruct Hk. apply (proj1 (indexBy_is_Some key l k)). by eexists.
Qed.

(** A successful loop over [l ++ [x]] is a successful loop over [l] and one more step. *)
Lemma foldErr_snoc {A B} (f : A → B → result A) acc l x r :
  foldErr f acc (l ++ [x]) = Ok r ↔ ∃ a, foldErr f acc l = Ok a ∧ f a x = Ok r.
Proof.
  rewrite foldErr_app, bind_Ok. cbn [foldErr]. setoid_rewrite bind_Ok.
  split; [intros (a & H1 & b & H2 & [= <-]); eauto|intros (a & H1 & H2); eauto].
Qed.

Section Contents.
Context (N : spec_float → result string) (H : string → string) (marshal : Message → result string).
Local Abbreviation digest := (DigestBytes H).
Local Abbreviation canon := (CanonicalizeJSON N).

(** ** Schemas *)
Lemma addSchemas_spec order (toNew byHash : gmap string string) :
  foldErr (addSchema N H) (∅, ∅) order = Ok (toNew, byHash) → NoDup order.*1 →
  (∀ k raw, (k, raw) ∈ order → ∃ c, canon raw = Ok c ∧ toNew !! k = Some (digest c) ∧ is_Some (byHash !! digest c)) ∧
  (∀ h c, byHash !! h = Some c → h = digest c ∧ ∃ k raw, (k, raw) ∈ order ∧ canon raw = Ok c) ∧
  (∀ k, is_Some (toNew !! k) → k ∈ order.*1).
Proof.
  revert toNew byHash; induction order as [|[k raw] order IH] using rev_ind; intros toNew byHash.
  { intros [= <- <-] _. split_and!; [by intros ?? ?%elem_of_nil|by intros ?? ?|by intros ? []]. }
  rewrite fmap_app. intros ([toNew1 byHash1] & Hf & Hs)%foldErr_snoc (Hnd & Hnew & _)%NoDup_app.
  destruct (IH _ _ Hf Hnd) as (I1 & I2 & I3). unfold addSchema in Hs. cbn [fst snd] in Hs.
  apply bind_Ok in Hs as (c & Hc%wrapErr_Ok & [= <- <-]).
  assert (k ∉ order.*1) as Hk by (intros Hin; apply (Hnew k Hin); by left).
  split_and!.
  - intros k' raw' [Hin|[= -> ->]%list_elem_of_singleton]%elem_of_app.
    + destruct (I1 _ _ Hin) as (c' & E & L1 & L2). exists c'. split; [done|].
      rewrite lookup_insert_ne by (intros ->; by apply Hk, (list_elem_of_fmap_2 fst _ _ Hin)). split; [done|].
      destruct (decide (digest c = digest c')) as [->|]; [by rewrite lookup_insert_eq|by rewrite lookup_insert_ne].
    + exists c. rewrite !lookup_insert_eq. done.
  - intros h c' Hl. destruct (decide (digest c = h)) as [<-|Hne].
    + rewrite lookup_insert_eq in Hl. injection Hl as <-. split; [done|]. exists k, raw.
      split; [apply elem_of_app; right; by left|done].
    + rewrite lookup_insert_ne in Hl by done. destruct (I2 _ _ Hl) as (-> & k' & raw' & Hin & E).
      split; [done|]. exists k', raw'. split; [apply elem_of_app; by left|done].
  - intros k' Hl. apply elem_of_app. destruct (decide (k = k')) as [->|Hne]; [right; by left|left].
    rewrite lookup_insert_ne in Hl by done. by apply I3.
Qed.

(** No two schemas of the spec have different canonical texts with one digest. *)
Definition schemasCollisionFree (schemas : gmap string string) : Prop :=
  ∀ k k' raw raw' c c', schemas !! k = Some raw → schemas !! k' = Some raw' →
    canon raw = Ok c → canon raw' = Ok c' → digest c = digest c' → c = c'.

Record schemasOf (schemas : gmap string string) (toNew : gmap string string) (entries : list SchemaEntry) : Prop := {
  so_hash : ∀ k raw, schemas !! k = Some raw → ∃ c, canon raw = Ok c ∧ toNew !! k = Some (digest c) ∧
    mapBy (λ e, GetString (se_Hash e)) (λ e, GetString (se_CanonicalJson e)) entries !! digest c = Some c;
  so_entry : ∀ e, e ∈ entries → ∃ c, e = {| se_Hash := Some (digest c); se_CanonicalJson := Some c |} ∧
    ∃ k raw, schemas !! k = Some raw ∧ canon raw = Ok c;
  so_dom : ∀ k, is_Some (toNew !! k) → is_Some (schemas !! k);
}.

Lemma compileSchemas_spec (schemas : gmap string string) order toNew entries :
  order ≡ₚ map_to_list schemas → schemasCollisionFree schemas →
  compileSchemas N H order = Ok (toNew, entries) → schemasOf schemas toNew entries.
Proof.
  intros HP Hcf. unfold compileSchemas. intros ([m byHash] & Hf & E)%bind_Ok. injection E as -> <-.
  assert (∀ k raw, (k, raw) ∈ order ↔ schemas !! k = Some raw) as Hin
    by (intros; by rewrite HP, elem_of_map_to_list).
  destruct (addSchemas_spec _ _ _ Hf) as (S1 & S2 & S3).
  { rewrite HP. apply NoDup_fst_map_to_list. }
  assert (∀ e, e ∈ map (λ hash, {| se_Hash := Some hash; se_CanonicalJson := Some (hashOf byHash hash) |}) (sortedKeys byHash) →
    ∃ c, e = {| se_Hash := Some (digest c); se_CanonicalJson := Some c |} ∧
    ∃ k raw, schemas !! k = Some raw ∧ canon raw = Ok c) as Hent.
  { intros e (h & -> & [c Hc]%elem_of_sortedKeys)%list_elem_of_fmap. destruct (S2 _ _ Hc) as (-> & k & raw & Hk & Ec).
    exists c. unfold hashOf. rewrite Hc. split; [done|]. exists k, raw. by rewrite <- Hin. }
  split; [|done|].
  - intros k raw Hk. apply Hin in Hk as Hk'. destruct (S1 _ _ Hk') as (c & Ec & Et & [c' Hc']).
    assert (c' = c) as ->.
    { destruct (S2 _ _ Hc') as (Ed & k2 & raw2 & Hk2%Hin & Ec2). symmetry. by apply (Hcf k k2 raw raw2). }
    exists c. split_and!; [done..|].
    apply (mapBy_functional (λ e, GetString (se_Hash e)) (λ e, GetString (se_CanonicalJson e)) _
      {| se_Hash := Some (digest c); se_CanonicalJson := Some c |}).
    + intros x y Hx Hy. destruct (Hent x Hx) as (cx & -> & k1 & r1 & L1 & C1), (Hent y Hy) as (cy & -> & k2 & r2 & L2 & C2).
      cbn. intros Ed. by rewrite (Hcf _ _ _ _ _ _ L1 L2 C1 C2 Ed).
    + apply list_elem_of_fmap. exists (digest c). unfold hashOf. rewrite Hc'. split; [done|].
      apply elem_of_sortedKeys. by eexists.
  - intros k Hk. apply S3, list_elem_of_fmap in Hk as ([k' raw] & -> & Hin'). apply Hin in Hin'. by eexists.
Qed.

(** ** Environments *)
Local Abbreviation hashMessage := (hashPlanMessage N H marshal).
Local Abbreviation envRef := (λ e, GetString (er_EnvRef e)).

(** An entry is named by the hash of its own content. *)
Definition environmentEntry (e : EnvironmentRequirement) : Prop :=
  ∃ runtime hash, e = {| er_EnvRef := Some hash; er_Runtime := Some runtime |} ∧
    hashMessage (MEnvironment {| er_EnvRef := None; er_Runtime := Some runtime |}) = Ok hash.

Record environmentsOf (environments : gmap string Environment) (toNew : gmap string string)
    (entries : list EnvironmentRequirement) : Prop := {
  eo_entry : Forall environmentEntry entries;
  eo_nodup : NoDup (map envRef entries);
  eo_hash : ∀ k env, environments !! k = Some env → ∃ hash, toNew !! k = Some hash ∧ hash ∈ map envRef entries;
}.

Lemma addEnvironments_spec environments refs toNew entries seen :
  foldErr (addEnvironment N H marshal environments) (∅, [], ∅) refs = Ok (toNew, entries, seen) →
  Forall environmentEntry entries ∧ NoDup (map envRef entries) ∧ (∀ h, h ∈ seen ↔ h ∈ map envRef entries) ∧
  (∀ k, k ∈ refs → ∃ hash, toNew !! k = Some hash ∧ hash ∈ seen).
Proof.
  revert toNew entries seen; induction refs as [|k refs IH] using rev_ind; intros toNew entries seen.
  { intros [= <- <- <-]. split_and!; [constructor|constructor|set_solver|by intros k ?%elem_of_nil]. }
  intros ([[toNew1 entries1] seen1] & (I1 & I2 & I3 & I4)%IH & Hs)%foldErr_snoc.
  cbn [addEnvironment] in Hs. apply bind_Ok in Hs as (runtime & _ & Hs).
  apply bind_Ok in Hs as (hash & Hh%wrapErr_Ok & [= <- <- <-]).
  assert (∀ k', k' ∈ refs ++ [k] → ∃ h, <[k:=hash]> toNew1 !! k' = Some h ∧ h ∈ ({[hash]} ∪ seen1 : gset string)) as I4'.
  { intros k' [Hin|Hin%list_elem_of_singleton]%elem_of_app; destruct (decide (k = k')) as [<-|Hne]; try congruence;
      try (exists hash; rewrite lookup_insert_eq; set_solver).
    destruct (I4 _ Hin) as (h & Hl & Hm). exists h. rewrite lookup_insert_ne by done. set_solver. }
  case_bool_decide as Hin; split_and!; [done|done|intros h; set_solver|done| | | |done].
  - apply Forall_app. split; [done|]. constructor; [|done]. by exists runtime, hash.
  - rewrite map_app. apply NoDup_app. split_and!; [done| |apply NoDup_singleton].
    intros h Hh1 Hh2%list_elem_of_singleton. subst h. by apply Hin, I3.
  - intros h. rewrite map_app, elem_of_app, <- I3. cbn. rewrite list_elem_of_singleton. set_solver.
Qed.

Lemma sortOn_Permutation {A} (key : A → string) l : sortOn key l ≡ₚ l.
Proof.
  unfold sortOn. etrans; [apply Permutation_map, sortMembers_Permutation|]. rewrite map_map.
  cbn [snd]. by rewrite map_id.
Qed.

Lemma compileEnvironments_spec ws toNew entries :
  compileEnvironments N H marshal ws = Ok (toNew, entries) → environmentsOf (ws_Environments ws) toNew entries.
Proof.
  unfold compileEnvironments.
  intros ([[m l] seen] & (I1 & I2 & I3 & I4)%addEnvironments_spec & [= <- <-])%bind_Ok.
  pose proof (sortOn_Permutation envRef l) as HP. split.
  - by rewrite HP.
  - by rewrite HP.
  - intros k env Hk. destruct (I4 k) as (hash & Hl & Hm); [apply elem_of_sortedKeys; by eexists|].
    exists hash. split; [done|]. rewrite HP. by apply I3.
Qed.

(** ** Contracts *)

(** Different contracts of the spec, once their environment is resolved, have different hashes. *)
Definition contractsCollisionFree (contracts : gmap string ExecutionContract) (environmentHashes : gmap string string) : Prop :=
  ∀ k k' c c' hash, contracts !! k = Some c → contracts !! k' = Some c' →
    hashMessage (MContract (compileContract environmentHashes c)) = Ok hash →
    hashMessage (MContract (compileContract environmentHashes c')) = Ok hash →
    compileContract environmentHashes c = compileContract environmentHashes c'.

Record contractsOf (contracts : gmap string ExecutionContract) (environmentHashes toNew : gmap string string)
    (entries : list PlanContract) : Prop := {
  co_hash : ∀ k c, contracts !! k = Some c → ∃ hash, toNew !! k = Some hash ∧
    hashMessage (MContract (compileContract environmentHashes c)) = Ok hash ∧
    mapBy (λ e, GetString (pc_ContractRef e)) contractView entries !! hash =
    Some (contractView (setContractRef (Some hash) (compileContract environmentHashes c)));
  co_entry : ∀ e, e ∈ entries → ∃ k c hash, contracts !! k = Some c ∧ e = setContractRef (Some hash) (compileContract environmentHashes c) ∧
    hashMessage (MContract (compileContract environmentHashes c)) = Ok hash;
}.

Lemma addContracts_spec contracts envs refs (toNew : gmap string string) (byHash : gmap string PlanContract) :
  foldErr (addContract N H marshal contracts envs) (∅, ∅) refs = Ok (toNew, byHash) → NoDup refs →
  (∀ k, k ∈ refs → ∃ hash, toNew !! k = Some hash ∧ is_Some (byHash !! hash) ∧
    hashMessage (MContract (compileContract envs (default zeroContract (contracts !! k)))) = Ok hash) ∧
  (∀ hash e, byHash !! hash = Some e → ∃ k, k ∈ refs ∧
    e = setContractRef (Some hash) (compileContract envs (default zeroContract (contracts !! k))) ∧
    hashMessage (MContract (compileContract envs (default zeroContract (contracts !! k)))) = Ok hash).
Proof.
  revert toNew byHash; induction refs as [|k refs IH] using rev_ind; intros toNew byHash.
  { intros [= <- <-] _. split; [by intros k ?%elem_of_nil|by intros ?? ?]. }
  intros ([toNew1 byHash1] & Hf & Hs)%foldErr_snoc (Hnd & Hnew & _)%NoDup_app.
  destruct (IH _ _ Hf Hnd) as (I1 & I2). unfold addContract in Hs. cbn [fst snd] in Hs.
  apply bind_Ok in Hs as (hash & Hh%wrapErr_Ok & [= <- <-]).
  assert (k ∉ refs) as Hk by (intros Hin; apply (Hnew k Hin); by left). split.
  - intros k' [Hin|Hin%list_elem_of_singleton]%elem_of_app.
    + destruct (I1 _ Hin) as (h & L1 & L2 & L3). exists h. rewrite lookup_insert_ne by congruence.
      split_and!; [done| |done]. destruct (decide (hash = h)) as [->|]; [by rewrite lookup_insert_eq|by rewrite lookup_insert_ne].
    + subst k'. exists hash. rewrite !lookup_insert_eq. done.
  - intros h e Hl. destruct (decide (hash = h)) as [<-|Hne].
    + rewrite lookup_insert_eq in Hl. injection Hl as <-. exists k. split_and!; [apply elem_of_app; right; by left|done..].
    + rewrite lookup_insert_ne in Hl by done. destruct (I2 _ _ Hl) as (k' & Hin & E1 & E2).
      exists k'. split_and!; [apply elem_of_app; by left|done..].
Qed.

Lemma compileContracts_spec ws envs toNew entries :
  contractsCollisionFree (ws_Contracts ws) envs → compileContracts N H marshal ws envs = Ok (toNew, entries) →
  contractsOf (ws_Contracts ws) envs toNew entries.
Proof.
  intros Hcf. unfold compileContracts. intros ([m byHash] & Hf & [= -> <-])%bind_Ok.
  destruct (addContracts_spec _ _ _ _ _ Hf) as (I1 & I2); [apply NoDup_sortedKeys|].
  assert (∀ e, e ∈ omap (λ hash, byHash !! hash) (sortedKeys byHash) →
    ∃ k c hash, ws_Contracts ws !! k = Some c ∧ e = setContractRef (Some hash) (compileContract envs c) ∧
    hashMessage (MContract (compileContract envs c)) = Ok hash) as Hent.
  { intros e (h & _ & Hl)%list_elem_of_omap. destruct (I2 _ _ Hl) as (k & [c Hc]%elem_of_sortedKeys & E1 & E2).
    rewrite Hc in E1, E2. by exists k, c, h. }
  split; [|done]. intros k c Hk. destruct (I1 k) as (hash & L1 & [e He] & L3); [apply elem_of_sortedKeys; by eexists|].
  rewrite Hk in L3. cbn in L3. exists hash. split_and!; [done..|].
  assert (e = setContractRef (Some hash) (compileContract envs c)) as ->.
  { destruct (I2 _ _ He) as (k2 & [c2 Hc2]%elem_of_sortedKeys & -> & E2). rewrite Hc2 in *. cbn in *.
    f_equal. by apply (Hcf k2 k c2 c hash). }
  apply (mapBy_functional (λ e, GetString (pc_ContractRef e)) contractView _
    (setContractRef (Some hash) (compileContract envs c))).
  - intros x y Hx Hy. destruct (Hent x Hx) as (k1 & c1 & h1 & L & -> & H1), (Hent y Hy) as (k2 & c2 & h2 & L' & -> & H2).
    cbn. intros ->. f_equal. by apply (Hcf k1 k2 c1 c2 h2).
  - apply list_elem_of_omap. exists hash. split; [apply elem_of_sortedKeys; by eexists|done].
Qed.
End Contents.

(** ** Symbols *)
Definition symbolView (e : SymbolEntry) : Symbol :=
  {| sy_PackageID := GetString (ye_PackageId e); sy_Language := GetString (ye_Language e);
     sy_Module := GetString (ye_Module e); sy_Export := GetString (ye_Export e) |}.
Local Abbreviation symbolRefOf := (λ e, GetString (ye_SymbolRef e)).

Lemma symbolView_entry symbols r : symbolView (symbolEntry symbols r) = default zeroSymbol (symbols !! r).
Proof. unfold symbolView. cbn. by destruct (default zeroSymbol (symbols !! r)). Qed.

Lemma addSymbols_spec symbols mark refs entries (seen : gset string) entries' seen' :
  Forall (λ e, e = symbolEntry symbols (symbolRefOf e)) entries →
  (∀ r, r ∈ seen → r ∈ map symbolRefOf entries) →
  foldl (addSymbol symbols mark) (entries, seen) refs = (entries', seen') →
  Forall (λ e, e = symbolEntry symbols (symbolRefOf e)) entries' ∧
  (∀ r, r ∈ seen' → r ∈ map symbolRefOf entries') ∧
  (∀ r, r ∈ refs ∨ r ∈ map symbolRefOf entries → r ∈ map symbolRefOf entries').
Proof.
  revert entries seen; induction refs as [|r refs IH]; intros entries seen He Hs; cbn [foldl].
  { intros [= <- <-]. split_and!; [done|done|]. intros r [Hr|Hr]; [by apply elem_of_nil in Hr|done]. }
  unfold addSymbol at 2. cbn [fst snd]. case_bool_decide as Hr; intros Hf.
  - destruct (IH _ _ He Hs Hf) as (I1 & I2 & I3). split_and!; [done|done|].
    intros r' [[->|Hr']%elem_of_cons|Hr']; apply I3; auto.
  - apply IH in Hf as (I1 & I2 & I3).
    + split_and!; [done|done|]. intros r' Hr'. apply I3. rewrite map_app, elem_of_app. cbn.
      rewrite list_elem_of_singleton. rewrite elem_of_cons in Hr'. tauto.
    + apply Forall_app. split; [done|]. by repeat constructor.
    + intros r' Hr'. rewrite map_app, elem_of_app. cbn. rewrite list_elem_of_singleton.
      destruct mark; [|by left; apply Hs]. apply elem_of_union in Hr' as [->%elem_of_singleton|Hr']; auto.
Qed.

Lemma compileSymbols_spec ws schedule r symbol : ws_Symbols ws !! r = Some symbol →
  mapBy symbolRefOf symbolView (compileSymbols ws schedule) !! r = Some symbol.
Proof.
  intros Hr. unfold compileSymbols. destruct (foldl (addSymbol _ true) _ _) as [entries seen] eqn:E1.
  apply addSymbols_spec in E1 as (He & Hs & _); [|constructor|set_solver].
  destruct (foldl (addSymbol _ false) _ _) as [entries' seen'] eqn:E2. cbn [fst].
  apply addSymbols_spec in E2 as (He' & _ & Hin); [|done|done].
  assert (r ∈ map symbolRefOf entries') as Hr' by (apply Hin; left; apply elem_of_sortedKeys; by eexists).
  apply list_elem_of_fmap in Hr' as (e & -> & Hin').
  pose proof (λ x Hx, proj1 (Forall_forall _ _) He' x Hx) as Heq.
  assert (mapBy symbolRefOf symbolView entries' !! symbolRefOf e = Some (symbolView e)) as ->.
  { apply (mapBy_functional symbolRefOf symbolView); [|done].
    intros x y Hx Hy E. rewrite (Heq x Hx), (Heq y Hy). cbn in *. by rewrite E. }
  rewrite (Heq e Hin'), symbolView_entry. by rewrite Hr.
Qed.

(** ** The identity of a plan *)
Section Identity.
Context (N : spec_float → result string) (H : string → string) (marshal : Message → result string).
Context (hex_law : ∀ s, IsSHA256Ref (DigestBytes H s) = true).

Lemma DigestJSON_ref data hash : DigestJSON N H data = Ok hash → IsSHA256Ref hash = true.
Proof. unfold DigestJSON. intros (c & _ & [= <-])%bind_Ok. apply hex_law. Qed.

Lemma validateHashingSpec_Ok recipe subject : validateHashingSpec (Some (hashingSpec recipe)) recipe subject = Ok tt.
Proof. cbn. by rewrite (bool_decide_true (recipe = recipe)). Qed.

Lemma validateRequirement_Ok e seen : environmentEntry N H marshal e → GetString (er_EnvRef e) ∉ seen →
  validateRequirement N H marshal seen e = Ok ({[GetString (er_EnvRef e)]} ∪ seen).
Proof.
  intros (runtime & hash & -> & Hh). unfold validateRequirement. cbn [er_EnvRef er_Runtime].
  change (GetString (Some hash)) with hash. intros Hs.
  pose proof Hh as (data & Hm & Href%DigestJSON_ref)%bind_Ok.
  rewrite Href, (bool_decide_false (hash ∈ seen)), (bool_decide_false (Some runtime = None)) by done.
  cbn [negb orb]. unfold setEnvRef; cbn [er_Runtime]. rewrite Hh. cbn [mbind result_bind].
  by rewrite bool_decide_true.
Qed.

Lemma validateRequirements_Ok entries seen :
  Forall (environmentEntry N H marshal) entries → NoDup (map (λ e, GetString (er_EnvRef e)) entries) →
  (∀ h, h ∈ map (λ e, GetString (er_EnvRef e)) entries → h ∉ seen) →
  ∃ seen', foldErr (validateRequirement N H marshal) seen entries = Ok seen'.
Proof.
  intros He; revert seen; induction He as [|e entries He _ IH]; intros seen Hnd Hs; [by eexists|].
  cbn [map] in Hnd, Hs. apply NoDup_cons in Hnd as [Hnew Hnd]. cbn [foldErr].
  rewrite validateRequirement_Ok; [|done|apply Hs; left]. cbn [mbind result_bind]. apply IH; [done|].
  intros h Hh [->%elem_of_singleton|Hin]%elem_of_union; [done|]. apply (Hs h); [by right|done].
Qed.

Lemma mapErr_all {A B} (f : A → result B) l : (∀ x, x ∈ l → ∃ y, f x = Ok y) → ∃ k, mapErr f l = Ok k.
Proof.
  induction l as [|x l IH]; intros Hl; [by eexists|]. destruct (Hl x) as [y Hy]; [left|].
  destruct IH as [k Hk]; [intros z Hz; apply Hl; by right|]. exists (y :: k). cbn [mapErr]. rewrite Hy. cbn. by rewrite Hk.
Qed.

Lemma validatePackages_Ok packages :
  (∀ p, p ∈ packages → kr_Hashing p = Some (hashingSpec "source-package") ∧
    ∃ hash, kr_PackageHash p = Some hash ∧ IsSHA256Ref hash = true) →
  ∃ l, mapErr validatePackage (indexed packages) = Ok l.
Proof.
  intros Hp. apply mapErr_all. intros [i p] Hx%elem_of_indexed%list_elem_of_lookup_2.
  destruct (Hp p Hx) as (E1 & hash & E2 & E3). unfold validatePackage.
  rewrite E1, validateHashingSpec_Ok. cbn [mbind result_bind]. rewrite E2, E3. by eexists.
Qed.
End Identity.

(** ** From a valid spec to a valid plan *)

(** Facts of a spec without semantic findings that the plan depends on. *)
Record specContents `{SR : SchemaRules} (N : spec_float → result string) (H : string → string)
    (RunOutcomeSchemaJSON : string) (ws : WorkflowSpec) : Prop := {
  sc_hook : ValidateExitHook N RunOutcomeSchemaJSON ws (indexBy gn_ID (gr_Nodes (ws_Graph ws))) = [];
  sc_contract : ∀ k c, ws_Contracts ws !! k = Some c → is_Some (ws_Environments ws !! ec_EnvironmentRef c);
  sc_package : ∀ k p, ws_SourcePackages ws !! k = Some p → sp_PackageID p = k ∧
    ∃ files, Digest N H files = Ok (sp_PackageHash p);
  sc_symbol : ∀ k s, ws_Symbols ws !! k = Some s → is_Some (ws_SourcePackages ws !! sy_PackageID s);
}.

Lemma validateSemantics_contents `{SR : SchemaRules} N H P R ws :
  validateSemantics N H P R ws = [] → specContents N H R ws.
Proof.
  intros Hv. pose proof (validateSemantics_graph _ _ _ _ _ Hv) as Hg.
  pose proof (scanNodes_spec _ (scanNodes_complete _ (vg_ids _ Hg))) as [_ Hid _ _ _].
  unfold validateSemantics in Hv. rewrite !app_nil, !bind_nil, Hid in Hv.
  destruct Hv as (_ & _ & Hh & _ & _ & _ & _ & Hc & _ & Hp & Hs). split; [done|..].
  - intros k c Hk%elem_of_map_to_list. specialize (Hc _ Hk). cbn in Hc.
    apply app_nil in Hc as [Hc%diagIf_nil%missing_false _]. done.
  - intros k p Hk. specialize (Hp k). unfold packageDiagnostics in Hp. rewrite Hk in Hp.
    specialize (Hp (proj2 (elem_of_sortedKeys _ k) (ex_intro _ p Hk))).
    apply app_nil in Hp as [Hid'%diagIf_nil%negb_false_iff%bool_decide_eq_true Hp]. split; [done|].
    destruct (Digest N H _) as [d|] eqn:E; [|done].
    apply diagIf_nil, negb_false_iff, bool_decide_eq_true in Hp as <-. by eexists.
  - intros k s Hk%elem_of_map_to_list. specialize (Hs _ Hk). cbn in Hs. by apply diagIf_nil, missing_false in Hs.
Qed.

Lemma compileNode_Id sh ch node : pn_Id (compileNode sh ch node) = Some (gn_ID node).
Proof. unfold compileNode. by repeat case_match. Qed.

Lemma nodesByID_missing sh ch ws schedule id : BuildSchedule (ws_Graph ws) = Ok schedule →
  indexBy gn_ID (gr_Nodes (ws_Graph ws)) !! id = None →
  nodesByID (compileGraph sh ch ws schedule) !! id = None.
Proof.
  intros (_ & HP & _)%BuildSchedule_Ok Hid. apply mapBy_missing. cbn [compileGraph gi_Nodes].
  intros (n & -> & (k & -> & Hk)%list_elem_of_fmap)%list_elem_of_fmap. rewrite compileNode_Id in Hid.
  change (GetString (Some ?x)) with x in Hid.
  rewrite HP in Hk. apply (proj2 (indexBy_is_Some gn_ID (gr_Nodes (ws_Graph ws)) k)) in Hk as [m Hm].
  unfold nodeAt in Hid. rewrite Hm in Hid. cbn in Hid.
  destruct (indexBy_key _ _ _ _ Hm) as [E _]. rewrite E in Hid. congruence.
Qed.

Lemma GetUint32_nonZero z : GetUint32 (nonZero z) = z.
Proof. unfold nonZero. by destruct (Z.eqb_spec z 0) as [->|]. Qed.

Section Plan.
Context `{SR : SchemaRules} (N : spec_float → result string) (H : string → string).
Context (P : string → result (option string)) (RunOutcomeSchemaJSON : string).
Context (marshal : Message → result string) (unmarshal : string → result WorkflowPlan).
Context (unmarshalNode : string → result GraphNode).
Context (deadlineSchema timeoutSchema : Z → result unit) (exitHookSchema : string → result unit).

(** What [protojson] documents: decoding the JSON of a plan, whatever its spacing and member
    order, gives the plan back; the JSON names of a node are those of [spec.GraphNode]. *)
Record protojsonLaws : Prop := {
  pl_plan : ∀ p s c, marshal (MPlan p) = Ok s → CanonicalizeJSON N s = Ok c → unmarshal c = Ok p;
  pl_node : ∀ n s, marshal (MNode n) = Ok s → unmarshalNode s = Ok (authoredNode n);
}.

(** What the schema of authored specs checked before: the IR version, the deadline, the exit
    hook (as the plan carries it) and the timeout of its contract. *)
Record schemaAdmits (ws : WorkflowSpec) (plan : WorkflowPlan) : Prop := {
  sa_version : gr_IRVersion (ws_Graph ws) = Current;
  sa_deadline : wf_DeadlineSeconds (ws_Workflow ws) ≠ 0 → deadlineSchema (wf_DeadlineSeconds (ws_Workflow ws)) = Ok tt;
  sa_hook : ∀ n, wp_Graph plan ≫= gi_ExitHook = Some n → ∃ s, marshal (MNode n) = Ok s ∧ exitHookSchema s = Ok tt;
  sa_timeout : ∀ hook c, gr_ExitHook (ws_Graph ws) = Some hook → ws_Contracts ws !! gn_ContractRef hook = Some c →
    timeoutSchema (ec_TimeoutSeconds c) = Ok tt;
}.

(** The package of the hook's symbol is in the symbol's language. *)
Definition hookLanguage (ws : WorkflowSpec) : Prop :=
  ∀ hook symbol package, gr_ExitHook (ws_Graph ws) = Some hook → ws_Symbols ws !! gn_SymbolRef hook = Some symbol →
    ws_SourcePackages ws !! sy_PackageID symbol = Some package → sp_Language package = sy_Language symbol.

Lemma fixedSchema_hash spec spec' field field' reference reference' fixed raw c :
  number_token_law N → number_reads_law N →
  fixedSchemaDiagnostics N spec field reference fixed = [] →
  ws_Schemas spec !! reference = Some raw → CanonicalizeJSON N raw = Ok c →
  ws_Schemas spec' !! reference' = Some c →
  fixedSchemaDiagnostics N spec' field' reference' fixed = [].
Proof.
  unfold fixedSchemaDiagnostics. intros Ht Hr Hd E1 Hc E2. rewrite E1, Hc in Hd. rewrite E2.
  assert (CanonicalizeJSON N c = Ok c) as ->; [|by apply diagIf_nil in Hd; apply diagIf_nil].
  by eapply CanonicalizeJSON_fixed.
Qed.

Section Hook.
Context (ws : WorkflowSpec) (schedule : Schedule) (specHash : string) (order : list (string * string)).
Context (schemaHashes environmentHashes contractHashes : gmap string string).
Context (schemas : list SchemaEntry) (environments : list EnvironmentRequirement) (contracts : list PlanContract).
Context (Hsched : BuildSchedule (ws_Graph ws) = Ok schedule) (Hws : specContents N H RunOutcomeSchemaJSON ws).
Context (Hschemas : schemasOf N H (ws_Schemas ws) schemaHashes schemas).
Context (Henvs : environmentsOf N H marshal (ws_Environments ws) environmentHashes environments).
Context (Hcontracts : contractsOf N H marshal (ws_Contracts ws) environmentHashes contractHashes contracts).
Context (Hcf : contractsCollisionFree N H marshal (ws_Contracts ws) environmentHashes).
Context (Ht : number_token_law N) (Hr : number_reads_law N).
Let plan := compiledPlan ws schedule specHash schemaHashes contractHashes schemas environments contracts.
Let graph := compileGraph schemaHashes contractHashes ws schedule.
Let authored hook := authoredNode (compileExitHook schemaHashes contractHashes hook).

Lemma hook_schema field reference fixed :
  fixedSchemaDiagnostics N ws field reference fixed = [] →
  fixedSchemaDiagnostics N (hookSpec plan zeroNode) field (hashOf schemaHashes reference) fixed = [].
Proof.
  intros Hd. pose proof Hd as Hd'. unfold fixedSchemaDiagnostics in Hd'.
  destruct (ws_Schemas ws !! reference) as [raw|] eqn:Eraw; [|done]. clear Hd'.
  destruct (so_hash _ _ _ _ _ Hschemas _ _ Eraw) as (c & Hc & Eh & Em).
  eapply fixedSchema_hash; [exact Ht|exact Hr|exact Hd|exact Eraw|exact Hc|].
  unfold hashOf. rewrite Eh. exact Em.
Qed.

Lemma hook_contract hook c : gr_ExitHook (ws_Graph ws) = Some hook → ws_Contracts ws !! gn_ContractRef hook = Some c →
  ∃ hash, hashOf contractHashes (gn_ContractRef hook) = hash ∧
    mapBy (λ e, GetString (pc_ContractRef e)) contractView contracts !! hash =
      Some (contractView (setContractRef (Some hash) (compileContract environmentHashes c))) ∧
    (∀ e, e ∈ contracts → GetString (pc_ContractRef e) = hash →
      GetUint32 (pc_TimeoutSeconds e) = ec_TimeoutSeconds c).
Proof.
  intros Hh Hc. destruct (co_hash _ _ _ _ _ _ _ Hcontracts _ _ Hc) as (hash & E1 & E2 & E3).
  exists hash. unfold hashOf. rewrite E1. split_and!; [done..|].
  intros e He Ee. destruct (co_entry _ _ _ _ _ _ _ Hcontracts e He) as (k & c' & h & Hk & -> & Eh).
  cbn in Ee. subst h. pose proof (Hcf _ _ _ _ _ Hk Hc Eh E2) as Ec.
  assert (pc_TimeoutSeconds (compileContract environmentHashes c') = pc_TimeoutSeconds (compileContract environmentHashes c)) as Et
    by by rewrite Ec.
  cbn in Et |- *. by rewrite Et, GetUint32_nonZero.
Qed.

Lemma hook_diagnostics hook : gr_ExitHook (ws_Graph ws) = Some hook →
  ValidateExitHook N RunOutcomeSchemaJSON (hookSpec plan (authored hook)) (nodesByID graph) = [].
Proof.
  intros Hh. pose proof (sc_hook _ _ _ _ Hws) as Hd. unfold ValidateExitHook in Hd |- *. rewrite Hh in Hd.
  cbn [hookSpec ws_Graph gr_ExitHook]. rewrite !app_nil in Hd |- *.
  destruct Hd as (Hid%diagIf_nil%negb_false_iff & Hin & Hout & Hsym%diagIf_nil%missing_false & Hc). split_and!.
  - apply diagIf_nil, negb_false_iff, bool_decide_eq_true. apply bool_decide_eq_true in Hid.
    cbn. by apply nodesByID_missing.
  - exact (hook_schema "inputSchema" _ _ Hin).
  - exact (hook_schema "outputSchema" _ _ Hout).
  - apply diagIf_nil, missing_false. destruct Hsym as [symbol Hsym]. exists symbol.
    exact (compileSymbols_spec ws schedule _ _ Hsym).
  - destruct (ws_Contracts ws !! gn_ContractRef hook) as [c|] eqn:Ec; [|done].
    destruct (hook_contract hook c Hh Ec) as (hash & E1 & E2 & _).
    change (gn_ContractRef (authored hook)) with (hashOf contractHashes (gn_ContractRef hook)). rewrite E1.
    change (ws_Contracts (hookSpec plan (authored hook))) with (mapBy (λ e, GetString (pc_ContractRef e)) contractView contracts).
    rewrite E2. rewrite app_nil, !diagIf_nil in Hc |- *. destruct Hc as [Hc1 Hc2]. cbn. rewrite GetUint32_nonZero.
    split; [|done]. by destruct (ec_Retry c).
Qed.

Lemma hook_references hook : gr_ExitHook (ws_Graph ws) = Some hook → hookLanguage ws →
  packageExists plan (default zeroSymbol (ws_Symbols (hookSpec plan (authored hook)) !! gn_SymbolRef (authored hook))) = true ∧
  environmentExists plan (ec_EnvironmentRef (default zeroContract
    (ws_Contracts (hookSpec plan (authored hook)) !! gn_ContractRef (authored hook)))) = true.
Proof.
  intros Hh Hlang. pose proof (sc_hook _ _ _ _ Hws) as Hd. unfold ValidateExitHook in Hd. rewrite Hh, !app_nil in Hd.
  destruct Hd as (_ & _ & _ & [symbol Hsym]%diagIf_nil%missing_false & Hc). split; apply existsb_exists.
  - change (ws_Symbols _ !! _) with (mapBy (λ e, GetString (ye_SymbolRef e)) symbolView (compileSymbols ws schedule) !! gn_SymbolRef hook).
    rewrite (compileSymbols_spec ws schedule _ _ Hsym). cbn [default].
    destruct (sc_symbol _ _ _ _ Hws _ _ Hsym) as [package Hp]. exists (sourcePackageRef package). split.
    + apply list_elem_of_In, list_elem_of_fmap. exists (sy_PackageID symbol). rewrite Hp. split; [done|].
      apply elem_of_sortedKeys. by eexists.
    + cbn. destruct (sc_package _ _ _ _ Hws _ _ Hp) as [-> _].
      by rewrite (Hlang hook symbol package Hh Hsym Hp), !bool_decide_true.
  - destruct (ws_Contracts ws !! gn_ContractRef hook) as [c|] eqn:Ec; [|done].
    destruct (hook_contract hook c Hh Ec) as (hash & E1 & E2 & _).
    change (ws_Contracts (hookSpec plan (authored hook))) with (mapBy (λ e, GetString (pc_ContractRef e)) contractView contracts).
    change (gn_ContractRef (authored hook)) with (hashOf contractHashes (gn_ContractRef hook)). rewrite E1, E2. cbn.
    destruct (sc_contract _ _ _ _ Hws _ _ Ec) as [env He].
    destruct (eo_hash _ _ _ _ _ _ Henvs _ _ He) as (h & Eh & (e & Ee & Hin)%list_elem_of_fmap).
    exists e. split; [by apply list_elem_of_In|]. unfold hashOf. rewrite Eh. by apply bool_decide_true.
Qed.

Lemma plan_execution plan' planHash : plan' = setPlanHash planHash plan →
  protojsonLaws → schemaAdmits ws plan' → hookLanguage ws →
  ValidateExecution N marshal unmarshalNode deadlineSchema timeoutSchema exitHookSchema RunOutcomeSchemaJSON plan' = Ok tt.
Proof.
  intros Ep [_ Hnode] [_ Hdead Hadm Htime] Hlang. unfold ValidateExecution.
  assert (wp_Graph plan' = Some graph) as Eg by by rewrite Ep. rewrite Eg in Hadm |- *.
  assert (match gi_DeadlineSeconds graph with None => Ok tt | Some deadline => wrapErr
    "workflow plan graph.deadlineSeconds violates the workflow deadline schema; rebuild the plan: %w" [] (deadlineSchema deadline) end = Ok tt) as ->.
  { cbn. unfold nonZero. destruct (Z.eqb_spec (wf_DeadlineSeconds (ws_Workflow ws)) 0) as [|Hne]; [done|]. by rewrite Hdead. }
  change (∀ n, compileExitHook schemaHashes contractHashes <$> gr_ExitHook (ws_Graph ws) = Some n →
    ∃ s, marshal (MNode n) = Ok s ∧ exitHookSchema s = Ok tt) in Hadm.
  cbn [mbind result_bind]. change (gi_ExitHook graph) with (compileExitHook schemaHashes contractHashes <$> gr_ExitHook (ws_Graph ws)).
  destruct (gr_ExitHook (ws_Graph ws)) as [hook|] eqn:Hh; [|done]. cbn [fmap option_fmap option_map].
  destruct (Hadm _ eq_refl) as (s & Es & Hs). unfold validateHook. rewrite Es. cbn [mbind result_bind].
  rewrite Hs. cbn [wrapErr mbind result_bind]. rewrite (Hnode _ _ Es). cbn [mbind result_bind].
  assert (wp_Contracts plan' = contracts) as -> by by rewrite Ep.
  assert (∃ l, mapErr (checkHookTimeout timeoutSchema (compileExitHook schemaHashes contractHashes hook)) contracts = Ok l) as [l ->].
  { apply mapErr_all. intros e He. exists tt. unfold checkHookTimeout. case_bool_decide as Ee; [|done].
    pose proof (sc_hook _ _ _ _ Hws) as Hd. unfold ValidateExitHook in Hd. rewrite Hh, !app_nil in Hd.
    destruct Hd as (_ & _ & _ & _ & Hc). destruct (ws_Contracts ws !! gn_ContractRef hook) as [c|] eqn:Ec; [|done].
    destruct (hook_contract hook c Hh Ec) as (hash & E1 & _ & E3). rewrite (E3 e He).
    - by rewrite (Htime hook c eq_refl Ec).
    - rewrite Ee. exact E1. }
  cbn [mbind result_bind]. destruct (hook_references hook Hh Hlang) as [R1 R2].
  assert (∀ node, hookSpec plan' node = hookSpec plan node) as -> by (intros; by rewrite Ep).
  change (authoredNode (compileExitHook schemaHashes contractHashes hook)) with (authored hook).
  rewrite (hook_diagnostics hook Hh).
  assert (packageExists plan' = packageExists plan) as -> by by rewrite Ep.
  assert (environmentExists plan' = environmentExists plan) as -> by by rewrite Ep.
  by rewrite R1, R2.
Qed.

Lemma plan_identity plan' planHash : plan' = setPlanHash planHash plan →
  (∀ s, IsSHA256Ref (DigestBytes H s) = true) → IsSHA256Ref specHash = true → validateVersionedIdentity N H marshal plan' = Ok tt.
Proof.
  intros Ep Hhex Hspec. unfold validateVersionedIdentity.
  assert (wp_SchemaVersion plan' = Some 1) as -> by by rewrite Ep. rewrite bool_decide_true by done. cbn [negb].
  assert (wp_SpecHash plan' = Some specHash) as -> by by rewrite Ep. rewrite bool_decide_false by done.
  change (GetString (Some specHash)) with specHash. rewrite Hspec. cbn [negb].
  assert (wp_Hashing plan' = Some (hashingSpec "workflow-plan")) as -> by by rewrite Ep. rewrite validateHashingSpec_Ok.
  assert (wp_SpecHashing plan' = Some (hashingSpec "workflow-spec")) as -> by by rewrite Ep. rewrite validateHashingSpec_Ok.
  cbn [mbind result_bind].
  assert (wp_Provenance plan' = Some {| cp_CompilerName := Some CompilerName; cp_CompilerVersion := Some CompilerVersion;
    cp_SourceSpecHash := Some specHash |}) as -> by by rewrite Ep.
  cbn. rewrite (bool_decide_true (specHash = specHash)) by done. cbn [negb].
  destruct (validatePackages_Ok (wp_SourcePackages plan')) as [l ->].
  { intros p. assert (wp_SourcePackages plan' = compileSourcePackages ws) as -> by by rewrite Ep.
    intros (k & -> & [q Hq]%elem_of_sortedKeys)%list_elem_of_fmap. rewrite Hq. cbn. split; [done|].
    eexists; split; [done|]. destruct (sc_package _ _ _ _ Hws _ _ Hq) as (_ & files & Hd).
    unfold Digest in Hd. destruct files; [done|]. apply bind_Ok in Hd as (_ & _ & Hd).
    by apply (DigestJSON_ref N H Hhex) in Hd. }
  cbn [mbind result_bind]. destruct Henvs as [He Hnd _].
  destruct (validateRequirements_Ok N H marshal Hhex environments ∅ He Hnd) as [seen Hseen]; [set_solver|].
  assert (wp_Environments plan' = environments) as -> by by rewrite Ep. by rewrite Hseen.
Qed.
End Hook.
End Plan.

Lemma RecomputedSpecHash_ref N H data hash : (∀ s, IsSHA256Ref (DigestBytes H s) = true) →
  RecomputedSpecHash N H data = Ok hash → IsSHA256Ref hash = true.
Proof.
  intros Hhex. unfold RecomputedSpecHash. intros Hd%wrapErr_Ok. unfold DigestJSONWithRootMemberExcluded in Hd.
  apply bind_Ok in Hd as (v & _ & Hd). destruct v; try done.
  apply bind_Ok in Hd as (c & _ & [= <-]). apply Hhex.
Qed.

