(* ===== verification/CompileOrder.v ===== *)
(** * Plans do not depend on declaration order, and their hash identifies them

    The compiler sorts what it emits, so that two frontends that list the same graph in
    different orders get the same plan; and what a plan hash stands for. *)

From S2P Require Import Prelude Utf16 Text SpecTypes PlanTypes TopoOrder Kahn Schedule SpecGraph Json Canonical CanonicalForm SourceIdentity Validate Decisions Semantics Encode Compile Verify CompileSafety.
From Stdlib Require Import SpecFloat.
#[local] Open Scope Z_scope.

(** ** The order of declarations *)
Lemma compareUTF16_lt a b : compareUTF16 a b < 0 ↔ LessUTF16 a b = true.
Proof. unfold compareUTF16. destruct (LessUTF16 a b), (LessUTF16 b a); naive_solver lia. Qed.
Lemma compareUTF16_eq a b : compareUTF16 a b = 0 ↔ utf16_le a b ∧ utf16_le b a.
Proof. unfold compareUTF16, utf16_le. destruct (LessUTF16 a b), (LessUTF16 b a); naive_solver lia. Qed.
Lemma compareUTF16_le a b : compareUTF16 a b <= 0 ↔ utf16_le a b.
Proof.
  unfold compareUTF16, utf16_le. destruct (LessUTF16 a b) eqn:E1, (LessUTF16 b a) eqn:E2; try naive_solver lia.
  pose proof (LessUTF16_asymm _ _ E1). congruence.
Qed.
Definition utf16_lt (a b : string) : Prop := LessUTF16 a b = true.
Definition utf16_eq (a b : string) : Prop := utf16_le a b ∧ utf16_le b a.
Lemma utf16_lt_spec a b : utf16_lt a b ↔ ¬ utf16_le b a.
Proof. unfold utf16_lt, utf16_le. by destruct (LessUTF16 a b). Qed.

(** The comparison of edges is the lexicographic order of their fields. *)
Lemma edgeLe_lex a b : edgeLe a b ↔
  utf16_lt (ge_From a) (ge_From b) ∨ utf16_eq (ge_From a) (ge_From b) ∧
  (utf16_lt (ge_To a) (ge_To b) ∨ utf16_eq (ge_To a) (ge_To b) ∧ utf16_le (ge_Case a) (ge_Case b)).
Proof.
  unfold edgeLe, compareEdges, utf16_lt, utf16_eq. rewrite <- !compareUTF16_eq, <- !compareUTF16_lt, <- compareUTF16_le.
  destruct (Z.eqb_spec (compareUTF16 (ge_From a) (ge_From b)) 0), (Z.eqb_spec (compareUTF16 (ge_To a) (ge_To b)) 0);
    cbn [negb]; lia.
Qed.

#[global] Instance edgeLe_total : Total edgeLe.
Proof.
  intros a b. rewrite !edgeLe_lex. unfold utf16_lt, utf16_eq, utf16_le.
  pose proof (LessUTF16_asymm (ge_Case a) (ge_Case b)).
  destruct (LessUTF16 (ge_From a) (ge_From b)), (LessUTF16 (ge_From b) (ge_From a)), (LessUTF16 (ge_To a) (ge_To b)),
    (LessUTF16 (ge_To b) (ge_To a)), (LessUTF16 (ge_Case a) (ge_Case b)), (LessUTF16 (ge_Case b) (ge_Case a)); intuition congruence.
Qed.

#[global] Instance edgeLe_trans : Transitive edgeLe.
Proof.
  assert (∀ x y z, utf16_lt x y → utf16_le y z → utf16_lt x z) as T1.
  { intros x y z H1 H2. apply utf16_lt_spec. intros H3. apply utf16_lt_spec in H1. apply H1. by transitivity z. }
  assert (∀ x y z, utf16_le x y → utf16_lt y z → utf16_lt x z) as T2.
  { intros x y z H1 H2. apply utf16_lt_spec. intros H3. apply utf16_lt_spec in H2. apply H2. by transitivity x. }
  assert (∀ x y, utf16_lt x y → utf16_le x y) as T3 by (intros x y H; by apply LessUTF16_asymm).
  intros a b c. rewrite !edgeLe_lex. unfold utf16_eq.
  intros [H1|([H1 H1'] & [H2|([H2 H2'] & H3)])] [H4|([H4 H4'] & [H5|([H5 H5'] & H6)])];
    first [left; by eauto|right; split; [split; by etrans|]; left; by eauto|
           right; split; [split; by etrans|]; right; split; [split; by etrans|]; by etrans].
Qed.

Definition edgeValid (e : GraphEdge) : Prop :=
  validUtf8 (ge_From e) = true ∧ validUtf8 (ge_To e) = true ∧ validUtf8 (ge_Case e) = true.

Lemma edgeLe_antisymm a b : edgeValid a → edgeValid b → edgeLe a b → edgeLe b a → a = b.
Proof.
  intros (A1 & A2 & A3) (B1 & B2 & B3). rewrite !edgeLe_lex. intros H1 H2.
  assert (∀ x y, utf16_lt x y → utf16_lt y x → False) as Has.
  { intros x y H3 H4. apply utf16_lt_spec in H3. by apply H3, LessUTF16_asymm. }
  assert (∀ x y, utf16_lt x y → utf16_eq y x → False) as Heq by (intros x y H3 [H4 _]; by apply utf16_lt_spec in H3).
  assert (∀ x y, utf16_eq x y → utf16_eq y x) as Hsym by (by intros x y []).
  destruct H1 as [H1|(H1 & [H3|(H3 & H5)])], H2 as [H2|(H2 & [H4|(H4 & H6)])]; try (exfalso; by eauto).
  destruct a, b; cbn in *. f_equal; apply utf16_le_antisymm; naive_solver.
Qed.

Lemma sortEdges_perm l k : Forall edgeValid l → l ≡ₚ k → merge_sort edgeLe l = merge_sort edgeLe k.
Proof.
  intros Hv HP. eapply (StronglySorted_unique_strong edgeLe); [|apply StronglySorted_merge_sort; apply _..|].
  - intros x y Hx Hy. rewrite merge_sort_Permutation in Hx, Hy. rewrite <- HP in Hy.
    apply edgeLe_antisymm; [exact (proj1 (Forall_forall _ _) Hv x Hx)|exact (proj1 (Forall_forall _ _) Hv y Hy)].
  - by rewrite !merge_sort_Permutation.
Qed.

Lemma indexBy_perm {A} (key : A → string) l k : NoDup (map key l) → l ≡ₚ k → indexBy key l = indexBy key k.
Proof.
  intros Hnd HP. apply map_eq. intros i. destruct (indexBy key l !! i) as [x|] eqn:E.
  - destruct (indexBy_key _ _ _ _ E) as [<- Hx]. symmetry. apply indexBy_NoDup; by rewrite <- HP.
  - destruct (indexBy key k !! i) as [y|] eqn:E'; [|done]. destruct (indexBy_key _ _ _ _ E') as [<- Hy].
    rewrite <- HP in Hy. by rewrite (indexBy_NoDup key l y Hnd Hy) in E.
Qed.

Lemma compileSchemas_perm N H schemas order order' x x' :
  order ≡ₚ map_to_list schemas → order' ≡ₚ map_to_list schemas → schemasCollisionFree N H schemas →
  compileSchemas N H order = Ok x → compileSchemas N H order' = Ok x' → x = x'.
Proof.
  intros HP HP' Hcf. unfold compileSchemas.
  intros ([m b] & Hf & [= <-])%bind_Ok ([m' b'] & Hf' & [= <-])%bind_Ok.
  assert (∀ o, o ≡ₚ map_to_list schemas → NoDup o.*1) as Hnd by (intros o ->; apply NoDup_fst_map_to_list).
  destruct (addSchemas_spec _ _ _ _ _ Hf (Hnd _ HP)) as (S1 & S2 & S3).
  destruct (addSchemas_spec _ _ _ _ _ Hf' (Hnd _ HP')) as (T1 & T2 & T3).
  assert (∀ o k raw, o ≡ₚ map_to_list schemas → (k, raw) ∈ o ↔ schemas !! k = Some raw) as Hin
    by (intros o k raw ->; apply elem_of_map_to_list).
  assert (∀ h, b !! h = b' !! h) as Hb.
  { assert (∀ (b1 b2 : gmap string string) o1 o2 h c, o1 ≡ₚ map_to_list schemas → o2 ≡ₚ map_to_list schemas →
      (∀ h c, b1 !! h = Some c → h = DigestBytes H c ∧ ∃ k raw, (k, raw) ∈ o1 ∧ CanonicalizeJSON N raw = Ok c) →
      (∀ h c, b2 !! h = Some c → h = DigestBytes H c ∧ ∃ k raw, (k, raw) ∈ o2 ∧ CanonicalizeJSON N raw = Ok c) →
      (∀ k raw, (k, raw) ∈ o2 → ∃ c, CanonicalizeJSON N raw = Ok c ∧ is_Some (b2 !! DigestBytes H c)) →
      b1 !! h = Some c → b2 !! h = Some c) as Hone.
    { intros b1 b2 o1 o2 h c P1 P2 U1 U2 V2 Hl. destruct (U1 _ _ Hl) as (-> & k & raw & Hk & Hc).
      rewrite (Hin o1) in Hk by done. rewrite <- (Hin o2) in Hk by done.
      destruct (V2 _ _ Hk) as (c2 & Hc2 & [c3 Hc3]). assert (c2 = c) as -> by congruence. rewrite Hc3. f_equal.
      destruct (U2 _ _ Hc3) as (Ed & k3 & raw3 & Hk3 & Hcc). rewrite Hin in Hk, Hk3 by done.
      by apply (Hcf k3 k raw3 raw). }
    intros h. apply option_eq. intros c. split; [apply (Hone b b' order order')|apply (Hone b' b order' order)]; try done.
    - intros k raw Hk. destruct (T1 _ _ Hk) as (c' & ? & _ & ?). by eexists.
    - intros k raw Hk. destruct (S1 _ _ Hk) as (c' & ? & _ & ?). by eexists. }
  assert (m = m') as ->; [|by rewrite (map_eq _ _ Hb)].
  apply map_eq. intros k. destruct (schemas !! k) as [raw|] eqn:Ek.
  - destruct (S1 k raw) as (c & E1 & -> & _); [by apply Hin|].
    destruct (T1 k raw) as (c' & E2 & -> & _); [by apply Hin|]. congruence.
  - transitivity (None : option string); [|symmetry]; apply eq_None_not_Some; intros Hs.
    + apply S3, list_elem_of_fmap in Hs as ([k' raw] & -> & Hr). apply (Hin _ _ _ HP) in Hr. cbn in *. congruence.
    + apply T3, list_elem_of_fmap in Hs as ([k' raw] & -> & Hr). apply (Hin _ _ _ HP') in Hr. cbn in *. congruence.
Qed.

(** Two specs that differ in the order of their nodes and edges, and in their hash. *)
Record reordered (ws ws' : WorkflowSpec) : Prop := {
  ro_nodes : gr_Nodes (ws_Graph ws) ≡ₚ gr_Nodes (ws_Graph ws');
  ro_edges : gr_Edges (ws_Graph ws) ≡ₚ gr_Edges (ws_Graph ws');
  ro_version : gr_IRVersion (ws_Graph ws') = gr_IRVersion (ws_Graph ws);
  ro_start : gr_Start (ws_Graph ws') = gr_Start (ws_Graph ws);
  ro_end : gr_End (ws_Graph ws') = gr_End (ws_Graph ws);
  ro_hook : gr_ExitHook (ws_Graph ws') = gr_ExitHook (ws_Graph ws);
  ro_workflow : ws_Workflow ws' = ws_Workflow ws;
  ro_schemas : ws_Schemas ws' = ws_Schemas ws;
  ro_symbols : ws_Symbols ws' = ws_Symbols ws;
  ro_packages : ws_SourcePackages ws' = ws_SourcePackages ws;
  ro_environments : ws_Environments ws' = ws_Environments ws;
  ro_contracts : ws_Contracts ws' = ws_Contracts ws;
}.

(** The plan without the hashes of the spec and of itself. *)
Definition planBody (p : WorkflowPlan) : WorkflowPlan :=
  {| wp_SchemaVersion := wp_SchemaVersion p; wp_PlanHash := None; wp_SpecHash := None;
     wp_Graph := wp_Graph p; wp_Schemas := wp_Schemas p; wp_Symbols := wp_Symbols p;
     wp_SourcePackages := wp_SourcePackages p; wp_Environments := wp_Environments p;
     wp_Contracts := wp_Contracts p; wp_Targets := wp_Targets p;
     wp_DatastoreManifests := wp_DatastoreManifests p;
     wp_Provenance := (λ v, {| cp_CompilerName := cp_CompilerName v; cp_CompilerVersion := cp_CompilerVersion v;
                               cp_SourceSpecHash := None |}) <$> wp_Provenance p;
     wp_Hashing := wp_Hashing p; wp_SpecHashing := wp_SpecHashing p |}.

Lemma compileGraph_reordered sh ch ws ws' schedule : reordered ws ws' →
  NoDup (map gn_ID (gr_Nodes (ws_Graph ws))) → Forall edgeValid (gr_Edges (ws_Graph ws)) →
  compileGraph sh ch ws' schedule = compileGraph sh ch ws schedule ∧
  compileSymbols ws' schedule = compileSymbols ws schedule.
Proof.
  intros [Hn He Hv Hs Hend Hh Hw _ Hsym _ _ _] Hnd Hev. unfold compileGraph, compileSymbols.
  rewrite Hv, Hs, Hend, Hh, Hw, Hsym, <- (indexBy_perm gn_ID _ _ Hnd Hn), <- (sortEdges_perm _ _ Hev He). done.
Qed.

(** C31: the order in which a frontend lists nodes and edges, and the order in which the compiler
    ranges over the schemas, do not change the plan: apart from the hash of the spec it was
    compiled from, the two plans are equal. *)
Theorem Compile_declaration_order N H marshal ws ws' json json' order order' r r'
    (Hro : reordered ws ws')
    (Hids : allValid (map gn_ID (gr_Nodes (ws_Graph ws)))) (Hedges : Forall edgeValid (gr_Edges (ws_Graph ws)))
    (Horder : order ≡ₚ map_to_list (ws_Schemas ws)) (Horder' : order' ≡ₚ map_to_list (ws_Schemas ws))
    (Hschemas : schemasCollisionFree N H (ws_Schemas ws))
    (Hcompile : Compile N H marshal ws json order = Ok r)
    (Hcompile' : Compile N H marshal ws' json' order' = Ok r') :
  planBody (cr_Plan r') = planBody (cr_Plan r) ∧ cr_Schedule r' = cr_Schedule r.
Proof.
  unfold Compile in Hcompile, Hcompile'.
  apply bind_Ok in Hcompile as (schedule & Hs%wrapErr_Ok & Hcompile).
  apply bind_Ok in Hcompile' as (schedule' & Hs'%wrapErr_Ok & Hcompile').
  assert (schedule' = schedule) as ->.
  { pose proof (BuildSchedule_perm _ _ _ Hids (ro_nodes _ _ Hro) (ro_edges _ _ Hro) Hs). congruence. }
  apply bind_Ok in Hcompile as (specHash & _ & Hcompile), Hcompile' as (specHash' & _ & Hcompile').
  do 2 (destruct (negb _); [done|]).
  apply bind_Ok in Hcompile as ([sh schemas] & Hsh & Hcompile), Hcompile' as ([sh' schemas'] & Hsh' & Hcompile').
  pose proof (compileSchemas_perm _ _ _ _ _ _ _ Horder Horder' Hschemas Hsh Hsh') as [= <- <-].
  apply bind_Ok in Hcompile as ([eh environments] & Heh & Hcompile), Hcompile' as ([eh' environments'] & Heh' & Hcompile').
  unfold compileEnvironments in Heh, Heh'. rewrite (ro_environments _ _ Hro) in Heh'. rewrite Heh in Heh'.
  injection Heh' as <- <-.
  apply bind_Ok in Hcompile as ([ch contracts] & Hch & Hcompile), Hcompile' as ([ch' contracts'] & Hch' & Hcompile').
  unfold compileContracts in Hch, Hch'. rewrite (ro_contracts _ _ Hro) in Hch'. rewrite Hch in Hch'.
  injection Hch' as <- <-.
  apply bind_Ok in Hcompile as (planHash & _ & Hcompile), Hcompile' as (planHash' & _ & Hcompile').
  apply bind_Ok in Hcompile as (text & _ & [= <-]), Hcompile' as (text' & _ & [= <-]). split; [|done].
  destruct (compileGraph_reordered sh ch ws ws' schedule Hro) as [Eg Es]; [by apply BuildSchedule_Ok in Hs as [? _]|done|].
  unfold planBody, compiledPlan, compileSourcePackages. cbn. by rewrite Eg, Es, (ro_packages _ _ Hro).
Qed.

(** ** What a plan hash identifies *)

(** The text whose digest is the hash of the plan. *)
Definition hashedText N marshal (p : WorkflowPlan) (text : string) : Prop :=
  ∃ s, marshal (MPlan (setPlanHash None p)) = Ok s ∧ CanonicalizeJSON N s = Ok text.

Lemma hashPlan_text N H marshal p h : hashPlan N H marshal p = Ok h →
  ∃ text, hashedText N marshal p text ∧ h = DigestBytes H text.
Proof.
  unfold hashPlan. intros (s & Hm%wrapErr_Ok & Hd%wrapErr_Ok)%bind_Ok.
  apply bind_Ok in Hd as (text & Hc & [= <-]). exists text. split; [by exists s|done].
Qed.

Lemma Verify_Ok `{SR : SchemaRules} N H marshal unmarshal unmarshalNode dS tS eS R text h p :
  VerifyCanonicalJSON N H marshal unmarshal unmarshalNode dS tS eS R text h = Ok p →
  CanonicalizeJSON N text = Ok text ∧ unmarshal text = Ok p ∧ hashPlan N H marshal p = Ok h ∧
  GetString (wp_PlanHash p) = h ∧ validateVersionedIdentity N H marshal p = Ok tt.
Proof.
  unfold VerifyCanonicalJSON, ParseCanonicalJSON. intros (c & Hc%wrapErr_Ok & Hv)%bind_Ok.
  destruct (bool_decide (c = text)) eqn:E; [apply bool_decide_eq_true in E as ->|done]. cbn [negb] in Hv.
  apply bind_Ok in Hv as (p' & Hp & Hv). apply bind_Ok in Hp as (p2 & Hu%wrapErr_Ok & Hp).
  destruct (negb _); [done|]. injection Hp as ->.
  apply bind_Ok in Hv as (_ & _ & Hv). apply bind_Ok in Hv as ([] & Hi & Hv).
  apply bind_Ok in Hv as (h' & Hh%wrapErr_Ok & Hv).
  destruct (bool_decide (h' = h)) eqn:E1; [apply bool_decide_eq_true in E1 as ->|done]. cbn [negb] in Hv.
  destruct (bool_decide (GetString (wp_PlanHash p') = h)) eqn:E2; [apply bool_decide_eq_true in E2|done].
  by injection Hv as <-.
Qed.

(** C30: a plan hash identifies one plan: two texts that verify under the same expected hash are
    read as the same plan, as long as SHA-256 does not collide on the two contents. *)
Theorem VerifyCanonicalJSON_binds `{SR : SchemaRules} N H marshal unmarshal unmarshalNode
    dS tS eS dS' tS' eS' R a b h p q
    (Hproto : protojsonLaws N marshal unmarshal unmarshalNode)
    (Hcf : ∀ x y, hashedText N marshal p x → hashedText N marshal q y → H x = H y → x = y)
    (Ha : VerifyCanonicalJSON N H marshal unmarshal unmarshalNode dS tS eS R a h = Ok p)
    (Hb : VerifyCanonicalJSON N H marshal unmarshal unmarshalNode dS' tS' eS' R b h = Ok q) :
  p = q.
Proof.
  apply Verify_Ok in Ha as (_ & _ & (x & Hx & Ex)%hashPlan_text & Ep & _), Hb as (_ & _ & (y & Hy & Ey)%hashPlan_text & Eq & _).
  assert (x = y) as <-. { apply Hcf; [done|done|]. rewrite Ex in Ey. by injection Ey. }
  destruct Hx as (s & Hs & Cs), Hy as (s' & Hs' & Cs').
  pose proof (pl_plan _ _ _ _ Hproto _ _ _ Hs Cs) as U. rewrite (pl_plan _ _ _ _ Hproto _ _ _ Hs' Cs') in U.
  injection U as U. assert (wp_PlanHash p = wp_PlanHash q) as Eh.
  { assert (∀ o, GetString o = h → o = Some h) as Hsome; [|by rewrite (Hsome _ Ep), (Hsome _ Eq)].
    intros [o|]; cbn; [by intros ->|]. rewrite Ex. by intros [=]. }
  destruct p, q. unfold setPlanHash in U. cbn in *. congruence.
Qed.
