(* ===== verification/CompileSample.v ===== *)
(** * A compiled workflow

    A workflow with one step and an exit hook, compiled and verified with concrete stand-ins
    for SHA-256 and [protojson]: the hypotheses of the compiler's theorems can hold. *)

From S2P Require Import Prelude Utf16 Text SpecTypes PlanTypes TopoOrder Kahn Schedule SpecGraph Json Canonical CanonicalForm SourceIdentity Validate Decisions Semantics Encode Compile Verify CompileSafety CompileOrder.
From Stdlib Require Import SpecFloat.
#[local] Open Scope Z_scope.

#[local] Instance anySchema : SchemaRules :=
  {| schemaAdmitsObject := λ _, true; arraySchemaItemsExactlyMatch := λ _ _, true;
     MapOutcomeListSchemaMatches := λ _ _, true |}.

Definition emptyPlan : WorkflowPlan :=
  {| wp_SchemaVersion := None; wp_PlanHash := None; wp_SpecHash := None; wp_Graph := None; wp_Schemas := [];
     wp_Symbols := []; wp_SourcePackages := []; wp_Environments := []; wp_Contracts := []; wp_Targets := [];
     wp_DatastoreManifests := []; wp_Provenance := None; wp_Hashing := None; wp_SpecHashing := None |}.

(** An encoder that tells messages apart only by what this example needs. *)
Definition protoText (m : Message) : result string :=
  match m with
  | MPlan p => Ok match wp_PlanHash p with
                  | None => "{}"
                  | Some h => jsonText "{'planHash':'" +:+ h +:+ jsonText "'}"
                  end
  | MEnvironment _ => Ok (jsonText "{'node':{}}")
  | MContract _ => Ok (jsonText "{'environmentRef':''}")
  | MNode _ => Ok "{}"
  end.

(** [protojson] restricted to one plan and its exit hook. *)
Definition planMarshal (plan : WorkflowPlan) (m : Message) : result string :=
  match m with
  | MPlan p => if decide (p = plan ∨ p = setPlanHash None plan) then protoText m else Err (ErrNew "unsupported")
  | MNode n => if decide (wp_Graph plan ≫= gi_ExitHook = Some n) then protoText m else Err (ErrNew "unsupported")
  | _ => protoText m
  end.
Definition planUnmarshal (plan : WorkflowPlan) (s : string) : result WorkflowPlan :=
  match protoText (MPlan plan) with
  | Ok text => if decide (s = text) then Ok plan else Ok (setPlanHash None plan)
  | Err e => Err e
  end.
Definition nodeUnmarshal (plan : WorkflowPlan) (s : string) : result GraphNode :=
  Ok (authoredNode (default emptyPlanNode (wp_Graph plan ≫= gi_ExitHook))).

Definition nullSchema : string := jsonText "{'type':'null'}".
Definition hookNode : GraphNode :=
  {| gn_ID := "cleanup"; gn_Kind := "exit-hook"; gn_InputSchema := "in"; gn_OutputSchema := "null";
     gn_SymbolRef := "sym"; gn_ContractRef := "contract"; gn_MergeInputs := []; gn_Selector := "";
     gn_Cases := []; gn_DecisionRef := ""; gn_SelectInputs := []; gn_ItemInputSchema := "";
     gn_ItemOutputSchema := ""; gn_MaxConcurrency := 0; gn_ItemFailures := "" |}.

Definition packageHash : string :=
  match Digest smallNumbers checksumHash (map (λ f, {| fi_Path := sf_Path f; fi_Hash := sf_Hash f |}) sampleFiles) with
  | Ok d => d | Err _ => "" end.

(** The workflow, with the language its symbol declares and the order of its edges. *)
Definition hooked (language : string) (edges : list GraphEdge) : WorkflowSpec :=
  {| ws_Kind := "WorkflowSpec"; ws_SchemaVersion := 1; ws_Encoding := "json"; ws_Hashing := zeroHashing;
     ws_SpecHash := DigestBytes checksumHash "{}";
     ws_Workflow := {| wf_Name := "sample"; wf_InputSchema := "in"; wf_OutputSchema := "out"; wf_DeadlineSeconds := 60 |};
     ws_Graph := {| gr_IRVersion := Current; gr_Start := "start"; gr_End := "end";
       gr_Nodes := [plainNode "start" "start"; sampleStep; plainNode "end" "end"]; gr_Edges := edges;
       gr_ExitHook := Some hookNode |};
     ws_Schemas := {["in" := "{}"; "out" := "{ }"; "null" := nullSchema]};
     ws_Symbols := {["sym" := {| sy_PackageID := "pkg"; sy_Language := language; sy_Module := "a"; sy_Export := "f" |}]};
     ws_SourcePackages := {["pkg" := {| sp_PackageID := "pkg"; sp_Language := "ts"; sp_PackageHash := packageHash;
       sp_Hashing := zeroHashing; sp_Files := sampleFiles |}]};
     ws_Environments := {["env" := {| en_Kind := "node"; en_Image := ""; en_Platform := ""; en_Command := [];
       en_WorkingDirectory := ""; en_Version := "22"; en_PackageManager := "npm"; en_Lockfile := "l" |}]};
     ws_Contracts := {["contract" := {| ec_EnvironmentRef := "env"; ec_Retry := None; ec_TimeoutSeconds := 30;
       ec_Resources := None; ec_Secrets := []; ec_Network := None |}]} |}.

Definition compileWith (ws : WorkflowSpec) (marshal : Message → result string) (order : list (string * string)) :
    result CompileResult := Compile smallNumbers checksumHash marshal ws "{}" order.
Definition schemaList (ws : WorkflowSpec) : list (string * string) := map_to_list (ws_Schemas ws).
Definition planFor (ws : WorkflowSpec) : WorkflowPlan :=
  match compileWith ws protoText (schemaList ws) with Ok r => cr_Plan r | Err _ => emptyPlan end.

Definition pipeline : WorkflowSpec := hooked "ts" sampleEdges.
Definition pipelinePlan : WorkflowPlan := planFor pipeline.
Definition pipelineHash : string := GetString (wp_PlanHash pipelinePlan).
Definition pipelineText : string := jsonText "{'planHash':'" +:+ pipelineHash +:+ jsonText "'}".
Definition pipelineResult : CompileResult :=
  {| cr_Plan := pipelinePlan; cr_CanonicalJSON := pipelineText; cr_PlanHash := pipelineHash;
     cr_SpecHash := DigestBytes checksumHash "{}";
     cr_Schedule := match BuildSchedule (ws_Graph pipeline) with Ok s => s
                    | Err _ => {| sc_NodeOrder := []; sc_StepIDs := []; sc_Depths := [] |} end |}.

Example pipeline_compiles :
  compileWith pipeline (planMarshal pipelinePlan) (schemaList pipeline) = Ok pipelineResult.
Proof. vm_compute. reflexivity. Qed.

Example pipeline_valid : validateSemantics smallNumbers checksumHash noReference "{}" pipeline = [].
Proof. vm_compute. reflexivity. Qed.

Lemma pipeline_laws plan c0 c1 :
  (∀ c, CanonicalizeJSON smallNumbers "{}" = Ok c → c = c0) →
  (∀ s c, protoText (MPlan plan) = Ok s → CanonicalizeJSON smallNumbers s = Ok c → c = c1) →
  planUnmarshal plan c0 = Ok (setPlanHash None plan) → planUnmarshal plan c1 = Ok plan →
  protojsonLaws smallNumbers (planMarshal plan) (planUnmarshal plan) (nodeUnmarshal plan).
Proof.
  intros E0 E1 U0 U1. split.
  - intros p s c. cbn [planMarshal]. case_decide as D; [|done]. intros Hm Hc. destruct D as [-> | ->].
    + by rewrite (E1 _ _ Hm Hc).
    + injection Hm as <-. by rewrite (E0 _ Hc).
  - intros n s. cbn [planMarshal]. case_decide as D; [|done]. intros _. unfold nodeUnmarshal. by rewrite D.
Qed.

Definition pass {A} (_ : A) : result unit := Ok tt.

Lemma pipeline_protojson :
  protojsonLaws smallNumbers (planMarshal pipelinePlan) (planUnmarshal pipelinePlan) (nodeUnmarshal pipelinePlan).
Proof.
  apply (pipeline_laws pipelinePlan "{}" pipelineText).
  - assert (CanonicalizeJSON smallNumbers "{}" = Ok "{}") as -> by (vm_compute; reflexivity). by intros c [= <-].
  - assert (protoText (MPlan pipelinePlan) = Ok pipelineText) as -> by (vm_compute; reflexivity). intros s c [= <-].
    assert (CanonicalizeJSON smallNumbers pipelineText = Ok pipelineText) as -> by (vm_compute; reflexivity). by intros [= <-].
  - vm_compute. reflexivity.
  - vm_compute. reflexivity.
Qed.

Lemma pipeline_schemas : schemasCollisionFree smallNumbers checksumHash (ws_Schemas pipeline).
Proof.
  assert (∀ k raw, ws_Schemas pipeline !! k = Some raw → raw ∈ ["{}"; "{ }"; nullSchema]) as Hin.
  { intros k raw. cbn [pipeline hooked ws_Schemas]. rewrite !lookup_insert_Some, lookup_singleton_Some. intros H. rewrite !elem_of_cons. naive_solver. }
  assert (∀ raw c, raw ∈ ["{}"; "{ }"; nullSchema] → CanonicalizeJSON smallNumbers raw = Ok c → c = "{}" ∨ c = nullSchema) as Hc.
  { intros raw c Hin' HC. rewrite !elem_of_cons, elem_of_nil in Hin'.
    destruct Hin' as [-> |[-> |[-> |[]]]]; vm_compute in HC; injection HC as <-; auto. }
  intros k k' raw raw' c c' Hk Hk' H1 H2.
  assert (DigestBytes checksumHash "{}" ≠ DigestBytes checksumHash nullSchema) as Hne by (vm_compute; intros [=]).
  destruct (Hc _ _ (Hin _ _ Hk) H1) as [-> | ->], (Hc _ _ (Hin _ _ Hk') H2) as [-> | ->]; intros Ed;
    first [reflexivity|exfalso; congruence].
Qed.

Lemma pipeline_contracts marshal envs : contractsCollisionFree smallNumbers checksumHash marshal (ws_Contracts pipeline) envs.
Proof.
  intros k k' c c' h Hk Hk' _ _. cbn [pipeline hooked ws_Contracts] in Hk, Hk'.
  apply lookup_singleton_Some in Hk as [_ <-], Hk' as [_ <-]. done.
Qed.


Lemma VerifyCanonicalJSON_binds_witness : pipelinePlan = pipelinePlan ∧ pipelineHash = GetString (wp_PlanHash pipelinePlan).
Proof.
  split; [|done].
  apply (VerifyCanonicalJSON_binds smallNumbers checksumHash (planMarshal pipelinePlan) (planUnmarshal pipelinePlan)
    (nodeUnmarshal pipelinePlan) pass pass pass pass pass pass "{}" pipelineText pipelineText pipelineHash).
  - exact pipeline_protojson.
  - intros x y (s & Hs & Cs) (s' & Hs' & Cs') _. congruence.
  - vm_compute. reflexivity.
  - vm_compute. reflexivity.
Defined.

(** The edges in the other order: same plan. *)
Definition backwards : WorkflowSpec := hooked "ts" (rev sampleEdges).
Definition backwardsResult : CompileResult :=
  match compileWith backwards protoText (schemaList backwards) with Ok r => r | Err _ => pipelineResult end.
Lemma Compile_declaration_order_witness :
  planBody (cr_Plan backwardsResult) = planBody (cr_Plan pipelineResult) ∧
  cr_Schedule backwardsResult = cr_Schedule pipelineResult.
Proof.
  apply (Compile_declaration_order smallNumbers checksumHash protoText pipeline backwards "{}" "{}"
    (schemaList pipeline) (schemaList backwards) pipelineResult backwardsResult).
  - split; try done. apply Permutation_rev.
  - repeat constructor; vm_compute; reflexivity.
  - repeat constructor; vm_compute; reflexivity.
  - reflexivity.
  - reflexivity.
  - exact pipeline_schemas.
  - vm_compute. reflexivity.
  - vm_compute. reflexivity.
Defined.

(** The validator of specs lets the symbol of an exit hook declare another language than its
    package; the reader of plans does not: the compiled plan is refused. *)
Definition mixed : WorkflowSpec := hooked "python" sampleEdges.
Example mixed_language_hook_refused :
  validateSemantics smallNumbers checksumHash noReference "{}" mixed = [] ∧
  isOk (compileWith mixed protoText (schemaList mixed)) = true ∧
  ValidateExecution smallNumbers protoText (nodeUnmarshal (planFor mixed)) pass pass pass "{}" (planFor mixed) =
    Err (ErrNew "workflow plan graph.exitHook symbol references an unknown source package; rebuild the plan").
Proof. split_and!; vm_compute; reflexivity. Qed.
