(* ===== verification/Index.v ===== *)
(** * The executor's view of a plan

    The parts of [internal/orchestrator/orchestrator.go] that run before and beside the run
    loop: the identifiers a run may interpolate into keys and paths, the index of the plan,
    the datastore keys of a run and the descriptors handed to step runners. *)

From S2P Require Import Prelude Utf16 Text SpecTypes PlanTypes TopoOrder Kahn Schedule SpecGraph Json Canonical SourceIdentity Validate Compile Verify Datastore Artifact Journal JournalOps Retry.
From Stdlib Require Import SpecFloat Ascii.
#[local] Open Scope Z_scope.

Definition jsonContentType : string := "application/json".
Definition SourceArchiveContentType : string := "application/vnd.massive.source-tar".
Definition maxSafePathSegmentLength : Z := 128.

(** [safePathSegmentPattern]: [^[A-Za-z0-9_.@:#-]+$] *)
Definition safePathSegmentPattern (value : string) : bool :=
  negb (bool_decide (value = "")) && forallb safeByte (bytesOf value).

Definition ValidSafePathSegment (value : string) : bool :=
  if (maxSafePathSegmentLength <? Z.of_nat (String.length value)) || bool_decide (value = ".") ||
     bool_decide (value = "..") || negb (safePathSegmentPattern value) then false
  else isOk (ParseKey value).

Definition invalidPlanIdentity (field value : string) : error :=
  InvalidRunInputError field value
    "must be a single safe path segment of at most 128 characters (descriptor and datastore key rules)".

(** [if !ValidSafePathSegment(value) { return invalidPlanIdentity(field, value) }] *)
Definition checkSegment (field value : string) : result unit :=
  if ValidSafePathSegment value then Ok tt else Err (invalidPlanIdentity field value).

Definition checkNodeSegments (node : PlanNode) : result unit :=
  _ ← checkSegment "plan graph node id" (GetString (pn_Id node));
  _ ← mapErr (checkSegment "plan graph node merge input") (pn_MergeInputs node);
  Ok tt.
Definition checkEdgeSegments (edge : PlanEdge) : result unit :=
  _ ← checkSegment "plan graph edge from" (GetString (pe_From edge));
  checkSegment "plan graph edge to" (GetString (pe_To edge)).

Definition validatePlanIdentitySegments (plan : WorkflowPlan) : result unit :=
  match wp_Graph plan with
  | None => Err (InvalidRunInputError "plan graph" "" "is required")
  | Some graph =>
      _ ← checkSegment "plan graph start node" (GetString (gi_StartNode graph));
      _ ← checkSegment "plan graph end node" (GetString (gi_EndNode graph));
      _ ← mapErr checkNodeSegments (gi_Nodes graph);
      _ ← mapErr checkEdgeSegments (gi_Edges graph);
      Ok tt
  end.

(** ** Keys of a run *)

(** [strings.Trim(s, cutset)]; [strings.Map] with an ASCII-only lower-casing.  Both leave
    bytes outside ASCII alone. *)
Fixpoint trimLeft (cut : Z → bool) (l : list Z) : list Z :=
  match l with [] => [] | b :: rest => if cut b then trimLeft cut rest else l end.
Definition trim (cut : Z → bool) (l : list Z) : list Z := reverse (trimLeft cut (reverse (trimLeft cut l))).
Definition isCutset (b : Z) : bool := existsb (Z.eqb b) [32; 9; 13; 10].
Definition asciiLower (r : Z) : Z := if (65 <=? r) && (r <=? 90) then r + 32 else r.

(** [strings.Map] visits runes; an invalid byte becomes U+FFFD. *)
Definition NormalizeProjectKey (sha256Hex : string → string) (projectID : string) : string :=
  "sha256-" +:+ sha256Hex (ofRunes (map asciiLower (runes (ofBytes (trim isCutset (bytesOf projectID)))))).

Definition scopeSuffix (scope : option ExecutionScope) : string :=
  match scope with
  | None => ""
  | Some s => "/scopes" +:+
      foldr (λ f acc, "/maps/" +:+ fr_MapID f +:+ "/items/" +:+ itoa (fr_Index f) +:+ acc) "" (es_Frames s)
  end.
Definition runPath (projectKey runID : string) : string := "projects/" +:+ projectKey +:+ "/runs/" +:+ runID.

Definition runManifestKey (projectKey runID : string) : result Key :=
  MustKey (runPath projectKey runID +:+ "/run-manifest.json").
Definition runInputKey (projectKey runID stepID : string) (scope : option ExecutionScope) : result Key :=
  MustKey (runPath projectKey runID +:+ "/inputs/" +:+ stepID +:+ scopeSuffix scope +:+ ".json").
Definition runOutputManifestKey (projectKey runID stepID : string) (scope : option ExecutionScope) (attempt : Z)
    : result Key :=
  MustKey (runPath projectKey runID +:+ "/steps/" +:+ stepID +:+ scopeSuffix scope +:+
           "/" +:+ itoa attempt +:+ "/output-manifest.json").
Definition runResultKey (projectKey runID : string) : result Key :=
  MustKey (runPath projectKey runID +:+ "/result.json").

(** [strings.Replace(value, "sha256:", "sha256-", 1)]: the references it is applied to start
    with the prefix, so the first occurrence is the prefix. *)
Definition dashed (reference : string) : string :=
  match stripPrefix (bytesOf "sha256:") (bytesOf reference) with
  | Some digest => "sha256-" +:+ ofBytes digest
  | None => reference
  end.
Definition sourceArchiveKey (packageHash archiveHash : string) : string :=
  "packages/" +:+ dashed packageHash +:+ "/archives/" +:+ dashed archiveHash +:+ ".tar".

Definition refDigest (hash : string) : result string :=
  match stripPrefix (bytesOf "sha256:") (bytesOf hash) with
  | Some digest =>
      if (length digest =? 64)%nat then Ok (ofBytes digest)
      else Err (Errorf "invalid sha256 digest ref %q" [AStr hash])
  | None => Err (Errorf "invalid sha256 digest ref %q" [AStr hash])
  end.
Definition blobKeyForHash (hash : string) : result Key :=
  digest ← refDigest hash; BlobKeySHA256Hex digest.

Definition verifyDigest (sha256Hex : string → string) (expected body : string) : result unit :=
  let actual := DigestBytes sha256Hex body in
  if bool_decide (actual = expected) then Ok tt
  else Err (Errorf "hash mismatch: expected %s, got %s" [AStr expected; AStr actual]).

(** ** Source archives *)
Definition safeArchivePath (path : string) : bool :=
  if bool_decide (path = "") || HasPrefix path "/" || containsByte (charOf 92) path then false
  else negb (existsb (λ part, isOneOfS part [""; "."; ".."]) (splitOn "/" path)).

Definition SourceArchiveBundleName (packageHash : string) : result string :=
  if IsSHA256Ref packageHash then
    Ok ("source-sha256-" +:+ match stripPrefix (bytesOf "sha256:") (bytesOf packageHash) with
                             | Some digest => ofBytes digest | None => packageHash end +:+ ".tar")
  else Err (Errorf "invalid source package hash %q" [AStr packageHash]).

Record sourcePackageArtifact := {
  sa_PackageID : string;
  sa_Language : string;
  sa_PackageHash : string;
  sa_Key : string;
  sa_ArchiveHash : string;
  sa_ContentType : string;
}.

(** ** The index *)
Record executionIndex := {
  ix_nodesByID : gmap string PlanNode;
  ix_symbolsByRef : gmap string SymbolEntry;
  ix_contractsByRef : gmap string PlanContract;
  ix_packagesByID : gmap string sourcePackageArtifact;
  ix_inboundByTarget : gmap string (list PlanEdge);
  ix_nodeOrder : list string;
  ix_stepOrder : list string;
  ix_schemaRefs : gset string;
  ix_schemaJSON : gmap string string;
}.

(** [index.packagesByID = packages] *)
Definition ix_setPackages (packages : gmap string sourcePackageArtifact) (ix : executionIndex) : executionIndex :=
  {| ix_nodesByID := ix_nodesByID ix; ix_symbolsByRef := ix_symbolsByRef ix;
     ix_contractsByRef := ix_contractsByRef ix; ix_packagesByID := packages;
     ix_inboundByTarget := ix_inboundByTarget ix; ix_nodeOrder := ix_nodeOrder ix;
     ix_stepOrder := ix_stepOrder ix; ix_schemaRefs := ix_schemaRefs ix; ix_schemaJSON := ix_schemaJSON ix |}.

Definition planKind (node : PlanNode) : string := GetString (pn_Kind node).
(** [nodesByID[id].GetKind()]: the getter of a nil message. *)
Definition kindAt (nodesByID : gmap string PlanNode) (id : string) : string :=
  match nodesByID !! id with Some node => planKind node | None => "" end.

(** The loop over nodes: [nodes] and [indegree] have the same keys. *)
Definition addPlanNode (indegree : gmap string Z) (node : PlanNode) : result (gmap string Z) :=
  let id := GetString (pn_Id node) in
  if bool_decide (id = "") then Err (ErrNew "workflow plan contains a graph node without an id")
  else if bool_decide (is_Some (indegree !! id)) then
    Err (Errorf "workflow plan contains duplicate graph node id %q" [AStr id])
  else Ok (<[id := 0]> indegree).

Definition addPlanEdge (nodes : gmap string Z) (st : gmap string (list string) * gmap string Z) (edge : PlanEdge)
    : result (gmap string (list string) * gmap string Z) :=
  let e := authoredEdge edge in
  if bool_decide (nodes !! ge_From e = None) || bool_decide (nodes !! ge_To e = None) then
    Err (Errorf "workflow plan edge %q -> %q references an unknown node" [AStr (ge_From e); AStr (ge_To e)])
  else Ok (addAdjacency st.1 e, addIndegree st.2 e).

Definition topologicalPlanOrder (graph : GraphIR) : result (list string) :=
  nodes ← foldErr addPlanNode ∅ (gi_Nodes graph);
  '(adjacency, indegree) ← foldErr (addPlanEdge nodes) (∅, nodes) (gi_Edges graph);
  let order := topoRun adjacency indegree (length (gi_Nodes graph)) in
  if (length order =? length (gi_Nodes graph))%nat then Ok order
  else Err (ErrNew "workflow plan graph contains a cycle").

(** The loop over edges: [index.inboundByTarget]. *)
Definition addInbound (nodesByID : gmap string PlanNode) (inbound : gmap string (list PlanEdge)) (edge : PlanEdge)
    : result (gmap string (list PlanEdge)) :=
  let from := GetString (pe_From edge) in let to := GetString (pe_To edge) in
  if bool_decide (nodesByID !! from = None) then Err (Errorf "graph edge source %q does not exist" [AStr from])
  else if bool_decide (nodesByID !! to = None) then Err (Errorf "graph edge target %q does not exist" [AStr to])
  else Ok (<[to := default [] (inbound !! to) ++ [edge]]> inbound).

(** [validateExecution] is [plan.ValidateExecution]. *)
Definition buildExecutionIndex (validateExecution : WorkflowPlan → result unit) (workflowPlan : WorkflowPlan)
    : result executionIndex :=
  _ ← validateExecution workflowPlan;
  match wp_Graph workflowPlan with
  | None => Err (PanicError "unreachable: the plan validator requires a graph")
  | Some graph =>
      order ← topologicalPlanOrder graph;
      let nodes := indexBy (λ n, GetString (pn_Id n)) (gi_Nodes graph) in
      nodesByID ← match gi_ExitHook graph with
                  | None => Ok nodes
                  | Some hook =>
                      let id := GetString (pn_Id hook) in
                      if bool_decide (is_Some (nodes !! id)) then
                        Err (Errorf "exit hook id %q is also a graph node id" [AStr id])
                      else Ok (<[id := hook]> nodes)
                  end;
      inbound ← foldErr (addInbound nodesByID)
        (foldl (λ m n, <[GetString (pn_Id n) := []]> m) ∅ (gi_Nodes graph)) (gi_Edges graph);
      Ok {| ix_nodesByID := nodesByID;
            ix_symbolsByRef := indexBy (λ s, GetString (ye_SymbolRef s)) (wp_Symbols workflowPlan);
            ix_contractsByRef := indexBy (λ c, GetString (pc_ContractRef c)) (wp_Contracts workflowPlan);
            ix_packagesByID := ∅;
            ix_inboundByTarget := inbound;
            ix_nodeOrder := filter (λ id, kindAt nodesByID id ≠ "start" ∧ kindAt nodesByID id ≠ "end") order;
            ix_stepOrder := filter (λ id, kindAt nodesByID id = "step" ∨ kindAt nodesByID id = "map") order;
            ix_schemaRefs := list_to_set (map (λ s, GetString (se_Hash s)) (wp_Schemas workflowPlan));
            ix_schemaJSON := mapBy (λ s, GetString (se_Hash s)) (λ s, GetString (se_CanonicalJson s))
                               (wp_Schemas workflowPlan) |}
  end.

(** ** Descriptors *)
Record DescriptorArtifact := { xa_Key : string; xa_Hash : string; xa_ContentType : string }.
Record StepSymbolRef := { xs_PackageID : string; xs_Language : string; xs_Module : string; xs_Export : string }.
Record DescriptorPackage := {
  xp_PackageID : string; xp_Language : string; xp_PackageHash : string;
  xp_SourceArchive : DescriptorArtifact; xp_Manifest : option DescriptorArtifact;
}.
Record DataArtifactRef := { xi_Artifact : DescriptorArtifact; xi_Schema : string }.
Record ManifestDestination := { xo_ManifestKey : string; xo_Schema : string }.
(** [DatastoreDescriptor]: the union of the local and the S3 descriptor. *)
Inductive DatastoreDescriptor : Type :=
  | LocalDatastoreDescriptor (path : string)
  | S3DatastoreDescriptor (bucket region prefix endpoint : string) (forcePathStyle : option bool).

Record StepInvocationDescriptor := {
  sd_Kind : string;
  sd_SchemaVersion : Z;
  sd_Encoding : string;
  sd_PlanHash : string;
  sd_ProjectKey : string;
  sd_RunID : string;
  sd_NodeID : string;
  sd_Attempt : Z;
  sd_MaxAttempts : Z;
  sd_Scope : option ExecutionScope;
  sd_Symbol : StepSymbolRef;
  sd_SourcePackage : DescriptorPackage;
  sd_EnvironmentRef : string;
  sd_Input : DataArtifactRef;
  sd_Output : ManifestDestination;
  sd_Datastore : DatastoreDescriptor;
}.

Section Descriptors.
Context (planHash : string) (binding : DatastoreDescriptor) (projectKey runID : string) (node : PlanNode).
Context (input : DataArtifact) (index : executionIndex).
Let nodeID := GetString (pn_Id node).

Definition descriptorForStep (attempt : Z) : result StepInvocationDescriptor :=
  match ix_symbolsByRef index !! GetString (pn_SymbolRef node) with
  | None => Err (Errorf "missing symbol %q" [AStr (GetString (pn_SymbolRef node))])
  | Some symbol =>
  match ix_packagesByID index !! GetString (ye_PackageId symbol) with
  | None => Err (Errorf "missing source package %q" [AStr (GetString (ye_PackageId symbol))])
  | Some sourcePackage =>
  match ix_contractsByRef index !! GetString (pn_ContractRef node) with
  | None => Err (Errorf "missing execution contract %q" [AStr (GetString (pn_ContractRef node))])
  | Some contract =>
      manifestKey ← runOutputManifestKey projectKey runID nodeID None attempt;
      Ok {| sd_Kind := "StepInvocationDescriptor"; sd_SchemaVersion := 3; sd_Encoding := "json-v3";
            sd_PlanHash := planHash; sd_ProjectKey := projectKey; sd_RunID := runID; sd_NodeID := nodeID;
            sd_Attempt := attempt; sd_MaxAttempts := ep_maxAttempts (policyForContract (Some contract));
            sd_Scope := None;
            sd_Symbol := {| xs_PackageID := GetString (ye_PackageId symbol);
                            xs_Language := GetString (ye_Language symbol);
                            xs_Module := GetString (ye_Module symbol); xs_Export := GetString (ye_Export symbol) |};
            sd_SourcePackage := {| xp_PackageID := sa_PackageID sourcePackage; xp_Language := sa_Language sourcePackage;
                                   xp_PackageHash := sa_PackageHash sourcePackage;
                                   xp_SourceArchive := {| xa_Key := sa_Key sourcePackage;
                                                          xa_Hash := sa_ArchiveHash sourcePackage;
                                                          xa_ContentType := sa_ContentType sourcePackage |};
                                   xp_Manifest := None |};
            sd_EnvironmentRef := GetString (pc_EnvironmentRef contract);
            sd_Input := {| xi_Artifact := {| xa_Key := da_Key input; xa_Hash := da_Hash input;
                                             xa_ContentType := da_ContentType input |};
                           xi_Schema := da_Schema input |};
            sd_Output := {| xo_ManifestKey := key_value manifestKey; xo_Schema := GetString (pn_OutputSchema node) |};
            sd_Datastore := binding |}
  end end end.

Definition itemScope (itemIndex : Z) : ExecutionScope :=
  {| es_Frames := [{| fr_Kind := "map-item"; fr_MapID := nodeID; fr_Index := itemIndex |}] |}.

Definition descriptorForMapItem (itemIndex attempt : Z) : result StepInvocationDescriptor :=
  descriptor ← descriptorForStep attempt;
  let scope := itemScope itemIndex in
  manifestKey ← runOutputManifestKey projectKey runID nodeID (Some scope) attempt;
  Ok {| sd_Kind := sd_Kind descriptor; sd_SchemaVersion := sd_SchemaVersion descriptor;
        sd_Encoding := sd_Encoding descriptor; sd_PlanHash := sd_PlanHash descriptor;
        sd_ProjectKey := sd_ProjectKey descriptor; sd_RunID := sd_RunID descriptor; sd_NodeID := sd_NodeID descriptor;
        sd_Attempt := sd_Attempt descriptor; sd_MaxAttempts := sd_MaxAttempts descriptor;
        sd_Scope := Some scope; sd_Symbol := sd_Symbol descriptor; sd_SourcePackage := sd_SourcePackage descriptor;
        sd_EnvironmentRef := sd_EnvironmentRef descriptor;
        sd_Input := {| xi_Artifact := xi_Artifact (sd_Input descriptor); xi_Schema := GetString (pn_ItemInputSchema node) |};
        sd_Output := {| xo_ManifestKey := key_value manifestKey; xo_Schema := GetString (pn_ItemOutputSchema node) |};
        sd_Datastore := sd_Datastore descriptor |}.
End Descriptors.

(** The producer an output is resolved for ([resolveOutputArtifact]). *)
Definition descriptorProducer (d : StepInvocationDescriptor) : Producer :=
  {| pr_ProjectKey := sd_ProjectKey d; pr_PlanHash := sd_PlanHash d; pr_RunID := sd_RunID d;
     pr_NodeID := sd_NodeID d; pr_Attempt := sd_Attempt d; pr_Scope := sd_Scope d |}.
