(* ===== verification/Resolution.v ===== *)
(** * Resolving values along the graph

    [internal/orchestrator/resolution.go] and [control.go]: the outputs, branch selections
    and inactive regions of a run, the input of a node, the route of a decision, the
    branch a select takes and the gate that skips a node of an inactive region.  JSON
    schema validation is a parameter ([validateJSONAgainstSchema] only calls the schema
    library). *)

From S2P Require Import Prelude Utf16 Text SpecTypes PlanTypes Json Canonical SourceIdentity Validate Compile Verify Datastore Artifact Journal JournalOps MapExec Index.
From Stdlib Require Import SpecFloat Ascii.
#[local] Open Scope Z_scope.

Record nodeOutput := { no_Artifact : DataArtifact; no_Published : PublishedArtifact; no_Body : string }.

Definition zeroArtifactRef : Journal.ArtifactRef := {| ar_Key := ""; ar_Hash := ""; ar_Size := 0; ar_ContentType := "" |}.
Definition zeroPublished : PublishedArtifact :=
  {| pa_Manifest := zeroArtifactRef; pa_Body := zeroArtifactRef; pa_Schema := "" |}.

Definition journalRef (r : Artifact.ArtifactRef) : Journal.ArtifactRef :=
  {| ar_Key := rf_Key r; ar_Hash := rf_Hash r; ar_Size := rf_Size r; ar_ContentType := rf_ContentType r |}.

Definition nodeOutputFromPublished (published : PublishedJSON) (body : string) : nodeOutput :=
  {| no_Artifact := {| da_Key := rf_Key (pj_Body published); da_Hash := rf_Hash (pj_Body published);
                       da_ContentType := rf_ContentType (pj_Body published); da_Schema := pj_Schema published |};
     no_Published := {| pa_Manifest := journalRef (pj_Manifest published);
                        pa_Body := journalRef (pj_Body published); pa_Schema := pj_Schema published |};
     no_Body := body |}.

Record executionResolver := {
  er_index : executionIndex;
  er_outputs : gmap string nodeOutput;
  er_selectedCases : gmap string string;
  er_inactive : gmap string SkipReason;
}.

Definition er_setOutput (id : string) (output : nodeOutput) (r : executionResolver) : executionResolver :=
  {| er_index := er_index r; er_outputs := <[id := output]> (er_outputs r);
     er_selectedCases := er_selectedCases r; er_inactive := er_inactive r |}.
Definition er_setSelected (id tag : string) (r : executionResolver) : executionResolver :=
  {| er_index := er_index r; er_outputs := er_outputs r;
     er_selectedCases := <[id := tag]> (er_selectedCases r); er_inactive := er_inactive r |}.
Definition er_setInactive (id : string) (reason : SkipReason) (r : executionResolver) : executionResolver :=
  {| er_index := er_index r; er_outputs := er_outputs r; er_selectedCases := er_selectedCases r;
     er_inactive := <[id := reason]> (er_inactive r) |}.

(** The value of a nil or missing entry. *)
Definition inboundOf (r : executionResolver) (id : string) : list PlanEdge :=
  default [] (ix_inboundByTarget (er_index r) !! id).

Section Resolution.
Context (NumberToJSON : spec_float → result string) (sha256Hex : string → string).
Context (validateJSONAgainstSchema : string → string → result unit).
#[local] Abbreviation DigestBytes := (Canonical.DigestBytes sha256Hex).
#[local] Abbreviation CanonicalizeJSON := (Canonical.CanonicalizeJSON NumberToJSON).
#[local] Abbreviation marshalRaw := (MapExec.marshalRaw NumberToJSON).

Definition newExecutionResolver (index : executionIndex) (graph : GraphIR) (input : string) : executionResolver :=
  {| er_index := index;
     er_outputs := {[ GetString (gi_StartNode graph) :=
       {| no_Artifact := {| da_Key := ""; da_Hash := DigestBytes input; da_ContentType := jsonContentType;
                            da_Schema := GetString (gi_InputSchema graph) |};
          no_Published := zeroPublished; no_Body := input |} ]};
     er_selectedCases := ∅; er_inactive := ∅ |}.

(** The body a source produced, for the node [id]. *)
Definition outputBody (r : executionResolver) (id source : string) : result string :=
  match er_outputs r !! source with
  | Some output => Ok (no_Body output)
  | None => Err (Errorf "missing output from %q for %q" [AStr source; AStr id])
  end.

Definition inputForNode (r : executionResolver) (node : PlanNode) : result string :=
  let id := GetString (pn_Id node) in
  let inbound := inboundOf r id in
  match pn_MergeInputs node with
  | [] =>
      match inbound with
      | [edge] => outputBody r id (GetString (pe_From edge))
      | _ => Err (Errorf "local runner v0 requires exactly one input edge for %q" [AStr id])
      end
  | mergeInputs =>
      _ ← foldErr (λ _ source,
            if existsb (λ edge, eqs (GetString (pe_From edge)) source) inbound then Ok tt
            else Err (Errorf "merge step %q is missing edge from %q" [AStr id; AStr source])) tt mergeInputs;
      if negb (length inbound =? length mergeInputs)%nat then
        Err (Errorf "merge step %q has edges that are not declared merge inputs" [AStr id])
      else
        values ← mapErr (outputBody r id) mergeInputs;
        wrapErr "encode merge input for %q: %w" [AStr id] (marshalRaw values)
  end.

(** The members of the classifier value; a JSON null is the nil map. *)
Definition objectMembers (input : string) : option (list (string * json)) :=
  match unmarshal input with
  | Some (JObj members) => Some members
  | Some JNull => Some []
  | _ => None
  end.
(** [json.Unmarshal(rawTag, &tag)] into a string, which null leaves empty. *)
Definition stringValue (v : json) : option string :=
  match v with JStr s => Some s | JNull => Some "" | _ => None end.

(** The loop over the declared cases. *)
Fixpoint selectCase (node : PlanNode) (tag input : string) (schemas : gmap string string) (cases : list PlanCase)
    : result string :=
  let id := AStr (GetString (pn_Id node)) in
  match cases with
  | [] => Err (Errorf "decision %q selector %q selected an undeclared case" [id; AStr (GetString (pn_Selector node))])
  | decisionCase :: rest =>
      if negb (eqs (GetString (pk_Tag decisionCase)) tag) then selectCase node tag input schemas rest
      else
        let schema := default "" (schemas !! GetString (pk_Schema decisionCase)) in
        if eqs schema "" then
          Err (Errorf "decision %q case %q references unavailable schema %q"
            [id; AStr tag; AStr (GetString (pk_Schema decisionCase))])
        else if isOk (validateJSONAgainstSchema schema input) then Ok tag
        else Err (Errorf "decision %q selected case %q does not satisfy its schema" [id; AStr tag])
  end.

Definition decisionCaseForValue (node : PlanNode) (input : string) (schemas : gmap string string) : result string :=
  let id := AStr (GetString (pn_Id node)) in
  let selector := GetString (pn_Selector node) in
  match objectMembers input with
  | None => Err (Errorf "decision %q selector %q requires a JSON object: %w"
              [id; AStr selector; AWrap (ErrNew "json: invalid JSON")])
  | Some members =>
      match member selector members with
      | None => Err (Errorf "decision %q selector %q is missing" [id; AStr selector])
      | Some rawTag =>
          match stringValue rawTag with
          | None => Err (Errorf "decision %q selector %q must be a string" [id; AStr selector])
          | Some tag => selectCase node tag input schemas (pn_Cases node)
          end
      end
  end.

Definition routeDecision (r : executionResolver) (node : PlanNode) : result (string * executionResolver) :=
  let id := GetString (pn_Id node) in
  match inboundOf r id with
  | [edge] =>
      let source := GetString (pe_From edge) in
      inputBytes ← wrapErr "decision %q input: %w" [AStr id] (inputForNode r node);
      match er_outputs r !! source with
      | None => Err (Errorf "decision %q input source %q has no output" [AStr id; AStr source])
      | Some input =>
          if negb (eqs (da_Schema (no_Artifact input)) (GetString (pn_InputSchema node))) then
            Err (Errorf "decision %q input schema %q does not match declared schema %q"
              [AStr id; AStr (da_Schema (no_Artifact input)); AStr (GetString (pn_InputSchema node))])
          else
            tag ← decisionCaseForValue node inputBytes (ix_schemaJSON (er_index r));
            Ok (tag, er_setOutput id input (er_setSelected id tag r))
      end
  | _ => Err (Errorf "decision %q requires exactly one input edge" [AStr id])
  end.

(** The first select input of a case. *)
Definition selectInputFor (node : PlanNode) (tag : string) : option PlanSelectInput :=
  head (filter (λ input, GetString (pi_Case input) = tag) (pn_SelectInputs node)).

Definition selectOutput (r : executionResolver) (node : PlanNode) : result executionResolver :=
  let id := GetString (pn_Id node) in
  let decision := GetString (pn_DecisionRef node) in
  match er_selectedCases r !! decision with
  | None => Err (Errorf "select %q has no durable selection for decision %q" [AStr id; AStr decision])
  | Some tag =>
      match selectInputFor node tag with
      | None => Err (Errorf "select %q has no input for selected case %q" [AStr id; AStr tag])
      | Some input =>
          match er_outputs r !! GetString (pi_Source input) with
          | None => Err (Errorf "select %q selected source %q has no output" [AStr id; AStr (GetString (pi_Source input))])
          | Some output =>
              if negb (eqs (da_Schema (no_Artifact output)) (GetString (pn_OutputSchema node))) then
                Err (Errorf "select %q output schema %q does not match selected source schema %q"
                  [AStr id; AStr (GetString (pn_OutputSchema node)); AStr (da_Schema (no_Artifact output))])
              else Ok (er_setOutput id output r)
          end
      end
  end.

(** The loop over the inbound edges of a node that is not a select. *)
Fixpoint inboundGate (r : executionResolver) (id : string) (edges : list PlanEdge) : result (option SkipReason) :=
  match edges with
  | [] => Ok None
  | edge :: rest =>
      let from := GetString (pe_From edge) in
      match er_inactive r !! from with
      | Some reason => Ok (Some reason)
      | None =>
          if eqs (GetString (pe_Case edge)) "" then inboundGate r id rest
          else
            match er_selectedCases r !! from with
            | None => Err (Errorf "conditional node %q depends on unresolved decision %q" [AStr id; AStr from])
            | Some selectedCase =>
                if eqs selectedCase (GetString (pe_Case edge)) then inboundGate r id rest
                else Ok (Some {| sk_Kind := "decision-not-selected"; sk_DecisionID := from;
                                 sk_Case := GetString (pe_Case edge) |})
            end
      end
  end.

Definition activationSkipReason (r : executionResolver) (node : PlanNode) : result (option SkipReason) :=
  let id := GetString (pn_Id node) in
  if eqs (planKind node) "select" then
    let decision := GetString (pn_DecisionRef node) in
    match er_inactive r !! decision with
    | Some reason => Ok (Some reason)
    | None =>
        match er_selectedCases r !! decision with
        | None => Err (Errorf "select %q depends on unresolved decision %q" [AStr id; AStr decision])
        | Some selectedCase =>
            match selectInputFor node selectedCase with
            | None => Err (Errorf "select %q has no input for selected case %q" [AStr id; AStr selectedCase])
            | Some input =>
                match er_inactive r !! GetString (pi_Source input) with
                | Some reason =>
                    Err (Errorf "select %q selected source %q is inactive because decision %q did not select case %q"
                      [AStr id; AStr (GetString (pi_Source input)); AStr (sk_DecisionID reason); AStr (sk_Case reason)])
                | None => Ok None
                end
            end
        end
    end
  else inboundGate r id (inboundOf r id).

(** ** control.go *)
Record ControlValue := { cv_Value : string; cv_CaseIndex : option Z }.

(** [for index, candidate := range node.GetCases()] *)
Fixpoint caseIndex (tag : string) (index : Z) (cases : list PlanCase) : option Z :=
  match cases with
  | [] => None
  | candidate :: rest => if eqs (GetString (pk_Tag candidate)) tag then Some index else caseIndex tag (index + 1) rest
  end.

Definition controlNode (schemas : gmap string string) (input : string) (node : PlanNode) (nodeID : string)
    : result ControlValue :=
  if eqs (planKind node) "decision" then
    tag ← decisionCaseForValue node input schemas;
    match caseIndex tag 0 (pn_Cases node) with
    | Some index => Ok {| cv_Value := input; cv_CaseIndex := Some index |}
    | None => Err (Errorf "decision %q selected an unavailable case" [AStr nodeID])
    end
  else if eqs (planKind node) "select" then
    match schemas !! GetString (pn_OutputSchema node) with
    | None => Err (Errorf "select %q output schema is unavailable" [AStr nodeID])
    | Some schema =>
        if isOk (validateJSONAgainstSchema schema input) then Ok {| cv_Value := input; cv_CaseIndex := None |}
        else Err (Errorf "select %q value does not satisfy its output schema" [AStr nodeID])
    end
  else Err (Errorf "node %q is not a decision or select" [AStr nodeID]).

(** [p.GetGraph().GetNodes()]: the getter of a nil graph. *)
Definition ResolveControlValue (p : WorkflowPlan) (nodeID inputJSON : string) : result ControlValue :=
  input ← CanonicalizeJSON inputJSON;
  let schemas := mapBy (λ s, GetString (se_Hash s)) (λ s, GetString (se_CanonicalJson s)) (wp_Schemas p) in
  let nodes := match wp_Graph p with Some graph => gi_Nodes graph | None => [] end in
  match head (filter (λ node, GetString (pn_Id node) = nodeID) nodes) with
  | Some node => controlNode schemas input node nodeID
  | None => Err (Errorf "control node %q is unavailable in the plan" [AStr nodeID])
  end.
End Resolution.
