(* ===== verification/World.v ===== *)
(** * The world of a run

    What [internal/orchestrator] calls besides its own code: the clock and the lifetimes of
    contexts, the datastore, the file system and the step invoker.  [World] states these
    as operations on one state; a context is part of that state, and a lifetime that
    begins with [context.WithTimeout] and ends with its [stop] is an [enter] and a
    [leave].  [M] is the monad of the run: the mutable variables of [Run] and the world,
    threaded through computations that may fail. *)

From S2P Require Import Prelude Utf16 Text SpecTypes PlanTypes Json Canonical SourceIdentity Journal JournalOps Datastore Encode Artifact MapExec Retry Index Resolution.
From Stdlib Require Import SpecFloat Ascii.
#[local] Open Scope Z_scope.

(** ** The text of a journal: [journalTree] is the tree the encoder makes of a manifest, before
    [canonical.Marshal] prints it.  [omitempty] drops an empty string and a nil pointer. *)
Definition fatalTree (f : FatalFailure) : json :=
  JObj ([("message", JStr (ff_Message f))] ++ omitEmpty "type" (ff_Type f) ++ [("nodeId", JStr (ff_NodeID f))]).
Definition artifactRefTree (r : Journal.ArtifactRef) : json :=
  JObj [("key", JStr (ar_Key r)); ("hash", JStr (ar_Hash r)); ("size", JNum (itoa (ar_Size r)));
        ("contentType", JStr (ar_ContentType r))].
Definition dataArtifactTree (d : DataArtifact) : json :=
  JObj [("key", JStr (da_Key d)); ("hash", JStr (da_Hash d)); ("contentType", JStr (da_ContentType d));
        ("schema", JStr (da_Schema d))].
Definition publishedTree (p : PublishedArtifact) : json :=
  JObj [("manifest", artifactRefTree (pa_Manifest p)); ("body", artifactRefTree (pa_Body p));
        ("schema", JStr (pa_Schema p))].
Definition environmentTree (e : RunEnvironment) : json :=
  JObj [("requirementHash", JStr (re_RequirementHash e)); ("realizationHash", JStr (re_RealizationHash e));
        ("record", artifactRefTree (re_Record e))].
Definition skipTree (r : SkipReason) : json :=
  JObj [("kind", JStr (sk_Kind r)); ("decisionId", JStr (sk_DecisionID r)); ("case", JStr (sk_Case r))].
Definition attemptTree (a : Attempt) : json :=
  JObj ([("attempt", JNum (itoa (att_Attempt a))); ("status", JStr (att_Status a));
         ("input", dataArtifactTree (att_Input a))] ++
        omitNil "output" publishedTree (att_Output a) ++ omitEmpty "diagnostic" (att_Diagnostic a)).
Definition itemTree (i : MapItem) : json :=
  JObj ([("index", JNum (itoa (mi_Index i))); ("status", JStr (mi_Status i));
         ("attempts", JArr (map attemptTree (mi_Attempts i)))] ++ omitEmpty "diagnostic" (mi_Diagnostic i)).
Definition stepTree (s : Step) : json :=
  JObj ([("nodeId", JStr (st_NodeID s)); ("status", JStr (st_Status s));
         ("attempts", JArr (map attemptTree (st_Attempts s)))] ++
        omitNil "items" (λ items, JArr (map itemTree items)) (st_Items s) ++
        omitEmpty "itemFailures" (st_ItemFailures s) ++ omitNil "skipReason" skipTree (st_SkipReason s)).
Definition decisionTree (d : Decision) : json :=
  JObj ([("nodeId", JStr (de_NodeID d)); ("status", JStr (de_Status d))] ++
        omitEmpty "selectedCase" (de_SelectedCase d) ++ omitEmpty "diagnostic" (de_Diagnostic d) ++
        omitNil "skipReason" skipTree (de_SkipReason d)).

Definition journalTree (m : Manifest) : json :=
  JObj ([("kind", JStr (mf_Kind m)); ("schemaVersion", JNum (itoa (mf_SchemaVersion m)));
         ("encoding", JStr (mf_Encoding m)); ("planHash", JStr (mf_PlanHash m));
         ("projectKey", JStr (mf_ProjectKey m)); ("runId", JStr (mf_RunID m)); ("status", JStr (mf_Status m))] ++
        omitEmpty "diagnostic" (mf_Diagnostic m) ++ omitNil "failure" fatalTree (mf_Failure m) ++
        [("environment", match mf_Environment m with Some e => environmentTree e | None => JNull end);
         ("steps", JArr (map stepTree (mf_Steps m))); ("decisions", JArr (map decisionTree (mf_Decisions m)))] ++
        omitNil "result" dataArtifactTree (mf_Result m) ++ omitNil "exitHook" stepTree (mf_ExitHook m)).

Record SourcePackageManifest := { sm_Root : string; sm_Files : list File }.
Record RunConfig := {
  rc_Plan : option WorkflowPlan;
  rc_DatastoreRoot : string;
  rc_ProjectID : string;
  rc_RunID : string;
  rc_SourcePackageRoot : string;
  rc_SourceManifests : gmap string SourcePackageManifest;
  rc_Environment : option RunEnvironment;
}.

Record StepInvocation := { in_Descriptor : StepInvocationDescriptor; in_Timeout : Z }.
Record StepInvocationBatch := { sb_Steps : list StepInvocation; sb_MaxConcurrency : Z }.

(** The contexts of a run: its deadline, a detached budget for publication or verification,
    and the lifetime of the exit hook (fresh signals, then the contract's timeout). *)
Inductive lifetime : Type :=
  | RunDeadline (seconds : Z)
  | Detached (nanoseconds : Z)
  | HookLifetime (nanoseconds : Z).

Class World (W : Type) `{Datastore W} := {
  ctxErr : W → option string * W;
  ctxCause : W → option error;
  enter : lifetime → W → W;
  leave : lifetime → W → W;
  timerOrDone : Z → W → bool * W;
  now : W → string * W;
  newUUID : W → string * W;
  absPath : string → W → result string * W;
  openStore : string → W → result unit * W;
  ensureSourceSnapshot : string → string → string → list File → W → result unit * W;
  deterministicSourceArchive : string → list File → W → result string * W;
  InvokeSteps : StepInvocationBatch → W → (list StepInvocationOutcome * option error) * W;
  AfterStepInvocation : option (StepInvocationDescriptor → W → option error * W);
}.

(** ** The monad of a run *)

(** The variables [Run] shares with the functions it calls and with its deferred calls.
    [rn_packages] is [index.packagesByID], nil until the sources are materialized. *)
Record RunState (W : Type) := mkRun {
  rn_world : W;
  rn_manifest : Manifest;
  rn_resolution : executionResolver;
  rn_packages : option (gmap string sourcePackageArtifact);
  rn_activeNodeID : string;
  rn_dispatchedNodes : gset string;
}.
Arguments mkRun {W} _ _ _ _ _ _.
Arguments rn_world {W} _.
Arguments rn_manifest {W} _.
Arguments rn_resolution {W} _.
Arguments rn_packages {W} _.
Arguments rn_activeNodeID {W} _.
Arguments rn_dispatchedNodes {W} _.

Definition M (W A : Type) : Type := RunState W → result A * RunState W.
#[global] Instance M_ret {W} : MRet (M W) := λ A a s, (Ok a, s).
#[global] Instance M_bind {W} : MBind (M W) := λ A B f m s,
  match m s with (Ok a, s') => f a s' | (Err e, s') => (Err e, s') end.

Section Monad.
Context {W : Type}.

(** [return ..., err] *)
Definition fail {A} (e : error) : M W A := λ s, (Err e, s).
Definition lift {A} (r : result A) : M W A := λ s, (r, s).
(** [x, err := m]; a panic unwinds. *)
Definition attempt {A} (m : M W A) : M W (result A) := λ s,
  match m s with
  | (Ok a, s') => (Ok (Ok a), s')
  | (Err e, s') => if isPanic e then (Err e, s') else (Ok (Err e), s')
  end.
Definition get : M W (RunState W) := λ s, (Ok s, s).
Definition setWorld (w : W) (s : RunState W) : RunState W :=
  mkRun w (rn_manifest s) (rn_resolution s) (rn_packages s) (rn_activeNodeID s) (rn_dispatchedNodes s).
(** An operation of the world. *)
Definition op {A} (f : W → A * W) : M W A := λ s, let '(a, w) := f (rn_world s) in (Ok a, setWorld w s).
Definition opErr {A} (f : W → result A * W) : M W A := λ s, let '(r, w) := f (rn_world s) in (r, setWorld w s).
Definition modify (f : Manifest → Manifest) : M W unit := λ s,
  (Ok tt, mkRun (rn_world s) (f (rn_manifest s)) (rn_resolution s) (rn_packages s) (rn_activeNodeID s)
    (rn_dispatchedNodes s)).
Definition modifyErr (f : Manifest → result Manifest) : M W unit := λ s,
  match f (rn_manifest s) with Ok m => modify (λ _, m) s | Err e => (Err e, s) end.
Definition setResolution (r : executionResolver) : M W unit := λ s,
  (Ok tt, mkRun (rn_world s) (rn_manifest s) r (rn_packages s) (rn_activeNodeID s) (rn_dispatchedNodes s)).
Definition setPackages (p : gmap string sourcePackageArtifact) : M W unit := λ s,
  (Ok tt, mkRun (rn_world s) (rn_manifest s) (rn_resolution s) (Some p) (rn_activeNodeID s) (rn_dispatchedNodes s)).
Definition setActive (id : string) : M W unit := λ s,
  (Ok tt, mkRun (rn_world s) (rn_manifest s) (rn_resolution s) (rn_packages s) id (rn_dispatchedNodes s)).
Definition addDispatched (id : string) : M W unit := λ s,
  (Ok tt, mkRun (rn_world s) (rn_manifest s) (rn_resolution s) (rn_packages s) (rn_activeNodeID s)
    ({[id]} ∪ rn_dispatchedNodes s)).

(** Loops whose body may return early. *)
Fixpoint forEach {A} (f : A → M W unit) (l : list A) : M W unit :=
  match l with [] => mret tt | x :: rest => _ ← f x; forEach f rest end.
Fixpoint foldM {A B} (f : B → A → M W B) (acc : B) (l : list A) : M W B :=
  match l with [] => mret acc | x :: rest => acc' ← f acc x; foldM f acc' rest end.
End Monad.

(** ** Functions that call the world *)
Section Calls.
Context (NumberToJSON : spec_float → result string) (sha256Hex : string → string).
Context (ValidateJSONSchema : string → string → result unit) (validateManifestSchema : string → result unit).
Context {W : Type} `{World W}.

#[local] Abbreviation Marshal := (Encode.Marshal NumberToJSON).
#[local] Abbreviation DigestBytes := (Canonical.DigestBytes sha256Hex).

(** A body under a lifetime of its own. *)
Definition within {A} (k : lifetime) (f : W → A * W) : W → A * W := λ w,
  let '(a, w') := f (enter k w) in (a, leave k w').

Definition putJSON (key : Key) (body : string) : W → result ObjectInfo * W :=
  Put key body {| po_ContentType := jsonContentType; po_IfAbsent := false |}.

Definition writeRunManifest (key : Key) (manifest : Manifest) (w : W) : result unit * W :=
  match Marshal (journalTree manifest) with
  | Err e => (Err (Errorf "marshal run manifest: %w" [AWrap e]), w)
  | Ok body =>
      match putJSON key body w with
      | (Ok _, w') => (Ok tt, w')
      | (Err e, w') => (Err (Errorf "write run manifest %s: %w" [AStr (key_value key); AWrap e]), w')
      end
  end.

(** [if err := ctx.Err(); err != nil { return err }] *)
Definition checkCtx (w : W) : result unit * W :=
  match ctxErr w with (Some e, w') => (Err (ErrNew e), w') | (None, w') => (Ok tt, w') end.

Definition waitBeforeRetry (delay : Z) (w : W) : result unit * W :=
  if delay <=? 0 then checkCtx w
  else let '(done, w') := timerOrDone delay w in if done then checkCtx w' else (Ok tt, w').

Definition resolveOutputArtifact (index : executionIndex) (d : StepInvocationDescriptor) (w : W) : result nodeOutput :=
  if negb (bool_decide (xo_Schema (sd_Output d) ∈ ix_schemaRefs index)) then
    Err (Errorf "output schema ref %s is not present in the plan" [AStr (xo_Schema (sd_Output d))])
  else
    manifestKey ← ParseKey (xo_ManifestKey (sd_Output d));
    '(published, body) ← wrapErr "resolve output artifact manifest %s: %w" [AStr (key_value manifestKey)]
      (ResolveJSON NumberToJSON sha256Hex ValidateJSONSchema validateManifestSchema
        {| ds_ManifestKey := manifestKey; ds_Schema := xo_Schema (sd_Output d) |} (descriptorProducer d) w);
    Ok (nodeOutputFromPublished published body).

Definition verifyInvocation (index : executionIndex) (d : StepInvocationDescriptor) (w : W) : result nodeOutput * W :=
  match AfterStepInvocation with
  | None => (resolveOutputArtifact index d w, w)
  | Some after =>
      match after d w with
      | (Some e, w') => (Err e, w')
      | (None, w') => (resolveOutputArtifact index d w', w')
      end
  end.

Definition settleInvocation (index : executionIndex) (d : StepInvocationDescriptor) : W → result nodeOutput * W :=
  if eqs (kindAt (ix_nodesByID index) (sd_NodeID d)) "exit-hook" then verifyInvocation index d
  else within (Detached (30 * Second)) (verifyInvocation index d).

Definition resultForEnd (projectKey runID endNode : string) (r : executionResolver) (w : W) : result DataArtifact * W :=
  match inboundOf r endNode with
  | [edge] =>
      let source := GetString (pe_From edge) in
      match er_outputs r !! source with
      | None => (Err (Errorf "missing output from %q for %q" [AStr source; AStr endNode]), w)
      | Some output =>
          match runResultKey projectKey runID with
          | Err e => (Err e, w)
          | Ok key =>
              match putJSON key (no_Body output) w with
              | (Err e, w') => (Err (Errorf "write result artifact: %w" [AWrap e]), w')
              | (Ok _, w') =>
                  (Ok {| da_Key := key_value key; da_Hash := DigestBytes (no_Body output);
                         da_ContentType := jsonContentType; da_Schema := da_Schema (no_Artifact output) |}, w')
              end
          end
      end
  | _ => (Err (Errorf "local runner v0 requires exactly one input edge for %q" [AStr endNode]), w)
  end.

(** *** Materialization *)

(** [err != nil && !errors.Is(err, datastore.ErrAlreadyExists)] *)
Definition ignoreExisting {A} (format : string) (args : list errArg) (r : result A) : result unit :=
  match r with
  | Ok _ => Ok tt
  | Err e => if isErr e ErrAlreadyExists then Ok tt else Err (Errorf format (args ++ [AWrap e]))
  end.

Definition materializeSchema (entry : SchemaEntry) (w : W) : result unit * W :=
  let hash := GetString (se_Hash entry) in
  let body := GetString (se_CanonicalJson entry) in
  match wrapErr "schema %s: %w" [AStr hash] (verifyDigest sha256Hex hash body), blobKeyForHash hash with
  | Err e, _ => (Err e, w)
  | Ok _, Err e => (Err e, w)
  | Ok _, Ok key =>
      let '(r, w') := putJSON key body w in
      (ignoreExisting "write schema blob %s: %w" [AStr (key_value key)] r, w')
  end.

Definition recomputeSourcePackageHash (files : list File) : result string := SourceIdentity.Digest NumberToJSON sha256Hex files.

(** [filepath.Join(storeRoot, ".snapshots", segment)] *)
Definition sourceSnapshotDir (storeRoot packageHash : string) : string :=
  Clean ((if eqs storeRoot "" then "" else storeRoot +:+ "/") +:+ ".snapshots/" +:+ dashed packageHash).

(** The checks that need no file: the manifest is the one the plan was compiled from. *)
Definition packageManifest (config : RunConfig) (sourcePackage : SourcePackageRef) : result SourcePackageManifest :=
  let packageID := GetString (kr_PackageId sourcePackage) in
  match rc_SourceManifests config !! packageID with
  | None => Err (Errorf "source package %q has no file manifest; cannot verify source integrity before running"
              [AStr packageID])
  | Some manifest =>
      recomputed ← wrapErr "recompute source package hash for %q: %w" [AStr packageID]
        (recomputeSourcePackageHash (sm_Files manifest));
      if eqs recomputed (GetString (kr_PackageHash sourcePackage)) then Ok manifest
      else Err (Errorf "source package %q drifted since compile: its manifest recomputes to %s but the plan records package hash %s"
             [AStr packageID; AStr recomputed; AStr (GetString (kr_PackageHash sourcePackage))])
  end.

(** The verified snapshot, packed. *)
Definition snapshotArchive (storeRoot sourceRoot packageID packageHash : string) (files : list File) (w : W)
    : result string * W :=
  match absPath sourceRoot w with
  | (Err e, w1) => (Err (Errorf "resolve source package root for %q: %w" [AStr packageID; AWrap e]), w1)
  | (Ok root, w1) =>
      let snapshotDir := sourceSnapshotDir storeRoot packageHash in
      match ensureSourceSnapshot storeRoot root snapshotDir files w1 with
      | (Err e, w2) => (Err e, w2)
      | (Ok _, w2) =>
          let '(archive, w3) := deterministicSourceArchive snapshotDir files w2 in
          (wrapErr "package source archive for %q: %w" [AStr packageID] archive, w3)
      end
  end.

Definition archiveArtifact (sourcePackage : SourcePackageRef) (archive : string) : sourcePackageArtifact :=
  let packageHash := GetString (kr_PackageHash sourcePackage) in
  let bodyHash := DigestBytes archive in
  {| sa_PackageID := GetString (kr_PackageId sourcePackage); sa_Language := GetString (kr_Language sourcePackage);
     sa_PackageHash := packageHash; sa_Key := sourceArchiveKey packageHash bodyHash; sa_ArchiveHash := bodyHash;
     sa_ContentType := SourceArchiveContentType |}.

Definition materializePackage (config : RunConfig) (packages : gmap string sourcePackageArtifact)
    (sourcePackage : SourcePackageRef) (w : W) : result (gmap string sourcePackageArtifact) * W :=
  let packageID := GetString (kr_PackageId sourcePackage) in
  let packageHash := GetString (kr_PackageHash sourcePackage) in
  match packageManifest config sourcePackage with
  | Err e => (Err e, w)
  | Ok manifest =>
      let sourceRoot := if eqs (sm_Root manifest) "" then rc_SourcePackageRoot config else sm_Root manifest in
      match snapshotArchive (rc_DatastoreRoot config) sourceRoot packageID packageHash (sm_Files manifest) w with
      | (Err e, w1) => (Err e, w1)
      | (Ok archive, w1) =>
          let artifact := archiveArtifact sourcePackage archive in
          match MustKey (sa_Key artifact) with
          | Err e => (Err e, w1)
          | Ok key =>
              let '(r, w2) := Put key archive {| po_ContentType := SourceArchiveContentType; po_IfAbsent := true |} w1 in
              (_ ← ignoreExisting "write source package artifact for %q: %w" [AStr packageID] r;
               Ok (<[packageID := artifact]> packages), w2)
          end
      end
  end.

(** A loop that threads the world. *)
Fixpoint worldFold {A B} (f : B → A → W → result B * W) (acc : B) (l : list A) (w : W) : result B * W :=
  match l with
  | [] => (Ok acc, w)
  | x :: rest => match f acc x w with (Ok acc', w') => worldFold f acc' rest w' | (Err e, w') => (Err e, w') end
  end.

Definition materializePrerequisites (config : RunConfig) (plan : WorkflowPlan) (w : W)
    : result (gmap string sourcePackageArtifact) * W :=
  match worldFold (λ _ entry, materializeSchema entry) tt (wp_Schemas plan) w with
  | (Err e, w1) => (Err e, w1)
  | (Ok _, w1) => worldFold (materializePackage config) ∅ (wp_SourcePackages plan) w1
  end.
End Calls.
