(* ===== verification/StepRun.v ===== *)
(** * Running a step

    The [case "step"] of the loop of [Run] ([internal/orchestrator/orchestrator.go]): the
    input artifact, the attempts, what an outcome does to the journal and when another
    attempt is made.  Observations for progress sinks ([runEvents]) do not feed back into a
    run and are left out. *)

From S2P Require Import Prelude Utf16 Text SpecTypes PlanTypes Json Canonical SourceIdentity Datastore Encode Artifact Journal JournalOps MapExec Retry Index Resolution World.
From Stdlib Require Import SpecFloat.
#[local] Open Scope Z_scope.

Section StepRun.
Context (NumberToJSON : spec_float → result string) (sha256Hex : string → string).
Context (ValidateJSONSchema : string → string → result unit) (validateManifestSchema : string → result unit).
Context {W : Type} `{World W}.
#[local] Abbreviation DigestBytes := (Canonical.DigestBytes sha256Hex).

(** What [Run] fixes before its loop. *)
Context (planHash storeRoot projectKey runID : string) (manifestKey : Key) (index : executionIndex).

(** The index the loop uses, with the packages once they are materialized. *)
Definition indexOf (s : RunState W) : executionIndex := ix_setPackages (default ∅ (rn_packages s)) index.
Definition binding : DatastoreDescriptor := LocalDatastoreDescriptor storeRoot.

(** [writeRunManifest] of the current manifest, in the context of the run, and on a
    detached budget that survives its cancellation. *)
Definition publish : M W unit :=
  s ← get; opErr (writeRunManifest NumberToJSON manifestKey (rn_manifest s)).
Definition publishDetached : M W unit :=
  s ← get; opErr (within (Detached (5 * Second)) (writeRunManifest NumberToJSON manifestKey (rn_manifest s))).

Definition dataInput (key : Key) (body schema : string) : DataArtifact :=
  {| da_Key := key_value key; da_Hash := DigestBytes body; da_ContentType := jsonContentType; da_Schema := schema |}.

(** [store.Put(ctx, MustKey(input.Key), body, JSON)], the error wrapped. *)
Definition putInput (input : DataArtifact) (body format : string) (args : list errArg) : M W unit :=
  key ← lift (MustKey (da_Key input));
  r ← attempt (opErr (putJSON key body));
  _ ← lift (wrapErr format args r);
  mret tt.

(** The status and durable diagnostic of an outcome that did not succeed. *)
Definition unsuccessful (outcome : StepInvocationOutcome) : string * string :=
  let '(status, diagnostic) :=
    if eqs (so_Status outcome) StatusCancelled then (StatusCancelled, "invocation cancelled")
    else (StatusFailed, durableRunnerDiagnostic outcome) in
  (status, if eqs (so_Status outcome) stepInvocationStatusInfraFailed then "invocation infrastructure failed"
           else diagnostic).

Definition fatalError (f : FatalFailure) : error := FatalRunError (ff_Message f) (ff_Type f) (ff_NodeID f).

(** The error of a step that failed for good. *)
Definition stepError (policy : executionPolicy) (n : Z) (outcome : StepInvocationOutcome) (invokeErr : option error)
    : M W unit :=
  match so_Fatal outcome, invokeErr with
  | Some fatal, _ => fail (fatalError fatal)
  | None, Some e => fail e
  | None, None =>
      _ ← (if eqs (so_Status outcome) StatusCancelled then opErr checkCtx else mret tt);
      fail (ErrNew (runnerDiagnostic outcome +:+ attemptSuffix n policy))
  end.

(** An outcome that did not succeed: another attempt ([true]), or the end of the step. *)
Definition settleFailure (id : string) (policy : executionPolicy) (n : Z) (outcome : StepInvocationOutcome)
    (invokeErr : option error) : M W bool :=
  let '(status, diagnostic) := unsuccessful outcome in
  if bool_decide (invokeErr = None) && (n <? ep_maxAttempts policy) && retryableOutcome outcome then
    _ ← modify (markAttemptRetrying id diagnostic);
    _ ← publish;
    _ ← opErr (waitBeforeRetry (delayBefore policy (n + 1)));
    mret true
  else
    _ ← modify (markAttemptTerminal id status diagnostic);
    _ ← stepError policy n outcome invokeErr;
    mret false.

(** A successful outcome remains useful even if cancellation arrived meanwhile. *)
Definition settleSuccess (id : string) (descriptor : StepInvocationDescriptor) (invokeErr : option error) : M W bool :=
  s ← get;
  verified ← attempt (opErr (settleInvocation NumberToJSON sha256Hex ValidateJSONSchema validateManifestSchema
    (indexOf s) descriptor));
  match verified with
  | Err e =>
      _ ← modify (markAttemptTerminal id StatusFailed "output verification failed");
      fail e
  | Ok output =>
      s ← get;
      _ ← setResolution (er_setOutput id output (rn_resolution s));
      _ ← modifyErr (markAttemptSucceeded id (no_Published output));
      _ ← publishDetached;
      match invokeErr with Some e => fail e | None => mret false end
  end.

(** One round of [for attempt := 1; ; attempt++]; [true] is its [continue]. *)
Definition stepAttempt (node : PlanNode) (input : DataArtifact) (policy : executionPolicy) (n : Z) : M W bool :=
  let id := GetString (pn_Id node) in
  s ← get;
  descriptor ← lift (descriptorForStep planHash binding projectKey runID node input (indexOf s) n);
  _ ← modify (markAttemptRunning id n input);
  _ ← publish;
  '(outcomes, invokeErr) ← op (InvokeSteps
    {| sb_Steps := [{| in_Descriptor := descriptor; in_Timeout := ep_timeout policy |}]; sb_MaxConcurrency := 0 |});
  match outcomes, invokeErr with
  | [outcome], _ =>
      _ ← addDispatched id;
      if eqs (so_Status outcome) StatusSucceeded then settleSuccess id descriptor invokeErr
      else settleFailure id policy n outcome invokeErr
  | [], Some e => _ ← modify (dropUndispatchedAttempt id); fail e
  | _, _ => fail (Errorf "step invoker returned %d outcomes, want 1" [AInt (Z.of_nat (length outcomes))])
  end.

(** A round continues only while [n < maxAttempts], so [maxAttempts] rounds are enough. *)
Fixpoint stepAttempts (fuel : nat) (node : PlanNode) (input : DataArtifact) (policy : executionPolicy) (n : Z)
    : M W unit :=
  match fuel with
  | O => fail (PanicError "attempts beyond the policy")
  | S fuel' =>
      again ← stepAttempt node input policy n;
      if (again : bool) then stepAttempts fuel' node input policy (n + 1) else mret tt
  end.

Definition policyOf (node : PlanNode) : executionPolicy :=
  policyForContract (ix_contractsByRef index !! GetString (pn_ContractRef node)).

Definition runStep (node : PlanNode) : M W unit :=
  let id := GetString (pn_Id node) in
  s ← get;
  inputBytes ← lift (inputForNode NumberToJSON (rn_resolution s) node);
  key ← lift (runInputKey projectKey runID id None);
  let input := dataInput key inputBytes (GetString (pn_InputSchema node)) in
  _ ← putInput input inputBytes "write input artifact for %s: %w" [AStr id];
  let policy := policyOf node in
  stepAttempts (Z.to_nat (ep_maxAttempts policy)) node input policy 1.
End StepRun.
