(* ===== verification/MapRun.v ===== *)
(** * Running a map

    [runMapNode] ([internal/orchestrator/orchestrator.go]): the expansion of the input
    array, the rounds of item invocations, the journal of every item, retries, collected
    failures and the publication of the collection. *)

From S2P Require Import Prelude Utf16 Text SpecTypes PlanTypes Json Canonical SourceIdentity Datastore Encode Artifact Journal JournalOps MapExec Retry Index Resolution World StepRun.
From Stdlib Require Import SpecFloat.
#[local] Open Scope Z_scope.

(** ** Matching outcomes with items *)

(** The frame of an outcome that names an item of this map and attempt. *)
Definition outcomeFrame (mapID : string) (n : Z) (outcome : StepInvocationOutcome) : option MapItemScopeFrame :=
  if negb (eqs (so_NodeID outcome) mapID) || negb (so_Attempt outcome =? n) then None
  else
    match so_Scope outcome with
    | Some scope => match es_Frames scope with [frame] => Some frame | _ => None end
    | None => None
    end.

Definition addOutcome (mapID : string) (n : Z) (dispatched : list Z) (byIndex : gmap Z StepInvocationOutcome)
    (outcome : StepInvocationOutcome) : result (gmap Z StepInvocationOutcome) :=
  match outcomeFrame mapID n outcome with
  | None => Err (ErrNew "map invoker returned an outcome without the expected scoped identity")
  | Some frame =>
      if negb (eqs (fr_Kind frame) "map-item") || negb (eqs (fr_MapID frame) mapID) ||
         negb (bool_decide (fr_Index frame ∈ dispatched)) then
        Err (ErrNew "map invoker returned an outcome outside the map item scope")
      else if bool_decide (is_Some (byIndex !! fr_Index frame)) then
        Err (Errorf "map invoker returned duplicate outcome for item %d" [AInt (fr_Index frame)])
      else Ok (<[fr_Index frame := outcome]> byIndex)
  end.

Definition mapOutcomesByIndex (mapID : string) (n : Z) (outcomes : list StepInvocationOutcome) (dispatched : list Z)
    (requireComplete : bool) : result (gmap Z StepInvocationOutcome) :=
  if requireComplete && negb (length outcomes =? length dispatched)%nat then
    Err (Errorf "map invoker returned %d outcomes, want %d"
      [AInt (Z.of_nat (length outcomes)); AInt (Z.of_nat (length dispatched))])
  else
    byIndex ← foldErr (addOutcome mapID n dispatched) ∅ outcomes;
    if requireComplete && negb (size byIndex =? length dispatched)%nat then
      Err (ErrNew "map invoker omitted an item outcome")
    else Ok byIndex.

(** The variables of the rounds: results and collected failures so far. *)
Record MapRounds := { mr_results : list Result; mr_failures : gmap Z Failure; mr_firstFailure : string }.
(** The variables of one round: the items to retry, each with the diagnostic of its
    failed attempt, and whether an item failed for good. *)
Record MapRound := { mq_rounds : MapRounds; mq_retry : list (Z * string); mq_terminal : bool }.

Definition noteFailure (message : string) (r : MapRounds) : MapRounds :=
  {| mr_results := mr_results r; mr_failures := mr_failures r;
     mr_firstFailure := if eqs (mr_firstFailure r) "" then message else mr_firstFailure r |}.

Section MapRun.
Context (NumberToJSON : spec_float → result string) (sha256Hex : string → string).
Context (ValidateJSONSchema : string → string → result unit) (validateManifestSchema : string → result unit).
Context {W : Type} `{World W}.
#[local] Abbreviation DigestBytes := (Canonical.DigestBytes sha256Hex).
Context (planHash storeRoot projectKey runID : string) (manifestKey : Key) (index : executionIndex).
#[local] Abbreviation publish := (StepRun.publish NumberToJSON manifestKey).
#[local] Abbreviation dataInput := (StepRun.dataInput sha256Hex).

(** [return nodeOutput{}, failMapNode(ctx, manifest, id, diagnostic, cause)] *)
Definition failMap {A} (id diagnostic : string) (cause : error) : M W A :=
  reason ← op ctxErr;
  let cancelled := match reason with Some e => errorsIs cause e | None => false end in
  _ ← modify (failMapNode cancelled id diagnostic);
  fail cause.

(** [if err != nil { return failMapNode(..., err) }] *)
Definition orFailMap {A} (id diagnostic : string) (m : M W A) : M W A :=
  r ← attempt m;
  match r with Ok a => mret a | Err e => failMap id diagnostic e end.

(** The input of one item. *)
Definition putItemInput (node : PlanNode) (inputs : list DataArtifact) (item : Item) : M W (list DataArtifact) :=
  let id := GetString (pn_Id node) in
  key ← lift (runInputKey projectKey runID id (Some (itemScope node (it_Index item))));
  let itemInput := dataInput key (it_Body item) (GetString (pn_ItemInputSchema node)) in
  _ ← orFailMap id "map item input publication failed"
        (putInput itemInput (it_Body item) "write map item %d input: %w" [AInt (it_Index item)]);
  mret (inputs ++ [itemInput]).

(** The invocations of a round, in source order. *)
Definition itemInvocation (node : PlanNode) (itemInputs : list DataArtifact) (idx : executionIndex)
    (policy : executionPolicy) (n itemIndex : Z) : result StepInvocation :=
  descriptor ← descriptorForMapItem planHash (binding storeRoot) projectKey runID node
    (default zeroDataArtifact (itemInputs !! Z.to_nat itemIndex)) idx itemIndex n;
  Ok {| in_Descriptor := descriptor; in_Timeout := ep_timeout policy |}.

(** Every reported dispatch is recorded before any verification can fail. *)
Definition recordDispatch (id : string) (itemInputs : list DataArtifact) (n : Z)
    (byIndex : gmap Z StepInvocationOutcome) (itemIndex : Z) : M W unit :=
  match byIndex !! itemIndex with
  | None => mret tt
  | Some outcome =>
      _ ← modify (markMapItemRunning id itemIndex n (default zeroDataArtifact (itemInputs !! Z.to_nat itemIndex)));
      _ ← (if eqs (so_Status outcome) StatusCancelled
           then modify (markMapItemTerminal id itemIndex StatusCancelled "invocation cancelled") else mret tt);
      if eqs (so_Status outcome) stepInvocationStatusInfraFailed
      then modify (markMapItemTerminal id itemIndex StatusFailed "invocation infrastructure failed") else mret tt
  end.

(** An item whose runner failed: retried, collected, or the end of the map. *)
Definition settleItemFailure (id : string) (policy : executionPolicy) (collectFailures : bool) (n : Z)
    (st : MapRound) (itemIndex : Z) (outcome : StepInvocationOutcome) : M W MapRound :=
  let diagnostic := durableRunnerDiagnostic outcome in
  if (n <? ep_maxAttempts policy) && retryableOutcome outcome then
    _ ← modify (markMapItemRetrying id itemIndex diagnostic);
    mret {| mq_rounds := mq_rounds st; mq_retry := mq_retry st ++ [(itemIndex, diagnostic)];
            mq_terminal := mq_terminal st |}
  else
    _ ← modify (markMapItemTerminal id itemIndex StatusFailed diagnostic);
    let '(failure, collected) := mapItemFailure outcome n in
    if collectFailures && collected then
      mret {| mq_rounds := {| mr_results := mr_results (mq_rounds st);
                              mr_failures := <[itemIndex := failure]> (mr_failures (mq_rounds st));
                              mr_firstFailure := mr_firstFailure (mq_rounds st) |};
              mq_retry := mq_retry st; mq_terminal := mq_terminal st |}
    else
      mret {| mq_rounds := noteFailure (runnerDiagnostic outcome +:+ attemptSuffix n policy) (mq_rounds st);
              mq_retry := mq_retry st; mq_terminal := true |}.

Definition settleItem (id : string) (policy : executionPolicy) (collectFailures : bool) (n : Z)
    (byIndex : gmap Z StepInvocationOutcome) (st : MapRound) (invocation : Z * StepInvocation) : M W MapRound :=
  let '(itemIndex, inv) := invocation in
  match byIndex !! itemIndex with
  | None => mret st
  | Some outcome =>
      if negb (eqs (so_Status outcome) StatusSucceeded) then
        if eqs (so_Status outcome) StatusCancelled || eqs (so_Status outcome) stepInvocationStatusInfraFailed
        then mret st
        else settleItemFailure id policy collectFailures n st itemIndex outcome
      else
        s ← get;
        verified ← attempt (opErr (settleInvocation NumberToJSON sha256Hex ValidateJSONSchema validateManifestSchema
          (er_index (rn_resolution s)) (in_Descriptor inv)));
        match verified with
        | Err e =>
            _ ← modify (markMapItemTerminal id itemIndex StatusFailed "map item output verification failed");
            mret {| mq_rounds := noteFailure (errorText e) (mq_rounds st); mq_retry := mq_retry st;
                    mq_terminal := true |}
        | Ok output =>
            _ ← modifyErr (markMapItemSucceeded id itemIndex (no_Published output));
            mret {| mq_rounds := {| mr_results := mr_results (mq_rounds st) ++
                                      [{| rs_Index := itemIndex; rs_Body := no_Body output |}];
                                    mr_failures := mr_failures (mq_rounds st);
                                    mr_firstFailure := mr_firstFailure (mq_rounds st) |};
                    mq_retry := mq_retry st; mq_terminal := mq_terminal st |}
        end
  end.

(** The first fatal cause of a round replaces the invoker's error. *)
Definition fatalOutcome (outcomes : list StepInvocationOutcome) (invokeErr : option error) : option error :=
  match omap so_Fatal outcomes with f :: _ => Some (fatalError f) | [] => invokeErr end.

(** The end of a round: stop the map, or return the items of the next one. *)
Definition endRound (id : string) (outcomes : list StepInvocationOutcome) (invokeErr : option error) (st : MapRound)
    : M W (list Z) :=
  match fatalOutcome outcomes invokeErr with
  | Some e =>
      match asFatal e with
      | Some (message, type, _) => failMap id (errorText (FatalRunError message type "")) e
      | None =>
          reason ← op ctxErr;
          failMap id (match reason with
                      | Some c => if errorsIs e c then "map execution cancelled" else "map invocation infrastructure failed"
                      | None => "map invocation infrastructure failed"
                      end) e
      end
  | None =>
      reason ← op ctxErr;
      match reason with
      | Some c => failMap id "map execution cancelled" (ErrNew c)
      | None =>
          if mq_terminal st then
            _ ← forEach (λ '(itemIndex, diagnostic), modify (markMapItemTerminal id itemIndex StatusFailed diagnostic))
                  (mq_retry st);
            mret []
          else mret (mq_retry st).*1
      end
  end.

(** One round of [for attempt := 1; len(pending) > 0; attempt++]. *)
Definition mapRound (node : PlanNode) (itemInputs : list DataArtifact) (policy : executionPolicy) (n : Z)
    (rounds : MapRounds) (pending : list Z) : M W (MapRounds * list Z) :=
  let id := GetString (pn_Id node) in
  let collectFailures := eqs (GetString (pn_ItemFailures node)) MapItemFailuresCollect in
  _ ← (if 1 <? n then
         _ ← publish;
         orFailMap id "map execution cancelled" (opErr (waitBeforeRetry (delayBefore policy n)))
       else mret tt);
  s ← get;
  invocations ← orFailMap id "map item descriptor construction failed"
    (lift (mapErr (itemInvocation node itemInputs (er_index (rn_resolution s)) policy n) pending));
  '(outcomes, invokeErr) ← op (InvokeSteps
    {| sb_Steps := invocations; sb_MaxConcurrency := GetUint32 (pn_MaxConcurrency node) |});
  byIndex ← orFailMap id "map invocation protocol failed"
    (lift (mapOutcomesByIndex id n outcomes pending (bool_decide (invokeErr = None))));
  _ ← forEach (recordDispatch id itemInputs n byIndex) pending;
  st ← foldM (settleItem id policy collectFailures n byIndex)
    {| mq_rounds := rounds; mq_retry := []; mq_terminal := false |} (zip pending invocations);
  next ← endRound id outcomes invokeErr st;
  mret (mq_rounds st, next).

(** A round retries only while [n < maxAttempts], so [maxAttempts] rounds are enough. *)
Fixpoint mapRounds (fuel : nat) (node : PlanNode) (itemInputs : list DataArtifact) (policy : executionPolicy) (n : Z)
    (rounds : MapRounds) (pending : list Z) : M W MapRounds :=
  match pending with
  | [] => mret rounds
  | _ =>
      match fuel with
      | O => fail (PanicError "rounds beyond the policy")
      | S fuel' =>
          '(rounds', pending') ← mapRound node itemInputs policy n rounds pending;
          mapRounds fuel' node itemInputs policy (n + 1) rounds' pending'
      end
  end.

(** The value of the map: its results, or the outcome of every item. *)
Definition collection (collectFailures : bool) (count : Z) (rounds : MapRounds) : result string :=
  if collectFailures then
    CollectOutcomes NumberToJSON count
      (map (λ r, {| oc_Index := rs_Index r; oc_Value := Some (rs_Body r); oc_Failure := None |}) (mr_results rounds) ++
       map (λ '(itemIndex, failure), {| oc_Index := itemIndex; oc_Value := None; oc_Failure := Some failure |})
         (map_to_list (mr_failures rounds)))
  else Collect NumberToJSON count (mr_results rounds).

Definition collectionProducer (id : string) : Producer :=
  {| pr_ProjectKey := projectKey; pr_PlanHash := planHash; pr_RunID := runID; pr_NodeID := id; pr_Attempt := 1;
     pr_Scope := None |}.

Definition publishCollection (node : PlanNode) (collected : string) : M W nodeOutput :=
  let id := GetString (pn_Id node) in
  key ← lift (runOutputManifestKey projectKey runID id None 1);
  let destination := {| ds_ManifestKey := key; ds_Schema := GetString (pn_OutputSchema node) |} in
  published ← attempt (opErr (PublishJSON NumberToJSON sha256Hex ValidateJSONSchema validateManifestSchema destination
    (collectionProducer id) collected));
  _ ← match published with
      | Ok _ => mret tt
      | Err e => failMap id "map collection publication failed" (Errorf "publish map collection: %w" [AWrap e])
      end;
  s ← get;
  match ResolveJSON NumberToJSON sha256Hex ValidateJSONSchema validateManifestSchema destination
    (collectionProducer id) (rn_world s) with
  | Ok (resolved, body) => mret (nodeOutputFromPublished resolved body)
  | Err e => failMap id "map collection verification failed" (Errorf "verify map collection: %w" [AWrap e])
  end.

(** The expanded items, journalled as pending, with their inputs written. *)
Definition expandMap (node : PlanNode) : M W (list DataArtifact) :=
  let id := GetString (pn_Id node) in
  s ← get;
  inputBytes ← lift (inputForNode NumberToJSON (rn_resolution s) node);
  key ← lift (runInputKey projectKey runID id None);
  let input := dataInput key inputBytes (GetString (pn_InputSchema node)) in
  _ ← putInput input inputBytes "write map input artifact for %s: %w" [AStr id];
  _ ← modify (markAttemptRunning id 1 input);
  _ ← publish;
  items ← orFailMap id "map input expansion failed" (lift (Expand NumberToJSON inputBytes));
  _ ← modify (markMapItemsPending id (map it_Index items));
  itemInputs ← foldM (putItemInput node) [] items;
  _ ← publish;
  mret itemInputs.

Definition maxInt : Z := 2 ^ 63 - 1.

Definition runMapNode (node : PlanNode) : M W nodeOutput :=
  let id := GetString (pn_Id node) in
  let collectFailures := eqs (GetString (pn_ItemFailures node)) MapItemFailuresCollect in
  itemInputs ← expandMap node;
  _ ← (if maxInt <? GetUint32 (pn_MaxConcurrency node) then
         failMap id "map concurrency is unsupported by this executor"
           (Errorf "map maxConcurrency %d exceeds the local executor integer range"
             [AInt (GetUint32 (pn_MaxConcurrency node))])
       else mret tt);
  s ← get;
  let policy := policyForContract (ix_contractsByRef (er_index (rn_resolution s)) !! GetString (pn_ContractRef node)) in
  rounds ← mapRounds (Z.to_nat (ep_maxAttempts policy)) node itemInputs policy 1
    {| mr_results := []; mr_failures := ∅; mr_firstFailure := "" |} (seqZ 0 (Z.of_nat (length itemInputs)));
  s ← get;
  _ ← (if mapHasFailedItem (rn_manifest s) id (map_to_list (mr_failures rounds)).*1 then
         failMap id "one or more map items failed"
           (ErrNew (if eqs (mr_firstFailure rounds) "" then "one or more map items failed" else mr_firstFailure rounds))
       else mret tt);
  collected ← orFailMap id "map collection failed"
    (lift (collection collectFailures (Z.of_nat (length itemInputs)) rounds));
  output ← publishCollection node collected;
  _ ← modifyErr (markAttemptSucceeded id (no_Published output));
  _ ← publish;
  mret output.
End MapRun.
