(* ===== verification/Run.v ===== *)
(** * The run of a plan

    [Run] ([internal/orchestrator/orchestrator.go]) with its deferred calls: the checks
    that come before any effect, the claim of the run id by creating the journal, the loop
    over the plan's nodes, the terminal journal of a run that stops, and the exit hook
    ([exithook.go]), which runs once after the outcome is durable.  [validateExecution] is
    [plan.ValidateExecution] (Verify.v). *)

From S2P Require Import Prelude Utf16 Text SpecTypes PlanTypes Json Canonical SourceIdentity Datastore Encode Artifact Journal JournalOps JournalSafety MapExec Retry Index Resolution World StepRun MapRun.
From Stdlib Require Import SpecFloat.
#[local] Open Scope Z_scope.

(** ** Results *)
Record RunResult := {
  rt_Failure : option FatalFailure;
  rt_RunID : string;
  rt_ProjectKey : string;
  rt_Status : string;
  rt_ManifestKey : string;
  rt_ResultKey : string;
  rt_Steps : list StepSummary;
  rt_ExitHook : option StepSummary;
  rt_ExitHookPersistenceDiagnostic : string;
}.
Record RunError := { rx_Cause : error; rx_StepID : string; rx_Diagnostic : string }.

Definition settleResult (status : string) (failure : option FatalFailure) (resultKey : string) (steps : list StepSummary)
    (r : RunResult) : RunResult :=
  {| rt_Failure := failure; rt_RunID := rt_RunID r; rt_ProjectKey := rt_ProjectKey r; rt_Status := status;
     rt_ManifestKey := rt_ManifestKey r; rt_ResultKey := resultKey; rt_Steps := steps;
     rt_ExitHook := rt_ExitHook r; rt_ExitHookPersistenceDiagnostic := rt_ExitHookPersistenceDiagnostic r |}.
Definition hookResult (hook : StepSummary) (persistence : string) (r : RunResult) : RunResult :=
  {| rt_Failure := rt_Failure r; rt_RunID := rt_RunID r; rt_ProjectKey := rt_ProjectKey r; rt_Status := rt_Status r;
     rt_ManifestKey := rt_ManifestKey r; rt_ResultKey := rt_ResultKey r; rt_Steps := rt_Steps r;
     rt_ExitHook := Some hook; rt_ExitHookPersistenceDiagnostic := persistence |}.

Definition fatalFailure (f : string * string * string) : FatalFailure :=
  {| ff_Message := f.1.1; ff_Type := f.1.2; ff_NodeID := f.2 |}.

(** ** The exit hook's input *)
Record RunOutcome := {
  ro_Fatal : option (string * string);
  ro_RunID : string;
  ro_Status : string;
  ro_FailedNode : option string;
  ro_StartedAt : string;
  ro_FinishedAt : string;
}.
Definition outcomeTree (o : RunOutcome) : json :=
  JObj [("fatal", match ro_Fatal o with
                  | Some (message, type) => JObj ([("message", JStr message)] ++ omitEmpty "type" type)
                  | None => JNull end);
        ("run_id", JStr (ro_RunID o)); ("status", JStr (ro_Status o));
        ("failed_node", match ro_FailedNode o with Some id => JStr id | None => JNull end);
        ("started_at", JStr (ro_StartedAt o)); ("finished_at", JStr (ro_FinishedAt o))].

(** The outcome of a settled run; a failed node was both journalled and dispatched. *)
Definition runOutcome (runID startedAt finishedAt : string) (m : Manifest) (dispatched : gset string) : RunOutcome :=
  let failedNode :=
    match mf_Failure m with
    | Some f => Some (ff_NodeID f)
    | None =>
        if eqs (mf_Status m) StatusFailed then
          st_NodeID <$> head (filter (λ step,
            (st_Status step = StatusFailed ∨ st_Status step = StatusCancelled) ∧ st_NodeID step ∈ dispatched) (mf_Steps m))
        else None
    end in
  {| ro_Fatal := (λ f, (ff_Message f, ff_Type f)) <$> mf_Failure m; ro_RunID := runID; ro_Status := mf_Status m;
     ro_FailedNode := failedNode; ro_StartedAt := startedAt; ro_FinishedAt := finishedAt |}.

(** ** The terminal journal of a run that stops *)
Record Termination := { tn_status : string; tn_cause : error; tn_diagnostic : string; tn_durable : string }.

(** [reason] is [ctx.Err()], [cause] is [context.Cause(ctx)]. *)
Definition classify (runErr : error) (reason : option string) (cause : option error) (active : string) : Termination :=
  let cancelled := match reason with Some c => errorsIs runErr c | None => false end in
  let deadline := if cancelled then cause ≫= asDeadline else None in
  let status := if cancelled && bool_decide (deadline = None) then StatusCancelled else StatusFailed in
  let durable := match deadline with Some seconds => errorText (RunDeadlineError seconds) | None => "run " +:+ status end in
  {| tn_status := match asFatal runErr with Some _ => StatusFailed | None => status end;
     tn_cause := match cancelled, cause with true, Some c => ErrJoin [runErr; c] | _, _ => runErr end;
     tn_diagnostic := match cancelled, cause with true, Some c => errorText c | _, _ => errorText runErr end;
     tn_durable :=
       match asFatal runErr with
       | Some (message, type, nodeId) => errorText (FatalRunError message type nodeId)
       | None => if eqs active "" then durable else durable +:+ " at node " +:+ active
       end |}.

Definition terminalManifest (runErr : error) (t : Termination) (m : Manifest) : Manifest :=
  Terminate (tn_status t) (tn_durable t)
    (match asFatal runErr with Some f => mf_setFailure (Some (fatalFailure f)) m | None => m end).

(** ** Checks before any effect *)
Definition checkConfig (config : RunConfig) : result WorkflowPlan :=
  match rc_Plan config with
  | None => Err (ErrNew "run config requires a workflow plan")
  | Some plan =>
      if eqs (rc_DatastoreRoot config) "" then Err (ErrNew "run config requires a datastore root")
      else if eqs (rc_ProjectID config) "" then Err (ErrNew "run config requires an explicit project id")
      else if eqs (rc_SourcePackageRoot config) "" then Err (ErrNew "run config requires a source package root")
      else Ok plan
  end.

Definition checkRunID (runID : string) : result unit :=
  if ValidSafePathSegment runID then Ok tt
  else Err (InvalidRunInputError "run id" runID
    "must be a single safe path segment of at most 128 characters (datastore key segment rules)").

Definition checkPackageHash (sourcePackage : SourcePackageRef) : result unit :=
  if IsSHA256Ref (GetString (kr_PackageHash sourcePackage)) then Ok tt
  else Err (InvalidRunInputError "source package hash" (GetString (kr_PackageHash sourcePackage))
    "must be a canonical sha256:<64 lowercase hex> digest").

Definition withRoot (root : string) (config : RunConfig) : RunConfig :=
  {| rc_Plan := rc_Plan config; rc_DatastoreRoot := root; rc_ProjectID := rc_ProjectID config;
     rc_RunID := rc_RunID config; rc_SourcePackageRoot := rc_SourcePackageRoot config;
     rc_SourceManifests := rc_SourceManifests config; rc_Environment := rc_Environment config |}.
Definition setEnvironment (environment : option RunEnvironment) (m : Manifest) : Manifest :=
  {| mf_Kind := mf_Kind m; mf_SchemaVersion := mf_SchemaVersion m; mf_Encoding := mf_Encoding m;
     mf_PlanHash := mf_PlanHash m; mf_ProjectKey := mf_ProjectKey m; mf_RunID := mf_RunID m;
     mf_Status := mf_Status m; mf_Diagnostic := mf_Diagnostic m; mf_Failure := mf_Failure m;
     mf_Environment := environment; mf_Steps := mf_Steps m; mf_Decisions := mf_Decisions m;
     mf_Result := mf_Result m; mf_ExitHook := mf_ExitHook m |}.

(** The getters of a nil graph. *)
Definition emptyGraph : GraphIR :=
  {| gi_WorkflowName := None; gi_InputSchema := None; gi_OutputSchema := None; gi_StartNode := None;
     gi_EndNode := None; gi_Nodes := []; gi_Edges := []; gi_IrVersion := None; gi_DeadlineSeconds := None;
     gi_ExitHook := None |}.
Definition planGraph (plan : WorkflowPlan) : GraphIR := default emptyGraph (wp_Graph plan).

Section Run.
Context (NumberToJSON : spec_float → result string) (sha256Hex : string → string).
Context (ValidateJSONSchema : string → string → result unit) (validateManifestSchema : string → result unit).
Context (validateJSONAgainstSchema : string → string → result unit).
Context (validateExecution : WorkflowPlan → result unit).
Context {W : Type} `{World W}.
#[local] Abbreviation DigestBytes := (Canonical.DigestBytes sha256Hex).
#[local] Abbreviation Marshal := (Encode.Marshal NumberToJSON).
#[local] Abbreviation settleInvocation := (World.settleInvocation NumberToJSON sha256Hex ValidateJSONSchema validateManifestSchema).
#[local] Abbreviation materializePrerequisites := (World.materializePrerequisites NumberToJSON sha256Hex).

Section Loop.
Context (config : RunConfig) (plan : WorkflowPlan) (projectKey runID : string) (manifestKey : Key) (index : executionIndex).
Let planHash := GetString (wp_PlanHash plan).
Let storeRoot := rc_DatastoreRoot config.
#[local] Abbreviation publish := (StepRun.publish NumberToJSON manifestKey).
#[local] Abbreviation runStep := (StepRun.runStep NumberToJSON sha256Hex ValidateJSONSchema validateManifestSchema
  planHash storeRoot projectKey runID manifestKey index).
#[local] Abbreviation runMapNode := (MapRun.runMapNode NumberToJSON sha256Hex ValidateJSONSchema validateManifestSchema
  planHash storeRoot projectKey runID manifestKey).

(** ** The loop over the nodes *)
Definition unsupportedKind {A} (node : PlanNode) (nodeID : string) : M W A :=
  fail (Errorf "unsupported plan node kind %q for %q" [AStr (planKind node); AStr nodeID]).

Definition skipNode (node : PlanNode) (nodeID : string) (reason : SkipReason) : M W unit :=
  s ← get;
  _ ← setResolution (er_setInactive nodeID reason (rn_resolution s));
  _ ← (if eqs (planKind node) "step" || eqs (planKind node) "map" then modify (markStepSkipped nodeID reason)
       else if eqs (planKind node) "decision" then modify (markDecisionSkipped nodeID reason)
       else if eqs (planKind node) "select" then mret tt
       else unsupportedKind node nodeID);
  publish.

Definition runDecision (node : PlanNode) (nodeID : string) : M W unit :=
  s ← get;
  routed ← attempt (lift (routeDecision NumberToJSON validateJSONAgainstSchema (rn_resolution s) node));
  match routed with
  | Err e => _ ← modify (markDecisionFailed nodeID (errorText e)); fail e
  | Ok (selectedCase, r) =>
      _ ← setResolution r;
      _ ← modify (addDecision {| de_NodeID := nodeID; de_Status := "selected"; de_SelectedCase := selectedCase;
                                 de_Diagnostic := ""; de_SkipReason := None |});
      publish
  end.

Definition runSelect (node : PlanNode) : M W unit :=
  s ← get;
  r ← lift (selectOutput (rn_resolution s) node);
  setResolution r.

Definition runMap (node : PlanNode) (nodeID : string) : M W unit :=
  output ← attempt (runMapNode node);
  s ← get;
  step ← lift (match findManifestStep (rn_manifest s) nodeID with Some step => Ok step | None => Err nilAttempt end);
  _ ← (if existsb (λ item, dispatched (mi_Attempts item)) (default [] (st_Items step)) then addDispatched nodeID
       else mret tt);
  output ← lift output;
  s ← get;
  setResolution (er_setOutput nodeID output (rn_resolution s)).

(** The [switch node.GetKind()] of an active node. *)
Definition runActive (node : PlanNode) (nodeID : string) : M W unit :=
  if eqs (planKind node) "decision" then runDecision node nodeID
  else if eqs (planKind node) "select" then runSelect node
  else if eqs (planKind node) "start" || eqs (planKind node) "end" then mret tt
  else if eqs (planKind node) "map" then runMap node nodeID
  else if eqs (planKind node) "step" then runStep node
  else unsupportedKind node nodeID.

Definition runNode (nodeID : string) : M W unit :=
  _ ← setActive "";
  _ ← opErr checkCtx;
  let node := default emptyPlanNode (ix_nodesByID index !! nodeID) in
  _ ← setActive nodeID;
  s ← get;
  reason ← lift (activationSkipReason (rn_resolution s) node);
  match reason with
  | Some reason => skipNode node nodeID reason
  | None => runActive node nodeID
  end.

(** The body of [Run] once the journal exists, up to its successful return. *)
Definition execute (workflowInput : string) : M W DataArtifact :=
  packages ← opErr (materializePrerequisites config plan);
  _ ← setPackages packages;
  _ ← setResolution (newExecutionResolver sha256Hex (ix_setPackages packages index) (planGraph plan) workflowInput);
  _ ← forEach runNode (ix_nodeOrder index);
  _ ← setActive "";
  s ← get;
  result ← opErr (resultForEnd sha256Hex projectKey runID (GetString (gi_EndNode (planGraph plan))) (rn_resolution s));
  _ ← modify (finishManifest result);
  _ ← publish;
  mret result.

(** ** The exit hook *)

(** [record(diagnostic)]: the context of the hook decides first. *)
Definition hookRecord (id : string) (timeout : Z) (input : DataArtifact) (output : option PublishedArtifact)
    (diagnostic : string) (w : W) : Step * W :=
  let '(reason, w') := ctxErr w in
  let diagnostic :=
    if bool_decide (reason = Some "context deadline exceeded") then
      "exit hook exceeded its " +:+ itoa (Z.quot timeout Second) +:+ "-second timeout"
    else if bool_decide (reason = Some "context canceled") then "exit hook cancelled"
    else diagnostic in
  let status := if eqs diagnostic "" then StatusSucceeded else StatusFailed in
  ({| st_NodeID := id; st_Status := status;
      st_Attempts := [{| att_Attempt := 1; att_Status := status; att_Input := input; att_Output := output;
                         att_Diagnostic := diagnostic |}];
      st_Items := None; st_ItemFailures := ""; st_SkipReason := None |}, w').

(** The sources a run may have expired before materializing. *)
Definition hookPackages (packages : option (gmap string sourcePackageArtifact)) (w : W)
    : result (gmap string sourcePackageArtifact) * W :=
  match packages with Some p => (Ok p, w) | None => materializePrerequisites config plan w end.

(** The hook's invocation: its output, or the diagnostic of its failure. *)
Definition invokeHook (hook : PlanNode) (policy : executionPolicy) (idx : executionIndex) (input : DataArtifact) (w : W)
    : result (option PublishedArtifact * string) * W :=
  match descriptorForStep planHash (binding storeRoot) projectKey runID hook input idx 1 with
  | Err e => if isPanic e then (Err e, w) else (Ok (None, "exit hook descriptor could not be built"), w)
  | Ok descriptor =>
      let '((outcomes, invokeErr), w1) := InvokeSteps
        {| sb_Steps := [{| in_Descriptor := descriptor; in_Timeout := ep_timeout policy |}]; sb_MaxConcurrency := 0 |} w in
      let refused := match invokeErr with Some e => bool_decide (asFatal e = None) | None => false end in
      match refused, outcomes with
      | false, [outcome] =>
          if negb (eqs (so_Status outcome) StatusSucceeded) then (Ok (None, durableRunnerDiagnostic outcome), w1)
          else
            match settleInvocation idx descriptor w1 with
            | (Ok output, w2) => (Ok (Some (no_Published output), ""), w2)
            | (Err e, w2) => if isPanic e then (Err e, w2) else (Ok (None, "output verification failed"), w2)
            end
      | _, _ => (Ok (None, "invocation infrastructure failed"), w1)
      end
  end.

Definition hookBody (hook : PlanNode) (policy : executionPolicy) (input : DataArtifact) (encoded : result string)
    (packages : option (gmap string sourcePackageArtifact)) (w : W) : result (option PublishedArtifact * string) * W :=
  match encoded with
  | Err _ => (Ok (None, "exit hook input could not be encoded"), w)
  | Ok body =>
      match hookPackages packages w with
      | (Err e, w1) => if isPanic e then (Err e, w1) else (Ok (None, "exit hook source materialization failed"), w1)
      | (Ok p, w1) =>
          match MustKey (da_Key input) with
          | Err e => (Err e, w1)
          | Ok key =>
              match putJSON key body w1 with
              | (Err _, w2) => (Ok (None, "exit hook input could not be written"), w2)
              | (Ok _, w2) => invokeHook hook policy (ix_setPackages p index) input w2
              end
          end
      end
  end.

Definition runExitHook (hook : PlanNode) (outcome : RunOutcome) (packages : option (gmap string sourcePackageArtifact))
    (w : W) : result Step * W :=
  let id := GetString (pn_Id hook) in
  let policy := policyOf index hook in
  within (HookLifetime (ep_timeout policy)) (λ w,
    let encoded := Marshal (outcomeTree outcome) in
    let body := match encoded with Ok body => body | Err _ => "" end in
    match runInputKey projectKey runID id None with
    | Err e => (Err e, w)
    | Ok key =>
        let input := dataInput sha256Hex key body (GetString (pn_InputSchema hook)) in
        match hookBody hook policy input encoded packages w with
        | (Err e, w1) => (Err e, w1)
        | (Ok (output, diagnostic), w1) =>
            let '(step, w2) := hookRecord id (ep_timeout policy) input output diagnostic w1 in (Ok step, w2)
        end
    end) w.

(** The deferred call that invokes the hook and journals its record. *)
Definition deferExitHook (startedAt : string) (result : RunResult) : M W RunResult :=
  match gi_ExitHook (planGraph plan) with
  | None => mret result
  | Some hook =>
      finishedAt ← op now;
      s ← get;
      let outcome := runOutcome runID startedAt finishedAt (rn_manifest s) (rn_dispatchedNodes s) in
      step ← opErr (runExitHook hook outcome (rn_packages s));
      _ ← modify (mf_setExitHook step);
      let summary := {| su_NodeID := st_NodeID step; su_Status := st_Status step;
                        su_Diagnostic := default "" (att_Diagnostic <$> head (st_Attempts step)) |} in
      written ← attempt (StepRun.publishDetached NumberToJSON manifestKey);
      mret (hookResult summary
        match written with
        | Ok _ => rt_ExitHookPersistenceDiagnostic result
        | Err e => "exit hook record could not be published: " +:+ errorText e
        end result)
  end.

(** ** The deferred call that closes the journal of a run that stops *)
Definition terminalize (runErr : error) (result : RunResult) : M W (RunResult * RunError) :=
  reason ← op ctxErr;
  s ← get;
  let t := classify runErr reason (ctxCause (rn_world s)) (rn_activeNodeID s) in
  _ ← modify (terminalManifest runErr t);
  s' ← get;
  let failure := fatalFailure <$> asFatal runErr in
  let result' := settleResult (tn_status t) failure "" (summariesFromManifest (rn_manifest s')) result in
  written ← attempt (StepRun.publishDetached NumberToJSON manifestKey);
  mret (result',
    {| rx_Cause := match written with Ok _ => tn_cause t | Err e => ErrJoin [tn_cause t; e] end;
       rx_StepID := match failure with Some f => ff_NodeID f | None => rn_activeNodeID s end;
       rx_Diagnostic := match written with
                        | Ok _ => tn_diagnostic t
                        | Err e => tn_diagnostic t +:+ "; terminal journal could not be published: " +:+ errorText e
                        end |}).

(** A panic skips the terminal journal ([runErr] is nil) but not the exit hook. *)
Definition runToEnd (startedAt workflowInput : string) (result : RunResult) : M W (RunResult * option RunError) :=
  λ s,
  match execute workflowInput s with
  | (Ok artifact, s1) =>
      (r ← deferExitHook startedAt
             (settleResult StatusSucceeded None (da_Key artifact) (summariesFromManifest (rn_manifest s1)) result);
       mret (r, None)) s1
  | (Err e, s1) =>
      if isPanic e then (_ ← deferExitHook startedAt result; fail e) s1
      else
        ('(r, failure) ← terminalize e result;
         r' ← deferExitHook startedAt r;
         mret (r', Some failure)) s1
  end.
End Loop.

(** ** Up to the claim of the run id *)
Record Prepared := {
  pp_config : RunConfig;
  pp_plan : WorkflowPlan;
  pp_projectKey : string;
  pp_runID : string;
  pp_index : executionIndex;
  pp_input : string;
  pp_manifest : Manifest;
  pp_manifestKey : Key;
}.

Definition initialManifest (plan : WorkflowPlan) (projectKey runID : string) (index : executionIndex)
    (environment : option RunEnvironment) : Manifest :=
  setEnvironment environment
    (newRunManifest (GetString (wp_PlanHash plan)) projectKey runID (ix_stepOrder index) (authoredNode <$> ix_nodesByID index)).

(** The identifiers, checked before the store is opened. *)
Definition checkIdentities (plan : WorkflowPlan) (runID : string) : result unit :=
  _ ← checkRunID runID;
  _ ← validatePlanIdentitySegments plan;
  foldErr (λ _ sourcePackage, checkPackageHash sourcePackage) tt (wp_SourcePackages plan).

Definition prepareRun (config : RunConfig) (plan : WorkflowPlan) (runID inputJSON : string) : result Prepared :=
  let projectKey := NormalizeProjectKey sha256Hex (rc_ProjectID config) in
  index ← buildExecutionIndex validateExecution plan;
  workflowInput ← wrapErr "canonicalize workflow input: %w" [] (CanonicalizeJSON NumberToJSON inputJSON);
  manifestKey ← runManifestKey projectKey runID;
  Ok {| pp_config := config; pp_plan := plan; pp_projectKey := projectKey; pp_runID := runID; pp_index := index;
        pp_input := workflowInput;
        pp_manifest := initialManifest plan projectKey runID index (rc_Environment config);
        pp_manifestKey := manifestKey |}.

(** Creating the journal claims the run id. *)
Definition claimRun (p : Prepared) (w : W) : result unit * W :=
  match Marshal (journalTree (pp_manifest p)) with
  | Err e => (Err (Errorf "marshal run manifest: %w" [AWrap e]), w)
  | Ok body =>
      match Put (pp_manifestKey p) body {| po_ContentType := jsonContentType; po_IfAbsent := true |} w with
      | (Ok _, w1) => (Ok tt, w1)
      | (Err e, w1) =>
          (Err (if isErr e ErrAlreadyExists then
                  InvalidRunInputError "run id" (pp_runID p) "already names a run in this project; choose a new run id"
                else Errorf "create run manifest %s: %w" [AStr (key_value (pp_manifestKey p)); AWrap e]), w1)
      end
  end.

Definition prepare (config : RunConfig) (inputJSON : string) (w : W) : result Prepared * W :=
  match checkConfig config with
  | Err e => (Err e, w)
  | Ok plan =>
      match absPath (rc_DatastoreRoot config) w with
      | (Err e, w1) => (Err (Errorf "resolve datastore root: %w" [AWrap e]), w1)
      | (Ok root, w1) =>
          let config := withRoot root config in
          let '(runID, w2) := if eqs (rc_RunID config) "" then newUUID w1 else (rc_RunID config, w1) in
          match checkIdentities plan runID with
          | Err e => (Err e, w2)
          | Ok _ =>
              match openStore root w2 with
              | (Err e, w3) => (Err (Errorf "open local datastore: %w" [AWrap e]), w3)
              | (Ok _, w3) =>
                  match prepareRun config plan runID inputJSON with
                  | Err e => (Err e, w3)
                  | Ok p => let '(claimed, w4) := claimRun p w3 in (_ ← claimed; Ok p, w4)
                  end
              end
          end
      end
  end.

(** ** Run *)
Definition initialResult (p : Prepared) : RunResult :=
  {| rt_Failure := None; rt_RunID := pp_runID p; rt_ProjectKey := pp_projectKey p; rt_Status := StatusRunning;
     rt_ManifestKey := key_value (pp_manifestKey p); rt_ResultKey := "";
     rt_Steps := summariesFromManifest (pp_manifest p); rt_ExitHook := None; rt_ExitHookPersistenceDiagnostic := "" |}.

Definition startState (p : Prepared) (w : W) : RunState W :=
  mkRun w (pp_manifest p) (newExecutionResolver sha256Hex (pp_index p) (planGraph (pp_plan p)) (pp_input p)) None "" ∅.

Definition runPrepared (p : Prepared) (startedAt : string) (w : W) : result (RunResult * option RunError) * W :=
  let seconds := GetUint32 (gi_DeadlineSeconds (planGraph (pp_plan p))) in
  let body w :=
    let '(r, s) := runToEnd (pp_config p) (pp_plan p) (pp_projectKey p) (pp_runID p) (pp_manifestKey p) (pp_index p)
      startedAt (pp_input p) (initialResult p) (startState p w) in (r, rn_world s) in
  if 0 <? seconds then within (RunDeadline seconds) body w else body w.

Definition Run (config : RunConfig) (inputJSON : string) (w : W) : result (RunResult * option RunError) * W :=
  let '(startedAt, w0) := now w in
  match prepare config inputJSON w0 with
  | (Err e, w1) => (Err e, w1)
  | (Ok p, w1) => runPrepared p startedAt w1
  end.
End Run.
