(* ===== verification/IndexSafety.v ===== *)
(** * The executor's index is well formed

    The order [topologicalPlanOrder] returns is the schedule's order; the index names every
    node of the plan once and lists inbound edges by target; and the key of every output a
    descriptor asks for is one the artifact runtime accepts. *)

From S2P Require Import Prelude Utf16 Text SpecTypes PlanTypes TopoOrder Kahn Schedule SpecGraph Json Canonical SourceIdentity Validate Compile Verify CompileSafety CanonicalForm Datastore Artifact ArtifactSafety Journal JournalOps Retry Index CompileSample.
From Stdlib Require Import SpecFloat.
#[local] Open Scope Z_scope.

Definition planIds (graph : GraphIR) : list string := map (λ n, GetString (pn_Id n)) (gi_Nodes graph).
Definition planEdges (graph : GraphIR) : list (string * string) := map (λ e, edgePair (authoredEdge e)) (gi_Edges graph).

(** ** The order *)
Lemma addPlanNodes_Ok (nodes : list PlanNode) m : foldErr addPlanNode ∅ nodes = Ok m →
  let ids := map (λ n, GetString (pn_Id n)) nodes in NoDup ids ∧ "" ∉ ids ∧ m = initIndegree ids.
Proof.
  revert m; induction nodes as [|n nodes IH] using rev_ind; intros m.
  { intros [= <-]. split_and!; [constructor|by inversion 1|done]. }
  rewrite foldErr_app. intros (m' & Hm' & H)%bind_Ok. destruct (IH m' Hm') as (Hnd & Hne & ->).
  cbn zeta. rewrite map_app. cbn [map foldErr] in *. apply bind_Ok in H as (m'' & H & [= <-]).
  unfold addPlanNode in H. case_bool_decide as He; [done|]. case_bool_decide as Hi; [done|].
  injection H as <-. rewrite initIndegree_lookup in Hi.
  assert (GetString (pn_Id n) ∉ map (λ n, GetString (pn_Id n)) nodes) as Hn.
  { intros Hin. apply Hi. rewrite decide_True by done. eauto. }
  split_and!.
  - apply NoDup_app. split_and!; [done|by intros x Hx ->%list_elem_of_singleton|apply NoDup_singleton].
  - rewrite elem_of_app, list_elem_of_singleton. by intros [|].
  - unfold initIndegree. by rewrite foldl_app.
Qed.

Lemma addPlanEdges_Ok nodes st (edges : list PlanEdge) st' : foldErr (addPlanEdge nodes) st edges = Ok st' →
  let es := map authoredEdge edges in
  st' = (foldl addAdjacency st.1 es, foldl addIndegree st.2 es) ∧
  ∀ e, e ∈ es → nodes !! ge_From e ≠ None ∧ nodes !! ge_To e ≠ None.
Proof.
  revert st; induction edges as [|e edges IH]; intros st.
  { intros [= <-]. split; [by destruct st|by inversion 1]. }
  cbn [foldErr]. intros (st1 & H1 & H)%bind_Ok. unfold addPlanEdge in H1.
  destruct (bool_decide _ || bool_decide _) eqn:E; [done|]. injection H1 as <-.
  apply orb_false_iff in E as [E1%bool_decide_eq_false E2%bool_decide_eq_false].
  destruct (IH _ H) as [-> Hin]. split; [done|]. intros x [->|Hx]%elem_of_cons; [done|by apply Hin].
Qed.

(** What a successful order is. *)
Lemma topologicalPlanOrder_Ok graph order : topologicalPlanOrder graph = Ok order →
  NoDup (planIds graph) ∧ (∀ u v, (u, v) ∈ planEdges graph → u ∈ planIds graph ∧ v ∈ planIds graph) ∧
  order ≡ₚ planIds graph ∧ predsFirst (planEdges graph) order ∧
  (allValid (planIds graph) → order = topoOrder (planIds graph) (planEdges graph)).
Proof.
  unfold topologicalPlanOrder. intros (nodes & Hn & H)%bind_Ok.
  destruct (addPlanNodes_Ok _ _ Hn) as (Hnd & _ & ->). apply bind_Ok in H as ([adj deg] & He & H).
  destruct (addPlanEdges_Ok _ _ _ _ He) as [[= -> ->] Hcl]. cbn [fst snd] in *.
  fold (planIds graph) in *. set (es := map authoredEdge (gi_Edges graph)) in *.
  assert (∀ e, e ∈ es → ge_From e ∈ planIds graph ∧ ge_To e ∈ planIds graph) as Hclosed.
  { intros e [H1 H2]%Hcl. rewrite !initIndegree_lookup in *. by repeat case_decide. }
  assert (length (gi_Nodes graph) = length (planIds graph)) as Hl by by unfold planIds; rewrite length_map.
  rewrite Hl in H. destruct (Nat.eqb_spec (length (topoRun (foldl addAdjacency ∅ es)
    (foldl addIndegree (initIndegree (planIds graph)) es) (length (planIds graph)))) (length (planIds graph))) as [E|];
    [|done].
  injection H as <-. destruct (topoRun_spec (planIds graph) es Hclosed (length (planIds graph))) as (Hem & _ & _); [lia|].
  assert (planEdges graph = map edgePair es) as -> by (unfold planEdges, es; by rewrite map_map).
  split_and!; [done| | |by apply Hem|].
  - intros u v (e & [= -> ->] & Hx)%list_elem_of_fmap. by apply Hclosed.
  - apply submseteq_length_Permutation; [|by rewrite E].
    apply NoDup_submseteq; [apply Hem|]. intros x Hx%(em_nodes _ _ _ Hem). by apply elem_of_remove_dups.
  - intros Hv. by apply topoRun_reference.
Qed.

(** ** The index *)
Record indexed_plan (index : executionIndex) (graph : GraphIR) : Prop := {
  ip_order : NoDup (ix_nodeOrder index);
  ip_node : ∀ id, id ∈ ix_nodeOrder index → ∃ node, ix_nodesByID index !! id = Some node ∧ node ∈ gi_Nodes graph;
  ip_id : ∀ id node, ix_nodesByID index !! id = Some node → GetString (pn_Id node) = id;
  ip_steps : ix_stepOrder index =
    filter (λ id, kindAt (ix_nodesByID index) id = "step" ∨ kindAt (ix_nodesByID index) id = "map") (ix_nodeOrder index);
  ip_inbound : ∀ id edge, edge ∈ default [] (ix_inboundByTarget index !! id) ↔ edge ∈ gi_Edges graph ∧ GetString (pe_To edge) = id;
  ip_before : ∀ P1 id P2 edge, ix_nodeOrder index = P1 ++ id :: P2 →
    edge ∈ default [] (ix_inboundByTarget index !! id) →
    kindAt (ix_nodesByID index) (GetString (pe_From edge)) ≠ "start" →
    kindAt (ix_nodesByID index) (GetString (pe_From edge)) ≠ "end" → GetString (pe_From edge) ∈ P1;
}.

Lemma addInbounds_Ok nodesByID inbound edges inbound' : foldErr (addInbound nodesByID) inbound edges = Ok inbound' →
  ∀ id edge, edge ∈ default [] (inbound' !! id) ↔
    edge ∈ default [] (inbound !! id) ∨ edge ∈ edges ∧ GetString (pe_To edge) = id.
Proof.
  revert inbound; induction edges as [|e edges IH]; intros inbound.
  { intros [= <-] id edge. rewrite elem_of_nil. tauto. }
  cbn [foldErr]. intros (i1 & H1 & H)%bind_Ok id edge. rewrite (IH _ H). unfold addInbound in H1.
  case_bool_decide; [done|]. case_bool_decide; [done|]. injection H1 as <-. rewrite elem_of_cons.
  destruct (decide (GetString (pe_To e) = id)) as [<-|Hne].
  - rewrite lookup_insert_eq. simpl. rewrite elem_of_app, list_elem_of_singleton. naive_solver.
  - rewrite lookup_insert_ne by done. naive_solver.
Qed.

Lemma initInbound_empty (nodes : list PlanNode) id :
  default [] (foldl (λ m n, <[GetString (pn_Id n) := []]> m) (∅ : gmap string (list PlanEdge)) nodes !! id) = [].
Proof.
  induction nodes as [|n nodes IH] using rev_ind; [done|]. rewrite foldl_app. cbn [foldl].
  destruct (decide (GetString (pn_Id n) = id)) as [<-|]; [by rewrite lookup_insert_eq|by rewrite lookup_insert_ne].
Qed.

Lemma kindAt_insert_ne nodes id hook x : x ≠ id → kindAt (<[id := hook]> nodes) x = kindAt nodes x.
Proof. intros H. unfold kindAt. by rewrite lookup_insert_ne. Qed.

(** Removing elements from a list keeps what comes before what. *)
Lemma filter_split {A} (P : A → Prop) `{!∀ x, base.Decision (P x)} (l : list A) P1 x P2 :
  filter P l = P1 ++ x :: P2 → ∃ Q1 Q2, l = Q1 ++ x :: Q2 ∧ filter P Q1 = P1.
Proof.
  revert P1; induction l as [|y l IH]; intros P1 E; [by destruct P1|]. rewrite filter_cons in E.
  case_decide as Hy.
  - destruct P1 as [|z P1]; [injection E as <- <-; by exists [], l|]. injection E as Ey E.
    destruct (IH P1 E) as (Q1 & Q2 & -> & <-). exists (y :: Q1), Q2. split; [done|].
    rewrite filter_cons_True by done. by rewrite Ey.
  - destruct (IH P1 E) as (Q1 & Q2 & -> & <-). exists (y :: Q1), Q2. split; [done|]. by rewrite filter_cons_False.
Qed.

Lemma buildExecutionIndex_Ok validateExecution plan index :
  buildExecutionIndex validateExecution plan = Ok index →
  ∃ graph order, wp_Graph plan = Some graph ∧ topologicalPlanOrder graph = Ok order ∧ indexed_plan index graph ∧
    ix_nodeOrder index = filter (λ id, kindAt (ix_nodesByID index) id ≠ "start" ∧ kindAt (ix_nodesByID index) id ≠ "end") order ∧
    (∀ hook, gi_ExitHook graph = Some hook → ix_nodesByID index !! GetString (pn_Id hook) = Some hook).
Proof.
  unfold buildExecutionIndex. intros (_ & _ & H)%bind_Ok. destruct (wp_Graph plan) as [graph|]; [|done].
  apply bind_Ok in H as (order & Ho & H). apply bind_Ok in H as (nodesByID & Hn & H).
  apply bind_Ok in H as (inbound & Hi & H). injection H as <-. exists graph, order.
  destruct (topologicalPlanOrder_Ok _ _ Ho) as (Hnd & Hcl & HP & Hbefore & _).
  set (nodes := indexBy (λ n, GetString (pn_Id n)) (gi_Nodes graph)) in *.
  assert (∀ id node, nodes !! id = Some node → GetString (pn_Id node) = id ∧ node ∈ gi_Nodes graph) as Hkey.
  { intros id node E. by destruct (indexBy_key _ _ _ _ E). }
  assert (∀ id, id ∈ order → ∃ node, nodes !! id = Some node) as Hin.
  { intros id Hid. rewrite HP in Hid. apply (proj2 (indexBy_is_Some _ _ _)) in Hid. destruct Hid as [node E]. eauto. }
  assert (∀ id, id ∈ order → nodesByID !! id = nodes !! id) as Hsame.
  { intros id [node E]%Hin. destruct (gi_ExitHook graph) as [hook|]; [|by injection Hn as <-].
    case_bool_decide as Hhook; [done|]. injection Hn as <-. apply lookup_insert_ne. intros <-. eauto. }
  assert (∀ id node, nodesByID !! id = Some node → GetString (pn_Id node) = id) as Hid.
  { intros id node. destruct (gi_ExitHook graph) as [hook|]; [|injection Hn as <-; by intros [? _]%Hkey].
    case_bool_decide; [done|]. injection Hn as <-. intros [[<- <-]|[_ E]]%lookup_insert_Some; [done|by apply Hkey]. }
  split_and!; [done|done| |done|].
  - split; cbn [ix_nodeOrder ix_nodesByID ix_stepOrder ix_inboundByTarget].
    + apply NoDup_filter. by rewrite HP.
    + intros id [_ Hx]%list_elem_of_filter. destruct (Hin id Hx) as [node E]. exists node.
      rewrite (Hsame id Hx). split; [done|by apply (Hkey id)].
    + exact Hid.
    + rewrite list_filter_filter. apply list_filter_iff. intros id. split; [|tauto].
      by intros [E|E]; rewrite E; auto.
    + intros id edge. rewrite (addInbounds_Ok _ _ _ _ Hi), initInbound_empty, elem_of_nil. tauto.
    + intros P1 id P2 edge E Hedge Hs He.
      rewrite (addInbounds_Ok _ _ _ _ Hi), initInbound_empty, elem_of_nil in Hedge. destruct Hedge as [[]|[Hedge Hto]].
      destruct (filter_split _ _ _ _ _ E) as (Q1 & Q2 & EQ & <-).
      assert ((GetString (pe_From edge), id) ∈ planEdges graph) as Hpair.
      { apply list_elem_of_fmap. exists edge. split; [|done]. unfold edgePair. by cbn; rewrite Hto. }
      apply list_elem_of_filter. split; [done|]. specialize (Hbefore Q1 id Q2 EQ).
      rewrite pendingIn_zero in Hbefore. by apply Hbefore.
  - intros hook Eh. cbn [ix_nodesByID]. rewrite Eh in Hn. case_bool_decide; [done|]. injection Hn as <-.
    apply lookup_insert_eq.
Qed.

Section CompiledOrder.
Context (schemaHashes contractHashes : gmap string string) (ws : WorkflowSpec) (schedule : Schedule).
Let graph := compileGraph schemaHashes contractHashes ws schedule.

Lemma addPlanNodes_total (nodes : list PlanNode) :
  NoDup (map (λ n, GetString (pn_Id n)) nodes) → "" ∉ map (λ n, GetString (pn_Id n)) nodes →
  foldErr addPlanNode ∅ nodes = Ok (initIndegree (map (λ n, GetString (pn_Id n)) nodes)).
Proof.
  induction nodes as [|n nodes IH] using rev_ind; [done|]. rewrite map_app. cbn [map].
  intros (Hnd & Hdisj & _)%NoDup_app Hne. rewrite foldErr_app, IH; [|done|set_solver]. cbn [mbind result_bind foldErr].
  unfold addPlanNode. rewrite bool_decide_eq_false_2; [|intros E; apply Hne; rewrite E; set_solver].
  rewrite bool_decide_eq_false_2; [cbn [mbind result_bind]; unfold initIndegree; by rewrite foldl_app|].
  rewrite initIndegree_lookup. case_decide as Hin; [|by intros []]. by destruct (Hdisj _ Hin); left.
Qed.

Lemma addPlanEdges_total nodes st (edges : list PlanEdge) :
  (∀ e, e ∈ map authoredEdge edges → nodes !! ge_From e ≠ None ∧ nodes !! ge_To e ≠ None) →
  foldErr (addPlanEdge nodes) st edges =
  Ok (foldl addAdjacency st.1 (map authoredEdge edges), foldl addIndegree st.2 (map authoredEdge edges)).
Proof.
  revert st; induction edges as [|e edges IH]; intros st Hcl; [by destruct st|]. cbn [foldErr map].
  unfold addPlanEdge. destruct (Hcl (authoredEdge e)) as [H1 H2]; [left|].
  rewrite !bool_decide_eq_false_2 by done. cbn [orb mbind result_bind]. apply IH. intros x Hx. apply Hcl. by right.
Qed.

Lemma compiled_ids : BuildSchedule (ws_Graph ws) = Ok schedule →
  planIds graph = sc_NodeOrder schedule.
Proof.
  intros H. destruct (BuildSchedule_Ok _ _ H) as (Hids & HP & _).
  unfold planIds, graph. cbn [compileGraph gi_Nodes]. rewrite map_map.
  rewrite <- (map_id (sc_NodeOrder schedule)) at 2. apply map_ext_in. intros id Hid%list_elem_of_In.
  rewrite compileNode_Id. cbn [GetString]. rewrite HP in Hid. apply (proj2 (indexBy_is_Some _ _ _)) in Hid.
  destruct Hid as [node E]. unfold nodeAt. rewrite E. by destruct (indexBy_key _ _ _ _ E).
Qed.

Lemma compiled_edges : planEdges graph ≡ₚ map edgePair (gr_Edges (ws_Graph ws)).
Proof.
  unfold planEdges, graph. cbn [compileGraph gi_Edges]. rewrite map_map.
  assert (∀ l, map (λ e, edgePair (authoredEdge (compileEdge e))) l = map edgePair l) as ->.
  { intros l. apply map_ext. by intros []. }
  apply Permutation_map, merge_sort_Permutation.
Qed.

Lemma compiled_plan_order : BuildSchedule (ws_Graph ws) = Ok schedule → allValid (map gn_ID (gr_Nodes (ws_Graph ws))) →
  "" ∉ map gn_ID (gr_Nodes (ws_Graph ws)) → topologicalPlanOrder graph = Ok (sc_NodeOrder schedule).
Proof.
  intros Hs Hv Hne. destruct (BuildSchedule_Ok _ _ Hs) as (Hids & HP & Hem & _ & Href & _).
  pose proof (compiled_ids Hs) as Eids. pose proof compiled_edges as Hedges.
  pose proof (BuildSchedule_closed _ _ Hs) as Hcl.
  unfold topologicalPlanOrder. rewrite addPlanNodes_total; fold (planIds graph); rewrite Eids;
    [|by rewrite HP|by rewrite HP]. cbn [mbind result_bind].
  set (es := map authoredEdge (gi_Edges graph)).
  assert (∀ e, e ∈ es → ge_From e ∈ sc_NodeOrder schedule ∧ ge_To e ∈ sc_NodeOrder schedule) as Hclosed.
  { intros e He. assert (edgePair e ∈ planEdges graph) as Hp.
    { unfold planEdges. rewrite <- (map_map authoredEdge edgePair). by apply list_elem_of_fmap_2. }
    rewrite Hedges in Hp. apply list_elem_of_fmap in Hp as (x & Ex & Hx). rewrite !HP.
    destruct e, x; injection Ex as -> ->. by apply (Hcl _ Hx). }
  rewrite addPlanEdges_total; fold es; cbn [fst snd mbind result_bind].
  2: { intros e [H1 H2]%Hclosed. rewrite !initIndegree_lookup, !decide_True by done. done. }
  assert (length (gi_Nodes graph) = length (sc_NodeOrder schedule)) as -> by (rewrite <- Eids; unfold planIds; by rewrite length_map).
  assert (planEdges graph = map edgePair es) as Ees by (unfold planEdges, es; by rewrite map_map).
  assert (allValid (sc_NodeOrder schedule)) as Hv' by (unfold allValid in *; by rewrite HP).
  rewrite (topoRun_reference (sc_NodeOrder schedule) es Hclosed) by (done || by rewrite HP).
  rewrite <- Ees, (topoOrder_perm _ _ _ _ Hv' HP Hedges), <- Href by done.
  by rewrite Nat.eqb_refl.
Qed.

(** The executor of a compiled plan visits the nodes in the order of the compiler's
    schedule: re-deriving the order from the plan gives the same list. *)
Theorem executor_follows_schedule (Hs : BuildSchedule (ws_Graph ws) = Ok schedule)
    (Hv : allValid (map gn_ID (gr_Nodes (ws_Graph ws)))) (Hne : "" ∉ map gn_ID (gr_Nodes (ws_Graph ws))) :
  topologicalPlanOrder (compileGraph schemaHashes contractHashes ws schedule) = Ok (sc_NodeOrder schedule).
Proof. by apply compiled_plan_order. Qed.
End CompiledOrder.

(** ** Identifiers and descriptors *)
Lemma safeByte_slash l : forallb safeByte l = true → 47 ∉ l ∧ 92 ∉ l.
Proof.
  intros H. split; intros Hin; pose proof (proj1 (forallb_forall _ _) H _ (proj1 (list_elem_of_In _ _) Hin)) as X;
    by vm_compute in X.
Qed.

Lemma containsByte_bytes c s : containsByte c s = true → byteOf c ∈ bytesOf s.
Proof.
  induction s as [|d s IH]; [done|]. cbn [containsByte bytesOf]. rewrite orb_true_iff.
  intros [->%Ascii.eqb_eq|H%IH]; [left|by right].
Qed.

Lemma isWindowsAbs_slash s : isWindowsAbs s = true → 47 ∈ bytesOf s ∨ 92 ∈ bytesOf s.
Proof.
  unfold isWindowsAbs. destruct (bytesOf s) as [|a [|b [|c l]]]; [done..|].
  rewrite !andb_true_iff, orb_true_iff, !Z.eqb_eq. intros [_ [-> | ->]]; [left|right]; by do 2 right; left.
Qed.

(** The executor's rule and the artifact runtime's rule for identifiers are one. *)
Lemma ValidSafePathSegment_safe value : ValidSafePathSegment value = isSafePathSegment value.
Proof.
  unfold ValidSafePathSegment, isSafePathSegment, safePathSegmentPattern, maxSafePathSegmentLength.
  destruct (128 <? Z.of_nat (String.length value)); [by rewrite orb_true_r|].
  case_bool_decide as Ed; [by rewrite !orb_true_r|]. case_bool_decide as Edd; [by rewrite !orb_true_r|]. cbn [orb].
  rewrite !orb_false_r. case_bool_decide as Ee; [by subst|].
  destruct (Z.eqb_spec (Z.of_nat (String.length value)) 0) as [E0|E0]; [by destruct value|]. cbn [negb andb].
  destruct (forallb safeByte (bytesOf value)) eqn:Eb; [|done]. cbn [negb].
  destruct (safeByte_slash _ Eb) as [H47 H92].
  assert (ParseKey value = Ok {| key_value := value |}) as ->; [|done].
  apply ParseKey_Ok. split_and!; [done| | |].
  - rewrite splitOn_plain by (by apply noSlash_bytes). constructor; [|constructor]. done.
  - destruct (containsByte _ value) eqn:Ec; [|done]. by destruct (H92 (containsByte_bytes _ _ Ec)).
  - destruct (isWindowsAbs value) eqn:Ew; [|done]. by destruct (isWindowsAbs_slash _ Ew).
Qed.

(** An identifier the executor admits into keys is one the artifact runtime admits into
    an output slot, and the other way round, though one uses a pattern and the key parser
    and the other a loop over bytes. *)
Theorem identifier_rules_agree value : ValidSafePathSegment value = isSafePathSegment value.
Proof. apply ValidSafePathSegment_safe. Qed.

Lemma string_app_cancel a x y : a +:+ x = a +:+ y → x = y.
Proof. induction a as [|c a IH]; [done|]. intros [= H]. by apply IH. Qed.

Section Descriptor.
Context (planHash : string) (storeBinding : DatastoreDescriptor) (projectKey runID : string) (node : PlanNode).
Context (input : DataArtifact) (index : executionIndex).
#[local] Abbreviation id := (GetString (pn_Id node)).

(** The slot of an execution: an item of this map, or the node itself. *)
Definition producerOf (scope : option ExecutionScope) (attempt : Z) : Producer :=
  {| pr_ProjectKey := projectKey; pr_PlanHash := planHash; pr_RunID := runID; pr_NodeID := id; pr_Attempt := attempt;
     pr_Scope := scope |}.
Definition scopeOf (itemIndex : option Z) : option ExecutionScope := itemScope node <$> itemIndex.

Lemma runOutputManifestKey_slot itemIndex attempt :
  runOutputManifestKey projectKey runID id (scopeOf itemIndex) attempt =
  match outputManifestKey (producerOf (scopeOf itemIndex) attempt) with
  | Ok key => Ok key | Err e => Err (PanicError (errorText e)) end.
Proof.
  unfold runOutputManifestKey, outputManifestKey, MustKey, runPath. cbn [producerOf pr_ProjectKey pr_RunID pr_NodeID pr_Scope pr_Attempt].
  destruct itemIndex; cbn [scopeOf fmap option_fmap option_map itemScope scopeSuffix scopePath es_Frames foldr foldl fr_MapID fr_Index];
    by rewrite ?string_app_assoc, ?string_app_nil.
Qed.

Record runIdentity (attempt : Z) (itemIndex : option Z) : Prop := {
  rd_project : isSafeProjectKey projectKey = true;
  rd_plan : isHashRef planHash = true;
  rd_run : ValidSafePathSegment runID = true;
  rd_node : ValidSafePathSegment id = true;
  rd_attempt : 1 <= attempt <= MaxJSONSafeInteger;
  rd_item : ∀ i, itemIndex = Some i → 0 <= i <= MaxJSONSafeInteger;
}.

Lemma slot_accepted attempt itemIndex key schema :
  runIdentity attempt itemIndex → isHashRef schema = true →
  runOutputManifestKey projectKey runID id (scopeOf itemIndex) attempt = Ok key →
  ParseKey (key_value key) = Ok key ∧
  ValidateDestination {| ds_ManifestKey := key; ds_Schema := schema |} (producerOf (scopeOf itemIndex) attempt) = Ok tt.
Proof.
  intros [H1 H2 H3 H4 H5 H6] Hs Hkey. rewrite runOutputManifestKey_slot in Hkey.
  destruct (outputManifestKey (producerOf (scopeOf itemIndex) attempt)) as [want|] eqn:Ek; [|done]. injection Hkey as ->.
  split; [pose proof Ek as Ep; unfold outputManifestKey in Ep; by apply ParseKey_Ok in Ep as (-> & Hp); apply ParseKey_Ok|].
  unfold ValidateDestination. assert (validateProducerIdentity (producerOf (scopeOf itemIndex) attempt) = Ok tt) as ->.
  { unfold validateProducerIdentity. cbn [producerOf pr_ProjectKey pr_PlanHash pr_RunID pr_NodeID pr_Attempt pr_Scope].
    rewrite ValidSafePathSegment_safe in H3, H4. rewrite H1, H2, H3, H4. cbn [negb].
    assert ((attempt <? 1) || (MaxJSONSafeInteger <? attempt) = false) as -> by lia.
    assert (ValidateExecutionScope (scopeOf itemIndex) = Ok tt) as ->; [|done].
    destruct itemIndex as [i|]; [|done]. specialize (H6 i eq_refl).
    cbn [scopeOf fmap option_fmap option_map itemScope ValidateExecutionScope es_Frames forallb]. unfold validFrame.
    cbn [fr_Kind fr_MapID fr_Index]. rewrite bool_decide_eq_true_2, H4 by done. cbn [negb orb andb].
    by assert ((i <? 0) || (MaxJSONSafeInteger <? i) = false) as -> by lia. }
  cbn [mbind result_bind ds_Schema]. rewrite Hs, Ek. cbn [negb]. by rewrite bool_decide_eq_true_2 by done.
Qed.

(** Every descriptor the executor hands to a runner, of a step or of a map item, asks
    for an output that the artifact runtime accepts from that producer: the executor's key
    of the output is the runtime's slot. *)
Theorem descriptor_destination_accepted attempt itemIndex d
    (Hid : runIdentity attempt itemIndex)
    (Hd : match itemIndex with
          | None => descriptorForStep planHash storeBinding projectKey runID node input index attempt
          | Some i => descriptorForMapItem planHash storeBinding projectKey runID node input index i attempt
          end = Ok d)
    (Hschema : isHashRef (xo_Schema (sd_Output d)) = true) :
  ∃ key, ParseKey (xo_ManifestKey (sd_Output d)) = Ok key ∧
    ValidateDestination {| ds_ManifestKey := key; ds_Schema := xo_Schema (sd_Output d) |} (descriptorProducer d) = Ok tt.
Proof.
  assert (∀ d, descriptorForStep planHash storeBinding projectKey runID node input index attempt = Ok d →
    ∃ key, runOutputManifestKey projectKey runID id None attempt = Ok key ∧
      xo_ManifestKey (sd_Output d) = key_value key ∧ descriptorProducer d = producerOf None attempt) as Hstep.
  { clear. intros d. unfold descriptorForStep. do 3 (case_match; [|done]).
    intros (key & Hkey & [= <-])%bind_Ok. by exists key. }
  destruct itemIndex as [i|].
  - unfold descriptorForMapItem in Hd. apply bind_Ok in Hd as (d0 & (_ & _ & _ & Hp)%Hstep & Hd).
    apply bind_Ok in Hd as (key & Hkey & [= <-]). exists key. cbn [sd_Output xo_ManifestKey xo_Schema] in *.
    match goal with |- _ ∧ ValidateDestination _ (descriptorProducer ?d) = _ =>
      assert (descriptorProducer d = producerOf (scopeOf (Some i)) attempt) as -> end.
    { unfold descriptorProducer in *. cbn. injection Hp. intros. unfold producerOf. by f_equal. }
    by apply (slot_accepted _ (Some i)).
  - destruct (Hstep d Hd) as (key & Hkey & Ek & ->). exists key. rewrite Ek. by apply (slot_accepted _ None).
Qed.
End Descriptor.

(** ** The sample workflow *)
Lemma executor_follows_schedule_witness :
  topologicalPlanOrder (compileGraph ∅ ∅ pipeline (cr_Schedule pipelineResult)) = Ok ["start"; "work"; "end"].
Proof.
  apply (executor_follows_schedule ∅ ∅ pipeline (cr_Schedule pipelineResult)).
  - vm_compute. reflexivity.
  - repeat constructor.
  - refine (bool_decide_eq_true_1 _ _). vm_compute. reflexivity.
Defined.

Definition sampleProject : string := NormalizeProjectKey (λ s, checksumHash s) " Demo".
Definition sampleItemNode : PlanNode :=
  {| pn_Id := Some "each"; pn_Kind := Some "map"; pn_InputSchema := None; pn_OutputSchema := None;
     pn_SymbolRef := Some "sym"; pn_ContractRef := Some "contract"; pn_MergeInputs := []; pn_Selector := None;
     pn_Cases := []; pn_DecisionRef := None; pn_SelectInputs := []; pn_ItemInputSchema := None;
     pn_ItemOutputSchema := Some (DigestBytes checksumHash "{}"); pn_MaxConcurrency := Some 1; pn_ItemFailures := None |}.
Definition sampleIndex : executionIndex :=
  {| ix_nodesByID := {["each" := sampleItemNode]};
     ix_symbolsByRef := {["sym" := {| ye_SymbolRef := Some "sym"; ye_PackageId := Some "pkg"; ye_Language := Some "ts";
                                     ye_Module := Some "a"; ye_Export := Some "f" |}]};
     ix_contractsByRef := {["contract" := sampleContract]};
     ix_packagesByID := {["pkg" := {| sa_PackageID := "pkg"; sa_Language := "ts"; sa_PackageHash := "h"; sa_Key := "k";
                                     sa_ArchiveHash := "h"; sa_ContentType := SourceArchiveContentType |}]};
     ix_inboundByTarget := ∅; ix_nodeOrder := []; ix_stepOrder := []; ix_schemaRefs := ∅; ix_schemaJSON := ∅ |}.
Definition samplePlanHash : string := DigestBytes checksumHash "plan".
Definition sampleDescriptor : result StepInvocationDescriptor :=
  descriptorForMapItem samplePlanHash (LocalDatastoreDescriptor "/data") sampleProject "run-1" sampleItemNode
    zeroDataArtifact sampleIndex 3 2.
Definition theDescriptor (r : result StepInvocationDescriptor) : option StepInvocationDescriptor :=
  match r with Ok d => Some d | Err _ => None end.

Lemma descriptor_destination_accepted_witness :
  ∃ d key, theDescriptor sampleDescriptor = Some d ∧ ParseKey (xo_ManifestKey (sd_Output d)) = Ok key ∧
    ValidateDestination {| ds_ManifestKey := key; ds_Schema := xo_Schema (sd_Output d) |} (descriptorProducer d) = Ok tt.
Proof.
  destruct sampleDescriptor as [d|e] eqn:E; [|vm_compute in E; discriminate E]. exists d.
  destruct (descriptor_destination_accepted samplePlanHash (LocalDatastoreDescriptor "/data") sampleProject "run-1"
    sampleItemNode zeroDataArtifact sampleIndex 2 (Some 3) d) as (key & Hk & Hv).
  - split; [vm_compute; reflexivity..| |]; [unfold MaxJSONSafeInteger; lia|]. intros i [= <-]. unfold MaxJSONSafeInteger. lia.
  - exact E.
  - assert (xo_Schema (sd_Output d) = DigestBytes checksumHash "{}") as ->; [|vm_compute; reflexivity].
    vm_compute in E. injection E as <-. reflexivity.
  - exists key. split; [reflexivity|]. split; assumption.
Defined.
