(* ===== verification/NoFatal.v ===== *)
(** * Where errors come from

    [Run] looks for a [FatalRunError] in the error that stopped it, and a panic would skip
    the terminal journal.  The functions a run calls build their errors themselves or wrap
    those of the store, so a fatal cause comes from a step's outcome alone, and a panic only
    from a key that does not parse.  The tactic [nofatal] proves this for a function by
    following its branches. *)

From S2P Require Import Prelude Utf16 Text SpecTypes PlanTypes Json Canonical CanonicalText CanonicalForm JsonRaw SourceIdentity Datastore Encode Artifact Journal JournalOps MapExec Retry Index Resolution World.
From Stdlib Require Import SpecFloat.
#[local] Open Scope Z_scope.

(** Not a fatal cause, and not a panic. *)
Definition plain (e : error) : Prop := asFatal e = None ∧ isPanic e = false.
Definition noFatal {A} (r : result A) : Prop := ∀ e, r = Err e → plain e.

Create HintDb nofatal.

Lemma noFatal_Ok {A} (a : A) : noFatal (Ok a).
Proof. by intros e [=]. Qed.
Lemma noFatal_Err {A} e : plain e → noFatal (Err (A := A) e).
Proof. by intros H e' [= <-]. Qed.

Lemma plain_Errorf format args :
  Forall (λ a, match a with AWrap e => plain e | _ => True end) args → plain (Errorf format args).
Proof.
  intros H. split; [|done]. change (asFatal (Errorf format args)) with
    ((fix anyArg (l : list errArg) : option (string * string * string) :=
       match l with
       | [] => None
       | AWrap e' :: l' => match asFatal e' with Some a => Some a | None => anyArg l' end
       | _ :: l' => anyArg l'
       end) args).
  induction H as [|a args Ha _ IH]; [done|]. destruct a; try exact IH. destruct Ha as [Ha _]. by rewrite Ha.
Qed.

Lemma noFatal_wrap {A} format args (r : result A) :
  Forall (λ a, match a with AWrap e => plain e | _ => True end) args → noFatal r → noFatal (wrapErr format args r).
Proof.
  intros Ha Hr e. destruct r as [|e']; [done|]. intros [= <-]. apply plain_Errorf, Forall_app.
  split; [done|]. constructor; [by apply Hr|constructor].
Qed.
Lemma noFatal_bind {A B} (m : result A) (f : A → result B) :
  noFatal m → (∀ a, m = Ok a → noFatal (f a)) → noFatal (m ≫= f).
Proof. intros Hm Hf. destruct m as [a|e]; [by apply Hf|]. intros e' [= <-]. by apply Hm. Qed.
Lemma noFatal_fmap {A B} (f : A → B) (m : result A) : noFatal m → noFatal (f <$> m).
Proof. intros Hm e. destruct m; [done|]. intros [= <-]. by apply Hm. Qed.
Lemma noFatal_foldErr {A B} (f : A → B → result A) acc l : (∀ a x, noFatal (f a x)) → noFatal (foldErr f acc l).
Proof.
  intros Hf. revert acc; induction l as [|x l IH]; intros acc; [apply noFatal_Ok|]. apply noFatal_bind; [done|]. auto.
Qed.
Lemma noFatal_mapErr {A B} (f : A → result B) l : Forall (λ x, noFatal (f x)) l → noFatal (mapErr f l).
Proof.
  induction 1 as [|x l Hx _ IH]; [apply noFatal_Ok|]. apply noFatal_bind; [done|]. intros y _.
  apply noFatal_bind; [done|]. intros ys _. apply noFatal_Ok.
Qed.
Lemma noFatal_mapErr_all {A B} (f : A → result B) l : (∀ x, noFatal (f x)) → noFatal (mapErr f l).
Proof. intros H. apply noFatal_mapErr, Forall_true, H. Qed.
Lemma noFatal_mapMembers {A B} (f : A → result B) l : Forall (λ kv, noFatal (f kv.2)) l → noFatal (mapMembers f l).
Proof.
  induction 1 as [|[k x] l Hx _ IH]; [apply noFatal_Ok|]. apply noFatal_bind; [done|]. intros y _.
  apply noFatal_bind; [done|]. intros ys _. apply noFatal_Ok.
Qed.

Ltac nofatal :=
  repeat first
    [ solve [eauto with nofatal]
    | apply noFatal_Ok
    | apply noFatal_Err; split; reflexivity
    | apply noFatal_wrap; [repeat constructor|]
    | apply noFatal_bind; [|intros ? _]
    | apply noFatal_foldErr; intros ? ?
    | apply noFatal_mapErr_all; intros ?
    | apply noFatal_fmap
    | case_match ].

#[export] Hint Resolve noFatal_Ok : nofatal.

(** ** Keys *)
Lemma ParseKey_noFatal value : noFatal (ParseKey value).
Proof. unfold ParseKey. nofatal. Qed.
Lemma MustKey_noFatal value key : ParseKey value = Ok key → noFatal (MustKey value).
Proof. unfold MustKey. intros ->. nofatal. Qed.
#[export] Hint Resolve ParseKey_noFatal : nofatal.
Lemma BlobKeySHA256Hex_noFatal digest : noFatal (BlobKeySHA256Hex digest).
Proof. unfold BlobKeySHA256Hex. nofatal. Qed.
#[export] Hint Resolve BlobKeySHA256Hex_noFatal : nofatal.
Lemma blobKeyForHash_noFatal hash : noFatal (blobKeyForHash hash).
Proof. unfold blobKeyForHash, refDigest. nofatal. Qed.
Lemma blobKey_noFatal hash : noFatal (blobKey hash).
Proof. unfold blobKey. nofatal. Qed.
#[export] Hint Resolve blobKeyForHash_noFatal blobKey_noFatal : nofatal.

(** ** Canonical JSON *)
Section Json.
Context (NumberToJSON : spec_float → result string) (HN : ∀ d, noFatal (NumberToJSON d)).

Lemma decodeNumbers_noFatal t : noFatal (decodeNumbers NumberToJSON t).
Proof.
  induction t as [|b|token|s|items IH|ms IH] using json_nested_ind; cbn [decodeNumbers]; try apply noFatal_Ok.
  - apply noFatal_fmap. unfold decodeNumber. nofatal.
  - by apply noFatal_fmap, noFatal_mapErr.
  - by apply noFatal_fmap, noFatal_mapMembers.
Qed.

Lemma joinOut_noFatal outs : Forall noFatal outs → noFatal (joinOut outs).
Proof.
  induction 1 as [|o outs Ho Houts IH]; [apply noFatal_Ok|]. cbn [joinOut].
  destruct outs; [done|]. nofatal.
Qed.

Lemma writeCanonicalJSON_noFatal v : noFatal (writeCanonicalJSON NumberToJSON v).
Proof.
  induction v as [|b|d|s|items IH|ms IH] using value_nested_ind; cbn [writeCanonicalJSON]; try (by nofatal).
  - apply noFatal_bind; [|intros ? _; nofatal]. apply joinOut_noFatal. by apply Forall_fmap.
  - apply noFatal_bind; [|intros ? _; nofatal]. apply joinOut_noFatal. apply Forall_fmap.
    rewrite (sortMembers_Permutation _). apply Forall_fmap. eapply Forall_impl; [exact IH|]. intros kv H. cbn. nofatal.
Qed.

Lemma CanonicalizeJSON_noFatal data : noFatal (CanonicalizeJSON NumberToJSON data).
Proof.
  apply noFatal_bind; [|intros v _; apply writeCanonicalJSON_noFatal].
  unfold decodeJSON. repeat case_match; try (by nofatal). apply decodeNumbers_noFatal.
Qed.
#[local] Hint Resolve CanonicalizeJSON_noFatal : nofatal.

Lemma Marshal_noFatal t : noFatal (Marshal NumberToJSON t).
Proof. unfold Marshal. nofatal. Qed.
Lemma marshalRaw_noFatal l : noFatal (marshalRaw NumberToJSON l).
Proof. apply CanonicalizeJSON_noFatal. Qed.
Lemma Expand_noFatal body : noFatal (Expand NumberToJSON body).
Proof. unfold Expand, expandItem. nofatal. Qed.
Lemma Collect_noFatal n results : noFatal (Collect NumberToJSON n results).
Proof. unfold Collect, collectStep, marshalRaw. nofatal. Qed.
Lemma CollectOutcomes_noFatal n outcomes : noFatal (CollectOutcomes NumberToJSON n outcomes).
Proof. apply noFatal_bind; [unfold outcomeResult; nofatal|intros results _; apply Collect_noFatal]. Qed.
Lemma recompute_noFatal sha256Hex files : noFatal (recomputeSourcePackageHash NumberToJSON sha256Hex files).
Proof.
  unfold recomputeSourcePackageHash, Digest, DigestJSON. destruct files as [|f files]; [nofatal|].
  apply noFatal_bind; [|intros ? _; nofatal]. generalize (@None File) 0%nat (f :: files). intros prev k l. revert k prev.
  induction l as [|x l IH]; intros k prev; cbn [checkFiles]; [nofatal|].
  case_match; [nofatal|]. case_match; [nofatal|]. destruct prev as [p|]; [case_match; [nofatal|]|]; apply IH.
Qed.
End Json.

(** ** The store *)
Class StoreNoFatal (W : Type) `{Datastore W} : Prop := {
  get_noFatal : ∀ key w, noFatal (Get key w);
  put_noFatal : ∀ key body options w, noFatal (Put key body options w).1;
}.

Section Store.
Context (NumberToJSON : spec_float → result string) (HN : ∀ d, noFatal (NumberToJSON d)) (sha256Hex : string → string).
Context (ValidateJSONSchema : string → string → result unit) (validateManifestSchema : string → result unit).
Context {W : Type} `{StoreNoFatal W}.
#[local] Hint Resolve CanonicalizeJSON_noFatal Marshal_noFatal get_noFatal : nofatal.

Lemma ValidateDestination_noFatal d p : noFatal (ValidateDestination d p).
Proof. unfold ValidateDestination, validateProducerIdentity. nofatal. Qed.
Lemma validateCanonicalJSON_noFatal w schema body :
  noFatal (validateCanonicalJSON NumberToJSON sha256Hex ValidateJSONSchema w schema body).
Proof. unfold validateCanonicalJSON. nofatal. Qed.
#[local] Hint Resolve ValidateDestination_noFatal validateCanonicalJSON_noFatal : nofatal.

Lemma putImmutable_noFatal key body contentType conflict w :
  plain conflict → noFatal (putImmutable key body contentType conflict w).1.
Proof.
  intros Hc. unfold putImmutable. pose proof (put_noFatal key body {| po_ContentType := contentType; po_IfAbsent := true |} w) as Hp.
  destruct (Put _ _ _ w) as [[info|err] w']; cbn [fst] in *; [nofatal|].
  assert (plain err) as He by by apply Hp.
  repeat case_match; try (by nofatal); apply noFatal_Err, plain_Errorf; repeat (apply Forall_cons; split); done.
Qed.

Lemma PublishJSON_noFatal d p body w :
  noFatal (PublishJSON NumberToJSON sha256Hex ValidateJSONSchema validateManifestSchema d p body w).1.
Proof.
  unfold PublishJSON.
  assert (noFatal (preparePublication NumberToJSON sha256Hex ValidateJSONSchema validateManifestSchema w d p body)) as Hp.
  { unfold preparePublication, canonicalManifest. nofatal. }
  destruct (preparePublication _ _ _ _ _ _ _ _) as [[[bodyKey bodyRef] bytes]|e]; [|by apply noFatal_Err, Hp].
  pose proof (putImmutable_noFatal bodyKey body JSONContentType ErrBodyConflict w (conj eq_refl eq_refl)) as H1.
  destruct (putImmutable _ _ _ _ w) as [[[]|e] w1]; [|by apply noFatal_Err, H1].
  pose proof (putImmutable_noFatal (ds_ManifestKey d) bytes ManifestContentType ErrManifestConflict w1 (conj eq_refl eq_refl)) as H2.
  destruct (putImmutable _ _ _ _ w1) as [[[]|e] w2]; [nofatal|by apply noFatal_Err, H2].
Qed.

Lemma ResolveJSON_noFatal d p w :
  noFatal (ResolveJSON NumberToJSON sha256Hex ValidateJSONSchema validateManifestSchema d p w).
Proof. unfold ResolveJSON, resolveManifest. nofatal. Qed.
End Store.

(** ** Resolution and descriptors *)
Section Resolution.
Context (NumberToJSON : spec_float → result string) (HN : ∀ d, noFatal (NumberToJSON d)).
Context (validateJSONAgainstSchema : string → string → result unit).

Lemma inputForNode_noFatal r node : noFatal (inputForNode NumberToJSON r node).
Proof.
  assert (∀ id source, noFatal (outputBody r id source)) by (intros; unfold outputBody; nofatal).
  pose proof (marshalRaw_noFatal NumberToJSON HN). unfold inputForNode. nofatal.
Qed.
Lemma selectOutput_noFatal r node : noFatal (selectOutput r node).
Proof. unfold selectOutput. nofatal. Qed.
Lemma activationSkipReason_noFatal r node : noFatal (activationSkipReason r node).
Proof.
  assert (∀ id edges, noFatal (inboundGate r id edges)).
  { intros id edges. induction edges as [|e edges IH]; cbn [inboundGate]; nofatal. }
  unfold activationSkipReason. nofatal.
Qed.
Lemma decisionCaseForValue_noFatal node input schemas :
  noFatal (decisionCaseForValue validateJSONAgainstSchema node input schemas).
Proof.
  assert (∀ tag cases, noFatal (selectCase validateJSONAgainstSchema node tag input schemas cases)).
  { intros tag cases. induction cases as [|c cases IH]; cbn [selectCase]; nofatal. }
  unfold decisionCaseForValue. nofatal.
Qed.
Lemma routeDecision_noFatal r node : noFatal (routeDecision NumberToJSON validateJSONAgainstSchema r node).
Proof.
  pose proof (inputForNode_noFatal r node). pose proof (decisionCaseForValue_noFatal node). unfold routeDecision. nofatal.
Qed.
End Resolution.

Lemma descriptorForStep_noFatal planHash binding projectKey runID node input index n :
  noFatal (runOutputManifestKey projectKey runID (GetString (pn_Id node)) None n) →
  noFatal (descriptorForStep planHash binding projectKey runID node input index n).
Proof. intros H. unfold descriptorForStep. nofatal. Qed.
Lemma descriptorForMapItem_noFatal planHash binding projectKey runID node input index i n :
  noFatal (runOutputManifestKey projectKey runID (GetString (pn_Id node)) None n) →
  noFatal (runOutputManifestKey projectKey runID (GetString (pn_Id node)) (Some (itemScope node i)) n) →
  noFatal (descriptorForMapItem planHash binding projectKey runID node input index i n).
Proof. intros H1 H2. pose proof descriptorForStep_noFatal. unfold descriptorForMapItem. nofatal. Qed.
