(* ===== verification/RunKeys.v ===== *)
(** * The keys of a run

    Every key a run composes from checked identifiers parses, so [MustKey] never panics on
    it, and none of them is the key of the run's journal. *)

From S2P Require Import Prelude Utf16 Text SpecTypes PlanTypes Json Canonical CanonicalText CanonicalForm SourceIdentity Datastore Encode Artifact ArtifactSafety Journal JournalOps Retry Index IndexSafety NoFatal.
From Stdlib Require Import SpecFloat Ascii.
#[local] Open Scope Z_scope.

(** ** Segments *)
Record segment (s : string) : Prop := {
  sg_proper : properSegment s;
  sg_slash : noSlash s;
  sg_back : containsByte (charOf 92) s = false;
}.

Lemma containsByte_app c a b : containsByte c (a +:+ b) = containsByte c a || containsByte c b.
Proof.
  induction a as [|x a IH]; [done|]. change (String x a +:+ b) with (String x (a +:+ b)).
  cbn [containsByte]. by rewrite IH, orb_assoc.
Qed.

Lemma segment_key head segments : segment head → Forall segment segments →
  isWindowsAbs (head +:+ pathOf segments) = false →
  ParseKey (head +:+ pathOf segments) = Ok {| key_value := head +:+ pathOf segments |}.
Proof.
  intros Hh Hs Hw. apply ParseKey_Ok. split_and!; [done| | |done].
  - rewrite splitOn_path; [|apply Hh|exact (Forall_impl _ _ _ Hs sg_slash)].
    constructor; [apply Hh|]. exact (Forall_impl _ _ _ Hs sg_proper).
  - rewrite containsByte_app, (sg_back _ Hh). cbn [orb]. clear Hw. induction Hs as [|x l Hx _ IH]; [done|].
    change (pathOf (x :: l)) with (String "/" (x +:+ pathOf l)). cbn [containsByte].
    by rewrite containsByte_app, (sg_back _ Hx), IH.
Qed.

Lemma safe_noBack s : forallb safeByte (bytesOf s) = true → containsByte (charOf 92) s = false.
Proof.
  intros H. destruct (containsByte _ s) eqn:E; [|done]. apply containsByte_bytes in E. by destruct (safeByte_slash _ H).
Qed.

Lemma safe_segment s : isSafePathSegment s = true → segment s.
Proof.
  intros Hs. pose proof Hs as Hp. unfold isSafePathSegment in Hs.
  rewrite andb_true_iff, negb_true_iff, !orb_false_iff, !bool_decide_eq_false in Hs.
  destruct Hs as [[[[H1 _] H2] H3] H4]. split; [|by apply safeSegment_noSlash|by apply safe_noBack].
  split_and!; [by intros ->|done|done].
Qed.

Lemma append_segment s t : segment s → noSlash t → containsByte (charOf 92) t = false → (2 < String.length t)%nat → segment (s +:+ t).
Proof.
  intros [_ H1 H2] H3 H4 Hlen.
  assert (∀ u, (String.length u < 3)%nat → s +:+ t ≠ u) as Hne.
  { intros u Hu E. apply (f_equal String.length) in E. rewrite string_length_app in E. lia. }
  split; [|unfold noSlash in *|]; rewrite ?containsByte_app, ?H1, ?H2 by done; [|done..].
  split_and!; apply Hne; cbn; lia.
Qed.
Lemma suffix_segment s : segment s → segment (s +:+ ".json").
Proof. intros H. apply append_segment; [done|done|done|cbn; lia]. Qed.

Lemma itoa_segment z : 0 ≤ z → segment (itoa z).
Proof.
  intros Hz. destruct (itoa_bytes z) as (ds & [Hd Hne] & _ & E).
  assert (z <? 0 = false) as Hneg by lia. rewrite Hneg in E.
  assert (∀ b, b ∈ bytesOf (itoa z) → isDigit b = true) as Hdig.
  { intros b. rewrite E. intros Hb. exact (proj1 (Forall_forall _ _) Hd _ Hb). }
  split; [|apply itoa_noSlash|].
  - split_and!; intros Es; rewrite Es in *; cbn in *; [by destruct ds|..]; specialize (Hdig 46); (discriminate Hdig; left).
  - destruct (containsByte _ _) eqn:Ec; [|done]. apply containsByte_bytes, Hdig in Ec. by vm_compute in Ec.
Qed.

Lemma project_segment s : isSafeProjectKey s = true → segment s.
Proof.
  intros Hs. pose proof (projectKey_noSlash _ Hs) as Hn. unfold isSafeProjectKey, prefixedHex in Hs.
  apply andb_prop in Hs as [Hl%Nat.eqb_eq H]. destruct (stripPrefix _ _) as [rest|] eqn:E; [|done].
  apply stripPrefix_Some in E. split; [|done|].
  - split_and!; intros ->; discriminate Hl.
  - destruct (containsByte _ s) eqn:Ec; [|done]. apply containsByte_bytes in Ec. rewrite E in Ec.
    apply elem_of_app in Ec as [Ec|Ec]; [by apply (bool_decide_unpack _) in Ec || (exfalso; revert Ec; apply (bool_decide_unpack _); vm_compute)|].
    pose proof (proj1 (forallb_forall _ _) H _ (proj1 (list_elem_of_In _ _) Ec)) as X. by vm_compute in X.
Qed.

Ltac segments :=
  repeat first
    [ apply Forall_nil_2
    | apply Forall_cons_2
    | assumption
    | apply suffix_segment
    | apply itoa_segment; lia
    | apply safe_segment; assumption
    | split; [split_and!; discriminate|reflexivity|reflexivity] ].

(** A digest reference with a dash is one segment. *)
Lemma dashed_safe reference : IsSHA256Ref reference = true → isSafeProjectKey (dashed reference) = true.
Proof.
  unfold IsSHA256Ref, dashed. destruct (stripPrefix _ (bytesOf reference)) as [digest|] eqn:E; [|done].
  intros [Hl%Z.eqb_eq H]%andb_prop. apply stripPrefix_Some in E.
  assert (Forall (λ b, 0 <= b < 256) digest) as Hd.
  { pose proof (bytesOf_range reference) as Hr. rewrite E in Hr. by apply Forall_app in Hr as [_ ?]. }
  unfold isSafeProjectKey, prefixedHex. rewrite bytesOf_app, bytes_ofBytes by done.
  assert (stripPrefix (bytesOf "sha256-") (bytesOf "sha256-" ++ digest) = Some digest) as -> by reflexivity.
  unfold isLowerHex. rewrite H, andb_true_r, string_length_app. apply Nat.eqb_eq.
  rewrite <- (length_bytesOf (ofBytes digest)), bytes_ofBytes by done. cbn. lia.
Qed.

Lemma NormalizeProjectKey_safe sha256Hex projectID : (∀ s, IsSHA256Ref (DigestBytes sha256Hex s) = true) →
  isSafeProjectKey (NormalizeProjectKey sha256Hex projectID) = true.
Proof.
  intros Hhex. unfold NormalizeProjectKey.
  match goal with |- context [sha256Hex ?x] => pose proof (dashed_safe _ (Hhex x)) as H; set (body := x) in * end.
  assert (dashed (DigestBytes sha256Hex body) = "sha256-" +:+ sha256Hex body) as E; [|by rewrite <- E].
  unfold dashed, DigestBytes. rewrite bytesOf_app.
  assert (∀ l, stripPrefix (bytesOf "sha256:") (bytesOf "sha256:" ++ l) = Some l) as -> by reflexivity.
  by rewrite ofBytes_bytesOf.
Qed.

Lemma sourceArchiveKey_ok packageHash archiveHash : IsSHA256Ref packageHash = true → IsSHA256Ref archiveHash = true →
  ∃ key, MustKey (sourceArchiveKey packageHash archiveHash) = Ok key.
Proof.
  intros Hp%dashed_safe%project_segment Ha%dashed_safe%project_segment. eexists. unfold MustKey.
  assert (sourceArchiveKey packageHash archiveHash =
    "packages" +:+ pathOf [dashed packageHash; "archives"; dashed archiveHash +:+ ".tar"]) as ->.
  { unfold sourceArchiveKey. cbn [pathOf foldr map]. rewrite !string_app_assoc. by rewrite ?string_app_nil_r. }
  rewrite segment_key; [reflexivity| | |reflexivity].
  - split; [split_and!; discriminate|reflexivity|reflexivity].
  - segments. apply append_segment; [done|done|done|cbn; lia].
Qed.

(** ** Keys *)
Definition keyOf (segments : list string) : string := "projects" +:+ pathOf segments.

Lemma keyOf_parses segments : Forall segment segments → MustKey (keyOf segments) = Ok {| key_value := keyOf segments |}.
Proof.
  intros H. unfold MustKey, keyOf. rewrite segment_key; [done| |done|done].
  split; [split_and!; discriminate|reflexivity|reflexivity].
Qed.

Lemma keyOf_inj a b : Forall segment a → Forall segment b → keyOf a = keyOf b → a = b.
Proof.
  intros Ha Hb E. unfold keyOf in E. apply (f_equal (splitOn "/")) in E.
  rewrite !splitOn_path in E; [by injection E|reflexivity|exact (Forall_impl _ _ _ Hb sg_slash)|reflexivity|
    exact (Forall_impl _ _ _ Ha sg_slash)].
Qed.

Section Run.
Context (projectKey runID : string) (Hproject : isSafeProjectKey projectKey = true) (Hrun : isSafePathSegment runID = true).
#[local] Hint Resolve project_segment safe_segment : core.

Definition journalSegments : list string := [projectKey; "runs"; runID; "run-manifest.json"].
Definition journalKey : Key := {| key_value := keyOf journalSegments |}.

Let HP : segment projectKey := project_segment _ Hproject.
Let HR : segment runID := safe_segment _ Hrun.

Lemma runManifestKey_eq : runManifestKey projectKey runID = Ok journalKey.
Proof.
  unfold runManifestKey, runPath, journalKey. rewrite !string_app_assoc.
  rewrite <- (keyOf_parses journalSegments) by (unfold journalSegments; segments). reflexivity.
Qed.

(** The segments of an input, and of an output, by the map item it belongs to. *)
Definition inputSegments (id : string) (item : option Z) : list string :=
  [projectKey; "runs"; runID; "inputs"] ++
  match item with
  | None => [id +:+ ".json"]
  | Some i => [id; "scopes"; "maps"; id; "items"; itoa i +:+ ".json"]
  end.
Definition outputSegments (id : string) (item : option Z) (n : Z) : list string :=
  [projectKey; "runs"; runID; "steps"; id] ++
  match item with None => [] | Some i => ["scopes"; "maps"; id; "items"; itoa i] end ++ [itoa n; "output-manifest.json"].

Lemma inputSegments_ok id item : isSafePathSegment id = true → (∀ i, item = Some i → 0 <= i) →
  Forall segment (inputSegments id item).
Proof.
  intros Hid Hi. unfold inputSegments. destruct item as [i|]; cbn [app]; [specialize (Hi i eq_refl)|]; segments.
Qed.
Lemma outputSegments_ok id item n : isSafePathSegment id = true → (∀ i, item = Some i → 0 <= i) → 0 <= n →
  Forall segment (outputSegments id item n).
Proof.
  intros Hid Hi Hn. unfold outputSegments. destruct item as [i|]; cbn [app]; [specialize (Hi i eq_refl)|]; segments.
Qed.

Lemma runInputKey_eq node item : let id := GetString (pn_Id node) in
  isSafePathSegment id = true → (∀ i, item = Some i → 0 <= i) →
  runInputKey projectKey runID id (itemScope node <$> item) = Ok {| key_value := keyOf (inputSegments id item) |}.
Proof.
  intros id Hid Hi. unfold runInputKey, runPath. rewrite !string_app_assoc.
  rewrite <- (keyOf_parses (inputSegments id item)) by by apply inputSegments_ok.
  f_equal. unfold keyOf, inputSegments, pathOf. destruct item as [i|]; cbn [fmap option_fmap option_map itemScope
    scopeSuffix es_Frames foldr fr_MapID fr_Index app]; by rewrite ?string_app_assoc, ?string_app_nil.
Qed.

Lemma runOutputManifestKey_eq node item n : let id := GetString (pn_Id node) in
  isSafePathSegment id = true → (∀ i, item = Some i → 0 <= i) → 0 <= n →
  runOutputManifestKey projectKey runID id (itemScope node <$> item) n =
  Ok {| key_value := keyOf (outputSegments id item n) |}.
Proof.
  intros id Hid Hi Hn. unfold runOutputManifestKey, runPath. rewrite !string_app_assoc.
  rewrite <- (keyOf_parses (outputSegments id item n)) by by apply outputSegments_ok.
  f_equal. unfold keyOf, outputSegments, pathOf. destruct item as [i|]; cbn [fmap option_fmap option_map itemScope
    scopeSuffix es_Frames foldr fr_MapID fr_Index app]; by rewrite ?string_app_assoc, ?string_app_nil.
Qed.

Lemma runResultKey_eq : runResultKey projectKey runID = Ok {| key_value := keyOf [projectKey; "runs"; runID; "result.json"] |}.
Proof.
  unfold runResultKey, runPath. rewrite !string_app_assoc.
  rewrite <- (keyOf_parses [projectKey; "runs"; runID; "result.json"]) by segments. reflexivity.
Qed.

(** None of them is the journal's. *)
Lemma keyOf_ne segments : Forall segment segments → segments ≠ journalSegments →
  {| key_value := keyOf segments |} ≠ journalKey.
Proof.
  intros Hs Hne E. apply Hne. apply keyOf_inj; [done|unfold journalSegments; segments|].
  exact (f_equal key_value E).
Qed.
Lemma inputKey_ne id item : isSafePathSegment id = true → (∀ i, item = Some i → 0 <= i) →
  {| key_value := keyOf (inputSegments id item) |} ≠ journalKey.
Proof. intros Hid Hi. apply keyOf_ne; [by apply inputSegments_ok|]. unfold inputSegments, journalSegments. by destruct item. Qed.
Lemma outputKey_ne id item n : isSafePathSegment id = true → (∀ i, item = Some i → 0 <= i) → 0 <= n →
  {| key_value := keyOf (outputSegments id item n) |} ≠ journalKey.
Proof. intros Hid Hi Hn. apply keyOf_ne; [by apply outputSegments_ok|]. unfold outputSegments, journalSegments. by destruct item. Qed.
Lemma resultKey_ne : {| key_value := keyOf [projectKey; "runs"; runID; "result.json"] |} ≠ journalKey.
Proof. apply keyOf_ne; [segments|]. unfold journalSegments. congruence. Qed.

(** Keys outside the projects. *)
Lemma blobKey_ne hash key : blobKey hash = Ok key → key ≠ journalKey.
Proof.
  unfold blobKey, BlobKeySHA256Hex. destruct (stripPrefix _ _) as [digest|]; [|done]. case_match; [done|].
  intros (-> & _)%ParseKey_Ok E. discriminate E.
Qed.
Lemma blobKeyForHash_ne hash key : blobKeyForHash hash = Ok key → key ≠ journalKey.
Proof.
  unfold blobKeyForHash, BlobKeySHA256Hex. intros (digest & _ & H)%bind_Ok. case_match; [done|].
  apply ParseKey_Ok in H as (-> & _). intros E. discriminate E.
Qed.
Lemma sourceArchiveKey_ne a b key : MustKey (sourceArchiveKey a b) = Ok key → key ≠ journalKey.
Proof.
  unfold MustKey. destruct (ParseKey _) as [k|] eqn:Ek; [|done]. intros [= <-]. apply ParseKey_Ok in Ek as (-> & _).
  intros E. discriminate E.
Qed.
End Run.
