(* ===== verification/RunLogic.v ===== *)
(** * Reasoning about a run

    A weakest-precondition calculus for the monad of a run, after the state-and-failure
    monads of verified processors: [wp m Q E s] says that [m] from [s] ends in [Q], or fails
    in [E].  [JournalWorld] is what a run needs of its world: a property [I] of the world
    that every operation keeps, given that what is written under the journal's key is a
    readable journal; that a fatal cause comes from a step that failed; and that no
    operation panics.  The assertions of the proofs name the current manifest. *)

From S2P Require Import Prelude Utf16 Text SpecTypes PlanTypes Json Canonical CanonicalText SourceIdentity Datastore Encode Artifact Journal JournalOps JournalSafety MapExec Retry Index Resolution World StepRun MapRun NoFatal.
From Stdlib Require Import SpecFloat.
#[local] Open Scope Z_scope.

(** A text the journal's reader accepts. *)
Definition readable (NumberToJSON : spec_float → result string) (body : string) : Prop :=
  ∃ m, Marshal NumberToJSON (journalTree m) = Ok body ∧ checkManifest m = Ok m.

Definition preserves {W A} (I : W → Prop) (f : W → A * W) : Prop := ∀ w a w', I w → f w = (a, w') → I w'.
Definition noFatalOp {W A} (f : W → result A * W) : Prop := ∀ w, noFatal (f w).1.

(** A fatal cause names a step of the batch, whose invocation failed. *)
Record fatalOutcomes (batch : StepInvocationBatch) (outcomes : list StepInvocationOutcome) (err : option error) : Prop := {
  fo_outcome : ∀ o f, o ∈ outcomes → so_Fatal o = Some f →
    so_Status o = StatusFailed ∧ ∃ inv, inv ∈ sb_Steps batch ∧ sd_NodeID (in_Descriptor inv) = ff_NodeID f;
  fo_error : ∀ e f, err = Some e → asFatal e = Some f → ∃ o f', o ∈ outcomes ∧ so_Fatal o = Some f';
  fo_panic : ∀ e, err = Some e → isPanic e = false;
}.

Class JournalWorld (NumberToJSON : spec_float → result string) (journal : Key) {W : Type} `{World W} (I : W → Prop) : Prop := {
  jw_ctxErr : preserves I ctxErr;
  jw_enter : ∀ k w, I w → I (enter k w);
  jw_leave : ∀ k w, I w → I (leave k w);
  jw_timer : ∀ d, preserves I (timerOrDone d);
  jw_now : preserves I now;
  jw_absPath : ∀ p, preserves I (absPath p) ∧ noFatalOp (absPath p);
  jw_snapshot : ∀ a b c l, preserves I (ensureSourceSnapshot a b c l) ∧ noFatalOp (ensureSourceSnapshot a b c l);
  jw_archive : ∀ a l, preserves I (deterministicSourceArchive a l) ∧ noFatalOp (deterministicSourceArchive a l);
  jw_invoke : ∀ batch, preserves I (InvokeSteps batch);
  jw_fatal : ∀ batch w outcomes err w', InvokeSteps batch w = ((outcomes, err), w') → fatalOutcomes batch outcomes err;
  jw_after : ∀ after d w r w', AfterStepInvocation = Some after → I w → after d w = (r, w') →
    I w' ∧ ∀ e, r = Some e → plain e;
  jw_put : ∀ key body options, key ≠ journal → preserves I (Put key body options);
  jw_journal : ∀ body options, readable NumberToJSON body → preserves I (Put journal body options);
  jw_store :: StoreNoFatal W;
}.

(** ** The calculus *)
Section Wp.
Context {W : Type}.
Implicit Types (s : RunState W).

Definition wp {A} (m : M W A) (Q : A → RunState W → Prop) (E : error → RunState W → Prop) s : Prop :=
  match m s with (Ok a, s') => Q a s' | (Err e, s') => E e s' end.

Lemma wp_bind {A B} (m : M W A) (f : A → M W B) Q E s :
  wp m (λ a, wp (f a) Q E) E s → wp (m ≫= f) Q E s.
Proof. unfold wp, mbind, M_bind. by destruct (m s) as [[a|e] s']. Qed.
Lemma wp_ret {A} (a : A) Q E s : Q a s → wp (mret a) Q E s.
Proof. done. Qed.
Lemma wp_fail {A} e (Q : A → RunState W → Prop) (E : error → RunState W → Prop) s : E e s → wp (fail e) Q E s.
Proof. done. Qed.
Lemma wp_conseq {A} (m : M W A) (Q Q' : A → RunState W → Prop) (E E' : error → RunState W → Prop) s :
  wp m Q E s → (∀ a s', Q a s' → Q' a s') → (∀ e s', E e s' → E' e s') → wp m Q' E' s.
Proof. unfold wp. destruct (m s) as [[a|e] s']; auto. Qed.
Lemma wp_attempt {A} (m : M W A) (Q : result A → RunState W → Prop) (E : error → RunState W → Prop) s :
  wp m (λ a, Q (Ok a)) (λ e s', if isPanic e then E e s' else Q (Err e) s') s → wp (attempt m) Q E s.
Proof. unfold wp, attempt. destruct (m s) as [[a|e] s']; [done|]. by destruct (isPanic e). Qed.

(** Loops, with an invariant over what is left. *)
Lemma wp_forEach {A} (Inv : list A → RunState W → Prop) (f : A → M W unit) E l s :
  (∀ x rest s, Inv (x :: rest) s → wp (f x) (λ _ s', Inv rest s') E s) →
  Inv l s → wp (forEach f l) (λ _ s', Inv [] s') E s.
Proof.
  intros Hf. revert s; induction l as [|x l IH]; intros s HI; [done|]. cbn [forEach]. apply wp_bind.
  eapply wp_conseq; [by apply Hf|intros a; apply IH|done].
Qed.
Lemma wp_foldM {A B} (Inv : list A → B → RunState W → Prop) (f : B → A → M W B) E acc l s :
  (∀ x rest acc s, Inv (x :: rest) acc s → wp (f acc x) (λ acc' s', Inv rest acc' s') E s) →
  Inv l acc s → wp (foldM f acc l) (λ acc' s', Inv [] acc' s') E s.
Proof.
  intros Hf. revert acc s; induction l as [|x l IH]; intros acc s HI; [done|]. cbn [foldM]. apply wp_bind.
  eapply wp_conseq; [by apply Hf|intros acc'; apply IH|done].
Qed.
End Wp.

Section Assertions.
Context (NumberToJSON : spec_float → result string) (HN : ∀ d, noFatal (NumberToJSON d)) (journal : Key).
Context {W : Type} `{World W} (I : W → Prop) `{JW : !JournalWorld NumberToJSON journal I}.
Implicit Types (s : RunState W) (m : Manifest).

(** The current manifest is [m], and the world is as it should be. *)
Definition at_ s m : Prop := rn_manifest s = m ∧ I (rn_world s).

(** A run that stops: the journal is live, a fatal cause has its step, and no panic. *)
Definition explained (e : error) m : Prop :=
  ∀ f, asFatal e = Some f → ∃ step, step ∈ mf_Steps m ∧ explainsFailure f.2 step = true.
Definition stopped (e : error) s : Prop :=
  ∃ m, at_ s m ∧ liveManifest m ∧ explained e m ∧ isPanic e = false.

Lemma stopped_plain e s m : at_ s m → liveManifest m → plain e → stopped e s.
Proof. intros Ha Hl [Hf Hp]. exists m. split_and!; [done|done| |done]. intros f. by rewrite Hf. Qed.

(** A call that fails without touching the journal. *)
Definition plainAt m (e : error) s : Prop := at_ s m ∧ plain e.

Section Rules.
Context {A : Type} (Q : A → RunState W → Prop) (s : RunState W) (m : Manifest) (Hat : at_ s m).

Lemma wp_lift r : liveManifest m → noFatal r → (∀ a, r = Ok a → Q a s) → wp (lift r) Q stopped s.
Proof. intros Hl Hr HQ. unfold wp, lift. destruct r as [a|e]; [by apply HQ|]. by apply (stopped_plain _ _ m); [| |apply Hr]. Qed.

Lemma wp_op f E : preserves I f → (∀ a s' w, at_ s' m → f w = (a, rn_world s') → Q a s') → wp (op f) Q E s.
Proof.
  destruct Hat as [Hm HI]. intros Hf HQ. unfold wp, op. destruct (f (rn_world s)) as [a w'] eqn:E'.
  apply (HQ a _ (rn_world s)); [|done]. split; [done|]. by eapply Hf.
Qed.

Lemma wp_opErr f : liveManifest m → preserves I f → noFatalOp f → (∀ a s', at_ s' m → Q a s') →
  wp (opErr f) Q stopped s.
Proof.
  destruct Hat as [Hm HI]. intros Hl Hf Hn HQ. unfold wp, opErr. pose proof (Hn (rn_world s)) as He.
  destruct (f (rn_world s)) as [[a|e] w'] eqn:E'; [apply HQ|apply (stopped_plain _ _ m); [|done|by apply He]].
  all: split; [done|by eapply Hf].
Qed.

Lemma wp_lift_plain r : noFatal r → (∀ a, r = Ok a → Q a s) → wp (lift r) Q (plainAt m) s.
Proof. intros Hr HQ. unfold wp, lift. destruct r as [a|e]; [by apply HQ|]. split; [done|]. by apply Hr. Qed.
Lemma wp_opErr_plain f : preserves I f → noFatalOp f → (∀ a s', at_ s' m → Q a s') → wp (opErr f) Q (plainAt m) s.
Proof.
  destruct Hat as [Hm HI]. intros Hf Hn HQ. unfold wp, opErr. pose proof (Hn (rn_world s)) as He.
  destruct (f (rn_world s)) as [[a|e] w'] eqn:E'; [apply HQ|split; [|by apply He]].
  all: split; [done|by eapply Hf].
Qed.

End Rules.

Lemma wp_get (Q : RunState W → RunState W → Prop) E s m : at_ s m → (∀ s', at_ s' m → Q s' s') → wp get Q E s.
Proof. intros Ha HQ. by apply HQ. Qed.

Section Updates.
Context (Q : unit → RunState W → Prop) (E : error → RunState W → Prop) (s : RunState W) (m : Manifest) (Hat : at_ s m).
Lemma wp_modify f : (∀ s', at_ s' (f m) → Q tt s') → wp (modify f) Q E s.
Proof. destruct Hat as [<- HI]. intros HQ. by apply HQ. Qed.
Lemma wp_modifyErr f m' : f m = Ok m' → (∀ s', at_ s' m' → Q tt s') → wp (modifyErr f) Q E s.
Proof. destruct Hat as [Hm HI]. intros Hf HQ. unfold wp, modifyErr. rewrite Hm, Hf. by apply HQ. Qed.
Lemma wp_setResolution r : (∀ s', at_ s' m → Q tt s') → wp (setResolution r) Q E s.
Proof. intros HQ. by apply HQ. Qed.
Lemma wp_setPackages p : (∀ s', at_ s' m → Q tt s') → wp (setPackages p) Q E s.
Proof. intros HQ. by apply HQ. Qed.
Lemma wp_setActive id : (∀ s', at_ s' m → Q tt s') → wp (setActive id) Q E s.
Proof. intros HQ. by apply HQ. Qed.
Lemma wp_addDispatched id : (∀ s', at_ s' m → Q tt s') → wp (addDispatched id) Q E s.
Proof. intros HQ. by apply HQ. Qed.
End Updates.

(** ** Writing the journal *)
Lemma preserves_within {A} k (f : W → A * W) : preserves I f → preserves I (within k f).
Proof.
  intros Hf w a w' HI. unfold within. destruct (f (enter k w)) as [a1 w1] eqn:E. intros [= <- <-].
  apply jw_leave. eapply Hf; [|exact E]. by apply jw_enter.
Qed.
Lemma noFatalOp_within {A} k (f : W → result A * W) : noFatalOp f → noFatalOp (within k f).
Proof. intros Hf w. unfold within. pose proof (Hf (enter k w)). by destruct (f (enter k w)). Qed.

Lemma writeRunManifest_preserves m : manifestOk m → preserves I (writeRunManifest NumberToJSON journal m).
Proof.
  intros Hm w r w' HI. unfold writeRunManifest. destruct (Marshal _ _) as [body|e] eqn:Eb; [|by intros [= <- <-]].
  assert (readable NumberToJSON body) as Hr by (exists m; split; [done|by apply checkManifest_Ok]).
  unfold putJSON. destruct (Put _ _ _ w) as [[info|e] w1] eqn:Ep; intros [= <- <-]; by eapply jw_journal.
Qed.
Lemma writeRunManifest_noFatal m : noFatalOp (writeRunManifest NumberToJSON journal m).
Proof.
  intros w. unfold writeRunManifest. pose proof (Marshal_noFatal NumberToJSON HN (journalTree m)) as Hm.
  destruct (Marshal _ _) as [body|e]; [|by apply noFatal_Err, plain_Errorf; repeat (apply Forall_cons; split); try done; apply Hm].
  unfold putJSON. pose proof (put_noFatal journal body {| po_ContentType := jsonContentType; po_IfAbsent := false |} w) as Hp.
  destruct (Put _ _ _ w) as [[info|e] w1]; cbn [fst] in *; [apply noFatal_Ok|].
  apply noFatal_Err, plain_Errorf. repeat (apply Forall_cons; split); try done. by apply Hp.
Qed.

Section Publish.
Context (Q : unit → RunState W → Prop) (s : RunState W) (m : Manifest) (Hat : at_ s m) (Hl : liveManifest m).
Lemma wp_publish : (∀ s', at_ s' m → Q tt s') → wp (publish NumberToJSON journal) Q stopped s.
Proof.
  intros HQ. apply wp_bind, (wp_get _ _ _ m); [done|]. intros s1 H1. destruct (H1) as [-> _].
  eapply wp_opErr; [exact H1|done|by apply writeRunManifest_preserves, liveManifest_ok|apply writeRunManifest_noFatal|].
  intros [] s2. apply HQ.
Qed.
Lemma wp_publishDetached : (∀ s', at_ s' m → Q tt s') → wp (publishDetached NumberToJSON journal) Q stopped s.
Proof.
  intros HQ. apply wp_bind, (wp_get _ _ _ m); [done|]. intros s1 H1. destruct (H1) as [-> _].
  eapply wp_opErr; [exact H1|done| | |].
  - by apply preserves_within, writeRunManifest_preserves, liveManifest_ok.
  - apply noFatalOp_within, writeRunManifest_noFatal.
  - intros [] s2. apply HQ.
Qed.
End Publish.

(** ** Waiting and checking the context *)
Lemma checkCtx_ok : preserves I checkCtx ∧ noFatalOp checkCtx.
Proof.
  split.
  - intros w r w' HI. unfold checkCtx. destruct (ctxErr w) as [[e|] w1] eqn:E; intros [= <- <-]; by eapply jw_ctxErr.
  - intros w. unfold checkCtx. destruct (ctxErr w) as [[e|] w1]; [by apply noFatal_Err|apply noFatal_Ok].
Qed.
Lemma waitBeforeRetry_ok d : preserves I (waitBeforeRetry d) ∧ noFatalOp (waitBeforeRetry d).
Proof.
  destruct checkCtx_ok as [H1 H2]. split.
  - intros w r w' HI. unfold waitBeforeRetry. destruct (d <=? 0); [by apply H1|].
    destruct (timerOrDone d w) as [done w1] eqn:E. assert (I w1) by by eapply jw_timer.
    destruct done; [by apply H1|by intros [= <- <-]].
  - intros w. unfold waitBeforeRetry. destruct (d <=? 0); [apply H2|].
    destruct (timerOrDone d w) as [[] w1]; [apply H2|apply noFatal_Ok].
Qed.

Lemma putJSON_ok key body : key ≠ journal → preserves I (putJSON key body) ∧ noFatalOp (putJSON key body).
Proof. intros Hk. split; [by apply jw_put|]. intros w. apply put_noFatal. Qed.
End Assertions.

(** ** Touching one step of the journal *)
Record touches (id : string) (m m' : Manifest) : Prop := {
  to_other : ∀ id', id' ≠ id → findManifestStep m' id' = findManifestStep m id';
  to_ids : map st_NodeID (mf_Steps m') = map st_NodeID (mf_Steps m);
}.
Lemma touches_refl id m : touches id m m.
Proof. by split. Qed.
Lemma touches_trans id m1 m2 m3 : touches id m1 m2 → touches id m2 m3 → touches id m1 m3.
Proof. intros [H1 H2] [H3 H4]. split; [|by rewrite H4]. intros id' Hne. by rewrite H3, H1. Qed.

Lemma updateStep_touches id f m : (∀ step, st_NodeID (f step) = st_NodeID step) → touches id m (updateStep id f m).
Proof.
  intros Hf. split.
  - intros id' Hne. unfold findManifestStep. cbn [updateStep mf_setSteps mf_Steps].
    induction (mf_Steps m) as [|step l IH]; [done|]. cbn [updateFirst].
    destruct (eqs (st_NodeID step) id) eqn:E; [|rewrite !find_cons, IH; done].
    apply eqs_spec in E. rewrite !find_cons, Hf, E.
    assert (eqs id id' = false) as -> by (apply eqs_false; congruence). done.
  - cbn [updateStep mf_setSteps mf_Steps]. induction (mf_Steps m) as [|step l IH]; [done|]. cbn [updateFirst].
    destruct (eqs (st_NodeID step) id); cbn [map]; [by rewrite Hf|by rewrite IH].
Qed.

Lemma updateStep_find id f m step step' : findManifestStep m id = Some step →
  (∀ step, st_NodeID (f step) = st_NodeID step) → f step = step' →
  findManifestStep (updateStep id f m) id = Some step'.
Proof.
  intros H Hf <-. revert H. unfold findManifestStep. cbn [updateStep mf_setSteps mf_Steps].
  induction (mf_Steps m) as [|x l IH]; [done|]. cbn [updateFirst]. rewrite find_cons.
  destruct (eqs (st_NodeID x) id) eqn:E.
  - intros [= ->]. by rewrite find_cons, Hf, E.
  - intros H. by rewrite find_cons, E, IH.
Qed.
