(* ===== verification/StepSafety.v ===== *)
(** * A step of a run keeps the journal

    The step case of the run loop in the calculus of RunLogic: from a journal in which the
    step is pending, its attempts end within the policy; either the step has succeeded,
    only its own record touched, or the run stops with the journal live, the attempt
    closed, and any fatal cause naming this step. *)

From S2P Require Import Prelude Utf16 Text SpecTypes PlanTypes Json Canonical CanonicalText SourceIdentity Datastore Encode Artifact Journal JournalOps JournalSafety MapExec Retry Index Resolution World StepRun MapRun NoFatal RunKeys RunLogic.
From Stdlib Require Import SpecFloat.
#[local] Open Scope Z_scope.

(** ** The record of a step between and during attempts *)
Record openStep (id : string) (n : Z) (m : Manifest) : Prop := {
  os_live : liveManifest m;
  os_step : ∃ step, findManifestStep m id = Some step ∧ st_Status step = StatusRunning ∧ st_Items step = None ∧
    Z.of_nat (length (st_Attempts step)) = n;
}.
Record readyStep (id : string) (n : Z) (m : Manifest) : Prop := {
  rs_live : liveManifest m;
  rs_step : ∃ step, findManifestStep m id = Some step ∧ st_Items step = None ∧
    n = Z.of_nat (length (st_Attempts step)) + 1 ∧
    (st_Status step = StatusPending ∨ st_Status step = StatusRunning ∧ retrying (st_Attempts step));
}.
Record doneStep (id : string) (m : Manifest) : Prop := {
  ds_live : liveManifest m;
  ds_step : ∃ step, findManifestStep m id = Some step ∧ st_Status step = StatusSucceeded;
}.

Lemma start_attempt id n input m : readyStep id n m → openStep id n (markAttemptRunning id n input m).
Proof.
  intros [Hl (step & Hf & Hi & Hn & Hs)].
  assert (JournalStep m (markAttemptRunning id n input m)) as Hj.
  { destruct Hs as [Hp|[Hr Ht]]; [|by eapply js_retry].
    rewrite (ls_pending _ (live_find _ _ _ Hl Hf) Hp) in Hn. cbn in Hn. subst n. by eapply js_start. }
  split; [by eapply journalStep_live|].
  exists (st_set StatusRunning (st_Attempts step ++ [newAttempt n StatusRunning input ""]) step).
  split_and!; [by eapply updateStep_find|done|done|]. cbn [st_set st_Attempts]. rewrite length_app. cbn. lia.
Qed.

Lemma retry_attempt id n diagnostic m : openStep id n m → readyStep id (n + 1) (markAttemptRetrying id diagnostic m).
Proof.
  intros [Hl (step & Hf & Hs & Hi & Hn)].
  split; [by eapply journalStep_live, js_retrying|].
  eexists. split_and!; [by eapply updateStep_find|done|cbn [st_set st_Attempts]; rewrite updateLast_length; lia|].
  right. split; [done|]. cbn [st_set st_Attempts]. intros a Ha.
  destruct (last (st_Attempts step)) as [b|] eqn:E; [by rewrite (updateLast_Some _ _ _ E) in Ha; injection Ha as <-|].
  apply last_None in E. by rewrite E in Ha.
Qed.

Lemma close_attempt id n status diagnostic m : openStep id n m → closedStatus status →
  liveManifest (markAttemptTerminal id status diagnostic m) ∧
  (status = StatusFailed → ∃ step, step ∈ mf_Steps (markAttemptTerminal id status diagnostic m) ∧
    explainsFailure id step = true).
Proof.
  intros [Hl (step & Hf & Hs & Hi & Hn)] Hc. split; [by eapply journalStep_live, js_terminal|]. intros ->.
  assert (findManifestStep (markAttemptTerminal id StatusFailed diagnostic m) id =
    Some (st_set StatusFailed (closeAttempts StatusFailed diagnostic (st_Attempts step)) step)) as Hf'
    by by eapply updateStep_find.
  apply findManifestStep_elem in Hf' as [Hin Hid]. eexists. split; [exact Hin|].
  unfold explainsFailure. rewrite Hid. cbn [st_set st_Status st_Attempts st_Items]. rewrite Hi.
  assert (eqs id id = true) as -> by by apply eqs_spec. assert (eqs StatusFailed StatusFailed = true) as -> by done.
  cbn [andb]. rewrite andb_true_r. unfold dispatched, closeAttempts.
  destruct (st_Attempts step) as [|a l]; [done|]. by rewrite updateLast_length.
Qed.

Lemma succeed_attempt id n output m : openStep id n m → 1 ≤ n →
  ∃ m', markAttemptSucceeded id output m = Ok m' ∧ doneStep id m' ∧ touches id m m'.
Proof.
  intros [Hl (step & Hf & Hs & Hi & Hn)] Hpos.
  destruct (st_Attempts step) as [|a l _] eqn:Ea using rev_ind; [cbn in Hn; lia|].
  assert (∃ m', markAttemptSucceeded id output m = Ok m') as [m' Hm'].
  { unfold markAttemptSucceeded, lastAttempt. rewrite Hf, Ea, last_snoc. eauto. }
  exists m'. split; [done|].
  pose proof (markAttemptSucceeded_inv _ _ _ _ _ Hf Hm') as [_ ->]. split; [|by apply updateStep_touches].
  split; [eapply journalStep_live; [done|]; eapply js_succeeded; [done..| |done]; intros items item E; congruence|].
  eexists. split; [by eapply updateStep_find|done].
Qed.

Section Step.
Context (NumberToJSON : spec_float → result string) (HN : ∀ d, noFatal (NumberToJSON d)) (sha256Hex : string → string).
Context (ValidateJSONSchema : string → string → result unit) (validateManifestSchema : string → result unit).
Context (projectKey runID : string) (Hproject : isSafeProjectKey projectKey = true) (Hrun : isSafePathSegment runID = true).
#[local] Abbreviation journal := (journalKey projectKey runID).
Context {W : Type} `{World W} (I : W → Prop) `{JW : !JournalWorld NumberToJSON journal I}.
Implicit Types (s : RunState W) (m : Manifest).
#[local] Abbreviation at_ := (RunLogic.at_ I).
#[local] Abbreviation stopped := (RunLogic.stopped I).

(** ** Calls that leave the journal alone *)
Lemma resolveOutputArtifact_noFatal index d w :
  noFatal (resolveOutputArtifact NumberToJSON sha256Hex ValidateJSONSchema validateManifestSchema index d w).
Proof.
  unfold resolveOutputArtifact.
  assert (∀ ds p, noFatal (ResolveJSON NumberToJSON sha256Hex ValidateJSONSchema validateManifestSchema ds p w))
    by (intros; apply ResolveJSON_noFatal; exact jw_store).
  nofatal.
Qed.

Lemma verifyInvocation_ok index d :
  let f := verifyInvocation NumberToJSON sha256Hex ValidateJSONSchema validateManifestSchema index d in
  preserves I f ∧ ∀ w, I w → noFatal (f w).1.
Proof.
  unfold verifyInvocation. split.
  - intros w r w' HI. destruct AfterStepInvocation as [after|] eqn:Ea; [|by intros [= <- <-]].
    destruct (after d w) as [[e|] w1] eqn:E; intros [= <- <-]; by destruct (jw_after after d w _ w1 Ea HI E).
  - intros w HI. destruct AfterStepInvocation as [after|] eqn:Ea; [|apply resolveOutputArtifact_noFatal].
    destruct (after d w) as [[e|] w1] eqn:E; [|apply resolveOutputArtifact_noFatal].
    apply noFatal_Err. destruct (jw_after after d w _ w1 Ea HI E) as [_ Hp]. by apply Hp.
Qed.

Lemma settleInvocation_ok index d :
  let f := settleInvocation NumberToJSON sha256Hex ValidateJSONSchema validateManifestSchema index d in
  preserves I f ∧ ∀ w, I w → noFatal (f w).1.
Proof.
  unfold settleInvocation. pose proof (verifyInvocation_ok index d) as [H1 H2].
  destruct (eqs _ _); [done|]. split; [by apply (preserves_within NumberToJSON journal)|].
  intros w HI. unfold within. specialize (H2 (enter (Detached (30 * Second)) w)). destruct (verifyInvocation _ _ _ _ _ _ _).
  apply H2. by apply jw_enter.
Qed.

(** Every [x, err := call] that keeps the world leaves the manifest. *)
Lemma wp_attempt_call {A} (f : W → result A * W) (R : result A → RunState W → Prop) E s m :
  at_ s m → preserves I f → (∀ w, I w → noFatal (f w).1) →
  (∀ r s', at_ s' m → noFatal r → R r s') → wp (attempt (opErr f)) R E s.
Proof.
  intros [Hm HI] Hf Hn HR. apply wp_attempt. unfold wp, opErr. pose proof (Hn _ HI) as He.
  destruct (f (rn_world s)) as [r w'] eqn:E'. assert (at_ (setWorld w' s) m) as Ha by (split; [done|by eapply Hf]).
  destruct r as [a|e]; [apply HR; [done|apply noFatal_Ok]|]. destruct (He e eq_refl) as [Hfat Hp]. rewrite Hp.
  apply HR; [done|]. by apply noFatal_Err.
Qed.

Lemma putInput_ok input body format args key s m :
  at_ s m → MustKey (da_Key input) = Ok key → key ≠ journal →
  Forall (λ a, match a with AWrap e => plain e | _ => True end) args →
  wp (putInput input body format args) (λ _ s', at_ s' m) (plainAt I m) s.
Proof.
  intros Ha Hk Hne Hargs. destruct (putJSON_ok NumberToJSON journal I key body Hne) as [Hp Hn].
  unfold putInput. rewrite Hk. apply wp_bind, (wp_lift_plain I _ s m); [done|apply noFatal_Ok|]. intros ? [= <-].
  apply wp_bind. eapply wp_conseq; [apply (wp_attempt_call _ (λ r s', at_ s' m ∧ noFatal r) (plainAt I m) s m); try done; by intros; apply Hn| |].
  - intros r s1 [H1 Hr]. by apply wp_bind, (wp_lift_plain I _ s1 m); [|apply noFatal_wrap|].
  - done.
Qed.

(** ** Outcomes *)

(** What a run relies on of the outcome and the error of one invocation. *)
Record soundOutcome (id : string) (outcome : StepInvocationOutcome) (invokeErr : option error) : Prop := {
  sn_fatal : ∀ f, so_Fatal outcome = Some f → so_Status outcome = StatusFailed ∧ ff_NodeID f = id;
  sn_error : ∀ e f, invokeErr = Some e → asFatal e = Some f → is_Some (so_Fatal outcome);
  sn_panic : ∀ e, invokeErr = Some e → isPanic e = false;
}.

Lemma unsuccessful_status outcome : let status := (unsuccessful outcome).1 in
  closedStatus status ∧ (so_Status outcome = StatusFailed → status = StatusFailed).
Proof.
  unfold unsuccessful. destruct (eqs (so_Status outcome) StatusCancelled) eqn:E.
  - apply eqs_spec in E. rewrite E. split; [by right|done].
  - split; [by left|done].
Qed.

Lemma stopped_explained e s m : at_ s m → liveManifest m → isPanic e = false →
  (∀ f, asFatal e = Some f → ∃ step, step ∈ mf_Steps m ∧ explainsFailure f.2 step = true) → stopped e s.
Proof. intros Ha Hl Hp Hf. by exists m. Qed.

Section Attempts.
Context (planHash storeRoot : string) (index : executionIndex).
Context (id : string) (policy : executionPolicy).

Lemma stepError_ok n outcome invokeErr s m :
  at_ s m → liveManifest m → soundOutcome id outcome invokeErr →
  (so_Status outcome = StatusFailed → ∃ step, step ∈ mf_Steps m ∧ explainsFailure id step = true) →
  wp (stepError policy n outcome invokeErr) (λ _ _, False) stopped s.
Proof.
  intros Ha Hl [Hfatal Herr Hpanic] Hex. unfold stepError.
  destruct (so_Fatal outcome) as [fatal|] eqn:Ef.
  - destruct (Hfatal fatal eq_refl) as [Hs Hn]. apply wp_fail, (stopped_explained _ s m); [done|done|done|].
    intros f [= <-]. cbn [snd]. rewrite Hn. by apply Hex.
  - destruct invokeErr as [e|].
    + apply wp_fail, (stopped_explained _ s m); [done|done|by apply Hpanic|]. intros f Hf.
      destruct (Herr e f eq_refl Hf) as [? [=]].
    + apply wp_bind. destruct (checkCtx_ok NumberToJSON journal I) as [H1 H2].
      assert (∀ s', at_ s' m → wp (fail (ErrNew (runnerDiagnostic outcome +:+ attemptSuffix n policy)))
        (λ (_ : unit) _, False) stopped s') as Hend.
      { intros s' Ha'. by apply wp_fail, (stopped_plain I _ s' m). }
      destruct (eqs _ _); [|by apply wp_ret, Hend].
      eapply wp_opErr; [exact Ha|done|done|done|]. intros _. apply Hend.
Qed.

Definition retryAt (n : Z) (m : Manifest) (s' : RunState W) : Prop :=
  ∃ m', at_ s' m' ∧ readyStep id (n + 1) m' ∧ touches id m m'.
Definition doneAt (m : Manifest) (s' : RunState W) : Prop :=
  ∃ m', at_ s' m' ∧ doneStep id m' ∧ touches id m m'.

Lemma settleFailure_ok n outcome invokeErr s m :
  at_ s m → openStep id n m → soundOutcome id outcome invokeErr →
  wp (settleFailure NumberToJSON journal id policy n outcome invokeErr)
    (λ again s', again = true ∧ n < ep_maxAttempts policy ∧ retryAt n m s') stopped s.
Proof.
  intros Ha Ho Hso. unfold settleFailure. pose proof (unsuccessful_status outcome) as [Hc Hst].
  destruct (unsuccessful outcome) as [status diagnostic]. cbn [fst] in Hc, Hst.
  destruct (bool_decide (invokeErr = None) && (n <? ep_maxAttempts policy) && retryableOutcome outcome) eqn:E.
  - apply andb_prop in E as [[_ Hlt%Z.ltb_lt]%andb_prop _].
    pose proof (retry_attempt _ _ diagnostic _ Ho) as Hr. pose proof (rs_live _ _ _ Hr) as Hl.
    apply wp_bind. apply (wp_modify I _ _ s m Ha). intros s1 H1.
    apply wp_bind. apply (wp_publish NumberToJSON HN journal I _ s1 _ H1 Hl). intros s2 H2.
    apply wp_bind. destruct (waitBeforeRetry_ok NumberToJSON journal I (delayBefore policy (n + 1))) as [Hp Hn].
    eapply wp_opErr; [exact H2|done|done|done|]. intros _ s3 H3.
    split_and!; [done|done|]. eexists. split_and!; [exact H3|done|by apply updateStep_touches].
  - destruct (close_attempt _ _ _ diagnostic _ Ho Hc) as [Hl Hex].
    apply wp_bind. apply (wp_modify I _ _ s m Ha). intros s1 H1.
    apply wp_bind. eapply wp_conseq; [eapply (stepError_ok n _ _ s1); [exact H1|done|done|]| |done].
    + intros Hs. by apply Hex, Hst.
    + by intros ? ? [].
Qed.

Lemma settleSuccess_ok n descriptor outcome invokeErr s m :
  at_ s m → openStep id n m → 1 ≤ n → soundOutcome id outcome invokeErr → so_Status outcome = StatusSucceeded →
  wp (settleSuccess NumberToJSON sha256Hex ValidateJSONSchema validateManifestSchema journal index id descriptor invokeErr)
    (λ again s', again = false ∧ doneAt m s') stopped s.
Proof.
  intros Ha Ho Hn [Hfatal Herr Hpanic] Hs. unfold settleSuccess.
  apply wp_bind, (wp_get I _ _ s m); [done|]. intros s0 H0'.
  destruct (settleInvocation_ok (indexOf index s0) descriptor) as [Hp Hnf].
  apply wp_bind. apply (wp_attempt_call _ _ _ s0 m); [done|done|done|]. intros [output|e] s1 H1 Hr.
  - apply wp_bind, (wp_get I _ _ s1 m); [done|]. intros s2 H2.
    apply wp_bind. apply (wp_setResolution I _ _ s2 m); [done|]. intros s3 H3.
    destruct (succeed_attempt id n (no_Published output) m Ho Hn) as (m' & Hm' & Hd & Ht).
    apply wp_bind. apply (wp_modifyErr I _ _ s3 m H3 _ m' Hm'). intros s4 H4.
    apply wp_bind. apply (wp_publishDetached NumberToJSON HN journal I _ s4 m' H4 (ds_live _ _ Hd)). intros s5 H5.
    destruct invokeErr as [e|]; [|by split; [done|]; exists m'].
    apply wp_fail, (stopped_explained _ s5 m'); [done|by apply Hd|by apply Hpanic|]. intros f Hf.
    destruct (Herr e f eq_refl Hf) as [fatal Hfat]. destruct (Hfatal _ Hfat) as [Hs' _]. by rewrite Hs in Hs'.
  - destruct (close_attempt _ _ StatusFailed "output verification failed" _ Ho ltac:(by left)) as [Hl _].
    apply wp_bind. apply (wp_modify I _ _ s1 m H1). intros s2 H2.
    apply wp_fail, (stopped_plain I _ s2 _ H2 Hl). by apply Hr.
Qed.
End Attempts.

(** ** The attempts of a step *)
Lemma descriptorForStep_node planHash storeBinding node input index n d :
  descriptorForStep planHash storeBinding projectKey runID node input index n = Ok d →
  sd_NodeID d = GetString (pn_Id node).
Proof. unfold descriptorForStep. intros H'. repeat case_match; try done. by apply bind_Ok in H' as (k & _ & [= <-]). Qed.

Lemma single_outcome id d timeout outcome invokeErr :
  fatalOutcomes {| sb_Steps := [{| in_Descriptor := d; in_Timeout := timeout |}]; sb_MaxConcurrency := 0 |} [outcome] invokeErr →
  sd_NodeID d = id → soundOutcome id outcome invokeErr.
Proof.
  intros [Ho He Hp] Hd. split; [| |done].
  - intros f Hf. destruct (Ho outcome f) as [Hs (inv & Hin & Hn)]; [left|done|]. split; [done|].
    apply list_elem_of_singleton in Hin as ->. by rewrite <- Hn.
  - intros e f -> Hf. destruct (He e f eq_refl Hf) as (o & f' & ->%list_elem_of_singleton & Hf'). by exists f'.
Qed.

Lemma policyForContract_attempts contract : 1 ≤ ep_maxAttempts (policyForContract contract).
Proof.
  unfold policyForContract. destruct (_ ≫= _) as [retry|]; [|done]. destruct (Z.ltb_spec 0 (GetUint32 (pt_MaxAttempts retry))); cbn; lia.
Qed.

Section Node.
Context (planHash storeRoot : string) (index : executionIndex) (node : PlanNode).
Context (Hid : isSafePathSegment (GetString (pn_Id node)) = true).
#[local] Abbreviation id := (GetString (pn_Id node)).

Lemma stepAttempt_ok input policy n s m :
  at_ s m → readyStep id n m → 1 ≤ n →
  wp (stepAttempt NumberToJSON sha256Hex ValidateJSONSchema validateManifestSchema planHash storeRoot projectKey runID
        journal index node input policy n)
    (λ again s', if again then n < ep_maxAttempts policy ∧ retryAt id n m s' else doneAt id m s') stopped s.
Proof.
  intros Ha Hr Hn. unfold stepAttempt.
  apply wp_bind, (wp_get I _ _ s m); [done|]. intros s0 H0'.
  apply wp_bind, (wp_lift I _ s0 m); [done|by apply Hr| |].
  { apply descriptorForStep_noFatal.
    pose proof (runOutputManifestKey_eq projectKey runID Hproject Hrun node None n Hid) as E.
    cbn in E. rewrite E; [apply noFatal_Ok|done|lia]. }
  intros descriptor Hd%descriptorForStep_node.
  pose proof (start_attempt _ _ input _ Hr) as Ho. pose proof (os_live _ _ _ Ho) as Hl.
  apply wp_bind. apply (wp_modify I _ _ s0 m H0'). intros s1 H1.
  apply wp_bind. apply (wp_publish NumberToJSON HN journal I _ s1 _ H1 Hl). intros s2 H2.
  apply wp_bind. apply (wp_op I _ s2 _ H2); [by apply jw_invoke|]. intros [outcomes invokeErr] s3 w H3 Hf%jw_fatal.
  assert (touches id m (markAttemptRunning id n input m)) as Ht by by apply updateStep_touches.
  destruct outcomes as [|outcome [|outcome' outcomes]].
  - destruct invokeErr as [e|]; [|by apply wp_fail, (stopped_plain I _ s3 _ H3 Hl)].
    apply wp_bind. apply (wp_modify I _ _ s3 _ H3). intros s4 H4.
    apply wp_fail, (stopped_explained _ s4 _ H4).
    + destruct Ho as [_ (step & Hfind & Hs & Hi & _)]. by eapply journalStep_live, js_drop.
    + by apply (fo_panic _ _ _ Hf).
    + intros f Hfat. destruct (fo_error _ _ _ Hf e f eq_refl Hfat) as (o & f' & Hin & _). by apply not_elem_of_nil in Hin.
  - apply (single_outcome id) in Hf; [|done].
    apply wp_bind. apply (wp_addDispatched I _ _ s3 _ H3). intros s4 H4.
    destruct (eqs (so_Status outcome) StatusSucceeded) eqn:Es.
    + apply eqs_spec in Es.
      eapply wp_conseq; [by eapply (settleSuccess_ok index id n descriptor outcome)| |done].
      intros again s5 [-> (m' & H5 & Hdone & Ht')]. exists m'. split_and!; [done|done|]. by eapply touches_trans.
    + eapply wp_conseq; [by eapply (settleFailure_ok id policy n outcome)| |done].
      intros again s5 (-> & Hlt & m' & H5 & Hready & Ht'). split; [done|]. exists m'. split_and!; [done|done|].
      by eapply touches_trans.
  - by apply wp_fail, (stopped_plain I _ s3 _ H3 Hl).
Qed.

(** [maxAttempts - n + 1] rounds suffice from attempt [n]. *)
Lemma stepAttempts_ok fuel input policy n s m :
  at_ s m → readyStep id n m → 1 ≤ n ≤ ep_maxAttempts policy → n + Z.of_nat fuel = ep_maxAttempts policy + 1 →
  wp (stepAttempts NumberToJSON sha256Hex ValidateJSONSchema validateManifestSchema planHash storeRoot projectKey runID
        journal index fuel node input policy n) (λ _ s', doneAt id m s') stopped s.
Proof.
  revert n s m; induction fuel as [|fuel IH]; intros n s m Ha Hr Hn Hfuel; [lia|]. cbn [stepAttempts].
  apply wp_bind. eapply wp_conseq; [by apply stepAttempt_ok; [..|lia]| |done].
  intros [] s1; [|by intros Hd; apply wp_ret]. intros (Hlt & m' & H1 & Hr' & Ht).
  eapply wp_conseq; [apply (IH (n + 1) s1 m'); [done|done|lia|lia]| |done].
  intros _ s2 (m2 & H2 & Hd & Ht2). exists m2. split_and!; [done|done|]. by eapply touches_trans.
Qed.

Lemma runStep_ok s m step :
  at_ s m → liveManifest m → findManifestStep m id = Some step → st_Status step = StatusPending → st_Items step = None →
  wp (runStep NumberToJSON sha256Hex ValidateJSONSchema validateManifestSchema planHash storeRoot projectKey runID
        journal index node) (λ _ s', doneAt id m s') stopped s.
Proof.
  intros Ha Hl Hf Hs Hi. unfold runStep.
  apply wp_bind, (wp_get I _ _ s m); [done|]. intros s0 H0'.
  apply wp_bind, (wp_lift I _ s0 m); [done|done|by apply inputForNode_noFatal|]. intros inputBytes _.
  pose proof (runInputKey_eq projectKey runID Hproject Hrun node None Hid) as Hk. cbn in Hk. rewrite Hk by done.
  apply wp_bind, (wp_lift I _ s0 m); [done|done|apply noFatal_Ok|]. intros key [= <-].
  apply wp_bind. eapply wp_conseq; [eapply putInput_ok; [exact H0'| | |]| |].
  - apply keyOf_parses. by apply (inputSegments_ok projectKey runID Hproject Hrun id None).
  - by apply (inputKey_ne projectKey runID Hproject Hrun id None).
  - by repeat (apply Forall_cons; split).
  - intros ? s1 H1. pose proof (policyForContract_attempts (ix_contractsByRef index !! GetString (pn_ContractRef node))) as Hpos.
    apply stepAttempts_ok; [done| |done|unfold policyOf; lia].
    split; [done|]. exists step. pose proof (ls_pending _ (live_find _ _ _ Hl Hf) Hs) as En. rewrite En. auto.
  - intros e s1 [H1 He]. by eapply stopped_plain.
Qed.
End Node.
End Step.
