(* ===== verification/MapItems.v ===== *)
(** * The journal of a map while its rounds run

    Assertions on the items of one running step, by index, and what each update of the
    journal does to them: the updates of [internal/orchestrator/orchestrator.go] change one
    item, and all items together when the map fails or succeeds. *)

From S2P Require Import Prelude SpecTypes Journal JournalOps JournalSafety Artifact MapExec Retry MapRun NoFatal RunLogic StepSafety.
#[local] Open Scope Z_scope.

(** A running map of [count] items; [collect] says that its failures are collected. *)
Record openMap (id : string) (count : Z) (collect : bool) (m : Manifest) : Prop := {
  om_live : liveManifest m;
  om_step : ∃ step items, findManifestStep m id = Some step ∧ st_Status step = StatusRunning ∧
    st_Items step = Some items ∧ Z.of_nat (length items) = count ∧ (collect = true → st_ItemFailures step ≠ "");
}.

(** Every item satisfies [P]. *)
Definition itemsAre (id : string) (count : Z) (P : Z → MapItem → Prop) (m : Manifest) : Prop :=
  ∀ i, 0 ≤ i < count → ∃ item, itemAt m id i = Some item ∧ P i item.

(** Before attempt [n], during it, and after it failed. *)
Definition readyItem (n : Z) (item : MapItem) : Prop :=
  n = Z.of_nat (length (mi_Attempts item)) + 1 ∧
  (mi_Status item = StatusPending ∨ mi_Status item = StatusRunning ∧ retrying (mi_Attempts item)).
Definition runningItem (n : Z) (item : MapItem) : Prop :=
  mi_Status item = StatusRunning ∧ Z.of_nat (length (mi_Attempts item)) = n.
Definition retryItem (n : Z) (item : MapItem) : Prop := runningItem n item ∧ retrying (mi_Attempts item).
(** An item that a fatal cause may name. *)
Definition failingItem (item : MapItem) : Prop :=
  (mi_Status item = StatusRunning ∨ mi_Status item = StatusFailed) ∧ mi_Attempts item ≠ [].

Lemma retryItem_ready n item : retryItem n item → readyItem (n + 1) item.
Proof. intros [[Hs Hn] Hr]. split; [lia|]. by right. Qed.
Lemma runningItem_failing n item : runningItem n item → 1 ≤ n → failingItem item.
Proof. intros [Hs Hn] Hpos. split; [by left|]. intros E. rewrite E in Hn. cbn in Hn. lia. Qed.

Section Items.
Context (id : string) (count : Z) (collect : bool).
Implicit Types (m : Manifest).

Lemma openMap_item m i item : openMap id count collect m → itemAt m id i = Some item → 0 ≤ i < count.
Proof.
  intros [_ (step & items & Hf & _ & Hi & Hc & _)] (step' & items' & Hf' & Hi' & Hnn & Hlk)%itemAt_inv. simplify_eq.
  apply lookup_lt_Some in Hlk. lia.
Qed.

(** [updateItem] replaces one item. *)
Lemma updateItem_find m i f step items : findManifestStep m id = Some step → st_Items step = Some items →
  0 ≤ i < Z.of_nat (length items) →
  findManifestStep (updateItem id i f m) id = Some (st_setItems (alter f (Z.to_nat i) items) step).
Proof.
  intros Hf Hi Hb. eapply updateStep_find; [exact Hf| |].
  - intros s. destruct (st_Items s); [|done]. by destruct (_ || _).
  - cbn. rewrite Hi. assert ((i <? 0) || (Z.of_nat (length items) <=? i) = false) as -> by lia. done.
Qed.

Lemma updateItem_at m i f item j : itemAt m id i = Some item →
  itemAt (updateItem id i f m) id j = if bool_decide (j = i) then Some (f item) else itemAt m id j.
Proof.
  intros (step & items & Hf & Hi & Hnn & Hlk)%itemAt_inv.
  pose proof (lookup_lt_Some _ _ _ Hlk) as Hlt.
  unfold itemAt. rewrite (updateItem_find m i f step items) by (done || lia). rewrite Hf. cbn.
  rewrite Hi. cbn. destruct (Z.ltb_spec j 0).
  - by rewrite bool_decide_eq_false_2 by lia.
  - destruct (decide (j = i)) as [->|Hne].
    + by rewrite bool_decide_eq_true_2, list_lookup_alter_eq, Hlk by done.
    + rewrite bool_decide_eq_false_2 by done. by rewrite list_lookup_alter_ne by lia.
Qed.

Lemma updateItem_open m i f item : openMap id count collect m → itemAt m id i = Some item →
  liveManifest (updateItem id i f m) → openMap id count collect (updateItem id i f m).
Proof.
  intros Ho Hit Hl. pose proof (openMap_item _ _ _ Ho Hit) as Hb.
  destruct Ho as [_ (step & items & Hf & Hs & Hi & Hc & Hcol)]. split; [done|].
  exists (st_setItems (alter f (Z.to_nat i) items) step), (alter f (Z.to_nat i) items).
  split_and!; [by eapply updateItem_find; [..|lia]|done|done|by rewrite length_alter|done].
Qed.

Lemma updateItem_touches m i f : touches id m (updateItem id i f m).
Proof.
  apply updateStep_touches. intros step. destruct (st_Items step); [|done]. by destruct (_ || _).
Qed.

(** One item moves, the others stay. *)
Record moved (i : Z) (f : MapItem → MapItem) (m m' : Manifest) : Prop := {
  mv_open : openMap id count collect m';
  mv_touches : touches id m m';
  mv_at : ∀ j, itemAt m' id j = if bool_decide (j = i) then f <$> itemAt m id i else itemAt m id j;
}.

Lemma moved_items i f m m' (P Q : Z → MapItem → Prop) : moved i f m m' → itemsAre id count P m →
  (∀ item, P i item → Q i (f item)) → (∀ j item, j ≠ i → P j item → Q j item) → itemsAre id count Q m'.
Proof.
  intros [_ _ Hat] HP Hi Hj j Hb. destruct (HP j Hb) as (item & E & Hp). rewrite Hat.
  destruct (decide (j = i)) as [->|Hne].
  - rewrite bool_decide_eq_true_2, E by done. eexists. split; [done|]. by apply Hi.
  - rewrite bool_decide_eq_false_2 by done. exists item. auto.
Qed.

Lemma moved_intro i f item m : openMap id count collect m → itemAt m id i = Some item →
  JournalStep m (updateItem id i f m) → moved i f m (updateItem id i f m).
Proof.
  intros Ho Hit Hj. split; [eapply updateItem_open; [done..|]; eapply journalStep_live; [by apply Ho|done]|
    apply updateItem_touches|].
  intros j. rewrite (updateItem_at _ _ _ item) by done. by rewrite Hit.
Qed.

(** ** The updates of one item *)
Definition startItem (n : Z) (input : DataArtifact) (item : MapItem) : MapItem :=
  mi_set StatusRunning (mi_Attempts item ++ [newAttempt n StatusRunning input ""]) (mi_Diagnostic item) item.
Definition closeItem (status diagnostic : string) (item : MapItem) : MapItem :=
  mi_set status (closeAttempts status diagnostic (mi_Attempts item)) (mi_Diagnostic item) item.
Definition retryingItem (diagnostic : string) (item : MapItem) : MapItem :=
  mi_set (mi_Status item) (updateLast (att_set StatusFailed diagnostic) (mi_Attempts item)) (mi_Diagnostic item) item.
Definition succeedItem (output : PublishedArtifact) (item : MapItem) : MapItem :=
  mi_set StatusSucceeded (updateLast (att_succeed output) (mi_Attempts item)) (mi_Diagnostic item) item.

Lemma item_start m i n input item : openMap id count collect m → itemAt m id i = Some item → readyItem n item →
  moved i (startItem n input) m (markMapItemRunning id i n input m).
Proof.
  intros Ho Hit [Hn Hs]. destruct (Ho) as [Hl (step & items & Hf & Hst & _)].
  eapply moved_intro; [done|done|]. by eapply js_itemStart.
Qed.
Lemma item_terminal m i n status diagnostic item : openMap id count collect m → itemAt m id i = Some item →
  runningItem n item → closedStatus status →
  moved i (closeItem status diagnostic) m (markMapItemTerminal id i status diagnostic m).
Proof.
  intros Ho Hit [Hs _] Hc. destruct (Ho) as [Hl (step & items & Hf & Hst & _)].
  eapply moved_intro; [done|done|]. by eapply js_itemTerminal.
Qed.
Lemma item_retrying m i n diagnostic item : openMap id count collect m → itemAt m id i = Some item →
  runningItem n item → moved i (retryingItem diagnostic) m (markMapItemRetrying id i diagnostic m).
Proof.
  intros Ho Hit [Hs _]. destruct (Ho) as [Hl (step & items & Hf & Hst & _)].
  eapply moved_intro; [done|done|]. by eapply js_itemRetrying.
Qed.
Lemma item_succeeded m i n output item : openMap id count collect m → itemAt m id i = Some item →
  runningItem n item → 1 ≤ n →
  ∃ m', markMapItemSucceeded id i output m = Ok m' ∧ moved i (succeedItem output) m m'.
Proof.
  intros Ho Hit [Hs Hn] Hpos. destruct (Ho) as [Hl (step & items & Hf & Hst & _)].
  assert (∃ m', markMapItemSucceeded id i output m = Ok m') as [m' Hm'].
  { unfold markMapItemSucceeded, lastAttempt. rewrite Hit.
    destruct (mi_Attempts item) as [|a l _] using rev_ind; [cbn in Hn; lia|]. rewrite last_snoc. eauto. }
  exists m'. split; [done|]. pose proof (markMapItemSucceeded_inv _ _ _ _ _ _ Hit Hm') as E. subst m'.
  eapply moved_intro; [done|done|]. by eapply js_itemSucceeded.
Qed.

Lemma startItem_running n input item : readyItem n item → runningItem n (startItem n input item).
Proof. intros [-> _]. split; [done|]. cbn [startItem mi_set mi_Attempts]. rewrite length_app. cbn. lia. Qed.
Lemma retryingItem_retry n diagnostic item : runningItem n item → retryItem n (retryingItem diagnostic item).
Proof.
  intros [Hs Hn]. split; [split; [done|]|]; cbn [retryingItem mi_set mi_Attempts].
  - by rewrite updateLast_length.
  - intros a Ha. destruct (last (mi_Attempts item)) as [b|] eqn:E.
    + rewrite (updateLast_Some _ _ _ E) in Ha. by injection Ha as <-.
    + apply last_None in E. by rewrite E in Ha.
Qed.
Lemma closeItem_attempts status diagnostic item : mi_Attempts (closeItem status diagnostic item) ≠ [].
Proof.
  cbn [closeItem mi_set mi_Attempts]. unfold closeAttempts. destruct (mi_Attempts item) as [|a l]; [done|].
  by apply updateLast_ne.
Qed.
End Items.

(** ** The map as a whole *)
Section Map.
Context (id : string).
Implicit Types (m : Manifest).

Lemma map_start m step input collect : liveManifest m → findManifestStep m id = Some step →
  st_Status step = StatusPending → st_Items step = Some [] → (collect = true → st_ItemFailures step ≠ "") →
  openMap id 0 collect (markAttemptRunning id 1 input m).
Proof.
  intros Hl Hf Hs Hi Hc. split; [by eapply journalStep_live, js_start|].
  eexists. exists (@nil MapItem). split_and!; [by eapply updateStep_find|done|done|done|done].
Qed.

Lemma map_expand m n collect : 0 ≤ n → openMap id 0 collect m →
  openMap id n collect (markMapItemsPending id (seqZ 0 n) m) ∧
  itemsAre id n (λ _, readyItem 1) (markMapItemsPending id (seqZ 0 n) m) ∧ touches id m (markMapItemsPending id (seqZ 0 n) m).
Proof.
  intros Hn [Hl (step & items & Hf & Hs & Hi & Hlen & Hc)]. destruct items; [|done].
  set (items := map (λ index, {| mi_Index := index; mi_Status := StatusPending; mi_Attempts := []; mi_Diagnostic := "" |}) (seqZ 0 n)).
  assert (findManifestStep (markMapItemsPending id (seqZ 0 n) m) id = Some (st_setItems items step)) as Hf'.
  { eapply updateStep_find; [exact Hf| |cbn; by rewrite Hi]. intros s. by destruct (st_Items s). }
  split_and!.
  - split; [by eapply journalStep_live, js_expand|]. exists (st_setItems items step), items.
    split_and!; [done|done|done| |done]. unfold items. rewrite length_map, length_seqZ. lia.
  - intros i Hb. exists {| mi_Index := i; mi_Status := StatusPending; mi_Attempts := []; mi_Diagnostic := "" |}.
    split; [|by split; [|left]]. unfold itemAt. rewrite Hf'. cbn. assert (i <? 0 = false) as -> by lia.
    unfold items. rewrite list_lookup_fmap, lookup_seqZ_lt by lia. cbn. repeat f_equal; lia.
  - apply updateStep_touches. intros s. by destruct (st_Items s).
Qed.

Lemma failMapNode_find m step items (cancelled : bool) diagnostic : findManifestStep m id = Some step → st_Items step = Some items →
  let status := if cancelled then StatusCancelled else StatusFailed in
  findManifestStep (failMapNode cancelled id diagnostic m) id =
  Some (st_set status (closeAttempts status diagnostic (st_Attempts step))
    (st_setItems (map (closeUnfinishedItem status) items) step)).
Proof.
  intros Hf Hi status. unfold failMapNode, markAttemptTerminal, markUnfinishedMapItemsTerminal.
  assert (∀ s, st_NodeID match st_Items s with Some l => st_setItems (map (closeUnfinishedItem status) l) s | None => s end = st_NodeID s)
    as Hn by (intros s; by destruct (st_Items s)).
  eapply updateStep_find; [eapply updateStep_find; [exact Hf|exact Hn|reflexivity]|done|]. cbn. by rewrite Hi.
Qed.

Lemma closeUnfinished_failing item : failingItem item →
  mi_Status (closeUnfinishedItem StatusFailed item) = StatusFailed ∧ dispatched (mi_Attempts (closeUnfinishedItem StatusFailed item)) = true.
Proof.
  intros [Hs Hne].
  assert (∀ l : list Attempt, l ≠ [] → dispatched l = true) as Hd by (intros [|]; done).
  unfold closeUnfinishedItem. destruct Hs as [E|E]; rewrite E.
  - assert (eqs StatusRunning StatusPending = false) as -> by done. assert (eqs StatusRunning StatusRunning = true) as -> by done.
    split; [done|]. apply Hd. cbn [mi_set mi_Attempts]. case_match; [|done]. case_match; [by apply updateLast_ne|done].
  - assert (eqs StatusFailed StatusPending = false) as -> by done. assert (eqs StatusFailed StatusRunning = false) as -> by done.
    split; [done|]. by apply Hd.
Qed.

(** A failed map explains the fatal cause of one of its items. *)
Lemma map_fail m count collect cancelled diagnostic : openMap id count collect m →
  liveManifest (failMapNode cancelled id diagnostic m) ∧
  ((∃ i item, itemAt m id i = Some item ∧ failingItem item) → cancelled = false →
    ∃ step, step ∈ mf_Steps (failMapNode cancelled id diagnostic m) ∧ explainsFailure id step = true).
Proof.
  intros [Hl (step & items & Hf & Hs & Hi & _)]. split; [by eapply failMap_live|].
  intros (i & item & (step' & items' & Hf' & Hi' & Hnn & Hlk)%itemAt_inv & Hfail) ->. simplify_eq.
  pose proof (failMapNode_find m step items false diagnostic Hf Hi) as Hfind.
  apply findManifestStep_elem in Hfind as [Hin Hid]. eexists. split; [exact Hin|].
  unfold explainsFailure. rewrite Hid. cbn [st_set st_setItems st_Status st_Attempts st_Items].
  assert (eqs id id = true) as -> by by apply eqs_spec. assert (eqs StatusFailed StatusFailed = true) as -> by done.
  assert (dispatched (closeAttempts StatusFailed diagnostic (st_Attempts step)) = true) as ->.
  { unfold dispatched, closeAttempts. destruct (st_Attempts step); [done|]. by rewrite updateLast_length. }
  cbn [andb]. apply existsb_exists. exists (closeUnfinishedItem StatusFailed item). split.
  - rewrite <- list_elem_of_In. apply list_elem_of_fmap_2. by eapply list_elem_of_lookup_2.
  - destruct (closeUnfinished_failing _ Hfail) as [-> ->]. done.
Qed.

(** A map without failed items, collected ones apart, succeeds. *)
Lemma map_succeed m count collect collected output : openMap id count collect m →
  mapHasFailedItem m id collected = false →
  itemsAre id count (λ i item, i ∈ collected → collect = true ∧ mi_Status item = StatusFailed) m →
  ∃ m', markAttemptSucceeded id output m = Ok m' ∧ doneStep id m' ∧ touches id m m'.
Proof.
  intros [Hl (step & items & Hf & Hs & Hi & Hlen & Hc)] Hno Hcol.
  pose proof (ls_running _ (live_find _ _ _ Hl Hf) Hs) as Hne.
  destruct (st_Attempts step) as [|a l _] eqn:Ea using rev_ind; [done|].
  assert (∃ m', markAttemptSucceeded id output m = Ok m') as [m' Hm'].
  { unfold markAttemptSucceeded, lastAttempt. rewrite Hf, Ea, last_snoc. eauto. }
  exists m'. split; [done|].
  assert (settledItems step) as Hset.
  { intros items' item E Hin. simplify_eq. apply list_elem_of_lookup in Hin as [i Hlk].
    pose proof (sk_indexes _ _ (ls_ok _ (live_find _ _ _ Hl Hf)) items i item Hi Hlk) as Hidx.
    destruct (decide (mi_Status item = StatusSucceeded)) as [|Hns]; [by left|right].
    assert (mi_Index item ∈ collected) as Hmem.
    { destruct (decide (mi_Index item ∈ collected)) as [|Hni]; [done|]. exfalso.
      assert (mapHasFailedItem m id collected = true) as E; [|congruence].
      pose proof (findManifestStep_elem _ _ _ Hf) as [Hin Hid].
      apply existsb_exists. exists step. rewrite <- list_elem_of_In. split; [done|].
      rewrite Hid, Hi. assert (eqs id id = true) as -> by by apply eqs_spec. cbn [andb].
      apply existsb_exists. exists item. rewrite <- list_elem_of_In.
      split; [by eapply list_elem_of_lookup_2|]. rewrite bool_decide_eq_false_2 by done.
      rewrite (proj2 (eqs_false _ _) Hns). done. }
    pose proof (lookup_lt_Some _ _ _ Hlk) as Hlt.
    destruct (Hcol (mi_Index item)) as (item' & Hit & HP); [lia|].
    assert (item' = item) as ->.
    { apply itemAt_inv in Hit as (s' & items' & Hf' & Hi' & _ & Hlk'). simplify_eq.
      rewrite Hidx, Nat2Z.id, Hlk in Hlk'. by injection Hlk' as ->. }
    destruct (HP Hmem) as [Hct Hst]. split; [done|]. by apply Hc. }
  pose proof (markAttemptSucceeded_inv _ _ _ _ _ Hf Hm') as [_ E]. subst m'. split; [|by apply updateStep_touches].
  split; [eapply journalStep_live; [done|]; by eapply js_succeeded|].
  eexists. split; [by eapply updateStep_find|done].
Qed.
End Map.

(** ** The outcomes of a round

    [mapOutcomesByIndex] against its specification: it succeeds when every outcome names its
    own dispatched item of this map and attempt, and then the map it returns holds each
    outcome under its item.  The order in which the invoker reports them does not matter. *)
Section Outcomes.
Context (mapID : string) (n : Z) (dispatched : list Z).

(** The outcome is one of this map's, for this attempt and a dispatched item. *)
Definition namesItem (outcome : StepInvocationOutcome) (i : Z) : Prop :=
  so_NodeID outcome = mapID ∧ so_Attempt outcome = n ∧ i ∈ dispatched ∧
  so_Scope outcome = Some {| es_Frames := [{| fr_Kind := "map-item"; fr_MapID := mapID; fr_Index := i |}] |}.

Lemma outcomeFrame_Some outcome frame : outcomeFrame mapID n outcome = Some frame ↔
  so_NodeID outcome = mapID ∧ so_Attempt outcome = n ∧ so_Scope outcome = Some {| es_Frames := [frame] |}.
Proof.
  unfold outcomeFrame. destruct (eqs (so_NodeID outcome) mapID) eqn:E1; cbn [negb orb].
  2: { apply bool_decide_eq_false in E1. split; [done|]. by intros (? & _). }
  apply bool_decide_eq_true in E1. destruct (Z.eqb_spec (so_Attempt outcome) n) as [E2|E2]; cbn [negb].
  2: { split; [done|]. by intros (_ & ? & _). }
  destruct (so_Scope outcome) as [[frames]|]; cbn; [|split; [done|by intros (_ & _ & ?)]].
  destruct frames as [|f [|]]; naive_solver.
Qed.

Lemma addOutcome_Ok byIndex outcome byIndex' : addOutcome mapID n dispatched byIndex outcome = Ok byIndex' ↔
  ∃ i, namesItem outcome i ∧ byIndex !! i = None ∧ byIndex' = <[i := outcome]> byIndex.
Proof.
  unfold addOutcome, namesItem. destruct (outcomeFrame mapID n outcome) as [frame|] eqn:Ef.
  2: { split; [done|]. intros (i & (H1 & H2 & _ & H3) & _). by rewrite (proj2 (outcomeFrame_Some _ _) (conj H1 (conj H2 H3))) in Ef. }
  apply outcomeFrame_Some in Ef as (H1 & H2 & H3). rewrite H3. destruct frame as [kind owner i]. cbn [fr_Kind fr_MapID fr_Index].
  destruct (eqs kind "map-item") eqn:E1; cbn [negb orb].
  2: { apply bool_decide_eq_false in E1. naive_solver. }
  apply bool_decide_eq_true in E1. destruct (eqs owner mapID) eqn:E2; cbn [negb orb].
  2: { apply bool_decide_eq_false in E2. naive_solver. }
  apply bool_decide_eq_true in E2. case_bool_decide as E3; cbn [negb]; [|naive_solver].
  subst kind owner. case_bool_decide as E4.
  - split; [done|]. intros (j & (_ & _ & _ & [= <-]) & Hj & _). rewrite Hj in E4. by destruct E4.
  - apply eq_None_not_Some in E4. split; [intros [= <-]; eauto 8|]. by intros (j & (_ & _ & _ & [= <-]) & _ & ->).
Qed.

Lemma addOutcomes_Ok outcomes b b' : foldErr (addOutcome mapID n dispatched) b outcomes = Ok b' ↔
  ∃ indexes, Forall2 namesItem outcomes indexes ∧ NoDup indexes ∧ (∀ i, i ∈ indexes → b !! i = None) ∧
    b' = list_to_map (zip indexes outcomes) ∪ b.
Proof.
  revert b; induction outcomes as [|o outcomes IH]; intros b; cbn [foldErr].
  { split.
    - intros [= <-]. exists []. split_and!; [constructor|constructor|by intros i ?%not_elem_of_nil|]. cbn. by rewrite map_empty_union.
    - intros (indexes & ->%Forall2_nil_inv_l & _ & _ & ->). cbn. by rewrite map_empty_union. }
  rewrite bind_Ok. setoid_rewrite addOutcome_Ok. split.
  - intros (b1 & (i & Ho & Hi & ->) & (indexes & HF & Hnd & Hb & ->)%IH).
    assert (i ∉ indexes) as Hni. { intros Hin. specialize (Hb i Hin). by rewrite lookup_insert_eq in Hb. }
    exists (i :: indexes). split_and!; [by constructor|by constructor| |].
    + intros j [->|Hj]%elem_of_cons; [done|]. specialize (Hb j Hj). by rewrite lookup_insert_ne in Hb by set_solver.
    + cbn. rewrite <- insert_union_l. rewrite insert_union_r; [done|].
      apply not_elem_of_list_to_map_1. rewrite fst_zip; [done|]. by rewrite (Forall2_length _ _ _ HF).
  - intros (indexes & (i & rest & Ho & HF & ->)%Forall2_cons_inv_l & [Hni Hnd]%NoDup_cons & Hb & ->).
    exists (<[i := o]> b). split; [exists i; split_and!; [done|apply Hb; left|done]|]. apply IH.
    exists rest. split_and!; [done|done| |].
    + intros j Hj. rewrite lookup_insert_ne by set_solver. apply Hb. by right.
    + cbn. rewrite <- insert_union_l. rewrite insert_union_r; [done|].
      apply not_elem_of_list_to_map_1. rewrite fst_zip; [done|]. by rewrite (Forall2_length _ _ _ HF).
Qed.

(** What a successful match says. *)
Definition matched (outcomes : list StepInvocationOutcome) (complete : bool) (byIndex : gmap Z StepInvocationOutcome) : Prop :=
  ∃ indexes, Forall2 namesItem outcomes indexes ∧ NoDup indexes ∧ byIndex = list_to_map (zip indexes outcomes) ∧
    (complete = true → length outcomes = length dispatched).

Lemma matched_Ok outcomes complete byIndex :
  mapOutcomesByIndex mapID n outcomes dispatched complete = Ok byIndex ↔ matched outcomes complete byIndex.
Proof.
  unfold mapOutcomesByIndex, matched.
  destruct (complete && negb (length outcomes =? length dispatched)%nat) eqn:E1.
  { split; [done|]. intros (_ & _ & _ & _ & Hc). apply andb_prop in E1 as [-> Hn%negb_true_iff%Nat.eqb_neq]. by specialize (Hc eq_refl). }
  rewrite bind_Ok. setoid_rewrite addOutcomes_Ok.
  assert (∀ indexes, Forall2 namesItem outcomes indexes → NoDup indexes →
    size (list_to_map (M := gmap Z _) (zip indexes outcomes)) = length outcomes) as Hsize.
  { intros indexes HF Hnd. pose proof (Forall2_length _ _ _ HF) as Hlen.
    rewrite <- size_dom, dom_list_to_map_L, fst_zip by lia. rewrite size_list_to_set by done. lia. }
  assert (complete = true → length outcomes = length dispatched) as Hlen.
  { intros ->. apply andb_false_iff in E1 as [|E1%negb_false_iff%Nat.eqb_eq]; done. }
  split.
  - intros (b & (indexes & HF & Hnd & _ & ->) & H). rewrite !map_union_empty in H.
    destruct (complete && _) in H; [done|].
    injection H as <-. by exists indexes.
  - intros (indexes & HF & Hnd & -> & _). eexists. split; [exists indexes; by split_and!|].
    rewrite !map_union_empty, Hsize by done. destruct complete; [|done]. by rewrite Hlen, Nat.eqb_refl.
Qed.

Lemma matched_lookup outcomes complete byIndex : matched outcomes complete byIndex →
  ∀ i outcome, byIndex !! i = Some outcome ↔ outcome ∈ outcomes ∧ namesItem outcome i.
Proof.
  intros (indexes & HF & Hnd & -> & _) i outcome. pose proof (Forall2_length _ _ _ HF) as Hlen.
  rewrite <- elem_of_list_to_map by (rewrite fst_zip by lia; done). split.
  - intros Hin. apply list_elem_of_lookup in Hin as [k Hk]. apply lookup_zip_Some in Hk as [Hi Ho].
    split; [by eapply list_elem_of_lookup_2|]. by eapply Forall2_lookup_lr.
  - intros [Hin Hname]. apply list_elem_of_lookup in Hin as [k Hk].
    destruct (Forall2_lookup_l _ _ _ _ _ HF Hk) as (j & Hj & Hname').
    assert (j = i) as ->. { destruct Hname as (_ & _ & _ & E1), Hname' as (_ & _ & _ & E2). congruence. }
    eapply list_elem_of_lookup_2. by apply lookup_zip_Some.
Qed.

Lemma matched_perm outcomes outcomes' complete byIndex : outcomes ≡ₚ outcomes' →
  matched outcomes complete byIndex → matched outcomes' complete byIndex.
Proof.
  intros Hp (indexes & HF & Hnd & -> & Hlen).
  assert (∃ indexes', Forall2 namesItem outcomes' indexes' ∧ zip indexes outcomes ≡ₚ zip indexes' outcomes') as (indexes' & HF' & Hz).
  { clear Hnd Hlen. revert indexes HF. induction Hp as [|o l l' Hp IH|o1 o2 l|l1 l2 l3 _ IH1 _ IH2]; intros indexes HF.
    - apply Forall2_nil_inv_l in HF as ->. by exists [].
    - apply Forall2_cons_inv_l in HF as (i & rest & Ho & HF & ->). destruct (IH _ HF) as (rest' & HF' & Hz).
      exists (i :: rest'). split; [by constructor|]. cbn. by rewrite Hz.
    - apply Forall2_cons_inv_l in HF as (i1 & r1 & H1 & HF & ->). apply Forall2_cons_inv_l in HF as (i2 & r2 & H2 & HF & ->).
      exists (i2 :: i1 :: r2). split; [constructor; [done|]; by constructor|]. cbn. constructor.
    - destruct (IH1 _ HF) as (i2 & HF2 & Hz2). destruct (IH2 _ HF2) as (i3 & HF3 & Hz3). exists i3. split; [done|]. by etrans. }
  pose proof (Forall2_length _ _ _ HF) as L. pose proof (Forall2_length _ _ _ HF') as L'.
  assert ((zip indexes outcomes).*1 ≡ₚ (zip indexes' outcomes').*1) as Hi by by apply fmap_Permutation.
  rewrite !fst_zip in Hi by lia.
  exists indexes'. split_and!; [done|by rewrite <- Hi| |by rewrite <- Hp].
  apply list_to_map_proper; [by rewrite fst_zip by lia|done].
Qed.
End Outcomes.

(** C25: matching the outcomes of a round with its items succeeds exactly when every
    outcome names its own dispatched item of this map and attempt (and none is missing, for
    a round that must be complete); then an item's outcome is the one that names it, and
    reporting the same outcomes in another order gives the same map. *)
Theorem outcomes_by_index mapID n outcomes dispatched complete byIndex :
  (mapOutcomesByIndex mapID n outcomes dispatched complete = Ok byIndex ↔
    matched mapID n dispatched outcomes complete byIndex) ∧
  (mapOutcomesByIndex mapID n outcomes dispatched complete = Ok byIndex →
    (∀ i outcome, byIndex !! i = Some outcome ↔ outcome ∈ outcomes ∧ namesItem mapID n dispatched outcome i) ∧
    ∀ outcomes', outcomes ≡ₚ outcomes' → mapOutcomesByIndex mapID n outcomes' dispatched complete = Ok byIndex).
Proof.
  split; [apply matched_Ok|]. intros H%matched_Ok. split; [by eapply matched_lookup|].
  intros outcomes' Hp. apply matched_Ok. by eapply matched_perm.
Qed.

Lemma mapOutcomesByIndex_noFatal mapID n outcomes dispatched complete :
  noFatal (mapOutcomesByIndex mapID n outcomes dispatched complete).
Proof. unfold mapOutcomesByIndex, addOutcome. nofatal. Qed.
