(* ===== verification/MapSafety.v ===== *)
(** * A map of a run keeps the journal

    [runMapNode] in the calculus of RunLogic.  The rounds keep an invariant of every item:
    ready for the next attempt while it is pending, failed when its failure has been
    collected.  Either the map succeeds, its own record alone touched, or the run stops with
    the journal live and any fatal cause naming a failed item of this map. *)

From S2P Require Import Prelude Utf16 Text SpecTypes PlanTypes Json Canonical CanonicalText SourceIdentity Datastore Encode Artifact Journal JournalOps JournalSafety MapExec Retry Index Resolution World StepRun MapRun NoFatal RunKeys RunLogic StepSafety MapItems.
From Stdlib Require Import SpecFloat.
#[local] Open Scope Z_scope.

Lemma Expand_indexes NumberToJSON body items : Expand NumberToJSON body = Ok items →
  map it_Index items = seqZ 0 (Z.of_nat (length items)).
Proof.
  intros H. assert (∃ values, mapErr (expandItem NumberToJSON) (indexed values) = Ok items) as [values Hm%mapErr_Ok].
  { unfold Expand in H. repeat case_match; try done. eauto. }
  apply list_eq. intros i. rewrite list_lookup_fmap.
  destruct (items !! i) as [item|] eqn:E; cbn.
  - destruct (Forall2_lookup_r _ _ _ _ _ Hm E) as ([j v] & Hj & (b & _ & [= <-])%bind_Ok).
    unfold indexed in Hj. rewrite list_lookup_imap in Hj. destruct (values !! i); [|done]. cbn in Hj. injection Hj as <- <-.
    apply lookup_lt_Some in E. rewrite lookup_seqZ_lt by lia. done.
  - apply lookup_ge_None in E. symmetry. apply lookup_seqZ_ge. lia.
Qed.

Lemma collection_noFatal NumberToJSON (HN : ∀ d, noFatal (NumberToJSON d)) collect count rounds :
  noFatal (collection NumberToJSON collect count rounds).
Proof. unfold collection. destruct collect; [by apply CollectOutcomes_noFatal|by apply Collect_noFatal]. Qed.

Section Map.
Context (NumberToJSON : spec_float → result string) (HN : ∀ d, noFatal (NumberToJSON d)) (sha256Hex : string → string).
Context (ValidateJSONSchema : string → string → result unit) (validateManifestSchema : string → result unit).
Context (projectKey runID : string) (Hproject : isSafeProjectKey projectKey = true) (Hrun : isSafePathSegment runID = true).
#[local] Abbreviation journal := (journalKey projectKey runID).
Context {W : Type} `{World W} (I : W → Prop) `{JW : !JournalWorld NumberToJSON journal I}.
Implicit Types (s : RunState W) (m : Manifest).
#[local] Abbreviation at_ := (RunLogic.at_ I).
#[local] Abbreviation stopped := (RunLogic.stopped I).
#[local] Abbreviation plainAt := (RunLogic.plainAt I).
Context (planHash storeRoot : string) (node : PlanNode).
Context (Hid : isSafePathSegment (GetString (pn_Id node)) = true).
#[local] Abbreviation id := (GetString (pn_Id node)).
#[local] Abbreviation collects := (eqs (GetString (pn_ItemFailures node)) MapItemFailuresCollect).

(** ** Failing the map *)
Section Fail.
Context (count : Z) (s : RunState W) (m : Manifest) (Ha : at_ s m) (Ho : openMap id count collects m).

Lemma failMap_ok {A} (Q : A → RunState W → Prop) diagnostic cause : isPanic cause = false →
  (∀ f, asFatal cause = Some f → f.2 = id ∧ (∀ c, errorsIs cause c = false) ∧
    ∃ i item, itemAt m id i = Some item ∧ failingItem item) →
  wp (failMap id diagnostic cause) Q stopped s.
Proof.
  intros Hp Hf. unfold failMap. apply wp_bind. apply (wp_op I _ s m Ha); [apply jw_ctxErr|]. intros reason s1 w H1 _.
  set (cancelled := match reason with Some e => errorsIs cause e | None => false end).
  destruct (map_fail id m count collects cancelled diagnostic Ho) as [Hl Hex].
  apply wp_bind. apply (wp_modify I _ _ s1 m H1). intros s2 H2.
  apply wp_fail. eapply (stopped_explained I); [exact H2|done|done|].
  intros f Hfat. destruct (Hf f Hfat) as (-> & His & Hitem). apply Hex; [done|].
  unfold cancelled. destruct reason; [apply His|done].
Qed.

Lemma failMap_plain {A} (Q : A → RunState W → Prop) diagnostic cause : plain cause →
  wp (failMap id diagnostic cause) Q stopped s.
Proof. intros [Hf Hp]. apply failMap_ok; [done|]. intros f. by rewrite Hf. Qed.
End Fail.

Lemma orFailMap_ok {A} (Q : A → RunState W → Prop) count diagnostic c s m :
  openMap id count collects m → wp c Q (plainAt m) s → wp (orFailMap id diagnostic c) Q stopped s.
Proof.
  intros Ho Hc. unfold orFailMap. apply wp_bind, wp_attempt.
  eapply wp_conseq; [exact Hc|intros a s1 HQ; by apply wp_ret|]. intros e s1 [H1 He].
  assert (isPanic e = false) as -> by apply He. by eapply failMap_plain.
Qed.

(** ** Expanding *)
Lemma itemKey_ok i : 0 ≤ i →
  runInputKey projectKey runID id (Some (itemScope node i)) = Ok {| key_value := keyOf (inputSegments projectKey runID id (Some i)) |} ∧
  MustKey (keyOf (inputSegments projectKey runID id (Some i))) = Ok {| key_value := keyOf (inputSegments projectKey runID id (Some i)) |} ∧
  {| key_value := keyOf (inputSegments projectKey runID id (Some i)) |} ≠ journal.
Proof.
  intros Hi. assert (∀ j, Some i = Some j → 0 ≤ j) as Hj by (by intros j [= <-]). split_and!.
  - by apply (runInputKey_eq projectKey runID Hproject Hrun node (Some i) Hid).
  - apply keyOf_parses. by apply inputSegments_ok.
  - by apply inputKey_ne.
Qed.

Lemma putItemInputs_ok count items s m :
  at_ s m → openMap id count collects m → Forall (λ item, 0 ≤ it_Index item) items →
  wp (foldM (putItemInput sha256Hex projectKey runID node) [] items)
    (λ inputs s', at_ s' m ∧ length inputs = length items) stopped s.
Proof.
  intros Ha Ho Hpos.
  pose (Inv := λ (rest : list Item) (inputs : list DataArtifact) s', at_ s' m ∧
    Forall (λ item, 0 ≤ it_Index item) rest ∧ (length inputs + length rest = length items)%nat).
  eapply wp_conseq; [apply (wp_foldM Inv); [|by unfold Inv]| |done].
  2: { intros inputs s1 (H1 & _ & Hlen). split; [done|]. cbn in Hlen. lia. }
  intros item rest inputs s1 (H1 & [Hi Hrest]%Forall_cons & Hlen). unfold putItemInput.
  destruct (itemKey_ok (it_Index item) Hi) as (-> & Hk & Hne).
  apply wp_bind, (wp_lift I _ s1 m); [done|by apply Ho|apply noFatal_Ok|]. intros key [= <-].
  apply wp_bind. eapply orFailMap_ok; [exact Ho|]. eapply wp_conseq; [eapply (putInput_ok NumberToJSON projectKey runID I); [exact H1|exact Hk|exact Hne|]| |].
  - by repeat (apply Forall_cons; split).
  - intros ? s2 H2. unfold Inv. split_and!; [done|done|]. rewrite length_app. cbn in *. lia.
  - done.
Qed.

(** The map is open, with its items pending, and only its record was touched. *)
Definition expandedAt m count s' : Prop :=
  ∃ m', at_ s' m' ∧ openMap id count collects m' ∧ itemsAre id count (λ _, readyItem 1) m' ∧ touches id m m'.

Lemma expandMap_ok s m step :
  at_ s m → liveManifest m → findManifestStep m id = Some step → st_Status step = StatusPending →
  st_Items step = Some [] → (collects = true → st_ItemFailures step ≠ "") →
  wp (expandMap NumberToJSON sha256Hex projectKey runID journal node)
    (λ inputs s', expandedAt m (Z.of_nat (length inputs)) s') stopped s.
Proof.
  intros Ha Hl Hf Hs Hi Hc. unfold expandMap.
  apply wp_bind, (wp_get I _ _ s m); [done|]. intros s0 H0'.
  apply wp_bind, (wp_lift I _ s0 m); [done|done|by apply inputForNode_noFatal|]. intros inputBytes _.
  pose proof (runInputKey_eq projectKey runID Hproject Hrun node None Hid) as Hk. cbn in Hk. rewrite Hk by done.
  apply wp_bind, (wp_lift I _ s0 m); [done|done|apply noFatal_Ok|]. intros key [= <-].
  apply wp_bind. eapply wp_conseq; [eapply (putInput_ok NumberToJSON projectKey runID I); [exact H0'| | |]| |].
  { apply keyOf_parses. by apply (inputSegments_ok projectKey runID Hproject Hrun id None). }
  { by apply (inputKey_ne projectKey runID Hproject Hrun id None). }
  { by repeat (apply Forall_cons; split). }
  2: { intros e s1 [H1 He]. by eapply stopped_plain. }
  intros ? s1 H1.
  match goal with |- context [markAttemptRunning id 1 ?i] => pose proof (map_start id m step i collects Hl Hf Hs Hi Hc) as Ho end.
  apply wp_bind. apply (wp_modify I _ _ s1 m H1). intros s2 H2.
  apply wp_bind. apply (wp_publish NumberToJSON HN journal I _ s2 _ H2 (om_live _ _ _ _ Ho)). intros s3 H3.
  apply wp_bind. eapply orFailMap_ok; [exact Ho|]. apply (wp_lift_plain I _ s3 _ H3); [by apply Expand_noFatal|].
  intros items Hx%Expand_indexes. rewrite Hx.
  apply wp_bind. apply (wp_modify I _ _ s3 _ H3). intros s4 H4.
  destruct (map_expand id _ (Z.of_nat (length items)) collects ltac:(lia) Ho) as (Ho' & Hit & Ht).
  apply wp_bind. eapply wp_conseq; [eapply putItemInputs_ok; [exact H4|exact Ho'|]| |done].
  { apply (proj2 (Forall_forall _ _)). intros item Hin.
    assert (it_Index item ∈ map it_Index items) as Hm by by apply (list_elem_of_fmap_2 it_Index). rewrite Hx in Hm.
    apply elem_of_seqZ in Hm. lia. }
  intros inputs s5 [H5 Hlen]. apply wp_bind. apply (wp_publish NumberToJSON HN journal I _ s5 _ H5 (om_live _ _ _ _ Ho')). intros s6 H6.
  apply wp_ret. rewrite Hlen. eexists. split_and!; [exact H6|done|done|].
  eapply touches_trans; [|exact Ht]. by apply updateStep_touches.
Qed.

(** ** One round *)
Section Round.
Context (count n : Z) (pending : list Z) (byIndex : gmap Z StepInvocationOutcome) (policy : executionPolicy).
Context (Hn : 1 ≤ n) (Hnd : NoDup pending) (Hb : ∀ i, i ∈ pending → 0 ≤ i < count).
Context (m0 : Manifest).

(** The manifest of a state, with the map open and only its record touched. *)
Definition openAt (P : Z → MapItem → Prop) s : Prop :=
  ∃ m, at_ s m ∧ openMap id count collects m ∧ touches id m0 m ∧ itemsAre id count P m.

(** An outcome that is not settled when its dispatch is recorded leaves its item running. *)
Definition recordedItem (i : Z) (item : MapItem) : Prop :=
  ∀ outcome, byIndex !! i = Some outcome → so_Status outcome ≠ StatusCancelled →
    so_Status outcome ≠ stepInvocationStatusInfraFailed → runningItem n item.
Definition collectedItem (failures : gmap Z Failure) (i : Z) (item : MapItem) : Prop :=
  is_Some (failures !! i) → collects = true ∧ mi_Status item = StatusFailed.

Record recording (failures : gmap Z Failure) (rest : list Z) (i : Z) (item : MapItem) : Prop := {
  rc_ready : i ∈ rest → readyItem n item;
  rc_recorded : i ∈ pending → i ∉ rest → recordedItem i item;
  rc_collected : collectedItem failures i item;
}.

Lemma moved_open i f (P Q : Z → MapItem → Prop) s m m' : at_ s m' → touches id m0 m → moved id count collects i f m m' →
  itemsAre id count P m → (∀ item, P i item → Q i (f item)) → (∀ j item, j ≠ i → P j item → Q j item) → openAt Q s.
Proof.
  intros Ha Ht Hm HP Hi Hj. exists m'. split_and!; [done|by apply Hm| |by eapply moved_items].
  eapply touches_trans; [done|]. by apply Hm.
Qed.

(** Two statuses of outcomes are settled with the dispatch. *)
Lemma recordDispatch_ok itemInputs failures i rest s : i ∉ rest → i ∈ pending → failures !! i = None →
  openAt (recording failures (i :: rest)) s →
  wp (recordDispatch id itemInputs n byIndex i) (λ _ s', openAt (recording failures rest) s') stopped s.
Proof.
  intros Hni Hin Hfail (m & Ha & Ho & Ht & HP).
  assert (∀ j item, j ≠ i → recording failures (i :: rest) j item → recording failures rest j item) as Hother.
  { intros j item Hne [H1 H2 H3]. split; [intros Hj; apply H1; by right| |done].
    intros Hj Hjr. apply H2; [done|]. by apply not_elem_of_cons. }
  assert (∀ item, (∀ o, byIndex !! i = Some o → so_Status o ≠ StatusCancelled →
    so_Status o ≠ stepInvocationStatusInfraFailed → runningItem n item) → recording failures rest i item) as Hthis.
  { intros item Hr. split; [done|by intros _ _|]. intros [f Hf]. congruence. }
  unfold recordDispatch. destruct (byIndex !! i) as [outcome|] eqn:Eo.
  2: { apply wp_ret. exists m. split_and!; [done|done|done|]. intros j Hj. destruct (HP j Hj) as (item & Hit & Hp).
       exists item. split; [done|]. destruct (decide (j = i)) as [->|Hne]; [by apply Hthis|by apply Hother]. }
  destruct (HP i (Hb i Hin)) as (item & Hit & [Hready _ _]). specialize (Hready ltac:(by left)).
  apply wp_bind. apply (wp_modify I _ _ s m Ha). intros s1 H1.
  set (input := default zeroDataArtifact (itemInputs !! Z.to_nat i)) in *.
  pose proof (item_start id count collects m i n input item Ho Hit Hready) as Hm1.
  set (m1 := markMapItemRunning id i n input m) in *.
  assert (itemAt m1 id i = Some (startItem n input item)) as Hit1.
  { rewrite (mv_at _ _ _ _ _ _ _ Hm1), bool_decide_eq_true_2 by done. by rewrite Hit. }
  pose proof (startItem_running n input item Hready) as Hrun1.
  assert (touches id m0 m1) as Ht1 by (eapply touches_trans; [done|by apply Hm1]).
  assert (∀ status diagnostic s', closedStatus status → at_ s' (markMapItemTerminal id i status diagnostic m1) →
    so_Status outcome = StatusCancelled ∨ so_Status outcome = stepInvocationStatusInfraFailed →
    openAt (recording failures rest) s') as Hclosed.
  { intros status diagnostic s' Hc Ha' Hout.
    pose proof (item_terminal id count collects m1 i n status diagnostic _ (mv_open _ _ _ _ _ _ _ Hm1) Hit1 Hrun1 Hc) as Hm2.
    eapply (moved_open i _ (λ j x, j ≠ i → recording failures (i :: rest) j x)); [done|exact Ht1|exact Hm2| | |by auto].
    - eapply moved_items; [exact Hm1|exact HP|done|by auto].
    - intros x _. apply Hthis. intros o [= <-]. by destruct Hout. }
  destruct (eqs (so_Status outcome) StatusCancelled) eqn:E1.
  - apply eqs_spec in E1. assert (eqs (so_Status outcome) stepInvocationStatusInfraFailed = false) as -> by (rewrite E1; done).
    apply wp_bind. apply (wp_modify I _ _ s1 m1 H1). intros s2 H2. apply wp_ret. eapply Hclosed; [|exact H2|by left]. by right.
  - apply eqs_false in E1. apply wp_bind, wp_ret. destruct (eqs (so_Status outcome) stepInvocationStatusInfraFailed) eqn:E2.
    + apply eqs_spec in E2. apply (wp_modify I _ _ s1 m1 H1). intros s2 H2. eapply Hclosed; [|exact H2|by right]. by left.
    + apply wp_ret. eapply moved_open; [exact H1|exact Ht|exact Hm1|exact HP| |exact Hother].
      intros x [Hr _ _]. apply Hthis. intros _ _ _ _. apply startItem_running, Hr. by left.
Qed.

Lemma recordDispatches_ok itemInputs failures s : (∀ i, i ∈ pending → failures !! i = None) →
  openAt (recording failures pending) s →
  wp (forEach (recordDispatch id itemInputs n byIndex) pending) (λ _ s', openAt (recording failures []) s') stopped s.
Proof.
  intros Hf Hs.
  pose (Inv := λ rest s', NoDup rest ∧ (∀ i, i ∈ rest → i ∈ pending) ∧ openAt (recording failures rest) s').
  eapply wp_conseq; [apply (wp_forEach Inv); [|by unfold Inv]| |done]; [|by intros _ s' (_ & _ & ?)].
  intros i rest s1 ([Hni Hnd']%NoDup_cons & Hsub & Ho).
  eapply wp_conseq; [apply (recordDispatch_ok itemInputs failures i rest s1); try done| |done].
  - apply Hsub. by left.
  - apply Hf, Hsub. by left.
  - intros ? s2 H2. split_and!; [done| |done]. intros j Hj. apply Hsub. by right.
Qed.

(** The items while their outcomes are settled, in order. *)
Record settling (rest : list Z) (st : MapRound) (i : Z) (item : MapItem) : Prop := {
  se_recorded : i ∈ rest → recordedItem i item;
  se_retry : i ∈ (mq_retry st).*1 → retryItem n item;
  se_collected : collectedItem (mr_failures (mq_rounds st)) i item;
  se_failing : ∀ outcome, i ∉ rest → byIndex !! i = Some outcome → so_Status outcome = StatusFailed → failingItem item;
}.
Record settlingOk (rest : list Z) (st : MapRound) : Prop := {
  so_rest : NoDup rest;
  so_pending : ∀ i, i ∈ rest → i ∈ pending;
  so_retry : NoDup (mq_retry st).*1;
  so_retried : ∀ i, i ∈ (mq_retry st).*1 → i ∈ pending ∧ i ∉ rest;
  so_failures : ∀ i, i ∈ rest ∨ i ∈ (mq_retry st).*1 → mr_failures (mq_rounds st) !! i = None;
  so_more : mq_retry st ≠ [] → n < ep_maxAttempts policy;
}.
Definition settlingAt (rest : list Z) (st : MapRound) s : Prop := settlingOk rest st ∧ openAt (settling rest st) s.

(** What settling one item may change of the round. *)
Record advances (i : Z) (st st' : MapRound) : Prop := {
  ad_retry : mq_retry st' = mq_retry st ∨ n < ep_maxAttempts policy ∧ ∃ d, mq_retry st' = mq_retry st ++ [(i, d)];
  ad_failures : mr_failures (mq_rounds st') = mr_failures (mq_rounds st) ∨
    mq_retry st' = mq_retry st ∧ ∃ f, mr_failures (mq_rounds st') = <[i := f]> (mr_failures (mq_rounds st));
}.

Lemma advances_ok i rest st st' : advances i st st' → settlingOk (i :: rest) st → settlingOk rest st'.
Proof.
  intros [Hr Hf] [[Hni Hnd']%NoDup_cons Hsub Hdup Hret Hfail Hmore].
  assert (i ∉ (mq_retry st).*1) as Hir. { intros Hin. apply Hret in Hin as [_ Hin]. apply Hin. by left. }
  assert (∀ j, j ∈ (mq_retry st').*1 → j ∈ (mq_retry st).*1 ∨ j = i) as Hmem.
  { intros j Hj. destruct Hr as [E|(_ & d & E)]; rewrite E in Hj; [by left|].
    rewrite fmap_app in Hj. apply elem_of_app in Hj as [|Hj]; [by left|]. apply list_elem_of_singleton in Hj. by right. }
  split; [done|intros j Hj; apply Hsub; by right| | | |].
  - destruct Hr as [->|(_ & d & ->)]; [done|]. rewrite fmap_app. apply NoDup_app. split_and!; [done| |apply NoDup_singleton].
    intros j Hj. cbn. rewrite list_elem_of_singleton. by intros ->.
  - intros j [Hj| ->]%Hmem; [|split; [apply Hsub; by left|done]]. destruct (Hret j Hj) as [H1 H2]. split; [done|].
    intros Hin. apply H2. by right.
  - intros j Hj. assert (mr_failures (mq_rounds st) !! j = None) as Hold.
    { apply Hfail. destruct Hj as [Hj|[Hj| ->]%Hmem]; [left; by right|by right|left; by left]. }
    destruct Hf as [->|(E & f & ->)]; [done|]. rewrite lookup_insert_ne; [done|]. intros <-.
    destruct Hj as [Hj|Hj]; [done|]. by rewrite E in Hj.
  - intros Hne. destruct Hr as [E|[? _]]; [|done]. apply Hmore. by rewrite <- E.
Qed.

(** Settling one item, by what becomes of it. *)
Lemma settle_advance i rest st st' f s m m' :
  settlingOk (i :: rest) st → itemsAre id count (settling (i :: rest) st) m → touches id m0 m →
  at_ s m' → moved id count collects i f m m' → advances i st st' →
  (∀ item, recordedItem i item → settling rest st' i (f item)) → settlingAt rest st' s.
Proof.
  intros Hok HP Ht Ha Hm Had Hi. split; [by eapply advances_ok|].
  eapply moved_open; [exact Ha|exact Ht|exact Hm|exact HP| |].
  - intros item [Hr _ _ _]. apply Hi, Hr. by left.
  - destruct Had as [Hr Hf]. intros j item Hne [H1 H2 H3 H4]. split.
    + intros Hj. apply H1. by right.
    + intros Hj. apply H2. destruct Hr as [E|(_ & d & E)]; rewrite E in Hj; [done|].
      rewrite fmap_app in Hj. apply elem_of_app in Hj as [|Hj]; [done|]. by apply list_elem_of_singleton in Hj.
    + intros Hj. apply H3. destruct Hf as [E|(_ & g & E)]; rewrite E in Hj; [done|]. by rewrite lookup_insert_ne in Hj.
    + intros o Hj. apply H4. by apply not_elem_of_cons.
Qed.

Lemma moved_refl i m : openMap id count collects m → moved id count collects i (λ item, item) m m.
Proof. intros Ho. split; [done|apply touches_refl|]. intros j. case_bool_decide as E; [subst; by destruct (itemAt m id i)|done]. Qed.

(** An item that is neither retried nor collected. *)
Lemma settling_done i rest st item : i ∉ rest → i ∉ (mq_retry st).*1 → mr_failures (mq_rounds st) !! i = None →
  (∀ outcome, byIndex !! i = Some outcome → so_Status outcome = StatusFailed → failingItem item) → settling rest st i item.
Proof. intros H1 H2 H3 H4. split; [done|done|intros [f Hf]; congruence|]. intros o _. apply H4. Qed.

Lemma closeItem_failing status diagnostic item : status = StatusFailed → failingItem (closeItem status diagnostic item).
Proof. intros ->. split; [by right|apply closeItem_attempts]. Qed.

Lemma settleItemFailure_ok i rest st outcome s : byIndex !! i = Some outcome → so_Status outcome ≠ StatusCancelled →
  so_Status outcome ≠ stepInvocationStatusInfraFailed → settlingAt (i :: rest) st s →
  wp (settleItemFailure id policy collects n st i outcome) (settlingAt rest) stopped s.
Proof.
  intros Eo Hs1 Hs2 (Hok & m & Ha & Ho & Ht & HP).
  assert (i ∈ pending) as Hin by (apply (so_pending _ _ Hok); left). destruct (HP i (Hb i Hin)) as (item & Hit & Hp).
  assert (∀ x, recordedItem i x → runningItem n x) as Hrn by (intros x Hx; by apply (Hx outcome)).
  pose proof (Hrn item (se_recorded _ _ _ _ Hp ltac:(by left))) as Hr.
  assert (i ∉ rest) as Hni by (pose proof (so_rest _ _ Hok) as Hd; by apply NoDup_cons in Hd as [? _]).
  assert (i ∉ (mq_retry st).*1) as Hir. { intros Hx. apply (so_retried _ _ Hok) in Hx as [_ Hx]. apply Hx. by left. }
  assert (mr_failures (mq_rounds st) !! i = None) as Hif by (apply (so_failures _ _ Hok); left; by left).
  unfold settleItemFailure. destruct ((n <? ep_maxAttempts policy) && retryableOutcome outcome) eqn:Er.
  - apply andb_prop in Er as [Hlt%Z.ltb_lt _]. apply wp_bind. apply (wp_modify I _ _ s m Ha). intros s1 H1. apply wp_ret.
    eapply settle_advance; [exact Hok|exact HP|exact Ht|exact H1|by eapply item_retrying| |].
    + split; [right|left]; cbn; eauto.
    + intros x Hx%Hrn. pose proof (retryingItem_retry n (durableRunnerDiagnostic outcome) x Hx) as Hy. split; [done|done| |].
      * intros [f Hf]. cbn in Hf. congruence.
      * intros _ _ _ _. by eapply runningItem_failing; [apply Hy|].
  - assert (closedStatus StatusFailed) as Hc by by left. set (diagnostic := durableRunnerDiagnostic outcome).
    pose proof (item_terminal id count collects m i n StatusFailed diagnostic item Ho Hit Hr Hc) as Hm.
    apply wp_bind. apply (wp_modify I _ _ s m Ha). intros s1 H1. destruct (mapItemFailure outcome n) as [failure collected].
    destruct (collects && collected) eqn:Ec; apply wp_ret.
    + apply andb_prop in Ec as [Ec _]. eapply settle_advance; [exact Hok|exact HP|exact Ht|exact H1|exact Hm| |].
      * split; [by left|right; split; [done|by eexists]].
      * intros x _. split; [done|done|by intros _|]. intros _ _ _ _. by apply closeItem_failing.
    + eapply settle_advance; [exact Hok|exact HP|exact Ht|exact H1|exact Hm|split; by left|].
      intros x _. apply settling_done; [done|done|done|]. intros _ _ _. by apply closeItem_failing.
Qed.

Lemma settleItem_ok i inv rest st s : settlingAt (i :: rest) st s →
  wp (settleItem NumberToJSON sha256Hex ValidateJSONSchema validateManifestSchema id policy collects n byIndex st (i, inv))
    (settlingAt rest) stopped s.
Proof.
  intros Hs. unfold settleItem. pose proof Hs as (Hok & m & Ha & Ho & Ht & HP).
  assert (i ∉ rest) as Hni by (pose proof (so_rest _ _ Hok) as Hd; by apply NoDup_cons in Hd as [? _]).
  assert (i ∉ (mq_retry st).*1) as Hir. { intros Hx. apply (so_retried _ _ Hok) in Hx as [_ Hx]. apply Hx. by left. }
  assert (mr_failures (mq_rounds st) !! i = None) as Hif by (apply (so_failures _ _ Hok); left; by left).
  assert (∀ s', at_ s' m → (∀ outcome, byIndex !! i = Some outcome → so_Status outcome ≠ StatusFailed) →
    settlingAt rest st s') as Hskip.
  { intros s' Ha' Hne. eapply settle_advance; [exact Hok|exact HP|exact Ht|exact Ha'|by apply moved_refl|split; by left|].
    intros x _. apply settling_done; [done|done|done|]. intros o Eo Hf. by destruct (Hne o Eo). }
  destruct (byIndex !! i) as [outcome|] eqn:Eo; [|by apply wp_ret, Hskip].
  destruct (eqs (so_Status outcome) StatusSucceeded) eqn:E1; cbn [negb].
  2: { destruct (eqs (so_Status outcome) StatusCancelled) eqn:E2.
       { apply eqs_spec in E2. apply wp_ret, Hskip; [done|]. intros o [= <-]. by rewrite E2. }
       destruct (eqs (so_Status outcome) stepInvocationStatusInfraFailed) eqn:E3; cbn [orb].
       { apply eqs_spec in E3. apply wp_ret, Hskip; [done|]. intros o [= <-]. by rewrite E3. }
       apply eqs_false in E2, E3. by apply settleItemFailure_ok. }
  apply eqs_spec in E1.
  assert (∀ o, byIndex !! i = Some o → so_Status o ≠ StatusFailed) as Hne by (intros o; rewrite Eo; intros [= <-]; by rewrite E1).
  assert (i ∈ pending) as Hin by (apply (so_pending _ _ Hok); left). destruct (HP i (Hb i Hin)) as (item & Hit & Hp).
  assert (runningItem n item) as Hr.
  { eapply (se_recorded _ _ _ _ Hp); [by left|exact Eo|by rewrite E1|by rewrite E1]. }
  apply wp_bind, (wp_get I _ _ s m); [done|]. intros s0 H0'. apply wp_bind.
  destruct (settleInvocation_ok NumberToJSON sha256Hex ValidateJSONSchema validateManifestSchema projectKey runID I
    (er_index (rn_resolution s0)) (in_Descriptor inv)) as [Hpres Hnf].
  apply (wp_attempt_call I _ _ _ s0 m); [done|done|done|]. intros [output|e] s1 H1 _.
  - destruct (item_succeeded id count collects m i n (no_Published output) item Ho Hit Hr Hn) as (m' & Hm' & Hmv).
    apply wp_bind. apply (wp_modifyErr I _ _ s1 m H1 _ m' Hm'). intros s2 H2. apply wp_ret.
    eapply settle_advance; [exact Hok|exact HP|exact Ht|exact H2|exact Hmv|split; by left|].
    intros x _. apply settling_done; [done|done|done|]. intros o Eo' Hf. by destruct (Hne o Eo').
  - assert (closedStatus StatusFailed) as Hc by by left.
    pose proof (item_terminal id count collects m i n StatusFailed "map item output verification failed" item Ho Hit Hr Hc) as Hm.
    apply wp_bind. apply (wp_modify I _ _ s1 m H1). intros s2 H2. apply wp_ret.
    eapply settle_advance; [exact Hok|exact HP|exact Ht|exact H2|exact Hm|split; by left|].
    intros x _. apply settling_done; [done|done|done|]. intros o Eo' Hf. by destruct (Hne o Eo').
Qed.

Lemma settleItems_ok invocations st s : length invocations = length pending → settlingAt pending st s →
  wp (foldM (settleItem NumberToJSON sha256Hex ValidateJSONSchema validateManifestSchema id policy collects n byIndex) st
        (zip pending invocations)) (settlingAt []) stopped s.
Proof.
  intros Hlen Hs.
  eapply wp_conseq; [apply (wp_foldM (λ (rest : list (Z * StepInvocation)) st', settlingAt rest.*1 st'))| |done]; [| |done].
  - intros [i inv] rest acc s1 H1. by apply settleItem_ok.
  - by rewrite fst_zip by lia.
Qed.

(** ** The end of a round *)
Definition betweenAt (pend : list Z) (failures : gmap Z Failure) (P : MapItem → Prop) s : Prop :=
  NoDup pend ∧ (∀ i, i ∈ pend → 0 ≤ i < count ∧ failures !! i = None) ∧
  openAt (λ i item, (i ∈ pend → P item) ∧ collectedItem failures i item) s.

Lemma closeRetried_ok retried failures s : betweenAt retried.*1 failures (runningItem n) s →
  wp (forEach (λ '(i, diagnostic), modify (markMapItemTerminal id i StatusFailed diagnostic)) retried)
    (λ _, betweenAt [] failures (runningItem n)) stopped s.
Proof.
  intros Hs.
  eapply wp_conseq; [apply (wp_forEach (λ (rest : list (Z * string)), betweenAt rest.*1 failures (runningItem n)))| |done]; [|exact Hs|done].
  intros [i diagnostic] rest s1 ([Hni Hnd']%NoDup_cons & Hbound & m & Ha & Ho & Ht & HP).
  destruct (Hbound i ltac:(by left)) as [Hib Hif]. destruct (HP i Hib) as (item & Hit & Hr & _). specialize (Hr ltac:(by left)).
  apply (wp_modify I _ _ s1 m Ha). intros s2 H2. split_and!; [done|intros j Hj; apply Hbound; by right|].
  eapply moved_open; [exact H2|exact Ht| |exact HP| |].
  - eapply item_terminal; [exact Ho|exact Hit|exact Hr|by left].
  - intros x _. split; [done|]. intros [f Hf]. congruence.
  - intros j x Hne [H1 H2']. split; [|done]. intros Hj. apply H1. by right.
Qed.

Section End_.
Context (batch : StepInvocationBatch) (outcomes : list StepInvocationOutcome) (invokeErr : option error).
Context (Hbatch : ∀ inv, inv ∈ sb_Steps batch → sd_NodeID (in_Descriptor inv) = id).
Context (Hsound : fatalOutcomes batch outcomes invokeErr).
Context (Hby : ∀ i outcome, byIndex !! i = Some outcome → i ∈ pending).
Context (Hall : ∀ outcome, outcome ∈ outcomes → ∃ i, byIndex !! i = Some outcome).

(** The cause that ends a round: fatal only for a failed item of this map. *)
Lemma fatalOutcome_sound e st s : fatalOutcome outcomes invokeErr = Some e → settlingAt [] st s →
  isPanic e = false ∧ ∃ m, at_ s m ∧ openMap id count collects m ∧
    ∀ f, asFatal e = Some f → f.2 = id ∧ (∀ c, errorsIs e c = false) ∧ ∃ i item, itemAt m id i = Some item ∧ failingItem item.
Proof.
  intros He (_ & m & Ha & Ho & _ & HP). destruct Hsound as [Hout Herr Hpan]. unfold fatalOutcome in He.
  destruct (omap so_Fatal outcomes) as [|f l] eqn:Eo.
  - split; [by apply Hpan|]. exists m. split_and!; [done|done|]. intros f Hf.
    destruct (Herr e f He Hf) as (o & f' & Hin & Hf').
    assert (f' ∈ omap so_Fatal outcomes) as Hm by (apply list_elem_of_omap; eauto). rewrite Eo in Hm. by apply not_elem_of_nil in Hm.
  - injection He as <-. split; [done|]. exists m. split_and!; [done|done|]. intros f' [= <-]. cbn [snd].
    assert (f ∈ omap so_Fatal outcomes) as Hm by (rewrite Eo; left). apply list_elem_of_omap in Hm as (o & Hin & Hf).
    destruct (Hout o f Hin Hf) as [Hs (inv & Hinv & Hnode)]. destruct (Hall o Hin) as [i Hi].
    destruct (HP i (Hb i (Hby i o Hi))) as (item & Hit & Hp). split_and!; [by rewrite <- Hnode, Hbatch|done|].
    exists i, item. split; [done|]. apply (se_failing _ _ _ _ Hp o); [by apply not_elem_of_nil|done|done].
Qed.

Lemma endRound_ok st s : settlingAt [] st s →
  wp (endRound id outcomes invokeErr st)
    (λ next s', betweenAt next (mr_failures (mq_rounds st)) (readyItem (n + 1)) s' ∧
      (next ≠ [] → n < ep_maxAttempts policy)) stopped s.
Proof.
  intros Hs. unfold endRound. destruct (fatalOutcome outcomes invokeErr) as [e|] eqn:Ee.
  { destruct (fatalOutcome_sound e st s Ee Hs) as (Hp & m & Ha & Ho & Hf). destruct (asFatal e) as [[[message type] nodeId]|] eqn:Ef.
    - eapply failMap_ok; [exact Ha|exact Ho|exact Hp|]. rewrite Ef. exact Hf.
    - apply wp_bind. apply (wp_op I _ s m Ha); [apply jw_ctxErr|]. intros reason s1 w H1 _.
      eapply failMap_ok; [exact H1|exact Ho|exact Hp|]. by rewrite Ef. }
  destruct Hs as (Hok & m & Ha & Ho & Ht & HP).
  apply wp_bind. apply (wp_op I _ s m Ha); [apply jw_ctxErr|]. intros [c|] s1 w H1 _; [by eapply failMap_plain|].
  assert (∀ Q : MapItem → Prop, (∀ item, retryItem n item → Q item) → ∀ s', at_ s' m →
    betweenAt (mq_retry st).*1 (mr_failures (mq_rounds st)) Q s') as Hbetween.
  { intros Q HQ s' Ha'. split_and!; [by apply Hok| |exists m; split_and!; [done|done|done|]].
    - intros i Hi. split; [|by apply (so_failures _ _ Hok); right]. by apply Hb, (so_retried _ _ Hok).
    - intros i Hi. destruct (HP i Hi) as (item & Hit & [_ Hr Hc _]). exists item. split; [done|]. split; [|done]. auto. }
  destruct (mq_terminal st).
  - apply wp_bind. eapply wp_conseq; [apply closeRetried_ok, Hbetween; [by intros item [? _]|exact H1]| |done].
    intros ? s2 (_ & _ & m2 & H2 & Ho2 & Ht2 & HP2). apply wp_ret. split; [|done]. split_and!; [constructor|by intros i ?%not_elem_of_nil|].
    exists m2. split_and!; [done|done|done|]. intros i Hi. destruct (HP2 i Hi) as (item & Hit & _ & Hc). exists item.
    split_and!; [done| |done]. by intros ?%not_elem_of_nil.
  - apply wp_ret. split; [apply Hbetween; [apply retryItem_ready|done]|]. intros Hne. apply (so_more _ _ Hok).
    intros E. by rewrite E in Hne.
Qed.
End End_.
End Round.

(** ** The rounds *)
Section Rounds.
Context (count : Z) (m0 : Manifest) (policy : executionPolicy).
#[local] Abbreviation roundAt n pend rounds s := (betweenAt count m0 pend (mr_failures rounds) (readyItem n) s).

Lemma descriptorForMapItem_node itemInputs idx n i inv :
  itemInvocation planHash storeRoot projectKey runID node itemInputs idx policy n i = Ok inv →
  sd_NodeID (in_Descriptor inv) = id.
Proof.
  intros (d & Hd & [= <-])%bind_Ok. cbn. unfold descriptorForMapItem in Hd.
  apply bind_Ok in Hd as (d' & Hd' & (k & _ & [= <-])%bind_Ok). cbn. by eapply descriptorForStep_node.
Qed.

Lemma invocations_ok itemInputs idx n pending : 1 ≤ n → (∀ i, i ∈ pending → 0 ≤ i) →
  let r := mapErr (itemInvocation planHash storeRoot projectKey runID node itemInputs idx policy n) pending in
  noFatal r ∧ ∀ invocations, r = Ok invocations → length invocations = length pending ∧
    ∀ inv, inv ∈ invocations → sd_NodeID (in_Descriptor inv) = id.
Proof.
  intros Hn Hpos. split.
  - apply noFatal_mapErr, (proj2 (Forall_forall _ _)). intros i Hi. unfold itemInvocation.
    apply noFatal_bind; [|intros ? _; apply noFatal_Ok]. apply descriptorForMapItem_noFatal.
    + pose proof (runOutputManifestKey_eq projectKey runID Hproject Hrun node None n Hid) as E.
      cbn in E. rewrite E; [apply noFatal_Ok|done|lia].
    + pose proof (runOutputManifestKey_eq projectKey runID Hproject Hrun node (Some i) n Hid) as E.
      cbn in E. rewrite E; [apply noFatal_Ok| |lia]. intros j [= <-]. by apply Hpos.
  - intros invocations HF%mapErr_Ok. split; [by rewrite (Forall2_length _ _ _ HF)|].
    intros inv Hin. destruct (Forall2_elem_r _ _ _ _ HF Hin) as (i & _ & Hi). by eapply descriptorForMapItem_node.
Qed.

Lemma dispatch_ok itemInputs n rounds pending invocations outcomes invokeErr s : 1 ≤ n →
  roundAt n pending rounds s → length invocations = length pending →
  (∀ inv, inv ∈ invocations → sd_NodeID (in_Descriptor inv) = id) →
  fatalOutcomes {| sb_Steps := invocations; sb_MaxConcurrency := GetUint32 (pn_MaxConcurrency node) |} outcomes invokeErr →
  wp (byIndex ← orFailMap id "map invocation protocol failed"
        (lift (mapOutcomesByIndex id n outcomes pending (bool_decide (invokeErr = None))));
      _ ← forEach (recordDispatch id itemInputs n byIndex) pending;
      st ← foldM (settleItem NumberToJSON sha256Hex ValidateJSONSchema validateManifestSchema id policy collects n byIndex)
        {| mq_rounds := rounds; mq_retry := []; mq_terminal := false |} (zip pending invocations);
      next ← endRound id outcomes invokeErr st;
      mret (mq_rounds st, next))
    (λ r s', roundAt (n + 1) r.2 r.1 s' ∧ (r.2 ≠ [] → n < ep_maxAttempts policy)) stopped s.
Proof.
  intros Hn (Hnd & Hbound & m & Ha & Ho & Ht & HP) Hlen Hnode Hf.
  apply wp_bind. eapply orFailMap_ok; [exact Ho|]. apply (wp_lift_plain I _ s m Ha); [apply mapOutcomesByIndex_noFatal|].
  intros byIndex Hby%matched_Ok. pose proof (matched_lookup _ _ _ _ _ _ Hby) as Hlk.
  assert (∀ i outcome, byIndex !! i = Some outcome → i ∈ pending) as Hpend.
  { intros i outcome [_ (_ & _ & Hi & _)]%Hlk. done. }
  apply wp_bind. eapply wp_conseq; [apply (recordDispatches_ok count n pending byIndex Hnd ltac:(intros; by apply Hbound) m0
    itemInputs (mr_failures rounds) s)| |done].
  { intros i Hi. by apply Hbound. }
  { exists m. split_and!; [done|done|done|]. intros i Hi. destruct (HP i Hi) as (item & Hit & Hr & Hc). exists item.
    split; [done|]. by split. }
  intros ? s1 (m1 & H1 & Ho1 & Ht1 & HP1).
  assert (∀ i, i ∈ pending → 0 ≤ i < count) as Hb by (intros; by apply Hbound).
  apply wp_bind. eapply wp_conseq; [eapply (settleItems_ok count n pending byIndex policy Hn Hb m0)| |done]; [exact Hlen| |].
  - split; [split; cbn; try done; [constructor|by intros i ?%not_elem_of_nil|]|].
    + intros i [Hi|Hi%not_elem_of_nil]; [by apply Hbound|done].
    + exists m1. split_and!; [done|done|done|]. intros i Hi. destruct (HP1 i Hi) as (item & Hit & [_ Hr Hc]). exists item.
      split; [done|]. split; cbn; [intros Hp; apply Hr; [done|apply not_elem_of_nil]|by intros ?%not_elem_of_nil|done|].
      intros o Hni Hl. by destruct (Hni (Hpend i o Hl)).
  - intros st s2 H2. apply wp_bind. eapply wp_conseq; [eapply (endRound_ok count n pending byIndex policy Hb m0 {| sb_Steps := invocations; sb_MaxConcurrency := GetUint32 (pn_MaxConcurrency node) |})| |done].
    + intros inv Hin. by apply Hnode.
    + exact Hf.
    + exact Hpend.
    + intros o Ho'. destruct Hby as (indexes & HF & _). destruct (Forall2_elem_l _ _ _ _ HF Ho') as (i & _ & Hi).
      exists i. by apply Hlk.
    + exact H2.
    + by intros next s3 H3.
Qed.

Lemma mapRound_ok itemInputs n rounds pending s : 1 ≤ n → roundAt n pending rounds s →
  wp (mapRound NumberToJSON sha256Hex ValidateJSONSchema validateManifestSchema planHash storeRoot projectKey runID journal
        node itemInputs policy n rounds pending)
    (λ r s', roundAt (n + 1) r.2 r.1 s' ∧ (r.2 ≠ [] → n < ep_maxAttempts policy)) stopped s.
Proof.
  intros Hn (Hnd & Hbound & m & Ha & Ho & Ht & HP). unfold mapRound.
  apply wp_bind.
  eapply (wp_conseq _ (λ _ s', at_ s' m) _ stopped); [| |done].
  { destruct (1 <? n); [|by apply wp_ret].
    apply wp_bind. apply (wp_publish NumberToJSON HN journal I _ s m Ha (om_live _ _ _ _ Ho)). intros s1 H1.
    eapply orFailMap_ok; [exact Ho|]. destruct (waitBeforeRetry_ok NumberToJSON journal I (delayBefore policy n)) as [Hp Hnf].
    by apply (wp_opErr_plain I _ s1 m H1). }
  intros ? s1 H1. apply wp_bind, (wp_get I _ _ s1 m); [done|]. intros s2 H2.
  destruct (invocations_ok itemInputs (er_index (rn_resolution s2)) n pending Hn ltac:(intros; by apply Hbound)) as [Hnf Hinv].
  apply wp_bind. eapply orFailMap_ok; [exact Ho|]. apply (wp_lift_plain I _ s2 m H2); [done|].
  intros invocations [Hlen Hnode]%Hinv. apply wp_bind. apply (wp_op I _ s2 m H2); [by apply jw_invoke|].
  intros [outcomes invokeErr] s3 w H3 Hf%jw_fatal. apply dispatch_ok; [done| |done|done|done].
  split_and!; [done|done|]. by exists m.
Qed.

(** [maxAttempts - n + 1] rounds suffice from round [n] on. *)
Lemma mapRounds_ok fuel itemInputs n rounds pending s : 1 ≤ n → n + Z.of_nat fuel = ep_maxAttempts policy + 1 →
  (pending ≠ [] → n ≤ ep_maxAttempts policy) → roundAt n pending rounds s →
  wp (mapRounds NumberToJSON sha256Hex ValidateJSONSchema validateManifestSchema planHash storeRoot projectKey runID journal
        fuel node itemInputs policy n rounds pending)
    (λ rounds' s', betweenAt count m0 [] (mr_failures rounds') (λ _, True) s') stopped s.
Proof.
  revert n rounds pending s; induction fuel as [|fuel IH]; intros n rounds pending s Hn Hfuel Hmore Hs.
  all: destruct pending as [|i pending]; cbn [mapRounds].
  1,3: apply wp_ret; destruct Hs as (_ & _ & m & Ha & Ho & Ht & HP); split_and!; [constructor|by intros i ?%not_elem_of_nil|];
    exists m; split_and!; [done|done|done|]; intros i Hi; destruct (HP i Hi) as (item & Hit & _ & Hc); by exists item.
  - specialize (Hmore ltac:(done)). lia.
  - specialize (Hmore ltac:(done)). apply wp_bind.
    eapply wp_conseq; [by apply mapRound_ok| |done]. intros [rounds' pending'] s1 [H1 Hmore']. cbn [fst snd] in *.
    apply IH; [lia|lia| |done]. intros Hne%Hmore'. lia.
Qed.
End Rounds.

(** ** Publishing the collection *)
Lemma putImmutable_preserves key body contentType conflict : key ≠ journal →
  preserves I (putImmutable key body contentType conflict).
Proof.
  intros Hk w r w' HI. unfold putImmutable. destruct (Put _ _ _ w) as [[info|err] w1] eqn:E; intros [= <- <-];
    by eapply (jw_put key _ _ Hk).
Qed.

Lemma PublishJSON_preserves destination producer body : ds_ManifestKey destination ≠ journal →
  preserves I (PublishJSON NumberToJSON sha256Hex ValidateJSONSchema validateManifestSchema destination producer body).
Proof.
  intros Hk w r w' HI. unfold PublishJSON. destruct (preparePublication _ _ _ _ _ _ _ _) as [[[bodyKey bodyRef] bytes]|e] eqn:Ep;
    [|by intros [= <- <-]].
  assert (bodyKey ≠ journal) as Hbk.
  { unfold preparePublication in Ep. apply bind_Ok in Ep as (? & _ & Ep). apply bind_Ok in Ep as (? & _ & Ep).
    apply bind_Ok in Ep as (k & Hbk & Ep). apply bind_Ok in Ep as (? & _ & [= <- _ _]). by eapply blobKey_ne. }
  destruct (putImmutable bodyKey _ _ _ w) as [[u1|e1] w1] eqn:E1; pose proof (putImmutable_preserves _ _ _ _ Hbk _ _ _ HI E1) as I1;
    [|by intros [= <- <-]].
  destruct (putImmutable (ds_ManifestKey destination) _ _ _ w1) as [[u2|e2] w2] eqn:E2;
    pose proof (putImmutable_preserves _ _ _ _ Hk _ _ _ I1 E2) as I2; by intros [= <- <-].
Qed.

Lemma publishCollection_ok count collected s m : at_ s m → openMap id count collects m →
  wp (publishCollection NumberToJSON sha256Hex ValidateJSONSchema validateManifestSchema planHash projectKey runID node collected)
    (λ _ s', at_ s' m) stopped s.
Proof.
  intros Ha Ho. unfold publishCollection.
  pose proof (runOutputManifestKey_eq projectKey runID Hproject Hrun node None 1 Hid) as Hk. cbn in Hk. rewrite Hk by (done || lia).
  apply wp_bind, (wp_lift I _ s m); [done|by apply Ho|apply noFatal_Ok|]. intros key [= <-].
  apply wp_bind. eapply (wp_attempt_call I _ _ _ s m Ha).
  { apply PublishJSON_preserves. by apply (outputKey_ne projectKey runID Hproject Hrun id None 1). }
  { intros w _. apply PublishJSON_noFatal; [done|]. exact jw_store. }
  intros r s1 H1 Hr. apply wp_bind. destruct r as [published|e].
  2: { eapply failMap_plain; [exact H1|exact Ho|]. apply plain_Errorf. apply Forall_cons. split; [by apply Hr|done]. }
  apply wp_ret, wp_bind, (wp_get I _ _ s1 m); [done|]. intros s2 H2.
  match goal with |- context [ResolveJSON ?a ?b ?c ?d ?e ?f ?g] =>
    pose proof (ResolveJSON_noFatal a b c d (H0 := jw_store) e f g) as Hres; destruct (ResolveJSON a b c d e f g) as [[resolved body]|e'] end.
  - by apply wp_ret.
  - eapply failMap_plain; [exact H2|exact Ho|]. apply plain_Errorf. apply Forall_cons. split; [by apply Hres|done].
Qed.

(** ** The map *)
Lemma runMapNode_ok s m step :
  at_ s m → liveManifest m → findManifestStep m id = Some step → st_Status step = StatusPending →
  st_Items step = Some [] → (collects = true → st_ItemFailures step ≠ "") →
  wp (runMapNode NumberToJSON sha256Hex ValidateJSONSchema validateManifestSchema planHash storeRoot projectKey runID journal node)
    (λ _ s', doneAt I id m s') stopped s.
Proof.
  intros Ha Hl Hf Hs Hi Hc. unfold runMapNode.
  apply wp_bind. eapply wp_conseq; [by eapply expandMap_ok| |done].
  intros inputs s1 (m1 & H1 & Ho & Hit & Ht). set (count := Z.of_nat (length inputs)) in *.
  apply wp_bind. destruct (maxInt <? _); [by eapply failMap_plain|]. apply wp_ret.
  apply wp_bind, (wp_get I _ _ s1 m1); [done|]. intros s2 H2.
  match goal with |- context [mapRounds _ _ _ _ _ _ _ _ _ _ _ _ ?p] => set (policy := p) end.
  assert (1 ≤ ep_maxAttempts policy) as Hpos by apply policyForContract_attempts.
  apply wp_bind. eapply wp_conseq; [apply (mapRounds_ok count m policy); [done|lia|done|]| |done].
  { split_and!; [apply NoDup_seqZ| |].
    - intros i Hin%elem_of_seqZ. split; [lia|done].
    - exists m1. split_and!; [done|done|done|]. intros i Hin. destruct (Hit i Hin) as (item & Hat & Hr). exists item.
      split_and!; [done|done|]. intros [f Hfail]. done. }
  intros rounds s3 (_ & _ & m3 & H3 & Ho3 & Ht3 & HP3).
  apply wp_bind, (wp_get I _ _ s3 m3); [done|]. intros s4 H4. assert (rn_manifest s4 = m3) as -> by apply H4.
  apply wp_bind. destruct (mapHasFailedItem m3 id _) eqn:Hno; [by eapply failMap_plain|]. apply wp_ret.
  apply wp_bind. eapply orFailMap_ok; [exact Ho3|]. apply (wp_lift_plain I _ s4 m3 H4); [by apply collection_noFatal|].
  intros collected _. apply wp_bind. eapply wp_conseq; [by eapply publishCollection_ok| |done]. intros output s5 H5.
  assert (itemsAre id count (λ i item, i ∈ (map_to_list (mr_failures rounds)).*1 → collects = true ∧ mi_Status item = StatusFailed) m3) as HP.
  { intros i Hin. destruct (HP3 i Hin) as (item & Hat & _ & Hcol). exists item. split; [done|].
    intros ([j f] & -> & Hm%elem_of_map_to_list)%list_elem_of_fmap. apply Hcol. by exists f. }
  destruct (map_succeed id m3 count collects _ (no_Published output) Ho3 Hno HP) as (m' & Hm' & Hd & Ht').
  apply wp_bind. apply (wp_modifyErr I _ _ s5 m3 H5 _ m' Hm'). intros s6 H6.
  apply wp_bind. apply (wp_publish NumberToJSON HN journal I _ s6 m' H6 (ds_live _ _ Hd)). intros s7 H7.
  apply wp_ret. exists m'. split_and!; [done|done|]. by eapply touches_trans.
Qed.
End Map.
