(* ===== verification/MaterialSafety.v ===== *)
(** * Materialization and the exit hook keep the journal

    The calls of a run around its loop, as functions of the world: writing the schemas and
    source archives of the plan, the result, and running the exit hook.  None writes the
    journal's key, none panics on the keys it composes, and none returns a fatal cause. *)

From S2P Require Import Prelude Utf16 Text SpecTypes PlanTypes Json Canonical CanonicalText SourceIdentity Datastore Encode Artifact ArtifactSafety Journal JournalOps JournalSafety MapExec Retry Index Resolution World StepRun MapRun Run NoFatal RunKeys RunLogic StepSafety.
From Stdlib Require Import SpecFloat.
#[local] Open Scope Z_scope.

Section Materials.
Context (NumberToJSON : spec_float → result string) (HN : ∀ d, noFatal (NumberToJSON d)) (sha256Hex : string → string).
Context (Hhex : ∀ s, IsSHA256Ref (DigestBytes sha256Hex s) = true).
Context (ValidateJSONSchema : string → string → result unit) (validateManifestSchema : string → result unit).
Context (projectKey runID : string) (Hproject : isSafeProjectKey projectKey = true) (Hrun : isSafePathSegment runID = true).
#[local] Abbreviation journal := (journalKey projectKey runID).
Context {W : Type} `{World W} (I : W → Prop) `{JW : !JournalWorld NumberToJSON journal I}.

(** A call of the world that keeps [I] and fails plainly. *)
Definition good {A} (f : W → result A * W) : Prop := preserves I f ∧ ∀ w, I w → noFatal (f w).1.

Lemma good_intro {A} (f : W → result A * W) : (∀ w r w', I w → f w = (r, w') → I w' ∧ noFatal r) → good f.
Proof.
  intros Hf. split; [intros w r w' HI E; by eapply Hf|]. intros w HI. destruct (f w) as [r w'] eqn:E. by eapply Hf.
Qed.
Lemma good_run {A} (f : W → result A * W) w r w' : good f → I w → f w = (r, w') → I w' ∧ noFatal r.
Proof. intros [H1 H2] HI E. split; [by eapply H1|]. specialize (H2 w HI). by rewrite E in H2. Qed.

Lemma worldFold_good {A B} (f : B → A → W → result B * W) l :
  (∀ acc x, x ∈ l → good (f acc x)) → ∀ acc, good (worldFold f acc l).
Proof.
  induction l as [|x l IH]; intros Hf acc; apply good_intro; intros w r w' HI; cbn [worldFold].
  { intros [= <- <-]. split; [done|apply noFatal_Ok]. }
  destruct (f acc x w) as [[acc'|e] w1] eqn:E; destruct (good_run _ _ _ _ (Hf acc x ltac:(by left)) HI E) as [I1 N1].
  - apply good_run; [|done]. apply IH. intros; apply Hf. by right.
  - intros [= <- <-]. split; [done|]. intros e' [= <-]. by apply N1.
Qed.

Lemma put_good key body options : key ≠ journal → good (Put key body options).
Proof. intros Hk. split; [by apply jw_put|]. intros w _. apply put_noFatal. Qed.

Lemma ignoreExisting_noFatal {A} format args (r : result A) :
  Forall (λ a, match a with AWrap e => plain e | _ => True end) args → noFatal r → noFatal (ignoreExisting format args r).
Proof.
  intros Ha Hr. unfold ignoreExisting. destruct r as [a|e]; [apply noFatal_Ok|]. destruct (isErr e _); [apply noFatal_Ok|].
  apply noFatal_Err, plain_Errorf, Forall_app. split; [done|]. apply Forall_cons. split; [by apply Hr|done].
Qed.

Lemma materializeSchema_good entry : good (materializeSchema sha256Hex entry).
Proof.
  apply good_intro. intros w r w' HI. unfold materializeSchema.
  assert (noFatal (wrapErr "schema %s: %w" [AStr (GetString (se_Hash entry))]
    (verifyDigest sha256Hex (GetString (se_Hash entry)) (GetString (se_CanonicalJson entry))))) as Hv.
  { unfold verifyDigest. nofatal. }
  destruct (wrapErr _ _ _) as [u|e]; [|by intros [= <- <-]; split; [|apply noFatal_Err, Hv]].
  pose proof (blobKeyForHash_noFatal (GetString (se_Hash entry))) as Hb.
  destruct (blobKeyForHash _) as [key|e] eqn:Ek; [|by intros [= <- <-]; split; [|apply noFatal_Err, Hb]].
  assert (key ≠ journal) as Hne by by eapply blobKeyForHash_ne.
  destruct (putJSON key _ w) as [r1 w1] eqn:Ep. destruct (good_run _ _ _ _ (put_good _ _ _ Hne) HI Ep) as [I1 N1].
  intros [= <- <-]. split; [done|]. apply ignoreExisting_noFatal; [|done]. by repeat (apply Forall_cons; split).
Qed.

Lemma packageManifest_noFatal config sourcePackage : noFatal (packageManifest NumberToJSON sha256Hex config sourcePackage).
Proof.
  unfold packageManifest. assert (∀ files, noFatal (recomputeSourcePackageHash NumberToJSON sha256Hex files)) by (intros; by apply recompute_noFatal).
  nofatal.
Qed.

Lemma snapshotArchive_good storeRoot sourceRoot packageID packageHash files :
  good (snapshotArchive storeRoot sourceRoot packageID packageHash files).
Proof.
  apply good_intro. intros w r w' HI. unfold snapshotArchive.
  assert (∀ e, plain e → ∀ fmt, plain (Errorf fmt [AStr packageID; AWrap e])) as Hw.
  { intros e He fmt. apply plain_Errorf. by repeat (apply Forall_cons; split). }
  destruct (absPath sourceRoot w) as [[root|e] w1] eqn:E1; destruct (jw_absPath sourceRoot) as [P1 N1];
    pose proof (P1 _ _ _ HI E1) as I1; specialize (N1 w); rewrite E1 in N1.
  2: { intros [= <- <-]. split; [done|]. apply noFatal_Err, Hw. by apply N1. }
  destruct (ensureSourceSnapshot _ _ _ _ w1) as [[u|e] w2] eqn:E2;
    destruct (jw_snapshot storeRoot root (sourceSnapshotDir storeRoot packageHash) files) as [P2 N2];
    pose proof (P2 _ _ _ I1 E2) as I2; specialize (N2 w1); rewrite E2 in N2.
  2: { intros [= <- <-]. split; [done|]. by apply noFatal_Err, N2. }
  destruct (deterministicSourceArchive _ _ w2) as [archive w3] eqn:E3.
  destruct (jw_archive (sourceSnapshotDir storeRoot packageHash) files) as [P3 N3];
    pose proof (P3 _ _ _ I2 E3) as I3; specialize (N3 w2); rewrite E3 in N3.
  intros [= <- <-]. split; [done|]. apply noFatal_wrap; [by repeat (apply Forall_cons; split)|done].
Qed.

Lemma materializePackage_good config packages sourcePackage : IsSHA256Ref (GetString (kr_PackageHash sourcePackage)) = true →
  good (materializePackage NumberToJSON sha256Hex config packages sourcePackage).
Proof.
  intros Hhash. apply good_intro. intros w r w' HI. unfold materializePackage.
  pose proof (packageManifest_noFatal config sourcePackage) as Hm.
  destruct (packageManifest _ _ _ _) as [manifest|e]; [|by intros [= <- <-]; split; [|apply noFatal_Err, Hm]].
  destruct (snapshotArchive _ _ _ _ _ w) as [[archive|e] w1] eqn:E1;
    destruct (good_run _ _ _ _ (snapshotArchive_good _ _ _ _ _) HI E1) as [I1 N1].
  2: { intros [= <- <-]. split; [done|]. by apply noFatal_Err, N1. }
  destruct (sourceArchiveKey_ok (GetString (kr_PackageHash sourcePackage)) (DigestBytes sha256Hex archive) Hhash (Hhex _)) as [key Hk].
  cbn [archiveArtifact sa_Key]. rewrite Hk.
  destruct (Put key archive _ w1) as [r2 w2] eqn:E2.
  destruct (good_run _ _ _ _ (put_good _ _ _ (sourceArchiveKey_ne _ _ _ _ _ Hk)) I1 E2) as [I2 N2].
  intros [= <- <-]. split; [done|]. apply noFatal_bind; [|intros; apply noFatal_Ok].
  apply ignoreExisting_noFatal; [by repeat (apply Forall_cons; split)|done].
Qed.

Lemma materializePrerequisites_good config plan :
  (∀ p, p ∈ wp_SourcePackages plan → IsSHA256Ref (GetString (kr_PackageHash p)) = true) →
  good (materializePrerequisites NumberToJSON sha256Hex config plan).
Proof.
  intros Hp. apply good_intro. intros w r w' HI. unfold materializePrerequisites.
  destruct (worldFold _ tt (wp_Schemas plan) w) as [[u|e] w1] eqn:E1;
    destruct (good_run _ _ _ _ (worldFold_good _ _ ltac:(intros; apply materializeSchema_good) _) HI E1) as [I1 N1].
  - apply good_run; [|done]. apply worldFold_good. intros acc p Hin. by apply materializePackage_good, Hp.
  - intros [= <- <-]. split; [done|]. by apply noFatal_Err, N1.
Qed.

Lemma resultForEnd_good endNode r : good (resultForEnd sha256Hex projectKey runID endNode r).
Proof.
  apply good_intro. intros w res w' HI. unfold resultForEnd. rewrite (runResultKey_eq projectKey runID Hproject Hrun).
  destruct (inboundOf r endNode) as [|edge [|]]; try (intros [= <- <-]; split; [done|nofatal]).
  destruct (er_outputs r !! _) as [output|]; [|intros [= <- <-]; split; [done|nofatal]].
  destruct (putJSON _ _ w) as [[info|e] w1] eqn:E1;
    destruct (good_run _ _ _ _ (put_good _ _ _ (resultKey_ne projectKey runID Hproject Hrun)) HI E1) as [I1 N1]; intros [= <- <-].
  - split; [done|apply noFatal_Ok].
  - split; [done|]. apply noFatal_Err, plain_Errorf. apply Forall_cons. split; [by apply N1|done].
Qed.

(** ** The exit hook *)
Lemma settleInvocation_good index d :
  good (settleInvocation NumberToJSON sha256Hex ValidateJSONSchema validateManifestSchema index d).
Proof. by apply (settleInvocation_ok NumberToJSON sha256Hex ValidateJSONSchema validateManifestSchema projectKey runID). Qed.

Section Hook.
Context (config : RunConfig) (plan : WorkflowPlan) (index : executionIndex).
Context (Hpackages : ∀ p, p ∈ wp_SourcePackages plan → IsSHA256Ref (GetString (kr_PackageHash p)) = true).
Context (hook : PlanNode) (Hhook : isSafePathSegment (GetString (pn_Id hook)) = true).

(** The hook's failure is a diagnostic of its record, never an error. *)
Lemma invokeHook_ok policy idx input w r w' : I w →
  invokeHook NumberToJSON sha256Hex ValidateJSONSchema validateManifestSchema config plan projectKey runID hook policy idx input w = (r, w') →
  I w' ∧ ∃ x, r = Ok x.
Proof.
  intros HI. unfold invokeHook.
  assert (noFatal (descriptorForStep (GetString (wp_PlanHash plan)) (binding (rc_DatastoreRoot config)) projectKey runID hook input idx 1)) as Hd.
  { apply descriptorForStep_noFatal. pose proof (runOutputManifestKey_eq projectKey runID Hproject Hrun hook None 1 Hhook) as E.
    cbn in E. rewrite E; [apply noFatal_Ok|done|lia]. }
  destruct (descriptorForStep _ _ _ _ _ _ _ _) as [d|e].
  2: { assert (isPanic e = false) as -> by by apply Hd. intros [= <- <-]. eauto. }
  destruct (InvokeSteps _ w) as [[outcomes invokeErr] w1] eqn:E1. pose proof (jw_invoke _ _ _ _ HI E1) as I1.
  destruct (match invokeErr with Some e => bool_decide (asFatal e = None) | None => false end); [intros [= <- <-]; eauto|].
  destruct outcomes as [|outcome [|]]; try (intros [= <- <-]; by eauto).
  destruct (negb _); [intros [= <- <-]; eauto|].
  destruct (settleInvocation _ _ _ _ idx d w1) as [[output|e] w2] eqn:E2;
    destruct (good_run _ _ _ _ (settleInvocation_good idx d) I1 E2) as [I2 N2].
  - intros [= <- <-]. eauto.
  - assert (isPanic e = false) as -> by by apply N2. intros [= <- <-]. eauto.
Qed.

Lemma hookPackages_good packages : good (hookPackages NumberToJSON sha256Hex config plan packages).
Proof.
  destruct packages as [p|]; [|by apply materializePrerequisites_good].
  apply good_intro. intros w r w' HI [= <- <-]. split; [done|apply noFatal_Ok].
Qed.

Lemma hookBody_ok policy input key encoded packages w r w' : MustKey (da_Key input) = Ok key → key ≠ journal → I w →
  hookBody NumberToJSON sha256Hex ValidateJSONSchema validateManifestSchema config plan projectKey runID index hook policy
    input encoded packages w = (r, w') → I w' ∧ ∃ x, r = Ok x.
Proof.
  intros Hk Hne HI. unfold hookBody. destruct encoded as [body|e]; [|intros [= <- <-]; eauto].
  destruct (hookPackages _ _ _ _ packages w) as [[p|e] w1] eqn:E1;
    destruct (good_run _ _ _ _ (hookPackages_good packages) HI E1) as [I1 N1].
  2: { assert (isPanic e = false) as -> by by apply N1. intros [= <- <-]. eauto. }
  rewrite Hk. destruct (putJSON key body w1) as [[info|e] w2] eqn:E2;
    destruct (good_run _ _ _ _ (put_good _ _ _ Hne) I1 E2) as [I2 _].
  - by apply invokeHook_ok.
  - intros [= <- <-]. eauto.
Qed.

Lemma runExitHook_ok outcome packages w r w' : I w →
  runExitHook NumberToJSON sha256Hex ValidateJSONSchema validateManifestSchema config plan projectKey runID index hook outcome packages w =
    (r, w') →
  I w' ∧ ∃ step, r = Ok step ∧ attemptsOk (st_Attempts step) (st_Status step).
Proof.
  intros HI. unfold runExitHook, within.
  pose proof (runInputKey_eq projectKey runID Hproject Hrun hook None Hhook) as Hk. cbn in Hk. rewrite Hk by done.
  match goal with |- context [enter ?k w] => pose proof (jw_enter k w HI) as I0; set (w0 := enter k w) in *; set (life := k) end.
  destruct (hookBody _ _ _ _ _ _ _ _ _ _ _ _ _ _ w0) as [res w1] eqn:E1.
  eapply hookBody_ok in E1 as (I1 & [output diagnostic] & ->); [| | |exact I0].
  - unfold hookRecord. destruct (ctxErr w1) as [reason w2] eqn:E2. pose proof (jw_ctxErr _ _ _ I1 E2) as I2.
    intros [= <- <-]. split; [by apply jw_leave|]. eexists. split; [done|]. cbn [st_Attempts st_Status].
    apply (attemptsOk_snoc_iff []). split_and!; [done|done|by left].
  - apply keyOf_parses. by apply (inputSegments_ok projectKey runID Hproject Hrun (GetString (pn_Id hook)) None).
  - by apply (inputKey_ne projectKey runID Hproject Hrun (GetString (pn_Id hook)) None).
Qed.
End Hook.
End Materials.
