(* ===== verification/RunSafety.v ===== *)
(** * A run keeps its journal readable and never panics

    The loop over the nodes, the end of a run and its deferred calls in the calculus of
    RunLogic.  Before a node is reached its step is pending; after it, succeeded or skipped.
    A run that stops leaves a journal its terminal form explains; the exit hook adds a
    closed attempt to it. *)

From S2P Require Import Prelude Utf16 Text SpecTypes PlanTypes Json Canonical CanonicalText SourceIdentity Datastore Encode Artifact Journal JournalOps JournalSafety MapExec Retry Index Resolution World StepRun MapRun Run IndexSafety NoFatal RunKeys RunLogic StepSafety MapItems MapSafety MaterialSafety.
From Stdlib Require Import SpecFloat.
#[local] Open Scope Z_scope.

(** ** The steps of the journal, and their order, are those of the plan *)
Definition stepIds (m : Manifest) : list string := map st_NodeID (mf_Steps m).

Lemma find_stepIds m id : id ∈ stepIds m ↔ is_Some (findManifestStep m id).
Proof.
  unfold stepIds, findManifestStep. induction (mf_Steps m) as [|step l IH]; cbn [map].
  { split; [by intros ?%not_elem_of_nil|by intros [? ?]]. }
  rewrite find_cons, elem_of_cons, IH. destruct (eqs (st_NodeID step) id) eqn:E.
  - apply eqs_spec in E. split; [eauto|by left].
  - apply eqs_false in E. split; [by intros [|]|by right].
Qed.

Section Keeps.
Context {W : Type}.
Definition keeps {A} (m : M W A) : Prop := ∀ s, stepIds (rn_manifest (m s).2) = stepIds (rn_manifest s).

Lemma keeps_bind {A B} (m : M W A) (f : A → M W B) : keeps m → (∀ a, keeps (f a)) → keeps (m ≫= f).
Proof.
  intros Hm Hf s. unfold mbind, M_bind. specialize (Hm s). destruct (m s) as [[a|e] s']; [|done].
  by rewrite Hf.
Qed.
Lemma keeps_ret {A} (a : A) : keeps (mret a).
Proof. done. Qed.
Lemma keeps_fail {A} e : keeps (A := A) (fail e).
Proof. done. Qed.
Lemma keeps_lift {A} (r : result A) : keeps (lift r).
Proof. done. Qed.
Lemma keeps_get : keeps get.
Proof. done. Qed.
Lemma keeps_attempt {A} (m : M W A) : keeps m → keeps (attempt m).
Proof.
  intros Hm s. unfold attempt. specialize (Hm s). destruct (m s) as [[a|e] s']; [done|]. by destruct (isPanic e).
Qed.
Lemma keeps_op {A} (f : W → A * W) : keeps (op f).
Proof. intros s. unfold op. by destruct (f (rn_world s)). Qed.
Lemma keeps_opErr {A} (f : W → result A * W) : keeps (opErr f).
Proof. intros s. unfold opErr. by destruct (f (rn_world s)). Qed.
Lemma keeps_modify f : (∀ m, stepIds (f m) = stepIds m) → keeps (modify f).
Proof. intros Hf s. apply Hf. Qed.
Lemma keeps_modifyErr f : (∀ m m', f m = Ok m' → stepIds m' = stepIds m) → keeps (modifyErr f).
Proof. intros Hf s. unfold modifyErr. destruct (f (rn_manifest s)) eqn:E; [by apply Hf|done]. Qed.
Lemma wp_keeps {A} (m : M W A) Q E s : keeps m → wp m Q E s →
  wp m (λ a s', Q a s' ∧ stepIds (rn_manifest s') = stepIds (rn_manifest s))
    (λ e s', E e s' ∧ stepIds (rn_manifest s') = stepIds (rn_manifest s)) s.
Proof. intros Hk. specialize (Hk s). unfold wp. by destruct (m s) as [[a|e] s']. Qed.
Lemma keeps_forEach {A} (f : A → M W unit) l : (∀ x, keeps (f x)) → keeps (forEach f l).
Proof. intros Hf. induction l; [done|]. by apply keeps_bind. Qed.
Lemma keeps_foldM {A B} (f : B → A → M W B) acc l : (∀ acc x, keeps (f acc x)) → keeps (foldM f acc l).
Proof. intros Hf. revert acc; induction l; intros acc; [done|]. by apply keeps_bind. Qed.
End Keeps.

Lemma updateStep_ids id f m : (∀ step, st_NodeID (f step) = st_NodeID step) → stepIds (updateStep id f m) = stepIds m.
Proof. intros Hf. apply (to_ids id), updateStep_touches, Hf. Qed.
Lemma updateItem_ids id i f m : stepIds (updateItem id i f m) = stepIds m.
Proof. apply (to_ids id), updateItem_touches. Qed.

Lemma failMapNode_ids cancelled id diagnostic m : stepIds (failMapNode cancelled id diagnostic m) = stepIds m.
Proof.
  unfold failMapNode, markAttemptTerminal, markUnfinishedMapItemsTerminal.
  rewrite updateStep_ids by done. apply updateStep_ids. intros step. by destruct (st_Items step).
Qed.
Lemma markMapItemsPending_ids id l m : stepIds (markMapItemsPending id l m) = stepIds m.
Proof. apply updateStep_ids. intros step. by destruct (st_Items step). Qed.
Lemma markMapItemSucceeded_ids id i output m m' : markMapItemSucceeded id i output m = Ok m' → stepIds m' = stepIds m.
Proof. unfold markMapItemSucceeded. repeat case_match; try done; intros [= <-]; [apply updateItem_ids|done]. Qed.
Lemma markAttemptSucceeded_ids id output m m' : markAttemptSucceeded id output m = Ok m' → stepIds m' = stepIds m.
Proof. unfold markAttemptSucceeded. repeat case_match; try done; intros [= <-]; [by apply updateStep_ids|done]. Qed.

Create HintDb keeps.
#[local] Hint Resolve updateItem_ids failMapNode_ids markMapItemsPending_ids markMapItemSucceeded_ids markAttemptSucceeded_ids : keeps.
Ltac keeps :=
  repeat first
    [ solve [eauto 3 with keeps]
    | apply keeps_ret | apply keeps_fail | apply keeps_lift | apply keeps_get | apply keeps_op | apply keeps_opErr
    | apply keeps_forEach; intros | apply keeps_foldM; intros | apply keeps_attempt
    | apply keeps_modify; intros; solve [eauto with keeps | by apply updateStep_ids]
    | apply keeps_modifyErr; intros; solve [eauto with keeps]
    | apply keeps_bind; [|intros]
    | case_match ].

Section MapKeeps.
Context (NumberToJSON : spec_float → result string) (sha256Hex : string → string).
Context (ValidateJSONSchema : string → string → result unit) (validateManifestSchema : string → result unit).
Context {W : Type} `{World W} (planHash storeRoot projectKey runID : string) (journal : Key).

Lemma failMap_keeps {A} id diagnostic cause : keeps (W := W) (failMap (A := A) id diagnostic cause).
Proof. unfold failMap. keeps. Qed.
Lemma orFailMap_keeps {A} id diagnostic (m : M W A) : keeps m → keeps (orFailMap id diagnostic m).
Proof. intros Hm. pose proof (@failMap_keeps). unfold orFailMap. keeps. Qed.
Lemma publish_keeps : keeps (W := W) (publish NumberToJSON journal).
Proof. unfold publish. keeps. Qed.
Lemma putInput_keeps input body format args : keeps (W := W) (putInput input body format args).
Proof. unfold putInput. keeps. Qed.
#[local] Hint Resolve failMap_keeps publish_keeps putInput_keeps : keeps.
#[local] Hint Extern 1 (keeps (orFailMap _ _ _)) => apply orFailMap_keeps; keeps : keeps.

Lemma mapRound_keeps node itemInputs policy n rounds pending :
  keeps (W := W) (mapRound NumberToJSON sha256Hex ValidateJSONSchema validateManifestSchema planHash storeRoot projectKey runID journal
    node itemInputs policy n rounds pending).
Proof. unfold mapRound, recordDispatch, settleItem, settleItemFailure, endRound. keeps. Qed.

Lemma mapRounds_keeps fuel node itemInputs policy n rounds pending :
  keeps (W := W) (mapRounds NumberToJSON sha256Hex ValidateJSONSchema validateManifestSchema planHash storeRoot projectKey runID journal
    fuel node itemInputs policy n rounds pending).
Proof.
  revert n rounds pending; induction fuel as [|fuel IH]; intros n rounds pending; destruct pending; cbn [mapRounds]; try done.
  apply keeps_bind; [apply mapRound_keeps|]. intros [rounds' pending']. apply IH.
Qed.

Lemma runMapNode_keeps node :
  keeps (W := W) (runMapNode NumberToJSON sha256Hex ValidateJSONSchema validateManifestSchema planHash storeRoot projectKey runID journal node).
Proof.
  unfold runMapNode, expandMap, publishCollection, putItemInput. pose proof mapRounds_keeps. keeps.
Qed.
End MapKeeps.

(** ** The loop over the nodes *)
Section Run.
Context (NumberToJSON : spec_float → result string) (HN : ∀ d, noFatal (NumberToJSON d)) (sha256Hex : string → string).
Context (Hhex : ∀ s, IsSHA256Ref (DigestBytes sha256Hex s) = true).
Context (ValidateJSONSchema : string → string → result unit) (validateManifestSchema : string → result unit).
Context (validateJSONAgainstSchema : string → string → result unit).
Context (projectKey runID : string) (Hproject : isSafeProjectKey projectKey = true) (Hrun : isSafePathSegment runID = true).
#[local] Abbreviation journal := (journalKey projectKey runID).
Context {W : Type} `{World W} (I : W → Prop) `{JW : !JournalWorld NumberToJSON journal I}.
Implicit Types (s : RunState W) (m : Manifest).
#[local] Abbreviation at_ := (RunLogic.at_ I).
#[local] Abbreviation stopped := (RunLogic.stopped I).
Context (config : RunConfig) (plan : WorkflowPlan) (index : executionIndex).

(** What the checks before a run establish of its plan. *)
Record checkedPlan : Prop := {
  cp_index : indexed_plan index (planGraph plan);
  cp_nodes : ∀ node, node ∈ gi_Nodes (planGraph plan) → isSafePathSegment (GetString (pn_Id node)) = true;
  cp_hook : ∀ hook, gi_ExitHook (planGraph plan) = Some hook → isSafePathSegment (GetString (pn_Id hook)) = true;
  cp_packages : ∀ p, p ∈ wp_SourcePackages plan → IsSHA256Ref (GetString (kr_PackageHash p)) = true;
}.
Context (Hplan : checkedPlan).
#[local] Abbreviation nodeAt id := (default emptyPlanNode (ix_nodesByID index !! id)).

Definition freshStep (id : string) m : Prop := ∃ step, findManifestStep m id = Some step ∧
  st_Status step = StatusPending ∧ st_Items step = (if eqs (planKind (nodeAt id)) "map" then Some [] else None) ∧
  (planKind (nodeAt id) = "map" → eqs (GetString (pn_ItemFailures (nodeAt id))) MapItemFailuresCollect = true →
    st_ItemFailures step ≠ "").
Definition settledStep (id : string) m : Prop := ∃ step, findManifestStep m id = Some step ∧
  (st_Status step = StatusSucceeded ∨ st_Status step = StatusSkipped).

Record loopInv (rest : list string) m : Prop := {
  lv_live : liveManifest m;
  lv_ids : stepIds m = ix_stepOrder index;
  lv_fresh : ∀ id, id ∈ ix_stepOrder index → id ∈ rest → freshStep id m;
  lv_settled : ∀ id, id ∈ ix_stepOrder index → id ∉ rest → settledStep id m;
}.
Definition loopAt (rest : list string) s : Prop :=
  NoDup rest ∧ (∀ id, id ∈ rest → id ∈ ix_nodeOrder index) ∧ ∃ m, at_ s m ∧ loopInv rest m.

Lemma node_of id : id ∈ ix_nodeOrder index → GetString (pn_Id (nodeAt id)) = id ∧ isSafePathSegment id = true ∧
  (id ∈ ix_stepOrder index ↔ planKind (nodeAt id) = "step" ∨ planKind (nodeAt id) = "map").
Proof.
  intros Hin. destruct (ip_node _ _ (cp_index Hplan) id Hin) as (node & E & Hnode). rewrite E. cbn [default].
  pose proof (ip_id _ _ (cp_index Hplan) _ _ E) as Hid. split_and!; [done|rewrite <- Hid; by apply (cp_nodes Hplan)|].
  rewrite (ip_steps _ _ (cp_index Hplan)), list_elem_of_filter. unfold kindAt. rewrite E. cbn. tauto.
Qed.

Lemma loop_advance id rest m m' : id ∉ rest → loopInv (id :: rest) m → liveManifest m' → touches id m m' →
  (id ∈ ix_stepOrder index → settledStep id m') → loopInv rest m'.
Proof.
  intros Hni [_ Hids Hfresh Hset] Hl [Hother Hto] Hdone. split; [done|by rewrite <- Hids| |].
  - intros j Hj Hjr. destruct (Hfresh j Hj ltac:(by right)) as (step & Hf & Hrest). exists step. split; [|done].
    rewrite Hother; [done|]. by intros ->.
  - intros j Hj Hjr. destruct (decide (j = id)) as [->|Hne]; [by apply Hdone|].
    destruct (Hset j Hj) as (step & Hf & Hrest); [by apply not_elem_of_cons|]. exists step. split; [|done]. by rewrite Hother.
Qed.

Lemma loopAt_advance id rest s s' m m' : loopAt (id :: rest) s → loopInv (id :: rest) m → at_ s' m' →
  liveManifest m' → touches id m m' → (id ∈ ix_stepOrder index → settledStep id m') → loopAt rest s'.
Proof.
  intros ([Hni Hnd]%NoDup_cons & Hsub & _) Hinv Ha Hl Ht Hd. split_and!; [done|intros j Hj; apply Hsub; by right|].
  exists m'. split; [done|]. by eapply loop_advance.
Qed.

(** A node that is not a step records at most a decision. *)
Lemma addDecision_touches id d m : touches id m (addDecision d m).
Proof. by split. Qed.

Section Node.
Context (id : string) (rest : list string) (s0 : RunState W) (Hloop : loopAt (id :: rest) s0).
Context (m : Manifest) (Hinv : loopInv (id :: rest) m).
Let Hin : id ∈ ix_nodeOrder index := proj1 (proj2 Hloop) id ltac:(by left).

Lemma skipNode_ok reason s : at_ s m → wp (skipNode NumberToJSON journal (nodeAt id) id reason) (λ _, loopAt rest) stopped s.
Proof.
  intros Ha. pose proof (lv_live _ _ Hinv) as Hl. destruct (node_of id Hin) as (_ & _ & Hkind). unfold skipNode.
  apply wp_bind, (wp_get I _ _ s m); [done|]. intros s1 H1. apply wp_bind. apply (wp_setResolution I _ _ s1 m); [done|]. intros s2 H2.
  assert (∀ m' s', at_ s' m' → liveManifest m' → touches id m m' → (id ∈ ix_stepOrder index → settledStep id m') →
    wp (publish NumberToJSON journal) (λ _, loopAt rest) stopped s') as Hpub.
  { intros m' s' Ha' Hl' Ht Hd. apply (wp_publish NumberToJSON HN journal I _ s' m' Ha' Hl'). intros s3 H3.
    by eapply loopAt_advance. }
  apply wp_bind. destruct (eqs (planKind (nodeAt id)) "step" || eqs (planKind (nodeAt id)) "map") eqn:Ek.
  - assert (id ∈ ix_stepOrder index) as Hstep.
    { apply Hkind. apply orb_prop in Ek as [E|E]; apply eqs_spec in E; auto. }
    destruct (lv_fresh _ _ Hinv id Hstep ltac:(by left)) as (step & Hf & Hs & _).
    apply (wp_modify I _ _ s2 m H2). intros s3 H3. eapply Hpub; [exact H3| |by apply updateStep_touches|].
    + by eapply journalStep_live, js_skipped.
    + intros _. eexists. split; [by eapply updateStep_find|by right].
  - apply orb_false_iff in Ek as [E1%eqs_false E2%eqs_false].
    assert (id ∉ ix_stepOrder index) as Hns by (intros [?|?]%Hkind; done).
    destruct (eqs _ "decision"); [|destruct (eqs _ "select")].
    + apply (wp_modify I _ _ s2 m H2). intros s3 H3. eapply Hpub; [exact H3| |by apply addDecision_touches|done].
      eapply journalStep_live; [done|apply js_decision].
    + apply wp_ret. eapply Hpub; [exact H2|done|apply touches_refl|done].
    + by apply wp_fail, (stopped_plain I _ s2 m).
Qed.

Lemma runDecision_ok s : at_ s m → id ∉ ix_stepOrder index →
  wp (runDecision NumberToJSON validateJSONAgainstSchema journal (nodeAt id) id) (λ _, loopAt rest) stopped s.
Proof.
  intros Ha Hns. pose proof (lv_live _ _ Hinv) as Hl. unfold runDecision.
  apply wp_bind, (wp_get I _ _ s m); [done|]. intros s1 H1. apply wp_bind, wp_attempt.
  pose proof (routeDecision_noFatal NumberToJSON HN validateJSONAgainstSchema (rn_resolution s1) (nodeAt id)) as Hr.
  unfold wp at 1, lift. destruct (routeDecision _ _ _ _) as [[selectedCase r]|e].
  - apply wp_bind. apply (wp_setResolution I _ _ s1 m); [done|]. intros s2 H2.
    apply wp_bind. apply (wp_modify I _ _ s2 m H2). intros s3 H3.
    eapply (wp_publish NumberToJSON HN journal I _ s3 _ H3).
    + eapply journalStep_live; [done|apply js_decision].
    + intros s4 H4. eapply loopAt_advance; [done|exact Hinv|exact H4| |apply addDecision_touches|done].
      eapply journalStep_live; [done|apply js_decision].
  - assert (isPanic e = false) as -> by by apply Hr. apply wp_bind. apply (wp_modify I _ _ s1 m H1). intros s2 H2.
    apply wp_fail. eapply stopped_plain; [exact H2| |by apply Hr]. eapply journalStep_live; [done|apply js_decision].
Qed.

Lemma done_advance s s' : at_ s m → doneAt I id m s' → loopAt rest s'.
Proof.
  intros Ha (m' & H1 & Hd & Ht). eapply loopAt_advance; [done|exact Hinv|exact H1|by apply Hd|done|].
  intros _. destruct Hd as [_ (step & Hf & Hs)]. exists step. by split; [|left].
Qed.

Lemma runMap_ok s : at_ s m → planKind (nodeAt id) = "map" →
  wp (runMap NumberToJSON sha256Hex ValidateJSONSchema validateManifestSchema config plan projectKey runID journal (nodeAt id) id)
    (λ _, loopAt rest) stopped s.
Proof.
  intros Ha Hk. destruct (node_of id Hin) as (Hid & Hsafe & Hkind). assert (id ∈ ix_stepOrder index) as Hstep by (apply Hkind; by right).
  destruct (lv_fresh _ _ Hinv id Hstep ltac:(by left)) as (step & Hf & Hs & Hi & Hc). rewrite Hk in Hi.
  specialize (Hc Hk). change (eqs "map" "map") with true in Hi. cbn iota in Hi.
  assert (∀ m', stepIds m' = stepIds m → is_Some (findManifestStep m' id)) as Hfind.
  { intros m' E. apply find_stepIds. rewrite E, (lv_ids _ _ Hinv). done. }
  unfold runMap. apply wp_bind, wp_attempt.
  eapply wp_conseq; [apply wp_keeps; [apply runMapNode_keeps|]| |].
  { eapply (runMapNode_ok NumberToJSON HN sha256Hex ValidateJSONSchema validateManifestSchema projectKey runID Hproject Hrun I
      _ _ (nodeAt id)); rewrite ?Hid; try done. by apply Hinv. }
  - cbn beta. intros output s1 [(m1 & H1 & Hd & Ht) _]. rewrite Hid in *. cbn beta.
    assert (∀ s', at_ s' m1 → loopAt rest s') as Hdone by (intros s' H'; eapply done_advance; [exact Ha|by exists m1]).
    destruct (Hd) as [Hl1 (step1 & Hf1 & _)].
    apply wp_bind, (wp_get I _ _ s1 m1); [done|]. intros s2 H2. destruct (H2) as [-> _]. rewrite Hf1.
    apply wp_bind, (wp_lift I _ s2 m1); [done|done|apply noFatal_Ok|]. intros ? [= <-].
    apply wp_bind. eapply (wp_conseq _ (λ _ s', at_ s' m1) _ stopped); [| |done].
    { destruct (existsb _ _); [by apply (wp_addDispatched I _ _ s2 m1)|by apply wp_ret]. }
    intros ? s3 H3. apply wp_bind, (wp_lift I _ s3 m1); [done|done|apply noFatal_Ok|]. intros ? [= <-].
    apply wp_bind, (wp_get I _ _ s3 m1); [done|]. intros s4 H4. by apply (wp_setResolution I _ _ s4 m1).
  - intros e s1 [(m1 & H1 & Hl1 & Hex & Hp) Hids]. rewrite Hp. cbn beta.
    destruct (Ha) as [Hm _]. destruct (H1) as [Hm1 _]. rewrite Hm, Hm1 in Hids. destruct (Hfind m1 Hids) as [step1 Hf1].
    apply wp_bind, (wp_get I _ _ s1 m1); [done|]. intros s2 H2. destruct (H2) as [-> _]. rewrite Hf1.
    apply wp_bind, (wp_lift I _ s2 m1); [done|done|apply noFatal_Ok|]. intros ? [= <-].
    apply wp_bind. eapply (wp_conseq _ (λ _ s', at_ s' m1) _ stopped); [| |done].
    { destruct (existsb _ _); [by apply (wp_addDispatched I _ _ s2 m1)|by apply wp_ret]. }
    intros ? s3 H3. apply wp_bind. unfold wp, lift. by exists m1.
Qed.

Lemma runActive_ok s : at_ s m →
  wp (runActive NumberToJSON sha256Hex ValidateJSONSchema validateManifestSchema validateJSONAgainstSchema config plan projectKey runID
    journal index (nodeAt id) id) (λ _, loopAt rest) stopped s.
Proof.
  intros Ha. destruct (node_of id Hin) as (Hid & Hsafe & Hkind). pose proof (lv_live _ _ Hinv) as Hl.
  assert (∀ k, planKind (nodeAt id) = k → k ≠ "step" → k ≠ "map" → id ∉ ix_stepOrder index) as Hns.
  { intros k <- H1 H2 [?|?]%Hkind; done. }
  assert (id ∉ ix_stepOrder index → ∀ s', at_ s' m → loopAt rest s') as Hsame.
  { intros Hn s' Ha'. eapply loopAt_advance; [done|exact Hinv|exact Ha'|done|apply touches_refl|done]. }
  unfold runActive.
  destruct (eqs _ "decision") eqn:E1; [apply eqs_spec in E1; apply runDecision_ok; [done|by eapply Hns]|].
  destruct (eqs _ "select") eqn:E2.
  { apply eqs_spec in E2. assert (id ∉ ix_stepOrder index) as Hn by by eapply Hns. unfold runSelect.
    apply wp_bind, (wp_get I _ _ s m); [done|]. intros s1 H1.
    apply wp_bind, (wp_lift I _ s1 m); [done|done|apply selectOutput_noFatal|]. intros r _.
    apply (wp_setResolution I _ _ s1 m); [done|]. by apply Hsame. }
  destruct (eqs _ "start" || eqs _ "end") eqn:E3.
  { apply wp_ret, Hsame; [|done]. apply orb_prop in E3 as [E3|E3]; apply eqs_spec in E3; by eapply Hns. }
  destruct (eqs _ "map") eqn:E4; [apply eqs_spec in E4; by apply runMap_ok|].
  destruct (eqs _ "step") eqn:E5; [|by apply wp_fail, (stopped_plain I _ s m)].
  apply eqs_spec in E5. apply eqs_false in E4.
  destruct (lv_fresh _ _ Hinv id ltac:(apply Hkind; by left) ltac:(by left)) as (step & Hf & Hs & Hi & _).
  rewrite (proj2 (eqs_false _ _) E4) in Hi.
  eapply wp_conseq; [eapply (runStep_ok NumberToJSON HN sha256Hex ValidateJSONSchema validateManifestSchema projectKey runID
    Hproject Hrun I _ _ index (nodeAt id)); rewrite ?Hid; try done; exact Hi| |done].
  intros ? s1 H1. rewrite Hid in H1. by eapply done_advance.
Qed.
End Node.

Lemma runNode_ok id rest s : loopAt (id :: rest) s →
  wp (runNode NumberToJSON sha256Hex ValidateJSONSchema validateManifestSchema validateJSONAgainstSchema config plan projectKey runID
    journal index id) (λ _, loopAt rest) stopped s.
Proof.
  intros Hloop. pose proof Hloop as (Hnd & Hsub & m & Ha & Hinv). pose proof (lv_live _ _ Hinv) as Hl. unfold runNode.
  apply wp_bind. apply (wp_setActive I _ _ s m Ha). intros s1 H1.
  destruct (checkCtx_ok NumberToJSON journal I) as [Hp Hn].
  apply wp_bind. eapply wp_opErr; [exact H1|done|done|done|]. intros _ s2 H2.
  apply wp_bind. apply (wp_setActive I _ _ s2 m H2). intros s3 H3.
  apply wp_bind, (wp_get I _ _ s3 m); [done|]. intros s4 H4.
  apply wp_bind, (wp_lift I _ s4 m); [done|done|apply activationSkipReason_noFatal|]. intros [reason|] _.
  - by eapply skipNode_ok.
  - by eapply runActive_ok.
Qed.

Lemma nodes_ok s : loopAt (ix_nodeOrder index) s →
  wp (forEach (runNode NumberToJSON sha256Hex ValidateJSONSchema validateManifestSchema validateJSONAgainstSchema config plan projectKey runID
    journal index) (ix_nodeOrder index)) (λ _, loopAt []) stopped s.
Proof. intros Hs. apply (wp_forEach loopAt); [|done]. intros id rest s1 H1. by apply runNode_ok. Qed.

(** ** The end of a run *)
Record halted m : Prop := {
  hl_steps : ∀ step, step ∈ mf_Steps m → liveStep step;
  hl_failure : mf_Failure m = None;
  hl_hook : mf_ExitHook m = None;
}.
Definition haltedAt (e : error) s : Prop := ∃ m, at_ s m ∧ halted m ∧ explained e m ∧ isPanic e = false.
(** The journal of a run that has ended is readable. *)
Definition endedAt s : Prop := ∃ m, at_ s m ∧ manifestOk m.

Lemma live_halted m : liveManifest m → halted m.
Proof. by intros [_ Hf Hh Hs]. Qed.
Lemma stopped_halted e s : stopped e s → haltedAt e s.
Proof. intros (m & Ha & Hl & Hx & Hp). exists m. split_and!; [done|by apply live_halted|done|done]. Qed.

Lemma settled_all m : loopInv [] m → ∀ step, step ∈ mf_Steps m → st_Status step = StatusSucceeded ∨ st_Status step = StatusSkipped.
Proof.
  intros [_ Hids _ Hset] step Hin.
  assert (NoDup (stepIds m)) as Hnd.
  { rewrite Hids, (ip_steps _ _ (cp_index Hplan)). apply NoDup_filter, (cp_index Hplan). }
  assert (st_NodeID step ∈ stepIds m) as Hid by by apply (list_elem_of_fmap_2 st_NodeID).
  destruct (Hset (st_NodeID step)) as (step' & Hf & Hs); [by rewrite <- Hids|by apply not_elem_of_nil|].
  apply findManifestStep_elem in Hf as [Hin' Hid'].
  apply list_elem_of_lookup in Hin as [i Hi]. apply list_elem_of_lookup in Hin' as [j Hj].
  assert (i = j) as ->; [|congruence]. eapply (NoDup_lookup (stepIds m)); [done| |].
  - apply list_lookup_fmap_Some. eauto.
  - apply list_lookup_fmap_Some. exists step'. eauto.
Qed.

Lemma execute_ok workflowInput s : loopAt (ix_nodeOrder index) s →
  wp (execute NumberToJSON sha256Hex ValidateJSONSchema validateManifestSchema validateJSONAgainstSchema config plan projectKey runID
    journal index workflowInput) (λ _, endedAt) haltedAt s.
Proof.
  intros Hloop. pose proof Hloop as (Hnd & Hsub & m & Ha & Hinv). pose proof (lv_live _ _ Hinv) as Hl. unfold execute.
  assert (∀ A (f : W → result A * W) Q s' m', at_ s' m' → liveManifest m' → good I f → (∀ a s2, at_ s2 m' → Q a s2) →
    wp (opErr f) Q haltedAt s') as Hcall.
  { intros A f Q s' m' Ha' Hl' [Hp Hn] HQ. destruct (Ha') as [Hm' HI]. unfold wp, opErr. specialize (Hn _ HI).
    destruct (f (rn_world s')) as [[a|e] w'] eqn:E; [apply HQ|apply stopped_halted, (stopped_plain I _ _ m'); [|done|by apply Hn]].
    all: split; [done|by eapply Hp]. }
  apply wp_bind. eapply Hcall; [exact Ha|done|by apply (materializePrerequisites_good NumberToJSON HN sha256Hex Hhex projectKey runID I),
    (cp_packages Hplan)|]. intros packages s1 H1.
  apply wp_bind. apply (wp_setPackages I _ _ s1 m); [done|]. intros s2 H2.
  apply wp_bind. apply (wp_setResolution I _ _ s2 m); [done|]. intros s3 H3.
  apply wp_bind. eapply wp_conseq; [apply (nodes_ok s3); split_and!; [done|done|by exists m]| |by apply stopped_halted].
  intros ? s4 (_ & _ & m4 & H4 & Hinv4). pose proof (lv_live _ _ Hinv4) as Hl4.
  apply wp_bind. apply (wp_setActive I _ _ s4 m4); [done|]. intros s5 H5.
  apply wp_bind, (wp_get I _ _ s5 m4); [done|]. intros s6 H6.
  apply wp_bind. eapply Hcall; [exact H6|done|by apply (resultForEnd_good NumberToJSON sha256Hex projectKey runID Hproject Hrun I)|].
  intros result s7 H7.
  pose proof (finishManifest_ok m4 result Hl4 (settled_all m4 Hinv4)) as Hok.
  apply wp_bind. apply (wp_modify I _ _ s7 m4 H7). intros s8 H8.
  apply wp_bind, wp_bind, (wp_get I _ _ s8 _ H8). intros s9 H9. destruct (H9) as [-> _].
  eapply wp_conseq; [eapply (wp_opErr_plain I (λ _ s', at_ s' (finishManifest result m4)) s9 _ H9)| |].
  - by apply (writeRunManifest_preserves NumberToJSON journal I).
  - by apply (writeRunManifest_noFatal NumberToJSON HN journal I).
  - by intros ? s'.
  - intros ? s' H'. apply wp_ret. by exists (finishManifest result m4).
  - intros e s' [H' He]. exists (finishManifest result m4). split_and!; [done| |by intros f; rewrite (proj1 He)|apply He].
    destruct (live_halted _ Hl4) as [X1 X2 X3]. by split.
Qed.

Lemma terminalManifest_ok e t m : halted m → explained e m → closedStatus (tn_status t) → manifestOk (terminalManifest e t m).
Proof.
  intros [Hs Hf Hh] Hx Hc. unfold terminalManifest.
  assert (∀ f step, step ∈ mf_Steps (Terminate (tn_status t) (tn_durable t) (match f with Some x => mf_setFailure (Some (fatalFailure x)) m | None => m end)) →
    stepOk (tn_status t) step) as Hsteps.
  { intros f step. cbn. assert (mf_Steps (match f with Some x => mf_setFailure (Some (fatalFailure x)) m | None => m end) = mf_Steps m) as ->
      by by destruct f. intros (step' & -> & Hin)%list_elem_of_fmap. by apply terminateStep_ok, Hs. }
  destruct (asFatal e) as [f|] eqn:Ef.
  - split; [|apply (Hsteps (Some f))|by cbn; rewrite Hh]. intros x [= <-].
    destruct (Hx f Ef) as (step & Hin & Hexp). exists (terminateStep (tn_status t) (tn_durable t) step).
    split; [by apply (list_elem_of_fmap_2 (terminateStep _ _))|by apply explainsFailure_terminate].
  - split; [by cbn; rewrite Hf|apply (Hsteps None)|by cbn; rewrite Hh].
Qed.

Lemma classify_closed e reason cause active : closedStatus (tn_status (classify e reason cause active)).
Proof. unfold classify. cbn. destruct (asFatal e); [by left|]. destruct (_ && bool_decide _); [by right|by left]. Qed.

Lemma publishDetached_ok (Q : result unit → RunState W → Prop) E s m : at_ s m → manifestOk m → (∀ r s', at_ s' m → Q r s') →
  wp (attempt (publishDetached NumberToJSON journal)) Q E s.
Proof.
  intros Ha Hok HQ. apply wp_attempt, wp_bind, (wp_get I _ _ s m Ha). intros s1 H1. destruct (H1) as [-> _].
  eapply wp_conseq; [eapply (wp_opErr_plain I (λ _ s', at_ s' m) s1 _ H1)| |].
  - by apply (preserves_within NumberToJSON journal I), (writeRunManifest_preserves NumberToJSON journal I).
  - by apply noFatalOp_within, (writeRunManifest_noFatal NumberToJSON HN journal I).
  - by intros ? s'.
  - intros ? s' H'. by apply HQ.
  - intros e s' [H' [_ He]]. rewrite He. by apply HQ.
Qed.

Lemma terminalize_ok e result s : haltedAt e s →
  wp (terminalize NumberToJSON journal e result) (λ r s', closedStatus (rt_Status r.1) ∧ endedAt s') (λ _ _, False) s.
Proof.
  intros (m & Ha & Hh & Hx & _). unfold terminalize.
  apply wp_bind. apply (wp_op I _ s m Ha); [apply jw_ctxErr|]. intros reason s1 w H1 _.
  apply wp_bind, (wp_get I _ _ s1 m); [done|]. intros s2 H2.
  match goal with |- context [terminalManifest e ?t] => pose proof (terminalManifest_ok e t m Hh Hx (classify_closed _ _ _ _)) as Hok end.
  apply wp_bind. apply (wp_modify I _ _ s2 m H2). intros s3 H3.
  apply wp_bind, (wp_get I _ _ s3 _ H3). intros s4 H4.
  apply wp_bind. apply (publishDetached_ok _ _ s4 _ H4 Hok). intros written s5 H5. apply wp_ret.
  split; [apply classify_closed|]. eexists. by split.
Qed.

Lemma deferExitHook_ok startedAt result s : endedAt s →
  wp (deferExitHook NumberToJSON sha256Hex ValidateJSONSchema validateManifestSchema config plan projectKey runID journal index startedAt result)
    (λ r s', rt_Status r = rt_Status result ∧ endedAt s') (λ _ _, False) s.
Proof.
  intros (m & Ha & Hok). unfold deferExitHook. destruct (gi_ExitHook (planGraph plan)) as [hook|] eqn:Eh; [|apply wp_ret; split; [done|by exists m]].
  apply wp_bind. apply (wp_op I _ s m Ha); [apply jw_now|]. intros finishedAt s1 w H1 _.
  apply wp_bind, (wp_get I _ _ s1 m); [done|]. intros s2 H2.
  apply wp_bind. unfold wp at 1, opErr.
  destruct (runExitHook _ _ _ _ _ _ _ _ _ _ _ _ (rn_world s2)) as [r w2] eqn:Er.
  destruct (H2) as [Hm2 I2].
  eapply (runExitHook_ok NumberToJSON HN sha256Hex Hhex ValidateJSONSchema validateManifestSchema projectKey runID Hproject Hrun I) in Er
    as (I3 & step & -> & Hstep); [|by apply (cp_packages Hplan)|by apply (cp_hook Hplan)|exact I2].
  assert (at_ (setWorld w2 s2) m) as H3 by done.
  apply wp_bind. apply (wp_modify I _ _ _ m H3). intros s4 H4.
  assert (manifestOk (mf_setExitHook step m)) as Hok' by (destruct Hok as [X1 X2 X3]; split; [done|done|by intros ? [= <-]]).
  apply wp_bind. apply (publishDetached_ok _ _ s4 _ H4 Hok'). intros written s5 H5. apply wp_ret.
  split; [done|]. eexists. by split.
Qed.

(** The run ends with a readable journal, a result and no panic. *)
Lemma runToEnd_ok startedAt workflowInput result s : loopAt (ix_nodeOrder index) s →
  wp (runToEnd NumberToJSON sha256Hex ValidateJSONSchema validateManifestSchema validateJSONAgainstSchema config plan projectKey runID
    journal index startedAt workflowInput result)
    (λ r s', endedAt s' ∧ match r.2 with None => rt_Status r.1 = StatusSucceeded | Some _ => closedStatus (rt_Status r.1) end)
    (λ _ _, False) s.
Proof.
  intros Hloop. pose proof (execute_ok workflowInput s Hloop) as He. unfold runToEnd, wp at 1. unfold wp in He.
  destruct (execute _ _ _ _ _ _ _ _ _ _ _ _ s) as [[artifact|e] s1].
  - match goal with |- match ?m s1 with _ => _ end => change (wp m (λ r s', endedAt s' ∧ match r.2 with
      None => rt_Status r.1 = StatusSucceeded | Some _ => closedStatus (rt_Status r.1) end) (λ _ _, False) s1) end.
    apply wp_bind. eapply wp_conseq; [by apply deferExitHook_ok| |done]. intros r s2 [Hr H2]. apply wp_ret. by split.
  - pose proof He as (m & _ & _ & _ & Hp). rewrite Hp.
    match goal with |- match ?m s1 with _ => _ end => change (wp m (λ r s', endedAt s' ∧ match r.2 with
      None => rt_Status r.1 = StatusSucceeded | Some _ => closedStatus (rt_Status r.1) end) (λ _ _, False) s1) end.
    apply wp_bind. eapply wp_conseq; [by apply terminalize_ok| |done]. intros [r failure] s2 [Hr H2].
    apply wp_bind. eapply wp_conseq; [by apply deferExitHook_ok| |done]. intros r' s3 [Hr' H3]. apply wp_ret.
    split; [done|]. cbn in *. by rewrite Hr'.
Qed.
End Run.
