(* ===== verification/RunCorrect.v ===== *)
(** * The journal of a run, whatever happens to the run

    [Run] over any world whose operations behave as documented: a run that has claimed its
    id ends with a result, never with a panic, and the object under its journal's key is at
    every end one that the journal's reader accepts.  A run id that is already taken is
    refused, its journal untouched. *)

From S2P Require Import Prelude Utf16 Text SpecTypes PlanTypes Json Canonical CanonicalText CanonicalForm SourceIdentity Datastore Encode Compile CompileSample Artifact Journal JournalOps JournalSafety MapExec Retry Index Resolution World StepRun MapRun Run IndexSafety NoFatal RunKeys RunLogic RunSafety.
From Stdlib Require Import SpecFloat.
#[local] Open Scope Z_scope.

(** ** What the world promises *)

(** An operation that neither writes the journal nor fails fatally. *)
Definition leaves {W A} `{DatastoreLaws W} (key : Key) (f : W → A * W) : Prop :=
  ∀ w a w', f w = (a, w') → view w' !! key = view w !! key.

(** [journal] belongs to the orchestrator: tasks, hooks and the file system do not write
    it; errors of operations carry no fatal cause, except that of an invoker, which names a
    step that failed. *)
Class WorldLaws (W : Type) `{World W} `{!DatastoreLaws W} (journal : Key) : Prop := {
  wl_ctxErr : leaves journal ctxErr;
  wl_enter : ∀ k w, view (enter k w) !! journal = view w !! journal;
  wl_leave : ∀ k w, view (leave k w) !! journal = view w !! journal;
  wl_timer : ∀ d, leaves journal (timerOrDone d);
  wl_now : leaves journal now;
  wl_uuid : leaves journal newUUID;
  wl_absPath : ∀ p, leaves journal (absPath p) ∧ noFatalOp (absPath p);
  wl_openStore : ∀ p, leaves journal (openStore p);
  wl_snapshot : ∀ a b c l, leaves journal (ensureSourceSnapshot a b c l) ∧ noFatalOp (ensureSourceSnapshot a b c l);
  wl_archive : ∀ a l, leaves journal (deterministicSourceArchive a l) ∧ noFatalOp (deterministicSourceArchive a l);
  wl_invoke : ∀ batch, leaves journal (InvokeSteps batch);
  wl_fatal : ∀ batch w outcomes err w', InvokeSteps batch w = ((outcomes, err), w') → fatalOutcomes batch outcomes err;
  wl_after : ∀ after d w r w', AfterStepInvocation = Some after → after d w = (r, w') →
    view w' !! journal = view w !! journal ∧ ∀ e, r = Some e → plain e;
  wl_store :: StoreNoFatal W;
}.

Section Correct.
Context (NumberToJSON : spec_float → result string) (HN : ∀ d, noFatal (NumberToJSON d)) (sha256Hex : string → string).
Context (Hhex : ∀ s, IsSHA256Ref (DigestBytes sha256Hex s) = true).
Context (ValidateJSONSchema : string → string → result unit) (validateManifestSchema : string → result unit).
Context (validateJSONAgainstSchema : string → string → result unit).
(** The plan validator checks the exit hook against its schema, which admits safe ids only. *)
Context (validateExecution : WorkflowPlan → result unit).
Context (Hvalid : ∀ plan graph hook, validateExecution plan = Ok tt → wp_Graph plan = Some graph →
  gi_ExitHook graph = Some hook → isSafePathSegment (GetString (pn_Id hook)) = true).
Context {W : Type} `{World W} `{!DatastoreLaws W}.
#[local] Abbreviation prepare := (Run.prepare NumberToJSON sha256Hex validateExecution).
#[local] Abbreviation Run := (Run.Run NumberToJSON sha256Hex ValidateJSONSchema validateManifestSchema validateJSONAgainstSchema
  validateExecution).

(** The store holds a readable journal under its key. *)
Definition journalIn (key : Key) (w : W) : Prop :=
  ∃ contentType body, view w !! key = Some (contentType, body) ∧ readable NumberToJSON body.

Lemma leaves_preserves {A} key (f : W → A * W) : leaves key f → preserves (journalIn key) f.
Proof. intros Hf w a w' (ct & body & Hv & Hr) E. exists ct, body. split; [|done]. rewrite <- Hv. by eapply Hf. Qed.

#[local] Instance journalWorld key `{HL : !WorldLaws W key} : JournalWorld NumberToJSON key (journalIn key).
Proof.
  assert (∀ w w', view w' !! key = view w !! key → journalIn key w → journalIn key w') as Hsame.
  { intros w w' E (ct & body & Hv & Hr). exists ct, body. by rewrite E. }
  split.
  - apply leaves_preserves, HL.
  - intros k w. apply Hsame, HL.
  - intros k w. apply Hsame, HL.
  - intros d. apply leaves_preserves, HL.
  - apply leaves_preserves, HL.
  - intros p. split; [apply leaves_preserves|]; apply HL.
  - intros a b c l. split; [apply leaves_preserves|]; apply HL.
  - intros a l. split; [apply leaves_preserves|]; apply HL.
  - intros batch. apply leaves_preserves, HL.
  - intros batch. apply HL.
  - intros after d w r w' Ha HI E. destruct (wl_after _ _ _ _ _ Ha E) as [Hw Hp]. split; [by eapply Hsame|done].
  - intros k body options Hk w r w' HI E. eapply Hsame; [|exact HI]. by eapply put_frame.
  - intros body options Hr w r w' HI E. destruct (put_atomic _ _ _ _ _ _ E) as [Hw|[ct Hw]]; [by eapply Hsame|].
    by exists ct, body.
  - apply HL.
Qed.

(** ** What the checks before a run establish *)
Lemma checkSegment_Ok field value : checkSegment field value = Ok tt ↔ isSafePathSegment value = true.
Proof. unfold checkSegment. rewrite ValidSafePathSegment_safe. by destruct (isSafePathSegment value). Qed.

Lemma identities_Ok plan runID : checkIdentities plan runID = Ok tt →
  isSafePathSegment runID = true ∧
  (∀ node, node ∈ gi_Nodes (planGraph plan) → isSafePathSegment (GetString (pn_Id node)) = true) ∧
  (∀ p, p ∈ wp_SourcePackages plan → IsSHA256Ref (GetString (kr_PackageHash p)) = true).
Proof.
  unfold checkIdentities. intros ([] & Hrun & H1)%bind_Ok. apply bind_Ok in H1 as ([] & Hplan & Hpk). split_and!.
  - unfold checkRunID in Hrun. rewrite ValidSafePathSegment_safe in Hrun. by destruct (isSafePathSegment runID).
  - unfold validatePlanIdentitySegments in Hplan. unfold planGraph. destruct (wp_Graph plan) as [graph|]; [|done].
    apply bind_Ok in Hplan as (? & _ & Hplan). apply bind_Ok in Hplan as (? & _ & Hplan).
    apply bind_Ok in Hplan as (l & Hl%mapErr_Ok & _). intros node Hin.
    destruct (Forall2_elem_l _ _ _ _ Hl Hin) as (? & _ & Hn). unfold checkNodeSegments in Hn.
    apply bind_Ok in Hn as ([] & Hc & _). by apply checkSegment_Ok in Hc.
  - rewrite foldErr_unit in Hpk. intros p Hin. specialize (Hpk p Hin). unfold checkPackageHash in Hpk.
    by destruct (IsSHA256Ref (GetString (kr_PackageHash p))).
Qed.

Record preparedRun (p : Prepared) : Prop := {
  pn_project : isSafeProjectKey (pp_projectKey p) = true;
  pn_run : isSafePathSegment (pp_runID p) = true;
  pn_key : pp_manifestKey p = journalKey (pp_projectKey p) (pp_runID p);
  pn_plan : checkedPlan (pp_plan p) (pp_index p);
  pn_manifest : pp_manifest p = initialManifest (pp_plan p) (pp_projectKey p) (pp_runID p) (pp_index p) (rc_Environment (pp_config p));
}.

Lemma prepareRun_Ok config plan runID inputJSON p : checkIdentities plan runID = Ok tt →
  prepareRun NumberToJSON sha256Hex validateExecution config plan runID inputJSON = Ok p → preparedRun p ∧
  pp_runID p = runID ∧ pp_projectKey p = NormalizeProjectKey sha256Hex (rc_ProjectID config).
Proof.
  intros (Hrun & Hnodes & Hpk)%identities_Ok. unfold prepareRun.
  intros (index & Hi & Hp)%bind_Ok. apply bind_Ok in Hp as (workflowInput & _ & Hp).
  pose proof (NormalizeProjectKey_safe sha256Hex (rc_ProjectID config) Hhex) as Hproject.
  rewrite (runManifestKey_eq _ runID Hproject Hrun) in Hp. injection Hp as <-. split; [|done].
  pose proof Hi as Hv. unfold buildExecutionIndex in Hv. apply bind_Ok in Hv as ([] & Hv & _).
  apply buildExecutionIndex_Ok in Hi as (graph & order & Hg & _ & Hindex & _). split; cbn; try done.
  split; [unfold planGraph; by rewrite Hg|done| |done].
  unfold planGraph. rewrite Hg. cbn. intros hook Hh. by eapply Hvalid.
Qed.

Lemma initialManifest_find plan projectKey runID index environment id : id ∈ ix_stepOrder index →
  ∃ step, findManifestStep (initialManifest plan projectKey runID index environment) id = Some step ∧
    let node := default zeroNode ((authoredNode <$> ix_nodesByID index) !! id) in
    st_Status step = StatusPending ∧ st_Items step = (if isKind NodeKindMap node then Some [] else None) ∧
    st_ItemFailures step = (if isKind NodeKindMap node then gn_ItemFailures node else "").
Proof.
  unfold initialManifest, findManifestStep. cbn [setEnvironment mf_Steps newRunManifest].
  induction (ix_stepOrder index) as [|x l IH]; [by intros ?%not_elem_of_nil|]. cbn [map]. rewrite find_cons. cbn [st_NodeID].
  destruct (eqs x id) eqn:E; [apply eqs_spec in E; subst x; intros _; by eexists|].
  apply eqs_false in E. intros [->|Hin]%elem_of_cons; [done|by apply IH].
Qed.

Lemma start_loop p w : preparedRun p → journalIn (pp_manifestKey p) w →
  loopAt (journalIn (pp_manifestKey p)) (pp_index p) (ix_nodeOrder (pp_index p)) (startState sha256Hex p w).
Proof.
  intros [Hproject Hrun Hkey Hplan Hm] HI. split_and!; [apply (cp_index _ _ Hplan)|done|].
  exists (pp_manifest p). split; [done|]. rewrite Hm.
  set (index := pp_index p) in *. pose proof (cp_index _ _ Hplan) as Hi. split.
  - destruct (newRunManifest_live (GetString (wp_PlanHash (pp_plan p))) (pp_projectKey p) (pp_runID p) (ix_stepOrder index)
      (authoredNode <$> ix_nodesByID index)) as [X1 X2 X3 X4]. by split.
  - unfold stepIds, initialManifest. cbn. rewrite map_map. cbn. apply map_id.
  - intros id Hin _. destruct (initialManifest_find (pp_plan p) (pp_projectKey p) (pp_runID p) index (rc_Environment (pp_config p)) id Hin)
      as (step & Hf & Hs & Hit & Hif). exists step. split; [done|].
    assert (id ∈ ix_nodeOrder index) as Hno by (rewrite (ip_steps _ _ Hi) in Hin; by apply list_elem_of_filter in Hin as [_ ?]).
    destruct (ip_node _ _ Hi id Hno) as (node & E & _). rewrite lookup_fmap, E in Hit, Hif. rewrite E. cbn in Hit, Hif |- *.
    split_and!; [done| |].
    + rewrite Hit. unfold isKind, planKind, eqs. by destruct node.
    + intros Hk Hc. assert (isKind NodeKindMap (authoredNode node) = true) as Hk' by (unfold isKind; by apply bool_decide_eq_true).
      rewrite Hif, Hk'. apply eqs_spec in Hc. cbn. by rewrite Hc.
  - intros id Hin Hni. destruct Hni. rewrite (ip_steps _ _ Hi) in Hin. by apply list_elem_of_filter in Hin as [_ ?].
Qed.

Lemma prepare_Ok config inputJSON w p w1 : prepare config inputJSON w = (Ok p, w1) →
  preparedRun p ∧ journalIn (pp_manifestKey p) w1.
Proof.
  unfold Run.prepare. intros H'. destruct (checkConfig config) as [plan|]; [|done].
  destruct (absPath _ w) as [[root|] wa]; [|done].
  destruct (if eqs _ _ then _ else _) as [runID wb]. destruct (checkIdentities plan runID) as [[]|] eqn:Ei; [|done].
  destruct (openStore root wb) as [[[]|] wc]; [|done].
  destruct (prepareRun _ _ _ _ _ _ _) as [p'|] eqn:Ep; [|done]. apply prepareRun_Ok in Ep as (Hp & _ & _); [|done].
  destruct (claimRun NumberToJSON p' wc) as [claimed wd] eqn:Ec.
  injection H' as Hc <-. apply bind_Ok in Hc as ([] & -> & [= <-]). split; [done|].
  unfold claimRun in Ec. destruct (Encode.Marshal _ _) as [body|] eqn:Eb; [|done].
  destruct (Put _ _ _ wc) as [[info|e] we] eqn:Eput; [|done]. injection Ec as ->.
  destruct (put_ok _ _ _ _ _ _ Eput) as (_ & _ & Hv). eexists _, body. rewrite Hv, lookup_insert_eq. split; [done|].
  exists (pp_manifest p'). split; [done|]. apply checkManifest_Ok, liveManifest_ok. rewrite (pn_manifest _ Hp).
  destruct (newRunManifest_live (GetString (wp_PlanHash (pp_plan p'))) (pp_projectKey p') (pp_runID p') (ix_stepOrder (pp_index p'))
    (authoredNode <$> ix_nodesByID (pp_index p'))) as [X1 X2 X3 X4]. by split.
Qed.

Lemma runPrepared_ok p startedAt w `{HL : !WorldLaws W (pp_manifestKey p)} : preparedRun p → journalIn (pp_manifestKey p) w →
  ∃ result failure w', runPrepared NumberToJSON sha256Hex ValidateJSONSchema validateManifestSchema validateJSONAgainstSchema p startedAt w =
    (Ok (result, failure), w') ∧ journalIn (pp_manifestKey p) w' ∧
    match failure with None => rt_Status result = StatusSucceeded | Some _ => closedStatus (rt_Status result) end.
Proof.
  intros Hp HI. pose proof Hp as [Hproject Hrun Hkey Hplan _].
  pose proof (journalWorld (pp_manifestKey p)) as JW.
  assert (∀ w, journalIn (pp_manifestKey p) w → ∃ result failure s',
    runToEnd NumberToJSON sha256Hex ValidateJSONSchema validateManifestSchema validateJSONAgainstSchema (pp_config p) (pp_plan p)
      (pp_projectKey p) (pp_runID p) (pp_manifestKey p) (pp_index p) startedAt (pp_input p) (initialResult p) (startState sha256Hex p w) =
      (Ok (result, failure), s') ∧ journalIn (pp_manifestKey p) (rn_world s') ∧
    match failure with None => rt_Status result = StatusSucceeded | Some _ => closedStatus (rt_Status result) end) as Hend.
  { intros w0 HI0. pose proof (start_loop p w0 Hp HI0) as Hloop. rewrite Hkey in JW, Hloop |- *.
    pose proof (runToEnd_ok NumberToJSON HN sha256Hex Hhex ValidateJSONSchema validateManifestSchema validateJSONAgainstSchema
      (pp_projectKey p) (pp_runID p) Hproject Hrun _ (pp_config p) (pp_plan p) (pp_index p) Hplan startedAt (pp_input p)
      (initialResult p) (startState sha256Hex p w0) Hloop) as Hwp.
    unfold wp in Hwp. destruct (runToEnd _ _ _ _ _ _ _ _ _ _ _ _ _ _ _) as [[[result failure]|e] s']; [|done].
    destruct Hwp as [(m & [_ HI'] & _) Hst]. by exists result, failure, s'. }
  unfold runPrepared. destruct (0 <? _).
  - unfold within. match goal with |- context [enter ?k w] => set (life := k) end.
    destruct (Hend (enter life w)) as (result & failure & s' & E & HI' & Hst); [by apply jw_enter|].
    rewrite E. exists result, failure, (leave life (rn_world s')). split_and!; [done|by apply jw_leave|done].
  - destruct (Hend w HI) as (result & failure & s' & E & HI' & Hst). rewrite E. by exists result, failure, (rn_world s').
Qed.


End Correct.
