(* ===== verification/RunSample.v ===== *)
(** * A run of the sample workflow

    The memory store as a world whose invoker reports that every step stopped the run: the
    laws a run relies on can hold, and the run of the compiled sample plan shows what its
    journal is then. *)

From S2P Require Import Prelude Utf16 Text SpecTypes PlanTypes Json Canonical CanonicalText CanonicalForm SourceIdentity Datastore Semantics Encode Compile CompileSample Artifact Journal JournalOps JournalSafety MapExec Retry Index Resolution World StepRun MapRun Run IndexSafety NoFatal RunKeys RunLogic RunSafety RunCorrect.
From Stdlib Require Import SpecFloat.
#[local] Open Scope Z_scope.

#[local] Abbreviation store := MemoryStore.store.
#[local] Existing Instances MemoryStore.datastore MemoryStore.laws.

(** ** A world over the memory store *)
Definition stopping (inv : StepInvocation) : StepInvocationOutcome :=
  let d := in_Descriptor inv in
  {| so_NodeID := sd_NodeID d; so_Attempt := sd_Attempt d; so_Scope := sd_Scope d; so_Status := StatusFailed;
     so_ExitCode := FatalRunExitCode; so_Diagnostic := ""; so_TimedOutAfter := 0; so_RunnerMessage := "";
     so_Fatal := Some {| ff_Message := "stop"; ff_Type := "Stop"; ff_NodeID := sd_NodeID d |} |}.
#[local] Instance sampleWorld : World store := {|
  ctxErr w := (None, w); ctxCause _ := None; enter _ w := w; leave _ w := w; timerOrDone _ w := (false, w);
  now w := ("2026-01-01T00:00:00Z", w); newUUID w := ("generated", w); absPath p w := (Ok p, w);
  openStore _ w := (Ok tt, w); ensureSourceSnapshot _ _ _ _ w := (Ok tt, w);
  deterministicSourceArchive _ _ w := (Ok "archive", w);
  InvokeSteps batch w := ((map stopping (sb_Steps batch),
    match sb_Steps batch with inv :: _ => Some (FatalRunError "stop" "Stop" (sd_NodeID (in_Descriptor inv))) | [] => None end), w);
  AfterStepInvocation := None |}.

#[local] Instance sampleStore : StoreNoFatal store.
Proof.
  split.
  - intros key w. cbn. unfold MemoryStore.get. nofatal.
  - intros key body options w. cbn. unfold MemoryStore.put. destruct (_ && _); cbn [fst]; nofatal.
Qed.

#[local] Instance sampleLaws key : WorldLaws store key.
Proof.
  split; try (by intros; first [intros ? ? ? [= <- <-]|split; [intros ? ? ? [= <- <-]|intros ?; apply noFatal_Ok]]); try done.
  - intros batch w outcomes err w'. cbn. intros [= <- <- <-]. split.
    + intros o f (inv & -> & Hin)%list_elem_of_fmap [= <-]. split; [done|]. by exists inv.
    + intros e f He _. destruct (sb_Steps batch) as [|inv l]; [done|]. exists (stopping inv). eexists. split; [by left|done].
    + intros e He. destruct (sb_Steps batch); [done|]. by injection He as <-.
  - apply sampleStore.
Qed.

(** ** The run *)
Definition tinyNumbers (d : spec_float) : result string :=
  match find (λ t, bool_decide (ParseFloat t = Some d)) ["0"; "1"; "2"; "3"; "4"; "5"; "6"; "7"; "8"; "9"] with
  | Some t => Ok t
  | None => Err (ErrNew "unsupported number")
  end.
Lemma tinyNumbers_noFatal d : noFatal (tinyNumbers d).
Proof. unfold tinyNumbers. nofatal. Qed.

(** The part of the plan validator a run relies on. *)
Definition hookValid (plan : WorkflowPlan) : result unit :=
  match wp_Graph plan ≫= gi_ExitHook with
  | Some hook => if isSafePathSegment (GetString (pn_Id hook)) then Ok tt else Err (ErrNew "invalid exit hook")
  | None => Ok tt
  end.
Lemma hookValid_spec plan graph hook : hookValid plan = Ok tt → wp_Graph plan = Some graph →
  gi_ExitHook graph = Some hook → isSafePathSegment (GetString (pn_Id hook)) = true.
Proof. unfold hookValid. intros H Hg Hh. rewrite Hg in H. cbn in H. rewrite Hh in H. by destruct (isSafePathSegment _). Qed.

Definition sampleManifest : SourcePackageManifest :=
  {| sm_Root := "/src"; sm_Files := map (λ f, {| fi_Path := sf_Path f; fi_Hash := sf_Hash f |}) sampleFiles |}.
Definition sampleConfig : RunConfig :=
  {| rc_Plan := Some pipelinePlan; rc_DatastoreRoot := "/store"; rc_ProjectID := "demo"; rc_RunID := "first";
     rc_SourcePackageRoot := "/src"; rc_SourceManifests := {["pkg" := sampleManifest]}; rc_Environment := None |}.
Definition acceptSchema (_ _ : string) : result unit := Ok tt.
Definition sampleRun (w : store) : result (RunResult * option RunError) * store :=
  Run tinyNumbers checksumHash acceptSchema pass acceptSchema hookValid sampleConfig "1" w.
Definition samplePrepare : result Prepared * store := prepare tinyNumbers checksumHash hookValid sampleConfig "1" ∅.

(** Status, steps, exit hook and the node that stopped the run. *)
Definition runSummary (r : result (RunResult * option RunError))
    : option (string * list (string * string) * option string * option string) :=
  match r with
  | Ok (result, failure) =>
      Some (rt_Status result, map (λ s, (su_NodeID s, su_Status s)) (rt_Steps result),
        option_map su_Status (rt_ExitHook result), option_map rx_StepID failure)
  | Err _ => None
  end.

(** The step stopped the run; the exit hook ran and failed too. *)
Example sampleRun_outcome :
  runSummary (sampleRun ∅).1 = Some ("failed", [("work", "failed")], Some "failed", Some "work").
Proof. vm_compute. reflexivity. Qed.

Lemma samplePrepare_ok : isOk samplePrepare.1 = true.
Proof. vm_compute. reflexivity. Qed.


(** The same run id again, over the store the first run left. *)
Definition sampleKey : Key := journalKey (NormalizeProjectKey checksumHash "demo") "first".
