(* ===== verification/RunEvents.v ===== *)
(** * Run events

    [orchestrator/events.go] and the event of [runevent/event.go]: the notifications that an
    observer of a run gets.  Each operation that holds the mutex is one step; the observer's
    hook is the log of the events it was given, in order.  [clock n] is what the [n]-th
    reading of the clock gives, in nanoseconds. *)

From S2P Require Import Prelude Utf16 Text Canonical Artifact Journal Retry Index.
From Stdlib Require Import SpecFloat.
#[local] Open Scope Z_scope.

(** ** Data *)
Record eventIdentity := { ei_node : string; ei_item : Z; ei_attempt : Z }.
#[global] Instance eventIdentity_eq_dec : EqDecision eventIdentity.
Proof. solve_decision. Defined.
#[global] Program Instance eventIdentity_countable : Countable eventIdentity :=
  inj_countable' (λ i, (ei_node i, ei_item i, ei_attempt i)) (λ x, {| ei_node := x.1.1; ei_item := x.1.2; ei_attempt := x.2 |}) _.
Next Obligation. by intros []. Qed.

(** [ev_Time] is the instant whose RFC 3339 text the event carries. *)
Record Event := {
  ev_SchemaVersion : Z;
  ev_Type : string;
  ev_Sequence : Z;
  ev_ProjectKey : string;
  ev_RunID : string;
  ev_Time : Z;
  ev_ElapsedMS : spec_float;
  ev_PlanHash : string;
  ev_MapTotals : gmap string Z;
  ev_NodeID : string;
  ev_ItemIndex : option Z;
  ev_Attempt : Z;
  ev_DurationMS : option spec_float;
  ev_Status : string;
  ev_Classification : string;
  ev_Diagnostic : string;
}.
Definition Version : Z := 1.

(** [float64(d) / float64(time.Millisecond)] *)
Definition milliseconds (d : Z) : spec_float :=
  SFdiv 53 1024 (binary_normalize 53 1024 d 0 false) (binary_normalize 53 1024 1000000 0 false).

(** [time.Time{}] of a closed attempt is [None]. *)
Record runEvents := {
  rv_projectKey : string;
  rv_runID : string;
  rv_started : Z;
  rv_sequence : Z;
  rv_attemptStarts : gmap eventIdentity (option Z);
  rv_stepStarts : gmap string Z;
  rv_log : list Event;
  rv_ticks : nat;
}.
Definition rv_setAttempts (f : gmap eventIdentity (option Z) → gmap eventIdentity (option Z)) (s : runEvents) : runEvents :=
  {| rv_projectKey := rv_projectKey s; rv_runID := rv_runID s; rv_started := rv_started s; rv_sequence := rv_sequence s;
     rv_attemptStarts := f (rv_attemptStarts s); rv_stepStarts := rv_stepStarts s; rv_log := rv_log s; rv_ticks := rv_ticks s |}.
Definition rv_setSteps (f : gmap string Z → gmap string Z) (s : runEvents) : runEvents :=
  {| rv_projectKey := rv_projectKey s; rv_runID := rv_runID s; rv_started := rv_started s; rv_sequence := rv_sequence s;
     rv_attemptStarts := rv_attemptStarts s; rv_stepStarts := f (rv_stepStarts s); rv_log := rv_log s; rv_ticks := rv_ticks s |}.

(** An event before [emit] fills in the rest. *)
Definition attemptEvent (Type_ : string) (identity : eventIdentity) (item : option Z) (DurationMS : option spec_float)
    (Status Classification Diagnostic : string) : Event :=
  {| ev_SchemaVersion := 0; ev_Type := Type_; ev_Sequence := 0; ev_ProjectKey := ""; ev_RunID := ""; ev_Time := 0;
     ev_ElapsedMS := S754_zero false; ev_PlanHash := ""; ev_MapTotals := ∅; ev_NodeID := ei_node identity; ev_ItemIndex := item;
     ev_Attempt := ei_attempt identity; ev_DurationMS := DurationMS; ev_Status := Status; ev_Classification := Classification;
     ev_Diagnostic := Diagnostic |}.

Definition classifyEventOutcome (outcome : StepInvocationOutcome) : string :=
  let code := so_ExitCode outcome in
  if eqs (so_Status outcome) StatusSucceeded then ""
  else if eqs (so_Status outcome) StatusCancelled then "cancelled"
  else if eqs (so_Status outcome) stepInvocationStatusInfraFailed then "infrastructure"
  else if 0 <? so_TimedOutAfter outcome then "timeout"
  else if (code =? runnerExitDescriptorResolution) || (code =? runnerExitSchemaValidation) then "contract"
  else if code =? FatalRunExitCode then "fatal"
  else if code =? runnerExitNonRetryable then "non-retryable"
  else if code <? 0 then "terminated"
  else "error".

(** A text of more than 2048 runes keeps 2047 and an ellipsis. *)
Definition boundedEventText (value : string) : string :=
  let text := runes (ToValidUTF8 value) in
  ofRunes (if (2048 <? length text)%nat then take 2047 text ++ [8230] else text).

(** [None]: the index [Frames[0]] is out of range, which panics. *)
Definition invocationEventIdentity (descriptor : StepInvocationDescriptor) : option (eventIdentity * option Z) :=
  let identity item := {| ei_node := sd_NodeID descriptor; ei_item := item; ei_attempt := sd_Attempt descriptor |} in
  match sd_Scope descriptor with
  | None => Some (identity (-1), None)
  | Some scope =>
      match es_Frames scope with
      | [] => None
      | frame :: _ => Some (identity (fr_Index frame), Some (fr_Index frame))
      end
  end.

(** ** Operations *)
Section Events.
Context (clock : nat → Z).

Definition now (s : runEvents) : Z * runEvents :=
  (clock (rv_ticks s),
   {| rv_projectKey := rv_projectKey s; rv_runID := rv_runID s; rv_started := rv_started s; rv_sequence := rv_sequence s;
      rv_attemptStarts := rv_attemptStarts s; rv_stepStarts := rv_stepStarts s; rv_log := rv_log s; rv_ticks := S (rv_ticks s) |}).

Definition emit (e : Event) (s : runEvents) : runEvents :=
  let sequence := rv_sequence s + 1 in
  let '(wall, s1) := now s in
  let '(read, s2) := now s1 in
  {| rv_projectKey := rv_projectKey s2; rv_runID := rv_runID s2; rv_started := rv_started s2; rv_sequence := sequence;
     rv_attemptStarts := rv_attemptStarts s2; rv_stepStarts := rv_stepStarts s2;
     rv_log := rv_log s2 ++
       [{| ev_SchemaVersion := Version; ev_Type := ev_Type e; ev_Sequence := sequence; ev_ProjectKey := rv_projectKey s2;
           ev_RunID := rv_runID s2; ev_Time := wall; ev_ElapsedMS := milliseconds (read - rv_started s2); ev_PlanHash := ev_PlanHash e;
           ev_MapTotals := ev_MapTotals e; ev_NodeID := ev_NodeID e; ev_ItemIndex := ev_ItemIndex e; ev_Attempt := ev_Attempt e;
           ev_DurationMS := ev_DurationMS e; ev_Status := ev_Status e; ev_Classification := ev_Classification e;
           ev_Diagnostic := ev_Diagnostic e |}];
     rv_ticks := rv_ticks s2 |}.

(** [hooked]: the run's configuration has an observer.  Without one the value is nil, and
    every operation below returns at once. *)
Definition newRunEvents (hooked : bool) (planHash projectKey runID : string) (started : Z) (totals : gmap string Z) : option runEvents :=
  if hooked then
    Some (emit {| ev_SchemaVersion := 0; ev_Type := "run.started"; ev_Sequence := 0; ev_ProjectKey := ""; ev_RunID := ""; ev_Time := 0;
                  ev_ElapsedMS := S754_zero false; ev_PlanHash := planHash; ev_MapTotals := totals; ev_NodeID := ""; ev_ItemIndex := None;
                  ev_Attempt := 0; ev_DurationMS := None; ev_Status := ""; ev_Classification := ""; ev_Diagnostic := "" |}
      {| rv_projectKey := projectKey; rv_runID := runID; rv_started := started; rv_sequence := 0; rv_attemptStarts := ∅;
         rv_stepStarts := ∅; rv_log := []; rv_ticks := 0 |})
  else None.

Definition startAttempt (identity : eventIdentity) (item : option Z) (s : runEvents) : runEvents :=
  match rv_attemptStarts s !! identity with
  | Some _ => s
  | None =>
      let '(started, s1) := now s in
      let s2 := rv_setAttempts (insert identity (Some started)) s1 in
      let s3 := match rv_stepStarts s2 !! ei_node identity with
                | Some _ => s2
                | None => rv_setSteps (insert (ei_node identity) started) s2
                end in
      emit (attemptEvent "step.attempt.started" identity item None "" "" "") s3
  end.

(** A negative [measured] asks for the clock. *)
Definition finishOpenAttempt (identity : eventIdentity) (item : option Z) (status diagnostic classification : string) (measured : Z)
    (s : runEvents) : runEvents :=
  match rv_attemptStarts s !! identity with
  | Some (Some started) =>
      let '(duration, s1) := if measured <? 0 then let '(read, s') := now s in (read - started, s') else (measured, s) in
      let s2 := rv_setAttempts (insert identity None) s1 in
      let classification :=
        if eqs status StatusSucceeded then ""
        else if eqs classification "" then (if eqs status StatusCancelled then "cancelled" else "error")
        else classification in
      emit (attemptEvent "step.attempt.finished" identity item (Some (milliseconds duration)) status classification
              (boundedEventText diagnostic)) s2
  | _ => s
  end.

Definition attemptStarted (descriptor : StepInvocationDescriptor) (s : runEvents) : option runEvents :=
  match invocationEventIdentity descriptor with
  | None => None
  | Some (identity, item) => Some (startAttempt identity item s)
  end.

Definition finishAttempt (descriptor : StepInvocationDescriptor) (status diagnostic classification : string) (measured : Z)
    (s : runEvents) : option runEvents :=
  match invocationEventIdentity descriptor with
  | None => None
  | Some (identity, item) =>
      Some (finishOpenAttempt identity item status diagnostic classification measured (startAttempt identity item s))
  end.

(** [duration] is the [Duration] of the outcome. *)
Definition attemptObserved (descriptor : StepInvocationDescriptor) (outcome : StepInvocationOutcome) (duration : Z)
    (s : runEvents) : option runEvents :=
  let diagnostic := if eqs (so_Status outcome) StatusSucceeded then "" else durableRunnerDiagnostic outcome in
  let diagnostic := if eqs (so_Status outcome) StatusCancelled then "invocation cancelled" else diagnostic in
  let '(status, diagnostic) :=
    if eqs (so_Status outcome) stepInvocationStatusInfraFailed then (StatusFailed, "invocation infrastructure failed")
    else (so_Status outcome, diagnostic) in
  finishAttempt descriptor status diagnostic (classifyEventOutcome outcome) duration s.

Definition attemptFinished (descriptor : StepInvocationDescriptor) (attempt : Attempt) (classification : string) (s : runEvents) : option runEvents :=
  finishAttempt descriptor (att_Status attempt) (att_Diagnostic attempt) classification (-1) s.

(** One turn of the loop of [closeOpenAttempts] *)
Definition closeAttempt (status node : string) (s : runEvents) (entry : eventIdentity * option Z) : runEvents :=
  let '(identity, started) := entry in
  match started with
  | None => s
  | Some _ =>
      if negb (eqs node "") && negb (eqs (ei_node identity) node) then s
      else finishOpenAttempt identity (if 0 <=? ei_item identity then Some (ei_item identity) else None) status
             "attempt outcome unavailable" "" (-1) s
  end.
(** [entries]: the attempts in the order in which the range over the map gives them. *)
Definition closeOpenAttempts (entries : list (eventIdentity * option Z)) (status node : string) (s : runEvents) : runEvents :=
  let status := if eqs status StatusCancelled then status else StatusFailed in
  foldl (closeAttempt status node) s entries.

(** [stepFinished] closes the step's attempts, gives up the mutex, and takes it again for the
    rest. *)
Definition stepEnd (step : Step) (s : runEvents) : runEvents :=
  let '(duration, s1) :=
    match rv_stepStarts s !! st_NodeID step with
    | Some started => let '(read, s') := now s in (milliseconds (read - started), s')
    | None => (S754_zero false, s)
    end in
  emit {| ev_SchemaVersion := 0; ev_Type := "step.finished"; ev_Sequence := 0; ev_ProjectKey := ""; ev_RunID := ""; ev_Time := 0;
          ev_ElapsedMS := S754_zero false; ev_PlanHash := ""; ev_MapTotals := ∅; ev_NodeID := st_NodeID step; ev_ItemIndex := None;
          ev_Attempt := 0; ev_DurationMS := Some duration; ev_Status := st_Status step; ev_Classification := ""; ev_Diagnostic := "" |}
    (rv_setSteps (delete (st_NodeID step)) s1).

Definition stepFinished (entries : list (eventIdentity * option Z)) (step : Step) (s : runEvents) : runEvents :=
  stepEnd step (closeOpenAttempts entries (st_Status step) (st_NodeID step) s).

(** So does [runFinished]. *)
Definition runEnd (status : string) (s : runEvents) : runEvents :=
  emit {| ev_SchemaVersion := 0; ev_Type := "run.finished"; ev_Sequence := 0; ev_ProjectKey := ""; ev_RunID := ""; ev_Time := 0;
          ev_ElapsedMS := S754_zero false; ev_PlanHash := ""; ev_MapTotals := ∅; ev_NodeID := ""; ev_ItemIndex := None;
          ev_Attempt := 0; ev_DurationMS := None; ev_Status := status; ev_Classification := ""; ev_Diagnostic := "" |} s.

Definition runFinished (entries : list (eventIdentity * option Z)) (status : string) (s : runEvents) : runEvents :=
  runEnd status (closeOpenAttempts entries status "" s).

(** ** The observer's state machine: the workers and the run interleave their operations. *)
Definition itemsCounted (descriptor : StepInvocationDescriptor) : Prop :=
  ∀ scope frame, sd_Scope descriptor = Some scope → head (es_Frames scope) = Some frame → 0 <= fr_Index frame.
Inductive eventStep : runEvents → runEvents → Prop :=
  | step_attemptStarted d s s' : itemsCounted d → attemptStarted d s = Some s' → eventStep s s'
  | step_attemptObserved d outcome duration s s' : itemsCounted d → attemptObserved d outcome duration s = Some s' → eventStep s s'
  | step_attemptFinished d attempt classification s s' : itemsCounted d → attemptFinished d attempt classification s = Some s' → eventStep s s'
  | step_closeOpenAttempts entries status node s :
      entries ≡ₚ map_to_list (rv_attemptStarts s) → eventStep s (closeOpenAttempts entries status node s)
  | step_stepEnd step s : eventStep s (stepEnd step s)
  | step_runEnd status s : eventStep s (runEnd status s).
End Events.
