(* ===== verification/RunEventsSafety.v ===== *)
(** * What an observer of a run sees

    Whatever the order in which workers and the run notify: the events are numbered without
    gaps, an attempt starts at most once and finishes at most once, after it started, and
    when the run's end is announced every attempt that started has finished. *)

From S2P Require Import Prelude Utf16 Text Canonical Artifact Journal Retry Index IndexSafety RunEvents.
From Stdlib Require Import SpecFloat.
#[local] Open Scope Z_scope.

Definition identityOf (e : Event) : eventIdentity :=
  {| ei_node := ev_NodeID e; ei_item := default (-1) (ev_ItemIndex e); ei_attempt := ev_Attempt e |}.
(** How often an attempt has started, and finished. *)
Definition starts (identity : eventIdentity) (log : list Event) : nat :=
  length (filter (λ e, ev_Type e = "step.attempt.started" ∧ identityOf e = identity) log).
Definition finishes (identity : eventIdentity) (log : list Event) : nat :=
  length (filter (λ e, ev_Type e = "step.attempt.finished" ∧ identityOf e = identity) log).

Lemma starts_snoc identity log e : starts identity (log ++ [e]) =
  (starts identity log + if decide (ev_Type e = "step.attempt.started" ∧ identityOf e = identity) then 1 else 0)%nat.
Proof. unfold starts. rewrite filter_app, length_app. f_equal. cbn. by case_decide. Qed.
Lemma finishes_snoc identity log e : finishes identity (log ++ [e]) =
  (finishes identity log + if decide (ev_Type e = "step.attempt.finished" ∧ identityOf e = identity) then 1 else 0)%nat.
Proof. unfold finishes. rewrite filter_app, length_app. f_equal. cbn. by case_decide. Qed.

(** The attempts that are open are those that have started and not finished. *)
Definition attemptsAgree (attempts : gmap eventIdentity (option Z)) (log : list Event) : Prop :=
  ∀ identity,
    match attempts !! identity with
    | None => starts identity log = 0 ∧ finishes identity log = 0
    | Some (Some _) => starts identity log = 1 ∧ finishes identity log = 0
    | Some None => starts identity log = 1 ∧ finishes identity log = 1
    end%nat.

Record wellKept (projectKey runID : string) (s : runEvents) : Prop := {
  wk_run : rv_projectKey s = projectKey ∧ rv_runID s = runID;
  wk_sequence : rv_sequence s = Z.of_nat (length (rv_log s));
  wk_numbers : ∀ n e, rv_log s !! n = Some e → ev_Sequence e = Z.of_nat n + 1;
  wk_events : ∀ e, e ∈ rv_log s → ev_ProjectKey e = projectKey ∧ ev_RunID e = runID;
  wk_first : ev_Type <$> head (rv_log s) = Some "run.started";
  wk_attempts : attemptsAgree (rv_attemptStarts s) (rv_log s);
  wk_order : ∀ identity n, (finishes identity (take n (rv_log s)) ≤ starts identity (take n (rv_log s)))%nat;
  wk_items : ∀ identity, is_Some (rv_attemptStarts s !! identity) → -1 ≤ ei_item identity;
}.

Section Safety.
Context (clock : nat → Z) (projectKey runID : string).
#[local] Abbreviation wellKept := (wellKept projectKey runID).
#[local] Abbreviation emit := (emit clock).
#[local] Abbreviation startAttempt := (startAttempt clock).
#[local] Abbreviation finishOpenAttempt := (finishOpenAttempt clock).

Lemma attemptsAgree_event attempts log e e' : ev_Type e' = ev_Type e → identityOf e' = identityOf e →
  attemptsAgree attempts (log ++ [e]) → attemptsAgree attempts (log ++ [e']).
Proof. intros Ht Hi H identity. specialize (H identity). rewrite starts_snoc, finishes_snoc in *. by rewrite Ht, Hi. Qed.
Lemma attemptsAgree_order attempts log identity : attemptsAgree attempts log → (finishes identity log ≤ starts identity log)%nat.
Proof. intros H. specialize (H identity). destruct (attempts !! identity) as [[?|]|]; lia. Qed.

(** One more event. *)
Lemma emit_kept e s0 s : wellKept s0 → rv_log s = rv_log s0 → rv_sequence s = rv_sequence s0 →
  rv_projectKey s = rv_projectKey s0 → rv_runID s = rv_runID s0 →
  (∀ identity, is_Some (rv_attemptStarts s !! identity) → -1 ≤ ei_item identity) →
  attemptsAgree (rv_attemptStarts s) (rv_log s0 ++ [e]) → wellKept (emit e s).
Proof.
  intros [[Hp Hr] Hseq Hnum Hrun Hfirst Hatt Hord Hitems] El Es Ep Er Hi Ha. unfold RunEvents.emit, now. split; cbn -[starts finishes]; rewrite ?El.
  - by rewrite Ep, Er.
  - rewrite length_app. cbn. lia.
  - intros n e'. rewrite lookup_app_Some. intros [Hn|[Hl Hn]]; [by apply Hnum|].
    apply list_lookup_singleton_Some in Hn as [Hn <-]. cbn. lia.
  - intros e' [He|He%list_elem_of_singleton]%elem_of_app; [by apply Hrun|]. subst e'. cbn. by rewrite Ep, Er.
  - by destruct (rv_log s0).
  - by eapply attemptsAgree_event; [..|exact Ha].
  - intros identity n. destruct (decide (n ≤ length (rv_log s0))%nat).
    + rewrite take_app_le by done. apply Hord.
    + rewrite take_ge by (rewrite length_app; cbn; lia). eapply attemptsAgree_order, attemptsAgree_event; [..|exact Ha]; done.
  - exact Hi.
Qed.

Lemma startAttempt_kept identity item s : ei_item identity = default (-1) item → -1 ≤ ei_item identity →
  wellKept s → wellKept (startAttempt identity item s).
Proof.
  intros Hitem Hle Hk. unfold RunEvents.startAttempt. destruct (rv_attemptStarts s !! identity) as [x|] eqn:E; [done|]. cbn [now].
  assert (∀ (a b : runEvents) (P : runEvents → Prop), P a → P b → ∀ o : option Z, P (match o with Some _ => a | None => b end)) as Hcase by (by intros ??? ?? []).
  set (s3 := match _ with Some _ => _ | None => _ end).
  assert (rv_log s3 = rv_log s ∧ rv_sequence s3 = rv_sequence s ∧ rv_projectKey s3 = rv_projectKey s ∧ rv_runID s3 = rv_runID s ∧
    rv_attemptStarts s3 = <[ identity := Some (clock (rv_ticks s)) ]> (rv_attemptStarts s)) as (L1 & L2 & L3 & L4 & L5).
  { unfold s3. by destruct (_ !! ei_node identity). }
  apply (emit_kept _ s); try done; rewrite L5.
  - intros id [<-|[_ ?]]%lookup_insert_is_Some; [done|]. by apply (wk_items _ _ _ Hk).
  - intros id. pose proof (wk_attempts _ _ _ Hk id) as Ha. rewrite starts_snoc, finishes_snoc. cbn [ev_Type attemptEvent].
    rewrite (decide_False (P := "step.attempt.started" = "step.attempt.finished" ∧ _)) by (by intros []).
    assert (identityOf (attemptEvent "step.attempt.started" identity item None "" "" "") = identity) as ->.
    { unfold identityOf. cbn. rewrite <- Hitem. by destruct identity. }
    destruct (decide (id = identity)) as [->|Hne].
    + rewrite lookup_insert_eq. rewrite E in Ha. rewrite decide_True by done. lia.
    + rewrite lookup_insert_ne by done. rewrite decide_False by (by intros [_ ?]). by rewrite !Nat.add_0_r.
Qed.

Lemma finishOpenAttempt_kept identity item status diagnostic classification measured s : ei_item identity = default (-1) item →
  wellKept s → wellKept (finishOpenAttempt identity item status diagnostic classification measured s).
Proof.
  intros Hitem Hk. unfold RunEvents.finishOpenAttempt. destruct (rv_attemptStarts s !! identity) as [[started|]|] eqn:E; [|done..].
  set (x := if measured <? 0 then _ else _).
  assert (rv_log x.2 = rv_log s ∧ rv_sequence x.2 = rv_sequence s ∧ rv_projectKey x.2 = rv_projectKey s ∧ rv_runID x.2 = rv_runID s ∧
    rv_attemptStarts x.2 = rv_attemptStarts s) as (L1 & L2 & L3 & L4 & L5) by (unfold x; by destruct (measured <? 0)).
  destruct x as [duration s1]. cbn [snd] in *. set (e := attemptEvent _ _ _ _ _ _ _).
  assert (identityOf e = identity) as Hid by (unfold e, identityOf; cbn; rewrite <- Hitem; by destruct identity).
  apply (emit_kept _ s); try done; cbn [rv_setAttempts rv_attemptStarts]; rewrite L5.
  - intros id [<-|[_ ?]]%lookup_insert_is_Some; apply (wk_items _ _ _ Hk); [by eexists|done].
  - intros id. pose proof (wk_attempts _ _ _ Hk id) as Ha. rewrite starts_snoc, finishes_snoc, Hid.
    change (ev_Type e) with "step.attempt.finished".
    rewrite (decide_False (P := "step.attempt.finished" = "step.attempt.started" ∧ _)) by (by intros []).
    destruct (decide (id = identity)) as [->|Hne].
    + rewrite lookup_insert_eq. rewrite E in Ha. rewrite decide_True by done. lia.
    + rewrite lookup_insert_ne by done. rewrite decide_False by (by intros [_ ?]). by rewrite !Nat.add_0_r.
Qed.

(** An event that is not of an attempt. *)
Lemma other_kept e s : ev_Type e ≠ "step.attempt.started" → ev_Type e ≠ "step.attempt.finished" →
  wellKept s → attemptsAgree (rv_attemptStarts s) (rv_log s ++ [e]).
Proof.
  intros H1 H2 Hk id. rewrite starts_snoc, finishes_snoc, !decide_False by (by intros []). rewrite !Nat.add_0_r. apply (wk_attempts _ _ _ Hk).
Qed.

Lemma identity_item d identity item : itemsCounted d → invocationEventIdentity d = Some (identity, item) →
  ei_item identity = default (-1) item ∧ -1 ≤ ei_item identity.
Proof.
  unfold invocationEventIdentity. intros Hd. destruct (sd_Scope d) as [scope|] eqn:Es; [|by intros [= <- <-]].
  specialize (Hd scope). destruct (es_Frames scope) as [|frame frames] eqn:Ef; [done|]. intros [= <- <-]. cbn.
  specialize (Hd frame Es eq_refl). split; [done|lia].
Qed.

Lemma finishAttempt_kept d status diagnostic classification measured s s' : itemsCounted d → wellKept s →
  finishAttempt clock d status diagnostic classification measured s = Some s' → wellKept s'.
Proof.
  intros Hd Hk. unfold finishAttempt. destruct (invocationEventIdentity d) as [[identity item]|] eqn:E; [|done].
  destruct (identity_item _ _ _ Hd E). intros [= <-]. by apply finishOpenAttempt_kept, startAttempt_kept.
Qed.

(** ** Closing *)
Definition closed (s : runEvents) (identity : eventIdentity) : Prop := ∀ t, rv_attemptStarts s !! identity ≠ Some (Some t).

Lemma emit_attempts e s : rv_attemptStarts (emit e s) = rv_attemptStarts s.
Proof. done. Qed.
Lemma finishOpenAttempt_attempts identity item status diagnostic classification measured s :
  (∀ id, closed s id → closed (finishOpenAttempt identity item status diagnostic classification measured s) id) ∧
  closed (finishOpenAttempt identity item status diagnostic classification measured s) identity.
Proof.
  unfold RunEvents.finishOpenAttempt, closed. destruct (rv_attemptStarts s !! identity) as [[started|]|] eqn:E; [|by rewrite E..].
  destruct (measured <? 0); cbn; (split; [intros id Hc t|intros t]);
    rewrite ?lookup_insert_eq; try done; rewrite lookup_insert_Some; intros [[_ ?]|[_ ?]]; [done|by eapply Hc|done|by eapply Hc].
Qed.

Lemma closeAttempt_kept status node s entry : -1 ≤ ei_item entry.1 → wellKept s → wellKept (closeAttempt clock status node s entry).
Proof.
  destruct entry as [identity [t|]]; [|done]. cbn. intros Hle Hk. destruct (_ && _); [done|]. apply finishOpenAttempt_kept; [|done].
  destruct (Z.leb_spec 0 (ei_item identity)); cbn; lia.
Qed.
Lemma closeAll_kept status node entries s : (∀ entry, entry ∈ entries → -1 ≤ ei_item entry.1) → wellKept s →
  wellKept (foldl (closeAttempt clock status node) s entries).
Proof.
  revert s. induction entries as [|entry entries IH]; intros s He Hk; [done|]. cbn. apply IH; [set_solver|].
  apply closeAttempt_kept; [set_solver|done].
Qed.

Lemma closeAll_closed status entries s :
  (∀ id, closed s id → closed (foldl (closeAttempt clock status "") s entries) id) ∧
  (∀ id t, (id, Some t) ∈ entries → closed (foldl (closeAttempt clock status "") s entries) id).
Proof.
  revert s. induction entries as [|[identity o] entries IH]; intros s; cbn [foldl]; [split; [done|by intros ?? ?%elem_of_nil]|].
  destruct (IH (closeAttempt clock status "" s (identity, o))) as [IH1 IH2]. cbn [closeAttempt] in *.
  change (negb (eqs "" "")) with false in *. cbn [andb] in *. destruct o as [t|].
  - destruct (finishOpenAttempt_attempts identity (if 0 <=? ei_item identity then Some (ei_item identity) else None) status
      "attempt outcome unavailable" "" (-1) s) as [F1 F2]. split; [by auto|].
    intros id t' [[= -> ->]|Hin]%elem_of_cons; [by apply IH1|by eapply IH2].
  - split; [done|]. intros id t' [[=]|Hin]%elem_of_cons. by eapply IH2.
Qed.

Lemma entries_items s entries entry : wellKept s → entries ≡ₚ map_to_list (rv_attemptStarts s) → entry ∈ entries → -1 ≤ ei_item entry.1.
Proof.
  intros Hk Hp Hin. rewrite Hp in Hin. destruct entry as [identity o]. apply elem_of_map_to_list in Hin.
  apply (wk_items _ _ _ Hk). by eexists.
Qed.
Lemma closeOpenAttempts_kept entries status node s : wellKept s → entries ≡ₚ map_to_list (rv_attemptStarts s) →
  wellKept (closeOpenAttempts clock entries status node s).
Proof. intros Hk Hp. apply closeAll_kept; [|done]. intros entry. by eapply entries_items. Qed.
Lemma closeOpenAttempts_closed entries status s id : entries ≡ₚ map_to_list (rv_attemptStarts s) →
  closed (closeOpenAttempts clock entries status "" s) id.
Proof.
  intros Hp. unfold closeOpenAttempts. set (st := if eqs _ _ then _ else _).
  destruct (closeAll_closed st entries s) as [H1 H2]. destruct (rv_attemptStarts s !! id) as [[t|]|] eqn:E.
  - apply (H2 id t). rewrite Hp. by apply elem_of_map_to_list.
  - apply H1. intros t'. by rewrite E.
  - apply H1. intros t'. by rewrite E.
Qed.

Lemma runEnd_kept status s : wellKept s → wellKept (runEnd clock status s).
Proof.
  intros Hk. unfold runEnd. eapply emit_kept; [exact Hk|done|done|done|done|apply (wk_items _ _ _ Hk)|by apply other_kept].
Qed.

Lemma eventStep_kept s s' : wellKept s → eventStep clock s s' → wellKept s'.
Proof.
  intros Hk Hs. inversion Hs as [d ? ? Hd E|d outcome duration ? ? Hd E|d attempt classification ? ? Hd E|entries status node ? Hp|step ?|status ?]; subst.
  - unfold attemptStarted in E. destruct (invocationEventIdentity d) as [[identity item]|] eqn:Ei; [|done].
    destruct (identity_item _ _ _ Hd Ei). injection E as <-. by apply startAttempt_kept.
  - unfold attemptObserved in E. destruct (eqs (so_Status outcome) stepInvocationStatusInfraFailed); by eapply finishAttempt_kept.
  - by eapply finishAttempt_kept.
  - by apply closeOpenAttempts_kept.
  - unfold stepEnd. destruct (rv_stepStarts s !! st_NodeID step) as [t|]; cbn [now];
      (eapply emit_kept; [exact Hk|done|done|done|done|exact (wk_items _ _ _ Hk)|by apply (other_kept _ s)]).
  - by apply runEnd_kept.
Qed.

Lemma newRunEvents_kept hooked planHash started totals s :
  newRunEvents clock hooked planHash projectKey runID started totals = Some s → wellKept s.
Proof.
  unfold newRunEvents. destruct hooked; [|done]. intros [= <-]. split; cbn.
  - done.
  - done.
  - intros [|n] e [= <-]; done.
  - intros e ->%list_elem_of_singleton. done.
  - done.
  - intros identity. rewrite lookup_empty. done.
  - intros identity n. destruct n; cbn; [done|]. by rewrite take_nil.
  - by intros identity [? ?].
Qed.
End Safety.

(** C5: what an observer of a run sees, in whatever order the workers and the run notify:
    the first event announces the run, events are numbered from 1 without gaps and name the
    run, an attempt of a step or of an item starts at most once and never finishes before it
    starts or twice; and when the run's end is announced, every attempt that has started has
    finished. *)
Theorem observer_sees clock hooked planHash projectKey runID started totals s0 s entries status :
  newRunEvents clock hooked planHash projectKey runID started totals = Some s0 →
  rtc (eventStep clock) s0 s → entries ≡ₚ map_to_list (rv_attemptStarts s) →
  (ev_Type <$> head (rv_log s) = Some "run.started" ∧
   (∀ n e, rv_log s !! n = Some e → ev_Sequence e = Z.of_nat n + 1 ∧ ev_ProjectKey e = projectKey ∧ ev_RunID e = runID) ∧
   (∀ identity, (starts identity (rv_log s) ≤ 1)%nat ∧
     ∀ n, (finishes identity (take n (rv_log s)) ≤ starts identity (take n (rv_log s)))%nat)) ∧
  let log := rv_log (runFinished clock entries status s) in
  (∃ e, last log = Some e ∧ ev_Type e = "run.finished" ∧ ev_Status e = status) ∧
  ∀ identity, finishes identity log = starts identity log.
Proof.
  intros H0 Hs Hp. assert (wellKept projectKey runID s) as Hk.
  { apply newRunEvents_kept in H0. revert H0. induction Hs; [done|]. intros Hk. by eapply IHHs, eventStep_kept. }
  split; [split_and!|].
  - apply Hk.
  - intros n e Hn. split; [by apply (wk_numbers _ _ _ Hk)|]. apply (wk_events _ _ _ Hk). by eapply list_elem_of_lookup_2.
  - intros identity. split; [|apply (wk_order _ _ _ Hk)].
    pose proof (wk_attempts _ _ _ Hk identity) as Ha. destruct (rv_attemptStarts s !! identity) as [[?|]|]; lia.
  - pose proof (closeOpenAttempts_kept clock _ _ entries status "" s Hk Hp) as Hk1. cbn zeta. split.
    + unfold runFinished, runEnd, emit. cbn [now rv_log]. rewrite last_snoc. by eexists.
    + intros identity. pose proof (wk_attempts _ _ _ (runEnd_kept clock _ _ status _ Hk1) identity) as Ha.
      pose proof (closeOpenAttempts_closed clock entries status s identity Hp) as Hc. unfold closed in Hc.
      change (rv_attemptStarts (runEnd clock status (closeOpenAttempts clock entries status "" s)))
        with (rv_attemptStarts (closeOpenAttempts clock entries status "" s)) in Ha.
      unfold runFinished. destruct (rv_attemptStarts _ !! identity) as [[t|]|]; [by destruct (Hc t)|lia|lia].
Qed.

(** A run that is stopped while an item is at work. *)
Definition tick (n : nat) : Z := 1500000 * Z.of_nat n.
Lemma observer_sees_witness : ∃ d s0 s, theDescriptor sampleDescriptor = Some d ∧
  newRunEvents tick true "sha256:0" "project" "run-1" 0 ∅ = Some s0 ∧ attemptStarted tick d s0 = Some s ∧
  let log := rv_log (runFinished tick (map_to_list (rv_attemptStarts s)) StatusCancelled s) in
  map ev_Type log = ["run.started"; "step.attempt.started"; "step.attempt.finished"; "run.finished"] ∧
  ∀ identity, finishes identity log = starts identity log.
Proof.
  destruct sampleDescriptor as [d|e] eqn:E; [|vm_compute in E; discriminate E].
  destruct (newRunEvents tick true "sha256:0" "project" "run-1" 0 ∅) as [s0|] eqn:E0; [|discriminate E0].
  assert (itemsCounted d) as Hd.
  { vm_compute in E. injection E as <-. intros scope frame [= <-] [= <-]. cbn. lia. }
  destruct (attemptStarted tick d s0) as [s|] eqn:Es; [|vm_compute in E; injection E as <-; discriminate Es].
  exists d, s0, s. split; [reflexivity|]. split; [reflexivity|]. split; [exact Es|].
  destruct (observer_sees tick true "sha256:0" "project" "run-1" 0 ∅ s0 s (map_to_list (rv_attemptStarts s)) StatusCancelled)
    as (_ & _ & H).
  - exact E0.
  - eapply rtc_once, step_attemptStarted; [exact Hd|exact Es].
  - reflexivity.
  - split; [|exact H]. clear H. vm_compute in E, E0. injection E as <-. injection E0 as <-. vm_compute in Es. injection Es as <-.
    vm_compute. reflexivity.
Defined.
