(* ===== verification/SchemaMatch.v ===== *)
(** * Comparing JSON schemas

    The comparisons of [spec/spec.go] and [spec/outcome.go] between the schema of a map's
    list and the schema of its items.  A schema is the tree of its text: the texts are
    members of a spec, and [Parse] fails on a spec that is not strict JSON whatever these
    comparisons say.  An object keeps its members as a list, of which a Go map has the last
    of each name.

    Compiling a schema ([isUsableJSONSchema]) is a third-party package's.  Go ranges over a map
    in any order: [rangeKeys] is that order. *)

From S2P Require Import Prelude Utf16 Text Json Canonical CanonicalText CanonicalForm Encode SourceIdentity Validate.
From Stdlib Require Import Ascii SpecFloat.
#[local] Open Scope Z_scope.

(** ** Go maps and [reflect.DeepEqual] *)

(** The members a Go map has. *)
Fixpoint goMap {A} (ms : list (string * A)) : list (string * A) :=
  match ms with
  | [] => []
  | (n, v) :: ms' => if bool_decide (n ∈ ms'.*1) then goMap ms' else (n, v) :: goMap ms'
  end.

Fixpoint deepEqual (a b : json) : bool :=
  match a, b with
  | JNull, JNull => true
  | JBool x, JBool y => Bool.eqb x y
  | JNum x, JNum y => bool_decide (x = y)
  | JStr x, JStr y => bool_decide (x = y)
  | JArr l, JArr k =>
      (fix all (l k : list json) : bool :=
        match l, k with
        | [], [] => true
        | x :: l', y :: k' => deepEqual x y && all l' k'
        | _, _ => false
        end) l k
  | JObj l, JObj k =>
      (length (goMap l) =? length (goMap k))%nat &&
      (fix all (l : list (string * json)) : bool :=
        match l with
        | [] => true
        | (n, v) :: l' =>
            (bool_decide (n ∈ l'.*1) || match member n k with Some v' => deepEqual v v' | None => false end) && all l'
        end) l
  | _, _ => false
  end.

(** [json.Unmarshal] into [map[string]json.RawMessage], and into a string. *)
Definition rawObject (t : json) : option (list (string * json)) :=
  match t with JObj ms => Some ms | JNull => Some [] | _ => None end.
Definition rawString (t : json) : option string :=
  match t with JStr s => Some s | JNull => Some "" | _ => None end.

(** ** Local references: [url.Parse] and JSON pointers *)

(** [url.unescape] outside of a host: percent escapes, which must be two hexadecimal digits. *)
Fixpoint unescape (skip : nat) (l : list Z) : option (list Z) :=
  match l with
  | [] => Some []
  | b :: l' =>
      match skip with
      | S k => unescape k l'
      | O =>
          if b =? ch "%" then
            match l' with
            | h1 :: h2 :: _ => x ← hexDigit h1; y ← hexDigit h2; (x * 16 + y ::.) <$> unescape 2 l'
            | _ => None
            end
          else (b ::.) <$> unescape 0 l'
      end
  end.

(** [validUserinfo] *)
Definition userinfoByte (b : Z) : bool :=
  inRange 48 57 b || inRange 65 90 b || inRange 97 122 b || isOneOf "-._:~!$&'()*+,;=%@" b.

(** The part before the fragment leaves scheme, host, path and query empty: nothing, or [//]
    with at most user information, then at most a question mark. *)
Definition emptyURL (u : list Z) : bool :=
  let rest := match last u with Some 63 => take (length u - 1) u | _ => u end in
  match rest with
  | [] => true
  | 47 :: 47 :: authority =>
      match last authority with
      | None => true
      | Some b =>
          let userinfo := take (length authority - 1) authority in
          (b =? ch "@") && forallb userinfoByte userinfo &&
          match unescape 0 userinfo with Some _ => true | None => false end
      end
  | _ => false
  end.

(** [strings.Cut(rawURL, "#")] *)
Fixpoint cutHash (l : list Z) : list Z * list Z :=
  match l with
  | [] => ([], [])
  | b :: l' => if b =? ch "#" then ([], l') else let '(u, frag) := cutHash l' in (b :: u, frag)
  end.

(** [parsed.Fragment], when everything else of the parsed reference is empty. *)
Definition localFragment (reference : string) : option string :=
  let '(u, frag) := cutHash (bytesOf reference) in
  if emptyURL u then ofBytes <$> unescape 0 frag else None.

Fixpoint decodeToken (l : list Z) : option (list Z) :=
  match l with
  | [] => Some []
  | b :: l' =>
      if b =? ch "~" then
        match l' with
        | c :: l'' =>
            if c =? ch "0" then (126 ::.) <$> decodeToken l''
            else if c =? ch "1" then (47 ::.) <$> decodeToken l''
            else None
        | [] => None
        end
      else (b ::.) <$> decodeToken l'
  end.
Definition decodeJSONPointerToken (encoded : string) : option string := ofBytes <$> decodeToken (bytesOf encoded).

Definition isJSONPointerArrayIndex (token : string) : bool :=
  match bytesOf token with
  | [] => false
  | b :: l => negb ((b =? ch "0") && negb (bool_decide (l = []))) && forallb isDigit (b :: l)
  end.

(** The part after a leading slash, split. *)
Definition pointerTokens (fragment : string) : option (list string) :=
  match fragment with
  | String c rest => if byteOf c =? ch "/" then Some (splitOn "/" rest) else None
  | EmptyString => None
  end.

Definition localDefinitionName (reference : string) (requireDefinitionRoot : bool) : option string :=
  fragment ← localFragment reference;
  encodedTokens ← pointerTokens fragment;
  match encodedTokens with
  | first :: second :: rest =>
      if requireDefinitionRoot && negb (bool_decide (rest = [])) then None
      else
        definitionToken ← decodeJSONPointerToken first;
        if negb (bool_decide (definitionToken = "$defs")) then None
        else
          name ← decodeJSONPointerToken second;
          if bool_decide (name = "") then None else Some name
  | _ => None
  end.

(** [array[index]], with the index a decimal numeral. *)
Definition arrayElement (items : list json) (token : string) : option json :=
  if isJSONPointerArrayIndex token then
    let index := digitsValue (bytesOf token) in
    if index <? Z.of_nat (length items) then items !! Z.to_nat index else None
  else None.

Fixpoint followTokens (current : json) (encodedTokens : list string) : option json :=
  match encodedTokens with
  | [] => Some current
  | encodedToken :: rest =>
      token ← decodeJSONPointerToken encodedToken;
      match rawObject current, current with
      | Some object, _ => next ← member token object; followTokens next rest
      | None, JArr items => next ← arrayElement items token; followTokens next rest
      | None, _ => None
      end
  end.

Definition resolveLocalJSONPointer (document : json) (reference : string) : option json :=
  fragment ← localFragment reference;
  if bool_decide (fragment = "") then Some document
  else encodedTokens ← pointerTokens fragment; followTokens document encodedTokens.

(** The number of values in a tree: a chain of references visits each at most once. *)
Fixpoint treeSize (t : json) : nat :=
  match t with
  | JArr items => S ((fix sum (l : list json) : nat := match l with [] => 0 | x :: l' => treeSize x + sum l' end) items)
  | JObj ms =>
      S ((fix sum (l : list (string * json)) : nat := match l with [] => 0 | kv :: l' => treeSize kv.2 + sum l' end) ms)
  | _ => 1%nat
  end%nat.

Fixpoint resolveReferences (fuel : nat) (document resolved : json) (seen : list string) : option json :=
  match fuel with
  | O => None
  | S fuel' =>
      match rawObject resolved with
      | None => Some resolved
      | Some object =>
          match member "$ref" object with
          | Some referenceValue =>
              if negb (length (goMap object) =? 1)%nat then Some resolved
              else
                reference ← rawString referenceValue;
                if bool_decide (reference ∈ seen) then None
                else
                  target ← resolveLocalJSONPointer document reference;
                  resolveReferences fuel' document target (reference :: seen)
          | None => Some resolved
          end
      end
  end.
Definition resolveLocalJSONReference (document value : json) : option json :=
  resolveReferences (S (S (treeSize document))) document value [].

(** ** The standalone schema of an array's items *)

(** The definitions a schema refers to, with repetitions; [None] when a [$ref] is no local
    definition. *)
Fixpoint localReferences (t : json) : option (list string) :=
  match t with
  | JArr items =>
      (fix visit (l : list json) : option (list string) :=
        match l with
        | [] => Some []
        | x :: l' => names ← localReferences x; rest ← visit l'; Some (names ++ rest)
        end) items
  | JObj ms =>
      (fix visit (l : list (string * json)) : option (list string) :=
        match l with
        | [] => Some []
        | (key, child) :: l' =>
            if bool_decide (key ∈ l'.*1) then visit l'
            else
              own ← (if bool_decide (key = "$ref") then
                       match child with JStr reference => name ← localDefinitionName reference false; Some [name] | _ => None end
                     else Some []);
              names ← localReferences child; rest ← visit l'; Some (own ++ names ++ rest)
        end) ms
  | _ => Some []
  end.

(** [sortedKeys] of the set [localDefinitionReferences] returns. *)
Definition localDefinitionReferences (schema : json) : option (list string) :=
  names ← localReferences schema; Some (sortUTF16 (remove_dups names)).

Record closureState := { cl_closure : list (string * json); cl_queued : list string; cl_recursive : bool }.

(** The dependencies of one definition. *)
Definition enqueueDependency (rootName : string) (st : closureState) (dependency : string) : closureState :=
  if bool_decide (dependency = rootName) then
    {| cl_closure := cl_closure st; cl_queued := cl_queued st; cl_recursive := true |}
  else if bool_decide (dependency ∈ (cl_closure st).*1) then st
  else {| cl_closure := cl_closure st; cl_queued := cl_queued st ++ [dependency]; cl_recursive := cl_recursive st |}.

(** One turn of the loop, on the name at the head of the queue. *)
Definition closureStep (rootName : string) (definitions : list (string * json)) (st : closureState) (name : string)
    (queued : list string) : option closureState :=
  if bool_decide (name = rootName) then
    Some {| cl_closure := cl_closure st; cl_queued := queued; cl_recursive := true |}
  else if bool_decide (name ∈ (cl_closure st).*1) then
    Some {| cl_closure := cl_closure st; cl_queued := queued; cl_recursive := cl_recursive st |}
  else
    definition ← member name definitions;
    dependencies ← localDefinitionReferences definition;
    let st' := foldl (enqueueDependency rootName)
      {| cl_closure := cl_closure st ++ [(name, definition)]; cl_queued := queued; cl_recursive := cl_recursive st |}
      dependencies in
    Some {| cl_closure := cl_closure st'; cl_queued := sortUTF16 (cl_queued st'); cl_recursive := cl_recursive st' |}.

Fixpoint closureLoop (fuel : nat) (rootName : string) (definitions : list (string * json)) (st : closureState)
    : option closureState :=
  match cl_queued st with
  | [] => Some st
  | name :: queued =>
      match fuel with
      | O => None
      | S fuel' => st' ← closureStep rootName definitions st name queued; closureLoop fuel' rootName definitions st'
      end
  end.

(** One turn for each name of the root schema and for each dependency of each definition. *)
Definition closureFuel (definitions : list (string * json)) : nat :=
  sum_list_with (λ d, length (default [] (localDefinitionReferences d.2))) (goMap definitions).

Definition localDefinitionClosure (rootName : string) (rootSchema : json) (definitions : list (string * json))
    : option (list (string * json) * bool) :=
  references ← localDefinitionReferences rootSchema;
  st ← closureLoop (length references + closureFuel definitions) rootName definitions
    {| cl_closure := []; cl_queued := references; cl_recursive := false |};
  Some (cl_closure st, cl_recursive st).

(** [m[k] = v] *)
Definition setMember (k : string) (v : json) (ms : list (string * json)) : list (string * json) :=
  List.filter (λ kv, negb (bool_decide (kv.1 = k))) ms ++ [(k, v)].

Section Match.
Context (NumberToJSON : spec_float → result string) (isUsableJSONSchema : string → bool).
Context (rangeKeys : list string → list string).
#[local] Abbreviation CanonicalizeJSON := (Canonical.CanonicalizeJSON NumberToJSON).

(** [json.Unmarshal] into [any] and [json.Marshal] of what it gives: numbers are doubles,
    which the encoder writes as [NumberToJSON] does, but for minus zero. *)
Definition floatToken (token : string) : option string :=
  match ParseFloat token with
  | None => None
  | Some (S754_zero true) => Some "-0"
  | Some d => match NumberToJSON d with Ok text => Some text | Err _ => None end
  end.
Fixpoint floatTree (t : json) : option json :=
  match t with
  | JNum token => JNum <$> floatToken token
  | JArr items =>
      JArr <$> (fix all (l : list json) : option (list json) :=
        match l with [] => Some [] | x :: l' => y ← floatTree x; ys ← all l'; Some (y :: ys) end) items
  | JObj ms =>
      JObj <$> (fix all (l : list (string * json)) : option (list (string * json)) :=
        match l with [] => Some [] | (n, v) :: l' => w ← floatTree v; ws ← all l'; Some ((n, w) :: ws) end) ms
  | _ => Some t
  end.

Definition standaloneArrayItemSchema (document items : json) : option json :=
  match rawObject items with
  | None => Some items
  | Some referenceOnly =>
      '(rootName, reference, items) ←
        match member "$ref" referenceOnly with
        | Some referenceJSON =>
            if (length (goMap referenceOnly) =? 1)%nat then
              reference ← rawString referenceJSON;
              match localDefinitionName reference true with
              | Some rootName => Some (rootName, reference, items)
              | None => resolved ← resolveLocalJSONReference document items; Some ("", reference, resolved)
              end
            else Some ("", "", items)
        | None => Some ("", "", items)
        end;
      match rawObject items with
      | None => Some items
      | Some _ =>
          root ← rawObject document;
          definitions ← match member "$defs" root with Some definitionsJSON => rawObject definitionsJSON | None => Some [] end;
          rootSchema ← (if negb (bool_decide (rootName = "")) then member rootName definitions else Some items);
          '(closure, recursive) ← localDefinitionClosure rootName rootSchema definitions;
          if (recursive : bool) then
            Some (JObj [("$defs", JObj (closure ++ [(rootName, rootSchema)])); ("$ref", JStr reference)])
          else
            rootObject ← floatTree rootSchema;
            match rootObject with
            | JObj ms => Some (JObj (if bool_decide (closure = []) then goMap ms else setMember "$defs" (JObj closure) (goMap ms)))
            | JNull => Some JNull
            | _ => None
            end
      end
  end.

Definition arraySchemaItemsExactlyMatch (arraySchema itemSchema : string) : bool :=
  if negb (isUsableJSONSchema arraySchema) || negb (isUsableJSONSchema itemSchema) then false
  else
    match
      document ← unmarshal arraySchema;
      object ← rawObject document;
      type ← member "type" object;
      kind ← rawString type;
      items ← member "items" object;
      if negb (bool_decide (kind = "array")) then None else standaloneArrayItemSchema document items
    with
    | None => false
    | Some standalone =>
        match CanonicalizeJSON (printJson standalone), CanonicalizeJSON itemSchema with
        | Ok canonicalItems, Ok canonicalItemSchema => bool_decide (canonicalItems = canonicalItemSchema)
        | _, _ => false
        end
    end.

(** ** The comparison of an outcome list *)
Definition annotationKeywords (keyword : string) : bool :=
  bool_decide (keyword ∈ ["$comment"; "$defs"; "description"; "discriminator"; "examples"; "title"]).
Definition singleSchemaKeywords (keyword : string) : bool :=
  bool_decide (keyword ∈ ["$ref"; "additionalItems"; "additionalProperties"; "contains"; "else"; "if";
    "items"; "not"; "propertyNames"; "then"; "unevaluatedItems"; "unevaluatedProperties"]).
Definition schemaListKeywords (keyword : string) : bool :=
  bool_decide (keyword ∈ ["allOf"; "anyOf"; "oneOf"; "prefixItems"]).
Definition schemaMapKeywords (keyword : string) : bool :=
  bool_decide (keyword ∈ ["dependentSchemas"; "patternProperties"; "properties"]).

Definition maxSchemaComparisonDepth : nat := 256.

Fixpoint pointerTarget (current : json) (encodedTokens : list string) : option json :=
  match encodedTokens with
  | [] => Some current
  | encoded :: rest =>
      token ← decodeJSONPointerToken encoded;
      next ← match current with
        | JObj ms => member token ms
        | JArr items => arrayElement items token
        | _ => None
        end;
      pointerTarget next rest
  end.
Definition schemaPointer (document : json) (reference : string) : option json :=
  match reference with
  | String c fragment =>
      if negb (byteOf c =? ch "#") then None
      else if bool_decide (fragment = "") then Some document
      else encodedTokens ← pointerTokens fragment; pointerTarget document encodedTokens
  | EmptyString => None
  end.

(** The loop runs at most [maxSchemaComparisonDepth] times, in the code too. *)
Fixpoint followReferences (fuel : nat) (document schema : json) (followed : string) : option (json * string) :=
  match fuel with
  | O => None
  | S fuel' =>
      match schema with
      | JObj object =>
          match member "$ref" object with
          | Some (JStr reference) =>
              if existsb (λ keyword, negb (bool_decide (keyword = "$ref")) && negb (annotationKeywords keyword)) object.*1
              then Some (schema, followed)
              else target ← schemaPointer document reference; followReferences fuel' document target reference
          | _ => Some (schema, followed)
          end
      | _ => Some (schema, followed)
      end
  end.
Definition resolveSchemaReference (document schema : json) : option (json * string) :=
  followReferences maxSchemaComparisonDepth document schema "".

Definition validatingKeywords (schema : list (string * json)) : list string :=
  List.filter (λ keyword, negb (annotationKeywords keyword)) (goMap schema).*1.

(** [reflect.DeepEqual] of two sets of keywords. *)
Definition sameKeywords (left right : list string) : bool :=
  (length left =? length right)%nat && forallb (λ keyword, bool_decide (keyword ∈ right)) left.

Definition seenPairs : Type := list (string * string).

(** The loops of [equal]: each comparison may extend [seen], and a failed one ends them all. *)
Fixpoint allEqual {A} (f : seenPairs → A → option seenPairs) (seen : seenPairs) (l : list A) : option seenPairs :=
  match l with [] => Some seen | x :: l' => seen' ← f seen x; allEqual f seen' l' end.

Definition seenWhen (b : bool) (seen : seenPairs) : option seenPairs := if b then Some seen else None.

(** The values of one keyword, by its kind; [equal] compares schemas one level deeper. *)
Definition equalKeyword (equal : seenPairs → json → json → option seenPairs) (leftObject rightObject : list (string * json))
    (seen : seenPairs) (keyword : string) : option seenPairs :=
  match member keyword leftObject, member keyword rightObject with
  | Some leftValue, Some rightValue =>
      if singleSchemaKeywords keyword then
        if bool_decide (keyword = "$ref") then equal seen (JObj [("$ref", leftValue)]) (JObj [("$ref", rightValue)])
        else equal seen leftValue rightValue
      else if schemaListKeywords keyword then
        match leftValue, rightValue with
        | JArr leftList, JArr rightList =>
            if negb (length leftList =? length rightList)%nat then None
            else allEqual (λ seen p, equal seen p.1 p.2) seen (combine leftList rightList)
        | _, _ => None
        end
      else if schemaMapKeywords keyword then
        match leftValue, rightValue with
        | JObj leftMap, JObj rightMap =>
            if negb (length (goMap leftMap) =? length (goMap rightMap))%nat then None
            else
              allEqual (λ seen name,
                match member name leftMap, member name rightMap with
                | Some leftChild, Some rightChild => equal seen leftChild rightChild
                | _, _ => None
                end) seen (rangeKeys (goMap leftMap).*1)
        | _, _ => None
        end
      else seenWhen (deepEqual leftValue rightValue) seen
  | _, _ => None
  end.

(** [None] is false.  A level of fuel is a level of depth: it runs out where the code stops,
    past [maxSchemaComparisonDepth]. *)
Fixpoint equal (leftDocument rightDocument : json) (fuel : nat) (seen : seenPairs) (left right : json) : option seenPairs :=
  match fuel with
  | O => None
  | S fuel' =>
      '(left, leftRef) ← resolveSchemaReference leftDocument left;
      '(right, rightRef) ← resolveSchemaReference rightDocument right;
      let referenced := negb (bool_decide (leftRef = "")) || negb (bool_decide (rightRef = "")) in
      if negb (bool_decide (leftRef = "")) && negb (bool_decide (rightRef = "")) && bool_decide ((leftRef, rightRef) ∈ seen)
      then Some seen
      else
        let seen := if referenced then (leftRef, rightRef) :: seen else seen in
        match left, right with
        | JObj leftObject, JObj rightObject =>
            let leftKeys := validatingKeywords leftObject in
            if negb (sameKeywords leftKeys (validatingKeywords rightObject)) then None
            else allEqual (equalKeyword (equal leftDocument rightDocument fuel') leftObject rightObject) seen (rangeKeys leftKeys)
        | _, _ => seenWhen (deepEqual left right) seen
        end
  end.
Definition schemasEqual (leftDocument rightDocument left right : json) : bool :=
  match equal leftDocument rightDocument (S maxSchemaComparisonDepth) [] left right with Some _ => true | None => false end.

Definition decodeSchemaTree (document : string) : option json := fst <$> readValue false document.

(** [conformance/schema/map-item-failure.schema.json] *)
Definition MapItemFailureSchemaJSON : string := quoted
  "{'$schema':'https://json-schema.org/draft/2020-12/schema','type':'object','properties':{'attempts':{'minimum':1,'type':'integer'},'diagnostic':{'maxLength':1024,'type':'string'},'kind':{'enum':['error','killed','non-retryable','timeout'],'type':'string'}},'required':['attempts','diagnostic','kind'],'additionalProperties':false}
".

(** The record without its dialect, with its keys in the encoder's order. *)
Definition failureSchema : string :=
  match unmarshal MapItemFailureSchemaJSON with
  | Some (JObj ms) => printJson (sortTree (JObj (List.filter (λ kv, negb (bool_decide (kv.1 = "$schema"))) ms)))
  | _ => ""
  end.
Definition mapItemOutcomeSchemaJSON : string :=
  quoted "{'oneOf':[{'type':'object','properties':{'status':{'const':'succeeded','type':'string'},'value':true},'required':['status','value'],'additionalProperties':false},{'type':'object','properties':{'failure':"
  +:+ failureSchema +:+ quoted ",'status':{'const':'failed','type':'string'}},'required':['failure','status'],'additionalProperties':false}]}".

(** [m[k]] of a tree that must be an object; the assertions of the code panic otherwise. *)
Definition childOf (k : string) (t : json) : option json := match t with JObj ms => member k ms | _ => None end.
Definition updateChild (k : string) (f : json → option json) (t : json) : option json :=
  match t with
  | JObj ms => child ← member k ms; child' ← f child; Some (JObj (setMember k child' ms))
  | _ => None
  end.

(** [succeeded["properties"]["value"] = item] in the first variant of the outcome. *)
Definition withValue (item outcome : json) : option json :=
  updateChild "oneOf" (λ variants,
    match variants with
    | JArr (succeeded :: rest) =>
        succeeded' ← updateChild "properties" (λ properties,
          match properties with JObj ms => Some (JObj (setMember "value" item ms)) | _ => None end) succeeded;
        Some (JArr (succeeded' :: rest))
    | _ => None
    end) outcome.

Definition expectedOutcomeList (itemOutputSchema : string) : option json :=
  item ← decodeSchemaTree itemOutputSchema;
  outcome ← decodeSchemaTree mapItemOutcomeSchemaJSON;
  let '(definitions, item) :=
    match item with
    | JObj object =>
        match member "$defs" object with
        | Some definitions => (Some definitions, JObj (List.filter (λ kv, negb (bool_decide (kv.1 = "$defs"))) object))
        | None => (None, item)
        end
    | _ => (None, item)
    end in
  outcome ← withValue item outcome;
  Some (JObj ([("type", JStr "array"); ("items", outcome)] ++
    match definitions with Some d => [("$defs", d)] | None => [] end)).

Definition MapOutcomeListSchemaMatches (outputSchema itemOutputSchema : string) : bool :=
  if negb (isUsableJSONSchema outputSchema) || negb (isUsableJSONSchema itemOutputSchema) then false
  else
    match
      output ← decodeSchemaTree outputSchema;
      type ← childOf "type" output;
      items ← childOf "items" output;
      if negb (deepEqual type (JStr "array")) || deepEqual items JNull then None
      else
        expected ← expectedOutcomeList itemOutputSchema;
        expectedItems ← childOf "items" expected;
        Some (schemasEqual output expected items expectedItems)
    with
    | Some b => b
    | None => false
    end.

(** ** Decisions *)

(** [json.Unmarshal] into a list of strings. *)
Fixpoint rawStrings (l : list json) : option (list string) :=
  match l with [] => Some [] | t :: l' => s ← rawString t; rest ← rawStrings l'; Some (s :: rest) end.

Definition schemaAdmitsObject (schema : string) : bool :=
  match unmarshal schema with
  | Some (JObj ms) =>
      match last (List.filter (λ kv, isField "type" kv.1) ms) with
      | None => true
      | Some (_, type) =>
          match rawString type with
          | Some single => bool_decide (single = "object")
          | None =>
              match type with
              | JArr items =>
                  match rawStrings items with Some several => bool_decide ("object" ∈ several) | None => false end
              | _ => false
              end
          end
      end
  | _ => true
  end.

(** The rules the validator of a spec compares schemas by. *)
#[export] Instance schemaRules : SchemaRules := {|
  Validate.schemaAdmitsObject := schemaAdmitsObject;
  Validate.arraySchemaItemsExactlyMatch := arraySchemaItemsExactlyMatch;
  Validate.MapOutcomeListSchemaMatches := MapOutcomeListSchemaMatches;
|}.
End Match.
