(* ===== verification/SchemaMatchSafety.v ===== *)
(** * What the comparison of schemas decides

    Without references the comparison is equality up to annotations: neither the order Go
    ranges over a map in, nor the pairs already seen, nor the depth limit plays a role.  The
    definitions an item schema is given are the ones it needs. *)

From S2P Require Import Prelude Utf16 Text Json Canonical CanonicalText CanonicalForm Encode SourceIdentity Validate MapExec SchemaMatch.
From Stdlib Require Import Ascii SpecFloat.
#[local] Open Scope Z_scope.

(** ** Go maps without repeated names *)
Lemma goMap_NoDup {A} (ms : list (string * A)) : NoDup ms.*1 → goMap ms = ms.
Proof.
  induction ms as [|[n v] ms IH]; [done|]. cbn [fmap list_fmap fst goMap]. intros [Hn Hnd]%NoDup_cons.
  rewrite bool_decide_eq_false_2 by done. by rewrite IH.
Qed.

Lemma deepEqual_JObj l k : NoDup l.*1 → NoDup k.*1 →
  deepEqual (JObj l) (JObj k) = true ↔
  length l = length k ∧ ∀ n v, (n, v) ∈ l → ∃ v', member n k = Some v' ∧ deepEqual v v' = true.
Proof.
  intros Hl Hk. cbn [deepEqual]. rewrite !goMap_NoDup, andb_true_iff, Nat.eqb_eq by done. f_equiv. clear Hk.
  induction l as [|[n v] l IH].
  { split; [by intros _ ?? ?%elem_of_nil|done]. }
  cbn [fmap list_fmap fst] in Hl. apply NoDup_cons in Hl as [Hn Hl]. rewrite andb_true_iff, (IH Hl).
  rewrite bool_decide_eq_false_2 by done. cbn [orb]. split.
  - intros [H1 H2] n' v' [[= -> ->]|Hin]%elem_of_cons; [|by apply H2]. destruct (member n k) as [w|]; [by exists w|done].
  - intros H. split; [|intros n' v' Hin; apply H; by right]. destruct (H n v) as (w & -> & Hw); [left|done].
Qed.

Lemma deepEqual_refl t : ∀ d, wellFormed d t → deepEqual t t = true.
Proof.
  induction t as [|b|token|s|items IH|ms IH] using json_nested_ind; intros d Hwf; try done; cbn [deepEqual].
  - by destruct b.
  - by apply bool_decide_eq_true.
  - by apply bool_decide_eq_true.
  - apply wellFormed_JArr in Hwf as [_ Hwf]. induction items as [|x items IHl]; [done|].
    apply Forall_cons in IH as [Hx IH], Hwf as [Hwx Hwf]. rewrite (Hx _ Hwx). by apply IHl.
  - apply wellFormed_JObj in Hwf as (_ & Hnd & Hwf). apply deepEqual_JObj; [done|done|]. split; [done|].
    intros n v Hin. exists v. split; [by apply member_Some|]. rewrite Forall_forall in IH, Hwf.
    destruct (Hwf _ Hin) as [_ Hv]. by apply (IH _ Hin _ Hv).
Qed.

(** ** Schemas without annotations *)

(** What is left of a schema without the annotations of it and of the schemas below it. *)
Fixpoint strip (t : json) : json :=
  match t with
  | JObj ms =>
      JObj ((fix go (l : list (string * json)) : list (string * json) :=
        match l with
        | [] => []
        | (k, v) :: l' =>
            if annotationKeywords k then go l'
            else
              (k, if singleSchemaKeywords k then strip v
                  else if schemaListKeywords k then match v with JArr items => JArr (map strip items) | _ => v end
                  else if schemaMapKeywords k then
                    match v with JObj children => JObj (map (λ c, (c.1, strip c.2)) children) | _ => v end
                  else v) :: go l'
        end) ms)
  | _ => t
  end.
Definition stripKeyword (k : string) (v : json) : json :=
  if singleSchemaKeywords k then strip v
  else if schemaListKeywords k then match v with JArr items => JArr (map strip items) | _ => v end
  else if schemaMapKeywords k then match v with JObj children => JObj (map (λ c, (c.1, strip c.2)) children) | _ => v end
  else v.
Definition stripMembers (ms : list (string * json)) : list (string * json) :=
  map (λ kv, (kv.1, stripKeyword kv.1 kv.2)) (List.filter (λ kv, negb (annotationKeywords kv.1)) ms).

Lemma strip_JObj ms : strip (JObj ms) = JObj (stripMembers ms).
Proof.
  cbn [strip]. f_equal. unfold stripMembers. induction ms as [|[k v] ms IH]; [done|]. cbn [List.filter fst].
  destruct (annotationKeywords k); cbn [negb]; [apply IH|]. cbn [map fst snd]. by rewrite <- IH.
Qed.

(** A keyword that takes a list or a map of schemas has one, at every level. *)
Fixpoint shaped (t : json) : bool :=
  match t with
  | JObj ms =>
      (fix go (l : list (string * json)) : bool :=
        match l with
        | [] => true
        | (k, v) :: l' =>
            (if annotationKeywords k then true
             else if singleSchemaKeywords k then shaped v
             else if schemaListKeywords k then match v with JArr items => forallb shaped items | _ => false end
             else if schemaMapKeywords k then
               match v with JObj children => forallb (λ c, shaped c.2) children | _ => false end
             else true) && go l'
        end) ms
  | _ => true
  end.
Definition shapedKeyword (k : string) (v : json) : bool :=
  if singleSchemaKeywords k then shaped v
  else if schemaListKeywords k then match v with JArr items => forallb shaped items | _ => false end
  else if schemaMapKeywords k then match v with JObj children => forallb (λ c, shaped c.2) children | _ => false end
  else true.

Lemma shaped_JObj ms : shaped (JObj ms) = true ↔ ∀ k v, (k, v) ∈ ms → annotationKeywords k = false → shapedKeyword k v = true.
Proof.
  cbn [shaped]. induction ms as [|[k v] ms IH]; [split; [by intros _ ?? ?%elem_of_nil|done]|].
  rewrite andb_true_iff, IH. split.
  - intros [H1 H2] k' v' [[= -> ->]|Hin]%elem_of_cons Ha; [by rewrite Ha in H1|by apply H2].
  - intros H. split; [|intros k' v' Hin; apply H; by right]. destruct (annotationKeywords k) eqn:Ha; [done|].
    apply (H k v); [left|done].
Qed.

(** No object of the tree has a [$ref]. *)
Fixpoint refFree (t : json) : bool :=
  match t with
  | JArr items => forallb refFree items
  | JObj ms => forallb (λ kv, negb (bool_decide (kv.1 = "$ref")) && refFree kv.2) ms
  | _ => true
  end.

(** The nesting of a tree. *)
Fixpoint height (t : json) : nat :=
  match t with
  | JArr items => S (max_list (map height items))
  | JObj ms => S (max_list (map (λ kv, height kv.2) ms))
  | _ => 1%nat
  end.

(** ** The comparison without references *)
Lemma forallb_iff {A} (f : A → bool) l : forallb f l = true ↔ ∀ x, x ∈ l → f x = true.
Proof.
  rewrite forallb_forall. split; intros H x Hx; apply H; by apply list_elem_of_In.
Qed.

Lemma allEqual_forallb {A} (f : seenPairs → A → option seenPairs) (P : A → bool) seen l :
  (∀ x, x ∈ l → f seen x = seenWhen (P x) seen) → allEqual f seen l = seenWhen (forallb P l) seen.
Proof.
  induction l as [|x l IH]; intros Hf; [done|]. cbn [allEqual forallb]. rewrite (Hf x) by left.
  unfold seenWhen at 1. destruct (P x); cbn [mbind option_bind andb]; [|done]. apply IH. intros y Hy. apply Hf. by right.
Qed.

Lemma resolve_refFree d t : refFree t = true → resolveSchemaReference d t = Some (t, "").
Proof.
  intros Hr. unfold resolveSchemaReference, maxSchemaComparisonDepth. cbn [followReferences].
  destruct t as [| | | | |ms]; try done. destruct (member "$ref" ms) as [v|] eqn:E; [|done]. exfalso.
  cbn [refFree] in Hr. induction ms as [|[k w] ms IH]; [done|]. cbn [member] in E. cbn [forallb fst] in Hr.
  apply andb_prop in Hr as [[Hk _]%andb_prop Hr]. destruct (member "$ref" ms); [by apply IH|].
  case_bool_decide; [subst; done|done].
Qed.

Lemma refFree_JObj ms k v : refFree (JObj ms) = true → (k, v) ∈ ms → k ≠ "$ref" ∧ refFree v = true.
Proof.
  intros Hr Hin. cbn [refFree] in Hr. rewrite forallb_iff in Hr. specialize (Hr _ Hin). cbn in Hr.
  apply andb_prop in Hr as [Hk Hv]. split; [|done]. intros ->. by rewrite bool_decide_eq_true_2 in Hk.
Qed.
Lemma refFree_JArr items x : refFree (JArr items) = true → x ∈ items → refFree x = true.
Proof. cbn [refFree]. rewrite forallb_iff. auto. Qed.

Lemma height_JArr items x : x ∈ items → (height x < height (JArr items))%nat.
Proof.
  intros Hin. cbn [height]. pose proof (max_list_elem_of_le (height x) (map height items) (list_elem_of_fmap_2 _ _ _ Hin)). lia.
Qed.
Lemma height_JObj ms k v : (k, v) ∈ ms → (height v < height (JObj ms))%nat.
Proof.
  intros Hin. cbn [height].
  pose proof (max_list_elem_of_le (height v) (map (λ kv, height kv.2) ms) (list_elem_of_fmap_2 (λ kv, height kv.2) _ _ Hin)). lia.
Qed.

Lemma wellFormed_member d ms k v : wellFormed d (JObj ms) → (k, v) ∈ ms → wellFormed (d + 1) v.
Proof. intros (_ & _ & HF)%wellFormed_JObj Hin. by destruct (proj1 (Forall_forall _ _) HF _ Hin). Qed.
Lemma wellFormed_element d items x : wellFormed d (JArr items) → x ∈ items → wellFormed (d + 1) x.
Proof. intros [_ HF]%wellFormed_JArr Hin. by apply (proj1 (Forall_forall _ _) HF). Qed.

(** The members that count. *)
Definition keywordsOf (ms : list (string * json)) : list (string * json) :=
  List.filter (λ kv, negb (annotationKeywords kv.1)) ms.

Lemma keywordsOf_keys ms : (keywordsOf ms).*1 = List.filter (λ k, negb (annotationKeywords k)) ms.*1.
Proof.
  induction ms as [|[k v] ms IH]; [done|]. cbn [keywordsOf List.filter fmap list_fmap fst].
  destruct (annotationKeywords k); cbn [negb fmap list_fmap fst]; unfold keywordsOf in IH; by rewrite IH.
Qed.

Lemma elem_of_keywordsOf ms k v : (k, v) ∈ keywordsOf ms ↔ (k, v) ∈ ms ∧ annotationKeywords k = false.
Proof.
  unfold keywordsOf. rewrite !list_elem_of_In, filter_In. cbn [fst]. by rewrite negb_true_iff.
Qed.

Lemma NoDup_filter_bool {A} (f : A → bool) (l : list A) : NoDup l → NoDup (List.filter f l).
Proof.
  induction 1 as [|x l Hx Hl IH]; [constructor|]. cbn [List.filter]. destruct (f x); [|done].
  apply NoDup_cons. split; [|done]. by rewrite list_elem_of_In, filter_In, <- list_elem_of_In; intros [? _].
Qed.

Lemma keywordsOf_NoDup ms : NoDup ms.*1 → NoDup (keywordsOf ms).*1.
Proof. intros H. rewrite keywordsOf_keys. by apply NoDup_filter_bool. Qed.

Lemma validatingKeywords_keys ms : NoDup ms.*1 → validatingKeywords ms = (keywordsOf ms).*1.
Proof. intros H. unfold validatingKeywords. by rewrite goMap_NoDup, keywordsOf_keys. Qed.

Lemma stripMembers_keys ms : (stripMembers ms).*1 = (keywordsOf ms).*1.
Proof. unfold stripMembers. fold (keywordsOf ms). induction (keywordsOf ms) as [|kv l IH]; [done|]. cbn. by f_equal. Qed.

Lemma elem_of_stripMembers ms k w : (k, w) ∈ stripMembers ms ↔ ∃ v, (k, v) ∈ keywordsOf ms ∧ w = stripKeyword k v.
Proof.
  unfold stripMembers. fold (keywordsOf ms). rewrite list_elem_of_fmap. split.
  - intros ([k' v] & [= -> ->] & Hin). eauto.
  - intros (v & Hin & ->). by exists (k, v).
Qed.

(** Two stripped objects, in terms of their keywords. *)
Lemma deepEqual_stripped lm rm : NoDup lm.*1 → NoDup rm.*1 →
  deepEqual (strip (JObj lm)) (strip (JObj rm)) = true ↔
  length (keywordsOf lm) = length (keywordsOf rm) ∧
  ∀ k v, (k, v) ∈ keywordsOf lm → ∃ w, (k, w) ∈ keywordsOf rm ∧ deepEqual (stripKeyword k v) (stripKeyword k w) = true.
Proof.
  intros Hl Hr. rewrite !strip_JObj, deepEqual_JObj; [|rewrite stripMembers_keys; by apply keywordsOf_NoDup..].
  assert (∀ ms, length (stripMembers ms) = length (keywordsOf ms)) as Hlen by (intros ms; unfold stripMembers; by rewrite length_map).
  rewrite !Hlen. f_equiv. assert (NoDup (stripMembers rm).*1) as Hnd by (rewrite stripMembers_keys; by apply keywordsOf_NoDup).
  split.
  - intros H k v Hin. destruct (H k (stripKeyword k v)) as (w' & Hw & He); [apply elem_of_stripMembers; eauto|].
    apply (member_Some _ _ _ Hnd), elem_of_stripMembers in Hw as (w & Hw & ->). eauto.
  - intros H k v' (v & Hin & ->)%elem_of_stripMembers. destruct (H k v Hin) as (w & Hw & He).
    exists (stripKeyword k w). split; [|done]. apply (member_Some _ _ _ Hnd), elem_of_stripMembers. eauto.
Qed.

Section RefFree.
Context (rangeKeys : list string → list string) (Hrange : ∀ l, rangeKeys l ≡ₚ l).
#[local] Abbreviation equal := (SchemaMatch.equal rangeKeys).
#[local] Abbreviation equalKeyword := (SchemaMatch.equalKeyword rangeKeys).

Lemma seenWhen_iff a b seen : (a = true ↔ b = true) → seenWhen a seen = seenWhen b seen.
Proof. intros H. by rewrite (proj2 (Bool.eq_iff_eq_true a b) H). Qed.

(** What a comparison decides, as a function of the two schemas alone. *)
Definition agree (l r : json) : bool := shaped l && deepEqual (strip l) (strip r).
Definition agreeKeyword (k : string) (v w : json) : bool :=
  shapedKeyword k v && deepEqual (stripKeyword k v) (stripKeyword k w).

Lemma deepEqual_JArr l k : deepEqual (JArr l) (JArr k) = true ↔ Forall2 (λ x y, deepEqual x y = true) l k.
Proof.
  cbn [deepEqual]. revert k; induction l as [|x l IH]; intros [|y k]; try by (split; [done|inversion 1]).
  rewrite andb_true_iff, IH. split; [intros [? ?]; by constructor|by inversion 1].
Qed.

(** A list of schemas, compared element by element. *)
Lemma agree_lists ls rs : length ls = length rs →
  forallb (λ p, agree p.1 p.2) (combine ls rs) = true ↔
  forallb shaped ls = true ∧ deepEqual (JArr (map strip ls)) (JArr (map strip rs)) = true.
Proof.
  rewrite deepEqual_JArr. revert rs; induction ls as [|x ls IH]; intros [|y rs] Hl; try done.
  injection Hl as Hl. cbn [combine forallb map fst snd]. rewrite !andb_true_iff, (IH _ Hl). unfold agree.
  rewrite andb_true_iff. split.
  - intros [[? ?] [? ?]]. split; [by split|by constructor].
  - intros [[? ?] HF]. inversion HF; subst. done.
Qed.

(** A map of schemas, compared name by name. *)
Definition stripChildren (ms : list (string * json)) : list (string * json) := map (λ c, (c.1, strip c.2)) ms.
Lemma stripChildren_keys ms : (stripChildren ms).*1 = ms.*1.
Proof. induction ms as [|c ms IH]; [done|]. cbn. by f_equal. Qed.

Lemma member_stripChildren k ms : NoDup ms.*1 → member k (stripChildren ms) = strip <$> member k ms.
Proof.
  intros Hnd. apply option_eq. intros v. rewrite member_Some by (by rewrite stripChildren_keys).
  unfold stripChildren. rewrite list_elem_of_fmap, fmap_Some. split.
  - intros ([k' w] & [= -> ->] & Hin). exists w. split; [by apply member_Some|done].
  - intros (w & Hm & ->). exists (k, w). split; [done|by apply member_Some].
Qed.

Lemma agree_maps lm rm : NoDup lm.*1 → NoDup rm.*1 → length lm = length rm →
  forallb (λ name, match member name lm, member name rm with Some v, Some w => agree v w | _, _ => false end)
    (rangeKeys lm.*1) = true ↔
  forallb (λ c, shaped c.2) lm = true ∧ deepEqual (JObj (stripChildren lm)) (JObj (stripChildren rm)) = true.
Proof.
  intros Hl Hr Hlen. rewrite deepEqual_JObj by (by rewrite stripChildren_keys).
  assert (length (stripChildren lm) = length (stripChildren rm)) as Hlen' by (unfold stripChildren; by rewrite !length_map).
  rewrite !forallb_iff. split.
  - intros H. assert (∀ k v, (k, v) ∈ lm → ∃ w, member k rm = Some w ∧ agree v w = true) as H'.
    { intros k v Hin. specialize (H k). rewrite (Hrange lm.*1) in H.
      rewrite (proj2 (member_Some k lm v Hl) Hin) in H. specialize (H (list_elem_of_fmap_2 fst _ _ Hin)).
      destruct (member k rm) as [w|]; [eauto|done]. }
    split; [intros [k v] Hin; destruct (H' k v Hin) as (w & _ & [? _]%andb_prop); done|]. split; [done|].
    intros k v' Hin. unfold stripChildren in Hin. apply list_elem_of_fmap in Hin as ([k' v] & [= -> ->] & Hin).
    destruct (H' k' v Hin) as (w & Hw & [_ Ha]%andb_prop). exists (strip w). split; [|done].
    by rewrite member_stripChildren, Hw.
  - intros (Hs & _ & H) k Hk. rewrite (Hrange lm.*1) in Hk. apply list_elem_of_fmap in Hk as ([k' v] & -> & Hin).
    cbn [fst]. rewrite (proj2 (member_Some _ _ _ Hl) Hin). specialize (Hs _ Hin). cbn in Hs.
    destruct (H k' (strip v)) as (w' & Hw & He).
    { unfold stripChildren. apply list_elem_of_fmap. by exists (k', v). }
    rewrite member_stripChildren in Hw by done. apply fmap_Some in Hw as (w & -> & ->). unfold agree. by rewrite Hs, He.
Qed.

Section Deeper.
Context (compare : seenPairs → json → json → option seenPairs) (lm rm : list (string * json)) (d d' : Z).
Context (Hwl : wellFormed d (JObj lm)) (Hwr : wellFormed d' (JObj rm)).
(** The comparisons one level deeper. *)
Context (Hcompare : ∀ seen k v w v' w', (k, v) ∈ lm → (k, w) ∈ rm →
  (v' = v ∧ w' = w ∨ (∃ items, v = JArr items ∧ v' ∈ items) ∧ (∃ items, w = JArr items ∧ w' ∈ items) ∨
   (∃ name ms, v = JObj ms ∧ (name, v') ∈ ms) ∧ (∃ name ms, w = JObj ms ∧ (name, w') ∈ ms)) →
  compare seen v' w' = seenWhen (agree v' w') seen).

Lemma equalKeyword_agrees seen k v w : k ≠ "$ref" → (k, v) ∈ lm → (k, w) ∈ rm →
  equalKeyword compare lm rm seen k = seenWhen (agreeKeyword k v w) seen.
Proof.
  intros Hk Hv Hw. assert (NoDup lm.*1 ∧ NoDup rm.*1) as [Hnl Hnr].
  { by apply wellFormed_JObj in Hwl as (_ & ? & _), Hwr as (_ & ? & _). }
  unfold SchemaMatch.equalKeyword, agreeKeyword, shapedKeyword, stripKeyword.
  rewrite (proj2 (member_Some _ _ _ Hnl) Hv), (proj2 (member_Some _ _ _ Hnr) Hw).
  destruct (singleSchemaKeywords k).
  { rewrite bool_decide_eq_false_2 by done. apply (Hcompare _ k v w); auto. }
  destruct (schemaListKeywords k).
  { destruct v as [| | | |ls|]; try done. destruct w as [| | | |rs|]; try (by destruct (forallb shaped ls)).
    destruct (Nat.eqb_spec (length ls) (length rs)) as [Hlen|Hlen]; cbn [negb].
    - rewrite (allEqual_forallb _ (λ p, agree p.1 p.2)).
      + apply seenWhen_iff. by rewrite agree_lists, andb_true_iff.
      + intros [x y] Hin%list_elem_of_In. pose proof (in_combine_l _ _ _ _ Hin) as Hx%list_elem_of_In.
        pose proof (in_combine_r _ _ _ _ Hin) as Hy%list_elem_of_In. apply (Hcompare _ k _ _ x y Hv Hw). right; left. split; by eexists.
    - symmetry. unfold seenWhen. destruct (_ && _) eqn:E; [|done]. apply andb_prop in E as [_ E].
      apply deepEqual_JArr, Forall2_length in E. rewrite !length_map in E. done. }
  destruct (schemaMapKeywords k).
  { destruct v as [| | | | |ls]; try done. destruct w as [| | | | |rs]; try (by destruct (forallb _ ls)).
    pose proof (wellFormed_member _ _ _ _ Hwl Hv) as (_ & Hnls & _)%wellFormed_JObj.
    pose proof (wellFormed_member _ _ _ _ Hwr Hw) as (_ & Hnrs & _)%wellFormed_JObj.
    rewrite !goMap_NoDup by done.
    destruct (Nat.eqb_spec (length ls) (length rs)) as [Hlen|Hlen]; cbn [negb].
    - rewrite (allEqual_forallb _ (λ name, match member name ls, member name rs with Some x, Some y => agree x y | _, _ => false end)).
      + apply seenWhen_iff. by rewrite agree_maps, andb_true_iff.
      + intros name _. destruct (member name ls) as [x|] eqn:Ex; [|done]. destruct (member name rs) as [y|] eqn:Ey; [|done].
        apply (Hcompare _ k _ _ x y Hv Hw). right; right. split; eexists name, _; (split; [done|by apply member_Some]).
    - symmetry. unfold seenWhen. destruct (_ && _) eqn:E; [|done]. apply andb_prop in E as [_ E].
      apply deepEqual_JObj in E as [E _]; [|by rewrite stripChildren_keys..]. rewrite !length_map in E. done. }
  done.
Qed.
End Deeper.

(** The values compared inside a keyword are smaller and free of references too. *)
Lemma inside_keyword (P : json → Prop) v v' :
  (∀ ms k x, P (JObj ms) → (k, x) ∈ ms → P x) → (∀ items x, P (JArr items) → x ∈ items → P x) → P v →
  v' = v ∨ (∃ items, v = JArr items ∧ v' ∈ items) ∨ (∃ name ms, v = JObj ms ∧ (name, v') ∈ ms) → P v'.
Proof. intros Ho Ha Hv [->|[(items & -> & Hin)|(name & ms & -> & Hin)]]; eauto. Qed.

Definition comparable (n : nat) (t : json) : Prop := (∃ d, wellFormed d t) ∧ refFree t = true ∧ (height t ≤ n)%nat.

Lemma comparable_member n ms k v : comparable n (JObj ms) → (k, v) ∈ ms → k ≠ "$ref" ∧ comparable (Nat.pred n) v.
Proof.
  intros ([d Hwf] & Hr & Hh) Hin. destruct (refFree_JObj _ _ _ Hr Hin) as [Hk Hv]. split; [done|].
  pose proof (height_JObj _ _ _ Hin). split_and!; [|done|lia]. exists (d + 1). by eapply wellFormed_member.
Qed.
Lemma comparable_inside n v v' : comparable n v →
  v' = v ∨ (∃ items, v = JArr items ∧ v' ∈ items) ∨ (∃ name ms, v = JObj ms ∧ (name, v') ∈ ms) → comparable n v'.
Proof.
  apply inside_keyword; [intros ms k x ([d Hwf] & Hr & Hh) Hin|intros items x ([d Hwf] & Hr & Hh) Hin].
  - destruct (refFree_JObj _ _ _ Hr Hin) as [_ Hx]. pose proof (height_JObj _ _ _ Hin).
    split_and!; [|done|lia]. exists (d + 1). by eapply wellFormed_member.
  - pose proof (height_JArr _ _ Hin). split_and!; [|by eapply refFree_JArr|lia]. exists (d + 1). by eapply wellFormed_element.
Qed.

Lemma agree_objects lm rm : NoDup lm.*1 → NoDup rm.*1 →
  agree (JObj lm) (JObj rm) = sameKeywords (validatingKeywords lm) (validatingKeywords rm) &&
    forallb (λ k, match member k lm, member k rm with Some v, Some w => agreeKeyword k v w | _, _ => false end)
      (rangeKeys (validatingKeywords lm)).
Proof.
  intros Hl Hr. apply Bool.eq_iff_eq_true. unfold agree. rewrite !validatingKeywords_keys by done. unfold sameKeywords.
  rewrite !andb_true_iff, shaped_JObj, deepEqual_stripped by done. rewrite !forallb_iff, Nat.eqb_eq, !length_fmap.
  assert (∀ k v, (k, v) ∈ keywordsOf lm ↔ member k lm = Some v ∧ annotationKeywords k = false) as HL.
  { intros k v. by rewrite elem_of_keywordsOf, member_Some. }
  assert (∀ k v, (k, v) ∈ keywordsOf rm ↔ member k rm = Some v ∧ annotationKeywords k = false) as HR.
  { intros k v. by rewrite elem_of_keywordsOf, member_Some. }
  split.
  - intros (Hs & Hlen & H). split; [split; [done|]|].
    + intros k Hk. apply bool_decide_eq_true. apply list_elem_of_fmap in Hk as ([k' v] & -> & Hin).
      destruct (H k' v Hin) as (w & Hw & _). by apply (list_elem_of_fmap_2 fst _ (k', w)).
    + intros k Hk. rewrite (Hrange (keywordsOf lm).*1) in Hk. apply list_elem_of_fmap in Hk as ([k' v] & -> & Hin). cbn [fst].
      destruct (H k' v Hin) as (w & [Hw _]%HR & He). pose proof Hin as [Hv Ha]%HL. rewrite Hv, Hw. unfold agreeKeyword.
      rewrite He, andb_true_r. apply (Hs k' v); [by apply member_Some|done].
  - intros [[Hlen Hsub] H].
    assert (∀ k v, (k, v) ∈ keywordsOf lm → ∃ w, (k, w) ∈ keywordsOf rm ∧ agreeKeyword k v w = true) as HA.
    { intros k v Hin. specialize (H k). rewrite (Hrange (keywordsOf lm).*1) in H.
      specialize (H (list_elem_of_fmap_2 fst _ _ Hin)). pose proof Hin as [Hv Ha]%HL. rewrite Hv in H.
      destruct (member k rm) as [w|] eqn:Hw; [|done]. exists w. split; [by apply HR|done]. }
    split_and!.
    + intros k v Hin Ha. destruct (HA k v) as (w & _ & [? _]%andb_prop); [|done]. apply elem_of_keywordsOf. done.
    + done.
    + intros k v Hin. destruct (HA k v Hin) as (w & Hw & [_ ?]%andb_prop). eauto.
Qed.

Lemma equal_refFree ld rd n : ∀ seen l r, comparable n l → comparable n r →
  equal ld rd n seen l r = seenWhen (agree l r) seen.
Proof.
  induction n as [|n IH]; intros seen l r Hl Hr.
  { destruct Hl as (_ & _ & Hh). destruct l; cbn in Hh; lia. }
  cbn [SchemaMatch.equal]. rewrite !resolve_refFree by (by apply Hl || by apply Hr). cbn [mbind option_bind].
  rewrite !(bool_decide_eq_true_2 ("" = "")) by done. cbn [negb andb orb].
  destruct l as [| | | |la|lm]; try (unfold agree; cbn [shaped andb strip];
    destruct r as [| | | |ra|rm]; [..|rewrite strip_JObj]; done).
  destruct r as [| | | |ra|rm]; try (symmetry; unfold agree, seenWhen; rewrite strip_JObj; by rewrite andb_false_r).
  assert (NoDup lm.*1 ∧ NoDup rm.*1) as [Hnl Hnr].
  { destruct Hl as [[d Hwl] _], Hr as [[d' Hwr] _]. by apply wellFormed_JObj in Hwl as (_ & ? & _), Hwr as (_ & ? & _). }
  rewrite agree_objects by done. destruct (sameKeywords _ _) eqn:Hsame; cbn [negb andb]; [|done].
  apply allEqual_forallb. intros k Hk. rewrite (Hrange (validatingKeywords lm)), validatingKeywords_keys in Hk by done.
  apply list_elem_of_fmap in Hk as ([k' v] & -> & Hin). cbn [fst]. pose proof Hin as [Hv Ha]%elem_of_keywordsOf.
  unfold sameKeywords in Hsame. apply andb_prop in Hsame as [_ Hsub]. rewrite forallb_iff in Hsub. specialize (Hsub k').
  rewrite !validatingKeywords_keys, bool_decide_eq_true in Hsub by done.
  specialize (Hsub (list_elem_of_fmap_2 fst _ _ Hin)). apply list_elem_of_fmap in Hsub as ([k2 w] & E & Hw). cbn in E; subst k2.
  apply elem_of_keywordsOf in Hw as [Hw _].
  rewrite (proj2 (member_Some _ _ _ Hnl) Hv), (proj2 (member_Some _ _ _ Hnr) Hw).
  destruct Hl as [[d Hwl] Hl], Hr as [[d' Hwr] Hr].
  eapply (equalKeyword_agrees _ lm rm d d' Hwl Hwr); [|by eapply comparable_member; [by split; [eexists|]|]|done|done].
  intros seen1 k1 v1 w1 v2 w2 H1 H2 Hcases.
  apply comparable_member with (n := S n) in H1 as [_ H1]; [|by split; [eexists|]].
  apply comparable_member with (n := S n) in H2 as [_ H2]; [|by split; [eexists|]].
  apply IH; [eapply comparable_inside; [exact H1|]|eapply comparable_inside; [exact H2|]];
    destruct Hcases as [[-> ->]|[[? ?]|[? ?]]]; auto.
Qed.
End RefFree.

(** ** Outcome lists *)

(** The schema of one outcome around the schema of an item's value. *)
Definition outcomeSchema (value : json) : json :=
  JObj [("oneOf", JArr
    [JObj [("type", JStr "object");
           ("required", JArr [JStr "status"; JStr "value"]); ("additionalProperties", JBool false);
           ("properties", JObj [("status", JObj [("const", JStr "succeeded"); ("type", JStr "string")]); ("value", value)])];
     JObj [("type", JStr "object");
           ("properties", JObj
             [("failure", JObj
                [("additionalProperties", JBool false);
                 ("properties", JObj
                   [("attempts", JObj [("minimum", JNum "1"); ("type", JStr "integer")]);
                    ("diagnostic", JObj [("maxLength", JNum "1024"); ("type", JStr "string")]);
                    ("kind", JObj [("enum", JArr [JStr "error"; JStr "killed"; JStr "non-retryable"; JStr "timeout"]);
                                   ("type", JStr "string")])]);
                 ("required", JArr [JStr "attempts"; JStr "diagnostic"; JStr "kind"]); ("type", JStr "object")]);
              ("status", JObj [("const", JStr "failed"); ("type", JStr "string")])]);
           ("required", JArr [JStr "failure"; JStr "status"]); ("additionalProperties", JBool false)]])].

Definition withoutDefinitions (t : json) : json :=
  match t with
  | JObj ms => match member "$defs" ms with
      | Some _ => JObj (List.filter (λ kv, negb (bool_decide (kv.1 = "$defs"))) ms) | None => t end
  | _ => t
  end.

Lemma outcome_decodes : ∃ outcome, decodeSchemaTree mapItemOutcomeSchemaJSON = Some outcome ∧
  ∀ value, withValue value outcome = Some (outcomeSchema value).
Proof.
  eexists. split; [vm_compute; reflexivity|]. intros value. vm_compute. reflexivity.
Qed.

Lemma expected_items itemOutputSchema i : decodeSchemaTree itemOutputSchema = Some i →
  ∃ expected, expectedOutcomeList itemOutputSchema = Some expected ∧
    childOf "items" expected = Some (outcomeSchema (withoutDefinitions i)).
Proof.
  intros Hi. destruct outcome_decodes as (outcome & Ho & Hv). unfold expectedOutcomeList. rewrite Hi, Ho.
  cbn [mbind option_bind]. unfold withoutDefinitions.
  destruct i as [| | | | |ms]; try (rewrite Hv; eexists; split; [reflexivity|reflexivity]).
  destruct (member "$defs" ms); rewrite Hv; eexists; (split; [reflexivity|reflexivity]).
Qed.

Lemma strip_withoutDefinitions i : strip (withoutDefinitions i) = strip i.
Proof.
  unfold withoutDefinitions. destruct i as [| | | | |ms]; try done. destruct (member "$defs" ms); [|done].
  rewrite !strip_JObj. f_equal. unfold stripMembers. f_equal. induction ms as [|[k v] ms IH]; [done|].
  cbn [List.filter fst]. case_bool_decide as E; cbn [negb List.filter fst].
  - subst k. change (annotationKeywords "$defs") with true. cbn [negb]. done.
  - by rewrite IH.
Qed.

Lemma strip_outcomeSchema v : strip (outcomeSchema v) = outcomeSchema (strip v).
Proof. reflexivity. Qed.

Lemma refFree_outcomeSchema v : refFree (outcomeSchema v) = refFree v.
Proof. unfold outcomeSchema. cbn. by rewrite !andb_true_r. Qed.

Lemma height_outcomeSchema v : (height (outcomeSchema v) ≤ Nat.max 9 (height v + 4))%nat.
Proof. unfold outcomeSchema. cbn. lia. Qed.

Lemma number_wellFormed d z : wellFormed d (JNum (itoa z)).
Proof. apply itoa_numberToken. Qed.

Ltac well_formed :=
  repeat match goal with
  | |- wellFormed _ (JObj _) =>
      apply wellFormed_JObj; split; [unfold maxNestingDepth; lia|split; [apply (bool_decide_unpack _); vm_compute; exact I|]]
  | |- wellFormed _ (JArr _) => apply wellFormed_JArr; split; [unfold maxNestingDepth; lia|]
  | |- wellFormed _ (JNum "1") => apply (number_wellFormed _ 1)
  | |- wellFormed _ (JNum "1024") => apply (number_wellFormed _ 1024)
  | |- wellFormed _ (JStr _) => done
  | |- wellFormed _ (JBool _) => done
  | |- Forall _ [] => constructor
  | |- Forall _ (_ :: _) => constructor
  | |- _ ∧ _ => split; [done|]; cbn [snd]
  end.

Lemma wellFormed_outcomeSchema d v : d <= 0 → wellFormed d v → wellFormed (d - 4) (outcomeSchema v).
Proof.
  intros Hd Hv. unfold outcomeSchema. well_formed. by replace (d - 4 + 1 + 1 + 1 + 1) with d by lia.
Qed.

Lemma comparable_outcomeSchema v : comparable 253 v → comparable 257 (outcomeSchema v).
Proof.
  intros ([d Hd] & Hr & Hh). split_and!.
  - exists (Z.min d 0 - 4). apply wellFormed_outcomeSchema; [lia|]. eapply wellFormed_mono; [exact Hd|lia].
  - by rewrite refFree_outcomeSchema.
  - pose proof (height_outcomeSchema v). lia.
Qed.

Lemma comparable_withoutDefinitions n t : comparable n t → comparable n (withoutDefinitions t).
Proof.
  intros Hc. unfold withoutDefinitions. destruct t as [| | | | |ms]; try done. destruct (member "$defs" ms); [|done].
  destruct Hc as ([d (Hd & Hnd & HF)%wellFormed_JObj] & Hr & Hh). set (f := λ kv : string * json, negb (bool_decide (kv.1 = "$defs"))).
  assert (∀ kv, kv ∈ List.filter f ms → kv ∈ ms) as Hsub.
  { intros kv. rewrite !list_elem_of_In, filter_In. tauto. }
  split_and!.
  - exists d. apply wellFormed_JObj. split_and!; [done| |].
    + clear -Hnd. induction ms as [|[k v] ms IH]; [constructor|]. cbn [fmap list_fmap fst] in Hnd.
      apply NoDup_cons in Hnd as [Hn Hnd]. cbn [List.filter]. destruct (f (k, v)); [|by apply IH].
      cbn [fmap list_fmap fst]. apply NoDup_cons. split; [|by apply IH].
      intros ([k' v'] & -> & Hin)%list_elem_of_fmap. apply Hn. apply list_elem_of_In, filter_In in Hin as [Hin _].
      apply list_elem_of_In in Hin. by apply (list_elem_of_fmap_2 fst _ (k', v')).
    + apply Forall_forall. intros kv Hin. apply (proj1 (Forall_forall _ _) HF). by apply Hsub.
  - cbn [refFree] in *. rewrite forallb_iff in *. intros kv Hin. apply Hr. by apply Hsub.
  - cbn [height] in *. enough (max_list (map (λ kv, height kv.2) (List.filter f ms)) ≤ max_list (map (λ kv, height kv.2) ms))%nat by lia.
    clear. induction ms as [|kv ms IH]; [done|]. cbn [List.filter]. destruct (f kv); cbn [map max_list foldr]; lia.
Qed.

Lemma childOf_comparable n k t c : comparable n t → childOf k t = Some c → comparable n c.
Proof.
  intros Hc Hk. destruct t as [| | | | |ms]; try done. pose proof Hc as ([d Hwf] & _ & _).
  apply wellFormed_JObj in Hwf as (_ & Hnd & _). cbn [childOf] in Hk. apply (member_Some _ _ _ Hnd) in Hk.
  apply (comparable_member n ms k c Hc) in Hk as (_ & ? & ? & ?). split_and!; [done|done|lia].
Qed.

(** C26: without references, the schema of a map that collects failures is accepted exactly
    when it is an array whose items are the outcome schema around the item schema, up to
    annotations and the order of members; the order Go ranges over maps does not matter. *)
Theorem MapOutcomeListSchemaMatches_spec (isUsableJSONSchema : string → bool) (rangeKeys : list string → list string)
    outputSchema itemOutputSchema output item :
  (∀ keys, rangeKeys keys ≡ₚ keys) →
  isUsableJSONSchema outputSchema = true → isUsableJSONSchema itemOutputSchema = true →
  decodeSchemaTree outputSchema = Some output → decodeSchemaTree itemOutputSchema = Some item →
  comparable 257 output → comparable 253 item →
  MapOutcomeListSchemaMatches isUsableJSONSchema rangeKeys outputSchema itemOutputSchema = true ↔
  ∃ items, childOf "type" output = Some (JStr "array") ∧ childOf "items" output = Some items ∧
    shaped items = true ∧ deepEqual (strip items) (outcomeSchema (strip item)) = true.
Proof.
  intros Hrange Hu1 Hu2 Ho Hi Hco Hci. unfold MapOutcomeListSchemaMatches. rewrite Hu1, Hu2, Ho. cbn [negb orb mbind option_bind].
  destruct (expected_items _ _ Hi) as (expected & He & Hchild).
  destruct (childOf "type" output) as [type|]; [|split; [done|by intros (? & ? & _)]]. cbn [mbind option_bind].
  destruct (childOf "items" output) as [items|] eqn:Hit; [|split; [done|by intros (? & _ & ? & _)]]. cbn [mbind option_bind].
  assert (deepEqual type (JStr "array") = true ↔ type = JStr "array") as Htype.
  { destruct type; cbn; try done. rewrite bool_decide_eq_true. split; congruence. }
  destruct (deepEqual type (JStr "array")) eqn:Et; cbn [negb orb].
  2:{ split; [done|]. intros (? & [= ->] & _). by destruct Htype as [_ Htype]; specialize (Htype eq_refl). }
  pose proof (proj1 Htype eq_refl) as ->.
  destruct (deepEqual items JNull) eqn:En.
  { split; [done|]. intros (items' & _ & [= ->] & _ & H). by destruct items'. }
  rewrite He. cbn [mbind option_bind]. rewrite Hchild. cbn [mbind option_bind]. unfold schemasEqual.
  rewrite equal_refFree; [|done| |].
  - unfold seenWhen, agree. rewrite strip_outcomeSchema, strip_withoutDefinitions.
    destruct (shaped items && deepEqual (strip items) (outcomeSchema (strip item))) eqn:E.
    + split; [intros _|done]. exists items. apply andb_prop in E as [? ?]. done.
    + split; [done|]. intros (items' & _ & [= <-] & Hs & Hd). by rewrite Hs, Hd in E.
  - by eapply childOf_comparable.
  - by apply comparable_outcomeSchema, comparable_withoutDefinitions.
Qed.

(** The schemas of a map over strings that collects failures, the members of an outcome in
    another order, with a title. *)
Definition stringSchema : string := jsonText "{'type':'string','title':'Item'}".
Definition outcomesSchema : string := jsonText
  "{'items':{'oneOf':[{'properties':{'value':{'type':'string'},'status':{'type':'string','const':'succeeded'}},'required':['status','value'],'additionalProperties':false,'type':'object'},{'title':'Failed','type':'object','properties':{'failure':{'type':'object','properties':{'attempts':{'minimum':1,'type':'integer'},'diagnostic':{'maxLength':1024,'type':'string'},'kind':{'enum':['error','killed','non-retryable','timeout'],'type':'string'}},'required':['attempts','diagnostic','kind'],'additionalProperties':false},'status':{'const':'failed','type':'string'}},'required':['failure','status'],'additionalProperties':false}]},'type':'array'}".

Lemma MapOutcomeListSchemaMatches_spec_witness :
  MapOutcomeListSchemaMatches (λ _, true) (λ keys, reverse keys) outcomesSchema stringSchema = true.
Proof.
  assert (∃ output, decodeSchemaTree outcomesSchema = Some output) as [output Ho] by (eexists; vm_compute; reflexivity).
  assert (∃ item, decodeSchemaTree stringSchema = Some item) as [item Hi] by (eexists; vm_compute; reflexivity).
  pose proof Ho as Ho'. vm_compute in Ho'. injection Ho' as Ho'. pose proof Hi as Hi'. vm_compute in Hi'. injection Hi' as Hi'.
  apply (MapOutcomeListSchemaMatches_spec (λ _, true) (λ keys, reverse keys) outcomesSchema stringSchema output item).
  - intros keys. apply reverse_Permutation.
  - reflexivity.
  - reflexivity.
  - exact Ho.
  - exact Hi.
  - clear Ho Hi. subst output. split_and!; [exists 0; well_formed|reflexivity|apply (Nat.leb_le _ _); vm_compute; reflexivity].
  - clear Ho Hi. subst item. split_and!; [exists 0; well_formed|reflexivity|apply (Nat.leb_le _ _); vm_compute; reflexivity].
  - clear Ho Hi. subst output item. eexists. split; [reflexivity|]. split; [reflexivity|]. split; vm_compute; reflexivity.
Defined.
