(* ===== verification/SchemaClosure.v ===== *)
(** * The definitions an item schema carries

    [localDefinitionClosure] visits definitions by name until its queue is empty.  It ends
    within the turns its model allows, and what it gathers is the definitions the root schema
    needs: those reachable from it by references, without going through the root itself. *)

From S2P Require Import Prelude Utf16 Text Json Canonical CanonicalText CanonicalForm Encode SchemaMatch.
#[local] Open Scope Z_scope.

Lemma member_goMap {A} name (ms : list (string * A)) v : member name ms = Some v ↔ (name, v) ∈ goMap ms.
Proof.
  assert (∀ ms : list (string * A), member name ms = None ↔ name ∉ ms.*1) as Hnone.
  { clear. induction ms as [|[n v] ms IH]; [by split; [intros _ ?%elem_of_nil|]|]. cbn [member fmap list_fmap fst].
    rewrite not_elem_of_cons. destruct (member name ms); [split; [done|intros [_ H]; by apply IH in H]|].
    case_bool_decide as E; [split; [done|intros [Hne _]; congruence]|]. split; [|done]. intros _. split; [congruence|by apply IH]. }
  induction ms as [|[n w] ms IH]; [by split; [|intros ?%elem_of_nil]|]. cbn [member goMap].
  destruct (member name ms) as [u|] eqn:E.
  - case_bool_decide as Hin; [done|]. rewrite elem_of_cons, <- IH. split; [by right|]. intros [[= <- <-]|?]; [|done].
    apply Hnone in Hin. congruence.
  - pose proof (proj1 (Hnone ms) E) as Hn. case_bool_decide as E2.
    + subst n. rewrite bool_decide_eq_false_2 by done. rewrite elem_of_cons, <- IH. naive_solver.
    + case_bool_decide; [by rewrite <- IH|]. rewrite elem_of_cons, <- IH. naive_solver.
Qed.

Lemma goMap_keys {A} (ms : list (string * A)) : NoDup (goMap ms).*1.
Proof.
  assert (∀ (ms : list (string * A)) n, n ∈ (goMap ms).*1 → n ∈ ms.*1) as Hsub.
  { clear. induction ms as [|[n v] ms IH]; intros k; [done|]. cbn [goMap]. case_bool_decide; cbn [fmap list_fmap fst]; set_solver. }
  induction ms as [|[n v] ms IH]; [constructor|]. cbn [goMap]. case_bool_decide as E; [done|]. cbn [fmap list_fmap fst].
  apply NoDup_cons. split; [|done]. intros H%Hsub. done.
Qed.

Section Closure.
Context (rootName : string) (rootSchema : json) (definitions : list (string * json)).

Definition dependenciesOf (name : string) : option (list string) :=
  definition ← member name definitions; localDefinitionReferences definition.

(** The names reached from the root schema; the root's own definition is not followed. *)
Inductive needed : string → Prop :=
  | needed_root refs name : localDefinitionReferences rootSchema = Some refs → name ∈ refs → needed name
  | needed_definition from refs name :
      needed from → from ≠ rootName → dependenciesOf from = Some refs → name ∈ refs → needed name.

(** A reference of the root schema, or of a definition already gathered. *)
Definition next (names : list string) (name : string) : Prop :=
  (∃ refs, localDefinitionReferences rootSchema = Some refs ∧ name ∈ refs) ∨
  (∃ from refs, from ∈ names ∧ dependenciesOf from = Some refs ∧ name ∈ refs).
Definition done_ (st : closureState) (name : string) : Prop :=
  (name = rootName ∧ cl_recursive st = true) ∨ name ∈ (cl_closure st).*1.

Record visiting (st : closureState) : Prop := {
  vs_names : NoDup (cl_closure st).*1;
  vs_sound : ∀ n d, (n, d) ∈ cl_closure st →
    needed n ∧ n ≠ rootName ∧ member n definitions = Some d ∧ is_Some (dependenciesOf n);
  vs_queued : ∀ n, n ∈ cl_queued st → needed n;
  vs_recursive : cl_recursive st = true → needed rootName;
  vs_next : ∀ n, next (cl_closure st).*1 n → done_ st n ∨ n ∈ cl_queued st;
}.

(** The turns the definitions not yet gathered may add. *)
Definition pending (names : list string) : nat :=
  sum_list_with (λ d, if bool_decide (d.1 ∈ names) then O else length (default [] (localDefinitionReferences d.2)))
    (goMap definitions).

Lemma pending_gather names name refs : name ∉ names → dependenciesOf name = Some refs →
  (length refs + pending (names ++ [name]) ≤ pending names)%nat.
Proof.
  intros Hn Hd. unfold dependenciesOf in Hd. destruct (member name definitions) as [d|] eqn:Em; [|done].
  cbn [mbind option_bind] in Hd. apply member_goMap in Em. pose proof (goMap_keys definitions) as Hnd. unfold pending.
  induction (goMap definitions) as [|[k v] l IH]; [by apply elem_of_nil in Em|].
  cbn [fmap list_fmap fst] in Hnd. apply NoDup_cons in Hnd as [Hk Hnd]. cbn [sum_list_with fst snd].
  assert (∀ l : list (string * json), name ∉ l.*1 →
    sum_list_with (λ d, if bool_decide (d.1 ∈ names ++ [name]) then O else length (default [] (localDefinitionReferences d.2))) l =
    sum_list_with (λ d, if bool_decide (d.1 ∈ names) then O else length (default [] (localDefinitionReferences d.2))) l) as Hsame.
  { clear. induction l as [|[k v] l IH]; [done|]. cbn [fmap list_fmap fst sum_list_with snd].
    intros [Hk Hl]%not_elem_of_cons. rewrite (IH Hl). f_equal.
    rewrite (bool_decide_ext (k ∈ names ++ [name]) (k ∈ names)); [done|set_solver]. }
  apply elem_of_cons in Em as [[= <- <-]|Em].
  - rewrite Hsame by done. rewrite bool_decide_eq_true_2 by set_solver. rewrite bool_decide_eq_false_2 by done.
    rewrite Hd. cbn [from_option]. unfold id. lia.
  - specialize (IH Em Hnd). assert (k ≠ name) as Hne.
    { intros ->. apply Hk. by apply (list_elem_of_fmap_2 fst _ (name, d)). }
    rewrite (bool_decide_ext (k ∈ names ++ [name]) (k ∈ names)) by set_solver. lia.
Qed.

Lemma enqueue_all dependencies : ∀ st, foldl (enqueueDependency rootName) st dependencies =
  {| cl_closure := cl_closure st;
     cl_queued := cl_queued st ++ filter (λ k, k ≠ rootName ∧ k ∉ (cl_closure st).*1) dependencies;
     cl_recursive := cl_recursive st || bool_decide (rootName ∈ dependencies) |}.
Proof.
  induction dependencies as [|k l IH]; intros [c q r].
  { cbn. by rewrite app_nil_r, orb_false_r. }
  cbn [foldl]. rewrite IH. clear IH. unfold enqueueDependency. cbn [cl_closure cl_queued cl_recursive]. rewrite filter_cons.
  destruct (decide (k = rootName)) as [->|E1]; [|destruct (decide (k ∈ c.*1)) as [E2|E2]].
  - rewrite (bool_decide_eq_true_2 (rootName = rootName)), decide_False by tauto. cbn [cl_closure cl_queued cl_recursive].
    by rewrite (bool_decide_eq_true_2 (rootName ∈ rootName :: l)), orb_true_r by left.
  - rewrite (bool_decide_eq_false_2 (k = rootName)), (bool_decide_eq_true_2 (k ∈ c.*1)), decide_False by tauto.
    cbn [cl_closure cl_queued cl_recursive]. by rewrite (bool_decide_ext (rootName ∈ k :: l) (rootName ∈ l)) by set_solver.
  - rewrite (bool_decide_eq_false_2 (k = rootName)), (bool_decide_eq_false_2 (k ∈ c.*1)), decide_True by tauto.
    cbn [cl_closure cl_queued cl_recursive]. rewrite (bool_decide_ext (rootName ∈ k :: l) (rootName ∈ l)) by set_solver.
    by rewrite <- app_assoc.
Qed.

Lemma visiting_step st name queued : visiting st → cl_queued st = name :: queued →
  match closureStep rootName definitions st name queued with
  | Some st' => visiting st' ∧
      (length (cl_queued st') + pending (cl_closure st').*1 ≤ length queued + pending (cl_closure st).*1)%nat
  | None => name ≠ rootName ∧ needed name ∧ dependenciesOf name = None
  end.
Proof.
  intros [Hnd Hsound Hq Hrec Hnext] Eq. unfold closureStep. rewrite Eq in Hq, Hnext.
  assert (needed name) as Hneed by (apply Hq; left).
  case_bool_decide as E1; [subst name|case_bool_decide as E2].
  - split; [|done]. split; cbn [cl_closure cl_queued cl_recursive]; [done|done|set_solver|done|].
    intros n Hn%Hnext. unfold done_ in *. cbn [cl_closure cl_recursive] in *. set_solver.
  - split; [|done]. split; cbn [cl_closure cl_queued cl_recursive]; [done|done|set_solver|done|].
    intros n Hn%Hnext. unfold done_ in *. cbn [cl_closure cl_recursive] in *. set_solver.
  - destruct (member name definitions) as [d|] eqn:Ed; cbn [mbind option_bind];
      [|by split_and!; [| |unfold dependenciesOf; rewrite Ed]].
    destruct (localDefinitionReferences d) as [refs|] eqn:Er; cbn [mbind option_bind];
      [|by split_and!; [| |unfold dependenciesOf; rewrite Ed]].
    assert (dependenciesOf name = Some refs) as Hdep by (unfold dependenciesOf; by rewrite Ed).
    rewrite enqueue_all. cbn [cl_closure cl_queued cl_recursive].
    assert (∀ l : list (string * json), (l ++ [(name, d)]).*1 = l.*1 ++ [name]) as Hkeys by (intros l; by rewrite fmap_app).
    split.
    2:{ rewrite !Hkeys, (Permutation_length (sortUTF16_Permutation _)), length_app.
        pose proof (pending_gather _ _ _ E2 Hdep). pose proof (length_filter (λ k, k ≠ rootName ∧ k ∉ ((cl_closure st).*1 ++ [name])) refs). lia. }
    split; cbn [cl_closure cl_queued cl_recursive]; rewrite ?Hkeys.
    + apply NoDup_app. split_and!; [done|set_solver|apply NoDup_singleton].
    + intros n d' [Hin|[= -> ->]%list_elem_of_singleton]%elem_of_app; [by apply Hsound|]. split_and!; [done..|]. by rewrite Hdep.
    + intros n [Hn|[_ Hn]%list_elem_of_filter]%elem_of_sortUTF16%elem_of_app; [apply Hq; by right|].
      by apply (needed_definition name refs).
    + intros [H|H%bool_decide_eq_true]%orb_prop; [by apply Hrec|]. by apply (needed_definition name refs).
    + intros n Hn. rewrite elem_of_sortUTF16, elem_of_app, list_elem_of_filter. unfold done_. cbn [cl_closure cl_recursive].
      rewrite Hkeys, orb_true_iff, bool_decide_eq_true.
      destruct (decide (n ∈ (cl_closure st).*1 ++ [name])) as [|Hnot]; [by left; right|].
      assert (next (cl_closure st).*1 n ∨ n ∈ refs) as [Hn'|Hn'].
      { destruct Hn as [Hn|(from & refs' & [Hin| ->%list_elem_of_singleton]%elem_of_app & Hd' & Hr)]; [by left; left|left; right; eauto|].
        right. congruence. }
      * apply Hnext in Hn' as [[[-> ?]|?]|[->|?]%elem_of_cons]; set_solver.
      * destruct (decide (n = rootName)) as [->|]; [left; left; auto|right; right; auto].
Qed.

Lemma closureLoop_spec fuel : ∀ st, visiting st → (length (cl_queued st) + pending (cl_closure st).*1 ≤ fuel)%nat →
  match closureLoop fuel rootName definitions st with
  | Some st' => visiting st' ∧ cl_queued st' = []
  | None => ∃ name, name ≠ rootName ∧ needed name ∧ dependenciesOf name = None
  end.
Proof.
  induction fuel as [|fuel IH]; intros st Hv Hf; cbn [closureLoop]; destruct (cl_queued st) as [|name queued] eqn:Eq; [done| |done|].
  { cbn in Hf. lia. }
  pose proof (visiting_step st name queued Hv Eq) as Hs.
  destruct (closureStep rootName definitions st name queued) as [st'|]; cbn [mbind option_bind]; [|eauto].
  destruct Hs as [Hv' Hf']. apply IH; [done|]. cbn in Hf. lia.
Qed.

(** C27: the loop ends within its fuel.  It fails exactly when a needed definition is missing
    or refers to something that is no definition of the document; otherwise the closure is the
    needed definitions but the root's, and the root is recursive exactly when it is needed. *)
Theorem localDefinitionClosure_reachable :
  match localDefinitionClosure rootName rootSchema definitions with
  | Some (closure, recursive) =>
      is_Some (localDefinitionReferences rootSchema) ∧ NoDup closure.*1 ∧
      (∀ n d, (n, d) ∈ closure ↔ needed n ∧ n ≠ rootName ∧ member n definitions = Some d) ∧
      (∀ n, needed n → n ≠ rootName → is_Some (dependenciesOf n)) ∧
      (recursive = true ↔ needed rootName)
  | None => localDefinitionReferences rootSchema = None ∨
      ∃ n, needed n ∧ n ≠ rootName ∧ dependenciesOf n = None
  end.
Proof.
  unfold localDefinitionClosure. destruct (localDefinitionReferences rootSchema) as [refs|] eqn:Er; cbn [mbind option_bind]; [|by left].
  pose proof (closureLoop_spec (length refs + closureFuel definitions)
    {| cl_closure := []; cl_queued := refs; cl_recursive := false |}) as Hl.
  destruct (closureLoop _ _ _ _) as [st|]; cbn [mbind option_bind].
  2:{ right. destruct Hl as (n & ? & ? & ?); [| |by exists n].
      - split; cbn [cl_closure cl_queued cl_recursive]; [constructor|set_solver|intros n Hn; by eapply needed_root|done|].
        intros n [(r & ? & ?)|(? & ? & ?%elem_of_nil & _)]; [|done]. right. congruence.
      - cbn. done. }
  destruct Hl as [[Hnd Hsound _ Hrec Hnext] Hempty].
  { split; cbn [cl_closure cl_queued cl_recursive]; [constructor|set_solver|intros n Hn; by eapply needed_root|done|].
    intros n [(r & ? & ?)|(? & ? & ?%elem_of_nil & _)]; [|done]. right. congruence. }
  { cbn. done. }
  rewrite Hempty in Hnext. assert (∀ n, needed n → done_ st n) as Hall.
  { induction 1 as [r n Hr Hin|from r n _ IH Hne Hd Hin].
    - destruct (Hnext n) as [?|?%elem_of_nil]; [left; eauto|done|done].
    - destruct IH as [[? _]|IH]; [done|]. destruct (Hnext n) as [?|?%elem_of_nil]; [right; eauto|done|done]. }
  split_and!; [done|done| | |].
  - intros n d. split; [intros H; by destruct (Hsound _ _ H) as (? & ? & ? & _)|]. intros (Hn & Hne & Hm).
    destruct (Hall n Hn) as [[? _]|([n' d'] & -> & Hin)%list_elem_of_fmap]; [done|]. cbn [fst] in *.
    destruct (Hsound _ _ Hin) as (_ & _ & Hm' & _). congruence.
  - intros n Hn Hne. destruct (Hall n Hn) as [[? _]|([n' d'] & -> & Hin)%list_elem_of_fmap]; [done|]. by destruct (Hsound _ _ Hin) as (_ & _ & _ & ?).
  - split; [done|]. intros H. destruct (Hall _ H) as [[_ ?]|([n' d'] & E & Hin)%list_elem_of_fmap]; [done|]. cbn [fst] in E.
    by destruct (Hsound _ _ Hin) as (_ & ? & _).
Qed.
End Closure.

(** ** Chains of references *)

(** A chain stops at a reference it has followed before, and each comes from an object of the
    document: [treeSize] turns and two are enough. *)
Fixpoint subtrees (t : json) : list json :=
  t :: match t with
       | JArr items => flat_map subtrees items
       | JObj ms => flat_map (λ kv, subtrees kv.2) ms
       | _ => []
       end.

Lemma subtrees_length t : length (subtrees t) = treeSize t.
Proof.
  induction t as [| | | |items IH|ms IH] using json_nested_ind; try done; cbn [subtrees treeSize length]; f_equal.
  - induction IH as [|x items Hx _ IH]; [done|]. cbn [flat_map]. by rewrite length_app, Hx, IH.
  - induction IH as [|kv ms Hx _ IH]; [done|]. cbn [flat_map]. by rewrite length_app, Hx, IH.
Qed.

Lemma subtrees_self t : t ∈ subtrees t.
Proof. destruct t; left. Qed.

Lemma subtrees_trans t : ∀ x y, x ∈ subtrees t → y ∈ subtrees x → y ∈ subtrees t.
Proof.
  induction t as [| | | |items IH|ms IH] using json_nested_ind; intros x y Hx Hy; cbn [subtrees] in Hx;
    apply elem_of_cons in Hx as [->|Hx]; try done; try by apply elem_of_nil in Hx.
  - apply elem_of_flat_map in Hx as (i & Hi & Hx). cbn [subtrees]. right. apply elem_of_flat_map. exists i. split; [done|].
    by apply (proj1 (Forall_forall _ _) IH i Hi x).
  - apply elem_of_flat_map in Hx as (i & Hi & Hx). cbn [subtrees]. right. apply elem_of_flat_map. exists i. split; [done|].
    by apply (proj1 (Forall_forall _ _) IH i Hi x).
Qed.

Lemma subtrees_member ms name v : member name ms = Some v → v ∈ subtrees (JObj ms).
Proof.
  intros Hm. cbn [subtrees]. right. apply elem_of_flat_map. apply member_goMap in Hm. exists (name, v). split; [|apply subtrees_self].
  clear -Hm. induction ms as [|[k w] ms IH]; [done|]. cbn [goMap] in Hm. case_bool_decide; [right; by apply IH|].
  apply elem_of_cons in Hm as [->|Hm]; [left|right; by apply IH].
Qed.

Lemma followTokens_subtree tokens : ∀ t v, followTokens t tokens = Some v → v ∈ subtrees t.
Proof.
  induction tokens as [|token tokens IH]; intros t v; cbn [followTokens]; [intros [= ->]; apply subtrees_self|].
  destruct (decodeJSONPointerToken token) as [tok|]; cbn [mbind option_bind]; [|done].
  destruct t as [| | | |items|ms]; cbn [rawObject]; try done.
  - unfold arrayElement. destruct (isJSONPointerArrayIndex tok); [|done]. case_match; [|done].
    destruct (items !! _) as [x|] eqn:E; cbn [mbind option_bind]; [|done]. intros Hv%IH. cbn [subtrees]. right.
    apply elem_of_flat_map. exists x. split; [by eapply list_elem_of_lookup_2|done].
  - destruct (member tok ms) as [x|] eqn:E; cbn [mbind option_bind]; [|done]. intros Hv%IH.
    apply subtrees_member in E. by eapply subtrees_trans.
Qed.

Lemma resolveLocalJSONPointer_subtree document reference v :
  resolveLocalJSONPointer document reference = Some v → v ∈ subtrees document.
Proof.
  unfold resolveLocalJSONPointer. destruct (localFragment reference) as [f|]; cbn [mbind option_bind]; [|done].
  case_bool_decide; [intros [= ->]; apply subtrees_self|]. destruct (pointerTokens f); cbn [mbind option_bind]; [|done].
  apply followTokens_subtree.
Qed.

Definition referenceOf (t : json) : option string := object ← rawObject t; reference ← member "$ref" object; rawString reference.

Lemma resolveReferences_fuel document value extra fuel : ∀ resolved seen,
  NoDup seen → seen ⊆ omap referenceOf (value :: subtrees document) → resolved ∈ value :: subtrees document →
  (fuel + length seen = S (S (treeSize document)))%nat →
  resolveReferences (fuel + extra) document resolved seen = resolveReferences fuel document resolved seen.
Proof.
  induction fuel as [|fuel IH]; intros resolved seen Hnd Hsub Hr Hf; cbn [Nat.add resolveReferences].
  { exfalso. pose proof (submseteq_length _ _ (NoDup_submseteq _ _ Hnd Hsub)) as Hl.
    assert (∀ l : list json, length (omap referenceOf l) ≤ length l)%nat as Hom.
    { induction l as [|x l IHl]; [done|]. cbn [omap list_omap]. destruct (referenceOf x); cbn [length]; lia. }
    specialize (Hom (value :: subtrees document)). cbn [length] in Hom. rewrite subtrees_length in Hom. lia. }
  destruct (rawObject resolved) as [object|] eqn:Eo; [|done]. destruct (member "$ref" object) as [rv|] eqn:Em; [|done].
  destruct (negb _); [done|]. destruct (rawString rv) as [reference|] eqn:Es; cbn [mbind option_bind]; [|done].
  case_bool_decide; [done|]. destruct (resolveLocalJSONPointer document reference) as [target|] eqn:Et; cbn [mbind option_bind]; [|done].
  apply IH; [by constructor| |right; by eapply resolveLocalJSONPointer_subtree|cbn [length]; lia].
  intros r [->|Hin]%elem_of_cons; [|by apply Hsub]. apply list_elem_of_omap. exists resolved. split; [done|].
  unfold referenceOf. rewrite Eo. cbn [mbind option_bind]. by rewrite Em.
Qed.

Lemma resolveLocalJSONReference_total document value fuel : (S (S (treeSize document)) ≤ fuel)%nat →
  resolveReferences fuel document value [] = resolveLocalJSONReference document value.
Proof.
  intros Hf. unfold resolveLocalJSONReference. replace fuel with (S (S (treeSize document)) + (fuel - S (S (treeSize document))))%nat by lia.
  apply (resolveReferences_fuel _ value); [constructor|set_solver|left|cbn [length]; lia].
Qed.
