(* ===== verification/FileSys.v ===== *)
(** * A file system, and programs that call it

    The part of Go's [os] package that [datastore/local.go] uses: an [os.Root], whose paths
    are lists of names below it.  A program is a tree of calls, so that one definition of an
    operation can be run alone, interrupted by a crash, or interleaved with others.

    Any call may fail with an error of its own ([fault], by the number of the call), a write
    after a part of its bytes.  A [*PathError] is kept as the error it wraps.  No two names
    share a file after the link that made them: a file is only written under a fresh
    temporary name, so a link copies.  There are no symbolic links. *)

From S2P Require Import Prelude Datastore.
#[local] Open Scope Z_scope.

Abbreviation path := (list string).
Inductive node := Dir | File (content : string).
#[global] Instance node_eq_dec : EqDecision node.
Proof. solve_decision. Defined.

Definition ErrExist : error := ErrNew "file already exists".
Definition ErrNotExist : error := ErrNew "file does not exist".
Definition ErrNotDir : error := ErrNew "not a directory".
Definition ErrIsDir : error := ErrNew "is a directory".
Definition ErrNotEmpty : error := ErrNew "directory not empty".

(** The root is the path [[]], present once its directory exists. *)
Record disk := {
  dk_nodes : gmap path node;
  dk_calls : nat;
  dk_uuids : nat;
}.

(** ** Paths *)
Definition ancestors (p : path) : list path := map (λ i, take i p) (seq 0 (length p)).
Definition dirError (nodes : gmap path node) (p : path) : option error :=
  match nodes !! p with
  | Some Dir => None
  | Some (File _) => Some ErrNotDir
  | None => Some ErrNotExist
  end.
Definition parentError (nodes : gmap path node) (p : path) : option error :=
  head (omap (dirError nodes) (ancestors p)).

(** The node at a path, through directories. *)
Definition resolve (nodes : gmap path node) (p : path) : result node :=
  match parentError nodes p, nodes !! p with
  | Some e, _ => Err e
  | None, Some n => Ok n
  | None, None => Err ErrNotExist
  end.

(** ** System calls *)
Inductive call : Type → Type :=
  | CtxErr : call (result unit)
  | MkdirRoot : call (result unit)
  | OpenRoot : call (result unit)
  | MkdirAll (p : path) : call (result unit)
  | WriteFile (p : path) (body : string) : call (result unit)
  | Link (old new : path) : call (result unit)
  | Rename (old new : path) : call (result unit)
  | Remove (p : path) : call (result unit)
  | ReadFile (p : path) : call (result string)
  | Stat (p : path) : call (result node)
  | OpenFile (p : path) : call (result node)
  | StatFile (file : node) : call (result node)
  | WalkDir (p : path) : call (result (list (path * node)))
  | NewString : call string.

(** Directories are made from the root down; a file in the way stops. *)
Definition makeDir (st : result unit * gmap path node) (p : path) : result unit * gmap path node :=
  match st with
  | (Ok tt, nodes) =>
      match nodes !! p with
      | Some Dir => (Ok tt, nodes)
      | Some (File _) => (Err ErrNotDir, nodes)
      | None => (Ok tt, <[ p := Dir ]> nodes)
      end
  | _ => st
  end.
Definition mkdirAll (nodes : gmap path node) (p : path) : result unit * gmap path node :=
  match dirError nodes [] with
  | Some e => (Err e, nodes)
  | None => foldl makeDir (Ok tt, nodes) (map (λ i, take i p) (seq 1 (length p)))
  end.

Definition writeFile (nodes : gmap path node) (p : path) (body : string) : result unit * gmap path node :=
  match parentError nodes p, nodes !! p with
  | Some e, _ => (Err e, nodes)
  | None, Some Dir => (Err ErrIsDir, nodes)
  | None, _ => (Ok tt, <[ p := File body ]> nodes)
  end.

(** The file a link or a rename moves. *)
Definition sourceFile (nodes : gmap path node) (old : path) : result string :=
  match resolve nodes old with Ok (File content) => Ok content | Ok Dir => Err ErrIsDir | Err e => Err e end.
Definition link (nodes : gmap path node) (old new : path) : result unit * gmap path node :=
  match sourceFile nodes old, parentError nodes new, nodes !! new with
  | Err e, _, _ | Ok _, Some e, _ => (Err e, nodes)
  | Ok _, None, Some _ => (Err ErrExist, nodes)
  | Ok content, None, None => (Ok tt, <[ new := File content ]> nodes)
  end.
Definition rename (nodes : gmap path node) (old new : path) : result unit * gmap path node :=
  match sourceFile nodes old, parentError nodes new, nodes !! new with
  | Err e, _, _ | Ok _, Some e, _ => (Err e, nodes)
  | Ok _, None, Some Dir => (Err ErrIsDir, nodes)
  | Ok content, None, _ => (Ok tt, <[ new := File content ]> (delete old nodes))
  end.

(** The nodes below a directory. *)
Definition below (p : path) (nodes : gmap path node) : gmap path node :=
  filter (λ kv, kv.1 ≠ p ∧ take (length p) kv.1 = p) nodes.
Definition remove (nodes : gmap path node) (p : path) : result unit * gmap path node :=
  match resolve nodes p with
  | Err e => (Err e, nodes)
  | Ok Dir => if bool_decide (below p nodes = ∅) then (Ok tt, delete p nodes) else (Err ErrNotEmpty, nodes)
  | Ok (File _) => (Ok tt, delete p nodes)
  end.

Definition readFile (nodes : gmap path node) (p : path) : result string :=
  match resolve nodes p with Ok (File content) => Ok content | Ok Dir => Err ErrIsDir | Err e => Err e end.

Section Exec.
(** [fault n] is the error of the [n]-th call, when it fails, and how much a write wrote. *)
Context (fault : nat → option (error * option nat)) (uuid : nat → string).

Definition effect {B} (c : call B) (nodes : gmap path node) (issued : nat) : B * gmap path node :=
  match c with
  | CtxErr => (Ok tt, nodes)
  | MkdirRoot => match nodes !! [] with Some (File _) => (Err ErrNotDir, nodes) | _ => (Ok tt, <[ [] := Dir ]> nodes) end
  | OpenRoot => (match dirError nodes [] with Some e => Err e | None => Ok tt end, nodes)
  | MkdirAll p => mkdirAll nodes p
  | WriteFile p body => writeFile nodes p body
  | Link old new => link nodes old new
  | Rename old new => rename nodes old new
  | Remove p => remove nodes p
  | ReadFile p => (readFile nodes p, nodes)
  | Stat p | OpenFile p => (resolve nodes p, nodes)
  | StatFile file => (Ok file, nodes)
  | WalkDir p => (match resolve nodes p with Ok n => Ok ((p, n) :: map_to_list (below p nodes)) | Err e => Err e end, nodes)
  | NewString => (uuid issued, nodes)
  end.

(** A failed call does nothing; a failed write may leave a part of the file. *)
Definition failed {B} (c : call B) (e : error) (written : option nat) (nodes : gmap path node) : option (B * gmap path node) :=
  match c with
  | NewString => None
  | WriteFile p body =>
      Some (Err e, match written with
                   | Some n => (writeFile nodes p (String.substring 0 n body)).2
                   | None => nodes
                   end)
  | CtxErr | MkdirRoot | OpenRoot | MkdirAll _ | Link _ _ | Rename _ _ | Remove _ => Some (Err e, nodes)
  | ReadFile _ => Some (Err e, nodes)
  | Stat _ | OpenFile _ | StatFile _ => Some (Err e, nodes)
  | WalkDir _ => Some (Err e, nodes)
  end.

Definition issues {B} (c : call B) : nat := match c with NewString => 1 | _ => 0 end.

Definition exec {B} (c : call B) (d : disk) : B * disk :=
  let outcome := default (effect c (dk_nodes d) (dk_uuids d))
    (match fault (dk_calls d) with Some (e, written) => failed c e written (dk_nodes d) | None => None end) in
  (outcome.1, {| dk_nodes := outcome.2; dk_calls := S (dk_calls d); dk_uuids := issues c + dk_uuids d |}).

(** ** Programs *)
Inductive prog (A : Type) : Type :=
  | Ret (a : A)
  | Call {B : Type} (c : call B) (k : B → prog A).
#[global] Arguments Ret {A} a.
#[global] Arguments Call {A B} c k.

Fixpoint bindProg {A B} (p : prog A) (f : A → prog B) : prog B :=
  match p with Ret a => f a | Call c k => Call c (λ r, bindProg (k r) f) end.

(** [r, err := c; if err != nil { onError }; k r] *)
Definition orElse {A B} (c : call (result B)) (onError : error → prog A) (k : B → prog A) : prog A :=
  Call c (λ r, match r with Ok b => k b | Err e => onError e end).

(** [r, err := p; if err != nil { onError }; k r] for a call of a function *)
Definition try_ {A B} (p : prog (result B)) (onError : error → prog A) (k : B → prog A) : prog A :=
  bindProg p (λ r, match r with Ok b => k b | Err e => onError e end).

Fixpoint run {A} (p : prog A) (d : disk) : A * disk :=
  match p with Ret a => (a, d) | Call c k => let '(r, d') := exec c d in run (k r) d' end.

(** Programs side by side: one of them makes its next call. *)
Inductive poolStep {A} : list (prog A) * disk → list (prog A) * disk → Prop :=
  | pool_call i B (c : call B) k r pool d d' :
      pool !! i = Some (Call c k) → exec c d = (r, d') →
      poolStep (pool, d) (<[ i := k r ]> pool, d').
End Exec.
#[global] Arguments exec : simpl never.
