(* ===== verification/FileLaws.v ===== *)
(** * Laws of the file system

    What each call does to the nodes of a tree whose nodes all lie in directories. *)

From S2P Require Import Prelude Datastore FileSys.
#[local] Open Scope Z_scope.

(** Every node lies in directories. *)
Definition wellRooted (nodes : gmap path node) : Prop := ∀ p n, nodes !! p = Some n → parentError nodes p = None.

Lemma parentError_None nodes p : parentError nodes p = None ↔ ∀ i, (i < length p)%nat → nodes !! take i p = Some Dir.
Proof.
  unfold parentError, ancestors. assert (∀ (l : list error), head l = None ↔ l = []) as Hh by (by intros []). rewrite Hh.
  assert (∀ q, dirError nodes q = None ↔ nodes !! q = Some Dir) as Hd.
  { intros q. unfold dirError. destruct (nodes !! q) as [[]|]; naive_solver. }
  setoid_rewrite <- Hd. transitivity (∀ i, i ∈ seq 0 (length p) → dirError nodes (take i p) = None).
  - generalize (seq 0 (length p)). intros l. induction l as [|i l IH]; cbn; [split; [by inversion 2|done]|].
    setoid_rewrite elem_of_cons. destruct (dirError nodes (take i p)) eqn:E; cbn; [split; [done|intros H; rewrite H in E by auto; done]|].
    change (list_omap error error ?f ?x) with (omap f x) in *. naive_solver.
  - split; intros H i Hi; apply H; [apply elem_of_seq; lia|apply elem_of_seq in Hi; lia].
Qed.

Lemma parentError_mono nodes nodes' p :
  (∀ q, nodes !! q = Some Dir → nodes' !! q = Some Dir) → parentError nodes p = None → parentError nodes' p = None.
Proof. rewrite !parentError_None. auto. Qed.

Lemma resolve_Ok nodes p n : wellRooted nodes → resolve nodes p = Ok n ↔ nodes !! p = Some n.
Proof.
  intros Hw. unfold resolve. split.
  - destruct (parentError nodes p); [done|]. destruct (nodes !! p); [by intros [= ->]|done].
  - intros E. by rewrite (Hw _ _ E), E.
Qed.
Lemma resolve_node nodes p n : resolve nodes p = Ok n → nodes !! p = Some n ∧ parentError nodes p = None.
Proof. unfold resolve. destruct (parentError nodes p); [done|]. destruct (nodes !! p); [by intros [= ->]|done]. Qed.
Lemma resolve_absent nodes p : parentError nodes p = None → nodes !! p = None → resolve nodes p = Err ErrNotExist.
Proof. intros H1 H2. unfold resolve. by rewrite H1, H2. Qed.

(** ** Changes of the tree *)

(** Writing a file over nothing or a file, in a directory. *)
Lemma wellRooted_write nodes p content : wellRooted nodes → parentError nodes p = None → nodes !! p ≠ Some Dir →
  wellRooted (<[ p := File content ]> nodes).
Proof.
  intros Hw Hp Hn q n E. apply (parentError_mono nodes).
  - intros r Hr. rewrite lookup_insert_ne; [done|]. by intros ->.
  - rewrite lookup_insert_Some in E. destruct E as [[-> _]|[_ E]]; [done|]. by eapply Hw.
Qed.

Lemma take_proper {A} (p q : list A) i : (i < length q)%nat → take i q = p → (length p < length q)%nat ∧ take (length p) q = p.
Proof. intros Hi <-. rewrite length_take_le by lia. split; [lia|done]. Qed.

(** Deleting a node that has none below it. *)
Lemma wellRooted_delete nodes p : wellRooted nodes → below p nodes = ∅ → wellRooted (delete p nodes).
Proof.
  intros Hw Hb q n [Hne E]%lookup_delete_Some. apply parentError_None. intros i Hi.
  rewrite lookup_delete_ne; [by apply (proj1 (parentError_None nodes q) (Hw _ _ E))|].
  intros Ep. symmetry in Ep. apply take_proper in Ep as [Hl Hpre]; [|done].
  assert (below p nodes !! q = Some n) as Hq.
  { apply map_lookup_filter_Some. split; [done|]. cbn. split; [by intros <-|done]. }
  by rewrite Hb in Hq.
Qed.
Lemma below_file nodes p content : wellRooted nodes → nodes !! p = Some (File content) → below p nodes = ∅.
Proof.
  intros Hw Hp. apply map_empty. intros q. apply eq_None_not_Some. intros [n [E [Hne Hpre]]%map_lookup_filter_Some].
  cbn in Hne, Hpre. assert (length p < length q)%nat as Hl.
  { destruct (decide (length p < length q)%nat); [done|]. rewrite take_ge in Hpre by lia. done. }
  pose proof (proj1 (parentError_None nodes q) (Hw _ _ E) _ Hl) as Hd. rewrite Hpre in Hd. congruence.
Qed.

(** ** Directories *)

(** [nodes'] is [nodes] with new directories on the way to [p]. *)
Record moreDirs (p : path) (nodes nodes' : gmap path node) : Prop := {
  md_keep : nodes ⊆ nodes';
  md_new : ∀ q n, nodes' !! q = Some n → nodes !! q = None → n = Dir ∧ ∃ i, (0 < i ≤ length p)%nat ∧ q = take i p;
  md_rooted : wellRooted nodes → wellRooted nodes';
}.

(** No file is in the way. *)
Definition unblocked (nodes : gmap path node) (p : path) : Prop :=
  ∀ i content, (i ≤ length p)%nat → nodes !! take i p ≠ Some (File content).

Lemma mkdirAll_steps nodes p k : (k ≤ length p)%nat → nodes !! [] = Some Dir →
  let x := foldl makeDir (Ok tt, nodes) (map (λ i, take i p) (seq 1 k)) in
  moreDirs p nodes x.2 ∧
  match x.1 with
  | Ok _ => ∀ i, (i ≤ k)%nat → x.2 !! take i p = Some Dir
  | Err e => e = ErrNotDir ∧ ¬ unblocked nodes p
  end.
Proof.
  intros Hk Hroot. induction k as [|k IH].
  { split; [split; cbn; [done|congruence|done]|]. intros i Hi. by replace i with 0%nat by lia. }
  rewrite seq_S, map_app, foldl_app. cbn [map foldl]. specialize (IH ltac:(lia)).
  destruct (foldl makeDir (Ok tt, nodes) (map (λ i, take i p) (seq 1 k))) as [r nodes1]. cbn [fst snd] in IH.
  destruct IH as [[Hkeep Hnew Hwr] Hr]. destruct r as [[]|e]; cbn [makeDir]; [|by destruct Hr].
  change (1 + k)%nat with (S k). destruct (nodes1 !! take (S k) p) as [[|content]|] eqn:E; cbn [fst snd].
  - split; [done|]. intros i Hi. destruct (decide (i = S k)) as [->|]; [done|]. apply Hr. lia.
  - split; [done|]. split; [done|]. intros Hu. destruct (nodes !! take (S k) p) as [n|] eqn:E0.
    + pose proof (lookup_weaken _ _ _ _ E0 Hkeep). simplify_eq. by apply (Hu (S k) content).
    + by destruct (Hnew _ _ E E0).
  - split; [split|].
    + etrans; [exact Hkeep|]. by apply insert_subseteq.
    + intros q n Hq H0. rewrite lookup_insert_Some in Hq. destruct Hq as [[<- <-]|[_ Hq]]; [|by apply Hnew].
      split; [done|]. exists (S k). split; [lia|done].
    + intros Hw q n Hq. apply Hwr in Hw. apply (parentError_mono nodes1).
      { intros r Hr'. rewrite lookup_insert_ne; [done|]. congruence. }
      rewrite lookup_insert_Some in Hq. destruct Hq as [[<- _]|[_ Hq]]; [|by eapply Hw].
      apply parentError_None. intros i. rewrite length_take. intros Hi. rewrite take_take, Nat.min_l by lia. apply Hr. lia.
    + intros i Hi. destruct (decide (i = S k)) as [->|]; [apply lookup_insert_eq|].
      rewrite lookup_insert_ne; [apply Hr; lia|]. intros Ei. rewrite Ei, (Hr i) in E by lia. done.
Qed.

Lemma mkdirAll_spec nodes p r nodes' : mkdirAll nodes p = (r, nodes') →
  moreDirs p nodes nodes' ∧
  match r with
  | Ok _ => ∀ i, (i ≤ length p)%nat → nodes' !! take i p = Some Dir
  | Err e => nodes !! [] = Some Dir → e = ErrNotDir ∧ ¬ unblocked nodes p
  end.
Proof.
  unfold mkdirAll. destruct (dirError nodes []) as [e|] eqn:Hd.
  { intros [= <- <-]. split; [split; [done|congruence|done]|]. intros Hroot. unfold dirError in Hd. by rewrite Hroot in Hd. }
  intros E. assert (nodes !! [] = Some Dir) as Hroot.
  { unfold dirError in Hd. by destruct (nodes !! []) as [[]|]. }
  destruct (mkdirAll_steps nodes p (length p) ltac:(done) Hroot) as [Hm Hr]. rewrite E in Hm, Hr. split; [done|].
  by destruct r.
Qed.

(** ** Calls on files *)
Lemma writeFile_spec nodes p body r nodes' : writeFile nodes p body = (r, nodes') →
  (r = Ok tt ∧ parentError nodes p = None ∧ nodes !! p ≠ Some Dir ∧ nodes' = <[ p := File body ]> nodes) ∨
  (∃ e, r = Err e ∧ nodes' = nodes).
Proof.
  unfold writeFile. destruct (parentError nodes p); [intros [= <- <-]; eauto|].
  destruct (nodes !! p) as [[]|] eqn:E; intros [= <- <-]; eauto; left; by rewrite E.
Qed.

Lemma link_spec nodes old new r nodes' : link nodes old new = (r, nodes') →
  (r = Ok tt ∧ ∃ content, nodes !! old = Some (File content) ∧ nodes !! new = None ∧ parentError nodes new = None ∧
     nodes' = <[ new := File content ]> nodes) ∨
  (∃ e, r = Err e ∧ nodes' = nodes ∧ (nodes !! new = None → isErr e ErrExist = false)).
Proof.
  unfold link, sourceFile. destruct (resolve nodes old) as [[|content]|e] eqn:Eo.
  - intros [= <- <-]. right. by eexists.
  - apply resolve_node in Eo as [Eo _]. destruct (parentError nodes new) as [e|] eqn:Ep.
    { intros [= <- <-]. right. exists e. split_and!; [done|done|]. intros _. revert Ep. unfold parentError. intros Ep.
      apply head_Some_elem_of, list_elem_of_omap in Ep as (q & _ & Ep). unfold dirError in Ep.
      by destruct (nodes !! q) as [[]|]; simplify_eq. }
    destruct (nodes !! new) as [n|] eqn:En; intros [= <- <-]; [right; by eexists|]. left. split; [done|]. eauto 10.
  - intros [= <- <-]. right. exists e. split_and!; [done|done|]. intros _. unfold resolve in Eo.
    destruct (parentError nodes old) as [e'|] eqn:Ep.
    + injection Eo as <-. unfold parentError in Ep.
      apply head_Some_elem_of, list_elem_of_omap in Ep as (q & _ & Ep). unfold dirError in Ep.
      by destruct (nodes !! q) as [[]|]; simplify_eq.
    + destruct (nodes !! old); [done|]. by injection Eo as <-.
Qed.

Lemma remove_spec nodes p r nodes' : remove nodes p = (r, nodes') →
  (nodes' = nodes ∨ nodes' = delete p nodes) ∧ (wellRooted nodes → wellRooted nodes').
Proof.
  unfold remove. destruct (resolve nodes p) as [[|content]|] eqn:E; [|intros [= <- <-]|intros [= <- <-]; auto].
  - case_bool_decide; intros [= <- <-]; split; auto. intros Hw. by apply wellRooted_delete.
  - split; [auto|]. intros Hw. apply wellRooted_delete; [done|]. apply resolve_node in E as [E _]. by eapply below_file.
Qed.

(** ** Programs side by side: rely and guarantee

    A program is [safe] when each of its calls keeps an invariant and does only what the others
    tolerate, whatever the others do in between.  Fresh names are owned by the program they
    were issued to.  Programs that are safe one by one are safe together, under every
    interleaving, with any of them stopped at any point. *)
#[local] Open Scope nat_scope.
Section Rely.
Context (fault : nat → option (error * option nat)) (uuid : nat → string).
(** A state is a disk with some bookkeeping of the proof. *)
Context {G : Type} (inv : disk * G → Prop) (tolerates : gset nat → disk * G → disk * G → Prop).

Definition owning {B} (c : call B) (d : disk) (own : gset nat) : gset nat :=
  if decide (issues c = 1) then {[ dk_uuids d ]} ∪ own else own.

(** What a program that owns [own] may do to the others. *)
Definition guarantees (own : gset nat) (σ σ' : disk * G) : Prop := ∀ own', own' ## own → tolerates own' σ σ'.

Fixpoint safe {A} (Q : gset nat → A → disk * G → Prop) (p : prog A) (own : gset nat) (σ : disk * G) : Prop :=
  match p with
  | Ret a => Q own a σ
  | Call c k =>
      (∀ n, n ∈ own → n < dk_uuids σ.1) →
      let '(r, d) := exec fault uuid c σ.1 in
      ∃ g, inv (d, g) ∧ guarantees (owning c σ.1 own) σ (d, g) ∧
        ∀ σ', tolerates (owning c σ.1 own) (d, g) σ' → inv σ' → safe Q (k r) (owning c σ.1 own) σ'
  end.

(** Safe, and so after anything the others do. *)
Definition steadily {A} (Q : gset nat → A → disk * G → Prop) (p : prog A) (own : gset nat) (σ : disk * G) : Prop :=
  ∀ σ', tolerates own σ σ' → inv σ' → safe Q p own σ'.

Lemma safe_bind {A B} (Q : gset nat → A → disk * G → Prop) (R : gset nat → B → disk * G → Prop) p (f : A → prog B) own σ :
  safe Q p own σ → (∀ own' a σ', own ⊆ own' → Q own' a σ' → safe R (f a) own' σ') → safe R (bindProg p f) own σ.
Proof.
  revert own σ. induction p as [a|B' c k IH]; cbn; intros own σ H Hf; [by apply Hf|].
  intros Ho. specialize (H Ho). destruct (exec fault uuid c σ.1) as [r d]. destruct H as (g & Hi & Hg & H). exists g. split_and!; [done|done|].
  intros σ' Ht Hi'. apply (IH r); [by apply H|]. intros own' a σ1 Hsub. apply Hf. unfold owning in Hsub. case_decide; set_solver.
Qed.

Context (tolerates_refl : ∀ own σ, tolerates own σ σ).
Context (tolerates_trans : ∀ own σ1 σ2 σ3, tolerates own σ1 σ2 → tolerates own σ2 σ3 → tolerates own σ1 σ3).
Context (tolerates_issued : ∀ own σ σ', tolerates own σ σ' → dk_uuids σ.1 ≤ dk_uuids σ'.1).

Record together {A} (Q : nat → gset nat → A → disk * G → Prop) (pool : list (prog A)) (σ : disk * G)
    (owns : nat → gset nat) : Prop := {
  tg_inv : inv σ;
  tg_apart : ∀ i j, i ≠ j → owns i ## owns j;
  tg_issued : ∀ i n, n ∈ owns i → n < dk_uuids σ.1;
  tg_safe : ∀ i p, pool !! i = Some p → steadily (Q i) p (owns i) σ;
}.

Lemma exec_issued {B} (c : call B) d r d' : exec fault uuid c d = (r, d') → dk_uuids d' = issues c + dk_uuids d.
Proof. unfold exec. by intros [= _ <-]. Qed.

(** One step of one program. *)
Lemma together_step {A} (Q : nat → gset nat → A → disk * G → Prop) pool d pool' d' g owns :
  together Q pool (d, g) owns → poolStep fault uuid (pool, d) (pool', d') →
  ∃ g' owns', together Q pool' (d', g') owns' ∧ tolerates ∅ (d, g) (d', g').
Proof.
  intros [Hi Ha Hu Hs] Hstep. inversion Hstep as [i B c k r ? ? ? Hl He]; subst. clear Hstep.
  pose proof (Hs i _ Hl _ (tolerates_refl _ _) Hi) as Hsafe. cbn in Hsafe. specialize (Hsafe (Hu i)). rewrite He in Hsafe.
  destruct Hsafe as (g' & Hi' & Hg & Hk). apply exec_issued in He as Hn.
  set (own := owning c d (owns i)) in *.
  assert (∀ n, n ∈ own → n ∈ owns i ∨ n = dk_uuids d ∧ issues c = 1) as Hown.
  { intros n. unfold own, owning. case_decide; set_solver. }
  assert (∀ j, j ≠ i → owns j ## own) as Hd.
  { intros j Hj n H1 [H2|[-> _]]%Hown; [by apply (Ha j i Hj n)|]. apply Hu in H1. cbn in H1. lia. }
  exists g', (λ j, if decide (j = i) then own else owns j). split; [split|].
  - done.
  - intros j1 j2 Hj. case_decide; case_decide; subst; [done|by symmetry; apply Hd|by apply Hd|by apply Ha].
  - intros j n Hj. cbn. rewrite Hn. case_decide.
    + apply Hown in Hj as [Hj%Hu|[-> ->]]; cbn in *; lia.
    + apply Hu in Hj. cbn in *. lia.
  - intros j p Hj σ' Ht Hi''. case_decide as Hj'.
    + subst j. rewrite list_lookup_insert_eq in Hj by (by eapply lookup_lt_Some). injection Hj as <-. by apply Hk.
    + rewrite list_lookup_insert_ne in Hj by done. apply (Hs j p Hj); [|done].
      eapply tolerates_trans; [apply Hg; by apply Hd|done].
  - apply Hg. set_solver.
Qed.

Lemma together_steps {A} (Q : nat → gset nat → A → disk * G → Prop) x y :
  rtc (poolStep fault uuid) x y → ∀ g owns, together Q x.1 (x.2, g) owns →
  ∃ g' owns', together Q y.1 (y.2, g') owns' ∧ tolerates ∅ (x.2, g) (y.2, g').
Proof.
  induction 1 as [[pool d]|[pool d] [pool1 d1] y Hstep _ IH]; cbn [fst snd] in *; intros g owns Ht; [by eauto|].
  destruct (together_step _ _ _ _ _ _ _ Ht Hstep) as (g1 & owns1 & Ht1 & H1).
  destruct (IH _ _ Ht1) as (g2 & owns2 & Ht2 & H2). eauto.
Qed.
End Rely.
