(* ===== verification/LocalStore.v ===== *)
(** * The local datastore

    [datastore/local.go]: objects are files under a root directory, each with a record of its
    content type in a metadata directory.  Every operation is a program of file system calls
    (FileSys); the instances at the end run one to its end. *)

From S2P Require Import Prelude Utf16 Text Json JsonRaw SourceIdentity Datastore Encode FileSys.
From Stdlib Require Import Ascii.
#[local] Open Scope Z_scope.

Definition localMetadataDirName : string := ".massive-datastore-metadata".

(** [filepath.Abs] depends on the working directory. *)
Definition NewLocalDatastore (Abs : string → result string) (Root : string) : result string :=
  if bool_decide (Root = "") then Err (Errorf "local datastore root cannot be empty" [])
  else
    match Abs Root with
    | Err err => Err (Errorf "resolve local datastore root: %w" [AWrap err])
    | Ok root => Ok root
    end.

(** [filepath.Localize] on Unix *)
Definition Localize (value : string) : option string :=
  if validUtf8 value && (bool_decide (value = ".") || negb (hasInvalidSegment (splitOn "/" value))) &&
     negb (containsByte (charOf 0) value)
  then Some value else None.

Definition pathForKey (key : Key) : result path :=
  match Localize (key_value key) with
  | Some local =>
      if bool_decide (local = ".") then
        Err (Errorf "%w %q: object path must be local to the datastore" [AWrap ErrInvalidKey; AStr (key_value key)])
      else Ok (splitOn "/" local)
  | None => Err (Errorf "%w %q: object path must be local to the datastore" [AWrap ErrInvalidKey; AStr (key_value key)])
  end.

(** [filepath.Dir] and [filepath.Base] of a local path *)
Definition dirOf (p : path) : path := take (pred (length p)) p.
Definition baseOf (p : path) : string := default "" (last p).
Definition temporaryFor (target : path) (id : string) : path := dirOf target ++ [".tmp-" +:+ baseOf target +:+ "-" +:+ id].

(** [json.Marshal(localMetadata{...})] and what [json.Unmarshal] reads back *)
Definition metadataBody (contentType : string) : string :=
  quoted "{'contentType':" +:+ marshalString contentType +:+ "}".
Definition decodeMetadata (body : string) : option string :=
  match unmarshal body with
  | Some (JObj ms) =>
      match List.last (map Some (List.filter (λ kv, isField "contentType" kv.1 && match kv.2 with JNull => false | _ => true end) ms)) None with
      | Some (_, JStr contentType) =>
          if forallb (λ kv, match kv.2 with JStr _ | JNull => true | _ => negb (isField "contentType" kv.1) end) ms
          then Some contentType else None
      | Some _ => None
      | None => Some ""
      end
  | Some JNull => Some ""
  | _ => None
  end.

Section Local.
Context (sha256Hex : string → string).
Abbreviation keyArg key := (AStr (key_value key)).

Definition metadataPath (key : Key) : path := [localMetadataDirName; sha256Hex (key_value key) +:+ ".json"].
Definition metadataTemporary (key : Key) (id : string) : path :=
  [localMetadataDirName; sha256Hex (key_value key) +:+ ".json" +:+ ".tmp-" +:+ id].

Definition readContentType (key : Key) : prog (result string) :=
  Call (ReadFile (metadataPath key)) (λ r,
    match r with
    | Err err =>
        if isErr err ErrNotExist then Ret (Ok (defaultContentType ""))
        else Ret (Err (Errorf "read metadata for %s: %w" [keyArg key; AWrap err]))
    | Ok body =>
        match decodeMetadata body with
        | Some contentType => Ret (Ok (defaultContentType contentType))
        | None => Ret (Err (Errorf "decode metadata for %s: %w" [keyArg key; AWrap (ErrNew "json: cannot unmarshal")]))
        end
    end).

Definition writeMetadata (key : Key) (contentType : string) : prog (result unit) :=
  orElse (MkdirAll [localMetadataDirName])
    (λ err, Ret (Err (Errorf "create metadata parent for %s: %w" [keyArg key; AWrap err]))) (λ _,
  Call NewString (λ id,
  orElse (WriteFile (metadataTemporary key id) (metadataBody contentType))
    (λ err, Ret (Err (Errorf "write temporary metadata for %s: %w" [keyArg key; AWrap err]))) (λ _,
  orElse (Rename (metadataTemporary key id) (metadataPath key))
    (λ err, Call (Remove (metadataTemporary key id)) (λ _,
      Ret (Err (Errorf "rename temporary metadata for %s: %w" [keyArg key; AWrap err])))) (λ _,
  Ret (Ok tt))))).

(** Once its temporary file is written, it is removed before every return. *)
Definition writeMetadataIfAbsent (key : Key) (contentType : string) : prog (result bool) :=
  orElse (MkdirAll [localMetadataDirName])
    (λ err, Ret (Err (Errorf "create metadata parent for %s: %w" [keyArg key; AWrap err]))) (λ _,
  Call NewString (λ id,
  orElse (WriteFile (metadataTemporary key id) (metadataBody contentType))
    (λ err, Ret (Err (Errorf "write temporary metadata for %s: %w" [keyArg key; AWrap err]))) (λ _,
  Call (Link (metadataTemporary key id) (metadataPath key)) (λ linked,
  Call (Remove (metadataTemporary key id)) (λ _,
  Ret match linked with
      | Ok _ => Ok true
      | Err err =>
          if isErr err ErrExist then Ok false
          else Err (Errorf "install metadata for %s if absent: %w" [keyArg key; AWrap err])
      end))))).

(** The part of [Put] after the temporary object is written, for a conditional write. *)
Definition installIfAbsent (key : Key) (body contentType : string) (target temporary : path) : prog (result ObjectInfo) :=
  let cleanup (err : error) := Call (Remove temporary) (λ _, Ret (Err err)) in
  let install :=
    orElse (Link temporary target)
      (λ err,
        if isErr err ErrExist then cleanup (Errorf "put %s if absent: %w" [keyArg key; AWrap ErrAlreadyExists])
        else cleanup (Errorf "install object %s if absent: %w" [keyArg key; AWrap err])) (λ _,
    orElse (Remove temporary)
      (λ err, Ret (Err (Errorf "remove temporary object for %s: %w" [keyArg key; AWrap err]))) (λ _,
    Ret (Ok (objectInfo key contentType body)))) in
  try_ (writeMetadataIfAbsent key contentType) cleanup (λ metadataInstalled : bool,
    if metadataInstalled then install
    else
      try_ (readContentType key) cleanup (λ existingContentType,
        if bool_decide (existingContentType = contentType) then install
        else cleanup (Errorf "put %s if absent: existing content type %q differs from %q: %w"
               [keyArg key; AStr existingContentType; AStr contentType; AWrap ErrAlreadyExists]))).

Definition installAlways (key : Key) (body contentType : string) (target temporary : path) : prog (result ObjectInfo) :=
  orElse (Rename temporary target)
    (λ err, Call (Remove temporary) (λ _,
      Ret (Err (Errorf "rename temporary object for %s: %w" [keyArg key; AWrap err])))) (λ _,
  try_ (writeMetadata key contentType) (λ err, Ret (Err err)) (λ _,
  Ret (Ok (objectInfo key contentType body)))).

Definition localPut (key : Key) (body : string) (options : PutOptions) : prog (result ObjectInfo) :=
  orElse CtxErr (λ err, Ret (Err (Errorf "put %s: %w" [keyArg key; AWrap err]))) (λ _,
  let contentType := defaultContentType (po_ContentType options) in
  orElse MkdirRoot (λ err, Ret (Err (Errorf "create datastore root: %w" [AWrap err]))) (λ _,
  orElse OpenRoot (λ err, Ret (Err (Errorf "open datastore root: %w" [AWrap err]))) (λ _,
  match pathForKey key with
  | Err err => Ret (Err err)
  | Ok target =>
      orElse (MkdirAll (dirOf target))
        (λ err, Ret (Err (Errorf "create parent for %s: %w" [keyArg key; AWrap err]))) (λ _,
      Call NewString (λ id,
      orElse (WriteFile (temporaryFor target id) body)
        (λ err, Ret (Err (Errorf "write temporary object for %s: %w" [keyArg key; AWrap err]))) (λ _,
      (if po_IfAbsent options then installIfAbsent else installAlways) key body contentType target (temporaryFor target id))))
  end))).

(** The beginning of a read; an absent root is [absent]. *)
Definition opened {A} (ctxMessage : string) (key : Key) (absent : result A) (k : prog (result A)) : prog (result A) :=
  orElse CtxErr (λ err, Ret (Err (Errorf ctxMessage [keyArg key; AWrap err]))) (λ _,
  orElse OpenRoot (λ err, Ret (if isErr err ErrNotExist then absent else Err (Errorf "open datastore root: %w" [AWrap err]))) (λ _,
  k)).

Definition localGet (key : Key) : prog (result Object) :=
  let absent := Err (Errorf "get %s: %w" [keyArg key; AWrap ErrNotFound]) in
  opened "get %s: %w" key absent
    match pathForKey key with
    | Err err => Ret (Err err)
    | Ok target =>
        orElse (ReadFile target)
          (λ err, Ret (if isErr err ErrNotExist then absent else Err (Errorf "read object %s: %w" [keyArg key; AWrap err]))) (λ body,
        try_ (readContentType key) (λ err, Ret (Err err)) (λ contentType,
        Ret (Ok {| ob_Info := objectInfo key contentType body; ob_Body := body |})))
    end.

(** The reader of an open file gives the bytes the file had: no file is written twice. *)
Definition localOpen (key : Key) : prog (result (Reader * ObjectInfo)) :=
  let absent := Err (Errorf "open %s: %w" [keyArg key; AWrap ErrNotFound]) in
  opened "open %s: %w" key absent
    match pathForKey key with
    | Err err => Ret (Err err)
    | Ok target =>
        orElse (OpenFile target)
          (λ err, Ret (if isErr err ErrNotExist then absent else Err (Errorf "open object %s: %w" [keyArg key; AWrap err]))) (λ file,
        orElse (StatFile file) (λ err, Ret (Err err)) (λ info,
        match info with
        | Dir => Ret (Err (Errorf "object %s is not a regular file" [keyArg key]))
        | File body =>
            try_ (readContentType key) (λ err, Ret (Err err)) (λ contentType,
            Ret (Ok ({| rd_Bytes := body; rd_Err := None |}, objectInfo key contentType body)))
        end))
    end.

Definition localExists (key : Key) : prog (result bool) :=
  opened "exists %s: %w" key (Ok false)
    match pathForKey key with
    | Err err => Ret (Err err)
    | Ok target =>
        orElse (Stat target)
          (λ err, Ret (if isErr err ErrNotExist then Ok false else Err (Errorf "stat object %s: %w" [keyArg key; AWrap err]))) (λ info,
        Ret (Ok match info with Dir => false | File _ => true end))
    end.

(** The function [List] walks the tree with, for each entry in turn. *)
Fixpoint listEntries (entries : list (path * node)) (objects : list ObjectInfo) : prog (result (list ObjectInfo)) :=
  match entries with
  | [] => Ret (Ok objects)
  | (_, Dir) :: rest => listEntries rest objects
  | (current, File _) :: rest =>
      match ParseKey (joinStrings "/" current) with
      | Err err => Ret (Err err)
      | Ok key =>
          orElse (Stat current) (λ err, Ret (Err err)) (λ info,
          try_ (readContentType key) (λ err, Ret (Err err)) (λ contentType,
          listEntries rest (objects ++ [{| oi_Key := key; oi_Size := match info with File body => Z.of_nat (String.length body) | Dir => 0 end;
                                           oi_ContentType := contentType |}])))
      end
  end.
Definition byKey (a b : ObjectInfo) : Prop := Is_true (String.leb (key_value (oi_Key a)) (key_value (oi_Key b))).
#[local] Instance byKey_dec a b : Decision (byKey a b).
Proof. unfold byKey. apply _. Defined.
(** The walk goes past the metadata directory, and into no part of it, when it starts there. *)
Definition walked (start p : path) : bool := bool_decide (start ≠ [localMetadataDirName]) || bool_decide (p = start).

Definition localList (prefix : Key) : prog (result (list ObjectInfo)) :=
  opened "list %s: %w" prefix (Ok [])
    match pathForKey prefix with
    | Err err => Ret (Err err)
    | Ok prefixPath =>
        orElse (Stat prefixPath)
          (λ err, Ret (if isErr err ErrNotExist then Ok [] else Err (Errorf "stat prefix %s: %w" [keyArg prefix; AWrap err]))) (λ _,
        try_ (orElse (WalkDir prefixPath) (λ err, Ret (Err err)) (λ entries,
                listEntries (List.filter (λ x, walked prefixPath x.1) entries) []))
          (λ err, Ret (Err (Errorf "list %s: %w" [keyArg prefix; AWrap err]))) (λ objects,
        Ret (Ok (merge_sort byKey objects))))
    end.

(** The store as the rest of the program sees it. *)
Section Run.
Context (fault : nat → option (error * option nat)) (uuid : nat → string).
#[local] Instance localDatastore : Datastore disk :=
  {| Put := λ key body options d, run fault uuid (localPut key body options) d;
     Get := λ key d, (run fault uuid (localGet key) d).1;
     Exists := λ key d, (run fault uuid (localExists key) d).1 |}.
#[local] Instance localOpener : Opener disk := {| Open := λ key d, (run fault uuid (localOpen key) d).1 |}.
End Run.
End Local.
