(* ===== verification/LocalSafety.v ===== *)
(** * The local datastore under concurrency

    Any number of conditional writes run side by side against one directory, with calls that
    fail and programs that stop anywhere.  The theorem is proved with the rely-guarantee rules
    of FileLaws: names below the root are temporary, and then of one program alone, or durable,
    and then never changed once they exist. *)

From S2P Require Import Prelude Utf16 Text Canonical CanonicalText SourceIdentity Datastore FileSys FileLaws LocalStore.
From Stdlib Require Import Ascii.
From stdpp Require Import gmap.
#[local] Open Scope Z_scope.
#[local] Arguments isErr : simpl never.

(** ** Names *)

(** Keys whose path is not one the store uses for itself. *)
Definition keyPath (key : Key) : path := splitOn "/" (key_value key).
Definition inMetadata (p : path) : bool := match p with first :: _ => bool_decide (first = localMetadataDirName) | [] => false end.
Definition ordinary (key : Key) : bool :=
  match pathForKey key with
  | Ok p => forallb (λ s, negb (HasPrefix s ".tmp-")) p && negb (inMetadata p)
  | Err _ => false
  end.

Lemma ordinary_path key : ordinary key = true → pathForKey key = Ok (keyPath key) ∧
  (∀ s, s ∈ keyPath key → HasPrefix s ".tmp-" = false) ∧ inMetadata (keyPath key) = false.
Proof.
  unfold ordinary. destruct (pathForKey key) as [p|e] eqn:E; [|done].
  assert (p = keyPath key) as ->.
  { unfold pathForKey in E. destruct (Localize (key_value key)) as [local|] eqn:El; [|done].
    case_bool_decide; [done|]. injection E as <-. unfold Localize in El. case_match; [|done]. by injection El as <-. }
  intros [Hs%Is_true_eq_left%forallb_True Hm%negb_true_iff]%andb_prop. split_and!; [done| |done].
  intros s Hin. rewrite Forall_forall in Hs. by apply negb_true_iff, Is_true_eq_true, Hs.
Qed.

Lemma keyPath_nonempty key : keyPath key ≠ [].
Proof. apply splitOn_not_nil. Qed.
Lemma keyPath_inj key key' : keyPath key = keyPath key' → key = key'.
Proof.
  destruct key as [a], key' as [b]. unfold keyPath. cbn. intros E. f_equal. by rewrite <- (joinStrings_split "/" a), E, joinStrings_split.
Qed.

Lemma dirOf_baseOf p : p ≠ [] → p = dirOf p ++ [baseOf p].
Proof.
  intros Hp. unfold dirOf, baseOf. destruct p as [|s p] using rev_ind; [done|].
  rewrite length_app, last_snoc. cbn [length default]. replace (pred (length p + 1)) with (length p) by lia. by rewrite take_app_length.
Qed.

Section Names.
Context (sha256Hex : string → string) (uuid : nat → string).
Context (sha256_hex : ∀ s, digestHex (sha256Hex s) = true).
(** Fresh names never repeat, nor does one end in another. *)
Context (uuid_fresh : ∀ n m a b, a +:+ uuid n = b +:+ uuid m → n = m).
#[local] Abbreviation metadataPath := (metadataPath sha256Hex).
#[local] Abbreviation metadataTemporary := (metadataTemporary sha256Hex).

(** The temporary names that [uuid n] makes. *)
Definition tempOf (n : nat) (p : path) : Prop :=
  (∃ dir base, p = dir ++ [".tmp-" +:+ base +:+ "-" +:+ uuid n]) ∨ (∃ key, p = metadataTemporary key (uuid n)).
Definition durable (p : path) : Prop := ∀ n, ¬ tempOf n p.

Lemma tempOf_last n p : tempOf n p → ∃ dir s, p = dir ++ [s +:+ uuid n].
Proof.
  intros [(dir & base & ->)|(key & ->)].
  - exists dir, (".tmp-" +:+ base +:+ "-"). do 2 f_equal. by rewrite !append_assoc.
  - exists [localMetadataDirName], (sha256Hex (key_value key) +:+ ".json" +:+ ".tmp-").
    unfold LocalStore.metadataTemporary. cbn [app]. do 2 f_equal. by rewrite !append_assoc.
Qed.
Lemma tempOf_unique n m p : tempOf n p → tempOf m p → n = m.
Proof.
  intros (d1 & s1 & ->)%tempOf_last (d2 & s2 & E)%tempOf_last. apply app_inj_tail in E as [_ E].
  by eapply uuid_fresh.
Qed.

Lemma temporaryFor_temp target n : tempOf n (temporaryFor target (uuid n)).
Proof. left. by eexists _, _. Qed.
Lemma metadataTemporary_temp key n : tempOf n (metadataTemporary key (uuid n)).
Proof. right. by eexists. Qed.

Lemma digest_bytes s : ∃ b l, bytesOf (sha256Hex s) = b :: l ∧ isHexLower b = true ∧ String.length (sha256Hex s) = 64%nat.
Proof.
  pose proof (sha256_hex s) as H. unfold digestHex in H. apply andb_prop in H as [Hl%Z.eqb_eq Hx].
  rewrite length_bytesOf in Hl. destruct (bytesOf (sha256Hex s)) as [|b l] eqn:E.
  - apply (f_equal length) in E. rewrite length_bytesOf in E. cbn in E. lia.
  - cbn in Hx. apply andb_prop in Hx as [Hb _]. exists b, l. split_and!; [done|done|lia].
Qed.

Lemma durable_root : durable [].
Proof. intros n (dir & s & E)%tempOf_last. by destruct dir. Qed.

Lemma durable_dir key i : ordinary key = true → durable (take i (keyPath key)).
Proof.
  intros (_ & Hs & Hm)%ordinary_path n [(dir & base & E)|(key' & E)].
  - assert (".tmp-" +:+ base +:+ "-" +:+ uuid n ∈ keyPath key) as Hin.
    { apply (subseteq_take i). rewrite E. set_solver. }
    apply Hs in Hin. by rewrite HasPrefix_app in Hin.
  - unfold inMetadata in Hm. destruct (keyPath key) as [|first rest]; [by destruct i|].
    destruct i; [done|]. cbn in E. injection E as -> _. by rewrite bool_decide_eq_true_2 in Hm.
Qed.
Lemma durable_key key : ordinary key = true → durable (keyPath key).
Proof. intros H. rewrite <- (take_ge (keyPath key) (length (keyPath key))) by done. by apply durable_dir. Qed.

Lemma durable_metadata_dir : durable [localMetadataDirName].
Proof.
  intros n [(dir & base & E)|(key & E)]; [|done]. apply (app_inj_tail []) in E as [_ E].
  assert (HasPrefix localMetadataDirName ".tmp-" = true) as Hp by (rewrite E; apply HasPrefix_app). done.
Qed.
Lemma durable_metadata key : durable (metadataPath key).
Proof.
  destruct (digest_bytes (key_value key)) as (b & l & Eb & Hb & Hl).
  intros n [(dir & base & E)|(key' & E)].
  - unfold LocalStore.metadataPath in E. apply (app_inj_tail [_]) in E as [_ E].
    apply (f_equal bytesOf) in E. rewrite !bytesOf_app, Eb in E. cbn in E. injection E as -> _. done.
  - injection E as E. apply (f_equal String.length) in E.
    destruct (digest_bytes (key_value key')) as (_ & _ & _ & _ & Hl'). rewrite !string_length_app, Hl, Hl' in E. cbn in E. lia.
Qed.

Lemma metadata_not_key key key' : ordinary key' = true → metadataPath key ≠ keyPath key'.
Proof. intros (_ & _ & Hm)%ordinary_path E. rewrite <- E in Hm. cbn in Hm. by rewrite bool_decide_eq_true_2 in Hm. Qed.
Lemma temporaries_differ key key' n m : ordinary key = true → temporaryFor (keyPath key) (uuid n) ≠ metadataTemporary key' (uuid m).
Proof.
  intros (_ & _ & Hm)%ordinary_path E. unfold temporaryFor in E.
  destruct (keyPath key) as [|first [|second rest]] eqn:Ek; [by apply keyPath_nonempty in Ek|done|].
  cbn in E. injection E as -> _. cbn in Hm. by rewrite bool_decide_eq_true_2 in Hm.
Qed.
End Names.

(** ** The invariant *)
Section Conditional.
Context (sha256Hex : string → string) (fault : nat → option (error * option nat)) (uuid : nat → string).
Context (sha256_hex : ∀ s, digestHex (sha256Hex s) = true).
Context (uuid_fresh : ∀ n m a b, a +:+ uuid n = b +:+ uuid m → n = m).
Context (fault_plain : ∀ n e w, fault n = Some (e, w) → isErr e ErrExist = false ∧ isErr e ErrNotExist = false).
#[local] Abbreviation metadataPath := (metadataPath sha256Hex).
#[local] Abbreviation metadataTemporary := (metadataTemporary sha256Hex).
#[local] Abbreviation tempOf := (tempOf sha256Hex uuid).
#[local] Abbreviation durable := (durable sha256Hex uuid).

(** The keys in use, and the conditional writes: a key, a body and a content type each. *)
Context (keys : Key → Prop) (writes : list (Key * string * string)) (nodes0 : gmap path node).
Context (keys_ordinary : ∀ key, keys key → ordinary key = true).
Context (keys_apart : ∀ key key', keys key → keys key' → sha256Hex (key_value key) = sha256Hex (key_value key') → key = key').
Context (writes_keys : ∀ key body contentType, (key, body, contentType) ∈ writes → keys key).

(** The record of an object's content type. *)
Definition recordedAs (nodes : gmap path node) (key : Key) (contentType : string) : Prop :=
  ∃ record, nodes !! metadataPath key = Some (File record) ∧ defaultContentType <$> decodeMetadata record = Some contentType.
(** A content type that its record gives back. *)
Definition storable (contentType : string) : Prop :=
  defaultContentType <$> decodeMetadata (metadataBody contentType) = Some contentType.
Context (writes_storable : ∀ key body contentType, (key, body, contentType) ∈ writes → storable contentType).

Definition allowed (key : Key) (contentType body : string) : Prop :=
  (nodes0 !! keyPath key = Some (File body) ∧ recordedAs nodes0 key contentType) ∨ (key, body, contentType) ∈ writes.

(** The directories the writes make. *)
Definition made (p : path) : Prop :=
  p = [] ∨ p = [localMetadataDirName] ∨
  ∃ key body contentType i, (key, body, contentType) ∈ writes ∧ (i < length (keyPath key))%nat ∧ p = take i (keyPath key).

(** The bookkeeping: which temporary file an object was linked from. *)
Definition state : Type := disk * gmap path nat.
Record localInv (σ : state) : Prop := {
  li_rooted : wellRooted (dk_nodes σ.1);
  li_base : ∀ p n, durable p → nodes0 !! p = Some n → dk_nodes σ.1 !! p = Some n;
  li_recorded : ∀ key body, keys key → dk_nodes σ.1 !! keyPath key = Some (File body) →
    ∃ contentType, recordedAs (dk_nodes σ.1) key contentType ∧ allowed key contentType body;
  li_files : ∀ p content, durable p → dk_nodes σ.1 !! p = Some (File content) →
    nodes0 !! p = Some (File content) ∨
    ∃ key body contentType, (key, body, contentType) ∈ writes ∧
      (p = keyPath key ∧ content = body ∨ p = metadataPath key ∧ content = metadataBody contentType);
  li_dirs : ∀ p, durable p → dk_nodes σ.1 !! p = Some Dir → nodes0 !! p = Some Dir ∨ made p;
  li_fresh : ∀ n p, (dk_uuids σ.1 ≤ n)%nat → tempOf n p → dk_nodes σ.1 !! p = None;
  li_installed : ∀ p n, σ.2 !! p = Some n → nodes0 !! p = None ∧ durable p ∧ is_Some (dk_nodes σ.1 !! p);
}.

Record tolerates (own : gset nat) (σ σ' : state) : Prop := {
  to_durable : ∀ p n, durable p → dk_nodes σ.1 !! p = Some n → dk_nodes σ'.1 !! p = Some n;
  to_own : ∀ n p, n ∈ own → tempOf n p → dk_nodes σ'.1 !! p = dk_nodes σ.1 !! p;
  to_installed : ∀ p n, σ.2 !! p = Some n → σ'.2 !! p = Some n;
  to_issued : (dk_uuids σ.1 ≤ dk_uuids σ'.1)%nat;
}.
Lemma tolerates_refl own σ : tolerates own σ σ.
Proof. by split. Qed.
Lemma tolerates_trans own σ1 σ2 σ3 : tolerates own σ1 σ2 → tolerates own σ2 σ3 → tolerates own σ1 σ3.
Proof.
  intros [? H1 ? ?] [? H2 ? ?]. split; [auto| |auto|lia]. intros n p Hn Hp. by rewrite (H2 n), (H1 n).
Qed.

Lemma recordedAs_mono own σ σ' key contentType : tolerates own σ σ' →
  recordedAs (dk_nodes σ.1) key contentType → recordedAs (dk_nodes σ'.1) key contentType.
Proof.
  intros Ht (record & Hr & Hd). exists record. split; [|done].
  refine (to_durable _ _ _ Ht _ _ _ Hr). by apply durable_metadata.
Qed.

(** What a program that owns [own] may do without more thought: make directories, and
    anything to its own temporary files. *)
Record quiet (own : gset nat) (nodes nodes' : gmap path node) : Prop := {
  qu_keep : ∀ p n, durable p → nodes !! p = Some n → nodes' !! p = Some n;
  qu_files : ∀ p content, durable p → nodes' !! p = Some (File content) → nodes !! p = Some (File content);
  qu_dirs : ∀ p, durable p → nodes' !! p = Some Dir → nodes !! p = Some Dir ∨ made p;
  qu_others : ∀ n p, n ∉ own → tempOf n p → nodes' !! p = nodes !! p;
  qu_rooted : wellRooted nodes → wellRooted nodes';
}.
Lemma quiet_refl (own : gset nat) nodes : quiet own nodes nodes.
Proof. split; auto. Qed.

Lemma quiet_inv (own : gset nat) (σ : state) d' : quiet own (dk_nodes σ.1) (dk_nodes d') →
  (dk_uuids σ.1 ≤ dk_uuids d')%nat → (∀ n, n ∈ own → (n < dk_uuids d')%nat) → localInv σ → localInv (d', σ.2).
Proof.
  intros [Hk Hf Hdirs Ho Hr] Hu Hown [H1 H2 H3 H5 H6 H7 H4]. split; cbn; [auto|auto| |eauto|..].
  2: { intros p Hp [?|?]%Hdirs; auto. }
  2: { intros n p Hn Hp. rewrite (Ho n); [apply (H7 n); [lia|done]|intros Hin; specialize (Hown _ Hin); lia|done]. }
  2: { intros p n (? & Hd & [m Hm])%H4. split_and!; [done|done|]. exists m. by apply Hk. }
  intros key body Hkey Hb. apply Hf in Hb; [|by apply durable_key, keys_ordinary].
  destruct (H3 _ _ Hkey Hb) as (ct & (record & Hm & Hd) & Ha). exists ct. split; [|done]. exists record.
  split; [|done]. apply Hk; [by apply durable_metadata|done].
Qed.
Lemma quiet_guarantees (own : gset nat) (σ : state) d' : quiet own (dk_nodes σ.1) (dk_nodes d') → (dk_uuids σ.1 ≤ dk_uuids d')%nat →
  guarantees tolerates own σ (d', σ.2).
Proof.
  intros [Hk _ _ Ho _] Hu own' Hd. split; cbn; [done| |done|done]. intros n p Hn Hp. apply Ho with n; set_solver.
Qed.

(** ** Calls *)
#[local] Abbreviation exec := (FileSys.exec fault uuid).
#[local] Abbreviation steadily := (FileLaws.steadily fault uuid localInv tolerates).
#[local] Abbreviation owned := (λ σ own, ∀ n, n ∈ own → (n < dk_uuids σ.1)%nat).

(** A call gives its effect, or fails with an error of its own. *)
Lemma exec_cases {B} (c : call B) d r d' : exec c d = (r, d') →
  dk_uuids d' = (issues c + dk_uuids d)%nat ∧
  ((r, dk_nodes d') = effect uuid c (dk_nodes d) (dk_uuids d) ∨
   ∃ e w, failed c e w (dk_nodes d) = Some (r, dk_nodes d') ∧ isErr e ErrExist = false ∧ isErr e ErrNotExist = false).
Proof.
  unfold FileSys.exec. intros [= <- <-]. cbn. split; [done|].
  destruct (fault (dk_calls d)) as [[e w]|] eqn:E; [|left; by destruct (effect _ _ _ _)].
  destruct (failed c e w (dk_nodes d)) as [[r nodes]|] eqn:Ef; [right|left; by destruct (effect _ _ _ _)].
  exists e, w. apply fault_plain in E as [? ?]. by split_and!.
Qed.

Lemma mkdirAll_quiet (own : gset nat) nodes p r nodes' : (∀ i, durable (take i p)) → (∀ i, made (take i p)) →
  mkdirAll nodes p = (r, nodes') → quiet own nodes nodes'.
Proof.
  intros Hd Hm H%mkdirAll_spec. destruct H as [[Hk Hn Hr] _]. split; [..|done].
  - intros q n _ Hq. by eapply lookup_weaken.
  - intros q content _ Hq. destruct (nodes !! q) as [n|] eqn:E.
    + pose proof (lookup_weaken _ _ _ _ E Hk). congruence.
    + by destruct (Hn _ _ Hq E) as [? _].
  - intros q _ Hq. destruct (nodes !! q) as [n|] eqn:E.
    + left. pose proof (lookup_weaken _ _ _ _ E Hk). congruence.
    + right. destruct (Hn _ _ Hq E) as (_ & i & _ & ->). apply Hm.
  - intros n q _ Hq. destruct (nodes !! q) as [m|] eqn:E; [by eapply lookup_weaken|].
    apply eq_None_not_Some. intros [m Em]. destruct (Hn _ _ Em E) as (_ & i & _ & ->). by eapply Hd.
Qed.
Lemma temp_quiet (own : gset nat) n p nodes nodes' : n ∈ own → tempOf n p → (∀ q, q ≠ p → nodes' !! q = nodes !! q) →
  (wellRooted nodes → wellRooted nodes') → quiet own nodes nodes'.
Proof.
  intros Hn Hp He Hr. split; [| | | |done].
  - intros q m Hq Hm. rewrite He; [done|]. intros ->. by eapply Hq.
  - intros q c Hq. rewrite He; [done|]. intros ->. by eapply Hq.
  - intros q Hq. rewrite He; [by left|]. intros ->. by eapply Hq.
  - intros m q Hm Hq. apply He. intros ->. apply Hm. by rewrite (tempOf_unique sha256Hex uuid uuid_fresh m n p).
Qed.

(** A call that changes no node. *)
Definition silent {B} (c : call B) : bool :=
  match c with
  | CtxErr | OpenRoot | ReadFile _ | Stat _ | OpenFile _ | StatFile _ | WalkDir _ | NewString => true
  | _ => false
  end.
Lemma silent_nodes {B} (c : call B) d r d' : silent c = true → exec c d = (r, d') → dk_nodes d' = dk_nodes d.
Proof.
  intros Hs [_ [He|(e & w & He & _)]]%exec_cases; destruct c; try done; cbn in He;
    try (by injection He); try (case_match; by injection He).
Qed.

Lemma writeFile_nodes p body d r d' : exec (WriteFile p body) d = (r, d') →
  (∀ q, q ≠ p → dk_nodes d' !! q = dk_nodes d !! q) ∧ (wellRooted (dk_nodes d) → wellRooted (dk_nodes d')) ∧
  (∀ u, r = Ok u → dk_nodes d' !! p = Some (File body)).
Proof.
  assert (∀ body r nodes', writeFile (dk_nodes d) p body = (r, nodes') →
    (∀ q, q ≠ p → nodes' !! q = dk_nodes d !! q) ∧ (wellRooted (dk_nodes d) → wellRooted nodes')) as Hw.
  { intros b r' nodes' [(_ & Hp & Hd & ->)|(e & _ & ->)]%writeFile_spec; [|done]. split.
    - intros q Hq. by rewrite lookup_insert_ne.
    - intros H. by apply wellRooted_write. }
  intros [_ [He|(e & [w|] & He & _)]]%exec_cases; cbn in He.
  - destruct (Hw _ _ _ (eq_sym He)) as [H1 H2]. split_and!; [done|done|]. intros u Hu.
    apply eq_sym, writeFile_spec in He as [(_ & _ & _ & ->)|(e & -> & _)]; [apply lookup_insert_eq|done].
  - destruct (writeFile (dk_nodes d) p (String.substring 0 w body)) as [r1 n1] eqn:E. cbn in He. injection He as <- <-.
    destruct (Hw _ _ _ E) as [H1 H2]. by split_and!.
  - injection He as <- <-. by split_and!.
Qed.
Lemma remove_nodes p d r d' : exec (Remove p) d = (r, d') →
  (∀ q, q ≠ p → dk_nodes d' !! q = dk_nodes d !! q) ∧ (wellRooted (dk_nodes d) → wellRooted (dk_nodes d')).
Proof.
  intros [_ [He|(e & w & He & _)]]%exec_cases; cbn in He; [|by injection He as <- <-].
  apply eq_sym, remove_spec in He as [[->| ->] Hw]; split; [done|done|intros q Hq; by rewrite lookup_delete_ne|done].
Qed.
Lemma link_nodes old new d r d' : exec (Link old new) d = (r, d') →
  (r = Ok tt ∧ ∃ content, dk_nodes d !! old = Some (File content) ∧ dk_nodes d !! new = None ∧
     parentError (dk_nodes d) new = None ∧ dk_nodes d' = <[ new := File content ]> (dk_nodes d)) ∨
  (∃ e, r = Err e ∧ dk_nodes d' = dk_nodes d ∧ (dk_nodes d !! new = None → isErr e ErrExist = false)).
Proof.
  intros [_ [He|(e & w & He & Hx & _)]]%exec_cases; cbn in He; [by apply eq_sym, link_spec in He|].
  injection He as <- <-. right. by exists e.
Qed.

Lemma wellRooted_root nodes : wellRooted nodes → nodes !! [] = None ∨ nodes !! [] = Some Dir → wellRooted (<[ [] := Dir ]> nodes).
Proof.
  intros Hw H0 p n [[<- _]|[_ Hp]]%lookup_insert_Some; [done|]. apply (parentError_mono nodes); [|by eapply Hw].
  intros q Hq. destruct (decide (q = [])) as [->|]; [apply lookup_insert_eq|by rewrite lookup_insert_ne].
Qed.
Lemma mkdirRoot_nodes own d r d' : exec MkdirRoot d = (r, d') → quiet own (dk_nodes d) (dk_nodes d') ∧
  (∀ q, q ≠ [] → dk_nodes d' !! q = dk_nodes d !! q).
Proof.
  intros [_ [He|(e & w & He & _)]]%exec_cases; cbn in He; [|injection He as <- <-; split; [apply quiet_refl|done]].
  destruct (dk_nodes d !! []) as [[|content]|] eqn:E0; injection He as -> He; rewrite He;
    [rewrite insert_id by done; split; [apply quiet_refl|done]|split; [apply quiet_refl|done]|].
  split; [|intros q Hq; by rewrite lookup_insert_ne]. split.
  - intros p n _ Hp. rewrite lookup_insert_ne; [done|]. by intros <-; rewrite E0 in Hp.
  - intros p content _ [[_ ?]|[_ ?]]%lookup_insert_Some; done.
  - intros p _ [[<- _]|[_ ?]]%lookup_insert_Some; [right; by left|by left].
  - intros n p _ Hp. rewrite lookup_insert_ne; [done|]. intros <-. by eapply durable_root.
  - intros Hw. apply wellRooted_root; auto.
Qed.
Lemma mkdirAll_nodes own p d r d' : (∀ i, durable (take i p)) → (∀ i, made (take i p)) → exec (MkdirAll p) d = (r, d') → quiet own (dk_nodes d) (dk_nodes d').
Proof.
  intros Hd Hm [_ [He|(e & w & He & _)]]%exec_cases; cbn in He; [by eapply mkdirAll_quiet|].
  injection He as <- <-. apply quiet_refl.
Qed.

(** ** Rules for calls *)
#[local] Abbreviation safe := (FileLaws.safe fault uuid localInv tolerates).

Lemma safe_quiet {A B} Q (c : call B) (k : B → prog A) own (σ : state) :
  issues c = 0%nat → localInv σ →
  (∀ r d', exec c σ.1 = (r, d') → quiet own (dk_nodes σ.1) (dk_nodes d') ∧
     (localInv (d', σ.2) → steadily Q (k r) own (d', σ.2))) →
  safe Q (Call c k) own σ.
Proof.
  intros Hz Hi H. cbn. intros Hown. destruct (exec c σ.1) as [r d'] eqn:E. destruct (H _ _ eq_refl) as [Hq Hs]. unfold owning. rewrite Hz.
  pose proof (exec_issued _ _ _ _ _ _ E) as Hu. rewrite Hz in Hu. cbn in Hu.
  pose proof (quiet_inv _ _ _ Hq ltac:(lia) ltac:(intros n Hn; specialize (Hown n Hn); lia) Hi) as Hi'. exists σ.2. split_and!; [done| |by apply Hs].
  apply quiet_guarantees; [done|lia].
Qed.

Lemma safe_silent {A B} Q (c : call B) (k : B → prog A) own (σ : state) :
  issues c = 0%nat → silent c = true → localInv σ →
  (∀ r d', exec c σ.1 = (r, d') → dk_nodes d' = dk_nodes σ.1 → localInv (d', σ.2) → steadily Q (k r) own (d', σ.2)) →
  safe Q (Call c k) own σ.
Proof.
  intros Hz Hs Hi H. apply safe_quiet; [done|done|]. intros r d' E. pose proof (silent_nodes _ _ _ _ Hs E) as Hn.
  split; [rewrite Hn; apply quiet_refl|]. intros Hi'. by apply H.
Qed.

Lemma safe_new {A} Q (k : string → prog A) own (σ : state) :
  localInv σ →
  (∀ d', dk_nodes d' = dk_nodes σ.1 → localInv (d', σ.2) →
     steadily Q (k (uuid (dk_uuids σ.1))) ({[dk_uuids σ.1]} ∪ own) (d', σ.2)) →
  safe Q (Call NewString k) own σ.
Proof.
  intros Hi H. cbn. intros Hown. destruct (exec NewString σ.1) as [r d'] eqn:E. unfold owning. cbn [issues]. rewrite decide_True by done.
  pose proof (silent_nodes NewString _ _ _ eq_refl E) as Hn. apply exec_cases in E as [Hu [He|(e & w & He & _)]]; [|done].
  cbn in He. injection He as -> _. exists σ.2.
  assert (quiet ({[dk_uuids σ.1]} ∪ own) (dk_nodes σ.1) (dk_nodes d')) as Hq by (rewrite Hn; apply quiet_refl).
  cbn in Hu. assert (localInv (d', σ.2)) as Hi'.
  { eapply (quiet_inv _ _ _ Hq); [lia| |done]. intros n [->%elem_of_singleton|Hin]%elem_of_union; [lia|]. specialize (Hown n Hin). lia. }
  split_and!; [done| |by apply H]. apply quiet_guarantees; [done|lia].
Qed.

Lemma safe_temp {A B} Q (c : call B) (k : B → prog A) n p own (σ : state) :
  issues c = 0%nat → localInv σ → n ∈ own → tempOf n p →
  (∀ r d', exec c σ.1 = (r, d') → (∀ q, q ≠ p → dk_nodes d' !! q = dk_nodes σ.1 !! q) ∧
     (wellRooted (dk_nodes σ.1) → wellRooted (dk_nodes d')) ∧ (localInv (d', σ.2) → steadily Q (k r) own (d', σ.2))) →
  safe Q (Call c k) own σ.
Proof.
  intros Hz Hi Hn Hp H. apply safe_quiet; [done|done|]. intros r d' (H1 & H2 & H3)%H. split; [|done]. by eapply temp_quiet.
Qed.

Lemma safe_link {A} Q old new (k : result unit → prog A) own (σ : state) :
  localInv σ →
  (∀ e d', dk_nodes d' = dk_nodes σ.1 → (dk_nodes σ.1 !! new = None → isErr e ErrExist = false) → localInv (d', σ.2) →
     steadily Q (k (Err e)) own (d', σ.2)) →
  (∀ content d', dk_nodes σ.1 !! old = Some (File content) → dk_nodes σ.1 !! new = None →
     parentError (dk_nodes σ.1) new = None → dk_nodes d' = <[ new := File content ]> (dk_nodes σ.1) →
     dk_uuids d' = dk_uuids σ.1 →
     ∃ g, localInv (d', g) ∧ guarantees tolerates own σ (d', g) ∧ steadily Q (k (Ok tt)) own (d', g)) →
  safe Q (Call (Link old new) k) own σ.
Proof.
  intros Hi Herr Hok. cbn. intros Hown. destruct (exec (Link old new) σ.1) as [r d'] eqn:E. unfold owning. cbn [issues].
  rewrite decide_False by done. pose proof (exec_issued _ _ _ _ _ _ E) as Hu. cbn in Hu.
  destruct (link_nodes _ _ _ _ _ E) as [(-> & content & Ho & Hn & Hp & Hd)|(e & -> & Hd & He)].
  - destruct (Hok content d') as (g & Hg1 & Hg2 & Hg3); try done. by exists g.
  - assert (quiet own (dk_nodes σ.1) (dk_nodes d')) as Hq by (rewrite Hd; apply quiet_refl).
    pose proof (quiet_inv _ _ _ Hq ltac:(lia) ltac:(intros n Hin; specialize (Hown n Hin); lia) Hi). exists σ.2. split_and!; [done| |by apply Herr]. apply quiet_guarantees; [done|lia].
Qed.

(** ** The two links *)
Lemma link_guarantees own (σ : state) d' g p content : durable p → dk_nodes σ.1 !! p = None →
  dk_nodes d' = <[ p := File content ]> (dk_nodes σ.1) → dk_uuids d' = dk_uuids σ.1 →
  (∀ q n, σ.2 !! q = Some n → g !! q = Some n) → guarantees tolerates own σ (d', g).
Proof.
  intros Hp Hn Hd Hu Hg own' _. split; cbn; [| |done|lia].
  - intros q m _ Hq. rewrite Hd, lookup_insert_ne; [done|]. intros ->. congruence.
  - intros n q _ Hq. rewrite Hd, lookup_insert_ne; [done|]. intros ->. by eapply Hp.
Qed.

Lemma link_base (σ : state) p content d' : localInv σ → durable p → dk_nodes σ.1 !! p = None →
  parentError (dk_nodes σ.1) p = None → dk_nodes d' = <[ p := File content ]> (dk_nodes σ.1) → dk_uuids d' = dk_uuids σ.1 →
  (∃ key body contentType, (key, body, contentType) ∈ writes ∧
      (p = keyPath key ∧ content = body ∨ p = metadataPath key ∧ content = metadataBody contentType)) →
  (∀ key body, keys key → dk_nodes d' !! keyPath key = Some (File body) →
    ∃ contentType, recordedAs (dk_nodes d') key contentType ∧ allowed key contentType body) →
  ∀ g : gmap path nat, (∀ q n, g !! q = Some n → nodes0 !! q = None ∧ durable q ∧ is_Some (dk_nodes d' !! q)) → localInv (d', g).
Proof.
  intros Hi Hdur Hn Hp Hd Hu Hw Hrec g Hg. split; cbn; [| |done| | | |done].
  - rewrite Hd. apply wellRooted_write; [apply Hi|done|by rewrite Hn].
  - intros q n Hq Hb. apply (li_base _ Hi) in Hb; [|done]. rewrite Hd, lookup_insert_ne; [done|]. intros ->. congruence.
  - intros q c Hq. rewrite Hd. intros [[<- [= <-]]|[_ Hc]]%lookup_insert_Some; [by right|]. by apply (li_files _ Hi).
  - intros q Hq. rewrite Hd. intros [[_ ?]|[_ Hc]]%lookup_insert_Some; [done|]. by apply (li_dirs _ Hi).
  - intros n q Hlt Hq. rewrite Hd, lookup_insert_ne; [apply (li_fresh _ Hi n); [lia|done]|]. intros ->. by eapply Hdur.
Qed.

Lemma metadata_link own (σ : state) key body contentType d' : localInv σ → (key, body, contentType) ∈ writes →
  dk_nodes σ.1 !! metadataPath key = None → parentError (dk_nodes σ.1) (metadataPath key) = None →
  dk_nodes d' = <[ metadataPath key := File (metadataBody contentType) ]> (dk_nodes σ.1) → dk_uuids d' = dk_uuids σ.1 →
  localInv (d', σ.2) ∧ guarantees tolerates own σ (d', σ.2).
Proof.
  intros Hi Hw Hn Hp Hd Hu. split; [|eapply link_guarantees; try done; by apply durable_metadata].
  eapply link_base; try done; [by apply durable_metadata|eauto 10| |].
  - intros key' body' Hk Hb'. rewrite Hd, lookup_insert_ne in Hb' by (apply metadata_not_key; auto).
    destruct (li_recorded _ Hi _ _ Hk Hb') as (ct & (record & Hr & Hdec) & Ha). exists ct. split; [|done].
    exists record. split; [|done]. rewrite Hd, lookup_insert_ne; [done|]. intros E. rewrite E in Hn. congruence.
  - intros q m (? & ? & [x Hx])%(li_installed _ Hi). split_and!; [done|done|]. exists x. rewrite Hd, lookup_insert_ne; [done|].
    intros E. rewrite <- E, Hn in Hx. done.
Qed.

Lemma object_link own (σ : state) n key body contentType d' : localInv σ → (key, body, contentType) ∈ writes →
  recordedAs (dk_nodes σ.1) key contentType → dk_nodes σ.1 !! keyPath key = None →
  parentError (dk_nodes σ.1) (keyPath key) = None →
  dk_nodes d' = <[ keyPath key := File body ]> (dk_nodes σ.1) → dk_uuids d' = dk_uuids σ.1 →
  localInv (d', <[ keyPath key := n ]> σ.2) ∧ guarantees tolerates own σ (d', <[ keyPath key := n ]> σ.2).
Proof.
  intros Hi Hw Hrec Hn Hp Hd Hu. pose proof (keys_ordinary _ (writes_keys _ _ _ Hw)) as Hord.
  assert (durable (keyPath key)) as Hdur by (by apply durable_key).
  assert (σ.2 !! keyPath key = None) as Hg.
  { apply eq_None_not_Some. intros [m (_ & _ & [x Hx])%(li_installed _ Hi)]. congruence. }
  split; [|eapply link_guarantees; try done; intros q m Hq; rewrite lookup_insert_ne; [done|congruence]].
  eapply link_base; try done; [eauto 10| |].
  - intros key' body' Hk Hb'. assert (∀ ct, recordedAs (dk_nodes σ.1) key' ct → recordedAs (dk_nodes d') key' ct) as Hm.
    { intros ct (record & Hr & Hdec). exists record. split; [|done]. rewrite Hd, lookup_insert_ne; [done|].
      intros E. symmetry in E. by eapply metadata_not_key. }
    rewrite Hd in Hb'. apply lookup_insert_Some in Hb' as [[E [= <-]]|[_ Hb']].
    + apply keyPath_inj in E as <-. exists contentType. split; [by apply Hm|by right].
    + destruct (li_recorded _ Hi _ _ Hk Hb') as (ct & Hr & Ha). eauto.
  - intros q m [[<- <-]|[Hne Hq]]%lookup_insert_Some.
    + split_and!; [|done|rewrite Hd, lookup_insert_eq; by eexists].
      apply eq_None_not_Some. intros [x Hx%(li_base _ Hi)]; [|done]. congruence.
    + apply (li_installed _ Hi) in Hq as (? & ? & [x Hx]). split_and!; [done|done|]. exists x. by rewrite Hd, lookup_insert_ne.
Qed.

(** ** A conditional write *)

(** The object is there, linked from a temporary file of the program. *)
Definition landedAt (key : Key) (body contentType : string) (own : gset nat) (σ : state) : Prop :=
  (∃ n, n ∈ own ∧ σ.2 !! keyPath key = Some n) ∧ dk_nodes σ.1 !! keyPath key = Some (File body) ∧
  recordedAs (dk_nodes σ.1) key contentType.
Definition landed (key : Key) (body contentType : string) (own : gset nat) (r : result ObjectInfo) (σ : disk * gmap path nat) : Prop :=
  ∀ info, r = Ok info → info = objectInfo key contentType body ∧ landedAt key body contentType own σ.

Lemma landedAt_mono key body contentType own σ σ' : ordinary key = true → tolerates own σ σ' →
  landedAt key body contentType own σ → landedAt key body contentType own σ'.
Proof.
  intros Ho Ht ((n & Hn & Hg) & Hb & Hr). split_and!.
  - exists n. split; [done|]. by apply (to_installed _ _ _ Ht).
  - apply (to_durable _ _ _ Ht); [by apply durable_key|done].
  - by eapply recordedAs_mono.
Qed.

(** Removing the temporary file before an error is returned. *)
Lemma cleanup_safe key body contentType own σ n p e : localInv σ → n ∈ own → tempOf n p →
  safe (landed key body contentType) (Call (Remove p) (λ _, Ret (Err e))) own σ.
Proof.
  intros Hi Hn Hp. eapply safe_temp; [done|done|exact Hn|exact Hp|]. intros r d' E. destruct (remove_nodes _ _ _ _ E) as [H1 H2]. split_and!; [done|done|].
  by intros _ σ' _ _ info ?.
Qed.

Section Write.
Context (key : Key) (body contentType : string) (write : (key, body, contentType) ∈ writes).
#[local] Abbreviation ownsTemp n own σ :=
  (n ∈ own ∧ dk_nodes σ.1 !! temporaryFor (keyPath key) (uuid n) = Some (File body)).
Let key_in : keys key := writes_keys _ _ _ write.
Let key_ordinary : ordinary key = true := keys_ordinary _ key_in.

Lemma ownsTemp_mono n own σ σ' : tolerates own σ σ' → ownsTemp n own σ → ownsTemp n own σ'.
Proof. intros Ht [Hn Hb]. split; [done|]. rewrite (to_own _ _ _ Ht n); [done|done|apply temporaryFor_temp]. Qed.

Lemma readFile_present p d r d' : exec (ReadFile p) d = (r, d') → wellRooted (dk_nodes d) → is_Some (dk_nodes d !! p) →
  (∃ content, r = Ok content ∧ dk_nodes d !! p = Some (File content)) ∨ (∃ e, r = Err e ∧ isErr e ErrNotExist = false).
Proof.
  intros [_ [He|(e & w & He & _ & Hx)]]%exec_cases Hw [n Hn]; cbn in He; [|right; injection He as <- _; by exists e].
  unfold readFile in He. rewrite (proj2 (resolve_Ok _ _ _ Hw) Hn) in He. destruct n as [|content]; injection He as -> _; eauto.
Qed.

Lemma readContentType_safe n own σ : localInv σ → ownsTemp n own σ → is_Some (dk_nodes σ.1 !! metadataPath key) →
  safe (λ own' r σ', localInv σ' ∧ ownsTemp n own' σ' ∧ ∀ ct, r = Ok ct → recordedAs (dk_nodes σ'.1) key ct)
    (readContentType sha256Hex key) own σ.
Proof.
  intros Hi Hown Hm. apply safe_silent; [done|done|done|]. intros r d' Hr Hd Hi' σ' Ht Hi''.
  assert (ownsTemp n own σ') as Hown' by (eapply ownsTemp_mono; [done|]; cbn; by rewrite Hd).
  apply readFile_present in Hr; [|apply Hi|done]. destruct Hr as [(record & -> & Hrec)|(e & -> & He)].
  - destruct (decodeMetadata record) as [ct|] eqn:Ed; cbn; (split_and!; [done|apply Hown'|apply Hown'|]); [|done].
    intros ct' [= <-]. eapply recordedAs_mono; [exact Ht|]. exists record. cbn. rewrite Hd, Ed. by split.
  - rewrite He. cbn. split_and!; [done|apply Hown'|apply Hown'|done].
Qed.

Lemma writeMetadataIfAbsent_safe n own σ : localInv σ → ownsTemp n own σ →
  safe (λ own' r σ', localInv σ' ∧ ownsTemp n own' σ' ∧
          match r with
          | Ok true => recordedAs (dk_nodes σ'.1) key contentType
          | Ok false => is_Some (dk_nodes σ'.1 !! metadataPath key)
          | Err _ => True
          end)
    (writeMetadataIfAbsent sha256Hex key contentType) own σ.
Proof.
  intros Hi Hown. apply safe_quiet; [done|done|]. intros r d1 E1.
  assert (∀ i, durable (take i [localMetadataDirName])) as Hdir.
  { intros [|[|i]]; [by apply durable_root|by apply durable_metadata_dir|by apply durable_metadata_dir]. }
  assert (∀ i, made (take i [localMetadataDirName])) as Hmade by (intros [|[|i]]; [by left|right; by left|right; by left]).
  pose proof (mkdirAll_nodes own _ _ _ _ Hdir Hmade E1) as Hq.
  split; [done|]. intros Hi1 σ1 Ht1 Hj1.
  assert (ownsTemp n own σ1) as Hown1.
  { eapply ownsTemp_mono; [exact Ht1|]. split; [apply Hown|]. cbn. rewrite (qu_others ∅ _ _ (mkdirAll_nodes ∅ _ _ _ _ Hdir Hmade E1) n); [apply Hown|set_solver|apply temporaryFor_temp]. }
  destruct r as [[]|e]; [|by split].
  apply safe_new; [done|]. intros d2 Hd2 Hi2 σ2 Ht2 Hj2. set (m := dk_uuids σ1.1) in *.
  assert (ownsTemp n ({[m]} ∪ own) σ2) as Hown2 by (eapply ownsTemp_mono; [exact Ht2|]; cbn; rewrite Hd2; set_solver).
  assert (∀ (own' : gset nat) (σ' σ'' : state), ownsTemp n own' σ' →
    (∀ q, q ≠ metadataTemporary key (uuid m) → dk_nodes σ''.1 !! q = dk_nodes σ'.1 !! q) → ownsTemp n own' σ'') as Hkeep.
  { intros own' σ' σ'' [? ?] Hsame. split; [done|]. rewrite Hsame; [done|]. by apply temporaries_differ. }
  eapply (safe_temp _ _ _ m); [done|done|set_solver|apply metadataTemporary_temp|].
  intros r d3 (H31 & H32 & H33)%writeFile_nodes. split_and!; [done|done|]. intros Hi3 σ3 Ht3 Hj3.
  assert (ownsTemp n ({[m]} ∪ own) σ3) as Hown3 by (eapply ownsTemp_mono; [exact Ht3|]; by eapply (Hkeep _ σ2)).
  destruct r as [[]|e]; [|by split].
  assert (dk_nodes σ3.1 !! metadataTemporary key (uuid m) = Some (File (metadataBody contentType))) as Hmeta.
  { rewrite (to_own _ _ _ Ht3 m); [by eapply H33|set_solver|apply metadataTemporary_temp]. }
  assert (∀ (linked : result unit) (σ4 : state), localInv σ4 → ownsTemp n ({[m]} ∪ own) σ4 →
    match linked with
    | Ok _ => recordedAs (dk_nodes σ4.1) key contentType
    | Err e => isErr e ErrExist = true → is_Some (dk_nodes σ4.1 !! metadataPath key)
    end → safe (λ own' r σ', localInv σ' ∧ ownsTemp n own' σ' ∧
          match r with
          | Ok true => recordedAs (dk_nodes σ'.1) key contentType
          | Ok false => is_Some (dk_nodes σ'.1 !! metadataPath key)
          | Err _ => True
          end) (Call (Remove (metadataTemporary key (uuid m))) (λ _, Ret match linked with
      | Ok _ => Ok true
      | Err err =>
          if isErr err ErrExist then Ok false
          else Err (Errorf "install metadata for %s if absent: %w" [AStr (key_value key); AWrap err])
      end)) ({[m]} ∪ own) σ4) as Hlast.
  { intros linked σ4 Hj4 Hown4 Hlinked. eapply (safe_temp _ _ _ m); [done|done|set_solver|apply metadataTemporary_temp|].
    intros r d5 [H51 H52]%remove_nodes. split_and!; [done|done|]. intros Hi5 σ5 Ht5 Hj5.
    assert (dk_nodes d5 !! metadataPath key = dk_nodes σ4.1 !! metadataPath key) as Hsame.
    { apply H51. intros E. eapply (durable_metadata sha256Hex uuid); [done|]. rewrite E. apply metadataTemporary_temp. }
    cbn. split_and!; [done|eapply ownsTemp_mono; [exact Ht5|]; by eapply (Hkeep _ σ4)|eapply ownsTemp_mono; [exact Ht5|]; by eapply (Hkeep _ σ4)|].
    destruct linked as [[]|e].
    - eapply recordedAs_mono; [exact Ht5|]. destruct Hlinked as (record & Hr & Hdec). exists record. cbn. by rewrite Hsame.
    - destruct (isErr e ErrExist) eqn:Ee; [|done]. destruct (Hlinked eq_refl) as [x Hx]. exists x.
      apply (to_durable _ _ _ Ht5); [by apply durable_metadata|]. cbn. by rewrite Hsame. }
  apply safe_link; [done| |].
  - intros e d4 Hd4 He Hi4 σ4 Ht4 Hj4. apply (Hlast (Err e)); [done|eapply ownsTemp_mono; [exact Ht4|]; cbn; by rewrite Hd4|].
    intros Hex. destruct (dk_nodes σ3.1 !! metadataPath key) as [x|] eqn:Ex; [|by rewrite He in Hex].
    exists x. apply (to_durable _ _ _ Ht4); [by apply durable_metadata|]. cbn. by rewrite Hd4.
  - intros content d4 Hold Hnew Hpar Hd4 Hu. rewrite Hmeta in Hold. injection Hold as <-.
    destruct (metadata_link ({[m]} ∪ own) _ _ _ _ _ Hj3 write Hnew Hpar Hd4 Hu) as [Hi4 Hg4]. exists σ3.2. split_and!; [done|done|].
    intros σ4 Ht4 Hj4. apply (Hlast (Ok tt)); [done| |].
    + eapply ownsTemp_mono; [exact Ht4|]. split; [apply Hown3|]. cbn. rewrite Hd4, lookup_insert_ne; [apply Hown3|].
      intros E. eapply (durable_metadata sha256Hex uuid); [done|]. rewrite E. apply temporaryFor_temp.
    + eapply recordedAs_mono; [exact Ht4|]. exists (metadataBody contentType). cbn. rewrite Hd4, lookup_insert_eq.
      split; [done|]. by eapply writes_storable.
Qed.

Lemma install_safe n own σ : localInv σ → ownsTemp n own σ → recordedAs (dk_nodes σ.1) key contentType →
  safe (landed key body contentType)
    (orElse (Link (temporaryFor (keyPath key) (uuid n)) (keyPath key))
      (λ err,
        if isErr err ErrExist then Call (Remove (temporaryFor (keyPath key) (uuid n))) (λ _,
          Ret (Err (Errorf "put %s if absent: %w" [AStr (key_value key); AWrap ErrAlreadyExists])))
        else Call (Remove (temporaryFor (keyPath key) (uuid n))) (λ _,
          Ret (Err (Errorf "install object %s if absent: %w" [AStr (key_value key); AWrap err])))) (λ _,
    orElse (Remove (temporaryFor (keyPath key) (uuid n)))
      (λ err, Ret (Err (Errorf "remove temporary object for %s: %w" [AStr (key_value key); AWrap err]))) (λ _,
    Ret (Ok (objectInfo key contentType body))))) own σ.
Proof.
  intros Hi [Hn Hb] Hrec. apply safe_link; [done| |].
  - intros e d1 _ _ _ σ1 _ Hj. destruct (isErr e ErrExist); (eapply cleanup_safe; [done|exact Hn|apply temporaryFor_temp]).
  - intros content d1 Hold Hnew Hpar Hd1 Hu. rewrite Hb in Hold. injection Hold as <-.
    destruct (object_link own σ n key body contentType d1 Hi write Hrec Hnew Hpar Hd1 Hu) as [Hi1 Hg1].
    eexists. split_and!; [exact Hi1|exact Hg1|]. intros σ1 Ht1 Hj1.
    assert (landedAt key body contentType own σ1) as Hl.
    { eapply landedAt_mono; [done|exact Ht1|]. split_and!.
      - exists n. split; [done|]. apply lookup_insert_eq.
      - cbn. rewrite Hd1. apply lookup_insert_eq.
      - destruct Hrec as (record & Hr & Hdec). exists record. split; [|done]. cbn. rewrite Hd1, lookup_insert_ne; [done|].
        intros E. symmetry in E. by eapply metadata_not_key. }
    eapply safe_temp; [done|done|exact Hn|apply temporaryFor_temp|]. intros r d2 E2.
    destruct (remove_nodes _ _ _ _ E2) as [H1 H2]. split_and!; [done|done|]. intros Hi2 σ2 Ht2 Hj2.
    destruct r as [[]|e]; [|by intros info ?]. intros info [= <-]. split; [done|].
    eapply landedAt_mono; [done|exact Ht2|]. destruct Hl as (Hg & Hbody & (record & Hr & Hdec)). split_and!.
    + done.
    + cbn. rewrite H1; [done|]. intros E. assert (durable (keyPath key)) as Hdur by (by apply durable_key).
      apply (Hdur n). rewrite E. apply temporaryFor_temp.
    + exists record. split; [|done]. cbn. rewrite H1; [done|]. intros E.
      eapply (durable_metadata sha256Hex uuid); [done|]. rewrite E. apply temporaryFor_temp.
Qed.

Lemma installIfAbsent_safe n own σ : localInv σ → ownsTemp n own σ →
  safe (landed key body contentType)
    (installIfAbsent sha256Hex key body contentType (keyPath key) (temporaryFor (keyPath key) (uuid n))) own σ.
Proof.
  intros Hi Hown. unfold installIfAbsent, try_.
  refine (safe_bind _ _ _ _ _ _ _ _ _ _ (writeMetadataIfAbsent_safe n own σ Hi Hown) _). cbn beta.
  intros own1 r σ1 _ (Hj1 & Hown1 & Hr). destruct r as [[]|e].
  - by apply install_safe.
  - refine (safe_bind _ _ _ _ _ _ _ _ _ _ (readContentType_safe n own1 σ1 Hj1 Hown1 Hr) _). cbn beta. intros own2 r σ2 _ (Hj2 & Hown2 & Hr2).
    destruct r as [ct|e].
    + case_bool_decide as Hct; [subst ct; apply install_safe; auto|]. eapply cleanup_safe; [done|apply Hown2|apply temporaryFor_temp].
    + eapply cleanup_safe; [done|apply Hown2|apply temporaryFor_temp].
  - eapply cleanup_safe; [done|apply Hown1|apply temporaryFor_temp].
Qed.

Lemma localPut_safe declared own σ : defaultContentType declared = contentType →
  steadily (landed key body contentType)
    (localPut sha256Hex key body {| po_ContentType := declared; po_IfAbsent := true |}) own σ.
Proof.
  intros Hct σ1 _ Hj1. unfold localPut. cbn [po_ContentType po_IfAbsent]. rewrite Hct.
  apply safe_silent; [done|done|done|]. intros r1 d1 _ _ _ σ2 _ Hj2. destruct r1 as [[]|e]; [|by intros info ?].
  apply safe_quiet; [done|done|]. intros r2 d2 E2. split; [by apply (mkdirRoot_nodes own) in E2 as [? _]|].
  intros _ σ3 _ Hj3. destruct r2 as [[]|e]; [|by intros info ?].
  apply safe_silent; [done|done|done|]. intros r3 d3 _ _ _ σ4 _ Hj4. destruct r3 as [[]|e]; [|by intros info ?].
  destruct (ordinary_path key key_ordinary) as (-> & _ & _).
  apply safe_quiet; [done|done|]. intros r4 d4 E4. split.
  { eapply mkdirAll_nodes; [| |exact E4]; intros i; unfold dirOf; rewrite take_take; [by apply durable_dir|].
    right. right. exists key, body, contentType, (i `min` pred (length (keyPath key)))%nat. split_and!; [done| |done].
    pose proof (keyPath_nonempty key). destruct (keyPath key); [done|]. cbn. lia. }
  intros _ σ5 _ Hj5. destruct r4 as [[]|e]; [|by intros info ?].
  apply safe_new; [done|]. intros d6 _ _ σ6 _ Hj6. set (n := dk_uuids σ5.1) in *.
  eapply (safe_temp _ _ _ n); [done|done|set_solver|apply temporaryFor_temp|]. intros r7 d7 E7.
  destruct (writeFile_nodes _ _ _ _ _ E7) as (H1 & H2 & H3). split_and!; [done|done|]. intros _ σ7 Ht7 Hj7.
  destruct r7 as [[]|e]; [|by intros info ?]. apply installIfAbsent_safe; [done|].
  eapply ownsTemp_mono; [exact Ht7|]. split; [set_solver|]. cbn. by eapply H3.
Qed.
End Write.
End Conditional.
