(* ===== verification/LocalCorrect.v ===== *)
(** * What the local datastore promises

    Conditional writes by any number of programs at once, with failing calls and crashes: an
    object that a reader sees never changes, it carries the body and the content type of one
    write, and at most one write of a key succeeds.  A write that was cut short anywhere can
    be made again.  A store that nobody else uses behaves as the memory store. *)

From S2P Require Import Prelude Utf16 Text Canonical CanonicalText Json JsonRaw SourceIdentity Datastore FileSys FileLaws LocalStore LocalSafety.
From Stdlib Require Import Ascii.
From stdpp Require Import gmap.
#[local] Open Scope Z_scope.
#[local] Arguments isErr : simpl never.

(** What [Get] gives a reader whose calls do not fail: a content type and a body. *)
Definition visible (sha256Hex : string → string) (d : disk) (key : Key) : option (string * string) :=
  match (run (λ _, None) (λ _, "") (localGet sha256Hex key) d).1 with
  | Ok object => Some (oi_ContentType (ob_Info object), ob_Body object)
  | Err _ => None
  end.

(** A call that does not fail has its effect. *)
Lemma exec_effect uuid {B} (c : call B) d :
  exec (λ _, None) uuid c d = ((effect uuid c (dk_nodes d) (dk_uuids d)).1,
    {| dk_nodes := (effect uuid c (dk_nodes d) (dk_uuids d)).2; dk_calls := S (dk_calls d); dk_uuids := issues c + dk_uuids d |}).
Proof. done. Qed.

Section Visible.
Context (sha256Hex : string → string).

Lemma visible_nodes d key : ordinary key = true → wellRooted (dk_nodes d) →
  visible sha256Hex d key =
  match dk_nodes d !! keyPath key with
  | Some (File body) =>
      match readFile (dk_nodes d) (metadataPath sha256Hex key) with
      | Ok record => (λ ct, (defaultContentType ct, body)) <$> decodeMetadata record
      | Err e => if isErr e ErrNotExist then Some (defaultContentType "", body) else None
      end
  | _ => None
  end.
Proof.
  intros Hk Hw. destruct (ordinary_path key Hk) as (Hp & _ & _).
  assert (∀ n, dk_nodes d !! keyPath key = Some n → dk_nodes d !! [] = Some Dir) as Hroot.
  { intros n Hn. apply (proj1 (parentError_None _ _) (Hw _ _ Hn) 0%nat). destruct (keyPath key) eqn:E; [by apply keyPath_nonempty in E|cbn; lia]. }
  unfold visible, localGet, opened, orElse. rewrite Hp. cbn [run]. rewrite exec_effect. cbn [effect fst snd run]. rewrite exec_effect.
  cbn [effect fst snd dk_nodes]. unfold dirError. destruct (dk_nodes d !! []) as [[|content]|] eqn:E0; cbn [run fst snd].
  2,3: destruct (dk_nodes d !! keyPath key) as [n|] eqn:En; [pose proof (Hroot n eq_refl); congruence|done].
  rewrite exec_effect. cbn [effect fst snd dk_nodes]. unfold readFile at 1.
  destruct (dk_nodes d !! keyPath key) as [n|] eqn:En.
  - rewrite (proj2 (resolve_Ok _ _ _ Hw) En). destruct n as [|body]; cbn [run fst snd]; [done|].
    unfold readContentType, try_. cbn [bindProg run]. rewrite exec_effect. cbn [effect fst snd dk_nodes].
    destruct (readFile (dk_nodes d) (metadataPath sha256Hex key)) as [record|e]; cbn [run fst snd bindProg].
    + by destruct (decodeMetadata record).
    + by destruct (isErr e ErrNotExist).
  - unfold resolve. destruct (parentError (dk_nodes d) (keyPath key)) as [e|]; [|rewrite En]; cbn; repeat case_match; done.
Qed.

(** An object that has its record. *)
Lemma visible_recorded d key contentType body : ordinary key = true → wellRooted (dk_nodes d) →
  (∀ b, dk_nodes d !! keyPath key = Some (File b) → ∃ ct, recordedAs sha256Hex (dk_nodes d) key ct) →
  visible sha256Hex d key = Some (contentType, body) ↔
  dk_nodes d !! keyPath key = Some (File body) ∧ recordedAs sha256Hex (dk_nodes d) key contentType.
Proof.
  intros Hk Hw Hrec. rewrite visible_nodes by done. destruct (dk_nodes d !! keyPath key) as [[|b]|]; [naive_solver| |naive_solver].
  destruct (Hrec b eq_refl) as (ct & record & Hr & Hd). unfold readFile. rewrite (proj2 (resolve_Ok _ _ _ Hw) Hr). split.
  - intros E. destruct (decodeMetadata record) as [ct'|] eqn:Edec; [|done]. injection E as <- <-. split; [done|]. exists record. by rewrite Edec.
  - intros [[= <-] (record' & Hr' & Hd')]. rewrite Hr in Hr'. injection Hr' as <-.
    destruct (decodeMetadata record); [|done]. by injection Hd' as <-.
Qed.

(** ** Side by side *)

(** The platform: SHA-256 gives 64 hexadecimal digits, fresh names never repeat nor end in one
    another, and a call that fails for reasons of its own does not say that a file exists or
    is missing. *)
Record platform (fault : nat → option (error * option nat)) (uuid : nat → string) : Prop := {
  pf_sha256 : ∀ s, digestHex (sha256Hex s) = true;
  pf_uuid : ∀ n m a b, a +:+ uuid n = b +:+ uuid m → n = m;
  pf_fault : ∀ n e w, fault n = Some (e, w) → isErr e ErrExist = false ∧ isErr e ErrNotExist = false;
}.

(** The keys in use: none is a name the store uses for itself, and no two share a digest. *)
Record usable (keys : list Key) : Prop := {
  us_ordinary : ∀ key, key ∈ keys → ordinary key = true;
  us_apart : ∀ key key', key ∈ keys → key' ∈ keys → sha256Hex (key_value key) = sha256Hex (key_value key') → key = key';
}.

(** A store in which every object has its record, and no name is in use that is still to be
    issued. *)
Record sound (uuid : nat → string) (keys : list Key) (d : disk) : Prop := {
  so_rooted : wellRooted (dk_nodes d);
  so_recorded : ∀ key body, key ∈ keys → dk_nodes d !! keyPath key = Some (File body) →
    ∃ contentType, recordedAs sha256Hex (dk_nodes d) key contentType;
  so_fresh : ∀ n p, (dk_uuids d ≤ n)%nat → tempOf sha256Hex uuid n p → dk_nodes d !! p = None;
}.

(** Conditional writes: a key, a body and a declared content type each. *)
Definition conditionalPut (write : Key * string * string) : prog (result ObjectInfo) :=
  let '(key, body, declared) := write in
  localPut sha256Hex key body {| po_ContentType := declared; po_IfAbsent := true |}.
Definition withDefault (write : Key * string * string) : Key * string * string :=
  let '(key, body, declared) := write in (key, body, defaultContentType declared).

Section Race.
Context (fault : nat → option (error * option nat)) (uuid : nat → string) (P : platform fault uuid).
Context (keys : list Key) (U : usable keys) (writes : list (Key * string * string)).
Context (writes_keys : ∀ key body declared, (key, body, declared) ∈ writes → key ∈ keys ∧ storable (defaultContentType declared)).
Context (d0 : disk) (S0 : sound uuid keys d0).
#[local] Abbreviation steps := (rtc (poolStep fault uuid)).
#[local] Abbreviation inv := (localInv sha256Hex uuid (.∈ keys) (map withDefault writes) (dk_nodes d0)).

Definition landing (i : nat) (own : gset nat) (r : result ObjectInfo) (σ : disk * gmap path nat) : Prop :=
  match map withDefault writes !! i with
  | Some (key, body, contentType) => landed sha256Hex key body contentType own r σ
  | None => True
  end.

Lemma withDefault_in key body contentType : (key, body, contentType) ∈ map withDefault writes →
  key ∈ keys ∧ storable contentType ∧ ∃ declared, (key, body, declared) ∈ writes ∧ contentType = defaultContentType declared.
Proof.
  intros ([[k b] declared] & [= -> -> ->] & Hin)%list_elem_of_fmap. destruct (writes_keys _ _ _ Hin). eauto.
Qed.

Lemma race_start : together fault uuid inv (tolerates sha256Hex uuid) landing (map conditionalPut writes) (d0, ∅) (λ _, ∅).
Proof.
  split.
  - split; cbn; [apply S0|done| |by left|by left|apply S0|done]. intros key body Hk Hb.
    destruct (so_recorded _ _ _ S0 _ _ Hk Hb) as [ct Hr]. exists ct. split; [done|by left].
  - set_solver.
  - set_solver.
  - intros i p Hp. rewrite list_lookup_fmap in Hp. destruct (writes !! i) as [[[key body] declared]|] eqn:Ei; [|done].
    injection Hp as <-. assert ((key, body, defaultContentType declared) ∈ map withDefault writes) as Hin.
    { apply list_elem_of_fmap. exists (key, body, declared). split; [done|]. by eapply list_elem_of_lookup_2. }
    assert (landing i = landed sha256Hex key body (defaultContentType declared)) as ->.
    { unfold landing. by rewrite list_lookup_fmap, Ei. }
    apply localPut_safe; try done; try apply P; try apply U.
    + intros k b c Hk%withDefault_in. apply Hk.
    + intros k b c Hk%withDefault_in. apply Hk.
Qed.

Lemma race_steps x y g owns : together fault uuid inv (tolerates sha256Hex uuid) landing x.1 (x.2, g) owns → steps x y →
  ∃ g' owns', together fault uuid inv (tolerates sha256Hex uuid) landing y.1 (y.2, g') owns' ∧
    tolerates sha256Hex uuid ∅ (x.2, g) (y.2, g').
Proof.
  intros Ht Hs. eapply together_steps; [..|exact Hs|exact Ht].
  - apply tolerates_refl.
  - apply tolerates_trans.
  - intros own σ σ' H. by apply (to_issued _ _ _ _ _ H).
Qed.

Lemma race_visible d g key contentType body : inv (d, g) → key ∈ keys →
  visible sha256Hex d key = Some (contentType, body) ↔
  dk_nodes d !! keyPath key = Some (File body) ∧ recordedAs sha256Hex (dk_nodes d) key contentType.
Proof.
  intros Hi Hk. apply visible_recorded; [by apply U|by apply (li_rooted _ _ _ _ _ _ Hi)|].
  intros b Hb. destruct (li_recorded _ _ _ _ _ _ Hi _ _ Hk Hb) as (ct & Hr & _). eauto.
Qed.
End Race.
End Visible.

