(* ===== verification/LocalAlone.v ===== *)
(** * Operations whose calls do not fail

    What one operation of the local store does, from beginning to end, when nothing goes wrong
    and no one else is at work: a write installs its object and its record and leaves no
    temporary file; a read gives what is there. *)

From S2P Require Import Prelude Utf16 Text Canonical CanonicalText SourceIdentity Datastore FileSys FileLaws LocalStore LocalSafety LocalCorrect.
From stdpp Require Import gmap.
#[local] Open Scope Z_scope.
#[local] Arguments isErr : simpl never.

Lemma run_bind fault uuid {A B} (p : prog A) (f : A → prog B) d :
  run fault uuid (bindProg p f) d = let '(a, d') := run fault uuid p d in run fault uuid (f a) d'.
Proof.
  revert d. induction p as [a|B' c k IH]; intros d; cbn; [done|]. destruct (exec fault uuid c d) as [r d']. apply IH.
Qed.

Section Alone.
Context (sha256Hex : string → string) (uuid : nat → string).
Context (sha256_hex : ∀ s, digestHex (sha256Hex s) = true).
Context (uuid_fresh : ∀ n m a b, a +:+ uuid n = b +:+ uuid m → n = m).
#[local] Abbreviation metadataPath := (metadataPath sha256Hex).
#[local] Abbreviation metadataTemporary := (metadataTemporary sha256Hex).
#[local] Abbreviation tempOf := (tempOf sha256Hex uuid).
#[local] Abbreviation durable := (durable sha256Hex uuid).
#[local] Abbreviation exec := (FileSys.exec (λ _, None) uuid).
#[local] Abbreviation run := (FileSys.run (λ _, None) uuid).

(** Where directories may be made. *)
Context (mayMake : path → Prop) (make_root : mayMake []) (make_metadata : mayMake [localMetadataDirName]).

(** The tree after a part of a write: the [installs] are there, directories may be new, and
    only temporary names issued from [lo] to [hi] are touched. *)
Record evolves (installs : gmap path string) (lo hi : nat) (a b : gmap path node) : Prop := {
  ev_installed : ∀ p content, installs !! p = Some content → b !! p = Some (File content);
  ev_keep : ∀ p n, durable p → installs !! p = None → a !! p = Some n → b !! p = Some n;
  ev_files : ∀ p content, durable p → installs !! p = None → b !! p = Some (File content) → a !! p = Some (File content);
  ev_dirs : ∀ p, durable p → b !! p = Some Dir → a !! p = Some Dir ∨ mayMake p;
  ev_temps : ∀ n p, (n < lo ∨ hi ≤ n)%nat → tempOf n p → b !! p = a !! p;
  ev_rooted : wellRooted a → wellRooted b;
}.

Lemma evolves_refl lo hi a : evolves ∅ lo hi a a.
Proof. split; [done|auto..]. Qed.
Lemma evolves_trans i j lo hi a b c : (∀ p, p ∈ dom i → durable p) →
  evolves i lo hi a b → evolves j lo hi b c → evolves (j ∪ i) lo hi a c.
Proof.
  intros Hd [A1 A2 A3 A6 A4 A5] [B1 B2 B3 B6 B4 B5]. split; [| | | | |auto].
  - intros p content [Hp|[Hn Hp]]%lookup_union_Some_raw; [by apply B1|]. apply B2; [|done|by apply A1].
    apply Hd, elem_of_dom. by eexists.
  - intros p n Hp [Hj Hi]%lookup_union_None Ha. auto.
  - intros p content Hp [Hj Hi]%lookup_union_None Hc. auto.
  - intros p Hp [Hb|?]%B6; [by apply A6|by right|done].
  - intros n p Hn Hp. by rewrite (B4 n), (A4 n).
Qed.
Lemma evolves_then lo hi a b c j : evolves ∅ lo hi a b → evolves j lo hi b c → evolves j lo hi a c.
Proof. intros H1 H2. rewrite <- (right_id_L ∅ (∪) j). eapply evolves_trans; [set_solver|done|done]. Qed.

Lemma durable_not_temp p n q : durable p → tempOf n q → p ≠ q.
Proof. intros Hd Hq ->. by eapply Hd. Qed.

(** ** Calls that do not fail *)
Lemma exec_mkdirRoot lo hi d : wellRooted (dk_nodes d) → (∀ content, dk_nodes d !! [] ≠ Some (File content)) →
  ∃ d', exec MkdirRoot d = (Ok tt, d') ∧ dk_uuids d' = dk_uuids d ∧ evolves ∅ lo hi (dk_nodes d) (dk_nodes d') ∧
    dk_nodes d' !! [] = Some Dir ∧ (∀ p, p ≠ [] → dk_nodes d' !! p = dk_nodes d !! p).
Proof.
  intros Hw Hn. rewrite exec_effect. cbn [effect issues]. eexists.
  assert (match dk_nodes d !! [] with
    | Some (File _) => (Err ErrNotDir, dk_nodes d)
    | _ => (Ok tt, <[ [] := Dir ]> (dk_nodes d))
    end = (Ok tt, <[ [] := Dir ]> (dk_nodes d))) as ->.
  { destruct (dk_nodes d !! []) as [[|content]|] eqn:E; [done| |done]. exfalso. by apply (Hn content). }
  cbn [fst snd]. split; [done|]. cbn [dk_nodes dk_uuids]. split_and!; [done| |apply lookup_insert_eq|intros p Hp; by rewrite lookup_insert_ne].
  split; [done| | | | |].
  - intros p n _ _ Hp. destruct (decide (p = [])) as [->|]; [|by rewrite lookup_insert_ne].
    destruct n as [|content]; [apply lookup_insert_eq|by apply Hn in Hp].
  - intros p content _ _ [[_ ?]|[_ ?]]%lookup_insert_Some; done.
  - intros p _ [[<- _]|[_ ?]]%lookup_insert_Some; [by right|by left].
  - intros n p _ Hp. rewrite lookup_insert_ne; [done|]. intros <-. by eapply durable_root.
  - intros _. apply wellRooted_root; [done|]. destruct (dk_nodes d !! []) as [[|content]|] eqn:E; [by right| |by left]. by destruct (Hn content).
Qed.

Lemma exec_mkdirAll lo hi p d : (∀ i, durable (take i p)) → (∀ i, mayMake (take i p)) → dk_nodes d !! [] = Some Dir → unblocked (dk_nodes d) p →
  ∃ d', exec (MkdirAll p) d = (Ok tt, d') ∧ dk_uuids d' = dk_uuids d ∧ evolves ∅ lo hi (dk_nodes d) (dk_nodes d') ∧
    (∀ i, (i ≤ length p)%nat → dk_nodes d' !! take i p = Some Dir) ∧
    (∀ n q, tempOf n q → dk_nodes d' !! q = dk_nodes d !! q) ∧
    (∀ q, (∀ i, (0 < i ≤ length p)%nat → q ≠ take i p) → dk_nodes d' !! q = dk_nodes d !! q).
Proof.
  intros Hd Hmake Hroot Hu. rewrite exec_effect. cbn [effect issues]. destruct (mkdirAll (dk_nodes d) p) as [r nodes] eqn:E. cbn [fst snd].
  apply mkdirAll_spec in E as [[Hk Hn Hr] Hres]. destruct r as [[]|e]; [|by destruct (Hres Hroot)].
  eexists. split; [done|]. cbn [dk_nodes dk_uuids].
  assert (∀ q, (∀ i, (0 < i ≤ length p)%nat → q ≠ take i p) → nodes !! q = dk_nodes d !! q) as Hsame.
  { intros q Hq. destruct (dk_nodes d !! q) as [m|] eqn:Em; [by eapply lookup_weaken|].
    apply eq_None_not_Some. intros [m Em']. destruct (Hn _ _ Em' Em) as (_ & i & Hi & ->). by eapply Hq. }
  assert (∀ n q, tempOf n q → nodes !! q = dk_nodes d !! q) as Htemp.
  { intros n q Hq. apply Hsame. intros i _ ->. by eapply Hd. }
  split_and!; [done| |done|done|done].
  - split; [done|intros q n _ _ Hq; by eapply lookup_weaken| | |by eauto|done].
    + intros q content _ _ Hq. destruct (dk_nodes d !! q) as [m|] eqn:Em.
      * pose proof (lookup_weaken _ _ _ _ Em Hk). congruence.
      * by destruct (Hn _ _ Hq Em).
    + intros q _ Hq. destruct (dk_nodes d !! q) as [m|] eqn:Em.
      * left. pose proof (lookup_weaken _ _ _ _ Em Hk). congruence.
      * right. destruct (Hn _ _ Hq Em) as (_ & i & _ & ->). apply Hmake.
Qed.

Lemma exec_writeTemp lo hi n p body d : tempOf n p → (lo ≤ n < hi)%nat → parentError (dk_nodes d) p = None → dk_nodes d !! p = None →
  ∃ d', exec (WriteFile p body) d = (Ok tt, d') ∧ dk_uuids d' = dk_uuids d ∧ evolves ∅ lo hi (dk_nodes d) (dk_nodes d') ∧
    dk_nodes d' = <[ p := File body ]> (dk_nodes d).
Proof.
  intros Hp Hn Hpar Hnone. rewrite exec_effect. cbn [effect issues]. unfold writeFile. rewrite Hpar, Hnone. cbn [fst snd].
  eexists. split; [done|]. cbn [dk_nodes dk_uuids]. split_and!; [done| |done]. split; [done| | | | |].
  - intros q m Hq _ Hm. rewrite lookup_insert_ne; [done|]. intros <-. by eapply Hq.
  - intros q c Hq _. rewrite lookup_insert_ne; [done|]. intros <-. by eapply Hq.
  - intros q Hq. rewrite lookup_insert_ne; [by left|]. intros <-. by eapply Hq.
  - intros m q Hm Hq. rewrite lookup_insert_ne; [done|]. intros <-.
    pose proof (tempOf_unique sha256Hex uuid uuid_fresh _ _ _ Hp Hq). lia.
  - intros Hw. apply wellRooted_write; [done|done|by rewrite Hnone].
Qed.

Lemma exec_removeTemp lo hi n p body d : tempOf n p → (lo ≤ n < hi)%nat → wellRooted (dk_nodes d) → dk_nodes d !! p = Some (File body) →
  ∃ d', exec (Remove p) d = (Ok tt, d') ∧ dk_uuids d' = dk_uuids d ∧ evolves ∅ lo hi (dk_nodes d) (dk_nodes d') ∧
    dk_nodes d' = delete p (dk_nodes d).
Proof.
  intros Hp Hn Hw Hf. rewrite exec_effect. cbn [effect issues]. unfold FileSys.remove.
  rewrite (proj2 (resolve_Ok _ _ _ Hw) Hf). cbn [fst snd]. eexists. split; [done|]. cbn [dk_nodes dk_uuids].
  split_and!; [done| |done]. split; [done| | | | |].
  - intros q m Hq _ Hm. rewrite lookup_delete_ne; [done|]. intros <-. by eapply Hq.
  - intros q c Hq _. rewrite lookup_delete_ne; [done|]. intros <-. by eapply Hq.
  - intros q Hq. rewrite lookup_delete_ne; [by left|]. intros <-. by eapply Hq.
  - intros m q Hm Hq. rewrite lookup_delete_ne; [done|]. intros <-.
    pose proof (tempOf_unique sha256Hex uuid uuid_fresh _ _ _ Hp Hq). lia.
  - intros _. apply wellRooted_delete; [done|]. by eapply below_file.
Qed.

Lemma evolves_install lo hi p content a : durable p → (a !! p ≠ Some Dir) → parentError a p = None →
  evolves {[p := content]} lo hi a (<[ p := File content ]> a).
Proof.
  intros Hd Hn Hp. split.
  - intros q c [<- <-]%lookup_singleton_Some. apply lookup_insert_eq.
  - intros q m _ Hq%lookup_singleton_None Hm. by rewrite lookup_insert_ne.
  - intros q c _ Hq%lookup_singleton_None. by rewrite lookup_insert_ne.
  - intros q _ [[_ ?]|[_ ?]]%lookup_insert_Some; [done|by left].
  - intros n q _ Hq. rewrite lookup_insert_ne; [done|]. intros <-. by eapply Hd.
  - intros Hw. by apply wellRooted_write.
Qed.

Lemma exec_link lo hi old new content d : durable new → wellRooted (dk_nodes d) → dk_nodes d !! old = Some (File content) →
  parentError (dk_nodes d) new = None → dk_nodes d !! new = None →
  ∃ d', exec (Link old new) d = (Ok tt, d') ∧ dk_uuids d' = dk_uuids d ∧
    evolves {[new := content]} lo hi (dk_nodes d) (dk_nodes d') ∧ dk_nodes d' = <[ new := File content ]> (dk_nodes d).
Proof.
  intros Hd Hw Ho Hp Hn. rewrite exec_effect. cbn [effect issues]. unfold link, sourceFile.
  rewrite (proj2 (resolve_Ok _ _ _ Hw) Ho), Hp, Hn. cbn [fst snd]. eexists. split; [done|]. cbn [dk_nodes dk_uuids].
  split_and!; [done| |done]. apply evolves_install; [done|by rewrite Hn|done].
Qed.
Lemma exec_link_exists old new content n d : wellRooted (dk_nodes d) → dk_nodes d !! old = Some (File content) →
  dk_nodes d !! new = Some n →
  ∃ d', exec (Link old new) d = (Err ErrExist, d') ∧ dk_uuids d' = dk_uuids d ∧ dk_nodes d' = dk_nodes d.
Proof.
  intros Hw Ho Hn. rewrite exec_effect. cbn [effect issues]. unfold link, sourceFile.
  rewrite (proj2 (resolve_Ok _ _ _ Hw) Ho), (Hw _ _ Hn), Hn. cbn [fst snd]. eexists. by split.
Qed.

(** ** A whole conditional write *)
Definition fresh (d : disk) : Prop := ∀ n p, (dk_uuids d ≤ n)%nat → tempOf n p → dk_nodes d !! p = None.
Lemma fresh_evolves i lo d d' : evolves i lo (dk_uuids d') (dk_nodes d) (dk_nodes d') → (dk_uuids d ≤ dk_uuids d')%nat →
  fresh d → fresh d'.
Proof. intros He Hu Hf n p Hn Hp. rewrite (ev_temps _ _ _ _ _ He n); [apply (Hf n); [lia|done]|lia|done]. Qed.
Lemma evolves_wider i lo lo' hi hi' a b : (lo' ≤ lo)%nat → (hi ≤ hi')%nat → evolves i lo hi a b → evolves i lo' hi' a b.
Proof. intros Hl Hh [? ? ? ? Ht ?]. split; [done|done|done|done| |done]. intros n p Hn. apply Ht. lia. Qed.

Lemma parent_of_dir nodes p s : (∀ i, (i ≤ length p)%nat → nodes !! take i p = Some Dir) → parentError nodes (p ++ [s]) = None.
Proof.
  intros H. apply parentError_None. intros i. rewrite length_app. cbn [length]. intros Hi.
  rewrite take_app_le by lia. apply H. lia.
Qed.

Lemma unblocked_evolves lo hi a b p : (∀ i, durable (take i p)) → evolves ∅ lo hi a b → unblocked a p → unblocked b p.
Proof. intros Hd He Hu i content Hi Hb. apply (Hu i content Hi). by apply (ev_files _ _ _ _ _ He). Qed.

Lemma metadata_durable i : durable (take i [localMetadataDirName]).
Proof. destruct i as [|[|i]]; [by apply durable_root|by apply durable_metadata_dir|by apply durable_metadata_dir]. Qed.

Lemma metadata_made i : mayMake (take i [localMetadataDirName]).
Proof. by destruct i as [|[|i]]. Qed.

Lemma recordedAs_evolves i lo hi a b key contentType : evolves i lo hi a b → i !! metadataPath key = None →
  recordedAs sha256Hex a key contentType → recordedAs sha256Hex b key contentType.
Proof. intros He Hi (record & Hr & Hd). exists record. split; [|done]. apply (ev_keep _ _ _ _ _ He); [by apply durable_metadata|done|done]. Qed.

(** A key's path and its directories stay out of the metadata directory. *)
Lemma key_outside key i q : ordinary key = true → take i (keyPath key) ≠ localMetadataDirName :: q.
Proof.
  intros (_ & _ & Hm)%ordinary_path E. destruct i as [|i]; [done|]. destruct (keyPath key) as [|first rest]; [done|].
  cbn [take] in E. injection E as -> _. unfold inMetadata in Hm. by rewrite bool_decide_eq_true_2 in Hm.
Qed.


(** ** The record of an object *)

(** The temporary record is written, and nothing else has changed but directories. *)
Record recording (key : Key) (contentType : string) (d d' : disk) : Prop := {
  rc_issued : dk_uuids d' = S (dk_uuids d);
  rc_temporary : dk_nodes d' !! metadataTemporary key (uuid (dk_uuids d)) = Some (File (metadataBody contentType));
  rc_evolves : evolves ∅ (dk_uuids d) (dk_uuids d') (dk_nodes d) (dk_nodes d');
  rc_parent : parentError (dk_nodes d') (metadataPath key) = None;
  rc_same : ∀ q, durable q → q ≠ [localMetadataDirName] → dk_nodes d' !! q = dk_nodes d !! q;
}.

Lemma run_stageRecord {A} key contentType e1 e2 (k : string → prog A) (p : prog A) d :
  p = orElse (MkdirAll [localMetadataDirName]) e1 (λ _, Call NewString (λ id,
    orElse (WriteFile (metadataTemporary key id) (metadataBody contentType)) e2 (λ _, k id))) →
  wellRooted (dk_nodes d) → dk_nodes d !! [] = Some Dir → unblocked (dk_nodes d) [localMetadataDirName] → fresh d →
  ∃ d', run p d = run (k (uuid (dk_uuids d))) d' ∧ recording key contentType d d'.
Proof.
  intros -> Hw Hroot Hu Hf. set (n := dk_uuids d) in *. unfold orElse. cbn [FileSys.run].
  destruct (exec_mkdirAll n (S n) _ d metadata_durable metadata_made Hroot Hu) as (d1 & -> & U1 & E1 & Hdirs & T1 & L1).
  cbn [FileSys.run]. rewrite (exec_effect _ NewString). cbn [effect issues fst snd FileSys.run]. rewrite U1. fold n.
  set (d2 := {| dk_nodes := dk_nodes d1; dk_calls := S (dk_calls d1); dk_uuids := 1 + n |}).
  set (t := metadataTemporary key (uuid n)). assert (tempOf n t) as Ht by apply metadataTemporary_temp.
  destruct (exec_writeTemp n (S n) n t (metadataBody contentType) d2 Ht ltac:(lia)) as (d3 & -> & U3 & E3 & N3).
  { by apply (parent_of_dir _ [localMetadataDirName]). }
  { cbn. rewrite (T1 n) by done. by apply (Hf n). }
  cbn [FileSys.run]. assert (∀ q, durable q → dk_nodes d3 !! q = dk_nodes d1 !! q) as Hs.
  { intros q Hq. rewrite N3, lookup_insert_ne; [done|]. intros E. symmetry in E. by eapply (durable_not_temp _ _ _ Hq Ht). }
  exists d3. split; [done|]. split; fold n.
  - by rewrite U3.
  - rewrite N3. apply lookup_insert_eq.
  - rewrite U3. eapply evolves_then; [exact E1|exact E3].
  - apply (parent_of_dir _ [localMetadataDirName]). intros i Hi. rewrite Hs by apply metadata_durable. by apply Hdirs.
  - intros q Hq Hne. rewrite Hs by done. apply L1. intros [|[|i]] Hi; [lia|done|cbn in Hi; lia].
Qed.

Lemma run_writeMetadataIfAbsent key contentType d : wellRooted (dk_nodes d) → dk_nodes d !! [] = Some Dir →
  unblocked (dk_nodes d) [localMetadataDirName] → fresh d →
  ∃ d', run (writeMetadataIfAbsent sha256Hex key contentType) d = (Ok (bool_decide (dk_nodes d !! metadataPath key = None)), d') ∧
    dk_uuids d' = S (dk_uuids d) ∧
    (∀ q, durable q → q ≠ [localMetadataDirName] → q ≠ metadataPath key → dk_nodes d' !! q = dk_nodes d !! q) ∧
    evolves (if decide (dk_nodes d !! metadataPath key = None) then {[metadataPath key := metadataBody contentType]} else ∅)
      (dk_uuids d) (dk_uuids d') (dk_nodes d) (dk_nodes d').
Proof.
  intros Hw Hroot Hu Hf.
  edestruct (run_stageRecord key contentType _ _ _ (writeMetadataIfAbsent sha256Hex key contentType) d eq_refl) as (d3 & -> & [U3 T3 E3 P3 S3]); [done..|]. set (n := dk_uuids d) in *.
  set (t := metadataTemporary key (uuid n)) in *. assert (tempOf n t) as Ht by apply metadataTemporary_temp.
  assert (durable (metadataPath key)) as Hdur by (by apply durable_metadata).
  pose proof (ev_rooted _ _ _ _ _ E3 Hw) as W3. pose proof (S3 _ Hdur ltac:(done)) as Hm3.
  assert (∀ q, durable q → q ≠ t) as Hnt by (intros q Hq; by eapply durable_not_temp).
  cbn [FileSys.run]. destruct (dk_nodes d !! metadataPath key) as [x|] eqn:Em.
  - rewrite decide_False, bool_decide_eq_false_2 by done.
    destruct (exec_link_exists t (metadataPath key) _ x d3 W3 T3 Hm3) as (d4 & -> & U4 & N4). cbn [FileSys.run].
    destruct (exec_removeTemp n (S n) n t (metadataBody contentType) d4 Ht ltac:(lia)) as (d5 & -> & U5 & E5 & N5); [by rewrite N4..|].
    cbn [FileSys.run]. rewrite N4 in E5, N5. exists d5. rewrite U5, U4, U3. split_and!; [done|done| |].
    + intros q Hq H1 _. rewrite N5, lookup_delete_ne by (intros Eq; by eapply Hnt). by apply S3.
    + rewrite U3 in E3. by eapply evolves_then.
  - rewrite decide_True, bool_decide_eq_true_2 by done.
    destruct (exec_link n (S n) t (metadataPath key) _ d3 Hdur W3 T3 P3 Hm3) as (d4 & -> & U4 & E4 & N4). cbn [FileSys.run].
    destruct (exec_removeTemp n (S n) n t (metadataBody contentType) d4 Ht ltac:(lia)) as (d5 & -> & U5 & E5 & N5).
    { by apply (ev_rooted _ _ _ _ _ E4). }
    { rewrite N4, lookup_insert_ne; [done|]. by apply Hnt. }
    cbn [FileSys.run]. exists d5. rewrite U5, U4, U3. split_and!; [done|done| |].
    + intros q Hq H1 H2. rewrite N5, lookup_delete_ne by (intros Eq; by eapply Hnt). rewrite N4, lookup_insert_ne by done. by apply S3.
    + rewrite U3 in E3. eapply evolves_then; [exact E3|]. rewrite <- (left_id_L ∅ (∪) {[_ := _]}). eapply evolves_trans; [|exact E4|exact E5].
      intros p Hp. rewrite dom_singleton_L in Hp. by apply elem_of_singleton in Hp as ->.
Qed.

Lemma exec_rename lo hi n old new content d : tempOf n old → (lo ≤ n < hi)%nat → durable new → wellRooted (dk_nodes d) →
  dk_nodes d !! old = Some (File content) → parentError (dk_nodes d) new = None → dk_nodes d !! new ≠ Some Dir →
  ∃ d', exec (Rename old new) d = (Ok tt, d') ∧ dk_uuids d' = dk_uuids d ∧
    evolves {[new := content]} lo hi (dk_nodes d) (dk_nodes d') ∧ dk_nodes d' = <[ new := File content ]> (delete old (dk_nodes d)).
Proof.
  intros Ht Hn Hd Hw Ho Hp Hnew. rewrite exec_effect. cbn [effect issues]. unfold rename, sourceFile.
  rewrite (proj2 (resolve_Ok _ _ _ Hw) Ho), Hp.
  destruct (exec_removeTemp lo hi n old content d Ht Hn Hw Ho) as (d' & _ & _ & E1 & N1). rewrite N1 in E1.
  assert (new ≠ old) as Hne by (by eapply durable_not_temp).
  assert (evolves {[new := content]} lo hi (delete old (dk_nodes d)) (<[ new := File content ]> (delete old (dk_nodes d)))) as E2.
  { apply evolves_install; [done|by rewrite lookup_delete_ne|]. apply (parentError_mono (dk_nodes d)); [|done].
    intros q Hq. rewrite lookup_delete_ne; [done|]. congruence. }
  destruct (dk_nodes d !! new) as [[|c]|]; [done| |]; cbn [fst snd]; (eexists; split; [done|]; split_and!; [done| |done]); by eapply evolves_then.
Qed.

Lemma run_writeMetadata key contentType d : wellRooted (dk_nodes d) → dk_nodes d !! [] = Some Dir →
  unblocked (dk_nodes d) [localMetadataDirName] → fresh d → dk_nodes d !! metadataPath key ≠ Some Dir →
  ∃ d', run (writeMetadata sha256Hex key contentType) d = (Ok tt, d') ∧ dk_uuids d' = S (dk_uuids d) ∧
    evolves {[metadataPath key := metadataBody contentType]} (dk_uuids d) (dk_uuids d') (dk_nodes d) (dk_nodes d').
Proof.
  intros Hw Hroot Hu Hf Hm.
  edestruct (run_stageRecord key contentType _ _ _ (writeMetadata sha256Hex key contentType) d eq_refl) as (d3 & -> & [U3 T3 E3 P3 S3]); [done..|]. set (n := dk_uuids d) in *.
  assert (durable (metadataPath key)) as Hdur by (by apply durable_metadata).
  unfold orElse. cbn [FileSys.run].
  destruct (exec_rename n (S n) n (metadataTemporary key (uuid n)) (metadataPath key) (metadataBody contentType) d3)
    as (d4 & -> & U4 & E4 & _); [apply metadataTemporary_temp|lia|done|by apply (ev_rooted _ _ _ _ _ E3)|done|done|by rewrite S3|].
  cbn [FileSys.run]. exists d4. rewrite U4, U3. split_and!; [done|done|]. rewrite U3 in E3. by eapply evolves_then.
Qed.

(** ** A whole write *)

(** What a store needs for a write of [key] to go through. *)
Record ready (key : Key) (d : disk) : Prop := {
  rd_rooted : wellRooted (dk_nodes d);
  rd_root : ∀ content, dk_nodes d !! [] ≠ Some (File content);
  rd_dirs : unblocked (dk_nodes d) (dirOf (keyPath key));
  rd_metadata : unblocked (dk_nodes d) [localMetadataDirName];
  rd_fresh : fresh d;
  rd_object : dk_nodes d !! keyPath key ≠ Some Dir;
  rd_record : dk_nodes d !! metadataPath key ≠ Some Dir;
  rd_made : ∀ i, (i < length (keyPath key))%nat → mayMake (take i (keyPath key));
}.

(** The temporary object is written, and nothing else has changed but directories. *)
Record staged (key : Key) (body : string) (d d' : disk) : Prop := {
  sg_issued : dk_uuids d' = S (dk_uuids d);
  sg_temporary : dk_nodes d' !! temporaryFor (keyPath key) (uuid (dk_uuids d)) = Some (File body);
  sg_evolves : evolves ∅ (dk_uuids d) (dk_uuids d') (dk_nodes d) (dk_nodes d');
  sg_root : dk_nodes d' !! [] = Some Dir;
  sg_parent : parentError (dk_nodes d') (keyPath key) = None;
  sg_object : dk_nodes d' !! keyPath key = dk_nodes d !! keyPath key;
  sg_record : dk_nodes d' !! metadataPath key = dk_nodes d !! metadataPath key;
}.

Lemma run_begin key body options d : ordinary key = true → ready key d →
  ∃ d', run (localPut sha256Hex key body options) d =
    run ((if po_IfAbsent options then installIfAbsent sha256Hex else installAlways sha256Hex) key body
           (defaultContentType (po_ContentType options)) (keyPath key) (temporaryFor (keyPath key) (uuid (dk_uuids d)))) d' ∧
    staged key body d d'.
Proof.
  intros Hord [Hw Hroot Hdirs Hmeta Hf _ _ Hmade]. destruct (ordinary_path key Hord) as (Hpath & _ & _).
  assert (∀ i, durable (take i (dirOf (keyPath key)))) as Hdd by (intros i; unfold dirOf; rewrite take_take; by apply durable_dir).
  assert (∀ i, mayMake (take i (dirOf (keyPath key)))) as Hmake.
  { intros i. unfold dirOf. rewrite take_take. apply Hmade. pose proof (keyPath_nonempty key). destruct (keyPath key); [done|cbn; lia]. }
  pose proof (dirOf_baseOf _ (keyPath_nonempty key)) as Hsplit.
  unfold localPut, orElse. cbn [FileSys.run].
  rewrite (exec_effect _ CtxErr). cbn [effect issues fst snd FileSys.run]. set (d1 := {| dk_nodes := dk_nodes d |}).
  set (n := dk_uuids d). destruct (exec_mkdirRoot n (S n) d1) as (d2 & -> & U2 & E2 & R2 & L2); [done|done|]. cbn [FileSys.run].
  rewrite (exec_effect _ OpenRoot). cbn [effect issues fst snd]. unfold dirError. rewrite R2. cbn [FileSys.run]. rewrite Hpath. cbn [FileSys.run].
  set (d3 := {| dk_nodes := dk_nodes d2 |}).
  destruct (exec_mkdirAll n (S n) (dirOf (keyPath key)) d3) as (d4 & -> & U4 & E4 & D4 & T4 & L4);
    [done|done|done|by eapply (unblocked_evolves n (S n) (dk_nodes d))|]. cbn [FileSys.run].
  rewrite (exec_effect _ NewString). cbn [effect issues fst snd FileSys.run].
  assert (dk_uuids d4 = n) as Un by (rewrite U4; cbn; by rewrite U2). rewrite Un. cbn [Nat.add].
  set (d5 := {| dk_nodes := dk_nodes d4 |}). set (t := temporaryFor (keyPath key) (uuid n)).
  assert (tempOf n t) as Ht by apply temporaryFor_temp.
  assert ([] ≠ t) as Hnil by (unfold t, temporaryFor; by destruct (dirOf (keyPath key))).
  assert (evolves ∅ n (S n) (dk_nodes d) (dk_nodes d4)) as E04 by (eapply evolves_then; [exact E2|exact E4]).
  destruct (exec_writeTemp n (S n) n t body d5 Ht ltac:(lia)) as (d6 & -> & U6 & E6 & N6).
  { by apply parent_of_dir. }
  { cbn. rewrite (T4 n) by done. cbn. rewrite L2 by done. by apply (Hf n). }
  cbn [FileSys.run]. assert (∀ q, durable q → dk_nodes d6 !! q = dk_nodes d4 !! q) as N64.
  { intros q Hq. rewrite N6, lookup_insert_ne; [done|]. intros E. symmetry in E. by eapply (durable_not_temp _ _ _ Hq Ht). }
  exists d6. split; [done|]. split; fold n.
  - by rewrite U6.
  - rewrite N6. apply lookup_insert_eq.
  - rewrite U6. eapply evolves_then; [exact E04|exact E6].
  - rewrite N64 by (by apply durable_root). apply (D4 0%nat). lia.
  - rewrite Hsplit. apply parent_of_dir. intros i Hi. rewrite N64 by done. by apply D4.
  - rewrite N64 by (by apply durable_key). rewrite L4; [cbn; apply L2; apply keyPath_nonempty|].
    intros i Hi E. apply (f_equal length) in E. rewrite Hsplit, length_app, length_take in E at 1. cbn in E. lia.
  - rewrite N64 by (by apply durable_metadata). rewrite L4; [cbn; by rewrite L2|].
    intros i _ E. unfold dirOf in E. rewrite take_take in E. symmetry in E. by eapply key_outside.
Qed.

(** The rest needs of the disk what a write needs, and has it. *)
Lemma staged_ready key body d d' : ready key d → staged key body d d' →
  wellRooted (dk_nodes d') ∧ unblocked (dk_nodes d') [localMetadataDirName] ∧ fresh d'.
Proof.
  intros [Hw _ _ Hmeta Hf _ _ _] [Hu _ He _ _ _ _]. split_and!.
  - by apply (ev_rooted _ _ _ _ _ He).
  - eapply unblocked_evolves; [apply metadata_durable|exact He|done].
  - eapply fresh_evolves; [exact He|lia|done].
Qed.

(** The last part of a conditional write, when the record is there. *)
Lemma run_install key body contentType lo hi n d : ordinary key = true → wellRooted (dk_nodes d) →
  dk_nodes d !! temporaryFor (keyPath key) (uuid n) = Some (File body) → (lo ≤ n < hi)%nat →
  parentError (dk_nodes d) (keyPath key) = None → dk_nodes d !! keyPath key ≠ Some Dir →
  ∃ r d', run (orElse (Link (temporaryFor (keyPath key) (uuid n)) (keyPath key))
      (λ err,
        if isErr err ErrExist then Call (Remove (temporaryFor (keyPath key) (uuid n))) (λ _,
          Ret (Err (Errorf "put %s if absent: %w" [AStr (key_value key); AWrap ErrAlreadyExists])))
        else Call (Remove (temporaryFor (keyPath key) (uuid n))) (λ _,
          Ret (Err (Errorf "install object %s if absent: %w" [AStr (key_value key); AWrap err])))) (λ _,
    orElse (Remove (temporaryFor (keyPath key) (uuid n)))
      (λ err, Ret (Err (Errorf "remove temporary object for %s: %w" [AStr (key_value key); AWrap err]))) (λ _,
    Ret (Ok (objectInfo key contentType body))))) d = (r, d') ∧ dk_uuids d' = dk_uuids d ∧
  match dk_nodes d !! keyPath key with
  | Some _ => r = Err (Errorf "put %s if absent: %w" [AStr (key_value key); AWrap ErrAlreadyExists]) ∧
      evolves ∅ lo hi (dk_nodes d) (dk_nodes d')
  | None => r = Ok (objectInfo key contentType body) ∧ evolves {[keyPath key := body]} lo hi (dk_nodes d) (dk_nodes d')
  end.
Proof.
  intros Hord Hw Ht Hn Hpar Hkey. set (t := temporaryFor (keyPath key) (uuid n)) in *.
  assert (tempOf n t) as Htemp by apply temporaryFor_temp. assert (durable (keyPath key)) as Hdur by (by apply durable_key).
  unfold orElse. cbn [FileSys.run]. destruct (dk_nodes d !! keyPath key) as [x|] eqn:Hx.
  - destruct (exec_link_exists t (keyPath key) body x d Hw Ht Hx) as (d1 & -> & U1 & N1). cbn [FileSys.run].
    change (isErr ErrExist ErrExist) with true. cbn [FileSys.run].
    destruct (exec_removeTemp lo hi n t body d1 Htemp Hn) as (d2 & -> & U2 & E2 & N2); [by rewrite N1|by rewrite N1|].
    cbn [FileSys.run]. rewrite N1 in E2. eexists _, d2. split; [done|]. split; [congruence|done].
  - destruct (exec_link lo hi t (keyPath key) _ d Hdur Hw Ht Hpar Hx) as (d1 & -> & U1 & E1 & N1). cbn [FileSys.run].
    destruct (exec_removeTemp lo hi n t body d1 Htemp Hn) as (d2 & -> & U2 & E2 & N2).
    { by apply (ev_rooted _ _ _ _ _ E1). }
    { rewrite N1, lookup_insert_ne; [done|]. by eapply durable_not_temp. }
    cbn [FileSys.run]. eexists _, d2. split; [done|]. split; [congruence|]. split; [done|].
    rewrite <- (left_id_L ∅ (∪) {[_ := _]}). eapply evolves_trans; [|exact E1|exact E2].
    intros p Hp. rewrite dom_singleton_L in Hp. by apply elem_of_singleton in Hp as ->.
Qed.

(** The linking part of [installIfAbsent] *)
#[local] Abbreviation linkObject := (λ key body contentType temporary,
  orElse (Link temporary (keyPath key))
    (λ err,
      if isErr err ErrExist then Call (Remove temporary) (λ _,
        Ret (Err (Errorf "put %s if absent: %w" [AStr (key_value key); AWrap ErrAlreadyExists])))
      else Call (Remove temporary) (λ _,
        Ret (Err (Errorf "install object %s if absent: %w" [AStr (key_value key); AWrap err])))) (λ _,
  orElse (Remove temporary)
    (λ err, Ret (Err (Errorf "remove temporary object for %s: %w" [AStr (key_value key); AWrap err]))) (λ _,
  Ret (Ok (objectInfo key contentType body))))).

(** A write has put its [installs] in the tree, at most an object and its record. *)
Record wrote (key : Key) (installs : gmap path string) (d d' : disk) : Prop := {
  wr_evolves : evolves installs (dk_uuids d) (dk_uuids d') (dk_nodes d) (dk_nodes d');
  wr_installs : ∀ p, is_Some (installs !! p) → p = keyPath key ∨ p = metadataPath key;
  wr_issued : (dk_uuids d ≤ dk_uuids d')%nat;
}.

Lemma recordedAs_installed installs lo hi a b key contentType : storable contentType → evolves installs lo hi a b →
  installs !! metadataPath key = Some (metadataBody contentType) → recordedAs sha256Hex b key contentType.
Proof. intros Hst He Hi. exists (metadataBody contentType). split; [|done]. by apply (ev_installed _ _ _ _ _ He). Qed.

(** The record that a conditional write finds, and may go on with. *)
Definition agreeing (key : Key) (contentType : string) (d : disk) : Prop :=
  dk_nodes d !! metadataPath key = None ∨
  ∃ contentType', recordedAs sha256Hex (dk_nodes d) key contentType' ∧
    (contentType' = contentType ∨ dk_nodes d !! keyPath key ≠ None).

Lemma run_readContentType key contentType d : wellRooted (dk_nodes d) → recordedAs sha256Hex (dk_nodes d) key contentType →
  ∃ d', run (readContentType sha256Hex key) d = (Ok contentType, d') ∧ dk_nodes d' = dk_nodes d ∧ dk_uuids d' = dk_uuids d.
Proof.
  intros Hw (record & Hr & Hd). unfold readContentType. cbn [FileSys.run].
  rewrite (exec_effect _ (ReadFile _)). cbn [effect issues fst snd]. unfold readFile. rewrite (proj2 (resolve_Ok _ _ _ Hw) Hr).
  destruct (decodeMetadata record) as [c|]; [|done]. cbn in Hd. injection Hd as ->. cbn [FileSys.run]. eexists. by split.
Qed.

(** Only the wrapped error counts. *)
Lemma isErr_wrapped format args e target : Forall (λ a, match a with AWrap _ => False | _ => True end) args →
  isErr (Errorf format (args ++ [AWrap e])) target = isErr e target.
Proof.
  intros Ha. destruct target as [m|? ?|?|?|? ?|? ?|?|?]; try done. unfold isErr. cbn [errorsIs].
  induction Ha as [|[] args Ha _ IH]; cbn [app]; [by rewrite orb_false_r|done..].
Qed.

(** From a record, made or found, to the end. *)
Lemma finish_install key body contentType d d1 i : ordinary key = true → wellRooted (dk_nodes d1) →
  dk_nodes d1 !! temporaryFor (keyPath key) (uuid (dk_uuids d)) = Some (File body) → (dk_uuids d < dk_uuids d1)%nat →
  parentError (dk_nodes d1) (keyPath key) = None → dk_nodes d !! keyPath key ≠ Some Dir →
  dk_nodes d1 !! keyPath key = dk_nodes d !! keyPath key → recordedAs sha256Hex (dk_nodes d1) key contentType →
  evolves i (dk_uuids d) (dk_uuids d1) (dk_nodes d) (dk_nodes d1) → (∀ p, is_Some (i !! p) → p = metadataPath key) →
  ∃ r d' installs, run (linkObject key body contentType (temporaryFor (keyPath key) (uuid (dk_uuids d)))) d1 = (r, d') ∧
    wrote key installs d d' ∧
    match dk_nodes d !! keyPath key with
    | Some _ => (∃ e, r = Err e ∧ ∀ target, isErr e target = isErr ErrAlreadyExists target) ∧ installs = i
    | None => r = Ok (objectInfo key contentType body) ∧ installs !! keyPath key = Some body ∧
        recordedAs sha256Hex (dk_nodes d') key contentType
    end.
Proof.
  intros Hord W1 B1 U1 P1 Hobj K1 Hrec E1 Hi. rewrite <- K1 in Hobj.
  assert (keyPath key ≠ metadataPath key) as Hkm by (intros E; symmetry in E; by eapply metadata_not_key).
  assert (∀ p, p ∈ dom i → durable p) as Hdur.
  { intros p Hp%elem_of_dom. rewrite (Hi p Hp). by apply durable_metadata. }
  destruct (run_install key body contentType (dk_uuids d) (dk_uuids d1) (dk_uuids d) d1 Hord W1 B1 ltac:(lia) P1 Hobj) as (r & d2 & Hrun & U2 & Hcase).
  rewrite K1 in Hcase. destruct (dk_nodes d !! keyPath key) as [x|]; destruct Hcase as [-> E2].
  - eexists _, d2, i. split; [exact Hrun|]. split; [split; [|by auto|lia]|].
    2: { split; [|done]. eexists. split; [done|]. intros target. by apply (isErr_wrapped _ [_]); repeat constructor. }
    rewrite U2, <- (left_id_L ∅ (∪) i). by eapply evolves_trans.
  - eexists _, d2, ({[keyPath key := body]} ∪ i). split; [exact Hrun|]. split; [split; [| |lia]|split_and!].
    + rewrite U2. by eapply evolves_trans.
    + intros p [c [[<- _]%lookup_singleton_Some|[_ Hp]]%lookup_union_Some_raw]; [by left|right]. apply Hi. by eexists.
    + done.
    + apply lookup_union_Some_l, lookup_singleton_eq.
    + eapply recordedAs_evolves; [exact E2| |exact Hrec]. by apply lookup_singleton_None.
Qed.

(** A conditional write that finds an object is refused; any other makes one. *)
Lemma run_conditionalPut key body options d : po_IfAbsent options = true → ordinary key = true →
  storable (defaultContentType (po_ContentType options)) → ready key d → agreeing key (defaultContentType (po_ContentType options)) d →
  ∃ r d' installs, run (localPut sha256Hex key body options) d = (r, d') ∧ wrote key installs d d' ∧
    match dk_nodes d !! keyPath key with
    | Some _ => (∃ e, r = Err e ∧ ∀ target, isErr e target = isErr ErrAlreadyExists target) ∧
        installs !! keyPath key = None ∧ (dk_nodes d !! metadataPath key ≠ None → installs = ∅)
    | None => r = Ok (objectInfo key (defaultContentType (po_ContentType options)) body) ∧
        installs !! keyPath key = Some body ∧ recordedAs sha256Hex (dk_nodes d') key (defaultContentType (po_ContentType options))
    end.
Proof.
  intros Habs Hord Hst Hready Hagree. destruct (run_begin key body options d Hord Hready) as (d6 & -> & Hstaged).
  rewrite Habs. destruct (staged_ready _ _ _ _ Hready Hstaged) as (W6 & M6 & F6). destruct Hstaged as [U6 B6 E6 R6 P6 K6 C6].
  destruct Hready as [_ _ _ _ _ Hobj _ _]. set (ct := defaultContentType (po_ContentType options)) in *. set (n := dk_uuids d) in *.
  assert (durable (keyPath key)) as Hdur by (by apply durable_key).
  assert (keyPath key ≠ metadataPath key) as Hkm by (intros E; symmetry in E; by eapply metadata_not_key).
  assert (keyPath key ≠ [localMetadataDirName]) as Hne'.
  { intros E. apply (key_outside key (length (keyPath key)) [] Hord). by rewrite firstn_all. }
  unfold installIfAbsent, try_. rewrite run_bind.
  destruct (run_writeMetadataIfAbsent key ct d6 W6 R6 M6 F6) as (d7 & -> & U7 & L7 & E7).
  pose proof (ev_rooted _ _ _ _ _ E7 W6) as W7. rewrite C6 in E7 |- *. set (i := if decide _ then _ else _) in E7.
  assert (∀ p, is_Some (i !! p) → p = metadataPath key) as Hi.
  { unfold i. case_decide; [|by intros p [??]]. by intros p [c [<- _]%lookup_singleton_Some]. }
  assert (dk_nodes d7 !! temporaryFor (keyPath key) (uuid n) = Some (File body)) as B7.
  { rewrite (ev_temps _ _ _ _ _ E7 n); [done|lia|apply temporaryFor_temp]. }
  assert (dk_nodes d7 !! keyPath key = dk_nodes d !! keyPath key) as K7 by (by rewrite (L7 _ Hdur Hne' Hkm)).
  assert (parentError (dk_nodes d7) (keyPath key) = None) as P7.
  { apply parentError_None. intros j Hj. pose proof (proj1 (parentError_None _ _) P6 j Hj) as Hdir.
    apply (ev_keep _ _ _ _ _ E7); [by apply durable_dir| |done]. apply eq_None_not_Some. intros E%Hi.
    by eapply key_outside. }
  assert (evolves i n (dk_uuids d7) (dk_nodes d) (dk_nodes d7)) as E07 by (eapply evolves_then; (eapply evolves_wider; [| |eassumption]); lia).
  assert (i !! keyPath key = None) as Hik by (apply eq_None_not_Some; intros E%Hi; done).
  assert (dk_nodes d !! metadataPath key ≠ None → i = ∅) as Hi0 by (intros Hm; unfold i; by rewrite decide_False).
  case_bool_decide as Hm; cbn [FileSys.run].
  - assert (recordedAs sha256Hex (dk_nodes d7) key ct) as Hr7.
    { eapply (recordedAs_installed _ _ _ _ _ _ _ Hst E7). unfold i. rewrite decide_True by done. apply lookup_singleton_eq. }
    destruct (finish_install key body ct d d7 i Hord W7 B7 ltac:(lia) P7 Hobj K7 Hr7 E07 Hi) as (r & d8 & j & Hrun & Hw & Hcase).
    exists r, d8, j. split; [exact Hrun|]. split; [done|]. by destruct (dk_nodes d !! keyPath key); [destruct Hcase as [? ->]|].
  - destruct Hagree as [?|(ct' & Hr & Hct)]; [done|]. specialize (Hi0 Hm).
    assert (recordedAs sha256Hex (dk_nodes d7) key ct') as Hr7.
    { eapply recordedAs_evolves; [exact E07| |exact Hr]. by rewrite Hi0. }
    rewrite run_bind. destruct (run_readContentType _ _ _ W7 Hr7) as (d9 & -> & N9 & U9). rewrite <- N9 in *. rewrite <- U9 in *.
    case_bool_decide as Heq.
    + rewrite Heq in Hr7.
      destruct (finish_install key body ct d d9 i Hord W7 B7 ltac:(lia) P7 Hobj K7 Hr7 E07 Hi) as (r & d8 & j & Hrun & Hw & Hcase).
      exists r, d8, j. split; [exact Hrun|]. split; [done|]. by destruct (dk_nodes d !! keyPath key); [destruct Hcase as [? ->]|].
    + destruct Hct as [?|Hx]; [done|]. cbn [FileSys.run].
      destruct (exec_removeTemp n (dk_uuids d9) n _ body d9 ltac:(apply temporaryFor_temp) ltac:(lia) W7 B7) as (d8 & -> & U8 & E8 & _).
      cbn [FileSys.run]. destruct (dk_nodes d !! keyPath key) as [x|]; [|done]. eexists _, d8, ∅. split; [done|]. rewrite Hi0 in E07.
      split; [split|split_and!; [|done|done]].
      4: { eexists. split; [done|]. intros target. by apply (isErr_wrapped _ [_; _; _]); repeat constructor. }
      * rewrite U8. by eapply evolves_then.
      * by intros p [??].
      * lia.
Qed.

(** A plain write replaces the object and its record. *)
Lemma run_plainPut key body options d : po_IfAbsent options = false → ordinary key = true →
  storable (defaultContentType (po_ContentType options)) → ready key d →
  ∃ d' installs, run (localPut sha256Hex key body options) d =
      (Ok (objectInfo key (defaultContentType (po_ContentType options)) body), d') ∧ wrote key installs d d' ∧
    installs !! keyPath key = Some body ∧ recordedAs sha256Hex (dk_nodes d') key (defaultContentType (po_ContentType options)).
Proof.
  intros Habs Hord Hst Hready. destruct (run_begin key body options d Hord Hready) as (d6 & -> & Hstaged).
  rewrite Habs. destruct (staged_ready _ _ _ _ Hready Hstaged) as (W6 & M6 & F6). destruct Hstaged as [U6 B6 E6 R6 P6 K6 C6].
  destruct Hready as [_ _ _ _ _ Hobj Hrec _]. set (ct := defaultContentType (po_ContentType options)) in *. set (n := dk_uuids d) in *.
  assert (durable (keyPath key)) as Hdur by (by apply durable_key).
  assert (keyPath key ≠ metadataPath key) as Hkm by (intros E; symmetry in E; by eapply metadata_not_key).
  assert (keyPath key ≠ [localMetadataDirName]) as Hne'.
  { intros E. apply (key_outside key (length (keyPath key)) [] Hord). by rewrite firstn_all. }
  unfold installAlways, orElse. cbn [FileSys.run].
  destruct (exec_rename n (S n) n _ (keyPath key) body d6 ltac:(apply temporaryFor_temp) ltac:(lia) Hdur W6 B6 P6 ltac:(by rewrite K6))
    as (d7 & -> & U7 & E7 & N7).
  cbn [FileSys.run]. pose proof (ev_rooted _ _ _ _ _ E7 W6) as W7.
  assert (∀ q, durable q → q ≠ keyPath key → dk_nodes d7 !! q = dk_nodes d6 !! q) as Hsame.
  { intros q Hq Hne. rewrite N7, lookup_insert_ne by done. apply lookup_delete_ne. intros E. symmetry in E.
    eapply (durable_not_temp _ _ _ Hq); [|exact E]. apply temporaryFor_temp. }
  assert (unblocked (dk_nodes d7) [localMetadataDirName]) as M7.
  { intros i content Hi. rewrite Hsame; [by apply M6|by apply metadata_durable|].
    intros E. destruct i as [|i]; cbn in E; [symmetry in E; by apply keyPath_nonempty in E|]. by rewrite take_nil in E. }
  assert (fresh d7) as F7.
  { intros m q Hm Hq. rewrite (ev_temps _ _ _ _ _ E7 m) by (done || lia). apply (F6 m); [lia|done]. }
  unfold try_. rewrite run_bind. destruct (run_writeMetadata key ct d7 W7) as (d8 & -> & U8 & E8); [|done|done| |].
  { rewrite Hsame; [done|by apply durable_root|]. intros E. symmetry in E. by apply keyPath_nonempty in E. }
  { rewrite Hsame, C6; [done|by apply durable_metadata|done]. }
  cbn [FileSys.run]. exists d8, ({[metadataPath key := metadataBody ct]} ∪ {[keyPath key := body]}). split; [done|].
  assert (evolves ({[metadataPath key := metadataBody ct]} ∪ {[keyPath key := body]}) n (dk_uuids d8) (dk_nodes d) (dk_nodes d8)) as E.
  { eapply evolves_then; [eapply evolves_wider; [| |exact E6]; lia|]. eapply evolves_trans; [|eapply evolves_wider; [| |exact E7]; lia|eapply evolves_wider; [| |exact E8]; lia].
    intros p Hp. rewrite dom_singleton_L in Hp. by apply elem_of_singleton in Hp as ->. }
  split; [split|split].
  - done.
  - intros p [c [[<- _]%lookup_singleton_Some|[_ [<- _]%lookup_singleton_Some]]%lookup_union_Some_raw]; auto.
  - lia.
  - rewrite lookup_union_r by (by apply lookup_singleton_None). apply lookup_singleton_eq.
  - eapply (recordedAs_installed _ _ _ _ _ _ _ Hst E). apply lookup_union_Some_l, lookup_singleton_eq.
Qed.

(** ** Reads *)
Lemma run_opened {A} message key (absent : result A) k d : dk_nodes d !! [] = Some Dir →
  ∃ d', run (opened message key absent k) d = run k d' ∧ dk_nodes d' = dk_nodes d.
Proof.
  intros Hroot. unfold opened, orElse. cbn [FileSys.run]. rewrite exec_effect. cbn [effect fst snd FileSys.run].
  rewrite exec_effect. cbn [effect fst snd dk_nodes]. unfold dirError. rewrite Hroot. cbn [FileSys.run]. eexists. by split.
Qed.
Lemma run_unopened {A} message key (absent : result A) k d : dk_nodes d !! [] = None → (run (opened message key absent k) d).1 = absent.
Proof.
  intros Hroot. unfold opened, orElse. cbn [FileSys.run]. rewrite exec_effect. cbn [effect fst snd FileSys.run].
  rewrite exec_effect. cbn [effect fst snd dk_nodes]. unfold dirError. by rewrite Hroot.
Qed.

(** What a read finds at a key. *)
Lemma read_present key contentType body d : ordinary key = true → wellRooted (dk_nodes d) →
  dk_nodes d !! keyPath key = Some (File body) → recordedAs sha256Hex (dk_nodes d) key contentType →
  (run (localGet sha256Hex key) d).1 = Ok {| ob_Info := objectInfo key contentType body; ob_Body := body |} ∧
  (run (localOpen sha256Hex key) d).1 = Ok ({| rd_Bytes := body; rd_Err := None |}, objectInfo key contentType body) ∧
  (run (localExists key) d).1 = Ok true.
Proof.
  intros Hord Hw Hb Hr. destruct (ordinary_path key Hord) as (Hpath & _ & _).
  assert (dk_nodes d !! [] = Some Dir) as Hroot.
  { apply (proj1 (parentError_None _ _) (Hw _ _ Hb) 0%nat). pose proof (keyPath_nonempty key). destruct (keyPath key); [done|cbn; lia]. }
  pose proof (proj2 (resolve_Ok _ _ _ Hw) Hb) as Hres.
  assert (∀ d1, dk_nodes d1 = dk_nodes d → ∃ d', run (readContentType sha256Hex key) d1 = (Ok contentType, d')) as Hct.
  { intros d1 E. destruct (run_readContentType key contentType d1) as (d' & -> & _); [by rewrite E|by rewrite E|by eexists]. }
  unfold localGet, localOpen, localExists. rewrite Hpath. split_and!.
  - edestruct @run_opened as (d1 & -> & N1); [done|]. unfold orElse, try_. cbn [FileSys.run].
    rewrite exec_effect. cbn [effect fst snd]. unfold readFile. rewrite N1, Hres. cbn [FileSys.run].
    rewrite run_bind. by edestruct Hct as [d' ->].
  - edestruct @run_opened as (d1 & -> & N1); [done|]. unfold orElse, try_. cbn [FileSys.run].
    rewrite exec_effect. cbn [effect fst snd]. rewrite N1, Hres. cbn [FileSys.run].
    rewrite exec_effect. cbn [effect fst snd FileSys.run]. rewrite run_bind. by edestruct Hct as [d' ->].
  - edestruct @run_opened as (d1 & -> & N1); [done|]. unfold orElse. cbn [FileSys.run].
    rewrite exec_effect. cbn [effect fst snd]. by rewrite N1, Hres.
Qed.

Lemma resolve_missing nodes p : p ≠ [] → unblocked nodes (dirOf p) → nodes !! p = None → resolve nodes p = Err ErrNotExist.
Proof.
  intros Hp Hu Hn. unfold resolve. destruct (parentError nodes p) as [e|] eqn:Ep; [|by rewrite Hn].
  apply head_Some_elem_of, list_elem_of_omap in Ep as (q & Hq & Ed). unfold ancestors in Hq.
  apply list_elem_of_fmap in Hq as (i & -> & Hi%elem_of_seq). assert (i ≤ pred (length p))%nat as Hl by lia.
  assert (take i (dirOf p) = take i p) as Et by (unfold dirOf; rewrite take_take; f_equal; lia).
  unfold dirError in Ed. destruct (nodes !! take i p) as [[|content]|] eqn:E; simplify_eq/=; [|done].
  rewrite <- Et in E. exfalso. eapply (Hu i content); [|exact E]. unfold dirOf. rewrite length_take. lia.
Qed.

Lemma read_absent key d : ordinary key = true → (∀ content, dk_nodes d !! [] ≠ Some (File content)) →
  unblocked (dk_nodes d) (dirOf (keyPath key)) → dk_nodes d !! keyPath key = None →
  (run (localGet sha256Hex key) d).1 = Err (Errorf "get %s: %w" [AStr (key_value key); AWrap ErrNotFound]) ∧
  (run (localOpen sha256Hex key) d).1 = Err (Errorf "open %s: %w" [AStr (key_value key); AWrap ErrNotFound]) ∧
  (run (localExists key) d).1 = Ok false.
Proof.
  intros Hord Hroot Hu Hn. destruct (ordinary_path key Hord) as (Hpath & _ & _).
  pose proof (resolve_missing _ _ (keyPath_nonempty key) Hu Hn) as Hres.
  unfold localGet, localOpen, localExists. rewrite Hpath.
  destruct (dk_nodes d !! []) as [[|content]|] eqn:E0; [|by destruct (Hroot content)|by rewrite !run_unopened].
  split_and!; edestruct @run_opened as (d1 & -> & N1); try done; unfold orElse; cbn [FileSys.run];
    rewrite exec_effect; cbn [effect fst snd]; unfold readFile; by rewrite N1, Hres.
Qed.
End Alone.
