(* ===== verification/LocalRecovery.v ===== *)
(** * Writing again after a crash

    A conditional write whose calls do not fail runs to its end, from any state that
    interrupted writes leave behind: the retry makes the object, or finds it made. *)

From S2P Require Import Prelude Utf16 Text Canonical CanonicalText SourceIdentity Datastore FileSys FileLaws LocalStore LocalSafety LocalCorrect LocalAlone.
From stdpp Require Import gmap.
#[local] Open Scope Z_scope.
#[local] Arguments isErr : simpl never.

(** ** Any state the writes leave *)

(** Room for the writes: nothing stands where a directory must go, no key is a directory of
    another, and the writes of a key agree on its content type with one another and with a
    record that is there. *)
Record room (sha256Hex : string → string) (keys : list Key) (writes : list (Key * string * string)) (nodes : gmap path node) : Prop := {
  rm_root : ∀ content, nodes !! [] ≠ Some (File content);
  rm_metadata : unblocked nodes [localMetadataDirName];
  rm_dirs : ∀ key, key ∈ keys → unblocked nodes (dirOf (keyPath key));
  rm_objects : ∀ key, key ∈ keys → nodes !! keyPath key ≠ Some Dir;
  rm_nested : ∀ key key' i, key ∈ keys → key' ∈ keys → (i < length (keyPath key'))%nat → keyPath key ≠ take i (keyPath key');
  rm_records : ∀ key body declared, (key, body, declared) ∈ writes →
    nodes !! metadataPath sha256Hex key = None ∨ recordedAs sha256Hex nodes key (defaultContentType declared);
  rm_types : ∀ key body declared body' declared', (key, body, declared) ∈ writes → (key, body', declared') ∈ writes →
    defaultContentType declared = defaultContentType declared';
}.

Section Retry.
Context (sha256Hex : string → string) (fault : nat → option (error * option nat)) (uuid : nat → string).
Context (P : platform sha256Hex fault uuid) (keys : list Key) (U : usable sha256Hex keys).
Context (writes : list (Key * string * string)).
Context (writes_keys : ∀ key body declared, (key, body, declared) ∈ writes → key ∈ keys ∧ storable (defaultContentType declared)).
Context (nodes0 : gmap path node) (R : room sha256Hex keys writes nodes0).
#[local] Abbreviation inv := (localInv sha256Hex uuid (.∈ keys) (map withDefault writes) nodes0).
#[local] Abbreviation metadataPath := (metadataPath sha256Hex).

Lemma metadata_digest key key' : metadataPath key = metadataPath key' → sha256Hex (key_value key) = sha256Hex (key_value key').
Proof.
  intros E. injection E as E%(f_equal bytesOf). rewrite !bytesOf_app in E. apply app_inv_tail in E.
  apply (f_equal ofBytes) in E. by rewrite !ofBytes_bytesOf in E.
Qed.

(** A file that writes have put in the tree is an object or a record of theirs. *)
Lemma file_placed σ p content : inv σ → durable sha256Hex uuid p → dk_nodes σ.1 !! p = Some (File content) →
  nodes0 !! p = Some (File content) ∨
  ∃ key body declared, (key, body, declared) ∈ writes ∧ key ∈ keys ∧
    (p = keyPath key ∧ content = body ∨ p = metadataPath key ∧ content = metadataBody (defaultContentType declared)).
Proof.
  intros Hi Hd Hf. destruct (li_files _ _ _ _ _ _ Hi _ _ Hd Hf) as [?|(key & body & ct & Hin & Hp)]; [by left|right].
  apply (withDefault_in keys writes writes_keys) in Hin as (Hk & _ & declared & Hin & ->). by exists key, body, declared.
Qed.
Lemma dir_placed σ p : inv σ → durable sha256Hex uuid p → dk_nodes σ.1 !! p = Some Dir →
  nodes0 !! p = Some Dir ∨ p = [] ∨ p = [localMetadataDirName] ∨
  ∃ key i, key ∈ keys ∧ (i < length (keyPath key))%nat ∧ p = take i (keyPath key).
Proof.
  intros Hi Hd Hf. destruct (li_dirs _ _ _ _ _ _ Hi _ Hd Hf) as [?|[?|[?|(key & body & ct & i & Hin & Hp)]]]; [by left|by right; left|by do 2 right; left|].
  do 3 right. apply (withDefault_in keys writes writes_keys) in Hin as (Hk & _). by exists key, i.
Qed.

Lemma ready_after d g key body declared : inv (d, g) → (key, body, declared) ∈ writes →
  ready sha256Hex uuid (λ _, True) key d ∧ agreeing sha256Hex key (defaultContentType declared) d.
Proof.
  intros Hi Hin. destruct (writes_keys _ _ _ Hin) as [Hk _]. pose proof (us_ordinary _ _ U _ Hk) as Hord.
  pose proof (pf_sha256 _ _ _ P) as Hsha. pose proof (pf_uuid _ _ _ P) as Hnew.
  assert (durable sha256Hex uuid (metadataPath key)) as Hmd by (by apply durable_metadata).
  assert (durable sha256Hex uuid (keyPath key)) as Hkd by (by apply durable_key).
  assert (∀ k i q, k ∈ keys → take i (keyPath k) ≠ localMetadataDirName :: q) as Hout.
  { intros k i q Hk'. by apply key_outside, (us_ordinary _ _ U). }
  assert (∀ k q, k ∈ keys → keyPath k ≠ localMetadataDirName :: q) as Hout'.
  { intros k q Hk' E. apply (Hout k (length (keyPath k)) q Hk'). by rewrite firstn_all. }
  split; [split|].
  - apply (li_rooted _ _ _ _ _ _ Hi).
  - intros content Hf. destruct (file_placed _ _ _ Hi (durable_root _ _) Hf) as [H0|(k & b & dc & _ & _ & [[E _]|[E _]])].
    + by eapply rm_root.
    + symmetry in E. by apply keyPath_nonempty in E.
    + done.
  - intros i content Hl Hf. assert (take i (dirOf (keyPath key)) = take (i `min` pred (length (keyPath key))) (keyPath key)) as E by (unfold dirOf; by rewrite take_take).
    assert (durable sha256Hex uuid (take i (dirOf (keyPath key)))) as Hd by (rewrite E; by apply durable_dir).
    destruct (file_placed _ _ _ Hi Hd Hf) as [H0|(k & b & dc & _ & Hk' & [[E' _]|[E' _]])].
    + by eapply (rm_dirs _ _ _ _ R key).
    + rewrite E in E'. symmetry in E'. apply (rm_nested _ _ _ _ R) in E'; [done|done|done|].
      pose proof (keyPath_nonempty key). destruct (keyPath key); [done|]. cbn. lia.
    + rewrite E in E'. by eapply (Hout key).
  - intros i content Hl Hf. destruct (file_placed _ _ _ Hi (metadata_durable sha256Hex uuid i) Hf) as [H0|(k & b & dc & _ & Hk' & [[E' _]|[E' _]])].
    + by eapply (rm_metadata _ _ _ _ R).
    + destruct i as [|i]; cbn in E'.
      * symmetry in E'. by apply keyPath_nonempty in E'.
      * rewrite take_nil in E'. symmetry in E'. by eapply (Hout' k).
    + by destruct i as [|[|i]].
  - exact (li_fresh _ _ _ _ _ _ Hi).
  - intros E. destruct (dir_placed _ _ Hi Hkd E) as [H0|[E'|[E'|(k & i & Hk' & Hl & E')]]].
    + by eapply (rm_objects _ _ _ _ R).
    + by apply keyPath_nonempty in E'.
    + by eapply (Hout' key).
    + by apply (rm_nested _ _ _ _ R) in E'.
  - intros E. destruct (dir_placed _ _ Hi Hmd E) as [H0|[?|[?|(k & i & Hk' & _ & E')]]]; [|done|done|].
    + destruct (rm_records _ _ _ _ R _ _ _ Hin) as [?|(r & Hr & _)]; cbn in H0; congruence.
    + symmetry in E'. by eapply (Hout k).
  - done.
  - destruct (dk_nodes d !! metadataPath key) as [[|content]|] eqn:E; [exfalso|right|by left].
    + destruct (dir_placed _ _ Hi Hmd E) as [H0|[?|[?|(k & i & Hk' & _ & E')]]]; [|done|done|symmetry in E'; by eapply (Hout k)].
      destruct (rm_records _ _ _ _ R _ _ _ Hin) as [?|(r & Hr & _)]; congruence.
    + exists (defaultContentType declared). split; [|by left].
      destruct (file_placed _ _ _ Hi Hmd E) as [H0|(k & b & dc & Hin' & Hk' & [[E' _]|[E' ->]])].
      * destruct (rm_records _ _ _ _ R _ _ _ Hin) as [?|(r & Hr & Hdec)]; [congruence|]. rewrite H0 in Hr. injection Hr as ->. by exists r.
      * exfalso. symmetry in E'. by eapply (Hout' k).
      * assert (key = k) as <- by (apply (us_apart _ _ U); [done|done|by apply metadata_digest]).
        rewrite (rm_types _ _ _ _ R _ _ _ _ _ Hin' Hin) in E. eexists. split; [exact E|]. by eapply writes_keys.
Qed.
End Retry.

