(* ===== verification/LocalRefines.v ===== *)
(** * The local store is a store

    A program alone with a local store, whose calls do not fail, gets from it the answers
    that the memory store gives, for any sequence of writes and reads: the two differ in the
    text of an error alone. *)

From S2P Require Import Prelude Utf16 Text SourceIdentity Datastore FileSys FileLaws LocalStore LocalSafety LocalCorrect LocalAlone LocalRecovery.
From stdpp Require Import gmap.
#[local] Open Scope Z_scope.
#[local] Arguments isErr : simpl never.

(** ** Operations of any store *)
Inductive operation : Type :=
  | PutObject (key : Key) (body : string) (options : PutOptions)
  | GetObject (key : Key)
  | OpenObject (key : Key)
  | HasObject (key : Key).
Inductive answer : Type :=
  | Wrote (r : result ObjectInfo)
  | Got (r : result Object)
  | Opened (r : result (Reader * ObjectInfo))
  | Has (r : result bool).

Definition perform {S} `{Datastore S, Opener S} (op : operation) (s : S) : answer * S :=
  match op with
  | PutObject key body options => let '(r, s') := Put key body options s in (Wrote r, s')
  | GetObject key => (Got (Get key s), s)
  | OpenObject key => (Opened (Open key s), s)
  | HasObject key => (Has (Datastore.Exists key s), s)
  end.
Fixpoint answers {S} `{Datastore S, Opener S} (ops : list operation) (s : S) : list answer :=
  match ops with [] => [] | op :: rest => let '(a, s') := perform op s in a :: answers rest s' end.

(** The same value, or errors that are the same to [errors.Is]. *)
Definition sameResult {A} (r r' : result A) : Prop :=
  match r, r' with
  | Ok a, Ok a' => a = a'
  | Err e, Err e' => ∀ target, isErr e target = isErr e' target
  | _, _ => False
  end.
Definition sameAnswer (a a' : answer) : Prop :=
  match a, a' with
  | Wrote r, Wrote r' => sameResult r r'
  | Got r, Got r' => sameResult r r'
  | Opened r, Opened r' => sameResult r r'
  | Has r, Has r' => sameResult r r'
  | _, _ => False
  end.
Lemma sameResult_refl {A} (r : result A) : sameResult r r.
Proof. by destruct r. Qed.

Section Refines.
Context (sha256Hex : string → string) (uuid : nat → string) (P : platform sha256Hex (λ _, None) uuid).
Context (keys : list Key) (U : usable sha256Hex keys).
(** No key is a directory of another. *)
Context (nested : ∀ key key' i, key ∈ keys → key' ∈ keys → (i < length (keyPath key'))%nat → keyPath key ≠ take i (keyPath key')).
#[local] Abbreviation metadataPath := (metadataPath sha256Hex).

Definition mayMake (p : path) : Prop :=
  p = [] ∨ p = [localMetadataDirName] ∨ ∃ key i, key ∈ keys ∧ (i < length (keyPath key))%nat ∧ p = take i (keyPath key).

(** The tree holds the objects of [s], each with its record, and no others. *)
Record tidy (s : gmap Key (string * string)) (d : disk) : Prop := {
  ti_rooted : wellRooted (dk_nodes d);
  ti_root : ∀ content, dk_nodes d !! [] ≠ Some (File content);
  ti_dirs : ∀ key, key ∈ keys → unblocked (dk_nodes d) (dirOf (keyPath key));
  ti_metadata : unblocked (dk_nodes d) [localMetadataDirName];
  ti_fresh : LocalAlone.fresh sha256Hex uuid d;
  ti_absent : ∀ key, key ∈ keys → s !! key = None → dk_nodes d !! keyPath key = None ∧ dk_nodes d !! metadataPath key = None;
  ti_present : ∀ key contentType body, key ∈ keys → s !! key = Some (contentType, body) →
    dk_nodes d !! keyPath key = Some (File body) ∧ recordedAs sha256Hex (dk_nodes d) key contentType;
}.

Lemma key_apart key i q : key ∈ keys → take i (keyPath key) ≠ localMetadataDirName :: q.
Proof. intros Hk. by apply key_outside, (us_ordinary _ _ U). Qed.
Lemma key_not_metadata key q : key ∈ keys → keyPath key ≠ localMetadataDirName :: q.
Proof. intros Hk E. apply (key_apart key (length (keyPath key)) q Hk). by rewrite firstn_all. Qed.

(** A name of an object or of a record is not one of the directories. *)
Lemma object_not_made key : key ∈ keys → ¬ mayMake (keyPath key).
Proof.
  intros Hk [E|[E|(key' & i & Hk' & Hi & E)]]; [by apply keyPath_nonempty in E|by apply key_not_metadata in E|].
  by apply nested in E.
Qed.
Lemma record_not_made key : ¬ mayMake (metadataPath key).
Proof. intros [?|[?|(key' & i & Hk' & _ & E)]]; [done|done|]. symmetry in E. by eapply (key_apart key'). Qed.

Lemma tidy_ready s d key : tidy s d → key ∈ keys → ready sha256Hex uuid mayMake key d.
Proof.
  intros [Hw Hr Hd Hm Hf Ha Hp] Hk. split; try done; [by apply Hd|..].
  - destruct (s !! key) as [[ct body]|] eqn:E; [by destruct (Hp _ _ _ Hk E) as [-> _]|by destruct (Ha _ Hk E) as [-> _]].
  - destruct (s !! key) as [[ct body]|] eqn:E; [by destruct (Hp _ _ _ Hk E) as (_ & r & -> & _)|by destruct (Ha _ Hk E) as [_ ->]].
  - intros i Hi. right. right. by exists key, i.
Qed.

(** A write of one key leaves the others alone. *)
Lemma wrote_tidy (s s' : gmap Key (string * string)) d d' key installs : tidy s d → key ∈ keys → wrote sha256Hex uuid mayMake key installs d d' →
  (∀ key', key' ≠ key → s' !! key' = s !! key') →
  (s' !! key = None → dk_nodes d' !! keyPath key = None ∧ dk_nodes d' !! metadataPath key = None) →
  (∀ contentType body, s' !! key = Some (contentType, body) →
    dk_nodes d' !! keyPath key = Some (File body) ∧ recordedAs sha256Hex (dk_nodes d') key contentType) →
  tidy s' d'.
Proof.
  intros [Hw Hr Hd Hm Hf Ha Hp] Hk [He Hi Hu] Hs Hnone Hsome. pose proof (pf_sha256 _ _ _ P) as Hsha. pose proof (pf_uuid _ _ _ P) as Hnew.
  assert (∀ k, k ∈ keys → durable sha256Hex uuid (keyPath k)) as Hkd by (intros k Hk'; by apply durable_key, (us_ordinary _ _ U)).
  assert (∀ k, durable sha256Hex uuid (metadataPath k)) as Hmd by (intros k; by apply durable_metadata).
  assert (∀ k, k ∈ keys → k ≠ key → installs !! keyPath k = None ∧ installs !! metadataPath k = None) as Hother.
  { intros k Hk' Hne. split; apply eq_None_not_Some; intros [E|E]%Hi.
    - by apply keyPath_inj in E.
    - by apply key_not_metadata in E.
    - symmetry in E. by apply (key_not_metadata key) in E.
    - apply metadata_digest in E. by apply Hne, (us_apart _ _ U). }
  assert (∀ p, durable sha256Hex uuid p → installs !! p = None → ¬ mayMake p → dk_nodes d !! p = None → dk_nodes d' !! p = None) as Hstill.
  { intros p Hdp Hip Hmp Hn. destruct (dk_nodes d' !! p) as [[|content]|] eqn:E; [exfalso| |done].
    - destruct (ev_dirs _ _ _ _ _ _ _ _ He _ Hdp E); congruence.
    - apply (ev_files _ _ _ _ _ _ _ _ He) in E; [congruence|done|done]. }
  assert (∀ p content, durable sha256Hex uuid p → p ≠ keyPath key → p ≠ metadataPath key → dk_nodes d' !! p = Some (File content) →
    dk_nodes d !! p = Some (File content)) as Hfile.
  { intros p content Hdp H1 H2 E. apply (ev_files _ _ _ _ _ _ _ _ He); [done| |done]. apply eq_None_not_Some. by intros [?|?]%Hi. }
  split.
  - by apply (ev_rooted _ _ _ _ _ _ _ _ He).
  - intros content E. apply Hfile in E; [by apply Hr in E|apply durable_root| |done]. intros E'. symmetry in E'. by apply keyPath_nonempty in E'.
  - intros k Hk' i content Hl E. assert (take i (dirOf (keyPath k)) = take (i `min` pred (length (keyPath k))) (keyPath k)) as Et by (unfold dirOf; by rewrite take_take).
    apply Hfile in E; [by eapply Hd|rewrite Et; apply durable_dir; [done..|by apply (us_ordinary _ _ U)]| |].
    + rewrite Et. intros E'. symmetry in E'. apply nested in E'; [done|done|done|]. pose proof (keyPath_nonempty k).
      destruct (keyPath k); [done|cbn; lia].
    + rewrite Et. intros E'. by eapply (key_apart k).
  - intros i content Hl E. apply Hfile in E; [by eapply Hm|by apply metadata_durable| |by destruct i as [|[|i]]].
    intros E'. destruct i as [|i]; cbn in E'; symmetry in E'; [by apply keyPath_nonempty in E'|]. rewrite take_nil in E'. by apply key_not_metadata in E'.
  - by eapply fresh_evolves.
  - intros k Hk' Hn. destruct (decide (k = key)) as [->|Hne]; [by apply Hnone|]. rewrite Hs in Hn by done.
    destruct (Ha _ Hk' Hn) as [H1 H2], (Hother _ Hk' Hne) as [I1 I2].
    split; [apply Hstill; [by apply Hkd|done|by apply object_not_made|done]|apply Hstill; [apply Hmd|done|apply record_not_made|done]].
  - intros k ct body Hk' Hy. destruct (decide (k = key)) as [->|Hne]; [by apply Hsome|]. rewrite Hs in Hy by done.
    destruct (Hp _ _ _ Hk' Hy) as [H1 H2], (Hother _ Hk' Hne) as [I1 I2].
    split; [apply (ev_keep _ _ _ _ _ _ _ _ He); [by apply Hkd|done|done]|by eapply recordedAs_evolves].
Qed.

#[local] Existing Instances MemoryStore.datastore MemoryStore.opener.
#[local] Instance alone : Datastore disk := localDatastore sha256Hex (λ _, None) uuid.
#[local] Instance aloneOpener : Opener disk := localOpener sha256Hex (λ _, None) uuid.

(** The keys in use, and content types that a record gives back. *)
Definition within (op : operation) : Prop :=
  match op with
  | PutObject key body options => key ∈ keys ∧ storable (defaultContentType (po_ContentType options))
  | GetObject key | OpenObject key | HasObject key => key ∈ keys
  end.

Lemma put_same key body options (s : gmap Key (string * string)) d : tidy s d → key ∈ keys → storable (defaultContentType (po_ContentType options)) →
  let '(r, d') := Put key body options d in
  let '(r', s') := Put key body options s in
  sameResult r r' ∧ tidy s' d'.
Proof.
  intros Ht Hk Hst. pose proof (tidy_ready _ _ _ Ht Hk) as Hready. pose proof (us_ordinary _ _ U _ Hk) as Hord.
  pose proof (pf_sha256 _ _ _ P) as Hsha. pose proof (pf_uuid _ _ _ P) as Hnew.
  set (ct := defaultContentType (po_ContentType options)) in *.
  assert (mayMake [] ∧ mayMake [localMetadataDirName]) as [Hm0 Hm1] by (split; [by left|by right; left]).
  assert (∀ installs d', wrote sha256Hex uuid mayMake key installs d d' → installs !! keyPath key = Some body →
    recordedAs sha256Hex (dk_nodes d') key ct → tidy (<[ key := (ct, body) ]> s) d') as Hmade.
  { intros installs d' Hw Hb Hr. eapply wrote_tidy; [exact Ht|exact Hk|exact Hw|..].
    - intros key' Hne. by rewrite lookup_insert_ne.
    - by rewrite lookup_insert_eq.
    - intros ct' b. rewrite lookup_insert_eq. intros [= <- <-]. split; [|done]. by apply (ev_installed _ _ _ _ _ _ _ _ (wr_evolves _ _ _ _ _ _ _ Hw)). }
  cbn [Put alone localDatastore MemoryStore.datastore]. unfold MemoryStore.put. fold ct. destruct (po_IfAbsent options) eqn:Habs.
  - assert (agreeing sha256Hex key ct d) as Hagree.
    { destruct (s !! key) as [[ct' b]|] eqn:E; [right|left; by apply (ti_absent _ _ Ht)].
      destruct (ti_present _ _ Ht _ _ _ Hk E) as [Hb Hr]. exists ct'. split; [done|right]. congruence. }
    destruct (run_conditionalPut sha256Hex uuid Hsha Hnew mayMake Hm0 Hm1 key body options d Habs Hord Hst Hready Hagree)
      as (r & d' & installs & -> & Hw & Hcase). cbn [andb].
    destruct (s !! key) as [[ct' b]|] eqn:E.
    + destruct (ti_present _ _ Ht _ _ _ Hk E) as [Hb Hr]. rewrite Hb in Hcase. destruct Hcase as ((e & -> & He) & Hi & Hi0).
      rewrite bool_decide_eq_true_2 by (by eexists). assert (installs = ∅) as -> by (apply Hi0; destruct Hr as (record & -> & _); done). split.
      * intros target. rewrite He. symmetry. apply (isErr_wrapped _ [_]). by repeat constructor.
      * eapply wrote_tidy; [exact Ht|exact Hk|exact Hw|done|congruence|]. intros ct1 b1. rewrite E. intros [= <- <-].
        split; [apply (ev_keep _ _ _ _ _ _ _ _ (wr_evolves _ _ _ _ _ _ _ Hw)); [by apply durable_key|done|done]|].
        by eapply recordedAs_evolves; [..|exact Hr]; [|exact (wr_evolves _ _ _ _ _ _ _ Hw)|].
    + destruct (ti_absent _ _ Ht _ Hk E) as [Hb _]. rewrite Hb in Hcase. destruct Hcase as (-> & Hb' & Hr).
      rewrite bool_decide_eq_false_2 by (by apply eq_None_not_Some). split; [done|]. by eapply Hmade.
  - destruct (run_plainPut sha256Hex uuid Hsha Hnew mayMake Hm0 Hm1 key body options d Habs Hord Hst Hready) as (d' & installs & -> & Hw & Hb & Hr).
    cbn [andb]. split; [done|]. by eapply Hmade.
Qed.

Lemma reads_same key (s : gmap Key (string * string)) d : tidy s d → key ∈ keys →
  sameResult (Get key d) (Get key s) ∧ sameResult (Open key d) (Open key s) ∧ sameResult (Datastore.Exists key d) (Datastore.Exists key s).
Proof.
  intros Ht Hk. pose proof (us_ordinary _ _ U _ Hk) as Hord.
  cbn [Get Open Datastore.Exists alone aloneOpener localDatastore localOpener MemoryStore.datastore MemoryStore.opener].
  unfold MemoryStore.open. assert (MemoryStore.get key s = match s !! key with
    | Some (contentType, body) => Ok {| ob_Info := objectInfo key contentType body; ob_Body := body |}
    | None => Err (Errorf "get %s: %w" [AStr (key_value key); AWrap ErrNotFound])
    end) as -> by done.
  destruct (s !! key) as [[ct body]|] eqn:E.
  - destruct (ti_present _ _ Ht _ _ _ Hk E) as [Hb Hr].
    destruct (read_present sha256Hex uuid key ct body d Hord (ti_rooted _ _ Ht) Hb Hr) as (-> & -> & ->).
    rewrite bool_decide_eq_true_2 by (by eexists). done.
  - destruct (ti_absent _ _ Ht _ Hk E) as [Hb _].
    destruct (read_absent sha256Hex uuid key d Hord (ti_root _ _ Ht) (ti_dirs _ _ Ht _ Hk) Hb) as (-> & -> & ->).
    rewrite bool_decide_eq_false_2 by (by apply eq_None_not_Some). split_and!; [done| |done]. intros target.
    etrans; [|symmetry]; apply (isErr_wrapped _ [_]); by repeat constructor.
Qed.

Lemma answers_same ops (s : gmap Key (string * string)) d : tidy s d → Forall within ops → Forall2 sameAnswer (answers ops d) (answers ops s).
Proof.
  intros Ht Hops. revert s d Ht. induction Hops as [|op ops Hop _ IH]; intros s d Ht; cbn [answers]; [constructor|].
  destruct op as [key body options|key|key|key]; cbn [perform].
  1: { destruct Hop as [Hk Hst]. pose proof (put_same _ body _ _ _ Ht Hk Hst) as Hsame.
    destruct (Put key body options d) as [r d'], (Put key body options s) as [r' s']. destruct Hsame as [Hr Ht'].
    constructor; [exact Hr|by apply IH]. }
  all: constructor; [apply reads_same; done|by apply IH].
Qed.
End Refines.

