(* ===== verification/LocalSample.v ===== *)
(** * Two writers and a full disk

    Three conditional writes of a key to an empty store: one pauses after it has recorded the
    content type, one is cut short by a full disk, one goes through.  The hypotheses of the
    local store's theorems hold there. *)

From S2P Require Import Prelude Utf16 Text Canonical CanonicalText SourceIdentity Datastore FileSys FileLaws LocalStore LocalSafety LocalCorrect LocalAlone LocalRecovery LocalRefines.
From stdpp Require Import gmap.
#[local] Open Scope Z_scope.

(** A run of a pool, the program to move at each step given. *)
Definition advance {A} (fault : nat → option (error * option nat)) (uuid : nat → string)
    (x : list (prog A) * disk) (i : nat) : list (prog A) * disk :=
  match x.1 !! i with
  | Some (Call c k) => let '(r, d) := exec fault uuid c x.2 in (<[ i := k r ]> x.1, d)
  | _ => x
  end.
Lemma advance_steps {A} fault uuid schedule (x : list (prog A) * disk) :
  rtc (poolStep fault uuid) x (foldl (advance fault uuid) x schedule).
Proof.
  revert x. induction schedule as [|i schedule IH]; intros [pool d]; cbn [foldl]; [done|]. etrans; [|apply IH].
  unfold advance. cbn [fst snd]. destruct (pool !! i) as [[a|B c k]|] eqn:E; [done| |done].
  destruct (exec fault uuid c d) as [r d'] eqn:Ee. apply rtc_once. by econstructor.
Qed.

Definition zeroDigest (_ : string) : string := "0000000000000000000000000000000000000000000000000000000000000000".
Definition tally (n : nat) : string := ofBytes (45 :: replicate n 49).
Definition fullDisk (n : nat) : option (error * option nat) :=
  if decide (n = 16)%nat then Some (ErrNew "no space left on device", Some 1%nat) else None.
Definition objectA : Key := {| key_value := "runs/a" |}.
Definition threeWrites : list (Key * string * string) := [(objectA, "one", "text/plain"); (objectA, "two", "text/plain"); (objectA, "three", "text/plain")].
Definition emptyDisk : disk := {| dk_nodes := ∅; dk_calls := 0; dk_uuids := 0 |}.
Definition atStart : list (prog (result ObjectInfo)) * disk := (map (conditionalPut zeroDigest) threeWrites, emptyDisk).
(** The first writer up to its object, then the third until its disk is full. *)
Definition paused := foldl (advance fullDisk tally) atStart (replicate 11 0%nat ++ replicate 9 2%nat).
(** Then the second to its end, and the first. *)
Definition finished := foldl (advance fullDisk tally) paused (replicate 20 1%nat ++ replicate 5 0%nat).

Example paused_record : (visible zeroDigest paused.2 objectA, dk_nodes paused.2 !! metadataPath zeroDigest objectA) =
  (None, Some (File (metadataBody "text/plain"))).
Proof. by vm_compute. Qed.
Example finished_second : visible zeroDigest finished.2 objectA = Some ("text/plain", "two").
Proof. by vm_compute. Qed.

Lemma tally_apart x y n m : replicate n 49 ++ 45 :: x = replicate m 49 ++ 45 :: y → n = m.
Proof. revert m. induction n as [|n IH]; intros [|m] E; cbn in E; [done|done|done|]. injection E as E. f_equal. by apply IH. Qed.

Lemma sample_platform : platform zeroDigest fullDisk tally.
Proof.
  split.
  - intros s. by vm_compute.
  - intros n m a b E%(f_equal bytesOf). rewrite !bytesOf_app in E. unfold tally in E.
    rewrite !bytesOf_ofBytes in E by (constructor; [done|]; by apply Forall_replicate).
    apply (f_equal reverse) in E. rewrite !reverse_app, !reverse_cons, !reverse_replicate, <- !app_assoc in E. cbn [app] in E. by eapply tally_apart.
  - unfold fullDisk. intros n e w E. case_decide; [|done]. by injection E as <- <-.
Qed.
Lemma sample_usable : usable zeroDigest [objectA].
Proof. split; [intros key ->%list_elem_of_singleton; by vm_compute|]. by intros key key' ->%list_elem_of_singleton ->%list_elem_of_singleton. Qed.
Lemma sample_sound : sound zeroDigest tally [objectA] emptyDisk.
Proof. split; [by intros p n Hp| |done]. by intros key body _ Hb. Qed.
Lemma sample_types key body declared : (key, body, declared) ∈ threeWrites → key = objectA ∧ declared = "text/plain".
Proof.
  assert (Forall (λ write, write.1.1 = objectA ∧ write.2 = "text/plain") threeWrites) as H by (repeat constructor).
  exact (proj1 (Forall_forall _ _) H _).
Qed.
Lemma sample_writes key body declared : (key, body, declared) ∈ threeWrites →
  key ∈ [objectA] ∧ storable (defaultContentType declared).
Proof. intros [-> ->]%sample_types. split; [by apply list_elem_of_singleton|by vm_compute]. Qed.
Lemma sample_room : room zeroDigest [objectA] threeWrites (dk_nodes emptyDisk).
Proof.
  split.
  1-4: by intros.
  - intros key key' i ->%list_elem_of_singleton ->%list_elem_of_singleton Hi E%(f_equal length). rewrite length_take in E. lia.
  - by left.
  - intros key body declared body' declared' [_ ->]%sample_types [_ ->]%sample_types. done.
Qed.



(** A program alone: writes, a refused write, a replacement, and reads. *)
Definition plainText (ifAbsent : bool) : PutOptions := {| po_ContentType := "text/plain"; po_IfAbsent := ifAbsent |}.
Definition htmlText (ifAbsent : bool) : PutOptions := {| po_ContentType := "text/html"; po_IfAbsent := ifAbsent |}.
Definition fewOperations : list operation :=
  [HasObject objectA; GetObject objectA; PutObject objectA "one" (plainText true); PutObject objectA "two" (htmlText true);
   GetObject objectA; PutObject objectA "three" (htmlText false); OpenObject objectA; HasObject objectA].

(** ** What a store with interrupted writes can show *)

(** A list names the temporary objects of writes that were cut short. *)
Example list_names_temporary :
  map (key_value ∘ oi_Key) <$> (run (λ _, None) tally (localList zeroDigest {| key_value := "runs" |}) paused.2).1 =
  Ok ["runs/.tmp-a-" +:+ tally 0; "runs/.tmp-a-" +:+ tally 2].
Proof. by vm_compute. Qed.

(** The disk after a plain write of "two" that stops before its record is written. *)
Definition torn (d : disk) : disk :=
  (run (λ n, if decide (n = 9 + dk_calls d)%nat then Some (ErrNew "no space left on device", None) else None) tally
     (localPut zeroDigest objectA "two" (htmlText false)) d).2.

(** An object that is replaced may keep its content type. *)
Example torn_replacement : visible zeroDigest (torn (run (λ _, None) tally (localPut zeroDigest objectA "one" (plainText false)) emptyDisk).2) objectA =
  Some ("text/plain", "two").
Proof. by vm_compute. Qed.

(** A conditional write that finds an object without a record is refused, and yet changes the
    object's content type. *)
Example refused_write_changes_type :
  let '(r, d) := run (λ _, None) tally (localPut zeroDigest objectA "three" (plainText true)) (torn emptyDisk) in
  (isErr (match r with Err e => e | Ok _ => ErrNotFound end) ErrAlreadyExists,
   visible zeroDigest (torn emptyDisk) objectA, visible zeroDigest d objectA) =
  (true, Some (defaultContentType "", "two"), Some ("text/plain", "two")).
Proof. by vm_compute. Qed.
