(* ===== verification/ArgoGraph.v ===== *)
(** * The graphs the Argo target accepts

    [validateStaticGraph] of [target/argo/argo.go], which every plan passes before the target
    lowers it.  The getters of the plan's graph are those of [authoredGraph].  Go ranges over
    the map of remaining predecessors in any order: [rangeOrder] is that order.

    The checks accept exactly the static graphs: a graph with the sentinels and degrees a
    valid spec has, whose merges name their inbound edges, and where every node is on a path
    from start to end. *)

From S2P Require Import Prelude Utf16 Text SpecTypes PlanTypes TopoOrder Kahn SpecGraph Reach Validate Verify.
From Stdlib Require Import SpecFloat.
#[local] Open Scope Z_scope.

(** [edge.GetFrom() + "\x00" + edge.GetTo()] *)
Definition linkKey (edge : GraphEdge) : string := ge_From edge +:+ nul +:+ ge_To edge.

Record links := {
  lk_inbound : gmap string (list string);
  lk_outbound : gmap string (list string);
  lk_edges : gset string;
}.

(** [inbound[edge.GetTo()] = append(inbound[edge.GetTo()], edge.GetFrom())] *)
Definition reverseEdge (e : GraphEdge) : GraphEdge :=
  {| ge_From := ge_To e; ge_To := ge_From e; ge_Case := ge_Case e |}.

Definition collectNode (nodes : gmap string GraphNode) (n : GraphNode) : result (gmap string GraphNode) :=
  if bool_decide (gn_ID n = "") then Err (ErrNew "argo target: graph contains a node without an id")
  else if negb (missing nodes (gn_ID n)) then
    Err (Errorf "argo target: graph contains duplicate node id %q" [AStr (gn_ID n)])
  else Ok (<[gn_ID n := n]> nodes).

Definition checkKind (n : GraphNode) : result unit :=
  if negb (bool_decide (gn_Kind n ∈ [NodeKindStart; NodeKindStep; NodeKindMap; NodeKindDecision; NodeKindSelect; NodeKindEnd])) then
    Err (Errorf "argo target: node %q has unsupported kind %q" [AStr (gn_ID n); AStr (gn_Kind n)])
  else if (isKind NodeKindStep n || isKind NodeKindMap n) &&
          (bool_decide (gn_SymbolRef n = "") || bool_decide (gn_ContractRef n = "")) then
    Err (Errorf "argo target: executable node %q lacks symbol or contract" [AStr (gn_ID n)])
  else Ok tt.

Definition linkEdge (nodes : gmap string GraphNode) (st : links) (edge : GraphEdge) : result links :=
  if missing nodes (ge_From edge) || missing nodes (ge_To edge) then
    Err (Errorf "argo target: edge %q -> %q references an unknown node" [AStr (ge_From edge); AStr (ge_To edge)])
  else if bool_decide (linkKey edge ∈ lk_edges st) then
    Err (Errorf "argo target: duplicate edge %q -> %q" [AStr (ge_From edge); AStr (ge_To edge)])
  else Ok {| lk_inbound := addAdjacency (lk_inbound st) (reverseEdge edge);
             lk_outbound := addAdjacency (lk_outbound st) edge;
             lk_edges := {[linkKey edge]} ∪ lk_edges st |}.

Definition checkMerges (inbound : gmap string (list string)) (node : GraphNode) : result unit :=
  let sources := at_ inbound (gn_ID node) in
  if negb (isKind NodeKindStep node) || ((length sources <=? 1)%nat && bool_decide (gn_MergeInputs node = [])) then Ok tt
  else
    let declared : gset string := list_to_set (gn_MergeInputs node) in
    if negb (size declared =? length sources)%nat || existsb (λ source, bool_decide (source ∉ declared)) sources then
      Err (Errorf "argo target: step %q mergeInputs do not exactly match inbound edges" [AStr (gn_ID node)])
    else Ok tt.

(** [remaining[id] = len(inbound[id])] *)
Definition remainingOf (nodes : gmap string GraphNode) (inbound : gmap string (list string)) : gmap string Z :=
  map_imap (λ id _, Some (Z.of_nat (length (at_ inbound id)))) nodes.

(** The loop pops a node, counts it and relaxes its successors; [ts_order] are the nodes
    [visited] counts. *)
Definition visitNode (outbound : gmap string (list string)) (st : topoState) (current : string) (rest : list string) : topoState :=
  let '(remaining, queue) := foldl (relaxWith enqueueLast) (ts_indegree st, rest) (at_ outbound current) in
  {| ts_ready := queue; ts_indegree := remaining; ts_order := ts_order st ++ [current] |}.

Section StaticGraph.
Context (rangeOrder : gmap string Z → list (string * Z)).

(** [visited], with a unit of fuel per node. *)
Definition visitedNodes (nodes : gmap string GraphNode) (l : links) : nat :=
  let remaining := remainingOf nodes (lk_inbound l) in
  match drainReady ts_ready (visitNode (lk_outbound l)) (size nodes)
    {| ts_ready := (filter (λ kv, kv.2 = 0) (rangeOrder remaining)).*1; ts_indegree := remaining; ts_order := [] |} with
  | Some st => length (ts_order st)
  | None => 0
  end.

(** The nodes a search from [from] marks. *)
Definition marked (adjacency : gmap string (list string)) (edges : list GraphEdge) (from : string) : gset string :=
  default ∅ (reachLoop adjacency (S (length edges)) {[from]} [from]).

Definition unreachableError : error := ErrNew "argo target: every node must be reachable from start and reach end".

Definition checkLinks (g : Graph) (nodes : gmap string GraphNode) (l : links) : result unit :=
  if negb (length (at_ (lk_inbound l) (gr_Start g)) =? 0)%nat || negb (length (at_ (lk_outbound l) (gr_Start g)) =? 1)%nat then
    Err (ErrNew "argo target: start node must have no inbound edge and exactly one outbound edge")
  else if negb (length (at_ (lk_outbound l) (gr_End g)) =? 0)%nat || negb (length (at_ (lk_inbound l) (gr_End g)) =? 1)%nat then
    Err (ErrNew "argo target: end node must have exactly one inbound edge and no outbound edge")
  else
    _ ← foldErr (λ _, checkMerges (lk_inbound l)) tt (gr_Nodes g);
    let seen := marked (lk_outbound l) (gr_Edges g) (gr_Start g) in
    if negb (size seen =? size nodes)%nat || bool_decide (gr_End g ∉ seen) then Err unreachableError
    else
      let canReachEnd := marked (lk_inbound l) (gr_Edges g) (gr_End g) in
      if negb (size canReachEnd =? size nodes)%nat then Err unreachableError
      else if negb (visitedNodes nodes l =? size nodes)%nat then Err (ErrNew "argo target: graph contains a cycle")
      else Ok tt.

Section Validate.
Context `{SR : SchemaRules} (NumberToJSON : spec_float → result string) (protojsonMarshal : Message → result string)
  (unmarshalNode : string → result GraphNode) (deadlineSchema timeoutSchema : Z → result unit)
  (exitHookSchema : string → result unit) (graphSchema : Graph → result unit) (RunOutcomeSchemaJSON : string).
#[local] Abbreviation ValidateControlFlow := (ValidatePlanControlFlow NumberToJSON protojsonMarshal unmarshalNode
  deadlineSchema timeoutSchema exitHookSchema graphSchema RunOutcomeSchemaJSON).

Definition validateStaticGraph (p : WorkflowPlan) : result unit :=
  let g := authoredGraph (wp_Graph p) in
  if bool_decide (gr_Start g = "") || bool_decide (gr_End g = "") then
    Err (ErrNew "argo target: static graph requires start and end nodes")
  else
    nodes ← foldErr collectNode ∅ (gr_Nodes g);
    if notOfKind nodes (gr_Start g) NodeKindStart || notOfKind nodes (gr_End g) NodeKindEnd then
      Err (ErrNew "argo target: graph must contain declared start/end sentinel nodes")
    else
      _ ← foldErr (λ _, checkKind) tt (gr_Nodes g);
      l ← foldErr (linkEdge nodes) {| lk_inbound := ∅; lk_outbound := ∅; lk_edges := ∅ |} (gr_Edges g);
      _ ← checkLinks g nodes l;
      wrapErr "argo target: invalid control flow: %w" [] (ValidateControlFlow p).
End Validate.
End StaticGraph.

(** ** What the checks accept *)
Record staticGraph (g : Graph) : Prop := {
  sg_named : ∀ n, n ∈ gr_Nodes g → gn_ID n ≠ "";
  sg_ids : NoDup (map gn_ID (gr_Nodes g));
  sg_start : ∃ n, n ∈ gr_Nodes g ∧ gn_ID n = gr_Start g ∧ gn_Kind n = NodeKindStart;
  sg_end : ∃ n, n ∈ gr_Nodes g ∧ gn_ID n = gr_End g ∧ gn_Kind n = NodeKindEnd;
  sg_kinds : ∀ n, n ∈ gr_Nodes g →
    gn_Kind n ∈ [NodeKindStart; NodeKindStep; NodeKindMap; NodeKindDecision; NodeKindSelect; NodeKindEnd] ∧
    (gn_Kind n = NodeKindStep ∨ gn_Kind n = NodeKindMap → gn_SymbolRef n ≠ "" ∧ gn_ContractRef n ≠ "");
  sg_closed : ∀ e, e ∈ gr_Edges g → ge_From e ∈ map gn_ID (gr_Nodes g) ∧ ge_To e ∈ map gn_ID (gr_Nodes g);
  sg_edges : NoDup (map linkKey (gr_Edges g));
  sg_start_in : filter (λ e, ge_To e = gr_Start g) (gr_Edges g) = [];
  sg_start_out : length (filter (λ e, ge_From e = gr_Start g) (gr_Edges g)) = 1%nat;
  sg_end_out : filter (λ e, ge_From e = gr_End g) (gr_Edges g) = [];
  sg_end_in : length (filter (λ e, ge_To e = gr_End g) (gr_Edges g)) = 1%nat;
  sg_merges : ∀ n, n ∈ gr_Nodes g → gn_Kind n = NodeKindStep →
    gn_MergeInputs n ≠ [] ∨ (1 < length (filter (λ e, ge_To e = gn_ID n) (gr_Edges g)))%nat →
    ∀ s, s ∈ gn_MergeInputs n ↔ (s, gn_ID n) ∈ map edgePair (gr_Edges g);
  sg_reachable : ∀ id, id ∈ map gn_ID (gr_Nodes g) → rtc (edgeRel (map edgePair (gr_Edges g))) (gr_Start g) id;
  sg_ends : ∀ id, id ∈ map gn_ID (gr_Nodes g) → rtc (edgeRel (map edgePair (gr_Edges g))) id (gr_End g);
  sg_acyclic : acyclic (map edgePair (gr_Edges g));
}.

(** ** The scans *)
Lemma collectNode_Ok m n m' : collectNode m n = Ok m' ↔
  gn_ID n ≠ "" ∧ m !! gn_ID n = None ∧ m' = <[gn_ID n := n]> m.
Proof.
  unfold collectNode, missing. repeat case_bool_decide; cbn [negb]; naive_solver.
Qed.

Lemma collectNodes_Ok ns : ∀ m m', foldErr collectNode m ns = Ok m' ↔
  (∀ n, n ∈ ns → gn_ID n ≠ "") ∧ NoDup (map gn_ID ns) ∧ (∀ n, n ∈ ns → m !! gn_ID n = None) ∧
  m' = foldl (λ m n, <[gn_ID n := n]> m) m ns.
Proof.
  induction ns as [|n ns IH]; intros m m'; cbn [foldErr foldl map].
  { split; [intros [= <-]; split_and!; [set_solver|constructor|set_solver|done]|by intros (_ & _ & _ & ->)]. }
  rewrite bind_Ok, NoDup_cons. setoid_rewrite collectNode_Ok. setoid_rewrite IH. setoid_rewrite elem_of_cons. split.
  - intros (? & (H0 & Hm & ->) & H1 & H2 & H3 & H4). split_and!; [naive_solver| |done| |done].
    + intros (x & E & Hx)%list_elem_of_fmap. specialize (H3 x Hx). rewrite <- E, lookup_insert_eq in H3. done.
    + intros x [->|Hx]; [done|]. specialize (H3 x Hx). apply lookup_insert_None in H3. by destruct H3.
  - intros (H1 & [H2 H3] & H4 & ->). eexists. split_and!; [naive_solver|naive_solver|reflexivity|naive_solver|done| |done].
    intros x Hx. apply lookup_insert_None. split; [naive_solver|]. intros E. apply H2. rewrite E. by apply (list_elem_of_fmap_2 gn_ID).
Qed.

Lemma linkEdge_Ok nodes st e st' : linkEdge nodes st e = Ok st' ↔
  is_Some (nodes !! ge_From e) ∧ is_Some (nodes !! ge_To e) ∧ linkKey e ∉ lk_edges st ∧
  st' = {| lk_inbound := addAdjacency (lk_inbound st) (reverseEdge e);
           lk_outbound := addAdjacency (lk_outbound st) e; lk_edges := {[linkKey e]} ∪ lk_edges st |}.
Proof.
  unfold linkEdge. rewrite <- !missing_false. destruct (missing nodes (ge_From e)), (missing nodes (ge_To e)); cbn [orb];
    try naive_solver. case_bool_decide; naive_solver.
Qed.

Lemma linkEdges_Ok nodes es : ∀ st st', foldErr (linkEdge nodes) st es = Ok st' ↔
  (∀ e, e ∈ es → is_Some (nodes !! ge_From e) ∧ is_Some (nodes !! ge_To e)) ∧ NoDup (map linkKey es) ∧
  (∀ e, e ∈ es → linkKey e ∉ lk_edges st) ∧
  st' = {| lk_inbound := foldl addAdjacency (lk_inbound st) (map reverseEdge es);
           lk_outbound := foldl addAdjacency (lk_outbound st) es;
           lk_edges := list_to_set (rev (map linkKey es)) ∪ lk_edges st |}.
Proof.
  induction es as [|e es IH]; intros st st'; cbn [foldErr foldl map rev].
  { destruct st as [i o k]; cbn [lk_inbound lk_outbound lk_edges]. rewrite list_to_set_nil, (left_id_L ∅ (∪)). split.
    - intros [= <-]. split_and!; [by intros ? ?%elem_of_nil|constructor|by intros ? ?%elem_of_nil|done].
    - by intros (_ & _ & _ & ->). }
  rewrite bind_Ok, NoDup_cons. setoid_rewrite linkEdge_Ok. setoid_rewrite IH. setoid_rewrite elem_of_cons. split.
  - intros (? & (Hf & Ht & Hk & ->) & H1 & H2 & H3 & ->). cbn [lk_inbound lk_outbound lk_edges] in *.
    split_and!; [naive_solver| |done| |f_equal; rewrite list_to_set_app_L; set_solver].
    + intros (x & E & Hx)%list_elem_of_fmap. apply (H3 x Hx). rewrite <- E. set_solver.
    + intros x [->|Hx]; [done|]. specialize (H3 x Hx). set_solver.
  - intros (H1 & [H2 H3] & H4 & ->). eexists. split_and!; [naive_solver|naive_solver|naive_solver|reflexivity| |done| |].
    + naive_solver.
    + cbn [lk_edges]. intros x Hx [E%elem_of_singleton|Hin]%elem_of_union; [|by eapply H4; [right|]].
      apply H2. rewrite <- E. by apply (list_elem_of_fmap_2 linkKey).
    + cbn [lk_inbound lk_outbound lk_edges]. f_equal. rewrite list_to_set_app_L. set_solver.
Qed.

Lemma checkKind_Ok n : checkKind n = Ok tt ↔
  gn_Kind n ∈ [NodeKindStart; NodeKindStep; NodeKindMap; NodeKindDecision; NodeKindSelect; NodeKindEnd] ∧
  (gn_Kind n = NodeKindStep ∨ gn_Kind n = NodeKindMap → gn_SymbolRef n ≠ "" ∧ gn_ContractRef n ≠ "").
Proof.
  unfold checkKind, isKind. case_bool_decide as E1; cbn [negb]; [|naive_solver].
  destruct (_ && _) eqn:E2.
  - apply andb_prop in E2 as [E2%orb_prop E3%orb_prop]. rewrite !bool_decide_eq_true in *. naive_solver.
  - split; [intros _|done]. split; [done|]. intros Hk.
    assert (bool_decide (gn_Kind n = NodeKindStep) || bool_decide (gn_Kind n = NodeKindMap) = true) as Hk'.
    { apply orb_true_iff. by rewrite !bool_decide_eq_true. }
    rewrite Hk' in E2. cbn [andb] in E2. apply orb_false_iff in E2. rewrite !bool_decide_eq_false in E2. naive_solver.
Qed.

Lemma reverse_edges es : map edgePair (map reverseEdge es) = map (λ e, (e.2, e.1)) (map edgePair es).
Proof. rewrite !map_map. done. Qed.

Lemma elem_of_edgeAdjacency es c n : n ∈ at_ (edgeAdjacency es) c ↔ (c, n) ∈ map edgePair es.
Proof.
  rewrite (edgeAdjacency_spec es c), list_elem_of_fmap. setoid_rewrite list_elem_of_filter. split.
  - intros ([u v] & -> & [<- ?]). done.
  - intros Hin. by exists (c, n).
Qed.

Lemma at_inbound es c :
  length (at_ (edgeAdjacency (map reverseEdge es)) c) = length (filter (λ e, ge_To e = c) es) ∧
  ∀ n, n ∈ at_ (edgeAdjacency (map reverseEdge es)) c ↔ (n, c) ∈ map edgePair es.
Proof.
  split.
  - rewrite at_edgeAdjacency. induction es as [|e es IH]; [done|]. cbn [map]. rewrite !filter_cons. change (ge_From (reverseEdge e)) with (ge_To e).
    case_decide; cbn [length]; by rewrite IH.
  - intros n. rewrite elem_of_edgeAdjacency, reverse_edges, list_elem_of_fmap. split.
    + intros ([u v] & [= -> ->] & ?). done.
    + intros ?. by exists (n, c).
Qed.

Lemma at_inbound_NoDup es c : NoDup (map linkKey es) → NoDup (at_ (edgeAdjacency (map reverseEdge es)) c).
Proof.
  intros Hnd. rewrite (edgeAdjacency_spec _ c), reverse_edges. clear -Hnd.
  assert (NoDup (map edgePair es)) as Hp.
  { induction es as [|e es IH]; [constructor|]. cbn [map] in *. apply NoDup_cons in Hnd as [He Hnd]. apply NoDup_cons. split; [|by apply IH].
    intros (e' & E & Hin)%list_elem_of_fmap. apply He. apply list_elem_of_fmap. exists e'. split; [|done].
    unfold edgePair in E. injection E as E1 E2. unfold linkKey. by rewrite E1, E2. }
  apply (NoDup_fmap_2_strong snd).
  - intros [u v] [u' v'] [Hu _]%list_elem_of_filter [Hu' _]%list_elem_of_filter. cbn in *. congruence.
  - apply NoDup_filter. apply (NoDup_fmap_2_strong (λ e : string * string, (e.2, e.1))); [|done]. intros [] [] _ _ [=]. by subst.
Qed.

Lemma checkMerges_Ok inbound node :
  NoDup (at_ inbound (gn_ID node)) →
  checkMerges inbound node = Ok tt ↔
  (gn_Kind node = NodeKindStep → gn_MergeInputs node ≠ [] ∨ (1 < length (at_ inbound (gn_ID node)))%nat →
    ∀ s, s ∈ gn_MergeInputs node ↔ s ∈ at_ inbound (gn_ID node)).
Proof.
  set (sources := at_ inbound (gn_ID node)). intros Hnd. unfold checkMerges, isKind. fold sources.
  case_bool_decide as Ek; cbn [negb orb]; [|naive_solver].
  destruct ((length sources <=? 1)%nat && bool_decide (gn_MergeInputs node = [])) eqn:Es.
  { apply andb_prop in Es as [El%Nat.leb_le Em%bool_decide_eq_true]. split; [|done]. intros _ _ [?|?]; [done|lia]. }
  assert (gn_MergeInputs node ≠ [] ∨ (1 < length sources)%nat) as Hs.
  { apply andb_false_iff in Es as [El%Nat.leb_gt|Em%bool_decide_eq_false]; auto. }
  set (declared := list_to_set (gn_MergeInputs node) : gset string).
  assert (∀ s, s ∈ gn_MergeInputs node ↔ s ∈ declared) as Hd by (intros s; unfold declared; by rewrite elem_of_list_to_set).
  setoid_rewrite Hd.
  destruct (negb (size declared =? length sources)%nat || existsb _ sources) eqn:Ee.
  - split; [done|]. intros H. specialize (H Ek Hs). exfalso. apply orb_prop in Ee as [Ee|Ee].
    + apply negb_true_iff, Nat.eqb_neq in Ee. apply Ee. replace declared with (list_to_set sources : gset string) by set_solver.
      by apply size_list_to_set.
    + apply existsb_exists in Ee as (s & Hin%list_elem_of_In & E%bool_decide_eq_true). apply E. by apply H.
  - split; [|done]. intros _ _ _. apply orb_false_iff in Ee as [E1%negb_false_iff%Nat.eqb_eq E2].
    assert (∀ s, s ∈ sources → s ∈ declared) as Hsub.
    { intros s Hin. destruct (decide (s ∈ declared)) as [|Hn]; [done|]. exfalso.
      assert (existsb (λ source, bool_decide (source ∉ declared)) sources = true) as He.
      { apply existsb_exists. exists s. split; [by apply list_elem_of_In|]. by apply bool_decide_eq_true. }
      congruence. }
    assert ((list_to_set sources : gset string) = declared) as <-; [|intros s; by rewrite elem_of_list_to_set].
    apply set_subseteq_size_eq; [set_solver|].
    rewrite size_list_to_set by done. lia.
Qed.

Lemma marked_spec adjacency es from pairs :
  (∀ c, at_ adjacency c ≡ₚ map snd (filter (λ e : string * string, e.1 = c) pairs)) → length pairs = length es →
  ∀ n, n ∈ marked adjacency es from ↔ rtc (edgeRel pairs) from n.
Proof.
  intros Hadj Hl. unfold marked.
  destruct (reachLoop_spec adjacency pairs Hadj from (S (length es)) ∅ {[from]} [from]) as (r & -> & Hr).
  - apply searchInv_init.
  - rewrite pendingOut_empty. cbn [length]. lia.
  - done.
Qed.

Section Checks.
Context (g : Graph) (Hids : NoDup (map gn_ID (gr_Nodes g))).
Context (Hclosed : ∀ e, e ∈ gr_Edges g → ge_From e ∈ map gn_ID (gr_Nodes g) ∧ ge_To e ∈ map gn_ID (gr_Nodes g)).
Context (rangeOrder : gmap string Z → list (string * Z)) (Hrange : ∀ m, rangeOrder m ≡ₚ map_to_list m).
Let ids := map gn_ID (gr_Nodes g).
Let nodes := indexBy gn_ID (gr_Nodes g).
Let es := gr_Edges g.
Let pairs := map edgePair es.

Lemma nodes_size : size nodes = length ids.
Proof.
  rewrite <- (size_dom (D := gset string) nodes), <- (size_list_to_set (C := gset string) ids) by done. f_equal.
  apply set_eq. intros x. rewrite elem_of_dom, elem_of_list_to_set. apply indexBy_is_Some.
Qed.

Lemma pairs_closed u v : (u, v) ∈ pairs → u ∈ ids ∧ v ∈ ids.
Proof. intros (e & [= -> ->] & He)%list_elem_of_fmap. by apply Hclosed. Qed.

Lemma rtc_in_ids u v : u ∈ ids → rtc (edgeRel pairs) u v → v ∈ ids.
Proof. intros Hu. induction 1 as [|x y z Hxy _ IH]; [done|]. apply IH. by apply (pairs_closed x). Qed.

(** A search marks as many nodes as there are exactly when it marks every node. *)
Lemma marked_all (seen : gset string) (P : string → Prop) :
  (∀ n, n ∈ seen ↔ P n) → (∀ n, P n → n ∈ ids) → size seen = size nodes ↔ ∀ id, id ∈ ids → P id.
Proof.
  intros Hs HP. rewrite nodes_size, <- (size_list_to_set (C := gset string) ids) by done. split.
  - intros Hsize id Hid. apply Hs. enough (seen = list_to_set ids) as -> by (by apply elem_of_list_to_set).
    apply set_subseteq_size_eq; [|lia]. intros n Hn%Hs. apply elem_of_list_to_set. by apply HP.
  - intros H. f_equal. apply set_eq. intros n. rewrite Hs, elem_of_list_to_set. split; auto.
Qed.

Lemma visitNode_ok : stepOk ts_ready ts_order ts_indegree (λ _, True) (visitNode (edgeAdjacency es)) (at_ (edgeAdjacency es)).
Proof.
  intros st c rest E. unfold visitNode.
  destruct (relax_spec enqueueLast (at_ (edgeAdjacency es) c) (ts_indegree st) rest) as (new & Hget & Hr & Hnd & Hnew); [done|].
  destruct (foldl (relaxWith enqueueLast) _ _) as [deg ready]; simpl in *. by exists new.
Qed.

Lemma remainingOf_lookup id : remainingOf nodes (edgeAdjacency (map reverseEdge es)) !! id =
  if decide (id ∈ ids) then Some (Z.of_nat (countOf id (map ge_To es))) else None.
Proof.
  unfold remainingOf. rewrite map_lookup_imap. case_decide as Hid.
  - apply indexBy_is_Some in Hid as [n Hn]. fold nodes in Hn. rewrite Hn. cbn [mbind option_bind]. f_equal. f_equal.
    rewrite (proj1 (at_inbound es id)). unfold countOf. clear. induction es as [|e es' IH]; [done|].
    cbn [map]. rewrite !filter_cons. repeat case_decide; cbn [length]; rewrite ?IH; congruence.
  - destruct (nodes !! id) eqn:E; [|done]. exfalso. apply Hid. unfold ids. apply indexBy_is_Some. by eexists.
Qed.

Lemma visitedNodes_acyclic l : lk_outbound l = edgeAdjacency es → lk_inbound l = edgeAdjacency (map reverseEdge es) →
  visitedNodes rangeOrder nodes l = size nodes ↔ acyclic pairs.
Proof.
  intros Ho Hi. unfold visitedNodes. rewrite Ho, Hi. set (remaining := remainingOf _ _).
  set (st0 := {| ts_ready := _; ts_indegree := _; ts_order := _ |}).
  assert (queueInv ts_ready ts_order ts_indegree (λ _, True) ids pairs st0) as Hinit.
  { apply (queueInv_init _ _ _ _ _ _ _ remaining); [done|done| |done| |].
    - unfold zeroDegree. cbn [ts_ready st0]. by rewrite (Hrange remaining).
    - intros n. unfold getZ, remaining. rewrite remainingOf_lookup. unfold pairs. rewrite pendingIn_nil.
      case_decide as Hn; [done|]. cbn [default from_option]. symmetry. 
      destruct (decide (0 < countOf n (map ge_To es))%nat) as [Hc%countOf_pos|]; [|unfold id; lia].
      apply list_elem_of_fmap in Hc as (e & -> & He). by apply Hclosed in He as [_ ?].
    - intros n. unfold remaining. rewrite remainingOf_lookup. case_decide; [split; eauto|]. split; [by intros []|done]. }
  destruct (drainReady_total ts_ready ts_order ts_indegree (λ _, True) _ ids pairs _ pairs_closed (edgeAdjacency_spec es)
    visitNode_ok (size nodes) st0 Hinit) as (st & -> & Hinv & Hr); [rewrite nodes_size; lia|].
  rewrite nodes_size. apply emitted_complete_iff; [done|exact pairs_closed|by apply Hinv|].
  destruct (frontier ids pairs (ts_order st)) as [|x k] eqn:E; [done|]. exfalso.
  assert (x ∈ ts_ready st) as Hx by (rewrite (qi_ready _ _ _ _ _ _ _ Hinv), E; left). rewrite Hr in Hx. by inversion Hx.
Qed.
End Checks.

Lemma rtc_reverse (pairs : list (string * string)) u v :
  rtc (edgeRel (map (λ e, (e.2, e.1)) pairs)) u v ↔ rtc (edgeRel pairs) v u.
Proof.
  assert (∀ pairs u v, rtc (edgeRel pairs) v u → rtc (edgeRel (map (λ e, (e.2, e.1)) pairs)) u v) as Hrev.
  { clear. intros pairs u v. induction 1 as [|x y z Hxy _ IH]; [constructor|]. eapply rtc_r; [exact IH|].
    unfold edgeRel in *. apply list_elem_of_fmap. by exists (x, y). }
  split; [|apply Hrev]. intros H%Hrev. rewrite map_map in H. by rewrite map_ext with (g := id), map_id in H by (by intros []).
Qed.

Lemma notOfKind_index nodes id kind : NoDup (map gn_ID nodes) →
  notOfKind (indexBy gn_ID nodes) id kind = false ↔ ∃ n, n ∈ nodes ∧ gn_ID n = id ∧ gn_Kind n = kind.
Proof.
  intros Hnd. unfold notOfKind, isKind. split.
  - destruct (indexBy gn_ID nodes !! id) as [n|] eqn:E; [|done]. intros H%negb_false_iff%bool_decide_eq_true.
    apply indexBy_key in E as [? ?]. eauto.
  - intros (n & Hn & <- & Hk). rewrite (indexBy_NoDup gn_ID nodes n Hnd Hn). by apply negb_false_iff, bool_decide_eq_true.
Qed.

Lemma checkLinks_Ok rangeOrder (g : Graph) l :
  NoDup (map gn_ID (gr_Nodes g)) → NoDup (map linkKey (gr_Edges g)) →
  (∀ e, e ∈ gr_Edges g → ge_From e ∈ map gn_ID (gr_Nodes g) ∧ ge_To e ∈ map gn_ID (gr_Nodes g)) →
  (∀ m, rangeOrder m ≡ₚ map_to_list m) → gr_Start g ∈ map gn_ID (gr_Nodes g) → gr_End g ∈ map gn_ID (gr_Nodes g) →
  lk_outbound l = edgeAdjacency (gr_Edges g) → lk_inbound l = edgeAdjacency (map reverseEdge (gr_Edges g)) →
  checkLinks rangeOrder g (indexBy gn_ID (gr_Nodes g)) l = Ok tt ↔
  length (filter (λ e, ge_To e = gr_Start g) (gr_Edges g)) = 0%nat ∧
  length (filter (λ e, ge_From e = gr_Start g) (gr_Edges g)) = 1%nat ∧
  length (filter (λ e, ge_From e = gr_End g) (gr_Edges g)) = 0%nat ∧
  length (filter (λ e, ge_To e = gr_End g) (gr_Edges g)) = 1%nat ∧
  (∀ n, n ∈ gr_Nodes g → gn_Kind n = NodeKindStep →
    gn_MergeInputs n ≠ [] ∨ (1 < length (filter (λ e, ge_To e = gn_ID n) (gr_Edges g)))%nat →
    ∀ s, s ∈ gn_MergeInputs n ↔ (s, gn_ID n) ∈ map edgePair (gr_Edges g)) ∧
  (∀ id, id ∈ map gn_ID (gr_Nodes g) → rtc (edgeRel (map edgePair (gr_Edges g))) (gr_Start g) id) ∧
  (∀ id, id ∈ map gn_ID (gr_Nodes g) → rtc (edgeRel (map edgePair (gr_Edges g))) id (gr_End g)) ∧
  acyclic (map edgePair (gr_Edges g)).
Proof.
  intros Hids Hkeys Hclosed Hrange Hs He Ho Hi. set (es := gr_Edges g) in *.
  pose proof (marked_spec (edgeAdjacency es) es (gr_Start g) _ (edgeAdjacency_spec es) (length_map _ _)) as Hfwd.
  pose proof (marked_spec (edgeAdjacency (map reverseEdge es)) es (gr_End g) _ (edgeAdjacency_spec _)) as Hbwd.
  rewrite reverse_edges in Hbwd. setoid_rewrite rtc_reverse in Hbwd.
  assert (length (map (λ e : string * string, (e.2, e.1)) (map edgePair es)) = length es) as Hl by (by rewrite !length_map).
  specialize (Hbwd Hl).
  assert (∀ n, rtc (edgeRel (map edgePair es)) (gr_Start g) n → n ∈ map gn_ID (gr_Nodes g)) as Hin1
    by (intros n; by apply (rtc_in_ids g Hclosed)).
  assert (∀ n, rtc (edgeRel (map edgePair es)) n (gr_End g) → n ∈ map gn_ID (gr_Nodes g)) as Hin2.
  { intros n Hn. inversion Hn as [|? y ? Hny]; subst; [done|]. by apply (pairs_closed g Hclosed n y). }
  pose proof (marked_all g Hids _ _ Hfwd Hin1) as Hall1. pose proof (marked_all g Hids _ _ Hbwd Hin2) as Hall2.
  pose proof (visitedNodes_acyclic g Hids Hclosed rangeOrder Hrange l Ho Hi) as Hac. fold es in Hac.
  assert (foldErr (λ _, checkMerges (edgeAdjacency (map reverseEdge es))) tt (gr_Nodes g) = Ok tt ↔
    (∀ n, n ∈ gr_Nodes g → gn_Kind n = NodeKindStep →
      gn_MergeInputs n ≠ [] ∨ (1 < length (filter (λ e, ge_To e = gn_ID n) es))%nat →
      ∀ s, s ∈ gn_MergeInputs n ↔ (s, gn_ID n) ∈ map edgePair es)) as Hm.
  { rewrite foldErr_unit. apply forall_proper. intros n. apply forall_proper. intros _.
    rewrite checkMerges_Ok by (by apply at_inbound_NoDup). rewrite (proj1 (at_inbound es _)).
    by setoid_rewrite (proj2 (at_inbound es _)). }
  unfold checkLinks. rewrite Ho, Hi. fold es.
  rewrite !(proj1 (at_inbound es _)), !at_edgeAdjacency.
  rewrite !guard_Ok, bind_unit_Ok, !guard_Ok, !orb_false_iff, !negb_false_iff, !Nat.eqb_eq, bool_decide_eq_false,
    Hm, Hall1, Hall2, Hac, Hfwd.
  split; [tauto|]. intros (? & ? & ? & ? & ? & Hr & ? & ?). split_and!; try done. intros Hn. apply Hn. by apply Hr.
Qed.

Lemma validateStaticGraph_Ok `{SR : SchemaRules} rangeOrder N marshal unmarshalNode deadlineSchema timeoutSchema
    exitHookSchema graphSchema outcomeSchema p :
  (∀ m, rangeOrder m ≡ₚ map_to_list m) →
  validateStaticGraph rangeOrder N marshal unmarshalNode deadlineSchema timeoutSchema exitHookSchema graphSchema
    outcomeSchema p = Ok tt ↔
  staticGraph (authoredGraph (wp_Graph p)) ∧
  ValidatePlanControlFlow N marshal unmarshalNode deadlineSchema timeoutSchema exitHookSchema graphSchema outcomeSchema p = Ok tt.
Proof.
  intros Hrange. unfold validateStaticGraph. set (g := authoredGraph (wp_Graph p)). cbn zeta.
  generalize (ValidatePlanControlFlow N marshal unmarshalNode deadlineSchema timeoutSchema exitHookSchema graphSchema
    outcomeSchema p) as controlFlow. intros controlFlow.
  rewrite guard_Ok, orb_false_iff, !bool_decide_eq_false, bind_Ok. setoid_rewrite collectNodes_Ok. setoid_rewrite guard_Ok.
  setoid_rewrite bind_unit_Ok. setoid_rewrite foldErr_unit. setoid_rewrite checkKind_Ok. setoid_rewrite bind_Ok.
  setoid_rewrite linkEdges_Ok. setoid_rewrite bind_unit_Ok. setoid_rewrite wrapErr_Ok. setoid_rewrite orb_false_iff. cbn [lk_inbound lk_outbound lk_edges].
  split.
  - intros ([Hns Hne] & nodes & (Hnamed & Hids & _ & Hnodes) & [Hs He] & Hkinds & l & (Hclosed & Hkeys & _ & Hl) & Hlinks & Hcf).
    split; [|done]. fold (indexBy gn_ID (gr_Nodes g)) in Hnodes. subst nodes.
    rewrite notOfKind_index in Hs, He by done. setoid_rewrite indexBy_is_Some in Hclosed.
    rewrite checkLinks_Ok in Hlinks; try done; [|destruct Hs as (n & ? & <- & _); by apply (list_elem_of_fmap_2 gn_ID)
      |destruct He as (n & ? & <- & _); by apply (list_elem_of_fmap_2 gn_ID)|by rewrite Hl|by rewrite Hl].
    destruct Hlinks as (? & ? & ? & ? & ? & ? & ? & ?). split; try done; by apply length_zero_iff_nil.
  - intros [V Hcf]. destruct V as [V1 V2 V3 V4 V5 V6 V7 V8 V9 V10 V11 V12 V13 V14 V15].
    assert (∀ n, n ∈ gr_Nodes g → gn_ID n ∈ map gn_ID (gr_Nodes g)) as Hin by (intros n; apply (list_elem_of_fmap_2 gn_ID)).
    split; [split; [destruct V3 as (n & ? & <- & _)|destruct V4 as (n & ? & <- & _)]; by apply V1|].
    eexists. split_and!; [done|done|by intros; apply lookup_empty|reflexivity| | |done|].
    1,2: by apply notOfKind_index.
    eexists. split_and!; [|done|set_solver|reflexivity| |done].
    + intros e Hedge. fold (indexBy gn_ID (gr_Nodes g)). rewrite !indexBy_is_Some. by apply V6.
    + apply checkLinks_Ok; try done; [destruct V3 as (n & ? & <- & _); by apply Hin|destruct V4 as (n & ? & <- & _); by apply Hin|].
      rewrite V8, V10. done.
Qed.

(** C7: the checks accept exactly the static graphs whose control flow is valid, in
    whatever order Go ranges over the remaining nodes. *)
Theorem validateStaticGraph_valid `{SR : SchemaRules} rangeOrder N marshal unmarshalNode deadlineSchema timeoutSchema
    exitHookSchema graphSchema outcomeSchema p :
  (∀ m, rangeOrder m ≡ₚ map_to_list m) →
  validateStaticGraph rangeOrder N marshal unmarshalNode deadlineSchema timeoutSchema exitHookSchema graphSchema
    outcomeSchema p = Ok tt ↔
  staticGraph (authoredGraph (wp_Graph p)) ∧
  ValidatePlanControlFlow N marshal unmarshalNode deadlineSchema timeoutSchema exitHookSchema graphSchema outcomeSchema p = Ok tt.
Proof. apply validateStaticGraph_Ok. Qed.
