(* ===== verification/ArgoNames.v ===== *)
(** * Names of the Argo target

    [argoFieldName] of [target/argo/argo.go] projects the node ids of a plan onto the names
    Kubernetes takes: a valid id is kept, any other becomes a slug with part of its digest. *)

From S2P Require Import Prelude Utf16 Text Json Canonical CanonicalText CanonicalForm.
From Stdlib Require Import Ascii SpecFloat.
#[local] Open Scope Z_scope.

Definition lowerAlnum (b : Z) : bool := inRange 97 122 b || inRange 48 57 b.
Definition dash : Z := 45.

(** [argoFieldNamePattern]: lower-case letters, digits and dashes, no dash at either end. *)
Definition isFieldName (s : string) : bool :=
  match bytesOf s with
  | [] => false
  | b :: l => lowerAlnum b && forallb (λ b, lowerAlnum b || (b =? dash)) l && lowerAlnum (List.last l b)
  end.

(** [unicode.ToLower], as far as it can give an ASCII rune: every other rune lowers to one
    that is no ASCII, which the slug treats alike. *)
Definition lowerRune (r : Z) : Z :=
  if inRange 65 90 r then r + 32 else if r =? 0x212A then 107 else if r =? 0x130 then 105 else r.

(** The loop over the lower-cased runes: [started] is [slug.Len() > 0]. *)
Fixpoint slugBytes (started separator : bool) (rs : list Z) : list Z :=
  match rs with
  | [] => []
  | character :: rs' =>
      if lowerAlnum character then character :: slugBytes true false rs'
      else if started && negb separator then dash :: slugBytes started true rs'
      else slugBytes started separator rs'
  end.

(** [strings.TrimLeft], [TrimRight] and [Trim] of dashes. *)
Fixpoint trimLeft (l : list Z) : list Z :=
  match l with [] => [] | b :: l' => if b =? dash then trimLeft l' else l end.
Definition trimRight (l : list Z) : list Z := reverse (trimLeft (reverse l)).
Definition trimDashes (l : list Z) : list Z := trimRight (trimLeft l).

(** [strings.TrimPrefix] *)
Definition trimPrefix (prefix s : string) : string :=
  match stripPrefix (bytesOf prefix) (bytesOf s) with Some rest => ofBytes rest | None => s end.

Section Names.
Context (sha256Hex : string → string).

Definition argoFieldName (source : string) : string :=
  if (String.length source <=? 63)%nat && isFieldName source then source
  else
    let digest := take 12 (bytesOf (trimPrefix "sha256:" (DigestBytes sha256Hex source))) in
    let slug := trimDashes (slugBytes false false (map lowerRune (runes source))) in
    let prefix := match slug with [] => bytesOf "node" | _ => slug end in
    let maximumPrefix := (63 - length digest - 1)%nat in
    let prefix := if (maximumPrefix <? length prefix)%nat then trimRight (take maximumPrefix prefix) else prefix in
    ofBytes (prefix ++ dash :: digest).
End Names.

(** ** Every name is one Kubernetes takes *)
Definition nameByte (b : Z) : bool := lowerAlnum b || (b =? dash).

(** A prefix of a name: it starts with a letter or a digit. *)
Definition namePrefix (l : list Z) : Prop := ∃ b l', l = b :: l' ∧ lowerAlnum b = true ∧ Forall (λ b, nameByte b = true) l'.

Lemma lowerAlnum_range b : lowerAlnum b = true → byteRange b.
Proof. unfold lowerAlnum, inRange, byteRange. lia. Qed.
Lemma nameByte_range b : nameByte b = true → byteRange b.
Proof. unfold nameByte, lowerAlnum, inRange, byteRange, dash. lia. Qed.
Lemma isHexLower_alnum b : isHexLower b = true → lowerAlnum b = true.
Proof. unfold isHexLower, isDigit, lowerAlnum, inRange. lia. Qed.

Lemma slugBytes_bytes rs : ∀ started separator, Forall (λ b, nameByte b = true) (slugBytes started separator rs).
Proof.
  induction rs as [|r rs IH]; intros started separator; cbn [slugBytes]; [constructor|].
  destruct (lowerAlnum r) eqn:E; [constructor; [by unfold nameByte; rewrite E|done]|].
  destruct (started && negb separator); [constructor; done|done].
Qed.
Lemma slugBytes_prefix rs : ∀ separator, slugBytes false separator rs = [] ∨ namePrefix (slugBytes false separator rs).
Proof.
  induction rs as [|r rs IH]; intros separator; cbn [slugBytes]; [by left|]. destruct (lowerAlnum r) eqn:E; [|apply IH].
  right. eexists _, _. split_and!; [done|done|apply slugBytes_bytes].
Qed.

Lemma trimLeft_suffix l : ∃ k, l = replicate k dash ++ trimLeft l.
Proof.
  induction l as [|b l [k IH]]; [by exists 0%nat|]. cbn [trimLeft]. destruct (b =? dash) eqn:E; [|by exists 0%nat].
  apply Z.eqb_eq in E as ->. exists (S k). cbn [replicate app]. by rewrite <- IH.
Qed.
Lemma trimRight_prefix l : ∃ k, l = trimRight l ++ replicate k dash.
Proof.
  destruct (trimLeft_suffix (reverse l)) as [k E]. exists k. unfold trimRight.
  apply (f_equal reverse) in E. by rewrite reverse_involutive, reverse_app, reverse_replicate in E.
Qed.

Lemma namePrefix_trimLeft l : namePrefix l → trimLeft l = l.
Proof.
  intros (b & l' & -> & Hb & _). cbn [trimLeft]. destruct (b =? dash) eqn:E; [|done]. apply Z.eqb_eq in E as ->. done.
Qed.
Lemma namePrefix_trimRight l : namePrefix l → namePrefix (trimRight l).
Proof.
  intros (b & l' & -> & Hb & Hl). destruct (trimRight_prefix (b :: l')) as [k Hk].
  destruct (trimRight (b :: l')) as [|c r].
  - exfalso. destruct k as [|k]; cbn in Hk; [done|]. injection Hk as -> _. by vm_compute in Hb.
  - injection Hk as <- Hk. exists b, r; split_and!; [done|done|]. rewrite Hk in Hl. by apply Forall_app in Hl as [? _].
Qed.
Lemma trimRight_length l : (length (trimRight l) ≤ length l)%nat.
Proof. destruct (trimRight_prefix l) as [k Hk]. rewrite Hk at 2. rewrite length_app. lia. Qed.
Lemma namePrefix_take n l : (0 < n)%nat → namePrefix l → namePrefix (take n l).
Proof.
  intros Hn (b & l' & -> & Hb & Hl). destruct n as [|n]; [lia|]. eexists _, _. split_and!; [done|done|by apply Forall_take].
Qed.

(** What the slug of a source becomes, at most [maximum] bytes of it. *)
Definition slugPrefix (maximum : nat) (source : string) : list Z :=
  let slug := trimDashes (slugBytes false false (map lowerRune (runes source))) in
  let prefix := match slug with [] => bytesOf "node" | _ => slug end in
  if (maximum <? length prefix)%nat then trimRight (take maximum prefix) else prefix.

Lemma slugPrefix_spec maximum source : (0 < maximum)%nat →
  namePrefix (slugPrefix maximum source) ∧ (length (slugPrefix maximum source) ≤ maximum)%nat.
Proof.
  intros Hm. unfold slugPrefix. set (slug := trimDashes _).
  assert (namePrefix (match slug with [] => bytesOf "node" | _ => slug end)) as Hp.
  { assert (slug = [] ∨ namePrefix slug) as Hslug.
    { unfold slug, trimDashes. destruct (slugBytes_prefix (map lowerRune (runes source)) false) as [->|Hs]; [by left|right].
      rewrite namePrefix_trimLeft by done. by apply namePrefix_trimRight. }
    destruct Hslug as [->|Hs]; [eexists _, _; split_and!; [done|done|by repeat constructor]|]. destruct slug; [|done].
    by destruct Hs as (? & ? & ? & _). }
  revert Hp. generalize (match slug with [] => bytesOf "node" | _ => slug end). intros p Hp.
  destruct (maximum <? length p)%nat eqn:E; [|split; [done|apply Nat.ltb_ge in E; lia]]. split.
  - apply namePrefix_trimRight. by apply namePrefix_take.
  - pose proof (trimRight_length (take maximum p)). rewrite length_take in H. lia.
Qed.

Lemma isFieldName_join p digest : namePrefix p → digest ≠ [] → Forall (λ b, lowerAlnum b = true) digest →
  isFieldName (ofBytes (p ++ dash :: digest)) = true ∧
  String.length (ofBytes (p ++ dash :: digest)) = (length p + 1 + length digest)%nat.
Proof.
  intros (b & l & -> & Hb & Hl) Hne Hd.
  assert (bytesOf (ofBytes ((b :: l) ++ dash :: digest)) = (b :: l) ++ dash :: digest) as Hbytes.
  { apply bytesOf_ofBytes. apply Forall_app. split.
    - constructor; [by apply lowerAlnum_range|]. eapply Forall_impl; [exact Hl|]. apply nameByte_range.
    - constructor; [unfold byteRange, dash; lia|]. eapply Forall_impl; [exact Hd|]. apply lowerAlnum_range. }
  split.
  - unfold isFieldName. rewrite Hbytes. cbn [app]. rewrite Hb. cbn [andb]. apply andb_true_iff. split.
    + apply forallb_forall. intros x Hx%list_elem_of_In. fold (nameByte x).
      apply elem_of_app in Hx as [Hx|[->|Hx]%elem_of_cons]; [by apply (proj1 (Forall_forall _ _) Hl)|done|].
      unfold nameByte. by rewrite (proj1 (Forall_forall _ _) Hd x Hx).
    + destruct (exists_last Hne) as (d & x & ->). rewrite (app_comm_cons d), app_assoc, List.last_last.
      apply (proj1 (Forall_forall _ _) Hd). apply elem_of_app. right. left.
  - rewrite <- length_bytesOf, Hbytes, length_app. cbn [length]. lia.
Qed.

(** C13: whatever the id, its Argo name is a Kubernetes label of at most 63 bytes; an id that
    is one already keeps its name. *)
Theorem argoFieldName_valid sha256Hex source :
  (∀ s, IsSHA256Ref (DigestBytes sha256Hex s) = true) →
  isFieldName (argoFieldName sha256Hex source) = true ∧
  (String.length (argoFieldName sha256Hex source) ≤ 63)%nat ∧
  (isFieldName source = true → (String.length source ≤ 63)%nat → argoFieldName sha256Hex source = source).
Proof.
  intros Hhex. specialize (Hhex source). unfold argoFieldName.
  destruct ((String.length source <=? 63)%nat && isFieldName source) eqn:E.
  { apply andb_prop in E as [El%Nat.leb_le E]. done. }
  unfold IsSHA256Ref in Hhex. unfold trimPrefix.
  destruct (stripPrefix (bytesOf "sha256:") (bytesOf (DigestBytes sha256Hex source))) as [rest|]; [|done].
  apply andb_prop in Hhex as [Hl%Z.eqb_eq Hrest]. rewrite forallb_forall in Hrest.
  assert (Forall (λ b, lowerAlnum b = true) rest) as Hr.
  { apply Forall_forall. intros b Hb%list_elem_of_In. apply isHexLower_alnum. by apply Hrest. }
  rewrite bytesOf_ofBytes by (eapply Forall_impl; [exact Hr|]; apply lowerAlnum_range). cbn zeta.
  assert (length (take 12 rest) = 12%nat) as Hlen by (rewrite length_take; lia). rewrite Hlen.
  fold (slugPrefix (63 - 12 - 1) source). destruct (slugPrefix_spec (63 - 12 - 1) source) as [Hp Hle]; [lia|].
  destruct (isFieldName_join (slugPrefix (63 - 12 - 1) source) (take 12 rest) Hp) as [H1 H2].
  - by destruct (take 12 rest).
  - by apply Forall_take.
  - split_and!; [done|lia|]. intros Hf Hs. exfalso. apply andb_false_iff in E as [E%Nat.leb_gt|E]; [lia|congruence].
Qed.

Lemma argoFieldName_valid_witness :
  isFieldName (argoFieldName checksumHash "Träin_Model!") = true ∧ argoFieldName checksumHash "train-2" = "train-2".
Proof.
  split; [apply (argoFieldName_valid checksumHash _ checksumHash_ref)|].
  apply (argoFieldName_valid checksumHash "train-2" checksumHash_ref); [reflexivity|cbn; lia].
Defined.
