(* ===== verification/Deployment.v ===== *)
(** * Deployment specs

    [deployment/spec.go]: the artifact that binds a plan to one deployment profile.  Checking
    it against its JSON schema, with the strict decoding into records that follows, is a
    parameter ([decodeSpec]), and so is the parsing of Kubernetes quantities.  Kubernetes
    objects stay JSON trees, which the target emits verbatim. *)

From S2P Require Import Prelude Utf16 Text SpecTypes Json Canonical Encode Validate.
From Stdlib Require Import SpecFloat.
#[local] Open Scope Z_scope.

Record SecretKeyRef := { sk_Name : string; sk_Key : string }.

(** An absent map and an empty one behave alike; a list that is absent is [None]. *)
Record PodPlacement := {
  pp_NodeSelector : gmap string string;
  pp_Affinity : option json;
  pp_Tolerations : option (list json);
  pp_RuntimeClassName : string;
  pp_PriorityClassName : string;
  pp_Labels : gmap string string;
  pp_Annotations : gmap string string;
  pp_PodSpecPatch : option json;
}.
Record Placement := {
  pl_Defaults : option PodPlacement;
  pl_Nodes : gmap string PodPlacement;
}.
Record Target := {
  tg_Kind : string;
  tg_Namespace : string;
  tg_ServiceAccountName : string;
  tg_WorkflowTemplateName : string;
  tg_RuntimeTransport : string;
  tg_ArtifactCredentialsSecret : string;
  tg_SecretBindings : gmap string SecretKeyRef;
  tg_Placement : option Placement;
}.
Record Profile := {
  pf_Name : string;
  pf_ArtifactStoreBinding : string;
  pf_Target : Target;
}.
Record Spec := {
  dp_Kind : string;
  dp_SchemaVersion : Z;
  dp_Encoding : string;
  dp_Hashing : HashingSpec;
  dp_DeploymentHash : string;
  dp_PlanHash : string;
  dp_MaterializationHash : string;
  dp_Profile : Profile;
}.

(** ** What [encoding/json] writes *)

(** A [map[string]string], with its keys in any order: the canonical form sorts them. *)
Definition mapTree {A} (tree : A → json) (m : gmap string A) : json :=
  JObj (map (λ kv, (kv.1, tree kv.2)) (map_to_list m)).
Definition omitMap {A} (name : string) (tree : A → json) (m : gmap string A) : list (string * json) :=
  if bool_decide (m = ∅) then [] else [(name, mapTree tree m)].

Definition podPlacementTree (p : PodPlacement) : json :=
  JObj (omitMap "nodeSelector" JStr (pp_NodeSelector p) ++ omitNil "affinity" id (pp_Affinity p) ++
        omitNil "tolerations" JArr (match pp_Tolerations p with Some [] => None | t => t end) ++
        omitEmpty "runtimeClassName" (pp_RuntimeClassName p) ++ omitEmpty "priorityClassName" (pp_PriorityClassName p) ++
        omitMap "labels" JStr (pp_Labels p) ++ omitMap "annotations" JStr (pp_Annotations p) ++
        omitNil "podSpecPatch" id (pp_PodSpecPatch p)).
Definition placementTree (p : Placement) : json :=
  JObj (omitNil "defaults" podPlacementTree (pl_Defaults p) ++ omitMap "nodes" podPlacementTree (pl_Nodes p)).
Definition targetTree (t : Target) : json :=
  JObj ([("kind", JStr (tg_Kind t))] ++ omitEmpty "namespace" (tg_Namespace t) ++
        omitEmpty "serviceAccountName" (tg_ServiceAccountName t) ++
        omitEmpty "workflowTemplateName" (tg_WorkflowTemplateName t) ++
        omitEmpty "runtimeTransport" (tg_RuntimeTransport t) ++
        omitEmpty "artifactCredentialsSecret" (tg_ArtifactCredentialsSecret t) ++
        omitMap "secretBindings" (λ s, JObj [("name", JStr (sk_Name s)); ("key", JStr (sk_Key s))]) (tg_SecretBindings t) ++
        omitNil "placement" placementTree (tg_Placement t)).
Definition deploymentTree (d : Spec) : json :=
  JObj [("kind", JStr (dp_Kind d)); ("schemaVersion", JNum (itoa (dp_SchemaVersion d)));
        ("encoding", JStr (dp_Encoding d));
        ("hashing", JObj [("algorithm", JStr (hs_Algorithm (dp_Hashing d)));
                          ("canonicalization", JStr (hs_Canonicalization (dp_Hashing d)));
                          ("recipe", JStr (hs_Recipe (dp_Hashing d)));
                          ("recipeVersion", JNum (itoa (hs_RecipeVersion (dp_Hashing d))))]);
        ("deploymentHash", JStr (dp_DeploymentHash d)); ("planHash", JStr (dp_PlanHash d));
        ("materializationHash", JStr (dp_MaterializationHash d));
        ("profile", JObj [("name", JStr (pf_Name (dp_Profile d)));
                          ("artifactStoreBinding", JStr (pf_ArtifactStoreBinding (dp_Profile d)));
                          ("target", targetTree (pf_Target (dp_Profile d)))])].

Definition setDeploymentHash (hash : string) (d : Spec) : Spec :=
  {| dp_Kind := dp_Kind d; dp_SchemaVersion := dp_SchemaVersion d; dp_Encoding := dp_Encoding d;
     dp_Hashing := dp_Hashing d; dp_DeploymentHash := hash; dp_PlanHash := dp_PlanHash d;
     dp_MaterializationHash := dp_MaterializationHash d; dp_Profile := dp_Profile d |}.

(** ** Quantities of a pod patch *)

(** [resource.ParseQuantity] with [Sign] and [AsScale(0)]: the amount of a nonnegative whole
    quantity. *)
Definition quantityError (path field name message : string) : error :=
  DiagnosticsError [(path +:+ "/podSpecPatch/containers/0/resources/" +:+ field, name, message)].

(** A [map[string]map[string]string], as [encoding/json] decodes it. *)
Definition decodeStringMap {A} (decode : json → option A) (t : json) : option (list (string * A)) :=
  match t with
  | JNull => Some []
  | JObj ms => mapM (λ kv : string * json, (kv.1,.) <$> decode kv.2) ms
  | _ => None
  end.
Definition decodeString (t : json) : option string := match t with JStr s => Some s | JNull => Some "" | _ => None end.

(** [containers[].resources] of a patch; [None] when it does not decode. *)
Definition containerResources (t : json) : option (list (string * list (string * string))) :=
  match t with
  | JNull => Some []
  | JObj ms =>
      match List.last (map Some (List.filter (λ kv, isField "resources" kv.1) ms)) None with
      | Some (_, resources) => decodeStringMap (decodeStringMap decodeString) resources
      | None => Some []
      end
  | _ => None
  end.
Definition patchContainers (patch : json) : option (list (list (string * list (string * string)))) :=
  match patch with
  | JNull => Some []
  | JObj ms =>
      match List.last (map Some (List.filter (λ kv, isField "containers" kv.1) ms)) None with
      | Some (_, JArr containers) => mapM containerResources containers
      | Some (_, JNull) | None => Some []
      | Some _ => None
      end
  | _ => None
  end.

Section Deployment.
Context (NumberToJSON : spec_float → result string) (sha256Hex : string → string).
(** The amount of a quantity, when it is a nonnegative whole number. *)
Context (ParseQuantity : string → option Z).
(** [validateSchema] and the strict decoder. *)
Context (decodeSpec : string → result Spec).

(** One field of a container's resources, [requests] or [limits]. *)
Definition parseQuantities (path field : string) (values : list (string * string)) : result (gmap string Z) :=
  foldErr (λ parsed '(name, value),
    match ParseQuantity value with
    | Some amount => Ok (<[name := amount]> parsed)
    | None => Err (quantityError path field name "extended resource quantity must be a valid nonnegative whole number")
    end) ∅ values.

(** Go ranges over a map in any order, which decides which of several errors is reported: here
    the first in the order of the tree. *)
Definition checkContainer (path : string) (resources : list (string * list (string * string))) : result unit :=
  parsed ← foldErr (λ parsed '(field, values),
    quantities ← parseQuantities path field values; Ok (<[field := quantities]> parsed))
    (∅ : gmap string (gmap string Z)) resources;
  foldErr (λ _ '(name, request),
    if bool_decide (default ∅ (parsed !! "limits") !! name = Some request) then Ok tt
    else Err (quantityError path "requests" name "extended resource request must equal its limit"))
    tt (map_to_list (default ∅ (parsed !! "requests"))).

Definition checkPatch (x : string * PodPlacement) : result unit :=
  let '(path, setting) := x in
  match pp_PodSpecPatch setting with
  | None => Ok tt
  | Some patch =>
      match patchContainers patch with
      | Some containers => foldErr (λ _, checkContainer path) tt containers
      | None => Err (ErrNew "json: cannot unmarshal pod spec patch")
      end
  end.

Definition validatePlacementResources (placement : option Placement) : result unit :=
  match placement with
  | None => Ok tt
  | Some p =>
      foldErr (λ _, checkPatch) tt
        (match pl_Defaults p with Some d => [("defaults", d)] | None => [] end ++
         map (λ kv, ("nodes/" +:+ kv.1, kv.2)) (map_to_list (pl_Nodes p)))
  end.

Definition RecomputedHash (data : string) : result string :=
  wrapErr "compute deployment hash: %w" [] (DigestJSONWithRootMemberExcluded NumberToJSON sha256Hex data "deploymentHash").

Definition Parse (data : string) : result Spec :=
  parsed ← decodeSpec data;
  hash ← RecomputedHash data;
  if negb (bool_decide (dp_DeploymentHash parsed = hash)) then
    Err (DiagnosticsError [("$.deploymentHash", dp_DeploymentHash parsed,
      "does not match canonical deployment content; expected " +:+ hash)])
  else
    _ ← validatePlacementResources (tg_Placement (pf_Target (dp_Profile parsed)));
    Ok parsed.

(** The value [New] marshals, before it has a hash. *)
Definition unhashed (planHash : string) (profile : Profile) (materializationHash : string) : Spec :=
  {| dp_Kind := "DeploymentSpec"; dp_SchemaVersion := 1; dp_Encoding := "json-v0";
     dp_Hashing := {| hs_Algorithm := "sha256"; hs_Canonicalization := "canonical-json-v0";
                      hs_Recipe := "deployment-spec"; hs_RecipeVersion := 1 |};
     dp_DeploymentHash := ""; dp_PlanHash := planHash; dp_MaterializationHash := materializationHash;
     dp_Profile := profile |}.

Definition New (planHash : string) (profile : Profile) (materializationHash : string) : result (Spec * string) :=
  let value := unhashed planHash profile materializationHash in
  withoutHash ← wrapErr "encode canonical deployment spec: %w" [] (Marshal NumberToJSON (deploymentTree value));
  hash ← RecomputedHash withoutHash;
  canonicalJSON ← wrapErr "encode canonical deployment spec: %w" []
    (Marshal NumberToJSON (deploymentTree (setDeploymentHash hash value)));
  parsed ← Parse canonicalJSON;
  Ok (parsed, canonicalJSON).

(** [ParsePlacement], after the schema and the strict decoder of the command line's input. *)
Definition ParsePlacement (decodePlacement : string → result Placement) (data : string) : result Placement :=
  placement ← decodePlacement data;
  _ ← validatePlacementResources (Some placement);
  Ok placement.
End Deployment.
