(* ===== verification/ArgoPods.v ===== *)
(** * The pods of the Argo target

    [target/argo/argo.go] and [decisions.go]: the placement of a pod, the template of a runtime
    pod with its secrets, resources and patch, the parameters of a task, the expressions of
    decisions and selects, and the retry strategy.  A Kubernetes object, a [map[string]any] in
    Go, is a JSON tree, whose members the canonical form sorts later. *)

From S2P Require Import Prelude Utf16 Text SpecTypes PlanTypes Kahn Reach Json Canonical CanonicalText Encode Validate Verify Deployment ArgoGraph ArgoNames SchemaMatch.
From Stdlib Require Import Ascii SpecFloat.
#[local] Open Scope Z_scope.

(** ** Pieces of trees *)
Definition named (name : string) (ms : list (string * json)) : json := JObj (("name", JStr name) :: ms).
Definition strings (l : list string) : json := JArr (map JStr l).
(** [template[k] = v] *)
Definition setTree (k : string) (v : json) (t : json) : json :=
  match t with JObj ms => JObj (setMember k v ms) | _ => t end.

(** [sort.Strings]: bytewise. *)
Definition stringLe (a b : string) : Prop := Is_true (String.leb a b).
#[export] Instance stringLe_dec a b : Decision (stringLe a b).
Proof. unfold stringLe. apply _. Defined.
Definition sortStrings (l : list string) : list string := merge_sort stringLe l.

Definition datastoreConfigPath : string := "/var/run/massive-datastore/datastore.json".

(** ** Pods *)

(** [maps.Clone] of the base with the override copied over it. *)
Definition merged (base override : gmap string string) : gmap string string := override ∪ base.

Definition emptyPlacement : PodPlacement :=
  {| pp_NodeSelector := ∅; pp_Affinity := None; pp_Tolerations := None; pp_RuntimeClassName := "";
     pp_PriorityClassName := ""; pp_Labels := ∅; pp_Annotations := ∅; pp_PodSpecPatch := None |}.

Definition orString (override base : string) : string := if bool_decide (override = "") then base else override.
Definition orNil {A} (override base : option A) : option A := match override with Some x => Some x | None => base end.

Definition podPlacement (placement : option Placement) (authorNodeID : string) : PodPlacement :=
  match placement with
  | None => emptyPlacement
  | Some p =>
      let resolved := default emptyPlacement (pl_Defaults p) in
      match pl_Nodes p !! authorNodeID with
      | None => resolved
      | Some override =>
          {| pp_NodeSelector := merged (pp_NodeSelector resolved) (pp_NodeSelector override);
             pp_Affinity := orNil (pp_Affinity override) (pp_Affinity resolved);
             pp_Tolerations := orNil (pp_Tolerations override) (pp_Tolerations resolved);
             pp_RuntimeClassName := orString (pp_RuntimeClassName override) (pp_RuntimeClassName resolved);
             pp_PriorityClassName := orString (pp_PriorityClassName override) (pp_PriorityClassName resolved);
             pp_Labels := merged (pp_Labels resolved) (pp_Labels override);
             pp_Annotations := merged (pp_Annotations resolved) (pp_Annotations override);
             pp_PodSpecPatch := orNil (pp_PodSpecPatch override) (pp_PodSpecPatch resolved) |}
      end
  end.

(** [environmentNamePattern] *)
Definition isEnvironmentName (s : string) : bool :=
  match bytesOf s with
  | [] => false
  | b :: l =>
      let letter b := inRange 65 90 b || inRange 97 122 b || (b =? 95) in
      letter b && forallb (λ b, letter b || inRange 48 57 b) l
  end.
Definition reservedVariables : list string :=
  ["PATH"; "HOME"; "PYTHONPATH"; "PYTHONHOME"; "TMPDIR"; "TMP"; "TEMP"; "LD_PRELOAD"; "LD_LIBRARY_PATH"; "LD_AUDIT"; "NODE_OPTIONS"].
Definition credentialVariables : list string := ["AWS_ACCESS_KEY_ID"; "AWS_SECRET_ACCESS_KEY"; "AWS_SESSION_TOKEN"].

Definition secretVariable (name secret key : string) (optional : list (string * json)) : json :=
  named name [("valueFrom", JObj [("secretKeyRef", JObj ([("name", JStr secret); ("key", JStr key)] ++ optional))])].

(** The credentials of the artifact store, when the target names a secret. *)
Definition credentials (storage : option Target) : list json :=
  match storage with
  | Some t =>
      if bool_decide (tg_ArtifactCredentialsSecret t = "") then []
      else map (λ key, secretVariable key (tg_ArtifactCredentialsSecret t) key
                  [("optional", JBool (bool_decide (key = "AWS_SESSION_TOKEN")))]) credentialVariables
  | None => []
  end.

(** The variables and the names seen so far. *)
Definition addSecret (nodeID : string) (bindings : gmap string SecretKeyRef) (st : list json * gset string)
    (secret : PlanSecret) : result (list json * gset string) :=
  let '(variables, seenNames) := st in
  let name := GetString (px_Name secret) in
  if negb (isEnvironmentName name) then
    Err (Errorf "argo target: node %q secret name %q must be a portable environment variable" [AStr nodeID; AStr name])
  else if bool_decide (name ∈ reservedVariables) || HasPrefix name "AWS_" || HasPrefix name "MASSIVE_" then
    Err (Errorf "argo target: node %q secret name %q is reserved by the runtime" [AStr nodeID; AStr name])
  else if bool_decide (name ∈ seenNames) then
    Err (Errorf "argo target: node %q repeats secret environment variable %q" [AStr nodeID; AStr name])
  else
    match bindings !! GetString (px_Ref secret) with
    | None => Err (Errorf "argo target: node %q secret %q has missing deployment binding %q; supply --secret-bindings"
                     [AStr nodeID; AStr name; AStr (GetString (px_Ref secret))])
    | Some binding =>
        Ok (variables ++ [secretVariable name (sk_Name binding) (sk_Key binding) []], {[name]} ∪ seenNames)
    end.

Definition GetContainer (env : option EnvironmentRequirement) : option ContainerRequirement :=
  match env ≫= er_Runtime with Some (RuntimeContainer c) => Some c | _ => None end.
Definition emptyContainer : ContainerRequirement :=
  {| ct_Image := None; ct_Platform := None; ct_Command := []; ct_WorkingDirectory := None |}.

Definition quantities (resources : PlanResources) : list (string * json) :=
  omitEmpty "cpu" (GetString (pr_Cpu resources)) ++ omitEmpty "memory" (GetString (pr_Memory resources)).
Definition resourceMembers (contract : PlanContract) : list (string * json) :=
  match pc_Resources contract with
  | Some resources =>
      match quantities resources with
      | [] => []
      | q => [("resources", JObj [("requests", JObj q); ("limits", JObj q)])]
      end
  | None => []
  end.

Definition volumeMounts (storage : option Target) : json :=
  JArr ([named "massive-runtime" [("mountPath", JStr "/var/run/massive"); ("readOnly", JBool true)]] ++
        match storage with
        | Some _ => [named "massive-datastore" [("mountPath", JStr "/var/run/massive-datastore"); ("readOnly", JBool true)]]
        | None => []
        end).

Definition checkEgress (nodeID : string) (contract : PlanContract) (storage : option Target) : result unit :=
  match pc_Network contract, storage with
  | Some network, Some _ =>
      let egress := GetString (pw_Egress network) in
      if bool_decide (egress = "none") then
        Err (Errorf "argo target: executable node %q declares egress none, which cannot access the shared datastore; choose an egress policy that permits storage" [AStr nodeID])
      else if bool_decide (egress ∈ [""; "any"]) then Ok tt
      else Err (Errorf "argo target: executable node %q has unsupported egress policy %q" [AStr nodeID; AStr egress])
  | _, _ => Ok tt
  end.

(** [map[string]json.RawMessage] of the patch; a null gives a nil map, which cannot be written. *)
Definition patchMembers (placement : PodPlacement) : result (list (string * json)) :=
  patch ← match pp_PodSpecPatch placement with
    | None => Ok (Some [])
    | Some (JObj ms) => Ok (Some (goMap ms))
    | Some JNull => Ok None
    | Some _ => Err (Errorf "argo target: decode pod spec patch: %w" [AWrap (ErrNew "json: cannot unmarshal into map")])
    end;
  if bool_decide (pp_RuntimeClassName placement = "") then Ok (default [] patch)
  else
    match patch with
    | Some ms => Ok (setMember "runtimeClassName" (JStr (pp_RuntimeClassName placement)) ms)
    | None => Err (PanicError "assignment to entry in nil map")
    end.

Section Pods.
Context (NumberToJSON : spec_float → result string).

Definition runtimePodTemplate (name nodeID : string) (env : option EnvironmentRequirement) (contract : PlanContract)
    (storage : option Target) (placement : PodPlacement) (inputNames args : list string) : result json :=
  let runtime := default emptyContainer (GetContainer env) in
  if bool_decide (GetString (ct_Image runtime) = "") then
    Err (Errorf "argo target: executable node %q requires an immutable container requirement" [AStr nodeID])
  else
    let command := match ct_Command runtime with [] => ["massive"] | c => c end in
    let bindings := match storage with Some t => tg_SecretBindings t | None => ∅ end in
    '(variables, _) ← foldErr (addSecret nodeID bindings) (credentials storage, (∅ : gset string)) (pc_Secrets contract);
    let container := JObj (
      [("image", JStr (GetString (ct_Image runtime))); ("command", strings command); ("args", strings args);
       ("volumeMounts", volumeMounts storage)] ++
      match variables with [] => [] | _ => [("env", JArr variables)] end ++
      omitEmpty "workingDir" (GetString (ct_WorkingDirectory runtime)) ++ resourceMembers contract) in
    let template := [("name", JStr name);
      ("inputs", JObj [("parameters", JArr (map (λ input, named input []) inputNames))]);
      ("outputs", JObj [("parameters", JArr [named "result" [("valueFrom", JObj [("path", JStr "/tmp/massive/result.json")])]])]);
      ("container", container)] in
    _ ← checkEgress nodeID contract storage;
    match splitOn "/" (GetString (ct_Platform runtime)) with
    | [os; arch] =>
        let nodeSelector := pp_NodeSelector placement ∪ {["kubernetes.io/os" := os; "kubernetes.io/arch" := arch]} in
        let metadata := omitMap "labels" JStr (pp_Labels placement) ++ omitMap "annotations" JStr (pp_Annotations placement) in
        patch ← patchMembers placement;
        podSpecPatch ← match patch with
          | [] => Ok []
          | _ => encoded ← Marshal NumberToJSON (JObj patch); Ok [("podSpecPatch", JStr encoded)]
          end;
        Ok (JObj (template ++ [("nodeSelector", mapTree JStr nodeSelector)] ++
          omitNil "affinity" id (pp_Affinity placement) ++ omitNil "tolerations" JArr (pp_Tolerations placement) ++
          omitEmpty "priorityClassName" (pp_PriorityClassName placement) ++
          match metadata with [] => [] | _ => [("metadata", JObj metadata)] end ++ podSpecPatch))
    | _ => Err (Errorf "argo target: executable node %q has invalid container platform %q"
                  [AStr nodeID; AStr (GetString (ct_Platform runtime))])
    end.
End Pods.

(** ** Parameters of a task *)
Record taskParameter := { pm_Name : string; pm_Value : string; pm_Flag : string }.

Definition resultOf (taskName : string) : string := "{{tasks." +:+ taskName +:+ ".outputs.parameters.result}}".
Definition workflowInput : string := "{{workflow.parameters.input}}".

(** [taskNames[id]]: empty for a node that is no task. *)
Definition nameAt (taskNames : gmap string string) (id : string) : string := default "" (taskNames !! id).

Definition argoInputParameters (step : GraphNode) (inbound : list string) (startNode : string)
    (taskNames : gmap string string) : result (list taskParameter) :=
  match gn_MergeInputs step with
  | _ :: _ =>
      Ok (map (λ '(index, source), {| pm_Name := "input-" +:+ itoaNat index; pm_Value := resultOf (nameAt taskNames source);
                                      pm_Flag := "--merge-input" |}) (indexed (gn_MergeInputs step)))
  | [] =>
      match inbound with
      | [source] =>
          if bool_decide (source = startNode) then
            Ok [{| pm_Name := "input"; pm_Value := workflowInput; pm_Flag := "--workflow-input" |}]
          else Ok [{| pm_Name := "input"; pm_Value := resultOf (nameAt taskNames source); pm_Flag := "--input" |}]
      | _ => Err (Errorf "argo target: step %q requires exactly one input source" [AStr (gn_ID step)])
      end
  end.
Definition argumentParameters (parameters : list taskParameter) : list json :=
  map (λ p, named (pm_Name p) [("value", JStr (pm_Value p))]) parameters.
Definition parameterNames (parameters : list taskParameter) : list string := map pm_Name parameters.
Definition stepInputArgs (parameters : list taskParameter) : list string :=
  map (λ p, pm_Flag p +:+ "={{inputs.parameters." +:+ pm_Name p +:+ "}}") parameters.

(** ** Decisions *)

(** [strconv.Quote] of names the target generates and of indexes; [goQuote] is its model. *)
Definition argoCaseExpression (decision : GraphNode) (tag : string) (names : gmap string string) : result string :=
  match List.find (λ x, bool_decide (dc_Tag x.2 = tag)) (indexed (gn_Cases decision)) with
  | Some (index, _) =>
      Ok ("tasks[" +:+ goQuote (nameAt names (gn_ID decision)) +:+ "].outputs.parameters.selection == " +:+ goQuote (itoaNat index))
  | None => Err (Errorf "argo target: decision %q has no case %q" [AStr (gn_ID decision); AStr tag])
  end.

Definition findNode (id : string) (nodes : list GraphNode) : option GraphNode :=
  List.find (λ n, bool_decide (gn_ID n = id)) nodes.

(** The loop runs from the last input to the first. *)
Definition selectArm (decision : GraphNode) (names : gmap string string) (expression : string) (input : SelectInput)
    : result string :=
  condition ← argoCaseExpression decision (si_Case input) names;
  Ok (condition +:+ " ? tasks[" +:+ goQuote (nameAt names (si_Source input)) +:+ "].outputs.parameters.result : ("
      +:+ expression +:+ ")").

Definition argoSelectExpression (node : GraphNode) (nodes : list GraphNode) (names : gmap string string) : result string :=
  match findNode (gn_DecisionRef node) nodes, gn_SelectInputs node with
  | Some decision, _ :: _ =>
      expression ← foldErr (selectArm decision names) "nil" (rev (gn_SelectInputs node));
      Ok ("{{=" +:+ expression +:+ "}}")
  | _, _ => Err (Errorf "argo target: select %q requires a decision and exhaustive inputs" [AStr (gn_ID node)])
  end.

(** The recursion follows inbound edges: one unit of fuel per node on an acyclic graph. *)
Fixpoint controlEnvironmentSource (fuel : nat) (nodes : list GraphNode) (inbound : gmap string (list string)) (id : string)
    : option GraphNode :=
  match fuel with
  | O => None
  | S fuel' =>
      match List.find (λ n, bool_decide (gn_ID n = id) && (isKind NodeKindStep n || isKind NodeKindMap n)) nodes with
      | Some node => Some node
      | None =>
          (fix first (sources : list string) : option GraphNode :=
            match sources with
            | [] => None
            | source :: rest =>
                match controlEnvironmentSource fuel' nodes inbound source with Some node => Some node | None => first rest end
            end) (at_ inbound id)
      end
  end.

(** ** Retries *)
Definition runnerNonRetryableExitCodes : list string := ["64"; "65"; "67"; "68"; "69"; "70"].

Definition maxAttempts (contract : PlanContract) : Z :=
  match pc_Retry contract with Some r => GetUint32 (pt_MaxAttempts r) | None => 0 end.
Definition retryArgs (contract : PlanContract) : list string :=
  if maxAttempts contract <=? 1 then [] else ["--retry-count={{retries}}"].

Definition retryBackoff (retry : PlanRetry) : list (string * json) :=
  if 0 <? GetUint32 (pt_DelaySeconds retry) then
    [("backoff", JObj [("duration", JStr (itoa (GetUint32 (pt_DelaySeconds retry)) +:+ "s"));
                       ("factor", JStr (itoa (GetUint32 (pt_BackoffFactor retry))));
                       ("cap", JStr (itoa (GetUint32 (pt_MaxDelaySeconds retry)) +:+ "s"))])]
  else [].
Definition retryStrategy (retry : PlanRetry) : json :=
  JObj ([("limit", JStr (itoa (GetUint32 (pt_MaxAttempts retry) - 1))); ("retryPolicy", JStr "Always");
         ("expression", JStr ("!(lastRetry.exitCode in [" +:+
            joinStrings ", " (map (λ code, "'" +:+ code +:+ "'") runnerNonRetryableExitCodes) +:+ "])"))] ++
        retryBackoff retry).
Definition applyRetryStrategy (template : json) (contract : PlanContract) : json :=
  match pc_Retry contract with
  | Some retry => if maxAttempts contract <=? 1 then template else setTree "retryStrategy" (retryStrategy retry) template
  | None => template
  end.
