(* ===== verification/ArgoTemplate.v ===== *)
(** * The workflow template of the Argo target

    [workflowTemplate] and [argoMapTemplates] of [target/argo/argo.go]: how a verified plan
    becomes a [WorkflowTemplate].  The tasks of the main DAG are records until the tree is
    built. *)

From S2P Require Import Prelude Utf16 Text SpecTypes PlanTypes Kahn Reach Json Canonical CanonicalText Encode Validate Verify Deployment ArgoGraph ArgoNames SchemaMatch ArgoPods.
From Stdlib Require Import Ascii SpecFloat.
#[local] Open Scope Z_scope.

Definition entryTaskName : string := "workflow-entry".
Definition exitHandlerName : string := "exit-handler".

(** ** Tasks of the main DAG *)
Record Task := {
  tk_name : string;
  tk_template : string;
  tk_parameters : list taskParameter;
  tk_depends : string;
  tk_when : string;
}.
Definition taskTree (t : Task) : json :=
  named (tk_name t) ([("template", JStr (tk_template t)); ("arguments", JObj [("parameters", JArr (argumentParameters (tk_parameters t)))])]
    ++ omitEmpty "depends" (tk_depends t) ++ omitEmpty "when" (tk_when t)).

(** The contract of a pod that runs no author code: its environment only. *)
Definition controlContract (contract : PlanContract) : PlanContract :=
  {| pc_ContractRef := None; pc_EnvironmentRef := pc_EnvironmentRef contract; pc_Resources := None; pc_Secrets := [];
     pc_Network := None; pc_Retry := None; pc_TimeoutSeconds := None |}.

Definition parameterTree (name value : string) : json := named name [("value", JStr value)].
Definition inputParameter : json := named "input" [].
Definition resultParameter (source : list (string * json)) : json := named "result" [("valueFrom", JObj source)].
Definition parameters (l : list json) : json := JObj [("parameters", JArr l)].
Definition dagTask (name template input : string) (more : list (string * json)) : json :=
  named name ([("template", JStr template)] ++ more ++ [("arguments", parameters [parameterTree "input" input])]).
Definition dag (tasks : list json) : json := JObj [("tasks", JArr tasks)].
Definition continueOn : list (string * json) := [("continueOn", JObj [("failed", JBool true); ("error", JBool true)])].

Definition mapItemOutcomeExpression : string :=
  "tasks.attempt.outputs?.parameters?.result ?? toJSON({lost: tasks.attempt.id})".

Definition storeArgs : list string := ["--datastore-config"; datastoreConfigPath].
Definition outputArgs : list string := ["--output"; "/tmp/massive/result.json"].
Definition planArgs : list string := ["--plan"; "/var/run/massive/massive-plan.json"].
Definition runArgs (workflowName : string) : list string := ["--project"; "argo/" +:+ workflowName; "--run-id"; "{{workflow.uid}}"].

Section Lower.
Context (NumberToJSON : spec_float → result string) (sha256Hex : string → string).
#[local] Abbreviation fieldName := (argoFieldName sha256Hex).
#[local] Abbreviation podTemplate := (runtimePodTemplate NumberToJSON).

Definition collects (node : GraphNode) : bool := bool_decide (gn_ItemFailures node = MapItemFailuresCollect).

Definition outcomeTemplate (invokeName itemName : string) : json :=
  named invokeName
    [("inputs", parameters [inputParameter]);
     ("outputs", parameters [resultParameter [("expression", JStr mapItemOutcomeExpression)]]);
     ("dag", dag [dagTask "attempt" itemName "{{inputs.parameters.input}}" continueOn])].

Definition mapTemplate (node : GraphNode) (mapName expandName invokeName collectName : string) : json :=
  named mapName
    [("parallelism", JNum (itoa (gn_MaxConcurrency node))); ("inputs", parameters [inputParameter]);
     ("outputs", parameters [resultParameter [("parameter", JStr "{{tasks.collect.outputs.parameters.result}}")]]);
     ("dag", dag
       [dagTask "expand" expandName "{{inputs.parameters.input}}" [];
        dagTask "invoke" invokeName "{{item}}"
          [("dependencies", strings ["expand"]); ("withParam", JStr "{{tasks.expand.outputs.parameters.result}}")];
        dagTask "collect" collectName "{{tasks.invoke.outputs.parameters.result}}" [("dependencies", strings ["invoke"])]])].

(** [itemContainer["terminationMessagePath"]] and [["terminationMessagePolicy"]] *)
Definition withTerminationLog (template : json) : json :=
  default template (updateChild "container" (λ container,
    Some (setTree "terminationMessagePolicy" (JStr "File")
      (setTree "terminationMessagePath" (JStr "/dev/termination-log") container))) template).

Definition argoMapTemplates (node : GraphNode) (env : option EnvironmentRequirement) (contract : PlanContract)
    (workflowName : string) (storage : option Target) (controlPlacement itemPlacement : PodPlacement)
    (sourceArgs : list string) : result (list json) :=
  let expandName := fieldName ("map-expand-" +:+ gn_ID node) in
  let itemName := fieldName ("map-item-" +:+ gn_ID node) in
  let collectName := fieldName ("map-collect-" +:+ gn_ID node) in
  let mapName := fieldName ("map-" +:+ gn_ID node) in
  let control := controlContract contract in
  expandTemplate ← podTemplate expandName (gn_ID node) env control storage controlPlacement ["input"]
    (["runtime"; "map"; "expand"; "--input={{inputs.parameters.input}}"] ++ outputArgs ++ storeArgs);
  itemTemplate ← podTemplate itemName (gn_ID node) env contract storage itemPlacement ["input"]
    (["runtime"; "map"; "item"] ++ planArgs ++ sourceArgs ++
     ["--node=" +:+ gn_ID node; "--item={{inputs.parameters.input}}"; "--termination-log"; "/dev/termination-log"] ++
     outputArgs ++ runArgs workflowName ++ storeArgs ++ retryArgs contract);
  let itemTemplate := applyRetryStrategy (withTerminationLog itemTemplate) contract in
  if collects node then
    let invokeName := fieldName ("map-outcome-" +:+ gn_ID node) in
    collectTemplate ← podTemplate collectName (gn_ID node) env control storage controlPlacement ["input"]
      (["runtime"; "map"; "collect-outcomes"; "--input={{inputs.parameters.input}}";
        "--max-attempts=" +:+ itoa (Z.max (maxAttempts contract) 1);
        "--workflow={{workflow.name}}"; "--namespace={{workflow.namespace}}"] ++ outputArgs ++ storeArgs);
    Ok [mapTemplate node mapName expandName invokeName collectName; expandTemplate; outcomeTemplate invokeName itemName;
        itemTemplate; setTree "automountServiceAccountToken" (JBool true) collectTemplate]
  else
    collectTemplate ← podTemplate collectName (gn_ID node) env control storage controlPlacement ["input"]
      (["runtime"; "map"; "collect"; "--input={{inputs.parameters.input}}"] ++ outputArgs ++ storeArgs);
    Ok [mapTemplate node mapName expandName itemName collectName; expandTemplate; itemTemplate; collectTemplate].

(** ** Lowering a node *)
Definition isControl (n : GraphNode) : bool := isKind NodeKindDecision n || isKind NodeKindSelect n.
Definition isAuthor (n : GraphNode) : bool := isKind NodeKindStep n || isKind NodeKindMap n.
Definition isExecutable (n : GraphNode) : bool := negb (isKind NodeKindStart n) && negb (isKind NodeKindEnd n).

(** [sort.Slice] by id, bytewise. *)
Definition byID (a b : GraphNode) : Prop := stringLe (gn_ID a) (gn_ID b).
#[local] Instance byID_dec a b : Decision (byID a b).
Proof. unfold byID. apply _. Defined.
Definition executableNodes (g : Graph) : list GraphNode := merge_sort byID (List.filter isExecutable (gr_Nodes g)).

Definition nameTask (st : gmap string string * gset string) (node : GraphNode) : result (gmap string string * gset string) :=
  let '(taskNames, occupiedNames) := st in
  let name := fieldName (gn_ID node) in
  if bool_decide (name ∈ occupiedNames) then
    Err (Errorf "argo target: node %q collides with generated task name %q; rename the node" [AStr (gn_ID node); AStr name])
  else Ok (<[gn_ID node := name]> taskNames, {[name]} ∪ occupiedNames).

(** [dependencies], the executable predecessors of the executable nodes. *)
Definition addDependency (dependencies : gmap string (list string)) (edge : GraphEdge) : gmap string (list string) :=
  if missing dependencies (ge_To edge) || missing dependencies (ge_From edge) then dependencies
  else appendAt (ge_To edge) (ge_From edge) dependencies.
Definition dependenciesOf (nodes : list GraphNode) (edges : list GraphEdge) : gmap string (list string) :=
  foldl addDependency (foldl (λ m n, <[gn_ID n := []]> m) ∅ nodes) edges.

(** The conditions joined in [task["depends"]]. *)
Definition readiness (select : bool) (decisionTask : string) (argoDependencies : list string) : list string :=
  if select then
    map (λ d, "(" +:+ d +:+ ".Succeeded || " +:+ d +:+ ".Skipped || " +:+ d +:+ ".Omitted)") argoDependencies ++
    [decisionTask +:+ ".Succeeded"; "(" +:+ joinStrings " || " (map (λ d, d +:+ ".Succeeded") argoDependencies) +:+ ")"]
  else map (λ d, d +:+ ".Succeeded") argoDependencies.
Definition dependsOn (select : bool) (decisionTask : string) (argoDependencies : list string) : string :=
  match argoDependencies with [] => "" | _ => joinStrings " && " (readiness select decisionTask argoDependencies) end.

(** [task["when"]]: the case of the last conditional edge from a decision. *)
Definition whenOf (node : GraphNode) (edges : list GraphEdge) (nodes : list GraphNode) (taskNames : gmap string string)
    : result string :=
  foldErr (λ when edge,
    if bool_decide (ge_To edge = gn_ID node) && negb (bool_decide (ge_Case edge = "")) then
      foldErr (λ when decision,
        if bool_decide (gn_ID decision = ge_From edge) then
          condition ← argoCaseExpression decision (ge_Case edge) taskNames; Ok ("{{=" +:+ condition +:+ "}}")
        else Ok when) when nodes
    else Ok when) "" edges.

Definition entryTask : Task :=
  {| tk_name := entryTaskName; tk_template := entryTaskName;
     tk_parameters := [{| pm_Name := "input"; pm_Value := workflowInput; pm_Flag := "" |}]; tk_depends := ""; tk_when := "" |}.

(** What the loop over the nodes reads. *)
Record lowering := {
  lw_graph : Graph;
  lw_nodes : list GraphNode;
  lw_taskNames : gmap string string;
  lw_dependencies : gmap string (list string);
  lw_inbound : gmap string (list string);
  lw_contracts : gmap string PlanContract;
  lw_envs : gmap string EnvironmentRequirement;
  lw_target : Target;
  lw_workflowName : string;
  lw_sourceArgs : list string;
}.

(** The contract whose environment a node's pods run in; [None] when it is unknown. *)
Definition contractOf (l : lowering) (node : GraphNode) : option PlanContract :=
  let own := lw_contracts l !! gn_ContractRef node in
  if isControl node then
    let source := controlEnvironmentSource (S (length (gr_Nodes (lw_graph l)))) (lw_nodes l) (lw_inbound l) (gn_ID node) in
    controlContract <$>
      match source ≫= (λ s, lw_contracts l !! gn_ContractRef s) with Some c => Some c | None => own end
  else own.

Definition inputParametersOf (l : lowering) (node : GraphNode) : result (list taskParameter) :=
  if isKind NodeKindSelect node then
    expression ← argoSelectExpression node (lw_nodes l) (lw_taskNames l);
    Ok [{| pm_Name := "input"; pm_Value := expression; pm_Flag := "--input" |}]
  else argoInputParameters node (at_ (lw_inbound l) (gn_ID node)) (gr_Start (lw_graph l)) (lw_taskNames l).

(** A decision or a map that reads the workflow's input reads it through the entry task. *)
Definition readsWorkflowInput (node : GraphNode) (inputParameters : list taskParameter) : bool :=
  (isKind NodeKindDecision node || isKind NodeKindMap node) &&
  match inputParameters with p :: _ => bool_decide (pm_Flag p = "--workflow-input") | [] => false end.

Definition templateName (node : GraphNode) : string :=
  fieldName ((if isKind NodeKindMap node then "map-" else "step-") +:+ gn_ID node).

(** The pod templates of a node, after its task. *)
Definition nodeTemplates (l : lowering) (node : GraphNode) (contract : PlanContract) (inputParameters : list taskParameter)
    : result (list json) :=
  let env := lw_envs l !! GetString (pc_EnvironmentRef contract) in
  let placement := tg_Placement (lw_target l) in
  let controlPlacement := podPlacement placement "" in
  let storage := Some (lw_target l) in
  if isControl node then
    controlTemplate ← podTemplate (templateName node) (gn_ID node) env contract storage controlPlacement ["input"]
      (["runtime"; "control"] ++ planArgs ++ ["--node=" +:+ gn_ID node; "--input={{inputs.parameters.input}}"] ++ outputArgs ++ storeArgs);
    Ok [if isKind NodeKindDecision node then
          default controlTemplate (updateChild "outputs" (updateChild "parameters" (λ outputs,
            match outputs with
            | JArr ps => Some (JArr (ps ++ [named "selection" [("valueFrom", JObj [("path", JStr "/tmp/massive/result.json.case")])]]))
            | _ => None
            end)) controlTemplate)
        else controlTemplate]
  else if isKind NodeKindMap node then
    argoMapTemplates node env contract (lw_workflowName l) storage controlPlacement (podPlacement placement (gn_ID node)) (lw_sourceArgs l)
  else
    stepTemplate ← podTemplate (templateName node) (gn_ID node) env contract storage (podPlacement placement (gn_ID node))
      (parameterNames inputParameters)
      (["runtime"; "step"] ++ planArgs ++ lw_sourceArgs l ++ ["--node=" +:+ gn_ID node] ++ stepInputArgs inputParameters ++
       outputArgs ++ runArgs (lw_workflowName l) ++ storeArgs ++ retryArgs contract);
    Ok [applyRetryStrategy stepTemplate contract].

Definition lowerNode (l : lowering) (st : list Task * list json) (node : GraphNode) : result (list Task * list json) :=
  let '(tasks, templates) := st in
  match contractOf l node with
  | None => Err (Errorf "argo target: executable node %q references unknown contract" [AStr (gn_ID node)])
  | Some contract =>
      let argoDependencies := map (nameAt (lw_taskNames l)) (sortStrings (at_ (lw_dependencies l) (gn_ID node))) in
      inputParameters ← inputParametersOf l node;
      '(inputParameters, argoDependencies, entry, entryTemplates) ←
        if readsWorkflowInput node inputParameters then
          entryTemplate ← podTemplate entryTaskName (gn_ID node) (lw_envs l !! GetString (pc_EnvironmentRef contract))
            (controlContract contract) (Some (lw_target l)) (podPlacement (tg_Placement (lw_target l)) "") ["input"]
            (["runtime"; "entry"; "--input={{inputs.parameters.input}}"] ++ outputArgs ++ storeArgs);
          Ok ([{| pm_Name := "input"; pm_Value := resultOf entryTaskName; pm_Flag := "--input" |}],
              argoDependencies ++ [entryTaskName], [entryTask], [entryTemplate])
        else Ok (inputParameters, argoDependencies, [], []);
      when ← whenOf node (gr_Edges (lw_graph l)) (lw_nodes l) (lw_taskNames l);
      let task :=
        {| tk_name := nameAt (lw_taskNames l) (gn_ID node); tk_template := templateName node;
           tk_parameters := inputParameters;
           tk_depends := dependsOn (isKind NodeKindSelect node) (nameAt (lw_taskNames l) (gn_DecisionRef node)) argoDependencies;
           tk_when := when |} in
      more ← nodeTemplates l node contract inputParameters;
      Ok (tasks ++ entry ++ [task], templates ++ entryTemplates ++ more)
  end.

(** ** The whole template *)
Definition checkOverrides (placement : option Placement) (authorNodes : gmap string bool) : result unit :=
  match placement with
  | None => Ok tt
  | Some p =>
      foldErr (λ _ nodeID,
        if default false (authorNodes !! nodeID) then Ok tt
        else Err (Errorf "argo target: placement override %q does not name a step or map node; overrides apply only to pods that run author code" [AStr nodeID]))
        tt (sortStrings (map fst (map_to_list (pl_Nodes p))))
  end.

Definition authorNodesOf (g : Graph) (hook : option PlanNode) : gmap string bool :=
  let authors := foldl (λ m n, <[gn_ID n := isAuthor n]> m) ∅ (gr_Nodes g) in
  match hook with Some h => <[gn_ID (authoredNode h) := true]> authors | None => authors end.

(** The templates of the exit hook: its handler, and its pod with a deadline of its own. *)
Definition hookTemplates (l : lowering) (hook : GraphNode) : result (list json) :=
  match lw_contracts l !! gn_ContractRef hook with
  | None => Err (Errorf "argo target: exit hook %q references unknown contract" [AStr (gn_ID hook)])
  | Some contract =>
      let hookName := fieldName ("exit-" +:+ gn_ID hook) in
      hookTemplate ← podTemplate hookName (gn_ID hook) (lw_envs l !! GetString (pc_EnvironmentRef contract)) contract
        (Some (lw_target l)) (podPlacement (tg_Placement (lw_target l)) (gn_ID hook)) []
        (["runtime"; "exit-hook"] ++ planArgs ++ lw_sourceArgs l ++
         ["--node=" +:+ gn_ID hook; "--status={{workflow.status}}"; "--failures={{workflow.failures}}";
          "--started-at={{workflow.creationTimestamp}}"] ++ outputArgs ++ runArgs (lw_workflowName l) ++ storeArgs);
      Ok [named exitHandlerName [("dag", dag [named (fieldName (gn_ID hook)) ([("template", JStr hookName)] ++ continueOn)])];
          setTree "activeDeadlineSeconds" (JStr (itoa (GetUint32 (pc_TimeoutSeconds contract)))) hookTemplate]
  end.

Definition mainTemplate (tasks : list Task) (resultExpression : string) : json :=
  named "main"
    [("dag", dag (map taskTree tasks));
     ("outputs", parameters [resultParameter [("parameter", JStr resultExpression)]])].

(** [item.(map[string]any)["name"].(string)] *)
Definition nameOf (template : json) : string := match childOf "name" template with Some (JStr name) => name | _ => "" end.

Definition checkTemplateNames (templates : list json) : result unit :=
  _ ← foldErr (λ occupiedNames template,
    if bool_decide (nameOf template ∈ occupiedNames) then
      Err (Errorf "argo target: generated template name %q collides; rename the contributing nodes" [AStr (nameOf template)])
    else Ok ({[nameOf template]} ∪ occupiedNames)) (∅ : gset string) templates;
  Ok tt.

(** The tasks of the main DAG and every template, [main] first. *)
Definition lowerGraph (p : WorkflowPlan) (target : Target) (workflowName : string) (sourceArgs : list string)
    : result (list Task * list json) :=
  let g := authoredGraph (wp_Graph p) in
  let hook := wp_Graph p ≫= gi_ExitHook in
  let nodes := executableNodes g in
  _ ← checkOverrides (tg_Placement target) (authorNodesOf g hook);
  '(taskNames, _) ← foldErr nameTask (∅, {[entryTaskName]}) nodes;
  let l :=
    {| lw_graph := g; lw_nodes := nodes; lw_taskNames := taskNames; lw_dependencies := dependenciesOf nodes (gr_Edges g);
       lw_inbound := edgeAdjacency (map reverseEdge (gr_Edges g));
       lw_contracts := mapBy (λ c, GetString (pc_ContractRef c)) id (wp_Contracts p);
       lw_envs := mapBy (λ e, GetString (er_EnvRef e)) id (wp_Environments p);
       lw_target := target; lw_workflowName := workflowName; lw_sourceArgs := sourceArgs |} in
  '(tasks, templates) ← foldErr (lowerNode l) ([], []) nodes;
  match at_ (lw_inbound l) (gr_End g) with
  | [source] =>
      let resultExpression := if bool_decide (source = gr_Start g) then workflowInput else resultOf (nameAt taskNames source) in
      hooks ← match hook with Some h => hookTemplates l (authoredNode h) | None => Ok [] end;
      let templates := mainTemplate tasks resultExpression :: templates ++ hooks in
      _ ← checkTemplateNames templates;
      Ok (tasks, templates)
  | _ => Err (ErrNew "argo target: end node requires one result source")
  end.

Definition volume (name configMap : string) (items : list (string * json)) : json :=
  named name [("configMap", JObj (("name", JStr configMap) :: items))].

Definition workflowTemplate (p : WorkflowPlan) (d : Spec) (sourceArgs : list string) : result (json * string) :=
  let target := pf_Target (dp_Profile d) in
  let name := orString (tg_WorkflowTemplateName target) (default "" (wp_Graph p ≫= gi_WorkflowName)) in
  if bool_decide (name = "") then Err (ErrNew "argo target: deployment needs workflowTemplateName or plan workflow name")
  else
    let name := fieldName name in
    let hash := trimPrefix "sha256:" (dp_DeploymentHash d) in
    if (String.length hash <? 16)%nat then Err (PanicError "slice bounds out of range")
    else
      let runtimeName := "massive-runtime-" +:+ String.substring 0 16 hash in
      '(_, templates) ← lowerGraph p target name sourceArgs;
      let deadline := GetUint32 (wp_Graph p ≫= gi_DeadlineSeconds) in
      let spec := JObj (
        [("entrypoint", JStr "main"); ("serviceAccountName", JStr (tg_ServiceAccountName target));
         ("automountServiceAccountToken", JBool false);
         ("executor", JObj [("serviceAccountName", JStr (tg_ServiceAccountName target))]);
         ("arguments", parameters [parameterTree "input" "null"]);
         ("volumes", JArr [volume "massive-runtime" runtimeName [];
           volume "massive-datastore" (pf_ArtifactStoreBinding (dp_Profile d))
             [("items", JArr [JObj [("key", JStr "datastore.json"); ("path", JStr "datastore.json")]])]]);
         ("templates", JArr templates)] ++
        (if 0 <? deadline then [("activeDeadlineSeconds", JNum (itoa deadline))] else []) ++
        match wp_Graph p ≫= gi_ExitHook with Some _ => [("onExit", JStr exitHandlerName)] | None => [] end) in
      Ok (JObj [("apiVersion", JStr "argoproj.io/v1alpha1"); ("kind", JStr "WorkflowTemplate");
        ("metadata", JObj [("name", JStr name); ("namespace", JStr (tg_Namespace target));
          ("annotations", JObj [("massive.dev/plan-hash", JStr (GetString (wp_PlanHash p)));
            ("massive.dev/deployment-hash", JStr (dp_DeploymentHash d)); ("massive.dev/execution-status", JStr "executable-dag");
            ("massive.dev/runtime-transport", JStr (tg_RuntimeTransport target))])]);
        ("spec", spec)], runtimeName).
End Lower.
