(* ===== verification/ArgoStatus.v ===== *)
(** * The status of a run on Argo

    [target/argo/exit.go]: what an exit handler makes of a workflow's status and failures;
    [target/argo/item_status.go]: what stands for the outcome of a map item whose pod left
    none; [executionphase/evidence.go]: the record of the phase a pod died in.  Reading the
    scheduler's state over HTTP is not modelled: it is what [missingItemFailure] is given. *)

From S2P Require Import Prelude Utf16 Text SpecTypes PlanTypes Json JsonRaw Encode MapExec ArgoNames ArgoTemplate.
#[local] Open Scope Z_scope.

(** A string field of a struct: the last member of its name that is not null. *)
Definition foldedString (field : string) (ms : list (string * json)) : option string :=
  foldl (λ value kv,
    value ← value;
    if isField field kv.1 then match kv.2 with JStr s => Some s | JNull => Some value | _ => None end else Some value) (Some "") ms.
Definition foldedBool (field : string) (ms : list (string * json)) : option bool :=
  foldl (λ value kv,
    value ← value;
    if isField field kv.1 then match kv.2 with JBool b => Some b | JNull => Some value | _ => None end else Some value) (Some false) ms.

(** ** Exit handlers *)

(** One element of [{{workflow.failures}}] *)
Record failedNode := { fd_TemplateName : string; fd_DisplayName : string; fd_FinishedAt : string }.
Definition decodeFailedNode (v : json) : option failedNode :=
  match v with
  | JNull => Some {| fd_TemplateName := ""; fd_DisplayName := ""; fd_FinishedAt := "" |}
  | JObj ms =>
      templateName ← foldedString "templateName" ms; displayName ← foldedString "displayName" ms;
      finishedAt ← foldedString "finishedAt" ms;
      Some {| fd_TemplateName := templateName; fd_DisplayName := displayName; fd_FinishedAt := finishedAt |}
  | _ => None
  end.
Definition decodeText (data : string) : option string :=
  match unmarshal data with Some (JStr text) => Some text | Some JNull => Some "" | _ => None end.
Definition decodeFailed (text : string) : option (list failedNode) :=
  match unmarshal text with Some (JArr l) => mapM decodeFailedNode l | Some JNull => Some [] | _ => None end.

Section Exit.
Context (sha256Hex : string → string).
#[local] Abbreviation fieldName := (argoFieldName sha256Hex).

(** The names that one node adds, in the cases of the switch over its kind. *)
Definition nodeNames (id kind : string) : list string :=
  if bool_decide (kind ∈ ["step"; "decision"; "select"]) then [fieldName ("step-" +:+ id)]
  else if bool_decide (kind = "map") then
    map (λ prefix, fieldName (prefix +:+ id)) ["map-"; "map-expand-"; "map-item-"; "map-collect-"]
  else [].
Definition templateNodes (p : WorkflowPlan) : gmap string string :=
  foldl (λ nodes node,
    foldl (λ nodes name, <[ name := GetString (pn_Id node) ]> nodes) nodes (nodeNames (GetString (pn_Id node)) (GetString (pn_Kind node))))
    ∅ match wp_Graph p with Some g => gi_Nodes g | None => [] end.

(** The loop over the failures: the node, when it finished, and whether another node finished
    just then. *)
Definition earlier (nodes : gmap string string) (st : option string * string * bool) (failure : failedNode)
    : option string * string * bool :=
  let '(node, first, ambiguous) := st in
  match nodes !! fd_TemplateName failure with
  | None => st
  | Some id =>
      if negb (bool_decide (fd_DisplayName failure = fieldName id)) then st
      else
        match node with
        | None => (Some id, fd_FinishedAt failure, false)
        | Some found =>
            if String.ltb (fd_FinishedAt failure) first then (Some id, fd_FinishedAt failure, false)
            else if bool_decide (fd_FinishedAt failure = first) && negb (bool_decide (id = found)) then (node, first, true)
            else st
        end
  end.

Definition ExitStatus (p : WorkflowPlan) (status failures : string) : result (string * option string) :=
  if bool_decide (status = "Succeeded") then Ok ("succeeded", None)
  else if negb (bool_decide (status = "Failed") || bool_decide (status = "Error")) then
    Err (Errorf "argo exit handler: unexpected workflow status %q" [AStr status])
  else
    match decodeText failures with
    | None => Err (Errorf "argo exit handler: workflow failures are not a JSON string: %w" [AWrap (ErrNew "json: cannot unmarshal")])
    | Some text =>
        match decodeFailed text with
        | None => Err (Errorf "argo exit handler: decode workflow failures: %w" [AWrap (ErrNew "json: cannot unmarshal")])
        | Some failed =>
            let '(node, first, ambiguous) := foldl (earlier (templateNodes p)) (None, "", false) failed in
            Ok ("failed", if ambiguous : bool then None else node)
        end
    end.
End Exit.

(** ** Execution phases *)
Definition Hydrate : string := "hydrate".
Definition Author : string := "author".
Definition Publish : string := "publish".
Definition RecordBytes : Z := 32.
Record Evidence := { ph_Phase : string; ph_Fatal : bool }.

Section Items.
(** The schema of the evidence, as the validator compiles it. *)
Context (validateEvidence : string → result unit).

Definition Parse (message : string) : result Evidence :=
  if RecordBytes <? Z.of_nat (String.length message) then
    Err (Errorf "execution evidence exceeds %d bytes" [AInt RecordBytes])
  else
    _ ← validateEvidence message;
    match unmarshal message with
    | Some (JObj ms) =>
        match foldedString "phase" ms, foldedBool "fatal" ms with
        | Some phase, Some fatal => Ok {| ph_Phase := phase; ph_Fatal := fatal |}
        | _, _ => Err (ErrNew "json: cannot unmarshal")
        end
    | Some JNull => Ok {| ph_Phase := ""; ph_Fatal := false |}
    | _ => Err (ErrNew "json: cannot unmarshal")
    end.

(** ** Items without an outcome *)
Record itemSchedulerNode := { sn_Type : string; sn_Phase : string; sn_Children : list string }.
(** The parts of a [corev1.Pod] that are read. *)
Record ContainerStateTerminated := { te_Message : string; te_Reason : string; te_Signal : Z }.
Record ContainerStatus := { cs_Name : string; cs_Terminated : option ContainerStateTerminated }.
Record PodContainer := { cn_Name : string; cn_TerminationMessagePolicy : string }.
Record OwnerReference := { ow_Kind : string; ow_UID : string }.
Record Pod := {
  po_Annotations : gmap string string;
  po_OwnerReferences : list OwnerReference;
  po_Containers : list PodContainer;
  po_Phase : string;
  po_Reason : string;
  po_ContainerStatuses : list ContainerStatus;
}.
Definition noSchedulerNode : itemSchedulerNode := {| sn_Type := ""; sn_Phase := ""; sn_Children := [] |}.
Definition terminalPhase (phase : string) : bool := bool_decide (phase = "Failed") || bool_decide (phase = "Error").

Section Missing.
(** [nodes] in the order in which the range over the map gives them. *)
Context (uid : string) (nodes : list (string * itemSchedulerNode)) (pods : list Pod) (id : string).
Definition failed {A} (reason : string) : result A := Err (Errorf "item node %s has no outcome: %s" [AStr id; AStr reason]).
Definition schedulerNodeAt (key : string) : option itemSchedulerNode := (list_to_map nodes : gmap string itemSchedulerNode) !! key.

(** How many attempts the retry group of the node had; a node of its own had one. *)
Definition attemptsOf : result Z :=
  match List.find (λ parent, bool_decide (sn_Type parent = "Retry") && bool_decide (id ∈ sn_Children parent)) (map snd nodes) with
  | None => Ok 1
  | Some parent =>
      if negb (bool_decide (last (sn_Children parent) = Some id)) || negb (terminalPhase (sn_Phase parent)) then
        failed "retry group is not terminal"
      else if existsb (λ child, negb (bool_decide (sn_Type (default noSchedulerNode (schedulerNodeAt child)) = "Pod"))) (sn_Children parent) then
        failed "retry group contains a non-pod attempt"
      else Ok (Z.of_nat (length (sn_Children parent)))
  end.

Definition terminalPod : result Pod :=
  match List.filter (λ pod, bool_decide (default "" (po_Annotations pod !! "workflows.argoproj.io/node-id") = id)) pods with
  | [] => failed "terminal pod is unavailable; preserve pods until collection"
  | [pod] => Ok pod
  | _ => failed "multiple pods claim the terminal node"
  end.

Definition authorDeath (pod : Pod) : result unit :=
  match List.find (λ container, bool_decide (cs_Name container = "main")) (po_ContainerStatuses pod) with
  | None => failed "main container status is unavailable"
  | Some container =>
      match cs_Terminated container with
      | None => failed "main container has no terminal status"
      | Some termination =>
          if negb (existsb (λ spec, bool_decide (cn_Name spec = "main") && bool_decide (cn_TerminationMessagePolicy spec = "File"))
                     (po_Containers pod)) then
            failed "main container must use terminationMessagePolicy File"
          else
            match Parse (te_Message termination) with
            | Err err => failed ("execution phase evidence is absent or invalid: " +:+ errorText err)
            | Ok marker =>
                if ph_Fatal marker then failed "runtime reported a fatal infrastructure or contract error"
                else if negb (bool_decide (ph_Phase marker = Author)) then
                  failed ("container died during runtime phase " +:+ ph_Phase marker +:+ ", not author execution")
                else if negb (bool_decide (te_Reason termination = "OOMKilled")) && (te_Signal termination <=? 0) then
                  failed "main container exited without OOM or signal evidence"
                else Ok tt
            end
      end
  end.

Definition missingItemFailure : result Failure :=
  match schedulerNodeAt id with
  | Some node =>
      if negb (bool_decide (sn_Type node = "Pod")) || negb (terminalPhase (sn_Phase node)) then
        failed "terminal pod node status is unavailable"
      else
        attempts ← attemptsOf;
        terminal ← terminalPod;
        if negb (existsb (λ owner, bool_decide (ow_Kind owner = "Workflow") && bool_decide (ow_UID owner = uid)) (po_OwnerReferences terminal)) ||
           bool_decide (uid = "") then
          failed "terminal pod belongs to another workflow"
        else if negb (bool_decide (po_Phase terminal = "Failed")) || negb (bool_decide (po_Reason terminal = "")) then
          failed "pod failed without evidence of author process death"
        else
          _ ← authorDeath terminal;
          Ok (NewFailure FailureKilled attempts "runner-killed (signal; Argo author-phase reconciliation)")
  | None => failed "terminal pod node status is unavailable"
  end.
End Missing.
End Items.
