(* ===== verification/ArgoSafety.v ===== *)
(** * What a lowered plan promises

    The template closes over itself: every template a task runs is one of the bundle, template
    and task names are distinct, and every edge between tasks survives as a dependency.  Pods
    see only the secrets their contract names. *)

From S2P Require Import Prelude Utf16 Text SpecTypes PlanTypes TopoOrder Kahn Reach Json Canonical CanonicalText CanonicalForm Encode Validate Verify Deployment ArgoGraph ArgoNames SchemaMatch ArgoPods ArgoTemplate.
From Stdlib Require Import Ascii SpecFloat.
#[local] Open Scope Z_scope.

(** ** Members of trees *)
Lemma member_app {A} k (a b : list (string * A)) : member k (a ++ b) = match member k b with Some v => Some v | None => member k a end.
Proof.
  induction a as [|[n v] a IH]; cbn [app member]; [by destruct (member k b)|]. rewrite IH. by destruct (member k b).
Qed.

Lemma member_absent {A} k (ms : list (string * A)) : k ∉ ms.*1 → member k ms = None.
Proof.
  induction ms as [|[n v] ms IH]; [done|]. cbn [fmap list_fmap fst member]. intros [Hn Hms]%not_elem_of_cons.
  rewrite IH by done. by rewrite bool_decide_eq_false_2.
Qed.

Lemma member_setMember k k' v ms : member k (setMember k' v ms) = if decide (k = k') then Some v else member k ms.
Proof.
  unfold setMember. rewrite member_app. cbn [member]. case_decide as E; [subst; by rewrite bool_decide_eq_true_2|].
  rewrite bool_decide_eq_false_2 by done. induction ms as [|[n w] ms IH]; [done|]. cbn [List.filter fst member].
  case_bool_decide as E'; cbn [negb].
  - rewrite IH. subst n. rewrite (bool_decide_eq_false_2 (k' = k)) by done. by destruct (member k ms).
  - cbn [member]. by rewrite IH.
Qed.

(** ** Templates *)

(** The templates the tasks of a template's DAG run. *)
Definition templateRefs (template : json) : list string :=
  match childOf "dag" template ≫= childOf "tasks" with
  | Some (JArr tasks) => omap (λ t, childOf "template" t ≫= rawString) tasks
  | _ => []
  end.

(** A pod template: it has a name and no DAG. *)
Definition podNamed (name : string) (template : json) : Prop :=
  ∃ ms, template = JObj ms ∧ member "name" ms = Some (JStr name) ∧ member "dag" ms = None.

Lemma podNamed_nameOf name t : podNamed name t → nameOf t = name.
Proof. intros (ms & -> & Hn & _). unfold nameOf. cbn [childOf]. by rewrite Hn. Qed.
Lemma podNamed_refs name t : podNamed name t → templateRefs t = [].
Proof. intros (ms & -> & _ & Hd). unfold templateRefs. cbn [childOf]. by rewrite Hd. Qed.

Lemma podNamed_setTree name k v t : k ≠ "name" → k ≠ "dag" → podNamed name t → podNamed name (setTree k v t).
Proof.
  intros H1 H2 (ms & -> & Hn & Hd). exists (setMember k v ms). cbn [setTree]. split_and!; [done| |]; rewrite member_setMember, decide_False by done; done.
Qed.
Lemma podNamed_updateChild name k f t : k ≠ "name" → k ≠ "dag" → podNamed name t → podNamed name (default t (updateChild k f t)).
Proof.
  intros H1 H2 (ms & -> & Hn & Hd). cbn [updateChild]. destruct (member k ms) as [c|]; cbn [mbind option_bind]; [|by exists ms].
  destruct (f c) as [c'|]; cbn [mbind option_bind]; [|by exists ms]. cbn [default from_option id].
  exists (setMember k c' ms). split_and!; [done| |]; rewrite member_setMember, decide_False by done; done.
Qed.

Lemma omitEmpty_keys k name value : k ≠ name → k ∉ (omitEmpty name value).*1.
Proof. intros H. unfold omitEmpty. case_bool_decide; set_solver. Qed.
Lemma omitNil_keys {A} k name (tree : A → json) value : k ≠ name → k ∉ (omitNil name tree value).*1.
Proof. intros H. unfold omitNil. destruct value; set_solver. Qed.

Section Safety.
Context (N : spec_float → result string) (sha256Hex : string → string).

Lemma runtimePodTemplate_named name nodeID env contract storage placement inputs args t :
  runtimePodTemplate N name nodeID env contract storage placement inputs args = Ok t → podNamed name t.
Proof.
  unfold runtimePodTemplate. rewrite guard_Ok. intros [_ H].
  apply bind_Ok in H as ([variables seen] & _ & H). apply bind_unit_Ok in H as [_ H].
  destruct (splitOn "/" _) as [|os [|arch [|]]]; try done.
  apply bind_Ok in H as (patch & _ & H). apply bind_Ok in H as (podSpecPatch & Hpatch & [= <-]).
  assert (∀ k, k ≠ "podSpecPatch" → k ∉ podSpecPatch.*1) as Hp.
  { intros k Hk. destruct patch; [injection Hpatch as <-; set_solver|]. apply bind_Ok in Hpatch as (e & _ & [= <-]). set_solver. }
  eexists. split; [reflexivity|]. cbn [app].
  split; cbn [member]; rewrite member_absent; try reflexivity.
  all: rewrite !fmap_app, !not_elem_of_app; cbn [fmap list_fmap fst].
  all: repeat match goal with
       | |- _ ∧ _ => split
       | |- _ ∉ (omitEmpty _ _).*1 => apply omitEmpty_keys; done
       | |- _ ∉ (omitNil _ _ _).*1 => apply omitNil_keys; done
       | |- _ ∉ (match ?l with [] => [] | _ :: _ => [("metadata", _)] end).*1 => destruct l; cbn; set_solver
       | |- _ => first [apply Hp; done|set_solver]
       end.
Qed.

Lemma applyRetryStrategy_named name t contract : podNamed name t → podNamed name (applyRetryStrategy t contract).
Proof.
  intros H. unfold applyRetryStrategy. destruct (pc_Retry contract); [|done]. destruct (_ <=? 1); [done|].
  by apply podNamed_setTree.
Qed.

(** Names and references of the templates that are no pods. *)
Lemma mapTemplate_refs node mapName expandName invokeName collectName :
  nameOf (mapTemplate node mapName expandName invokeName collectName) = mapName ∧
  templateRefs (mapTemplate node mapName expandName invokeName collectName) = [expandName; invokeName; collectName].
Proof. split; reflexivity. Qed.
Lemma outcomeTemplate_refs invokeName itemName :
  nameOf (outcomeTemplate invokeName itemName) = invokeName ∧ templateRefs (outcomeTemplate invokeName itemName) = [itemName].
Proof. split; reflexivity. Qed.

(** Every template a task of [ts] runs has one of the names. *)
Definition refsIn (names : list string) (ts : list json) : Prop := ∀ t r, t ∈ ts → r ∈ templateRefs t → r ∈ names.

Lemma refsIn_mono names names' ts : names ⊆ names' → refsIn names ts → refsIn names' ts.
Proof. intros Hsub H t r Ht Hr. by eapply Hsub, H. Qed.
Lemma refsIn_app names a b : refsIn names (a ++ b) ↔ refsIn names a ∧ refsIn names b.
Proof. unfold refsIn. setoid_rewrite elem_of_app. naive_solver. Qed.
Lemma refsIn_cons names t ts : refsIn names (t :: ts) ↔ (∀ r, r ∈ templateRefs t → r ∈ names) ∧ refsIn names ts.
Proof. unfold refsIn. setoid_rewrite elem_of_cons. naive_solver. Qed.
Lemma refsIn_nil names : refsIn names [].
Proof. by intros t r ?%elem_of_nil. Qed.
Lemma refsIn_pod (names : list string) name t : podNamed name t → ∀ r, r ∈ templateRefs t → r ∈ names.
Proof. intros H r. by rewrite (podNamed_refs _ _ H), elem_of_nil. Qed.

(** The templates that are a node's own. *)
Definition ownNames (node : GraphNode) : list string :=
  if isKind NodeKindMap node then
    map (λ prefix, argoFieldName sha256Hex (prefix +:+ gn_ID node)) ["map-"; "map-expand-"; "map-item-"; "map-collect-"]
  else [templateName sha256Hex node].

Lemma argoMapTemplates_closed node env contract workflowName storage controlPlacement itemPlacement sourceArgs ts :
  argoMapTemplates N sha256Hex node env contract workflowName storage controlPlacement itemPlacement sourceArgs = Ok ts →
  map (λ prefix, argoFieldName sha256Hex (prefix +:+ gn_ID node)) ["map-"; "map-expand-"; "map-item-"; "map-collect-"]
    ⊆+ map nameOf ts ∧ refsIn (map nameOf ts) ts.
Proof.
  unfold argoMapTemplates. intros H. apply bind_Ok in H as (expand & He%runtimePodTemplate_named & H).
  apply bind_Ok in H as (item & Hi%runtimePodTemplate_named & H).
  set (item' := applyRetryStrategy _ contract) in H.
  assert (podNamed (argoFieldName sha256Hex ("map-item-" +:+ gn_ID node)) item') as Hi'.
  { apply applyRetryStrategy_named. by apply podNamed_updateChild. }
  clearbody item'. clear Hi item. destruct (collects node); apply bind_Ok in H as (collect & Hc%runtimePodTemplate_named & [= <-]).
  - apply (podNamed_setTree _ "automountServiceAccountToken" (JBool true)) in Hc; [|done|done].
    cbn [map]. rewrite (podNamed_nameOf _ _ He), (podNamed_nameOf _ _ Hi'), (podNamed_nameOf _ _ Hc).
    rewrite (proj1 (mapTemplate_refs _ _ _ _ _)), (proj1 (outcomeTemplate_refs _ _)). split; [apply sublist_submseteq; repeat constructor|].
    rewrite !refsIn_cons. split_and!; try by eapply refsIn_pod.
    + intros r. rewrite (proj2 (mapTemplate_refs _ _ _ _ _)). set_solver.
    + intros r. rewrite (proj2 (outcomeTemplate_refs _ _)). set_solver.
    + apply refsIn_nil.
  - cbn [map]. rewrite (podNamed_nameOf _ _ He), (podNamed_nameOf _ _ Hi'), (podNamed_nameOf _ _ Hc).
    rewrite (proj1 (mapTemplate_refs _ _ _ _ _)). split; [done|].
    rewrite !refsIn_cons. split_and!; try by eapply refsIn_pod.
    + intros r. rewrite (proj2 (mapTemplate_refs _ _ _ _ _)). set_solver.
    + apply refsIn_nil.
Qed.

Lemma control_not_map node : isControl node = true → isKind NodeKindMap node = false.
Proof. unfold isControl, isKind. intros [E%bool_decide_eq_true|E%bool_decide_eq_true]%orb_prop; by rewrite E. Qed.
Lemma nodeTemplates_closed l node contract inputParameters ts :
  nodeTemplates N sha256Hex l node contract inputParameters = Ok ts →
  ownNames node ⊆+ map nameOf ts ∧ refsIn (map nameOf ts) ts.
Proof.
  unfold nodeTemplates, ownNames. destruct (isControl node) eqn:Ec; [|destruct (isKind NodeKindMap node) eqn:Em]; intros H.
  - apply bind_Ok in H as (t & Ht%runtimePodTemplate_named & [= <-]).
    assert (isKind NodeKindMap node = false) as -> by (by apply control_not_map).
    assert (∀ t', podNamed (templateName sha256Hex node) t' →
      [templateName sha256Hex node] ⊆+ map nameOf [t'] ∧ refsIn (map nameOf [t']) [t']) as Hone.
    { intros t' Ht'. cbn [map]. rewrite (podNamed_nameOf _ _ Ht'). split; [done|]. apply refsIn_cons. split; [by eapply refsIn_pod|apply refsIn_nil]. }
    apply Hone. destruct (isKind NodeKindDecision node); [by apply podNamed_updateChild|done].
  - by apply argoMapTemplates_closed in H.
  - apply bind_Ok in H as (t & Ht%runtimePodTemplate_named & [= <-]). apply (applyRetryStrategy_named _ _ contract) in Ht.
    cbn [map]. rewrite (podNamed_nameOf _ _ Ht). split; [done|]. apply refsIn_cons. split; [by eapply refsIn_pod|apply refsIn_nil].
Qed.
Lemma templateName_own node : templateName sha256Hex node ∈ ownNames node.
Proof. unfold ownNames. destruct (isKind NodeKindMap node) eqn:E; [unfold templateName; rewrite E|]; left. Qed.

(** ** The tasks *)
Lemma taskTree_template t : childOf "template" (taskTree t) = Some (JStr (tk_template t)).
Proof.
  unfold taskTree, named. cbn [childOf]. change (("name", JStr (tk_name t)) :: ?l) with ([("name", JStr (tk_name t))] ++ l).
  rewrite !member_app. unfold omitEmpty. repeat case_bool_decide; reflexivity.
Qed.

Lemma mainTemplate_refs tasks resultExpression :
  nameOf (mainTemplate tasks resultExpression) = "main" ∧ templateRefs (mainTemplate tasks resultExpression) = map tk_template tasks.
Proof.
  split; [reflexivity|]. unfold templateRefs. 
  change (childOf "dag" (mainTemplate tasks resultExpression) ≫= childOf "tasks") with (Some (JArr (map taskTree tasks))).
  induction tasks as [|t tasks IH]; [done|]. cbn [map omap list_omap]. rewrite taskTree_template. cbn [mbind option_bind rawString].
  by rewrite IH.
Qed.

(** What one node adds: its task, after the entry task when it reads the workflow's input, and
    the templates they run. *)
Definition dependencyNames (l : lowering) (node : GraphNode) : list string :=
  map (nameAt (lw_taskNames l)) (sortStrings (at_ (lw_dependencies l) (gn_ID node))).
Record lowered (l : lowering) (node : GraphNode) (task : Task) (entry : bool) (templates : list json) : Prop := {
  ld_name : tk_name task = nameAt (lw_taskNames l) (gn_ID node);
  ld_depends : tk_depends task = dependsOn (isKind NodeKindSelect node) (nameAt (lw_taskNames l) (gn_DecisionRef node))
    (dependencyNames l node ++ (if entry then [entryTaskName] else []));
  ld_template : tk_template task = templateName sha256Hex node;
  ld_own : ownNames node ⊆+ map nameOf templates;
  ld_entry : entry = true → entryTaskName ∈ map nameOf templates;
  ld_refs : refsIn (map nameOf templates) templates;
}.
Definition tasksOf (x : Task * bool * list json) : list Task := (if x.1.2 then [entryTask] else []) ++ [x.1.1].

Lemma lowerNode_lowered l tasks templates node tasks' templates' :
  lowerNode N sha256Hex l (tasks, templates) node = Ok (tasks', templates') →
  ∃ task entry more, lowered l node task entry more ∧ tasks' = tasks ++ tasksOf (task, entry, more) ∧ templates' = templates ++ more.
Proof.
  unfold lowerNode. destruct (contractOf l node) as [contract|]; [|done]. intros H.
  apply bind_Ok in H as (inputs & _ & H). apply bind_Ok in H as ([[[inputs' deps] entry] entryTemplates] & He & H).
  apply bind_Ok in H as (when & _ & H). apply bind_Ok in H as (more & Hmore%nodeTemplates_closed & [= <- <-]).
  destruct Hmore as [Hname Hrefs].
  destruct (readsWorkflowInput node inputs).
  - apply bind_Ok in He as (t & Ht%runtimePodTemplate_named & [= <- <- <- <-]).
    eexists _, true, (t :: more). split; [|done].
    assert (map nameOf (t :: more) = entryTaskName :: map nameOf more) as Hmap by (cbn [map]; by rewrite (podNamed_nameOf _ _ Ht)).
    split; cbn [tk_name tk_depends tk_template]; rewrite ?Hmap; [done|done|done|by apply submseteq_cons|intros _; left|].
    apply refsIn_cons. split; [by eapply refsIn_pod|]. eapply refsIn_mono; [|exact Hrefs]. set_solver.
  - injection He as <- <- <- <-. eexists _, false, more. split; [|done].
    split; cbn [tk_name tk_depends tk_template]; [done|by rewrite app_nil_r|done..].
Qed.

Lemma lowerNodes_lowered l nodes : ∀ tasks templates tasks' templates',
  foldErr (lowerNode N sha256Hex l) (tasks, templates) nodes = Ok (tasks', templates') →
  ∃ parts : list (Task * bool * list json),
    Forall2 (λ node x, lowered l node x.1.1 x.1.2 x.2) nodes parts ∧
    tasks' = tasks ++ flat_map tasksOf parts ∧ templates' = templates ++ flat_map snd parts.
Proof.
  induction nodes as [|node nodes IH]; intros tasks templates tasks' templates'; cbn [foldErr].
  { intros [= <- <-]. exists []. split_and!; [constructor|by rewrite app_nil_r..]. }
  intros ([tasks1 templates1] & (task & entry & more & Hl & -> & ->)%lowerNode_lowered & H)%bind_Ok.
  apply IH in H as (parts & Hparts & -> & ->). exists ((task, entry, more) :: parts). cbn [flat_map]. split_and!; [by constructor|..].
  all: by rewrite <- app_assoc.
Qed.

(** The loop that names the tasks. *)
Lemma nameTasks_Ok nodes : ∀ names occupied names' occupied',
  foldErr (nameTask sha256Hex) (names, occupied) nodes = Ok (names', occupied') → NoDup (map gn_ID nodes) →
  NoDup (map (λ n, argoFieldName sha256Hex (gn_ID n)) nodes) ∧
  (∀ n, n ∈ nodes → argoFieldName sha256Hex (gn_ID n) ∉ occupied) ∧
  (∀ id, names' !! id = if decide (id ∈ map gn_ID nodes) then Some (argoFieldName sha256Hex id) else names !! id).
Proof.
  induction nodes as [|n nodes IH]; intros names occupied names' occupied'; cbn [foldErr map].
  { intros [= <- <-] _. split_and!; [constructor|by intros ? ?%elem_of_nil|]. intros id. by rewrite decide_False by apply not_elem_of_nil. }
  intros ([names1 occupied1] & H1 & H)%bind_Ok [Hn Hnd]%NoDup_cons. unfold nameTask in H1. apply guard_Ok in H1 as [Hocc%bool_decide_eq_false [= <- <-]].
  destruct (IH _ _ _ _ H Hnd) as (Hnames & Hfree & Hlook). split_and!.
  - apply NoDup_cons. split; [|done]. intros (x & E & Hx)%list_elem_of_fmap. apply (Hfree x Hx). rewrite <- E. set_solver.
  - intros x [->|Hx]%elem_of_cons; [done|]. specialize (Hfree x Hx). set_solver.
  - intros id. rewrite Hlook. destruct (decide (id = gn_ID n)) as [->|Hne].
    + rewrite decide_False, lookup_insert_eq by done. by rewrite decide_True by left.
    + rewrite lookup_insert_ne by done. destruct (decide (id ∈ map gn_ID nodes)) as [Hin|Hin];
        [by rewrite decide_True by (by right)|rewrite decide_False; [done|by intros [?|?]%elem_of_cons]].
Qed.

Lemma checkTemplateNames_Ok templates : checkTemplateNames templates = Ok tt → NoDup (map nameOf templates).
Proof.
  unfold checkTemplateNames. intros (st & H & _)%bind_Ok.
  enough (∀ templates (occupied st : gset string), foldErr (λ occupiedNames template,
    if bool_decide (nameOf template ∈ occupiedNames) then
      Err (Errorf "argo target: generated template name %q collides; rename the contributing nodes" [AStr (nameOf template)])
    else Ok ({[nameOf template]} ∪ occupiedNames)) occupied templates = Ok st →
    NoDup (map nameOf templates) ∧ ∀ x, x ∈ map nameOf templates → x ∉ occupied) as Hgen by (by eapply Hgen).
  clear. induction templates as [|t templates IH]; intros occupied st; cbn [foldErr map].
  { intros _. split; [constructor|by intros ? ?%elem_of_nil]. }
  intros (a & Ha & H)%bind_Ok. apply guard_Ok in Ha as [Hocc%bool_decide_eq_false [= <-]]. destruct (IH _ _ H) as [Hnd Hfree]. split.
  - apply NoDup_cons. split; [|done]. intros Hin. specialize (Hfree _ Hin). set_solver.
  - intros x [->|Hx]%elem_of_cons; [done|]. specialize (Hfree x Hx). set_solver.
Qed.

(** ** The whole graph *)
Lemma executableNodes_Permutation g : executableNodes g ≡ₚ List.filter isExecutable (gr_Nodes g).
Proof. apply merge_sort_Permutation. Qed.
Lemma elem_of_executableNodes g n : n ∈ executableNodes g ↔ n ∈ gr_Nodes g ∧ isExecutable n = true.
Proof. rewrite executableNodes_Permutation, !list_elem_of_In, filter_In. done. Qed.
Lemma executableNodes_NoDup g : NoDup (map gn_ID (gr_Nodes g)) → NoDup (map gn_ID (executableNodes g)).
Proof.
  intros Hnd. rewrite (Permutation_map gn_ID (executableNodes_Permutation g)). induction (gr_Nodes g) as [|n l IH]; [done|].
  cbn [map] in Hnd. apply NoDup_cons in Hnd as [Hn Hnd]. cbn [List.filter]. destruct (isExecutable n); [|by apply IH].
  cbn [map]. apply NoDup_cons. split; [|by apply IH]. intros (x & E & Hx)%list_elem_of_fmap. apply Hn. rewrite E.
  apply (list_elem_of_fmap_2 gn_ID). apply list_elem_of_In, filter_In in Hx as [Hx _]. by apply list_elem_of_In.
Qed.

(** What [lowerGraph] returns, in one statement. *)
Record loweredGraph (p : WorkflowPlan) (tasks : list Task) (templates : list json) : Prop := {
  lg_lowering : ∃ l parts hooks resultExpression,
    lw_graph l = authoredGraph (wp_Graph p) ∧ lw_nodes l = executableNodes (lw_graph l) ∧
    lw_dependencies l = dependenciesOf (lw_nodes l) (gr_Edges (lw_graph l)) ∧
    NoDup (map (λ n, argoFieldName sha256Hex (gn_ID n)) (lw_nodes l)) ∧
    (∀ n, n ∈ lw_nodes l → argoFieldName sha256Hex (gn_ID n) ≠ entryTaskName) ∧
    (∀ id, lw_taskNames l !! id = if decide (id ∈ map gn_ID (lw_nodes l)) then Some (argoFieldName sha256Hex id) else None) ∧
    Forall2 (λ node x, lowered l node x.1.1 x.1.2 x.2) (lw_nodes l) parts ∧
    tasks = flat_map tasksOf parts ∧
    templates = mainTemplate tasks resultExpression :: flat_map snd parts ++ hooks ∧
    refsIn (map nameOf hooks) hooks;
  lg_names : NoDup (map nameOf templates);
}.

Lemma lowerGraph_Ok p target workflowName sourceArgs tasks templates :
  NoDup (map gn_ID (gr_Nodes (authoredGraph (wp_Graph p)))) →
  lowerGraph N sha256Hex p target workflowName sourceArgs = Ok (tasks, templates) → loweredGraph p tasks templates.
Proof.
  intros Hids. unfold lowerGraph. intros [_ H]%bind_unit_Ok. apply bind_Ok in H as ([taskNames occupied] & Hnames & H).
  apply nameTasks_Ok in Hnames as (Hnd & Hfree & Hlook); [|by apply executableNodes_NoDup].
  apply bind_Ok in H as ([tasks1 templates1] & (parts & Hparts & -> & ->)%lowerNodes_lowered & H).
  match type of Hparts with Forall2 (λ node x, lowered ?l0 _ _ _ _) _ _ => set (l := l0) in * end.
  destruct (at_ (lw_inbound l) _) as [|source [|]]; [done| |done].
  apply bind_Ok in H as (hooks & Hhooks & H). apply bind_unit_Ok in H as [Hcheck%checkTemplateNames_Ok [= <- <-]].
  split; [|done]. exists l, parts, hooks. eexists. split_and!; try done.
  - intros n Hn E. apply (Hfree n Hn). rewrite E. set_solver.
  - destruct (wp_Graph p ≫= gi_ExitHook) as [h|]; [|injection Hhooks as <-; apply refsIn_nil].
    unfold hookTemplates in Hhooks. destruct (lw_contracts l !! _) as [c|]; [|done].
    apply bind_Ok in Hhooks as (t & Ht%runtimePodTemplate_named & [= <-]).
    apply (podNamed_setTree _ "activeDeadlineSeconds" (JStr (itoa (GetUint32 (pc_TimeoutSeconds c))))) in Ht; [|done|done].
    cbn [map]. rewrite (podNamed_nameOf _ _ Ht). rewrite !refsIn_cons. split_and!; [|by eapply refsIn_pod|apply refsIn_nil].
    intros r Hr. change (r ∈ [argoFieldName sha256Hex ("exit-" +:+ gn_ID (authoredNode h))]) in Hr. set_solver.
Qed.

Lemma lowered_names l nodes parts :
  Forall2 (λ node x, lowered l node x.1.1 x.1.2 x.2) nodes parts →
  (∀ x, x ∈ flat_map tasksOf parts → tk_template x ∈ map nameOf (flat_map snd parts)) ∧
  refsIn (map nameOf (flat_map snd parts)) (flat_map snd parts) ∧
  (∀ name, name ∈ map tk_name (flat_map tasksOf parts) →
    (∃ n, n ∈ nodes ∧ name = nameAt (lw_taskNames l) (gn_ID n)) ∨ (name = entryTaskName ∧ entryTaskName ∈ map nameOf (flat_map snd parts))) ∧
  (NoDup (map nameOf (flat_map snd parts)) → NoDup (map (λ n, nameAt (lw_taskNames l) (gn_ID n)) nodes) →
   (∀ n, n ∈ nodes → nameAt (lw_taskNames l) (gn_ID n) ≠ entryTaskName) → NoDup (map tk_name (flat_map tasksOf parts))).
Proof.
  induction 1 as [|node [[task entry] ts] nodes parts Hl _ (IH1 & IH2 & IH3 & IH4)].
  { split_and!; [by intros ? ?%elem_of_nil|apply refsIn_nil|by intros ? ?%elem_of_nil|constructor]. }
  cbn [fst snd] in Hl. destruct Hl as [Hn Hd Ht Ho He Hr].
  assert (tk_template task ∈ map nameOf ts) as Htask by (rewrite Ht; eapply elem_of_submseteq; [apply templateName_own|exact Ho]). cbn [flat_map]. rewrite !map_app. unfold tasksOf at 1 3 5. cbn [fst snd]. split_and!.
  - intros x. rewrite !elem_of_app. intros [[Hx| ->%list_elem_of_singleton]|Hx]; [|by left|right; by apply IH1].
    left. destruct entry; [|by apply elem_of_nil in Hx]. apply list_elem_of_singleton in Hx as ->. by apply He.
  - apply refsIn_app. split; [eapply refsIn_mono; [|exact Hr]|eapply refsIn_mono; [|exact IH2]]; set_solver.
  - intros name. rewrite !map_app, !elem_of_app. intros [[Hx|Hx]|Hx].
    + right. destruct entry; [|by apply elem_of_nil in Hx]. apply list_elem_of_singleton in Hx as ->. split; [done|]. left. by apply He.
    + left. exists node. split; [left|]. apply list_elem_of_singleton in Hx as ->. done.
    + apply IH3 in Hx as [(n & Hin & ->)|[-> Hx]]; [left; exists n; split; [by right|done]|right; split; [done|by right]].
  - cbn [map]. intros [Hnd1 [Hdis Hnd2]]%NoDup_app [Hnode Hnodes]%NoDup_cons Hfree.
    assert (NoDup (map tk_name (flat_map tasksOf parts))) as Htail.
    { apply IH4; [done|done|]. intros n Hin. apply Hfree. by right. }
    assert (tk_name task ∉ map tk_name (flat_map tasksOf parts)) as Hname.
    { intros Hin%IH3. rewrite Hn in Hin. destruct Hin as [(n & Hin & E)|[E _]].
      - apply Hnode. rewrite E. by apply (list_elem_of_fmap_2 (λ n, nameAt (lw_taskNames l) (gn_ID n))).
      - by apply (Hfree node); [left|]. }
    rewrite map_app. destruct entry; cbn [map app]; [|by apply NoDup_cons].
    apply NoDup_cons. split; [|by apply NoDup_cons]. intros [E|Hin]%elem_of_cons.
    + apply (Hfree node); [left|]. rewrite <- Hn. done.
    + apply IH3 in Hin as [(n & Hin & E)|[_ Hin]]; [by apply (Hfree n); [right|]|]. apply (Hdis entryTaskName); [by apply He|done].
Qed.

(** C8: the template closes over itself: template names are distinct, task names are distinct,
    and every template that a task of any of the DAGs runs is one of the templates. *)
Theorem lowerGraph_closed p target workflowName sourceArgs tasks templates :
  staticGraph (authoredGraph (wp_Graph p)) →
  lowerGraph N sha256Hex p target workflowName sourceArgs = Ok (tasks, templates) →
  NoDup (map nameOf templates) ∧ NoDup (map tk_name tasks) ∧
  (∃ main rest, templates = main :: rest ∧ nameOf main = "main" ∧ templateRefs main = map tk_template tasks) ∧
  (∀ template ref, template ∈ templates → ref ∈ templateRefs template → ref ∈ map nameOf templates).
Proof.
  intros V H. destruct (lowerGraph_Ok _ _ _ _ _ _ (sg_ids _ V) H)
    as [(l & parts & hooks & result & _ & _ & _ & Hnd & Hfree & Hnames & Hparts & Ht & Hts & Hhooks) Hnodup].
  destruct (lowered_names _ _ _ Hparts) as (Htemplates & Hrefs & _ & Htasks).
  assert (∀ n, n ∈ lw_nodes l → nameAt (lw_taskNames l) (gn_ID n) = argoFieldName sha256Hex (gn_ID n)) as Hname.
  { intros n Hn. unfold nameAt. rewrite Hnames, decide_True; [done|]. by apply (list_elem_of_fmap_2 gn_ID). }
  assert (NoDup (map nameOf (flat_map snd parts))) as Hsub.
  { rewrite Hts in Hnodup. cbn [map] in Hnodup. apply NoDup_cons in Hnodup as [_ Hnodup]. rewrite map_app in Hnodup.
    by apply NoDup_app in Hnodup as (? & _). }
  split; [done|]. split; [|split].
  - rewrite Ht. apply Htasks; [done| |].
    + rewrite (map_ext_in _ (λ n, argoFieldName sha256Hex (gn_ID n))); [done|]. intros n Hn%list_elem_of_In. by apply Hname.
    + intros n Hn. rewrite Hname by done. by apply Hfree.
  - exists (mainTemplate tasks result), (flat_map snd parts ++ hooks). split; [done|]. apply mainTemplate_refs.
  - fold (refsIn (map nameOf templates) templates). rewrite Hts. cbn [map]. rewrite map_app. apply refsIn_cons. split.
    + intros r. rewrite (proj2 (mainTemplate_refs _ _)). intros (t & -> & Hin)%list_elem_of_fmap. rewrite Ht in Hin.
      apply Htemplates in Hin. set_solver.
    + apply refsIn_app. split; [eapply refsIn_mono; [|exact Hrefs]|eapply refsIn_mono; [|exact Hhooks]]; set_solver.
Qed.

(** ** Dependencies *)
Lemma initDependencies_lookup nodes id : foldl (λ m n, <[gn_ID n := []]> m) (∅ : gmap string (list string)) nodes !! id =
  if decide (id ∈ map gn_ID nodes) then Some [] else None.
Proof.
  induction nodes as [|n nodes IH] using rev_ind; [by rewrite decide_False by apply not_elem_of_nil|].
  rewrite foldl_app, map_app. cbn [foldl map]. destruct (decide (gn_ID n = id)) as [E|Hne].
  - rewrite E, lookup_insert_eq, decide_True; [done|]. apply elem_of_app. right. left.
  - rewrite lookup_insert_ne, IH by done. destruct (decide (id ∈ map gn_ID nodes)); [rewrite decide_True by (apply elem_of_app; by left); done|].
    rewrite decide_False; [done|]. rewrite elem_of_app, list_elem_of_singleton. naive_solver.
Qed.

Lemma dependenciesOf_dom nodes edges k : is_Some (dependenciesOf nodes edges !! k) ↔ k ∈ map gn_ID nodes.
Proof.
  unfold dependenciesOf. induction edges as [|e edges IH] using rev_ind; cbn [foldl].
  - rewrite initDependencies_lookup. case_decide; split; [done|eauto|by intros []|done].
  - rewrite foldl_app. cbn [foldl]. unfold addDependency at 1. destruct (_ || _) eqn:E; [done|].
    apply orb_false_iff in E as [[x E]%missing_false _]. unfold appendAt. destruct (decide (ge_To e = k)) as [<-|Hne];
      [|by rewrite lookup_insert_ne]. rewrite lookup_insert_eq, <- IH, E. split; eauto.
Qed.

Lemma dependenciesOf_spec nodes edges id u : id ∈ map gn_ID nodes →
  u ∈ at_ (dependenciesOf nodes edges) id ↔ (u, id) ∈ map edgePair edges ∧ u ∈ map gn_ID nodes.
Proof.
  intros Hid. induction edges as [|e edges IH] using rev_ind.
  { unfold dependenciesOf, at_. cbn [foldl map]. rewrite initDependencies_lookup, decide_True by done. cbn. rewrite !elem_of_nil. naive_solver. }
  unfold dependenciesOf. rewrite foldl_app, map_app. cbn [foldl map]. fold (dependenciesOf nodes edges).
  rewrite elem_of_app, list_elem_of_singleton. unfold addDependency. destruct (_ || _) eqn:E.
  - rewrite IH. split; [naive_solver|]. intros [[?|[= Eu Ei]] Hu]; [done|]. exfalso. rewrite Eu in Hu. rewrite Ei in Hid.
    apply dependenciesOf_dom with (edges := edges) in Hu, Hid. apply missing_false in Hu, Hid. by rewrite Hu, Hid in E.
  - apply orb_false_iff in E as [_ E%missing_false%dependenciesOf_dom]. rewrite at_appendAt.
    unfold edgePair at 2. case_decide as D; [rewrite elem_of_app, list_elem_of_singleton|]; rewrite IH; naive_solver.
Qed.

Lemma dependsOn_task decisionTask names : dependsOn false decisionTask names = joinStrings " && " (map (λ name, name +:+ ".Succeeded") names).
Proof. by destruct names. Qed.
Lemma dependsOn_select decisionTask names : names ≠ [] → dependsOn true decisionTask names =
  joinStrings " && "
    (map (λ name, "(" +:+ name +:+ ".Succeeded || " +:+ name +:+ ".Skipped || " +:+ name +:+ ".Omitted)") names ++
     [decisionTask +:+ ".Succeeded"; "(" +:+ joinStrings " || " (map (λ name, name +:+ ".Succeeded") names) +:+ ")"]).
Proof. by destruct names. Qed.


(** ** Secrets *)

(** The environment variables of a pod's container. *)
Definition variablesOf (template : json) : list json :=
  match childOf "container" template ≫= childOf "env" with Some (JArr variables) => variables | _ => [] end.

(** What a contract may call a secret. *)
Definition secretName (name : string) : Prop :=
  isEnvironmentName name = true ∧ name ∉ reservedVariables ∧ HasPrefix name "AWS_" = false ∧ HasPrefix name "MASSIVE_" = false.

Lemma addSecret_Ok nodeID bindings variables seen secret variables' seen' :
  addSecret nodeID bindings (variables, seen) secret = Ok (variables', seen') ↔
  let name := GetString (px_Name secret) in
  secretName name ∧ name ∉ seen ∧ seen' = {[name]} ∪ seen ∧
  ∃ binding, bindings !! GetString (px_Ref secret) = Some binding ∧
    variables' = variables ++ [secretVariable name (sk_Name binding) (sk_Key binding) []].
Proof.
  unfold addSecret, secretName. cbn zeta. rewrite !guard_Ok, negb_false_iff, !orb_false_iff, !bool_decide_eq_false.
  destruct (bindings !! _) as [binding|]; [|naive_solver]. naive_solver.
Qed.

(** The secrets of a contract as variables. *)
Definition bound (bindings : gmap string SecretKeyRef) (secret : PlanSecret) (variable : json) : Prop :=
  secretName (GetString (px_Name secret)) ∧ ∃ binding, bindings !! GetString (px_Ref secret) = Some binding ∧
    variable = secretVariable (GetString (px_Name secret)) (sk_Name binding) (sk_Key binding) [].

Lemma addSecrets_Ok nodeID bindings secrets : ∀ variables seen variables' seen',
  foldErr (addSecret nodeID bindings) (variables, seen) secrets = Ok (variables', seen') →
  ∃ more, variables' = variables ++ more ∧ Forall2 (bound bindings) secrets more ∧ NoDup (map nameOf more) ∧
    ∀ x, x ∈ map nameOf more → x ∉ seen.
Proof.
  induction secrets as [|secret secrets IH]; intros variables seen variables' seen'; cbn [foldErr].
  { intros [= <- <-]. exists []. rewrite app_nil_r. split_and!; [done|constructor|constructor|by intros ? ?%elem_of_nil]. }
  intros ([v1 s1] & (Hname & Hseen & -> & binding & Hb & ->)%addSecret_Ok & H)%bind_Ok.
  apply IH in H as (more & -> & Hmore & Hnd & Hfree). exists (secretVariable (GetString (px_Name secret)) (sk_Name binding) (sk_Key binding) [] :: more).
  rewrite <- app_assoc. split_and!; [done|constructor; [split; eauto|done]| |]; cbn [map]; change (nameOf (secretVariable ?n _ _ _)) with n.
  - apply NoDup_cons. split; [|done]. intros Hin%Hfree. set_solver.
  - intros x [->|Hx%Hfree]%elem_of_cons; [done|]. set_solver.
Qed.

Lemma credentials_names storage name : name ∈ map nameOf (credentials storage) → name ∈ credentialVariables.
Proof.
  unfold credentials. destruct storage as [t|]; [|by intros ?%elem_of_nil]. case_bool_decide; [by intros ?%elem_of_nil|].
  rewrite map_map. change (λ x, nameOf (secretVariable x ?s x ?o)) with (λ x : string, x). by rewrite map_id.
Qed.
Lemma credentials_NoDup storage : NoDup (map nameOf (credentials storage)).
Proof.
  unfold credentials. destruct storage as [t|]; [|constructor]. case_bool_decide; [constructor|].
  rewrite map_map. change (λ x, nameOf (secretVariable x ?s x ?o)) with (λ x : string, x). rewrite map_id.
  apply (bool_decide_unpack _). vm_compute. exact I.
Qed.

(** C12: the variables of a pod are the credentials of the store and one for each secret of its
    contract, bound as the deployment binds it; no name occurs twice, and no secret takes the
    name of a credential or of a variable the runtime owns. *)
Theorem runtimePodTemplate_secrets name nodeID env contract storage placement inputs args t :
  runtimePodTemplate N name nodeID env contract storage placement inputs args = Ok t →
  ∃ secrets, variablesOf t = credentials storage ++ secrets ∧
    Forall2 (bound (match storage with Some s => tg_SecretBindings s | None => ∅ end)) (pc_Secrets contract) secrets ∧
    NoDup (map nameOf (variablesOf t)).
Proof.
  unfold runtimePodTemplate. rewrite guard_Ok. intros [_ H].
  apply bind_Ok in H as ([variables seen] & (secrets & -> & Hbound & Hnd & _)%addSecrets_Ok & H). apply bind_unit_Ok in H as [_ H].
  destruct (splitOn "/" _) as [|os [|arch [|]]]; try done.
  apply bind_Ok in H as (patch & _ & H). apply bind_Ok in H as (podSpecPatch & Hpatch & [= <-]).
  assert ("container" ∉ podSpecPatch.*1) as Hp.
  { destruct patch; [injection Hpatch as <-; set_solver|]. apply bind_Ok in Hpatch as (e & _ & [= <-]). set_solver. }
  set (variables := credentials storage ++ secrets) in *.
  match goal with |- context [("container", JObj ?c) :: ?m] => set (container := c); set (more := m) end.
  match goal with |- context [variablesOf ?tree] => set (template := tree) end.
  assert (variablesOf template = variables) as ->.
  { assert (childOf "container" template = Some (JObj container)) as Hc.
    { unfold template. cbn [childOf member]. rewrite (member_absent "container" more); [reflexivity|]. unfold more. cbn [fmap list_fmap fst].
      rewrite not_elem_of_cons. split; [done|]. rewrite !fmap_app, !not_elem_of_app. split_and!; try done.
      1-3: first [apply omitNil_keys; done|apply omitEmpty_keys; done].
      match goal with |- _ ∉ (match ?l with [] => [] | _ :: _ => [("metadata", _)] end).*1 => destruct l; cbn; set_solver end. }
    unfold variablesOf. rewrite Hc. cbn [mbind option_bind childOf]. unfold container. cbn [member]. rewrite !member_app.
    assert (member "env" (resourceMembers contract) = None) as ->.
    { unfold resourceMembers. destruct (pc_Resources contract) as [r|]; [|done]. by destruct (quantities r). }
    assert (member "env" (omitEmpty "workingDir" (GetString (ct_WorkingDirectory (default emptyContainer (GetContainer env))))) = None) as ->.
    { unfold omitEmpty. by case_bool_decide. }
    by destruct variables. }
  exists secrets. split; [done|]. split; [done|]. unfold variables. rewrite map_app. apply NoDup_app.
  split; [apply credentials_NoDup|]. split; [|done]. intros x Hx%credentials_names Hin.
  apply list_elem_of_fmap in Hin as (v & -> & Hv). apply list_elem_of_lookup in Hv as [i Hi].
  destruct (Forall2_lookup_r _ _ _ _ _ Hbound Hi) as (secret & _ & (_ & _ & Haws & _) & binding & _ & ->).
  change (nameOf (secretVariable ?n _ _ _)) with n in Hx. unfold credentialVariables in Hx.
  rewrite !elem_of_cons, elem_of_nil in Hx. destruct Hx as [E|[E|[E|[]]]]; rewrite E in Haws; done.
Qed.
End Safety.
