(* ===== verification/ArgoStatusSafety.v ===== *)
(** * The status of a run on Argo, proved

    The templates of a lowered plan name their nodes, an exit handler reports the task that
    failed first, and an item is only reported killed on evidence. *)

From S2P Require Import Prelude Utf16 Text SpecTypes PlanTypes Json JsonRaw Encode Validate Verify MapExec ArgoGraph ArgoNames ArgoPods ArgoTemplate ArgoSafety ArgoStatus.
From Stdlib Require Import Ascii SpecFloat.
#[local] Open Scope Z_scope.

(** ** Times in one zone: bytewise order *)
Definition notAfter (a b : string) : Prop := String.leb a b = true.
Lemma compare_trans a b c : String.compare a b = Lt → String.compare b c = Lt → String.compare a c = Lt.
Proof.
  revert b c. induction a as [|x a IH]; intros [|y b] [|z c]; cbn; try done. unfold Ascii.compare.
  destruct (N.compare_spec (N_of_ascii x) (N_of_ascii y)) as [Exy|Hxy|Hxy]; [|intros _|done];
    (destruct (N.compare_spec (N_of_ascii y) (N_of_ascii z)) as [Eyz|Hyz|Hyz]; [|intros|done]).
  - rewrite Exy, Eyz, N.compare_refl. apply IH.
  - rewrite Exy. by rewrite (proj2 (N.compare_lt_iff _ _) Hyz).
  - intros _. rewrite <- Eyz. by rewrite (proj2 (N.compare_lt_iff _ _) Hxy).
  - by rewrite (proj2 (N.compare_lt_iff _ _) (N.lt_trans _ _ _ Hxy Hyz)).
Qed.
Lemma before_spec a b : if String.ltb a b then notAfter a b ∧ ¬ notAfter b a else notAfter b a.
Proof. unfold String.ltb, notAfter, String.leb. rewrite (String.compare_antisym b a). by destruct (String.compare a b). Qed.
#[export] Instance notAfter_refl : Reflexive notAfter.
Proof. intros a. by destruct (String.leb_total a a). Qed.
#[export] Instance notAfter_trans : Transitive notAfter.
Proof.
  intros a b c. unfold notAfter, String.leb. destruct (String.compare a b) eqn:E1; [|intros _|done].
  - apply String.compare_eq_iff in E1 as ->. done.
  - destruct (String.compare b c) eqn:E2; [|intros _|done].
    + apply String.compare_eq_iff in E2 as ->. by rewrite E1.
    + by rewrite (compare_trans _ _ _ E1 E2).
Qed.

(** ** The loop over the failures *)
Section Exit.
Context (N : spec_float → result string) (sha256Hex : string → string).
#[local] Abbreviation fieldName := (argoFieldName sha256Hex).

(** The failure of a task of the main DAG: the node it stands for. *)
Definition names (nodes : gmap string string) (failure : failedNode) (id : string) : Prop :=
  nodes !! fd_TemplateName failure = Some id ∧ fd_DisplayName failure = fieldName id.
(** [id] has failed first, and alone. *)
Definition earliest (nodes : gmap string string) (failed : list failedNode) (id : string) : Prop :=
  ∃ failure, failure ∈ failed ∧ names nodes failure id ∧
    ∀ failure' id', failure' ∈ failed → names nodes failure' id' →
      notAfter (fd_FinishedAt failure) (fd_FinishedAt failure') ∧
      (fd_FinishedAt failure' = fd_FinishedAt failure → id' = id).

(** The state of the loop after the failures [l]. *)
Definition loopState (nodes : gmap string string) (l : list failedNode) (st : option string * string * bool) : Prop :=
  let '(node, first, ambiguous) := st in
  match node with
  | None => (∀ failure id, failure ∈ l → ¬ names nodes failure id) ∧ ambiguous = false
  | Some found =>
      (∃ failure, failure ∈ l ∧ names nodes failure found ∧ fd_FinishedAt failure = first) ∧
      (∀ failure id, failure ∈ l → names nodes failure id → notAfter first (fd_FinishedAt failure)) ∧
      if ambiguous : bool then ∃ failure id, failure ∈ l ∧ names nodes failure id ∧ fd_FinishedAt failure = first ∧ id ≠ found
      else ∀ failure id, failure ∈ l → names nodes failure id → fd_FinishedAt failure = first → id = found
  end.

Lemma names_fun nodes failure id id' : names nodes failure id → names nodes failure id' → id = id'.
Proof. intros [H1 _] [H2 _]. congruence. Qed.

Lemma elem_of_snoc {A} (l : list A) x y : y ∈ l ++ [x] ↔ y ∈ l ∨ y = x.
Proof. by rewrite elem_of_app, list_elem_of_singleton. Qed.
Lemma earlier_step nodes l st failure : loopState nodes l st → loopState nodes (l ++ [failure]) (earlier sha256Hex nodes st failure).
Proof.
  destruct st as [[node first] ambiguous]. intros H. unfold earlier.
  assert ((∀ id, ¬ names nodes failure id) → loopState nodes (l ++ [failure]) (node, first, ambiguous)) as Hskip.
  { intros Hno. cbn [loopState] in *. destruct node as [found|].
    - destruct H as ((f & Hf & Hn & Ht) & Hfirst & Hamb). split; [by exists f; rewrite elem_of_snoc; auto|]. split.
      + intros f' id [Hf'| ->]%elem_of_snoc Hn'; [by eapply Hfirst|by apply Hno in Hn'].
      + destruct ambiguous; [destruct Hamb as (f' & id & Hf' & Hn' & Ht'); by exists f', id; rewrite elem_of_snoc; auto|].
        intros f' id [Hf'| ->]%elem_of_snoc Hn'; [by eapply Hamb|by apply Hno in Hn'].
    - destruct H as [H Ha]. split; [|done]. intros f' id [Hf'| ->]%elem_of_snoc; [by apply H|apply Hno]. }
  destruct (nodes !! fd_TemplateName failure) as [id|] eqn:Eid; [|apply Hskip; intros id [? _]; congruence].
  case_bool_decide as Hd; cbn [negb]; [|apply Hskip; intros id' [E ?]; congruence].
  assert (names nodes failure id) as Hn by done. clear Hskip Hd Eid.
  destruct node as [found|]; cbn [loopState] in *.
  - destruct H as ((f & Hf & Hnf & Ht) & Hfirst & Hamb). pose proof (before_spec (fd_FinishedAt failure) first) as Hb.
    destruct (String.ltb (fd_FinishedAt failure) first); [|].
    + destruct Hb as [Hb Hnb]. cbn [loopState]. split; [by exists failure; rewrite elem_of_snoc; auto|]. split.
      * intros f' id' [Hf'| ->]%elem_of_snoc Hn'; [|done]. etrans; [exact Hb|]. by eapply Hfirst.
      * intros f' id' [Hf'| ->]%elem_of_snoc Hn' Et; [|by eapply names_fun]. destruct Hnb. rewrite <- Et. by eapply Hfirst.
    + assert (∀ f' id', f' ∈ l ++ [failure] → names nodes f' id' → notAfter first (fd_FinishedAt f')) as Hfirst'.
      { intros f' id' [Hf'| ->]%elem_of_snoc Hn'; [by eapply Hfirst|done]. }
      assert (∃ f', f' ∈ l ++ [failure] ∧ names nodes f' found ∧ fd_FinishedAt f' = first) as Hex by (exists f; rewrite elem_of_snoc; auto).
      destruct (bool_decide (fd_FinishedAt failure = first) && negb (bool_decide (id = found))) eqn:Ea; cbn [loopState]; (split; [done|]; split; [done|]).
      * apply andb_prop in Ea as [Et%bool_decide_eq_true Hne%negb_true_iff%bool_decide_eq_false]. exists failure, id. rewrite elem_of_snoc. auto.
      * destruct ambiguous; [destruct Hamb as (f' & id' & Hf' & ?); exists f', id'; rewrite elem_of_snoc; auto|].
        intros f' id' [Hf'| ->]%elem_of_snoc Hn' Et; [by eapply Hamb|].
        rewrite (names_fun _ _ _ _ Hn' Hn). apply andb_false_iff in Ea as [?%bool_decide_eq_false|?%negb_false_iff%bool_decide_eq_true]; done.
  - destruct H as [Hno _]. cbn [loopState]. split; [by exists failure; rewrite elem_of_snoc; auto|]. split.
    + intros f' id' [Hf'| ->]%elem_of_snoc Hn'; [by apply Hno in Hn'|done].
    + intros f' id' [Hf'| ->]%elem_of_snoc Hn'; [by apply Hno in Hn'|intros _; by eapply names_fun].
Qed.

Lemma earlier_loop nodes failed : loopState nodes failed (foldl (earlier sha256Hex nodes) (None, "", false) failed).
Proof.
  induction failed as [|failure failed IH] using rev_ind; [split; [by intros ?? ?%elem_of_nil|done]|].
  rewrite foldl_snoc. by apply earlier_step.
Qed.

Lemma earlier_result nodes failed id :
  (let '(node, first, ambiguous) := foldl (earlier sha256Hex nodes) (None, "", false) failed in
   if ambiguous : bool then None else node) = Some id ↔ earliest nodes failed id.
Proof.
  pose proof (earlier_loop nodes failed) as H. destruct (foldl _ _ _) as [[node first] ambiguous]. cbn [loopState] in H.
  destruct node as [found|].
  - destruct H as ((f & Hf & Hn & Ht) & Hfirst & Hamb). destruct ambiguous.
    + split; [done|]. intros (g & Hg & Hng & Hmin). destruct Hamb as (f' & id' & Hf' & Hn' & Ht' & Hne).
      assert (fd_FinishedAt g = first) as Eg.
      { apply String.leb_antisym; [rewrite <- Ht; by eapply Hmin|by eapply Hfirst]. }
      destruct (Hmin _ _ Hf Hn) as [_ H1], (Hmin _ _ Hf' Hn') as [_ H2]. destruct Hne. rewrite H1, H2; congruence.
    + split.
      * intros [= ->]. exists f. split_and!; [done|done|]. intros f' id' Hf' Hn'. rewrite Ht. split; [by eapply Hfirst|by eapply Hamb].
      * intros (g & Hg & Hng & Hmin). f_equal. symmetry. apply (Hamb g); [done|done|].
        apply String.leb_antisym; [rewrite <- Ht; by eapply Hmin|by eapply Hfirst].
  - destruct H as [Hno ->]. split; [done|]. intros (g & Hg & Hng & _). by apply Hno in Hng.
Qed.
End Exit.

(** ** The nodes behind the templates *)
Section Nodes.
Context (N : spec_float → result string) (sha256Hex : string → string).
#[local] Abbreviation fieldName := (argoFieldName sha256Hex).

Definition namePairs (node : GraphNode) : list (string * string) :=
  map (λ name, (name, gn_ID node)) (nodeNames sha256Hex (gn_ID node) (gn_Kind node)).
Lemma namePairs_fst node : map fst (namePairs node) = nodeNames sha256Hex (gn_ID node) (gn_Kind node).
Proof. unfold namePairs. rewrite map_map. apply map_id. Qed.

Definition addName (nodes : gmap string string) (kv : string * string) : gmap string string := <[kv.1 := kv.2]> nodes.
Lemma templateNodes_pairs p :
  templateNodes sha256Hex p = foldl addName ∅ (flat_map namePairs (gr_Nodes (authoredGraph (wp_Graph p)))).
Proof.
  unfold templateNodes. destruct (wp_Graph p) as [g|]; [|done]. cbn [authoredGraph gr_Nodes].
  generalize (∅ : gmap string string). induction (gi_Nodes g) as [|n l IH]; intros m; [done|].
  cbn [foldl map flat_map]. rewrite foldl_app, <- IH. f_equal. unfold namePairs.
  change (gn_ID (authoredNode n)) with (GetString (pn_Id n)). change (gn_Kind (authoredNode n)) with (GetString (pn_Kind n)).
  generalize (nodeNames sha256Hex (GetString (pn_Id n)) (GetString (pn_Kind n))). intros names. revert m.
  induction names as [|x names IHn]; intros m; [done|]. cbn [foldl map]. apply IHn.
Qed.
Lemma addNames_lookup pairs name id : NoDup (map fst pairs) →
  foldl addName ∅ pairs !! name = Some id ↔ (name, id) ∈ pairs.
Proof.
  induction pairs as [|[k v] pairs IH] using rev_ind; intros Hnd; [cbn; rewrite lookup_empty, elem_of_nil; naive_solver|].
  rewrite map_app in Hnd. apply NoDup_app in Hnd as (Hnd & Hdis & _). rewrite foldl_snoc, elem_of_snoc. unfold addName at 1. cbn [fst snd].
  destruct (decide (k = name)) as [<-|Hne].
  - rewrite lookup_insert_eq. split; [intros [= <-]; by right|]. intros [Hin|[= <-]]; [|done].
    exfalso. apply (Hdis k); [by apply (list_elem_of_fmap_2 fst _ (k, id))|left].
  - rewrite lookup_insert_ne, IH by done. naive_solver.
Qed.

(** Only the tasks' own templates name a node. *)
Lemma nodeNames_own node : isExecutable node = true →
  gn_Kind node ∈ [NodeKindStart; NodeKindStep; NodeKindMap; NodeKindDecision; NodeKindSelect; NodeKindEnd] →
  nodeNames sha256Hex (gn_ID node) (gn_Kind node) = ownNames sha256Hex node.
Proof.
  unfold isExecutable, isKind, ownNames, templateName, isKind, nodeNames. rewrite !elem_of_cons, elem_of_nil.
  intros He [E|[E|[E|[E|[E|[E|[]]]]]]]; rewrite E in *; try done; reflexivity.
Qed.
Lemma nodeNames_sentinel node : isExecutable node = false → nodeNames sha256Hex (gn_ID node) (gn_Kind node) = [].
Proof.
  unfold isExecutable, isKind. intros [E%negb_false_iff%bool_decide_eq_true|E%negb_false_iff%bool_decide_eq_true]%andb_false_iff;
    rewrite E; reflexivity.
Qed.

Lemma flat_map_submseteq {A B C} (R : A → B → Prop) (f : A → list C) (g : B → list C) l k :
  (∀ x y, R x y → f x ⊆+ g y) → Forall2 R l k → flat_map f l ⊆+ flat_map g k.
Proof. intros HR. induction 1; cbn; [done|]. apply submseteq_app; auto. Qed.

Lemma map_flat_map {A B C} (f : B → C) (g : A → list B) l : map f (flat_map g l) = flat_map (λ x, map f (g x)) l.
Proof. induction l as [|x l IH]; [done|]. cbn [flat_map]. by rewrite map_app, IH. Qed.
Lemma nodeNames_executable nodes :
  (∀ n, n ∈ nodes → gn_Kind n ∈ [NodeKindStart; NodeKindStep; NodeKindMap; NodeKindDecision; NodeKindSelect; NodeKindEnd]) →
  map fst (flat_map namePairs nodes) = flat_map (ownNames sha256Hex) (List.filter isExecutable nodes).
Proof.
  induction nodes as [|n nodes IH]; intros Hk; [done|]. cbn [flat_map List.filter]. rewrite map_app, namePairs_fst.
  rewrite IH by (intros; apply Hk; by right). destruct (isExecutable n) eqn:E.
  - rewrite nodeNames_own; [done|done|]. apply Hk. left.
  - by rewrite nodeNames_sentinel.
Qed.

Lemma templateNodes_lookup p target workflowName sourceArgs tasks templates name id :
  let g := authoredGraph (wp_Graph p) in
  staticGraph g → lowerGraph N sha256Hex p target workflowName sourceArgs = Ok (tasks, templates) →
  templateNodes sha256Hex p !! name = Some id ↔ ∃ node, node ∈ executableNodes g ∧ gn_ID node = id ∧ name ∈ ownNames sha256Hex node.
Proof.
  intros g V H. apply (lowerGraph_Ok _ _ _ _ _ _ _ _ (sg_ids _ V)) in H as [(l & parts & hooks & result & Hg & Hn & _ & _ & _ & _ & Hparts & _ & Hts & _) Hnd].
  assert (∀ n, n ∈ gr_Nodes g → gn_Kind n ∈ [NodeKindStart; NodeKindStep; NodeKindMap; NodeKindDecision; NodeKindSelect; NodeKindEnd]) as Hk.
  { intros n Hin. by apply (sg_kinds _ V). }
  rewrite templateNodes_pairs, addNames_lookup.
  - fold g. rewrite list_elem_of_In, in_flat_map. setoid_rewrite <- list_elem_of_In. unfold namePairs. split.
    + intros (n & Hin & (name' & [= -> ->] & Hname)%list_elem_of_fmap). exists n. rewrite elem_of_executableNodes.
      destruct (isExecutable n) eqn:E; [|by rewrite nodeNames_sentinel, elem_of_nil in Hname].
      rewrite nodeNames_own in Hname by auto. done.
    + intros (n & [Hin E]%elem_of_executableNodes & <- & Hname). exists n. split; [done|].
      apply (list_elem_of_fmap_2 (λ name, (name, gn_ID n))). rewrite nodeNames_own by auto. done.
  - fold g. rewrite nodeNames_executable by done. rewrite Hts in Hnd. cbn [map] in Hnd. apply NoDup_cons in Hnd as [_ Hnd].
    rewrite map_app in Hnd. apply NoDup_app in Hnd as (Hnd & _). assert (flat_map (ownNames sha256Hex) (lw_nodes l) ⊆+ map nameOf (flat_map snd parts)) as Hsub.
    { rewrite map_flat_map. eapply flat_map_submseteq; [|exact Hparts]. intros n x Hx. exact (ld_own _ _ _ _ _ _ Hx). }
    apply submseteq_Permutation in Hsub as [k Hp]. rewrite Hp in Hnd. apply NoDup_app in Hnd as (Hnd & _).
    rewrite Hn, Hg in Hnd. fold g in Hnd. by rewrite (Permutation_flat_map _ (executableNodes_Permutation g)) in Hnd.
Qed.
End Nodes.

Section Status.
Context (N : spec_float → result string) (sha256Hex : string → string).

(** The failure of a task of the main DAG, or of a pod of its map, under the task's own name:
    neither one attempt of a retried task nor an item. *)
Definition boundary (node : GraphNode) (failure : failedNode) : Prop :=
  fd_TemplateName failure ∈ ownNames sha256Hex node ∧ fd_DisplayName failure = argoFieldName sha256Hex (gn_ID node).

(** C10: the exit handler of a lowered plan reports, for a workflow that failed, the node whose
    task has failed first: no failure of a task finished before it, and none of another
    node's task finished just then; when there is no such node, it names none. *)
Theorem ExitStatus_earliest p target workflowName sourceArgs tasks templates status failures text failed :
  let g := authoredGraph (wp_Graph p) in
  staticGraph g → lowerGraph N sha256Hex p target workflowName sourceArgs = Ok (tasks, templates) →
  status ∈ ["Failed"; "Error"] → decodeText failures = Some text → decodeFailed text = Some failed →
  ∃ found, ExitStatus sha256Hex p status failures = Ok ("failed", found) ∧
    ∀ id, found = Some id ↔
      ∃ node failure, node ∈ executableNodes g ∧ gn_ID node = id ∧ failure ∈ failed ∧ boundary node failure ∧
        ∀ node' failure', node' ∈ executableNodes g → failure' ∈ failed → boundary node' failure' →
          notAfter (fd_FinishedAt failure) (fd_FinishedAt failure') ∧
          (fd_FinishedAt failure' = fd_FinishedAt failure → gn_ID node' = id).
Proof.
  intros g V H Hstatus Ht Hf. pose proof (earlier_result sha256Hex (templateNodes sha256Hex p) failed) as Hr.
  assert (∀ failure id, names sha256Hex (templateNodes sha256Hex p) failure id ↔
    ∃ node, node ∈ executableNodes g ∧ gn_ID node = id ∧ boundary node failure) as Hnames.
  { intros failure id. unfold names, boundary. rewrite (templateNodes_lookup N _ _ _ _ _ _ _ _ _ V H). fold g. naive_solver. }
  unfold ExitStatus. rewrite Ht, Hf. destruct (foldl _ _ failed) as [[found first] ambiguous].
  exists (if ambiguous : bool then None else found). split.
  { rewrite !elem_of_cons, elem_of_nil in Hstatus. by destruct Hstatus as [->|[->|[]]]. }
  intros id. rewrite Hr. unfold earliest. setoid_rewrite Hnames. naive_solver.
Qed.
End Status.

Section Items.
Context (validateEvidence : string → result unit).

(** The evidence that the author's code of an item was killed. *)
Definition killedPod (pod : Pod) : Prop :=
  ∃ container termination marker, container ∈ po_ContainerStatuses pod ∧ cs_Name container = "main" ∧
    cs_Terminated container = Some termination ∧ Parse validateEvidence (te_Message termination) = Ok marker ∧
    ph_Fatal marker = false ∧ ph_Phase marker = Author ∧ (te_Reason termination = "OOMKilled" ∨ 0 < te_Signal termination).

Lemma authorDeath_Ok id pod : authorDeath validateEvidence id pod = Ok tt → killedPod pod.
Proof.
  unfold authorDeath. destruct (List.find _ (po_ContainerStatuses pod)) as [container|] eqn:Ef; [|done].
  apply find_some in Ef as [Hin Hm%bool_decide_eq_true]. destruct (cs_Terminated container) as [termination|] eqn:Et; [|done].
  destruct (negb (existsb _ _)); [done|]. destruct (Parse _ _) as [marker|] eqn:Ep; [|done]. destruct (ph_Fatal marker) eqn:Efatal; [done|].
  case_bool_decide as Ea; [|done]. cbn [negb]. destruct (negb _ && _) eqn:Eo; [done|]. intros _.
  exists container, termination, marker. split_and!; try done; [by apply list_elem_of_In|].
  apply andb_false_iff in Eo as [E%negb_false_iff%bool_decide_eq_true|E%Z.leb_gt]; auto.
Qed.

Lemma attemptsOf_Ok nodes id attempts : attemptsOf nodes id = Ok attempts →
  (attempts = 1 ∧ ∀ parent, parent ∈ map snd nodes → sn_Type parent = "Retry" → id ∉ sn_Children parent) ∨
  ∃ parent, parent ∈ map snd nodes ∧ sn_Type parent = "Retry" ∧ terminalPhase (sn_Phase parent) = true ∧
    last (sn_Children parent) = Some id ∧ attempts = Z.of_nat (length (sn_Children parent)).
Proof.
  unfold attemptsOf. destruct (List.find _ _) as [parent|] eqn:Ef.
  - apply find_some in Ef as [Hin [Hr%bool_decide_eq_true _]%andb_prop]. destruct (_ || _) eqn:E; [done|].
    apply orb_false_iff in E as [Hl%negb_false_iff%bool_decide_eq_true Hp%negb_false_iff]. destruct (existsb _ _); [done|].
    intros [= <-]. right. exists parent. split_and!; try done. by apply list_elem_of_In.
  - intros [= <-]. left. split; [done|]. intros parent Hin%list_elem_of_In Hr Hc.
    pose proof (find_none _ _ Ef parent Hin) as H. cbn in H. rewrite !bool_decide_eq_true_2 in H by done. done.
Qed.

Lemma terminalPod_Ok pods id pod : terminalPod pods id = Ok pod →
  filter (λ pod, default "" (po_Annotations pod !! "workflows.argoproj.io/node-id") = id) pods = [pod].
Proof.
  unfold terminalPod. assert (∀ l, List.filter (λ pod, bool_decide (default "" (po_Annotations pod !! "workflows.argoproj.io/node-id") = id)) l =
    filter (λ pod, default "" (po_Annotations pod !! "workflows.argoproj.io/node-id") = id) l) as ->.
  { induction l as [|x l IH]; [done|]. cbn [List.filter]. rewrite filter_cons, IH. by repeat case_bool_decide; repeat case_decide. }
  destruct (filter _ pods) as [|x [|]]; [done| |done]. by intros [= ->].
Qed.

(** C11: an item without an outcome is only reported killed on evidence: the workflow's status
    shows its pod failed, in the last attempt of its retries, exactly one pod claims to be
    that node, it belongs to this workflow and failed by itself, and its main container, in
    the author's phase, was out of memory or ended by a signal. *)
Theorem missingItemFailure_evidence uid nodes pods id failure :
  missingItemFailure validateEvidence uid nodes pods id = Ok failure →
  ∃ node pod attempts,
    failure = NewFailure FailureKilled attempts "runner-killed (signal; Argo author-phase reconciliation)" ∧
    schedulerNodeAt nodes id = Some node ∧ sn_Type node = "Pod" ∧ terminalPhase (sn_Phase node) = true ∧
    ((attempts = 1 ∧ ∀ parent, parent ∈ map snd nodes → sn_Type parent = "Retry" → id ∉ sn_Children parent) ∨
     ∃ parent, parent ∈ map snd nodes ∧ sn_Type parent = "Retry" ∧ terminalPhase (sn_Phase parent) = true ∧
       last (sn_Children parent) = Some id ∧ attempts = Z.of_nat (length (sn_Children parent))) ∧
    filter (λ pod, default "" (po_Annotations pod !! "workflows.argoproj.io/node-id") = id) pods = [pod] ∧
    uid ≠ "" ∧ (∃ owner, owner ∈ po_OwnerReferences pod ∧ ow_Kind owner = "Workflow" ∧ ow_UID owner = uid) ∧
    po_Phase pod = "Failed" ∧ po_Reason pod = "" ∧ killedPod pod.
Proof.
  unfold missingItemFailure. destruct (schedulerNodeAt nodes id) as [node|] eqn:En; [|done]. destruct (_ || _) eqn:E; [done|].
  apply orb_false_iff in E as [Ht%negb_false_iff%bool_decide_eq_true Hp%negb_false_iff]. intros H.
  apply bind_Ok in H as (attempts & Hat%attemptsOf_Ok & H). apply bind_Ok in H as (pod & Hpod%terminalPod_Ok & H).
  destruct (negb _ || _) eqn:E; [done|].
  apply orb_false_iff in E as [(owner & Howner & [Ek%bool_decide_eq_true Eu%bool_decide_eq_true]%andb_prop)%negb_false_iff%existsb_exists
    Huid%bool_decide_eq_false].
  destruct (negb _ || _) eqn:E; [done|].
  apply orb_false_iff in E as [Hphase%negb_false_iff%bool_decide_eq_true Hreason%negb_false_iff%bool_decide_eq_true].
  apply bind_Ok in H as ([] & Hdeath%authorDeath_Ok & [= <-]). exists node, pod, attempts. split_and!; try done.
  exists owner. split_and!; [by apply list_elem_of_In|done..].
Qed.
End Items.
