(* ===== verification/ArgoSample.v ===== *)
(** * A plan on Argo

    A plan with a map that collects failures, a decision, two steps and a select, lowered to
    its tasks and templates: the hypotheses of the target's theorems can hold. *)

From S2P Require Import Prelude Utf16 Text SpecTypes PlanTypes TopoOrder Json Canonical CanonicalForm SourceIdentity Encode Validate MapExec Verify CompileSample Deployment ArgoGraph ArgoNames ArgoPods ArgoTemplate ArgoStatus ArgoSafety ArgoStatusSafety.
From Stdlib Require Import SpecFloat.
#[local] Open Scope Z_scope.

#[local] Instance anyRules : SchemaRules :=
  {| schemaAdmitsObject := λ _, true; arraySchemaItemsExactlyMatch := λ _ _, true;
     MapOutcomeListSchemaMatches := λ _ _, true |}.

Definition planNode (id kind : string) : PlanNode :=
  {| pn_Id := Some id; pn_Kind := Some kind; pn_InputSchema := Some "s"; pn_OutputSchema := Some "s"; pn_SymbolRef := Some "f";
     pn_ContractRef := Some "c"; pn_MergeInputs := []; pn_Selector := None; pn_Cases := []; pn_DecisionRef := None;
     pn_SelectInputs := []; pn_ItemInputSchema := None; pn_ItemOutputSchema := None; pn_MaxConcurrency := None;
     pn_ItemFailures := None |}.
Definition fan : PlanNode :=
  {| pn_Id := Some "fan"; pn_Kind := Some "map"; pn_InputSchema := Some "s"; pn_OutputSchema := Some "s"; pn_SymbolRef := Some "f";
     pn_ContractRef := Some "c"; pn_MergeInputs := []; pn_Selector := None; pn_Cases := []; pn_DecisionRef := None;
     pn_SelectInputs := []; pn_ItemInputSchema := Some "s"; pn_ItemOutputSchema := Some "s"; pn_MaxConcurrency := Some 2;
     pn_ItemFailures := Some "collect" |}.
Definition gate : PlanNode :=
  {| pn_Id := Some "gate"; pn_Kind := Some "decision"; pn_InputSchema := Some "s"; pn_OutputSchema := None; pn_SymbolRef := None;
     pn_ContractRef := None; pn_MergeInputs := []; pn_Selector := Some "kind";
     pn_Cases := [{| pk_Tag := Some "yes"; pk_Schema := Some "s" |}; {| pk_Tag := Some "no"; pk_Schema := Some "s" |}];
     pn_DecisionRef := None; pn_SelectInputs := []; pn_ItemInputSchema := None; pn_ItemOutputSchema := None;
     pn_MaxConcurrency := None; pn_ItemFailures := None |}.
Definition pick : PlanNode :=
  {| pn_Id := Some "pick"; pn_Kind := Some "select"; pn_InputSchema := None; pn_OutputSchema := Some "s"; pn_SymbolRef := None;
     pn_ContractRef := None; pn_MergeInputs := []; pn_Selector := None; pn_Cases := []; pn_DecisionRef := Some "gate";
     pn_SelectInputs := [{| pi_Case := Some "yes"; pi_Source := Some "Left" |}; {| pi_Case := Some "no"; pi_Source := Some "right" |}];
     pn_ItemInputSchema := None; pn_ItemOutputSchema := None; pn_MaxConcurrency := None; pn_ItemFailures := None |}.
Definition planEdge (from to case : string) : PlanEdge :=
  {| pe_From := Some from; pe_To := Some to; pe_Case := if decide (case = "") then None else Some case |}.

Definition branchedPlan : WorkflowPlan :=
  {| wp_SchemaVersion := Some 1; wp_PlanHash := Some "h"; wp_SpecHash := None;
     wp_Graph := Some {| gi_WorkflowName := Some "branched"; gi_InputSchema := Some "s"; gi_OutputSchema := Some "s";
       gi_StartNode := Some "start"; gi_EndNode := Some "end";
       gi_Nodes := [planNode "start" "start"; fan; gate; planNode "Left" "step"; planNode "right" "step"; pick; planNode "end" "end"];
       gi_Edges := [planEdge "start" "fan" ""; planEdge "fan" "gate" ""; planEdge "gate" "Left" "yes"; planEdge "gate" "right" "no";
         planEdge "Left" "pick" ""; planEdge "right" "pick" ""; planEdge "pick" "end" ""];
       gi_IrVersion := Some Current; gi_DeadlineSeconds := None; gi_ExitHook := None |};
     wp_Schemas := [{| se_Hash := Some "s"; se_CanonicalJson := Some "{}" |}]; wp_Symbols := []; wp_SourcePackages := [];
     wp_Environments := [{| er_EnvRef := Some "e"; er_Runtime := Some (RuntimeContainer
       {| ct_Image := Some "img"; ct_Platform := Some "linux/amd64"; ct_Command := []; ct_WorkingDirectory := None |}) |}];
     wp_Contracts := [{| pc_ContractRef := Some "c"; pc_EnvironmentRef := Some "e"; pc_Resources := None;
       pc_Secrets := [{| px_Name := Some "API_KEY"; px_Ref := Some "key" |}]; pc_Network := None;
       pc_Retry := Some {| pt_MaxAttempts := Some 3; pt_DelaySeconds := Some 5; pt_BackoffFactor := Some 2; pt_MaxDelaySeconds := Some 60 |};
       pc_TimeoutSeconds := None |}];
     wp_Targets := []; wp_DatastoreManifests := []; wp_Provenance := None; wp_Hashing := None; wp_SpecHashing := None |}.

Definition argoTarget : Target :=
  {| tg_Kind := "argo"; tg_Namespace := "ml"; tg_ServiceAccountName := "runner"; tg_WorkflowTemplateName := "";
     tg_RuntimeTransport := "embedded-v0"; tg_ArtifactCredentialsSecret := "store";
     tg_SecretBindings := {["key" := {| sk_Name := "vault"; sk_Key := "api" |}]}; tg_Placement := None |}.

Definition checkBranched : result unit :=
  validateStaticGraph (λ m, rev (map_to_list m)) smallNumbers protoText (nodeUnmarshal branchedPlan) pass pass pass pass "{}" branchedPlan.
Example branched_accepted : checkBranched = Ok tt.
Proof. vm_compute. reflexivity. Qed.
Lemma branched_static : staticGraph (authoredGraph (wp_Graph branchedPlan)).
Proof.
  apply (validateStaticGraph_Ok (λ m, rev (map_to_list m)) smallNumbers protoText (nodeUnmarshal branchedPlan) pass pass pass pass "{}"
    branchedPlan); [|exact branched_accepted]. intros m. symmetry. apply Permutation_rev.
Qed.

Definition lowerBranched : result (list Task * list json) :=
  lowerGraph smallNumbers checksumHash branchedPlan argoTarget "branched" ["--bundle-dir"; "/var/run/massive"].

Definition argoTasks : list Task := match lowerBranched with Ok (tasks, _) => tasks | Err _ => [] end.
Definition argoTemplates : list json := match lowerBranched with Ok (_, templates) => templates | Err _ => [] end.
Example branched_lowers : lowerBranched = Ok (argoTasks, argoTemplates) ∧ map tk_name argoTasks =
  ["left-000000000000"; "workflow-entry"; "fan"; "gate"; "pick"; "right"].
Proof. split; vm_compute; reflexivity. Qed.

Lemma validateStaticGraph_valid_witness : staticGraph (authoredGraph (wp_Graph branchedPlan)).
Proof.
  apply (validateStaticGraph_valid (λ m, rev (map_to_list m)) smallNumbers protoText (nodeUnmarshal branchedPlan) pass pass pass pass "{}"
    branchedPlan); [intros m; symmetry; apply Permutation_rev|exact branched_accepted].
Defined.

Lemma lowerGraph_closed_witness : NoDup (map nameOf argoTemplates).
Proof.
  apply (lowerGraph_closed smallNumbers checksumHash branchedPlan argoTarget "branched" ["--bundle-dir"; "/var/run/massive"]
    argoTasks argoTemplates branched_static (proj1 branched_lowers)).
Defined.


Lemma runtimePodTemplate_secrets_witness :
  match runtimePodTemplate smallNumbers "step-right" "right" (head (wp_Environments branchedPlan))
    {| pc_ContractRef := Some "c"; pc_EnvironmentRef := Some "e"; pc_Resources := None;
       pc_Secrets := [{| px_Name := Some "API_KEY"; px_Ref := Some "key" |}]; pc_Network := None; pc_Retry := None;
       pc_TimeoutSeconds := None |} (Some argoTarget) emptyPlacement ["input"] [] with
  | Ok t => NoDup (map nameOf (variablesOf t))
  | Err _ => False
  end.
Proof.
  match goal with |- match ?m with _ => _ end => assert (isOk m = true) as H by (vm_compute; reflexivity); destruct m as [t|] eqn:E; [|discriminate H] end.
  destruct (runtimePodTemplate_secrets smallNumbers checksumHash _ _ _ _ _ _ _ _ _ E) as (secrets & _ & _ & Hnd). exact Hnd.
Defined.

(** The attempt of the step on the right that failed first is no task's end; its task ended
    after the map. *)
Definition reportedFailures : string := quoted
  "[{'templateName':'step-right','displayName':'right(0)','finishedAt':'2025-01-01T00:00:01Z'},
    {'templateName':'step-right','displayName':'right','finishedAt':'2025-01-01T00:00:09Z'},
    {'templateName':'map-fan','displayName':'fan','finishedAt':'2025-01-01T00:00:03Z'},
    {'templateName':'main','displayName':'branched','finishedAt':'2025-01-01T00:00:02Z'}]".
Definition failuresText : string := marshalString reportedFailures.
Lemma ExitStatus_earliest_witness : ExitStatus checksumHash branchedPlan "Failed" failuresText = Ok ("failed", Some "fan") ∧
  ∃ failure failed, decodeFailed reportedFailures = Some failed ∧ failure ∈ failed ∧ fd_DisplayName failure = "fan".
Proof.
  assert (ExitStatus checksumHash branchedPlan "Failed" failuresText = Ok ("failed", Some "fan")) as E by (vm_compute; reflexivity).
  split; [exact E|]. destruct (decodeFailed reportedFailures) as [failed|] eqn:Ef; [|vm_compute in Ef; discriminate Ef].
  destruct (ExitStatus_earliest smallNumbers checksumHash branchedPlan argoTarget "branched" ["--bundle-dir"; "/var/run/massive"]
    argoTasks argoTemplates "Failed" failuresText reportedFailures failed branched_static (proj1 branched_lowers))
    as (found & E' & H).
  - left.
  - vm_compute. reflexivity.
  - exact Ef.
  - rewrite E in E'. injection E' as <-. destruct (proj1 (H "fan") eq_refl) as (node & failure & _ & Hid & Hin & [_ Hd] & _).
    exists failure, failed. split; [reflexivity|]. split; [exact Hin|]. rewrite Hd, Hid. vm_compute. reflexivity.
Defined.

(** The second attempt of an item ran out of memory. *)
Definition diedPod : Pod :=
  {| po_Annotations := {["workflows.argoproj.io/node-id" := "branched-2"]};
     po_OwnerReferences := [{| ow_Kind := "Workflow"; ow_UID := "uid-1" |}];
     po_Containers := [{| cn_Name := "main"; cn_TerminationMessagePolicy := "File" |}];
     po_Phase := "Failed"; po_Reason := "";
     po_ContainerStatuses := [{| cs_Name := "wait"; cs_Terminated := None |};
       {| cs_Name := "main"; cs_Terminated := Some {| te_Message := quoted "{'phase':'author'}"; te_Reason := "OOMKilled"; te_Signal := 0 |} |}] |}.
Definition podNode (phase : string) : itemSchedulerNode := {| sn_Type := "Pod"; sn_Phase := phase; sn_Children := [] |}.
Definition schedulerNodes : list (string * itemSchedulerNode) :=
  [("branched-1", podNode "Failed"); ("branched-2", podNode "Failed");
   ("branched-0", {| sn_Type := "Retry"; sn_Phase := "Failed"; sn_Children := ["branched-1"; "branched-2"] |})].
Definition diedFailure : Failure := NewFailure FailureKilled 2 "runner-killed (signal; Argo author-phase reconciliation)".
Lemma missingItemFailure_evidence_witness :
  missingItemFailure (λ _, Ok tt) "uid-1" schedulerNodes [diedPod] "branched-2" = Ok diedFailure ∧ killedPod (λ _, Ok tt) diedPod.
Proof.
  assert (missingItemFailure (λ _, Ok tt) "uid-1" schedulerNodes [diedPod] "branched-2" = Ok diedFailure) as E by (vm_compute; reflexivity).
  split; [exact E|]. destruct (missingItemFailure_evidence (λ _, Ok tt) "uid-1" schedulerNodes [diedPod] "branched-2" diedFailure E)
    as (node & pod & attempts & _ & _ & _ & _ & _ & Hpods & _ & _ & _ & _ & Hkilled).
  assert (pod = diedPod) as <-; [|exact Hkilled]. vm_compute in Hpods. injection Hpods as <-. vm_compute. reflexivity.
Defined.
