(* ===== verification/ValueParam.v ===== *)
(** * Value parameters

    [internal/valueparam/valueparam.go]: how canonical JSON values travel through the
    parameters of a target's scheduler.  A small value travels inline, a larger one as a
    reference to its body in the shared store; the items and results of a map travel in
    indexed envelopes.  A store that is nil is [None].

    The check of a reference against [conformance/schema/value-reference.schema.json] is a
    third-party package's: it is a parameter, and so is the check of a failure record. *)

From S2P Require Import Prelude Utf16 Text Json Canonical CanonicalText JsonRaw Encode SourceIdentity Datastore MapExec.
From Stdlib Require Import Ascii SpecFloat.
#[local] Open Scope Z_scope.

Definition InlineLimit : Z := 4096.
Definition ItemInlineLimit : Z := 100.
Definition MaxValueBytes : Z := 256 * 1024 * 1024.
Definition ContentType : string := "application/json".
Definition maxEnvelopeBytes : Z := 128.
Definition argoParameterBudget : Z := 96 * 1024.
Definition MaxMapItems : Z := argoParameterBudget / (2 * (maxEnvelopeBytes + 16)).

Definition ErrContract : error := ErrNew "value parameter contract violation".
Definition contractError (format : string) (args : list errArg) : error :=
  Errorf ("%w: " +:+ format) (AWrap ErrContract :: args).

(** [len(s)] *)
Definition lenOf (s : string) : Z := Z.of_nat (String.length s).

(** [len(parameter) > 0 && parameter[0] == referencePrefix], with [parameter[1:]]. *)
Definition cutReference (parameter : string) : option string :=
  match parameter with
  | String c rest => if byteOf c =? ch "@" then Some rest else None
  | EmptyString => None
  end.

Record Ref := { vr_Hash : string; vr_Size : Z }.
Record Value := { vl_Body : string; vl_Ref : option Ref }.
#[global] Instance Ref_eq_dec : EqDecision Ref.
Proof. solve_decision. Defined.
#[global] Instance Value_eq_dec : EqDecision Value.
Proof. solve_decision. Defined.

(** What [json.Marshal] writes of a [Ref] and of a [Failure]. *)
Definition valueRefTree (ref : Ref) : json := JObj [("hash", JStr (vr_Hash ref)); ("size", JNum (itoa (vr_Size ref)))].
Definition failureTree (f : Failure) : json :=
  JObj [("attempts", JNum (itoa (fl_Attempts f))); ("diagnostic", JStr (fl_Diagnostic f)); ("kind", JStr (fl_Kind f))].

(** [json.Unmarshal] into a [Ref]; the schema admits no other member names. *)
Definition decodeRef (body : string) : option Ref :=
  match unmarshal body with
  | Some (JObj ms) =>
      hash ← stringField "hash" ms; size ← intField "size" ms; Some {| vr_Hash := hash; vr_Size := size |}
  | Some JNull => Some {| vr_Hash := ""; vr_Size := 0 |}
  | _ => None
  end.

(** [datastore.BlobKeySHA256Hex(strings.TrimPrefix(hash, "sha256:"))] *)
Definition blobKey (hash : string) : result Key :=
  BlobKeySHA256Hex
    match stripPrefix (bytesOf "sha256:") (bytesOf hash) with Some digest => ofBytes digest | None => hash end.

(** ** Envelopes *)
Record envelope := {
  en_Index : option Z;
  en_Value : option string;
  en_Ref : option string;
  en_ListRef : option string;
  en_Empty : bool;
  en_Failure : option string;
  en_FailureRef : option string;
  en_Fatal : bool;
  en_Lost : string;
}.
#[global] Instance envelope_eq_dec : EqDecision envelope.
Proof. solve_decision. Defined.
Definition zeroEnvelope : envelope :=
  {| en_Index := None; en_Value := None; en_Ref := None; en_ListRef := None; en_Empty := false;
     en_Failure := None; en_FailureRef := None; en_Fatal := false; en_Lost := "" |}.

Definition present {A} (o : option A) : bool := match o with Some _ => true | None => false end.

Definition outcome (fields : envelope) : bool :=
  present (en_Failure fields) || present (en_FailureRef fields) || en_Fatal fields ||
  negb (bool_decide (en_Lost fields = "")).

(** One member of the object, by the type of its field: null leaves a bool or a string as
    it was and is a value for a raw message. *)
Definition intPointer (raw : string) : option (option Z) :=
  match unmarshal raw with
  | Some JNull => Some None
  | Some (JNum token) => Some <$> decodeInt token
  | _ => None
  end.
Definition boolOr (old : bool) (raw : string) : option bool :=
  match unmarshal raw with Some JNull => Some old | Some (JBool b) => Some b | _ => None end.
Definition stringOr (old raw : string) : option string :=
  match unmarshal raw with Some JNull => Some old | Some (JStr s) => Some s | _ => None end.

Definition setField (e : envelope) (kv : string * string) : option envelope :=
  let '(name, raw) := kv in
  let '{| en_Index := index; en_Value := value; en_Ref := ref; en_ListRef := listRef; en_Empty := empty;
          en_Failure := failure; en_FailureRef := failureRef; en_Fatal := fatal; en_Lost := lost |} := e in
  if isField "index" name then
    i ← intPointer raw; Some (Build_envelope i value ref listRef empty failure failureRef fatal lost)
  else if isField "value" name then Some (Build_envelope index (Some raw) ref listRef empty failure failureRef fatal lost)
  else if isField "ref" name then Some (Build_envelope index value (Some raw) listRef empty failure failureRef fatal lost)
  else if isField "listRef" name then Some (Build_envelope index value ref (Some raw) empty failure failureRef fatal lost)
  else if isField "empty" name then
    b ← boolOr empty raw; Some (Build_envelope index value ref listRef b failure failureRef fatal lost)
  else if isField "failure" name then Some (Build_envelope index value ref listRef empty (Some raw) failureRef fatal lost)
  else if isField "failureRef" name then Some (Build_envelope index value ref listRef empty failure (Some raw) fatal lost)
  else if isField "fatal" name then
    b ← boolOr fatal raw; Some (Build_envelope index value ref listRef empty failure failureRef b lost)
  else if isField "lost" name then
    s ← stringOr lost raw; Some (Build_envelope index value ref listRef empty failure failureRef fatal s)
  else None.

Fixpoint setFields (e : envelope) (ms : list (string * string)) : option envelope :=
  match ms with [] => Some e | kv :: ms' => e' ← setField e kv; setFields e' ms' end.

Definition decodeEnvelope (body : string) : option envelope :=
  ms ← unmarshalRawMembers body; setFields zeroEnvelope ms.

(** [*fields.Index] *)
Definition indexOf (fields : envelope) : result Z :=
  match en_Index fields with
  | Some i => Ok i
  | None => Err (PanicError "invalid memory address or nil pointer dereference")
  end.

Definition badJson : error := ErrNew "json: invalid JSON".
Definition FatalItemEnvelope : string := quoted "{'fatal':true}".

Section ValueParam.
Context (NumberToJSON : spec_float → result string) (sha256Hex : string → string).
Context (validateReferenceSchema validateFailureSchema : string → result unit).
Context {S : Type} `{Datastore S} `{!Opener S}.
#[local] Abbreviation CanonicalizeJSON := (Canonical.CanonicalizeJSON NumberToJSON).
#[local] Abbreviation Marshal := (Encode.Marshal NumberToJSON).
#[local] Abbreviation isCanonical := (MapExec.isCanonical NumberToJSON).
#[local] Abbreviation ParseFailure := (MapExec.ParseFailure NumberToJSON validateFailureSchema).

Definition requireCanonical (body : string) : result unit :=
  if isCanonical body then Ok tt else Err (contractError "value must be canonical JSON" []).

Definition refFor (body : string) : Ref := {| vr_Hash := DigestBytes sha256Hex body; vr_Size := lenOf body |}.

Definition refParameter (ref : Ref) : result string :=
  match Marshal (valueRefTree ref) with
  | Ok body => Ok ("@" +:+ body)
  | Err e => Err (PanicError (errorText e))
  end.

Definition parseRef (body : string) (inlineLimit : Z) : result Ref :=
  match requireCanonical body with
  | Err _ => Err (contractError "value reference must be canonical JSON" [])
  | Ok _ =>
      match validateReferenceSchema body with
      | Err e => Err (contractError "invalid value reference: %v" [AErr e])
      | Ok _ =>
          match decodeRef body with
          | None => Err badJson
          | Some ref =>
              if vr_Size ref <=? inlineLimit then
                Err (contractError "a %d-byte value must be inline, not a reference" [AInt (vr_Size ref)])
              else Ok ref
          end
      end
  end.

(** ** Bodies in the store *)
Definition publish (store : option S) (body : string) : result Ref * option S :=
  match store with
  | None => (Err (ErrNew "a value above the inline limit requires the shared datastore"), store)
  | Some s =>
      if MaxValueBytes <? lenOf body then
        (Err (contractError "value is %d bytes, above the %d-byte limit" [AInt (lenOf body); AInt MaxValueBytes]), store)
      else
        let ref := refFor body in
        match blobKey (vr_Hash ref) with
        | Err e => (Err e, store)
        | Ok key =>
            match Put key body {| po_ContentType := ContentType; po_IfAbsent := true |} s with
            | (Ok _, s') => (Ok ref, Some s')
            | (Err e, s') =>
                (if isErr e ErrAlreadyExists then Ok ref
                 else Err (Errorf "publish referenced value %s: %w" [AStr (vr_Hash ref); AWrap e]), Some s')
            end
        end
  end.

Definition resolve (store : option S) (ref : Ref) : result string :=
  match store with
  | None => Err (ErrNew "a referenced value requires the shared datastore")
  | Some s =>
      key ← blobKey (vr_Hash ref);
      '(reader, info) ← wrapErr "read referenced value %s: %w" [AStr (vr_Hash ref)] (Open key s);
      if negb (bool_decide (oi_ContentType info = ContentType)) || negb (oi_Size info =? vr_Size ref) then
        Err (contractError "referenced value %s is %d bytes of %s, not %d bytes of %s"
          [AStr (vr_Hash ref); AInt (oi_Size info); AStr (oi_ContentType info); AInt (vr_Size ref); AStr ContentType])
      else
        body ← wrapErr "read referenced value %s: %w" [AStr (vr_Hash ref)] (readAllLimited (vr_Size ref + 1) reader);
        if negb (lenOf body =? vr_Size ref) || negb (bool_decide (DigestBytes sha256Hex body = vr_Hash ref)) then
          Err (contractError "referenced value %s does not match its hash or size" [AStr (vr_Hash ref)])
        else
          _ ← wrapErr "referenced value %s: %w" [AStr (vr_Hash ref)] (requireCanonical body);
          Ok body
  end.

(** ** Standalone values *)

(** The parameter text that forwards a value. *)
Definition Value_Parameter (value : Value) : result string :=
  match vl_Ref value with Some ref => refParameter ref | None => Ok (vl_Body value) end.

Definition DecodeEntry (parameter : string) : result Value :=
  match cutReference parameter with
  | Some _ => Err (contractError "workflow inputs must be inline JSON, not value references" [])
  | None =>
      match CanonicalizeJSON parameter with
      | Ok body => Ok {| vl_Body := body; vl_Ref := None |}
      | Err e => Err (contractError "workflow input is not JSON: %v" [AErr e])
      end
  end.

Definition Encode (store : option S) (body : string) : result string * option S :=
  match requireCanonical body with
  | Err e => (Err e, store)
  | Ok _ =>
      if lenOf body <=? InlineLimit then (Ok body, store)
      else
        match publish store body with
        | (Err e, store') => (Err e, store')
        | (Ok ref, store') => (refParameter ref, store')
        end
  end.

Definition EncodePublished (body : string) : result string :=
  _ ← requireCanonical body;
  if lenOf body <=? InlineLimit then Ok body else refParameter (refFor body).

Definition Decode (store : option S) (parameter : string) : result Value :=
  match cutReference parameter with
  | Some rest =>
      ref ← parseRef rest InlineLimit;
      body ← resolve store ref;
      Ok {| vl_Body := body; vl_Ref := Some ref |}
  | None =>
      _ ← requireCanonical parameter;
      if InlineLimit <? lenOf parameter then
        Err (contractError "an inline value of %d bytes must be a reference" [AInt (lenOf parameter)])
      else Ok {| vl_Body := parameter; vl_Ref := None |}
  end.

(** ** Merge inputs *)
Definition mergeSize (total : Z) (x : nat * string) : result Z :=
  match cutReference x.2 with
  | Some rest =>
      ref ← wrapErr "merge input %d: %w" [AInt (Z.of_nat x.1)] (parseRef rest InlineLimit);
      Ok (total + vr_Size ref)
  | None => Ok (total + lenOf x.2)
  end.

Definition DecodeMerge (store : option S) (parameters : list string) : result string :=
  let count := Z.of_nat (length parameters) in
  total ← foldErr mergeSize (count + 1) (indexed parameters);
  if MaxValueBytes <? total then
    Err (contractError "merging %d sources would build a %d-byte input, above the %d-byte value limit"
      [AInt count; AInt total; AInt MaxValueBytes])
  else
    bodies ← mapErr (λ x, value ← wrapErr "merge input %d: %w" [AInt (Z.of_nat x.1)] (Decode store x.2); Ok (vl_Body value))
      (indexed parameters);
    Ok ("[" +:+ joinStrings "," bodies +:+ "]").

(** ** Map items *)
Definition parseEnvelope (body : string) : result envelope :=
  match CanonicalizeJSON body with
  | Err e => Err (contractError "map envelope must be JSON: %v" [AErr e])
  | Ok canonicalBody =>
      match decodeEnvelope canonicalBody with
      | None => Err (contractError "decode map envelope: %v" [AErr badJson])
      | Some fields =>
          let lost := negb (bool_decide (en_Lost fields = "")) in
          if en_Empty fields || lost || en_Fatal fields then
            let flags := (if en_Empty fields then 1 else 0) + (if lost then 1 else 0) + (if en_Fatal fields then 1 else 0) in
            if negb (flags =? 1) || present (en_Index fields) || present (en_Value fields) || present (en_Ref fields) ||
               present (en_ListRef fields) || present (en_Failure fields) || present (en_FailureRef fields) then
              Err (contractError "empty, missing-outcome, and fatal markers must contain only their marker" [])
            else Ok fields
          else if (present (en_Failure fields) || present (en_FailureRef fields)) &&
                  (present (en_Value fields) || present (en_Ref fields) || present (en_ListRef fields)) then
            Err (contractError "map outcome cannot carry both a value and a failure" [])
          else if match en_Index fields with Some i => i <? 0 | None => true end then
            Err (contractError "map envelope needs a nonnegative index" [])
          else Ok fields
      end
  end.

(** [canonical.Marshal] of a map of fields: the encoder writes its keys in order, a raw value
    as it is and a [Ref] by its fields. *)
Definition envelopeText (index : Z) (name raw : string) : result string :=
  CanonicalizeJSON (quoted "{'index':" +:+ itoa index +:+ quoted ",'" +:+ name +:+ quoted "':" +:+ raw +:+ "}").
Definition refText (ref : Ref) : string := printJson (valueRefTree ref).

Definition itemEnvelope (listRef : option Ref) (item : Item) : result string :=
  match listRef with
  | None => envelopeText (it_Index item) "value" (it_Body item)
  | Some ref => envelopeText (it_Index item) "listRef" (refText ref)
  end.

Definition ExpandItems (store : option S) (parameter : string) : result string :=
  input ← Decode store parameter;
  items ← Expand NumberToJSON (vl_Body input);
  let count := Z.of_nat (length items) in
  if MaxMapItems <? count then
    Err (contractError "map has %d items, but Argo can collect at most %d item results in one parameter; split the work into fewer, larger items"
      [AInt count; AInt MaxMapItems])
  else if count =? 0 then Marshal (JArr [JObj [("empty", JBool true)]])
  else
    envelopes ← mapErr (itemEnvelope (vl_Ref input)) items;
    marshalRaw NumberToJSON envelopes.

Definition zeroItem : Item := {| it_Index := 0; it_Body := "" |}.

(** [None] reports the empty marker. *)
Definition DecodeItem (store : option S) (body : string) : result (option Item) :=
  fields ← parseEnvelope body;
  if en_Empty fields then Ok None
  else if present (en_Ref fields) || outcome fields ||
          Bool.eqb (present (en_Value fields)) (present (en_ListRef fields)) then
    Err (contractError "map item must contain an index and exactly one of value or listRef" [])
  else
    match en_Value fields, en_ListRef fields with
    | Some raw, _ =>
        match CanonicalizeJSON raw with
        | Err e => Err (contractError "map item value: %v" [AErr e])
        | Ok value => index ← indexOf fields; Ok (Some {| it_Index := index; it_Body := value |})
        end
    | None, raw =>
        ref ← parseRef (default "" raw) InlineLimit;
        list ← resolve store ref;
        items ← Expand NumberToJSON list;
        index ← indexOf fields;
        if Z.of_nat (length items) <=? index then
          Err (contractError "map item index %d is outside its %d-item list" [AInt index; AInt (Z.of_nat (length items))])
        else
          match items !! Z.to_nat index with
          | Some item => Ok (Some item)
          | None => Err (PanicError "index out of range")
          end
    end.

(** ** Map results *)
Definition EncodePublishedItemResult (index : Z) (body : string) : result string :=
  if index <? 0 then Err (Errorf "map result index %d must be nonnegative" [AInt index])
  else
    _ ← wrapErr "map item %d output: %w" [AInt index] (requireCanonical body);
    if ItemInlineLimit <? lenOf body then envelopeText index "ref" (refText (refFor body))
    else envelopeText index "value" body.

(** The encoder writes the members of this map in the order [failure], [index]. *)
Definition EncodeItemFailure (store : option S) (index : Z) (failure : Failure) : result string * option S :=
  if index <? 0 then (Err (Errorf "map failure index %d must be nonnegative" [AInt index]), store)
  else
    match Marshal (failureTree failure) with
    | Err e => (Err e, store)
    | Ok body =>
        if lenOf body <=? ItemInlineLimit then
          (CanonicalizeJSON (quoted "{'failure':" +:+ body +:+ quoted ",'index':" +:+ itoa index +:+ "}"), store)
        else
          match publish store body with
          | (Err e, store') => (Err e, store')
          | (Ok ref, store') =>
              (CanonicalizeJSON (quoted "{'failureRef':" +:+ refText ref +:+ quoted ",'index':" +:+ itoa index +:+ "}"), store')
          end
    end.

Definition inlineOrReferenced (store : option S) (position : Z) (inline referenced : option string) : result string :=
  match inline, referenced with
  | Some raw, None =>
      let invalid := contractError "map result %d must be canonical JSON of at most %d bytes inline"
        [AInt position; AInt ItemInlineLimit] in
      match CanonicalizeJSON raw with
      | Err _ => Err invalid
      | Ok body => if ItemInlineLimit <? lenOf body then Err invalid else Ok body
      end
  | None, Some raw =>
      ref ← wrapErr "map result %d: %w" [AInt position] (parseRef raw ItemInlineLimit);
      resolve store ref
  | _, _ =>
      Err (contractError "map result %d must carry its body exactly once, inline or by reference" [AInt position])
  end.

Definition itemValue (store : option S) (position : Z) (inline referenced : option string) : result string :=
  if Bool.eqb (present inline) (present referenced) then
    Err (contractError "map result %d must contain an index and exactly one of value or ref" [AInt position])
  else inlineOrReferenced store position inline referenced.

(** One element of the aggregate: a raw object, or the string form of one. *)
Definition aggregateElement (x : nat * string) : result envelope :=
  let position := AInt (Z.of_nat x.1) in
  body ← match bytesOf x.2 with
    | b :: _ =>
        if b =? 34 then
          match unmarshal x.2 with
          | Some (JStr encoded) => Ok encoded
          | _ => Err (contractError "decode Argo map result %d string: %v" [position; AErr badJson])
          end
        else Ok x.2
    | [] => Ok x.2
    end;
  fields ← wrapErr "map result %d: %w" [position] (parseEnvelope body);
  if negb (en_Empty fields) && present (en_ListRef fields) then
    Err (contractError "map result %d carries an item list reference" [position])
  else Ok fields.

(** The envelopes that are not the empty marker, and whether the marker stands alone. *)
Definition aggregateEnvelopes (aggregate : string) : result (list envelope * bool) :=
  match unmarshalRawItems aggregate with
  | None => Err (contractError "decode Argo map results: %v" [AErr badJson])
  | Some values =>
      elements ← mapErr aggregateElement (indexed values);
      let envelopes := List.filter (λ e, negb (en_Empty e)) elements in
      let emptyMarkers := (length elements - length envelopes)%nat in
      if (0 <? emptyMarkers)%nat && (negb (emptyMarkers =? 1)%nat || negb (length values =? 1)%nat) then
        Err (contractError "empty-map marker cannot be combined with map results" [])
      else Ok (envelopes, (emptyMarkers =? 1)%nat)
  end.

Definition collectedResult (store : option S) (x : nat * envelope) : result Result :=
  let '(position, fields) := x in
  if outcome fields then
    Err (contractError "map result %d is an item outcome, but this map fails on item failures" [AInt (Z.of_nat position)])
  else
    body ← itemValue store (Z.of_nat position) (en_Value fields) (en_Ref fields);
    index ← indexOf fields;
    Ok {| rs_Index := index; rs_Body := body |}.

Definition CollectResults (store : option S) (aggregate : string) : result string * option S :=
  match aggregateEnvelopes aggregate with
  | Err e => (Err e, store)
  | Ok (_, true) => (Ok "[]", store)
  | Ok (envelopes, false) =>
      match results ← mapErr (collectedResult store) (indexed envelopes);
            Collect NumberToJSON (Z.of_nat (length results)) results with
      | Err e => (Err e, store)
      | Ok collected => Encode store collected
      end
  end.

(** ** Map outcomes *)
Definition collectedOutcome (store : option S) (maxAttempts : Z) (missingFailures : gmap string Failure)
    (x : nat * envelope) : result Outcome :=
  let fields := x.2 in
  let position := Z.of_nat x.1 in
  let failed failure := {| oc_Index := position; oc_Value := None; oc_Failure := Some failure |} in
  if en_Fatal fields then
    Err (Errorf "map item %d failed with a runtime, contract, or infrastructure error; see that item's pod log" [AInt position])
  else if negb (bool_decide (en_Lost fields = "")) then
    match missingFailures !! en_Lost fields with
    | None => Err (contractError "map item %d has no terminal scheduler evidence for %q" [AInt position; AStr (en_Lost fields)])
    | Some failure =>
        body ← Marshal (failureTree failure);
        match ParseFailure body maxAttempts with
        | Err e => Err (contractError "map item %d: %v" [AInt position; AErr e])
        | Ok validated => Ok (failed validated)
        end
    end
  else
    index ← indexOf fields;
    if negb (index =? position) then
      Err (contractError "map outcome %d reports item index %d" [AInt position; AInt index])
    else if present (en_Failure fields) || present (en_FailureRef fields) then
      body ← inlineOrReferenced store position (en_Failure fields) (en_FailureRef fields);
      match ParseFailure body maxAttempts with
      | Err e => Err (contractError "map outcome %d: %v" [AInt position; AErr e])
      | Ok failure => Ok (failed failure)
      end
    else
      value ← itemValue store position (en_Value fields) (en_Ref fields);
      Ok {| oc_Index := position; oc_Value := Some value; oc_Failure := None |}.

Definition CollectOutcomes (store : option S) (aggregate : string) (maxAttempts : Z)
    (missingFailures : gmap string Failure) : result string * option S :=
  if maxAttempts <? 1 then (Err (contractError "maxAttempts %d must be positive" [AInt maxAttempts]), store)
  else
    match aggregateEnvelopes aggregate with
    | Err e => (Err e, store)
    | Ok (_, true) => (Ok "[]", store)
    | Ok (envelopes, false) =>
        match outcomes ← mapErr (collectedOutcome store maxAttempts missingFailures) (indexed envelopes);
              MapExec.CollectOutcomes NumberToJSON (Z.of_nat (length outcomes)) outcomes with
        | Err e => (Err e, store)
        | Ok collected => Encode store collected
        end
    end.

(** The scheduler identities to reconcile: none when an envelope is fatal. *)
Definition MissingOutcomeNodes (aggregate : string) : result (list string) :=
  '(envelopes, _) ← aggregateEnvelopes aggregate;
  if existsb en_Fatal envelopes then Ok []
  else Ok (List.filter (λ s, negb (bool_decide (s = ""))) (map en_Lost envelopes)).
End ValueParam.
