(* ===== verification/ValueText.v ===== *)
(** * The texts of value parameters

    Lemmas on the texts that [ValueParam] writes: which trees canonicalization keeps, that a
    decimal numeral is determined by its value, and that a reference has one spelling. *)

From S2P Require Import Prelude Utf16 Text Json Canonical CanonicalText CanonicalForm JsonRaw Encode SourceIdentity Datastore MapExec ValueParam.
From Stdlib Require Import Ascii SpecFloat.
#[local] Open Scope Z_scope.

(** ** Parsing does not depend on the depth it starts at *)
Lemma parseMembers_mono strict value value' n seen l r :
  (∀ l r, value l = Some r → value' l = Some r) →
  parseMembers strict value n seen l = Some r → parseMembers strict value' n seen l = Some r.
Proof.
  intros Hv. revert seen l r; induction n as [|n IH]; intros seen l r; [done|]. cbn [parseMembers].
  destruct (skipWs l) as [|b l0]; [done|]. destruct (negb (b =? 34)); [done|].
  apply bind_Some_mono; [done|]. intros [name l1] r1.
  destruct (strict && _); [done|]. destruct (skipWs l1) as [|c l2]; [done|].
  destruct (negb (c =? ch ":")); [done|]. apply bind_Some_mono; [apply Hv|]. intros [v l3] r2.
  destruct (skipWs l3) as [|d l4]; [done|]. destruct (d =? ch ","); [|done].
  apply bind_Some_mono; [by apply IH|done].
Qed.

Lemma parseValue_shallow strict fuel d d' l r : d' <= d <= maxNestingDepth →
  parseValue strict fuel d l = Some r → parseValue strict fuel d' l = Some r.
Proof.
  revert d d' l r; induction fuel as [|fuel IH]; intros d d' l r Hd; [done|]. cbn [parseValue].
  destruct (skipWs l) as [|b l1]; [done|]. destruct (b =? ch "{").
  { destruct (Z.eqb_spec d maxNestingDepth) as [|Hne]; [done|].
    replace (d' =? maxNestingDepth) with false by lia. destruct (skipWs l1) as [|c l2]; [done|].
    destruct (c =? ch "}"); [done|]. apply bind_Some_mono; [|done].
    intros a. apply parseMembers_mono. intros ??. apply IH. lia. }
  destruct (b =? ch "["); [|done]. destruct (Z.eqb_spec d maxNestingDepth) as [|Hne]; [done|].
  replace (d' =? maxNestingDepth) with false by lia. destruct (skipWs l1) as [|c l2]; [done|].
  destruct (c =? ch "]"); [done|]. apply bind_Some_mono; [|done].
  intros a. apply parseItems_mono. intros ??. apply IH. lia.
Qed.

(** A printed tree that the strict reader accepts is as shallow as it asks. *)
Lemma readValue_printed d t r : d <= 0 → wellFormed d t →
  readValue true (printJson t) = Some r → r = (t, []) ∧ wellFormed 0 t.
Proof.
  intros Hd Hwf H. destruct r as [t' rest]. unfold readValue in H.
  assert (parseValue true (S (String.length (printJson t))) d (bytesOf (printJson t)) = Some (t, [])) as Hp.
  { unfold printJson. rewrite bytesOf_ofBytes by apply printBytes_ranged.
    pose proof (parse_print t d (S (String.length (ofBytes (printBytes t)))) []) as H1.
    rewrite app_nil_r in H1. apply H1; [done| |done].
    rewrite <- length_bytesOf, bytesOf_ofBytes by apply printBytes_ranged. lia. }
  pose proof (parseValue_shallow _ _ 0 d _ _ ltac:(unfold maxNestingDepth; lia) H) as H'.
  rewrite Hp in H'. injection H' as <- <-. split; [done|].
  apply (readValue_sound (printJson t) t []). exact H.
Qed.

(** ** Trees that canonicalization keeps *)
Section Fixed.
Context (NumberToJSON : spec_float → result string).
Context (number_token : number_token_law NumberToJSON) (number_reads : number_reads_law NumberToJSON).
#[local] Abbreviation CanonicalizeJSON := (Canonical.CanonicalizeJSON NumberToJSON).
#[local] Abbreviation canonicalTree := (MapExec.canonicalTree NumberToJSON).

(** If the tree has a canonical form, it is its own. *)
Definition fixedTree (t : json) : Prop :=
  ∀ v t', decodeNumbers NumberToJSON t = Ok v → canonTree NumberToJSON v = Ok t' → t' = t.

Lemma canonical_fixed t : canonicalTree t → fixedTree t.
Proof. intros (v & Hd & Hc) v' t' Hd' Hc'. congruence. Qed.

Lemma string_fixed s : fixedTree (JStr s).
Proof. intros v t' [= <-]. cbn. by intros [= <-]. Qed.

Lemma bool_fixed b : fixedTree (JBool b).
Proof. intros v t' [= <-]. cbn. by intros [= <-]. Qed.

Lemma integer_fixed z : fixedTree (JNum (itoa z)).
Proof.
  intros v t' Hd Hc. cbn [decodeNumbers] in Hd.
  apply fmap_Ok in Hd as (d & Hd%decodeNumber_integer & ->). cbn in Hc. rewrite Hd in Hc. by injection Hc as <-.
Qed.

Lemma array_fixed ts : Forall fixedTree ts → fixedTree (JArr ts).
Proof.
  intros HF v t' Hd Hc. cbn [decodeNumbers] in Hd. apply fmap_Ok in Hd as (vs & Hd%mapErr_Ok & ->).
  cbn [canonTree] in Hc. apply fmap_Ok in Hc as (ts' & Hc%mapErr_Ok & ->). unfold compose. f_equal.
  revert ts' Hc. induction Hd as [|t v ts vs Htv _ IH]; intros ts' Hc; inversion Hc as [|? t' ? ts'' Ht Hts]; subst; [done|].
  apply Forall_cons in HF as [Hf HF]. f_equal; [by eapply Hf|by apply IH].
Qed.

Lemma object_fixed ms : NoDup ms.*1 → validKeys ms → StronglySorted keyLe ms →
  Forall (λ kv, fixedTree kv.2) ms → fixedTree (JObj ms).
Proof.
  intros Hnd Hv Hs HF v t' Hd Hc. cbn [decodeNumbers] in Hd. apply fmap_Ok in Hd as (vs & Hd%mapMembers_Ok & ->).
  cbn [canonTree] in Hc. apply fmap_Ok in Hc as (ms' & Hc%mapMembers_Ok & ->). unfold compose. f_equal.
  assert (ms' = ms) as ->; [|symmetry; by apply sortMembers_unique].
  clear Hnd Hv Hs. revert ms' Hc.
  induction Hd as [|kv kv' ms vs [Ek Htv] _ IH]; intros ms' Hc; inversion Hc as [|? kt ? ms'' [Ek' Ht] Hts]; subst; [done|].
  apply Forall_cons in HF as [Hf HF]. f_equal; [|by apply IH].
  destruct kt as [k t], kv as [k' t']. cbn in *. f_equal; [congruence|by eapply Hf].
Qed.

(** Canonicalizing the text of such a tree gives the text back. *)
Lemma fixed_canonicalize d t out : d <= 0 → wellFormed d t → fixedTree t → CanonicalizeJSON (printJson t) = Ok out →
  out = printJson t ∧ wellFormed 0 t ∧ canonicalTree t.
Proof.
  intros Hd Hwf Hf H. unfold Canonical.CanonicalizeJSON in H. apply bind_Ok in H as (v & Hv & Hw).
  pose proof Hv as Hv'. unfold decodeJSON in Hv. destruct (readValue true (printJson t)) as [[t1 rest]|] eqn:Er; [|done].
  destruct (readValue_printed _ _ _ Hd Hwf Er) as [[= -> ->] Hwf0]. cbn [skipWs] in Hv.
  apply decodeJSON_ok in Hv'. apply (write_canonTree NumberToJSON 0) in Hw as (t' & Ht & ->); [|done].
  assert (t' = t) as -> by (by eapply Hf). split; [done|]. split; [done|]. by exists v.
Qed.

Lemma canonical_object ms : canonicalTree (JObj ms) → NoDup ms.*1 → validKeys ms → ms = sortMembers ms.
Proof.
  intros (v & Hd & Hc) Hnd Hv. cbn [decodeNumbers] in Hd. apply fmap_Ok in Hd as (vs & Hd%mapMembers_Ok & ->).
  cbn [canonTree] in Hc. apply fmap_Ok in Hc as (ms' & Hc%mapMembers_Ok & E). injection E as E.
  apply sortMembers_unique; [done|done|done|]. rewrite E. apply sortMembers_sorted.
Qed.

Lemma wellFormed_keys d ms : wellFormed d (JObj ms) → NoDup ms.*1 ∧ validKeys ms.
Proof.
  intros (_ & Hnd & Hwf)%wellFormed_JObj. split; [done|]. unfold validKeys, allValid. apply Forall_fmap.
  eapply Forall_impl; [exact Hwf|]. by intros [k t] [Hk _].
Qed.

End Fixed.

(** ** Plain text and decimal numbers *)
Definition plainAscii (b : Z) : Prop := 32 <= b < 128 ∧ b ≠ 34 ∧ b ≠ 92.

Lemma encode_ascii r : 0 <= r < 128 → encodeRune r = [r].
Proof.
  intros H. unfold encodeRune, isScalar, inRange.
  replace ((0 <=? r) && (r <=? 0xD7FF) || (0xE000 <=? r) && (r <=? 0x10FFFF)) with true by lia.
  by replace (r <? 0x80) with true by lia.
Qed.

Lemma plain_text s : Forall plainAscii (bytesOf s) →
  runes s = bytesOf s ∧ validUtf8 s = true ∧ quoteBytes s = 34 :: bytesOf s ++ [34].
Proof.
  intros Hp.
  assert (∀ f, (∀ r, plainAscii r → f r = [r]) → bytesOf s ≫= f = bytesOf s) as Hb.
  { intros f Hf. revert Hp. generalize (bytesOf s). induction 1 as [|b l Hb _ IH]; [done|].
    cbn [mbind list_bind]. rewrite Hf by done. cbn [app]. f_equal. exact IH. }
  assert (ofRunes (bytesOf s) = s) as Er.
  { unfold ofRunes. rewrite Hb; [apply ofBytes_bytesOf|]. intros r Hr. apply encode_ascii. unfold plainAscii in Hr. lia. }
  assert (runes s = bytesOf s) as E.
  { rewrite <- Er at 1. apply runes_ofRunes. eapply Forall_impl; [exact Hp|]. intros r Hr. unfold plainAscii in Hr.
    unfold isScalar, inRange. lia. }
  split; [done|]. split.
  - unfold validUtf8. by rewrite E, Er, bool_decide_eq_true.
  - unfold quoteBytes. rewrite E. do 2 f_equal. apply Hb. intros r (Hr & H1 & H2). unfold quoteRune.
    rewrite encode_ascii by lia. repeat (case_match; [lia|]). done.
Qed.

Lemma isHexLower_range b : isHexLower b = true → 48 <= b <= 57 ∨ 97 <= b <= 102.
Proof. unfold isHexLower, isDigit, inRange. lia. Qed.

Lemma sha256_plain h : IsSHA256Ref h = true →
  Forall plainAscii (bytesOf h) ∧ length (bytesOf h) = 71%nat.
Proof.
  unfold IsSHA256Ref. destruct (stripPrefix _ (bytesOf h)) as [digest|] eqn:E; [|done].
  intros [Hl%Z.eqb_eq Hx%Is_true_eq_left%forallb_True]%andb_prop. apply stripPrefix_Some in E. rewrite E. split.
  - apply Forall_app. split; [by repeat constructor|]. apply Forall_forall. intros b Hb.
    rewrite Forall_forall in Hx. specialize (Hx b Hb). apply Is_true_true, isHexLower_range in Hx.
    unfold plainAscii. lia.
  - rewrite length_app. cbn. lia.
Qed.

Lemma sha256_quote h : IsSHA256Ref h = true → validUtf8 h = true ∧ length (quoteBytes h) = 73%nat.
Proof.
  intros [Hp Hl]%sha256_plain. apply plain_text in Hp as (_ & Hv & Hq). split; [done|].
  rewrite Hq. cbn [length]. rewrite length_app. cbn. lia.
Qed.

(** A decimal numeral is determined by its value. *)
Lemma digitsValue_bounds ds : plainDigits ds → ds ≠ [48] →
  10 ^ (Z.of_nat (length ds) - 1) <= digitsValue ds < 10 ^ Z.of_nat (length ds).
Proof.
  induction ds as [|b ds IH] using rev_ind; intros [Hd Hh] Hne; [done|].
  apply Forall_app in Hd as [Hds Hb%Forall_inv%isDigit_range]. rewrite digitsValue_snoc, length_app. cbn [length].
  destruct ds as [|c ds].
  - cbn in Hh. assert (b ≠ 48) by (by intros ->). unfold digitsValue. cbn. lia.
  - assert (c ≠ 48) as Hc. { intros ->. cbn in Hh. specialize (Hh eq_refl). by destruct ds. }
    destruct IH as [H1 H2]; [by split|by intros [= ->]|].
    replace (Z.of_nat (length (c :: ds) + 1)) with (Z.succ (Z.of_nat (length (c :: ds)))) by lia.
    rewrite Z.pow_succ_r by lia. cbn [length] in *.
    replace (Z.succ (Z.of_nat (S (length ds))) - 1) with (Z.succ (Z.of_nat (S (length ds)) - 1)) by lia.
    rewrite Z.pow_succ_r by lia. lia.
Qed.

Lemma digitsValue_inj a b : Forall (λ x, isDigit x = true) a → Forall (λ x, isDigit x = true) b →
  length a = length b → digitsValue a = digitsValue b → a = b.
Proof.
  revert b; induction a as [|x a IH] using rev_ind; intros b Ha Hb Hl Hv; [by destruct b|].
  destruct b as [|y b _] using rev_ind; [rewrite length_app in Hl; cbn in Hl; lia|].
  apply Forall_app in Ha as [Ha Hx%Forall_inv%isDigit_range], Hb as [Hb Hy%Forall_inv%isDigit_range].
  rewrite !length_app in Hl. cbn in Hl. rewrite !digitsValue_snoc in Hv.
  rewrite (IH b); [|done|done|lia|lia]. do 2 f_equal. lia.
Qed.

Lemma plainDigits_inj a b : plainDigits a → plainDigits b → digitsValue a = digitsValue b → a = b.
Proof.
  intros Ha Hb Hv.
  assert (∀ l, plainDigits l → digitsValue l = 0 → l = [48]) as H0.
  { intros l Hl E. destruct (decide (l = [48])); [done|]. pose proof (digitsValue_bounds l Hl n) as [H _].
    pose proof (Z.pow_pos_nonneg 10 (Z.of_nat (length l) - 1) ltac:(lia)) as Hp. destruct l; [by destruct Hl|].
    cbn [length] in *. lia. }
  destruct (decide (a = [48])) as [->|Hna]; [symmetry; by apply H0|].
  destruct (decide (b = [48])) as [->|Hnb]; [by apply H0|].
  pose proof (digitsValue_bounds a Ha Hna) as [A1 A2]. pose proof (digitsValue_bounds b Hb Hnb) as [B1 B2].
  apply digitsValue_inj; [apply Ha|apply Hb| |done].
  assert (∀ n m : nat, 10 ^ (Z.of_nat n - 1) < 10 ^ Z.of_nat m → (n ≤ m)%nat) as Hpow.
  { intros n m H. destruct (decide (n ≤ m)%nat); [done|].
    pose proof (Z.pow_le_mono_r 10 (Z.of_nat m) (Z.of_nat n - 1) ltac:(lia) ltac:(lia)). lia. }
  apply Nat.le_antisymm; apply Hpow; lia.
Qed.

(** An integer literal of a positive number is the numeral of its value. *)
Lemma decodeInt_positive token n : numberToken (bytesOf token) → decodeInt token = Some n → 1 <= n → token = itoa n.
Proof.
  intros [Hs _] Hd Hn. destruct (itoa_bytes n) as (ds & Hds & Hv & E). replace (n <? 0) with false in E by lia.
  rewrite Z.abs_eq in Hv by lia. rewrite <- (ofBytes_bytesOf token), <- (ofBytes_bytesOf (itoa n)), E. f_equal.
  unfold decodeInt in Hd. destruct (bytesOf token) as [|b l]; [done|].
  assert (∀ l' : list Z, digits l' = (l', []) → plainDigits l' → digitsValue l' = n → l' = ds) as Heq.
  { intros l' _ Hl Hvl. apply plainDigits_inj; [done|done|by rewrite Hv]. }
  assert (∀ sign l' d rest, digits l' = (d, rest) →
    match d, rest with _ :: _, [] => let z := sign * digitsValue d in
      if (- 2 ^ 63 <=? z) && (z <? 2 ^ 63) then Some z else None | _, _ => None end = Some n →
    sign * digitsValue l' = n ∧ Forall (λ x, isDigit x = true) l' ∧ l' ≠ []) as Hdig.
  { intros sign l' d rest Ed Hm. apply digits_spec in Ed as [-> Hall]. destruct d as [|x d], rest; try done.
    rewrite app_nil_r. cbn zeta in Hm. destruct (_ && _); [|done]. by injection Hm. }
  destruct (b =? 45).
  - destruct (digits l) as [d rest] eqn:Ed. destruct (Hdig (-1) l d rest Ed) as (Hz & Hall & _).
    { destruct d, rest; done. }
    assert (0 <= digitsValue l); [|lia]. clear -Hall. induction l as [|x l IH] using rev_ind; [done|].
    apply Forall_app in Hall as [Hall Hx%Forall_inv%isDigit_range]. rewrite digitsValue_snoc.
    specialize (IH Hall). lia.
  - destruct (digits (b :: l)) as [d rest] eqn:Ed. destruct (Hdig 1 (b :: l) d rest Ed) as (Hz & Hall & _).
    { destruct d, rest; done. }
    apply Heq; [by apply digits_only| |lia]. split; [done|]. intros ->.
    unfold scanNumber in Hs. change (48 =? ch "-") with false in Hs. cbn iota beta in Hs.
    unfold scanInt in Hs. change (48 =? ch "0") with true in Hs. cbn [mbind option_bind] in Hs.
    destruct l as [|c l]; [done|exfalso]. apply Forall_cons in Hall as [_ [Hc _]%Forall_cons].
    apply isDigit_range in Hc. unfold scanFrac in Hs. replace (c =? ch ".") with false in Hs
      by (change (ch ".") with 46; lia). cbn [mbind option_bind] in Hs. unfold scanExp in Hs.
    replace ((c =? ch "e") || (c =? ch "E")) with false in Hs
      by (change (ch "e") with 101; change (ch "E") with 69; lia). cbn in Hs. by injection Hs.
Qed.

(** ** References *)

(** [conformance/schema/value-reference.schema.json].  A size that is no integer literal is
    left to the decoder, which refuses it. *)
Definition refSchema (t : json) : bool :=
  match t with
  | JObj ms =>
      forallb (λ kv, bool_decide (kv.1 = "hash") || bool_decide (kv.1 = "size")) ms &&
      match member "hash" ms with Some (JStr h) => IsSHA256Ref h | _ => false end &&
      match member "size" ms with
      | Some (JNum token) =>
          match decodeInt token with Some n => (1 <=? n) && (n <=? MaxValueBytes) | None => true end
      | _ => false
      end
  | _ => false
  end.

Definition validRef (ref : Ref) : Prop := IsSHA256Ref (vr_Hash ref) = true ∧ 1 <= vr_Size ref <= MaxValueBytes.

(** What the schema package promises of that schema. *)
Class ReferenceSchemaLaws (validateReferenceSchema : string → result unit) : Prop := {
  reference_sound : ∀ body t, unmarshal body = Some t → validateReferenceSchema body = Ok tt → refSchema t = true;
  reference_complete : ∀ ref, validRef ref → validateReferenceSchema (refText ref) = Ok tt;
}.

Lemma two_members (h s : json) ms : NoDup ms.*1 → validKeys ms → ms = sortMembers ms →
  (∀ kv, kv ∈ ms → kv.1 = "hash" ∨ kv.1 = "size") → member "hash" ms = Some h → member "size" ms = Some s →
  ms = [("hash", h); ("size", s)].
Proof.
  intros Hnd Hv Hs Hk Hh Hsz. rewrite Hs. symmetry.
  assert (StronglySorted keyLe [("hash", h); ("size", s)]) as Hso.
  { apply StronglySorted_keyLe. apply (bool_decide_unpack _). vm_compute. exact I. }
  apply sortMembers_unique; [done|done| |done].
  apply NoDup_Permutation; [|by eapply NoDup_fmap_1|].
  - apply NoDup_cons. split; [|apply NoDup_singleton]. by intros [= ]%list_elem_of_singleton.
  - intros [k v]. rewrite !elem_of_cons, <- (member_Some k ms v Hnd). split.
    + by intros [[= -> ->]|[[= -> ->]|?%elem_of_nil]].
    + intros Hm. destruct (Hk (k, v)) as [E|E]; [by apply member_Some| |]; cbn in E; subst k.
      * left. congruence.
      * right; left. congruence.
Qed.

Section References.
Context (NumberToJSON : spec_float → result string) (sha256Hex : string → string).
Context (number_token : number_token_law NumberToJSON) (number_reads : number_reads_law NumberToJSON).
Context (Hhex : ∀ s, IsSHA256Ref (DigestBytes sha256Hex s) = true).
Context (validateReferenceSchema : string → result unit) `{!ReferenceSchemaLaws validateReferenceSchema}.
#[local] Abbreviation CanonicalizeJSON := (Canonical.CanonicalizeJSON NumberToJSON).
#[local] Abbreviation canonicalTree := (MapExec.canonicalTree NumberToJSON).
#[local] Abbreviation fixedTree := (fixedTree NumberToJSON).
#[local] Abbreviation parseRef := (ValueParam.parseRef NumberToJSON validateReferenceSchema).

Lemma refTree_wellFormed d ref : d < maxNestingDepth → validUtf8 (vr_Hash ref) = true → wellFormed d (valueRefTree ref).
Proof.
  intros Hd Hh. apply wellFormed_JObj. split; [done|]. split.
  - apply (bool_decide_unpack _). vm_compute. exact I.
  - constructor; [by split|]. constructor; [|constructor]. split; [done|apply itoa_numberToken].
Qed.

Lemma refTree_fixed ref : fixedTree (valueRefTree ref).
Proof.
  apply object_fixed.
  - apply (bool_decide_unpack _). vm_compute. exact I.
  - unfold validKeys, allValid. apply (bool_decide_unpack _). vm_compute. exact I.
  - apply StronglySorted_keyLe. apply (bool_decide_unpack _). vm_compute. exact I.
  - constructor; [apply string_fixed|]. constructor; [apply integer_fixed|constructor].
Qed.

(** The parameter of a reference, when the encoder succeeds. *)
Lemma refParameter_text ref p : refParameter NumberToJSON ref = Ok p →
  p = "@" +:+ refText ref ∧ canonicalTree (valueRefTree ref) ∧ wellFormed 0 (valueRefTree ref).
Proof.
  unfold refParameter. destruct (Marshal NumberToJSON (valueRefTree ref)) as [body|] eqn:E; [|done]. intros [= <-].
  unfold Marshal in E. destruct (validStrings _) eqn:Hv; [|done]. cbn in Hv.
  assert (validUtf8 (vr_Hash ref) = true) as Hh by (by destruct (validUtf8 (vr_Hash ref))).
  destruct (fixed_canonicalize NumberToJSON 0 (valueRefTree ref) body) as (-> & Hwf & Hc);
    [lia|by apply refTree_wellFormed|apply refTree_fixed|done|]. done.
Qed.

Lemma refParameter_canonical ref : wellFormed 0 (valueRefTree ref) → canonicalTree (valueRefTree ref) →
  refParameter NumberToJSON ref = Ok ("@" +:+ refText ref).
Proof.
  intros Hwf Hc. unfold refParameter, Marshal. pose proof Hwf as Hwf'. apply wellFormed_JObj in Hwf' as (_ & _ & Hs).
  apply Forall_cons in Hs as [[_ Hh] _]. cbn in Hh. cbn [valueRefTree validStrings forallb fst snd]. rewrite Hh.
  cbn [validUtf8 andb]. change (validUtf8 "hash") with true. change (validUtf8 "size") with true. cbn [andb].
  change (JObj _) with (valueRefTree ref). by rewrite canonicalTree_Ok.
Qed.

(** A reference is accepted in one spelling only. *)
Lemma parseRef_inv text limit ref : parseRef text limit = Ok ref →
  text = refText ref ∧ validRef ref ∧ limit < vr_Size ref ∧ canonicalTree (valueRefTree ref) ∧
  wellFormed 0 (valueRefTree ref).
Proof.
  unfold ValueParam.parseRef, requireCanonical. destruct (isCanonical NumberToJSON text) eqn:Ec; [|done].
  destruct (validateReferenceSchema text) as [[]|] eqn:Ev; [|done].
  destruct (decodeRef text) as [r|] eqn:Ed; [|done]. destruct (Z.leb_spec (vr_Size r) limit) as [|Hlim]; [done|].
  intros [= <-]. apply (isCanonical_inv NumberToJSON number_token number_reads) in Ec as (t & -> & Hwf & Hc).
  pose proof (unmarshal_print t Hwf) as Hu. pose proof (reference_sound _ _ Hu Ev) as Hs. unfold refSchema in Hs. destruct t as [| | | | |ms]; try done.
  apply andb_prop in Hs as [[Hk Hh]%andb_prop Hsz].
  destruct (member "hash" ms) as [[| | |h| |]|] eqn:Eh; try done.
  destruct (member "size" ms) as [[| |token| | |]|] eqn:Es; try done.
  destruct (wellFormed_keys 0 ms Hwf) as [Hnd Hvk].
  pose proof (canonical_object NumberToJSON ms Hc Hnd Hvk) as Hsort.
  apply (two_members (JStr h) (JNum token)) in Hsort; [|done|done| |done|done].
  2:{ intros kv Hin. apply Is_true_eq_left, forallb_True in Hk. rewrite Forall_forall in Hk. specialize (Hk kv Hin).
      apply Is_true_true, orb_prop in Hk as [?%bool_decide_eq_true|?%bool_decide_eq_true]; auto. }
  unfold decodeRef, stringField, intField in Ed. rewrite Hu, Eh, Es in Ed. cbn [mbind option_bind] in Ed.
  destruct (decodeInt token) as [n|] eqn:En; [|done]. injection Ed as <-. cbn in Hlim.
  apply wellFormed_JObj in Hwf as Hwf'. destruct Hwf' as (_ & _ & HF). rewrite Hsort in HF.
  apply Forall_cons in HF as [_ [[_ Ht] _]%Forall_cons]. cbn in Ht.
  assert (token = itoa n) as -> by (apply decodeInt_positive; [done|done|lia]).
  subst ms. split_and!; [done| |done|done|done]. split; cbn; [done|lia].
Qed.

Lemma parseRef_canonical ref limit : validRef ref → limit < vr_Size ref → wellFormed 0 (valueRefTree ref) →
  canonicalTree (valueRefTree ref) → parseRef (refText ref) limit = Ok ref.
Proof.
  intros Hr Hlim Hwf Hc. unfold ValueParam.parseRef, requireCanonical, refText.
  rewrite canonicalTree_isCanonical by done. change (printJson (valueRefTree ref)) with (refText ref).
  rewrite reference_complete by done. unfold decodeRef.
  unfold refText. rewrite unmarshal_print by done.
  unfold valueRefTree at 1. unfold stringField, intField. cbn [member].
  change (bool_decide ("size" = "hash")) with false. change (bool_decide ("hash" = "hash")) with true.
  change (bool_decide ("size" = "size")) with true. cbn iota. cbn [mbind option_bind].
  rewrite decodeInt_itoa by (destruct Hr; unfold MaxValueBytes in *; lia). cbn [mbind option_bind].
  destruct ref as [h n]. cbn in *. by replace (n <=? limit) with false by lia.
Qed.

Lemma refFor_valid body : 1 <= lenOf body <= MaxValueBytes → validRef (refFor sha256Hex body).
Proof. intros H. split; [apply Hhex|done]. Qed.
End References.
