(* ===== verification/ValueEnvelopes.v ===== *)
(** * Values, envelopes and their bodies

    The lemmas behind [ValueParamSafety]: what decoding, publishing and resolving a value
    do, what the envelope of an item or a result decodes to, and how long it is. *)

From S2P Require Import Prelude Utf16 Text Json Canonical CanonicalText CanonicalForm JsonRaw Encode SourceIdentity Datastore MapExec ValueParam ValueText.
From Stdlib Require Import Ascii SpecFloat.
#[local] Open Scope Z_scope.

(** ** Standalone values *)
Section Values.
Context (NumberToJSON : spec_float → result string) (sha256Hex : string → string).
Context (number_token : number_token_law NumberToJSON) (number_reads : number_reads_law NumberToJSON).
Context (Hhex : ∀ s, IsSHA256Ref (DigestBytes sha256Hex s) = true).
Context (validateReferenceSchema : string → result unit) `{!ReferenceSchemaLaws validateReferenceSchema}.
Context {S : Type} `{Datastore S} `{!Opener S}.
#[local] Abbreviation resolve := (ValueParam.resolve NumberToJSON sha256Hex).
#[local] Abbreviation Decode := (ValueParam.Decode NumberToJSON sha256Hex validateReferenceSchema).
#[local] Abbreviation isCanonical := (MapExec.isCanonical NumberToJSON).

Lemma requireCanonical_Ok body u : requireCanonical NumberToJSON body = Ok u ↔ isCanonical body = true.
Proof. unfold requireCanonical. destruct u. by destruct (isCanonical body). Qed.

(** Whatever the store returns, a resolved body is the one its reference names. *)
Lemma resolve_inv (store : option S) ref body : resolve store ref = Ok body →
  ref = refFor sha256Hex body ∧ isCanonical body = true.
Proof.
  unfold ValueParam.resolve. destruct store as [s|]; [|done]. intros (key & _ & H1)%bind_Ok.
  apply bind_Ok in H1 as ([reader info] & _ & H1). destruct (_ || _); [done|].
  apply bind_Ok in H1 as (b & _ & H1).
  destruct (Z.eqb_spec (lenOf b) (vr_Size ref)) as [Hl|]; [|done].
  destruct (bool_decide_reflect (DigestBytes sha256Hex b = vr_Hash ref)) as [Hd|]; [|done]. cbn [negb orb] in H1.
  apply bind_Ok in H1 as (u & Hc & [= <-]). apply wrapErr_Ok, requireCanonical_Ok in Hc. split; [|done].
  destruct ref as [h n]. unfold refFor. cbn in *. congruence.
Qed.

Lemma cutReference_inv p rest : cutReference p = Some rest → p = "@" +:+ rest.
Proof.
  destruct p as [|c p]; cbn; [done|]. destruct (Z.eqb_spec (byteOf c) (ch "@")) as [E|]; [|done]. intros [= <-].
  cbn. f_equal. rewrite <- (charOf_byteOf c), E. reflexivity.
Qed.

Lemma Decode_spells (store : option S) p v : Decode store p = Ok v →
  Value_Parameter NumberToJSON v = Ok p ∧ EncodePublished NumberToJSON sha256Hex (vl_Body v) = Ok p ∧
  lenOf (vl_Body v) <= MaxValueBytes.
Proof.
  unfold ValueParam.Decode. destruct (cutReference p) as [rest|] eqn:Ep.
  - apply cutReference_inv in Ep as ->. intros (ref & Hp & Hr)%bind_Ok. apply bind_Ok in Hr as (body & Hr & [= <-]).
    apply parseRef_inv in Hp as (-> & [_ Hsz] & Hlim & Hc & Hwf); [|done..].
    apply resolve_inv in Hr as [-> Hb]. unfold Value_Parameter, EncodePublished. cbn [vl_Ref vl_Body].
    cbn in Hlim, Hsz. rewrite (proj2 (requireCanonical_Ok body tt)) by done. cbn [mbind result_bind].
    replace (lenOf body <=? InlineLimit) with false by lia. split_and!; [by apply refParameter_canonical..|lia].
  - intros (u & Hc & Hv)%bind_Ok. destruct (Z.ltb_spec InlineLimit (lenOf p)); [done|]. injection Hv as <-.
    unfold Value_Parameter, EncodePublished. cbn [vl_Ref vl_Body]. rewrite Hc. cbn [mbind result_bind].
    replace (lenOf p <=? InlineLimit) with true by lia. unfold InlineLimit, MaxValueBytes in *. split_and!; [done|done|lia].
Qed.

Lemma cutReference_canonical body : isCanonical body = true → cutReference body = None.
Proof.
  intros (t & -> & Hwf & _)%isCanonical_inv; [|done..]. unfold printJson.
  assert (∃ b l, printBytes t = b :: l ∧ 0 <= b < 256 ∧ b ≠ 64) as (b & l & -> & Hb & Hne).
  { destruct t as [|[]|token|s|items|ms]; try (by eexists _, _; split; [reflexivity|]).
    destruct (numberToken_head _ Hwf) as (b & l & E & Hb). exists b, l. split; [done|].
    destruct Hb as [Hb%isDigit_range| ->]; [lia|done]. }
  cbn [ofBytes cutReference]. rewrite byteOf_charOf by done. change (ch "@") with 64.
  by replace (b =? 64) with false by lia.
Qed.
End Values.

(** ** Publishing and resolving *)
Section Stored.
Context (NumberToJSON : spec_float → result string) (sha256Hex : string → string).
Context (number_token : number_token_law NumberToJSON) (number_reads : number_reads_law NumberToJSON).
Context (Hhex : ∀ s, IsSHA256Ref (DigestBytes sha256Hex s) = true).
Context (validateReferenceSchema : string → result unit) `{!ReferenceSchemaLaws validateReferenceSchema}.
Context {S : Type} `{OpenerLaws S}.
#[local] Abbreviation resolve := (ValueParam.resolve NumberToJSON sha256Hex).
#[local] Abbreviation Decode := (ValueParam.Decode NumberToJSON sha256Hex validateReferenceSchema).
#[local] Abbreviation isCanonical := (MapExec.isCanonical NumberToJSON).

(** The store holds the body where its reference says. *)
Definition holds (s : S) (body : string) : Prop :=
  ∃ key, blobKey (DigestBytes sha256Hex body) = Ok key ∧ view s !! key = Some (ContentType, body).
(** Nothing else is stored there. *)
Definition unspoiled (s : S) (body : string) : Prop :=
  ∀ key object, blobKey (DigestBytes sha256Hex body) = Ok key → view s !! key = Some object → object = (ContentType, body).

Lemma resolve_holds s body : serving s → holds s body → isCanonical body = true →
  resolve (Some s) (refFor sha256Hex body) = Ok body.
Proof.
  intros Hs (key & Hk & Hv) Hc. unfold ValueParam.resolve. cbn [refFor vr_Hash vr_Size]. rewrite Hk.
  cbn [mbind result_bind]. rewrite (open_serving key s ContentType body) by done. cbn [wrapErr mbind result_bind objectInfo
    oi_ContentType oi_Size]. rewrite bool_decide_eq_true_2 by done. fold (lenOf body). rewrite Z.eqb_refl.
  cbn [negb orb]. unfold readAllLimited. cbn [rd_Bytes rd_Err]. fold (lenOf body).
  replace (lenOf body + 1 <=? lenOf body) with false by lia. cbn [wrapErr mbind result_bind].
  rewrite Z.eqb_refl, bool_decide_eq_true_2 by done. cbn [negb orb].
  by rewrite (proj2 (requireCanonical_Ok NumberToJSON body tt)).
Qed.

Lemma publish_holds s body ref store' : publish sha256Hex (Some s) body = (Ok ref, store') → unspoiled s body →
  ref = refFor sha256Hex body ∧ lenOf body <= MaxValueBytes ∧ ∃ s', store' = Some s' ∧ holds s' body.
Proof.
  unfold publish. intros Hp Hu. destruct (Z.ltb_spec MaxValueBytes (lenOf body)); [done|]. cbn [refFor vr_Hash] in Hp.
  destruct (blobKey (DigestBytes sha256Hex body)) as [key|] eqn:Hk; [|done].
  destruct (Put _ _ _ _) as [[info|e] s'] eqn:E.
  - injection Hp as <- <-. split_and!; [done|done|]. exists s'. split; [done|]. exists key. split; [done|].
    apply put_ok in E as (_ & _ & ->). apply lookup_insert_eq.
  - destruct (isErr e ErrAlreadyExists) eqn:Ee; [|done]. injection Hp as <- <-. split_and!; [done|done|].
    exists s'. split; [done|]. exists key. split; [done|]. pose proof (put_refused _ _ _ _ _ _ E Ee) as [o Ho].
    rewrite (put_absent _ _ _ _ _ _ E); [|done|by eexists]. rewrite Ho. f_equal. by eapply Hu.
Qed.
End Stored.

(** ** Envelopes *)

(** Replace tests of concrete names by their values. *)
Ltac eval_names :=
  repeat match goal with
  | |- context [isField ?a ?b] =>
      let v := eval vm_compute in (isField a b) in
      match v with true => idtac | false => idtac end; change (isField a b) with v; cbn iota
  end.

(** An envelope: an index and one more member. *)
Definition envelopeTree (index : Z) (name : string) (t : json) : json := JObj [("index", JNum (itoa index)); (name, t)].
Definition envelopeName (name : string) : Prop := name = "value" ∨ name = "ref" ∨ name = "listRef".


Lemma envelopeText_print index name t : envelopeName name →
  quoted "{'index':" +:+ itoa index +:+ quoted ",'" +:+ name +:+ quoted "':" +:+ printJson t +:+ "}" =
  printJson (envelopeTree index name t).
Proof.
  intros Hn. unfold printJson, envelopeTree.
  change (printBytes (JObj [("index", JNum (itoa index)); (name, t)])) with
    (123 :: ((quoteBytes "index" ++ 58 :: bytesOf (itoa index)) ++ 44 :: quoteBytes name ++ 58 :: printBytes t) ++ [125]).
  cbn [ofBytes]. rewrite !ofBytes_app. cbn [ofBytes]. rewrite !ofBytes_app. cbn [ofBytes].
  rewrite ofBytes_bytesOf. repeat (rewrite append_assoc; cbn [String.append]).
  by destruct Hn as [->|[->| ->]].
Qed.

Section Envelopes.
Context (NumberToJSON : spec_float → result string).
Context (number_token : number_token_law NumberToJSON) (number_reads : number_reads_law NumberToJSON).
#[local] Abbreviation CanonicalizeJSON := (Canonical.CanonicalizeJSON NumberToJSON).
#[local] Abbreviation canonicalTree := (MapExec.canonicalTree NumberToJSON).
#[local] Abbreviation fixedTree := (fixedTree NumberToJSON).
#[local] Abbreviation parseEnvelope := (ValueParam.parseEnvelope NumberToJSON).

Lemma envelope_keys index name t : envelopeName name →
  NoDup [("index", JNum (itoa index)); (name, t)].*1 ∧ validKeys [("index", JNum (itoa index)); (name, t)] ∧
  StronglySorted keyLe [("index", JNum (itoa index)); (name, t)].
Proof.
  intros Hn. rewrite StronglySorted_keyLe. unfold validKeys, allValid.
  destruct Hn as [->|[->| ->]]; split_and!; apply (bool_decide_unpack _); vm_compute; exact I.
Qed.

Lemma envelope_wellFormed d index name t : envelopeName name → d < maxNestingDepth → wellFormed (d + 1) t →
  wellFormed d (envelopeTree index name t).
Proof.
  intros Hn Hd Ht. destruct (envelope_keys index name t Hn) as (Hnd & Hv & _). apply wellFormed_JObj.
  split_and!; [done|done|]. unfold validKeys, allValid in Hv. cbn in Hv. apply Forall_cons in Hv as [Hi [Hv _]%Forall_cons].
  constructor; [split; [done|apply itoa_numberToken]|]. constructor; [|constructor]. by split.
Qed.

Lemma envelope_fixed index name t : envelopeName name → fixedTree t → fixedTree (envelopeTree index name t).
Proof.
  intros Hn Ht. destruct (envelope_keys index name t Hn) as (Hnd & Hv & Hs). apply object_fixed; [done..|].
  constructor; [apply integer_fixed|]. by constructor.
Qed.

(** An envelope's text is the text of its tree. *)
Lemma envelopeText_inv index name t env : envelopeName name → wellFormed 0 t → fixedTree t →
  envelopeText NumberToJSON index name (printJson t) = Ok env →
  env = printJson (envelopeTree index name t) ∧ wellFormed 0 (envelopeTree index name t) ∧
  canonicalTree (envelopeTree index name t).
Proof.
  intros Hn Hwf Hf H. unfold envelopeText in H. rewrite envelopeText_print in H by done.
  apply (fixed_canonicalize NumberToJSON (-1)) in H; [done|lia| |by apply envelope_fixed].
  by apply envelope_wellFormed.
Qed.

Definition envelopeOf (index : Z) (name raw : string) : envelope :=
  if decide (name = "value") then Build_envelope (Some index) (Some raw) None None false None None false ""
  else if decide (name = "ref") then Build_envelope (Some index) None (Some raw) None false None None false ""
  else Build_envelope (Some index) None None (Some raw) false None None false "".

Lemma parseEnvelope_tree index name t : envelopeName name → 0 <= index < 2 ^ 63 →
  wellFormed 0 (envelopeTree index name t) → canonicalTree (envelopeTree index name t) →
  parseEnvelope (printJson (envelopeTree index name t)) = Ok (envelopeOf index name (printJson t)).
Proof.
  intros Hn Hi Hwf Hc. unfold ValueParam.parseEnvelope. rewrite canonicalTree_Ok by done.
  unfold decodeEnvelope, envelopeTree. rewrite unmarshalRawMembers_print by done.
  assert (intPointer (printJson (JNum (itoa index))) = Some (Some index)) as Hp.
  { unfold intPointer. rewrite unmarshal_print by apply itoa_numberToken. by rewrite decodeInt_itoa by lia. }
  assert (index <? 0 = false) as Hneg by lia.
  destruct Hn as [->|[->| ->]]; cbn [mbind option_bind map rawMember fst snd setFields setField zeroEnvelope];
    eval_names; rewrite Hp; cbn [mbind option_bind setFields setField]; eval_names; cbn -[Z.ltb]; by rewrite Hneg.
Qed.

Lemma parseEnvelope_empty : parseEnvelope (printJson (JObj [("empty", JBool true)])) =
  Ok (Build_envelope None None None None true None None false "").
Proof.
  assert (wellFormed 0 (JObj [("empty", JBool true)])) as Hwf.
  { apply wellFormed_JObj. split_and!; [done|apply NoDup_singleton|]. constructor; [by split|constructor]. }
  unfold ValueParam.parseEnvelope. rewrite canonicalTree_Ok; [|done|].
  2:{ by exists (VObj [("empty", VBool true)]). }
  unfold decodeEnvelope. rewrite unmarshalRawMembers_print by done.
  cbn [mbind option_bind map rawMember fst snd setFields setField zeroEnvelope]. eval_names. done.
Qed.
End Envelopes.

(** ** Maps *)
Section Maps.
Context (NumberToJSON : spec_float → result string) (sha256Hex : string → string).
Context (number_token : number_token_law NumberToJSON) (number_reads : number_reads_law NumberToJSON).
Context (Hhex : ∀ s, IsSHA256Ref (DigestBytes sha256Hex s) = true).
Context (validateReferenceSchema : string → result unit) `{!ReferenceSchemaLaws validateReferenceSchema}.
Context {S : Type} `{Datastore S} `{!Opener S}.
#[local] Abbreviation canonicalTree := (MapExec.canonicalTree NumberToJSON).
#[local] Abbreviation isCanonical := (MapExec.isCanonical NumberToJSON).
#[local] Abbreviation resolve := (ValueParam.resolve NumberToJSON sha256Hex).
#[local] Abbreviation Decode := (ValueParam.Decode NumberToJSON sha256Hex validateReferenceSchema).
#[local] Abbreviation ExpandItems := (ValueParam.ExpandItems NumberToJSON sha256Hex validateReferenceSchema).
#[local] Abbreviation DecodeItem := (ValueParam.DecodeItem NumberToJSON sha256Hex validateReferenceSchema).

(** A canonical array of canonical texts, and its elements. *)
Lemma marshalRaw_trees ts out : Forall (λ t, wellFormed 0 t ∧ canonicalTree t) ts →
  marshalRaw NumberToJSON (map printJson ts) = Ok out →
  out = printJson (JArr ts) ∧ unmarshalRawItems out = Some (map printJson ts).
Proof.
  intros Hts H1. unfold marshalRaw in H1. rewrite marshalRaw_print in H1.
  apply (fixed_canonicalize NumberToJSON (-1)) in H1 as (-> & Hwf & _); [|lia| |].
  - split; [done|]. by apply unmarshalRawItems_print.
  - apply wellFormed_JArr. split; [done|]. eapply Forall_impl; [exact Hts|]. by intros t [? _].
  - apply array_fixed. eapply Forall_impl; [exact Hts|]. intros t [_ ?]. by apply canonical_fixed.
Qed.

Lemma Decode_body (store : option S) p v : Decode store p = Ok v →
  match vl_Ref v with
  | Some ref => resolve store ref = Ok (vl_Body v) ∧ validRef ref ∧ InlineLimit < vr_Size ref ∧
      canonicalTree (valueRefTree ref) ∧ wellFormed 0 (valueRefTree ref)
  | None => True
  end.
Proof.
  unfold ValueParam.Decode. destruct (cutReference p) as [rest|] eqn:Ep.
  - intros (ref & Hp & Hr)%bind_Ok. apply bind_Ok in Hr as (body & Hr & [= <-]). cbn.
    by apply parseRef_inv in Hp as (-> & ? & ? & ? & ?).
  - intros (u & _ & Hv)%bind_Ok. destruct (InlineLimit <? lenOf p); [done|]. by injection Hv as <-.
Qed.

(** The envelope of one item, and what its pod reads from it. *)
Lemma itemEnvelope_inv (store : option S) listRef ts i t env : ts !! i = Some t →
  wellFormed 0 (JArr ts) → canonicalTree (JArr ts) → (Z.of_nat (length ts) <= MaxMapItems) →
  match listRef with
  | Some ref => resolve store ref = Ok (printJson (JArr ts)) ∧ validRef ref ∧ InlineLimit < vr_Size ref ∧
      canonicalTree (valueRefTree ref) ∧ wellFormed 0 (valueRefTree ref)
  | None => True
  end →
  itemEnvelope NumberToJSON listRef {| it_Index := Z.of_nat i; it_Body := printJson t |} = Ok env →
  ∃ e, env = printJson e ∧ wellFormed 0 e ∧ canonicalTree e ∧
    DecodeItem store env = Ok (Some {| it_Index := Z.of_nat i; it_Body := printJson t |}).
Proof.
  intros Hi Hwf Hc Hn Href Henv. pose proof (lookup_lt_Some _ _ _ Hi) as Hlt.
  assert (0 <= Z.of_nat i < 2 ^ 63) as Hr by (change MaxMapItems with 341 in Hn; lia).
  pose proof (proj1 (wellFormed_JArr 0 ts) Hwf) as [_ Hwts]. pose proof (proj1 (canonicalTree_JArr NumberToJSON ts) Hc) as Hcts.
  assert (wellFormed 0 t) as Hwt. { eapply wellFormed_mono; [by apply (proj1 (Forall_lookup _ _) Hwts i)|lia]. }
  assert (canonicalTree t) as Hct by (by apply (proj1 (Forall_lookup _ _) Hcts i)).
  destruct listRef as [ref|]; cbn [itemEnvelope it_Index it_Body] in Henv.
  - destruct Href as (Hres & Hv & Hlim & Hcr & Hwr).
    apply (envelopeText_inv NumberToJSON) in Henv as (-> & Hwe & Hce); [|by right; right|done|by apply canonical_fixed].
    eexists. split_and!; [done..|]. unfold ValueParam.DecodeItem.
    rewrite (parseEnvelope_tree NumberToJSON) by (done || (by right; right)). cbn [mbind result_bind envelopeOf].
    change (envelopeOf (Z.of_nat i) "listRef" ?r) with (Build_envelope (Some (Z.of_nat i)) None None (Some r) false None None false "").
    cbn [en_Empty present en_Ref outcome en_Failure en_FailureRef en_Fatal en_Lost en_Value en_ListRef Bool.eqb orb default from_option].
    rewrite (bool_decide_eq_true_2 ("" = "")) by done. cbn [negb orb]. cbn iota.
    change (id (printJson (valueRefTree ref))) with (refText ref).
    rewrite (parseRef_canonical NumberToJSON) by done. cbn [mbind result_bind]. rewrite Hres. cbn [mbind result_bind].
    rewrite (Expand_print NumberToJSON) by done. cbn [mbind result_bind indexOf en_Index].
    rewrite length_imap. replace (Z.of_nat (length ts) <=? Z.of_nat i) with false by lia.
    rewrite Nat2Z.id, list_lookup_imap, Hi. done.
  - apply (envelopeText_inv NumberToJSON) in Henv as (-> & Hwe & Hce); [|by left|done|by apply canonical_fixed].
    eexists. split_and!; [done..|]. unfold ValueParam.DecodeItem.
    rewrite (parseEnvelope_tree NumberToJSON) by (done || (by left)). cbn [mbind result_bind].
    change (envelopeOf (Z.of_nat i) "value" ?r) with (Build_envelope (Some (Z.of_nat i)) (Some r) None None false None None false "").
    cbn [en_Empty present en_Ref outcome en_Failure en_FailureRef en_Fatal en_Lost en_Value en_ListRef Bool.eqb orb default from_option].
    rewrite (bool_decide_eq_true_2 ("" = "")) by done. cbn [negb orb]. cbn iota.
    rewrite canonicalTree_Ok by done. cbn [mbind result_bind indexOf en_Index]. done.
Qed.

Lemma ExpandItems_decoded (store : option S) p env : ExpandItems store p = Ok env →
  ∃ input items envelopes, Decode store p = Ok input ∧ Expand NumberToJSON (vl_Body input) = Ok items ∧
    unmarshalRawItems env = Some envelopes ∧ Z.of_nat (length envelopes) <= MaxMapItems ∧
    mapErr (DecodeItem store) envelopes = Ok (if decide (items = []) then [None] else map Some items).
Proof.
  unfold ValueParam.ExpandItems. intros (input & Hin & H1)%bind_Ok. apply bind_Ok in H1 as (items & Hit & H1).
  destruct (Z.ltb_spec MaxMapItems (Z.of_nat (length items))) as [|Hn]; [done|].
  exists input, items. pose proof (Expand_inv NumberToJSON number_token number_reads _ _ Hit) as (ts & Eb & Hwf & Hc & Ei).
  pose proof (Decode_body _ _ _ Hin) as Href. rewrite Eb in Href.
  assert (length items = length ts) as El by (by rewrite Ei, length_imap).
  destruct (Z.eqb_spec (Z.of_nat (length items)) 0) as [E0|E0].
  - assert (items = []) as E by (apply length_zero_iff_nil; lia). rewrite decide_True by done.
    set (marker := JObj [("empty", JBool true)]).
    assert (wellFormed 0 marker ∧ canonicalTree marker) as [Hwm Hcm].
    { split; [|by exists (VObj [("empty", VBool true)])].
      apply wellFormed_JObj. split_and!; [done|apply NoDup_singleton|]. constructor; [by split|constructor]. }
    destruct (marshalRaw_trees [marker] env) as [-> Hu]; [by constructor|by rewrite <- H1|].
    exists [printJson marker]. split_and!; [done|done|done|done|]. cbn [mapErr]. unfold ValueParam.DecodeItem.
    by rewrite parseEnvelope_empty.
  - rewrite decide_False by (by intros ->). apply bind_Ok in H1 as (envs & Henvs%mapErr_Ok & Hm).
    assert (∃ es, envs = map printJson es ∧ Forall (λ e, wellFormed 0 e ∧ canonicalTree e) es ∧
      Forall2 (λ e item, DecodeItem store (printJson e) = Ok (Some item)) es items) as (es & -> & Hes & Hdec).
    { assert (∀ i item, items !! i = Some item → ∃ t, ts !! i = Some t ∧ item = {| it_Index := Z.of_nat i; it_Body := printJson t |}) as Hlk.
      { intros i item E. rewrite Ei, list_lookup_imap in E. apply fmap_Some in E as (t & Ht & ->). eauto. }
      assert (Forall2 (λ item env, ∃ e, env = printJson e ∧ wellFormed 0 e ∧ canonicalTree e ∧
        DecodeItem store env = Ok (Some item)) items envs) as HF.
      { apply Forall2_same_length_lookup_2; [by eapply Forall2_length|]. intros i item env1 Hi Henv.
        destruct (Hlk i item Hi) as (t & Ht & ->). eapply itemEnvelope_inv; [done|done|done|lia|exact Href|].
        by apply (Forall2_lookup_lr _ _ _ _ _ _ Henvs Hi). }
      clear -HF. induction HF as [|item env items envs (e & -> & Hw & Hc & Hd) _ (es & -> & Hes & Hdec)];
        [by exists []|]. exists (e :: es). split_and!; [done|by constructor|by constructor]. }
    apply marshalRaw_trees in Hm as [-> Hu]; [|done]. exists (map printJson es).
    pose proof (Forall2_length _ _ _ Hdec). rewrite length_map. split_and!; [done|done|done|lia|].
    apply mapErr_Ok. apply Forall2_fmap_2. exact Hdec.
Qed.
End Maps.

(** ** Collecting results *)

(** An element of the aggregate: an envelope, or the JSON string that holds it. *)
Definition argoForm (raw env : string) : Prop :=
  raw = env ∨ head (bytesOf raw) = Some 34 ∧ unmarshal raw = Some (JStr env).

(** The members of a canonical object are canonical. *)
Lemma canonicalTree_envelope (NumberToJSON : spec_float → result string) index name t : envelopeName name →
  canonicalTree NumberToJSON (envelopeTree index name t) → canonicalTree NumberToJSON t.
Proof.
  intros Hn (v & Hd & Hc). cbn [envelopeTree decodeNumbers] in Hd. apply fmap_Ok in Hd as (vs & Hd%mapMembers_Ok & ->).
  inversion Hd as [|? [k1 v1] ? ? [Ek1 H1] Hd']; subst. inversion Hd' as [|? [k2 v2] ? ? [Ek2 H2] Hd'']; subst.
  inversion Hd''; subst. cbn in Ek1, Ek2, H1, H2. subst k1 k2. cbn [canonTree] in Hc.
  apply fmap_Ok in Hc as (ts & Hc%mapMembers_Ok & E). injection E as E.
  inversion Hc as [|? [k1 t1] ? ? [Ek1 H1'] Hc']; subst. inversion Hc' as [|? [k2 t2] ? ? [Ek2 H2'] Hc'']; subst.
  inversion Hc''; subst. cbn in Ek1, Ek2, H1', H2'. subst k1 k2. exists v2. split; [done|].
  assert ((name, t) ∈ [("index", t1); (name, t2)]) as Hin.
  { rewrite <- (sortMembers_Permutation [("index", t1); (name, t2)]), <- E. right; left. }
  apply elem_of_cons in Hin as [[= ->]|Hin%list_elem_of_singleton]; [by destruct Hn as [|[|]]|].
  by injection Hin as ->.
Qed.

Section Collect.
Context (NumberToJSON : spec_float → result string) (sha256Hex : string → string).
Context (number_token : number_token_law NumberToJSON) (number_reads : number_reads_law NumberToJSON).
Context (Hhex : ∀ s, IsSHA256Ref (DigestBytes sha256Hex s) = true).
Context (validateReferenceSchema : string → result unit) `{!ReferenceSchemaLaws validateReferenceSchema}.
Context {S : Type} `{Datastore S} `{!Opener S}.
#[local] Abbreviation canonicalTree := (MapExec.canonicalTree NumberToJSON).
#[local] Abbreviation isCanonical := (MapExec.isCanonical NumberToJSON).
#[local] Abbreviation resolve := (ValueParam.resolve NumberToJSON sha256Hex).
#[local] Abbreviation EncodePublishedItemResult := (ValueParam.EncodePublishedItemResult NumberToJSON sha256Hex).
#[local] Abbreviation collectedResult := (ValueParam.collectedResult NumberToJSON sha256Hex validateReferenceSchema).

(** The fields of a result's envelope. *)
Definition resultEnvelope (index : Z) (body : string) : envelope :=
  if ItemInlineLimit <? lenOf body
  then Build_envelope (Some index) None (Some (refText (refFor sha256Hex body))) None false None None false ""
  else Build_envelope (Some index) (Some body) None None false None None false "".

Lemma EncodePublishedItemResult_inv index body env : EncodePublishedItemResult index body = Ok env →
  0 <= index ∧ isCanonical body = true ∧
  ∃ name t, envelopeName name ∧ env = printJson (envelopeTree index name t) ∧
    wellFormed 0 (envelopeTree index name t) ∧ canonicalTree (envelopeTree index name t) ∧
    envelopeOf index name (printJson t) = resultEnvelope index body ∧
    (if ItemInlineLimit <? lenOf body
     then t = valueRefTree (refFor sha256Hex body) ∧ name = "ref" else body = printJson t ∧ name = "value").
Proof.
  unfold ValueParam.EncodePublishedItemResult. destruct (Z.ltb_spec index 0); [done|].
  intros (u & Hc & He)%bind_Ok. apply wrapErr_Ok, requireCanonical_Ok in Hc. split; [done|]. split; [done|].
  pose proof (isCanonical_inv NumberToJSON number_token number_reads _ Hc) as (t & E & Hwf & Hct).
  unfold resultEnvelope. destruct (ItemInlineLimit <? lenOf body).
  - exists "ref", (valueRefTree (refFor sha256Hex body)). split; [by right; left|].
    apply (envelopeText_inv NumberToJSON) in He; [|by right; left|..].
    + destruct He as (? & ? & ?). by split_and!.
    + apply refTree_wellFormed; [done|]. apply sha256_quote, Hhex.
    + apply refTree_fixed.
  - exists "value", t. split; [by left|]. rewrite E in He |- *.
    apply (envelopeText_inv NumberToJSON) in He as (? & ? & ?); [|by left|done|by apply canonical_fixed]. by split_and!.
Qed.

Lemma parseEnvelope_result index body env : index < 2 ^ 63 → EncodePublishedItemResult index body = Ok env →
  parseEnvelope NumberToJSON env = Ok (resultEnvelope index body) ∧ head (bytesOf env) ≠ Some 34.
Proof.
  intros Hi (Hi0 & _ & name & t & Hn & -> & Hwf & Hc & <- & _)%EncodePublishedItemResult_inv. split.
  - by apply (parseEnvelope_tree NumberToJSON).
  - unfold printJson. rewrite bytesOf_ofBytes by apply printBytes_ranged. done.
Qed.

Lemma aggregateElement_result position raw index body env : index < 2 ^ 63 → argoForm raw env →
  EncodePublishedItemResult index body = Ok env →
  aggregateElement NumberToJSON (position, raw) = Ok (resultEnvelope index body).
Proof.
  intros Hi Hform He. destruct (parseEnvelope_result _ _ _ Hi He) as [Hp Hh]. unfold aggregateElement. cbn [fst snd].
  assert (match bytesOf raw with
    | b :: _ => if b =? 34 then match unmarshal raw with Some (JStr encoded) => Ok encoded
        | _ => Err (contractError "decode Argo map result %d string: %v" [AInt (Z.of_nat position); AErr badJson]) end
        else Ok raw
    | [] => Ok raw end = Ok env) as ->.
  { destruct Hform as [->|[Hraw Hu]].
    - destruct (bytesOf env) as [|b l]; [done|]. cbn in Hh. destruct (Z.eqb_spec b 34); [congruence|done].
    - destruct (bytesOf raw) as [|b l]; [done|]. injection Hraw as ->. by rewrite Hu. }
  cbn [mbind result_bind]. rewrite Hp. cbn [wrapErr mbind result_bind]. unfold resultEnvelope.
  by destruct (ItemInlineLimit <? lenOf body).
Qed.

(** A large body must be where its reference says. *)
Definition readable (store : option S) (body : string) : Prop :=
  ItemInlineLimit < lenOf body → lenOf body <= MaxValueBytes ∧ resolve store (refFor sha256Hex body) = Ok body.

Lemma collectedResult_result store position index body env : readable store body →
  EncodePublishedItemResult index body = Ok env →
  collectedResult store (position, resultEnvelope index body) = Ok {| rs_Index := index; rs_Body := body |}.
Proof.
  intros Hr (Hi & Hc & name & t & _ & _ & Hwf & Hct & _ & Ht)%EncodePublishedItemResult_inv.
  unfold ValueParam.collectedResult, resultEnvelope. destruct (Z.ltb_spec ItemInlineLimit (lenOf body)) as [Hl|Hl].
  - destruct (Hr Hl) as [Hmax Hres]. destruct Ht as [-> ->].
    cbn [outcome en_Failure en_FailureRef en_Fatal en_Lost present orb itemValue en_Value en_Ref inlineOrReferenced].
    rewrite (bool_decide_eq_true_2 ("" = "")) by done. cbn [negb]. cbn iota. unfold itemValue. cbn [present Bool.eqb].
    cbn iota. unfold inlineOrReferenced. rewrite (parseRef_canonical NumberToJSON).
    + cbn [wrapErr mbind result_bind]. rewrite Hres. done.
    + done.
    + apply refFor_valid; [done|]. change ItemInlineLimit with 100 in Hl. lia.
    + done.
    + apply refTree_wellFormed; [done|]. apply sha256_quote, Hhex.
    + eapply canonicalTree_envelope; [|exact Hct]. by right; left.
  - cbn [outcome en_Failure en_FailureRef en_Fatal en_Lost present orb itemValue en_Value en_Ref].
    rewrite (bool_decide_eq_true_2 ("" = "")) by done. cbn [negb]. cbn iota. unfold itemValue. cbn [present Bool.eqb].
    cbn iota. unfold inlineOrReferenced. unfold MapExec.isCanonical in Hc.
    destruct (CanonicalizeJSON NumberToJSON body) as [c|]; [|done]. apply bool_decide_eq_true in Hc as ->.
    replace (ItemInlineLimit <? lenOf body) with false by lia. done.
Qed.
End Collect.

Lemma mapErr_indexed {A B} (f : nat * A → result B) (l : list A) (k : list B) :
  length l = length k → (∀ i x y, l !! i = Some x → k !! i = Some y → f (i, x) = Ok y) → mapErr f (indexed l) = Ok k.
Proof.
  intros Hl Hf. apply mapErr_Ok. apply Forall2_same_length_lookup_2; [unfold indexed; by rewrite length_imap|].
  intros i [j x] y Hx Hy. unfold indexed in Hx. rewrite list_lookup_imap in Hx. apply fmap_Some in Hx as (x' & Hx & [= -> ->]).
  by apply Hf.
Qed.

Section CollectAll.
Context (NumberToJSON : spec_float → result string) (sha256Hex : string → string).
Context (number_token : number_token_law NumberToJSON) (number_reads : number_reads_law NumberToJSON).
Context (Hhex : ∀ s, IsSHA256Ref (DigestBytes sha256Hex s) = true).
Context (validateReferenceSchema : string → result unit) `{!ReferenceSchemaLaws validateReferenceSchema}.
Context {S : Type} `{Datastore S} `{!Opener S}.
#[local] Abbreviation readable := (readable NumberToJSON sha256Hex).
#[local] Abbreviation EncodePublishedItemResult := (ValueParam.EncodePublishedItemResult NumberToJSON sha256Hex).
#[local] Abbreviation CollectResults := (ValueParam.CollectResults NumberToJSON sha256Hex validateReferenceSchema).
#[local] Abbreviation Encode := (ValueParam.Encode NumberToJSON sha256Hex).

(** A raw element of the aggregate carries the result. *)
Definition carries (raw : string) (r : Result) : Prop :=
  ∃ env, EncodePublishedItemResult (rs_Index r) (rs_Body r) = Ok env ∧ argoForm raw env.

Lemma aggregate_results aggregate raws results :
  unmarshalRawItems aggregate = Some raws → Forall2 carries raws results →
  Forall (λ r, rs_Index r < 2 ^ 63) results →
  aggregateEnvelopes NumberToJSON aggregate =
    Ok (map (λ r, resultEnvelope sha256Hex (rs_Index r) (rs_Body r)) results, false).
Proof.
  intros Hu HF Hi. unfold aggregateEnvelopes. rewrite Hu.
  set (fields := map _ results). rewrite (mapErr_indexed _ raws fields).
  - cbn [mbind result_bind]. assert (List.filter (λ e, negb (en_Empty e)) fields = fields) as ->.
    { unfold fields. clear. induction results as [|r rs IH]; [done|]. cbn [map List.filter].
      unfold resultEnvelope at 1. destruct (_ <? _); cbn [en_Empty negb]; by rewrite IH. }
    rewrite Nat.sub_diag. done.
  - unfold fields. rewrite length_map. by eapply Forall2_length.
  - intros i raw e Hraw He. unfold fields in He. rewrite list_lookup_fmap in He. apply fmap_Some in He as (r & Hr & ->).
    pose proof (Forall2_lookup_lr _ _ _ _ _ _ HF Hraw Hr) as (env & He & Hf).
    eapply aggregateElement_result; [done..| |done|done]. by apply (proj1 (Forall_lookup _ _) Hi i).
Qed.

Lemma CollectResults_collected (store : option S) aggregate raws results collected :
  unmarshalRawItems aggregate = Some raws → Forall2 carries raws results →
  Forall (λ r, readable store (rs_Body r)) results → Z.of_nat (length results) < 2 ^ 63 →
  Collect NumberToJSON (Z.of_nat (length results)) results = Ok collected →
  CollectResults store aggregate = Encode store collected.
Proof.
  intros Hu HF Hr Hlen Hc. unfold ValueParam.CollectResults.
  pose proof (Collect_inv _ _ _ _ Hc) as (? & ? & st & ? & ? & ? & Hb).
  rewrite (aggregate_results _ raws results); [|done|done|].
  2:{ eapply Forall_impl; [exact Hb|]. intros r (? & _). lia. }
  rewrite (mapErr_indexed _ _ results).
  - cbn [mbind result_bind]. by rewrite Hc.
  - by rewrite length_map.
  - intros i e r He Hlk. rewrite list_lookup_fmap, Hlk in He. injection He as <-.
    destruct (lookup_lt_is_Some_2 raws i) as [raw Hraw].
    { rewrite (Forall2_length _ _ _ HF). by eapply lookup_lt_Some. }
    pose proof (Forall2_lookup_lr _ _ _ _ _ _ HF Hraw Hlk) as (env & He & _). destruct r as [index body].
    eapply collectedResult_result; [done..| |exact He]. exact (proj1 (Forall_lookup _ _) Hr i _ Hlk).
Qed.
End CollectAll.

(** ** The size of an envelope *)
Lemma itoa_length z (n : nat) : 0 <= z < 10 ^ Z.of_nat n → (1 ≤ n)%nat → (length (bytesOf (itoa z)) ≤ n)%nat.
Proof.
  intros Hz Hn. destruct (itoa_bytes z) as (ds & Hds & Hv & ->). replace (z <? 0) with false by lia.
  destruct (decide (ds = [48])) as [->|Hne]; [done|]. pose proof (digitsValue_bounds ds Hds Hne) as [Hlo _].
  rewrite Hv, Z.abs_eq in Hlo by lia. destruct (decide (length ds ≤ n)%nat); [done|].
  pose proof (Z.pow_le_mono_r 10 (Z.of_nat n) (Z.of_nat (length ds) - 1) ltac:(lia) ltac:(lia)). lia.
Qed.

Lemma lenOf_print t : lenOf (printJson t) = Z.of_nat (length (printBytes t)).
Proof.
  unfold lenOf, printJson. rewrite <- length_bytesOf, bytesOf_ofBytes by apply printBytes_ranged. done.
Qed.

(** The text of an object with two members, by the sizes of its parts. *)
Lemma pair_length k1 t1 k2 t2 : length (printBytes (JObj [(k1, t1); (k2, t2)])) =
  (5 + length (quoteBytes k1) + length (quoteBytes k2) + length (printBytes t1) + length (printBytes t2))%nat.
Proof.
  change (printBytes (JObj [(k1, t1); (k2, t2)])) with
    (123 :: ((quoteBytes k1 ++ 58 :: printBytes t1) ++ 44 :: quoteBytes k2 ++ 58 :: printBytes t2) ++ [125]).
  cbn [length]. rewrite !length_app. cbn [length]. rewrite !length_app. cbn [length]. lia.
Qed.

Lemma refTree_length ref : validRef ref → (length (printBytes (valueRefTree ref)) ≤ 99)%nat.
Proof.
  intros [Hh Hs]. unfold valueRefTree. rewrite pair_length. change (length (quoteBytes "hash")) with 6%nat.
  change (length (quoteBytes "size")) with 6%nat. cbn [printBytes]. apply sha256_quote in Hh as [_ ->].
  pose proof (itoa_length (vr_Size ref) 9 ltac:(unfold MaxValueBytes in Hs; lia) ltac:(lia)). lia.
Qed.

Lemma index_length index : 0 <= index < MaxMapItems → (length (printBytes (JNum (itoa index))) ≤ 3)%nat.
Proof. intros Hi. change MaxMapItems with 341 in Hi. apply (itoa_length index 3); lia. Qed.

(** An envelope with a failure: the encoder writes the index last. *)
Definition failureEnvelopeTree (name : string) (t : json) (index : Z) : json := JObj [(name, t); ("index", JNum (itoa index))].
Definition failureName (name : string) : Prop := name = "failure" ∨ name = "failureRef".

Lemma failureText_print index name t : failureName name →
  quoted "{'" +:+ name +:+ quoted "':" +:+ printJson t +:+ quoted ",'index':" +:+ itoa index +:+ "}" =
  printJson (failureEnvelopeTree name t index).
Proof.
  intros Hn. unfold printJson, failureEnvelopeTree.
  change (printBytes (JObj [(name, t); ("index", JNum (itoa index))])) with
    (123 :: ((quoteBytes name ++ 58 :: printBytes t) ++ 44 :: quoteBytes "index" ++ 58 :: bytesOf (itoa index)) ++ [125]).
  cbn [ofBytes]. rewrite !ofBytes_app. cbn [ofBytes]. rewrite !ofBytes_app. cbn [ofBytes].
  rewrite ofBytes_bytesOf. repeat (rewrite append_assoc; cbn [String.append]).
  by destruct Hn as [->| ->].
Qed.

Lemma failureText_inline index t :
  quoted "{'failure':" +:+ printJson t +:+ quoted ",'index':" +:+ itoa index +:+ "}" =
  printJson (failureEnvelopeTree "failure" t index).
Proof. apply (failureText_print index "failure" t). by left. Qed.
Lemma failureText_reference index t :
  quoted "{'failureRef':" +:+ printJson t +:+ quoted ",'index':" +:+ itoa index +:+ "}" =
  printJson (failureEnvelopeTree "failureRef" t index).
Proof. apply (failureText_print index "failureRef" t). by right. Qed.

Section Bounds.
Context (NumberToJSON : spec_float → result string) (sha256Hex : string → string).
Context (number_token : number_token_law NumberToJSON) (number_reads : number_reads_law NumberToJSON).
Context (Hhex : ∀ s, IsSHA256Ref (DigestBytes sha256Hex s) = true).
Context {S : Type} `{Datastore S}.
#[local] Abbreviation canonicalTree := (MapExec.canonicalTree NumberToJSON).
#[local] Abbreviation EncodePublishedItemResult := (ValueParam.EncodePublishedItemResult NumberToJSON sha256Hex).
#[local] Abbreviation EncodeItemFailure := (ValueParam.EncodeItemFailure NumberToJSON sha256Hex).

Lemma itemResult_bounded index body env : 0 <= index < MaxMapItems → lenOf body <= MaxValueBytes →
  EncodePublishedItemResult index body = Ok env → lenOf env <= maxEnvelopeBytes.
Proof.
  intros Hi Hmax (_ & _ & name & t & _ & -> & _ & _ & _ & Ht)%EncodePublishedItemResult_inv; [|done..].
  rewrite lenOf_print. unfold envelopeTree. rewrite pair_length. change (length (quoteBytes "index")) with 7%nat.
  pose proof (index_length index Hi). destruct (Z.ltb_spec ItemInlineLimit (lenOf body)) as [Hl|Hl].
  - destruct Ht as [-> ->]. change (length (quoteBytes "ref")) with 5%nat. change ItemInlineLimit with 100 in Hl.
    assert (validRef (refFor sha256Hex body)) as Hr by (apply refFor_valid; [done|lia]).
    pose proof (refTree_length _ Hr). unfold maxEnvelopeBytes. lia.
  - destruct Ht as [-> ->]. change (length (quoteBytes "value")) with 7%nat. change ItemInlineLimit with 100 in Hl.
    rewrite lenOf_print in Hl. unfold maxEnvelopeBytes. lia.
Qed.

Lemma failureTree_fixed f : fixedTree NumberToJSON (failureTree f).
Proof.
  apply object_fixed.
  - apply (bool_decide_unpack _). vm_compute. exact I.
  - unfold validKeys, allValid. apply (bool_decide_unpack _). vm_compute. exact I.
  - apply StronglySorted_keyLe. apply (bool_decide_unpack _). vm_compute. exact I.
  - repeat (constructor; [apply integer_fixed || apply string_fixed|]). constructor.
Qed.

Lemma failureTree_wellFormed f : validStrings (failureTree f) = true → wellFormed 0 (failureTree f).
Proof.
  intros Hv. cbn in Hv. rewrite !andb_true_r in Hv. apply andb_prop in Hv as [_ [Hd [_ Hk]%andb_prop]%andb_prop].
  apply wellFormed_JObj. split; [done|]. split; [apply (bool_decide_unpack _); vm_compute; exact I|].
  constructor; [split; [done|apply itoa_numberToken]|].
  constructor; [split; [done|by apply andb_prop in Hd as [_ Hd]]|]. constructor; [by split|constructor].
Qed.

Lemma marshal_failure f body : Marshal NumberToJSON (failureTree f) = Ok body →
  body = printJson (failureTree f) ∧ wellFormed 0 (failureTree f) ∧ canonicalTree (failureTree f).
Proof.
  unfold Marshal. destruct (validStrings (failureTree f)) eqn:Hv; [|done].
  apply (fixed_canonicalize NumberToJSON 0); [lia|by apply failureTree_wellFormed|apply failureTree_fixed].
Qed.

Lemma failureEnvelope_inv name t index env : failureName name → wellFormed 0 t → fixedTree NumberToJSON t →
  CanonicalizeJSON NumberToJSON (printJson (failureEnvelopeTree name t index)) = Ok env →
  env = printJson (failureEnvelopeTree name t index).
Proof.
  intros Hn Hwf Hf He. assert (NoDup [(name, t); ("index", JNum (itoa index))].*1 ∧
    validKeys [(name, t); ("index", JNum (itoa index))] ∧ StronglySorted keyLe [(name, t); ("index", JNum (itoa index))])
    as (Hnd & Hv & Hs).
  { rewrite StronglySorted_keyLe. unfold validKeys, allValid.
    destruct Hn as [->| ->]; split_and!; apply (bool_decide_unpack _); vm_compute; exact I. }
  apply (fixed_canonicalize NumberToJSON (-1)) in He as [He _]; [done|lia| |].
  - apply wellFormed_JObj. split_and!; [done|done|]. unfold validKeys, allValid in Hv. cbn in Hv.
    apply Forall_cons in Hv as [Hv _]. constructor; [by split|]. constructor; [|constructor].
    split; [done|apply itoa_numberToken].
  - apply object_fixed; [done..|]. constructor; [done|]. constructor; [apply integer_fixed|constructor].
Qed.

Lemma itemFailure_bounded index failure (store : option S) env store' : 0 <= index < MaxMapItems →
  EncodeItemFailure store index failure = (Ok env, store') → lenOf env <= maxEnvelopeBytes.
Proof.
  intros Hi He. unfold ValueParam.EncodeItemFailure in He. replace (index <? 0) with false in He by lia.
  destruct (Marshal NumberToJSON (failureTree failure)) as [body|] eqn:Em; [|done].
  apply marshal_failure in Em as (-> & Hwf & Hc). pose proof (index_length index Hi).
  destruct (Z.leb_spec (lenOf (printJson (failureTree failure))) ItemInlineLimit) as [Hl|Hl].
  - injection He as He <-. rewrite failureText_inline in He. apply failureEnvelope_inv in He as ->; [|by left|done|by apply canonical_fixed].
    rewrite lenOf_print. unfold failureEnvelopeTree. rewrite pair_length. change (length (quoteBytes "failure")) with 9%nat.
    change (length (quoteBytes "index")) with 7%nat. rewrite lenOf_print in Hl. change ItemInlineLimit with 100 in Hl.
    unfold maxEnvelopeBytes. lia.
  - destruct (publish sha256Hex store _) as [[ref|] store1] eqn:Ep; [|done]. injection He as He <-.
    assert (validRef ref) as Hr.
    { unfold publish in Ep. destruct store as [s|]; [|done]. destruct (Z.ltb_spec MaxValueBytes (lenOf (printJson (failureTree failure)))); [done|].
      destruct (blobKey _); [|done]. destruct (Put _ _ _ _) as [[|e] s1].
      - injection Ep as <- <-. apply refFor_valid; [done|]. change ItemInlineLimit with 100 in Hl. lia.
      - destruct (isErr e _); [|done]. injection Ep as <- <-. apply refFor_valid; [done|].
        change ItemInlineLimit with 100 in Hl. lia. }
    unfold refText in He. rewrite failureText_reference in He.
    apply failureEnvelope_inv in He as ->; [|by right| |apply refTree_fixed].
    2:{ apply refTree_wellFormed; [done|]. destruct Hr as [Hr _]. by apply sha256_quote. }
    rewrite lenOf_print. unfold failureEnvelopeTree. rewrite pair_length. change (length (quoteBytes "failureRef")) with 12%nat.
    change (length (quoteBytes "index")) with 7%nat. pose proof (refTree_length ref Hr). unfold maxEnvelopeBytes. lia.
Qed.
End Bounds.
