(* ===== verification/ValueParamSafety.v ===== *)
(** * What value parameters promise

    A value has one spelling between tasks, a reference resolves to the value that was
    published, a map's items and results keep their indexes and values through Argo, and an
    envelope is as small as the width of a map assumes. *)

From S2P Require Import Prelude Utf16 Text Json Canonical CanonicalText CanonicalForm JsonRaw Encode SourceIdentity Datastore MapExec ValueParam ValueText ValueEnvelopes.
From Stdlib Require Import Ascii SpecFloat.
#[local] Open Scope Z_scope.

(** ** Merge inputs *)
Section Merge.
Context (NumberToJSON : spec_float → result string) (sha256Hex : string → string).
Context (number_token : number_token_law NumberToJSON) (number_reads : number_reads_law NumberToJSON).
Context (validateReferenceSchema : string → result unit) `{!ReferenceSchemaLaws validateReferenceSchema}.
Context {S : Type} `{Datastore S} `{!Opener S}.
#[local] Abbreviation Decode := (ValueParam.Decode NumberToJSON sha256Hex validateReferenceSchema).
#[local] Abbreviation mergeSize := (ValueParam.mergeSize NumberToJSON validateReferenceSchema).
#[local] Abbreviation DecodeMerge := (ValueParam.DecodeMerge NumberToJSON sha256Hex validateReferenceSchema).

Definition totalLength (l : list string) : Z := foldr (λ s n, lenOf s + n) 0 l.

(** The declared size of a parameter that decodes is the size of its value. *)
Lemma mergeSize_decoded (store : option S) total i p v total' :
  mergeSize total (i, p) = Ok total' → Decode store p = Ok v → total' = total + lenOf (vl_Body v).
Proof.
  unfold ValueParam.mergeSize, ValueParam.Decode. cbn [fst snd]. destruct (cutReference p) as [rest|].
  - intros (ref & Hp%wrapErr_Ok & [= <-])%bind_Ok. rewrite Hp. cbn [mbind result_bind].
    intros (body & Hr & [= <-])%bind_Ok. by apply resolve_inv in Hr as [-> _].
  - intros [= <-] (u & _ & Hv)%bind_Ok. destruct (InlineLimit <? lenOf p); [done|]. by injection Hv as <-.
Qed.

Lemma mergeSize_total (store : option S) ps : ∀ k total total' values,
  foldErr mergeSize total (imap (λ i p, (k + i, p)%nat) ps) = Ok total' →
  Forall2 (λ p v, Decode store p = Ok v) ps values → total' = total + totalLength (map vl_Body values).
Proof.
  induction ps as [|p ps IH]; intros k total total' values Hf HF; inversion HF as [|? v ? vs Hv Hvs]; subst; cbn in Hf.
  - injection Hf as <-. cbn. lia.
  - apply bind_Ok in Hf as (t & Ht & Hf). eapply mergeSize_decoded in Ht; [|exact Hv].
    erewrite imap_ext in Hf; [eapply (IH (Datatypes.S k)) in Hf; [|exact Hvs]|].
    + cbn [map]. change (totalLength (?s :: ?l)) with (lenOf s + totalLength l). lia.
    + intros i x _. unfold compose. f_equal. lia.
Qed.

Lemma joinStrings_length l : l ≠ [] → lenOf (joinStrings "," l) + 1 = totalLength l + Z.of_nat (length l).
Proof.
  induction l as [|s [|s' l] IH]; intros Hne; [done|cbn; lia|]. rewrite joinStrings_cons.
  specialize (IH ltac:(done)). cbn [totalLength foldr length] in *. unfold lenOf in *.
  rewrite !string_length_app. cbn [String.length]. unfold totalLength, lenOf in *. lia.
Qed.

Lemma indexed_snd {A} (l : list A) : (indexed l).*2 = l.
Proof.
  unfold indexed. apply list_eq. intros i. rewrite list_lookup_fmap, list_lookup_imap. by destruct (l !! i).
Qed.

Lemma DecodeMerge_decoded (store : option S) ps body : DecodeMerge store ps = Ok body →
  lenOf body <= MaxValueBytes ∧ ∃ values, Forall2 (λ p v, Decode store p = Ok v) ps values ∧
    body = "[" +:+ joinStrings "," (map vl_Body values) +:+ "]".
Proof.
  unfold ValueParam.DecodeMerge. intros (total & Ht & Hm)%bind_Ok.
  destruct (Z.ltb_spec MaxValueBytes total) as [|Hmax]; [done|]. apply bind_Ok in Hm as (bodies & Hb%mapErr_Ok & [= <-]).
  assert (∃ values, Forall2 (λ p v, Decode store p = Ok v) ps values ∧ bodies = map vl_Body values) as (values & HF & ->).
  { rewrite <- (indexed_snd ps). revert Hb. generalize (indexed ps) as l. intros l Hb.
    induction Hb as [|[i p] b l bodies Hx _ (vs & HF & ->)]; [by exists []|].
    apply bind_Ok in Hx as (v & Hv%wrapErr_Ok & [= <-]). exists (v :: vs). split; [by constructor|done]. }
  split; [|by exists values].
  pose proof (Forall2_length _ _ _ HF) as Hlen.
  apply (mergeSize_total store ps 0 _ _ _ Ht) in HF.
  unfold lenOf. rewrite !string_length_app. cbn [String.length].
  destruct values as [|v vs]; [cbn; unfold MaxValueBytes; lia|].
  pose proof (joinStrings_length (map vl_Body (v :: vs)) ltac:(done)) as Hj. rewrite length_map in Hj.
  unfold lenOf in Hj. rewrite Hlen in HF. lia.
Qed.
End Merge.

(** ** The properties *)

(** C34: a parameter that decodes is the one spelling of its value: the text that forwards
    the value, and the text its producer writes. *)
Theorem Decode_one_spelling (NumberToJSON : spec_float → result string) (sha256Hex : string → string)
    (validateReferenceSchema : string → result unit) `{!ReferenceSchemaLaws validateReferenceSchema}
    (S : Type) `{Datastore S} `{!Opener S} (store : option S) parameter value :
  number_token_law NumberToJSON → number_reads_law NumberToJSON →
  Decode NumberToJSON sha256Hex validateReferenceSchema store parameter = Ok value →
  Value_Parameter NumberToJSON value = Ok parameter ∧
  EncodePublished NumberToJSON sha256Hex (vl_Body value) = Ok parameter.
Proof. intros Ht Hr Hd. by apply Decode_spells in Hd as (? & ? & _). Qed.

(** C35: what a producer encodes, its consumer decodes: also later, from any state of the
    store that still has the published objects. *)
Theorem Encode_Decode (NumberToJSON : spec_float → result string) (sha256Hex : string → string)
    (validateReferenceSchema : string → result unit) `{!ReferenceSchemaLaws validateReferenceSchema}
    (S : Type) `{OpenerLaws S} (s : S) body parameter store' :
  number_token_law NumberToJSON → number_reads_law NumberToJSON →
  (∀ text, IsSHA256Ref (DigestBytes sha256Hex text) = true) → unspoiled sha256Hex s body →
  Encode NumberToJSON sha256Hex (Some s) body = (Ok parameter, store') →
  ∃ s', store' = Some s' ∧ ∀ later, serving later → view s' ⊆ view later →
    ∃ ref, Decode NumberToJSON sha256Hex validateReferenceSchema (Some later) parameter =
      Ok {| vl_Body := body; vl_Ref := ref |}.
Proof.
  intros Ht Hr Hhex Hu He. unfold Encode in He. destruct (requireCanonical NumberToJSON body) as [[]|] eqn:Hc; [|done].
  pose proof (proj1 (requireCanonical_Ok _ _ _) Hc) as Hcan. unfold Decode.
  destruct (Z.leb_spec (lenOf body) InlineLimit) as [Hl|Hl].
  - injection He as <- <-. exists s. split; [done|]. intros later _ _. exists None.
    rewrite (cutReference_canonical NumberToJSON) by done. rewrite Hc. cbn [mbind result_bind].
    by replace (InlineLimit <? lenOf body) with false by lia.
  - destruct (publish sha256Hex (Some s) body) as [[ref|] store1] eqn:Ep; [|done]. injection He as He <-.
    destruct (publish_holds _ _ _ _ _ Ep Hu) as (-> & Hmax & s' & -> & key & Hk & Hv). exists s'. split; [done|].
    intros later Hs Hsub. apply (refParameter_text NumberToJSON) in He as (-> & Hct & Hwf).
    exists (Some (refFor sha256Hex body)). change (cutReference ("@" +:+ ?r)) with (Some r). cbn iota.
    assert (validRef (refFor sha256Hex body)) as Hv' by (apply refFor_valid; [done|unfold InlineLimit in Hl; lia]).
    rewrite (parseRef_canonical NumberToJSON validateReferenceSchema (refFor sha256Hex body)) by done.
    cbn [mbind result_bind]. assert (holds sha256Hex later body) as Hh.
    { exists key. split; [done|]. by eapply lookup_weaken. }
    by rewrite (resolve_holds NumberToJSON sha256Hex later body Hs Hh Hcan).
Qed.

(** C36: a map's items reach their pods: the envelopes of an expanded input decode, in
    order, to its items with their indexes; an empty map is one marker. *)
Theorem ExpandItems_DecodeItem (NumberToJSON : spec_float → result string) (sha256Hex : string → string)
    (validateReferenceSchema : string → result unit) `{!ReferenceSchemaLaws validateReferenceSchema}
    (S : Type) `{Datastore S} `{!Opener S} (store : option S) parameter expanded :
  number_token_law NumberToJSON → number_reads_law NumberToJSON →
  ExpandItems NumberToJSON sha256Hex validateReferenceSchema store parameter = Ok expanded →
  ∃ input items envelopes,
    Decode NumberToJSON sha256Hex validateReferenceSchema store parameter = Ok input ∧
    Expand NumberToJSON (vl_Body input) = Ok items ∧
    unmarshalRawItems expanded = Some envelopes ∧ Z.of_nat (length envelopes) <= MaxMapItems ∧
    mapErr (DecodeItem NumberToJSON sha256Hex validateReferenceSchema store) envelopes =
      Ok (if decide (items = []) then [None] else map Some items).
Proof. intros Ht Hr. by apply ExpandItems_decoded. Qed.

(** C37: a map's results are collected by their indexes: from envelopes that carry them, raw
    or as JSON strings and in any order, and whose large bodies are published, the collector
    makes the parameter of the collected array. *)
Theorem CollectResults_collects (NumberToJSON : spec_float → result string) (sha256Hex : string → string)
    (validateReferenceSchema : string → result unit) `{!ReferenceSchemaLaws validateReferenceSchema}
    (S : Type) `{Datastore S} `{!Opener S} (store : option S) aggregate raws results collected :
  number_token_law NumberToJSON → number_reads_law NumberToJSON →
  (∀ text, IsSHA256Ref (DigestBytes sha256Hex text) = true) →
  unmarshalRawItems aggregate = Some raws → Forall2 (carries NumberToJSON sha256Hex) raws results →
  Forall (λ r, readable NumberToJSON sha256Hex store (rs_Body r)) results → Z.of_nat (length results) < 2 ^ 63 →
  Collect NumberToJSON (Z.of_nat (length results)) results = Ok collected →
  CollectResults NumberToJSON sha256Hex validateReferenceSchema store aggregate =
    Encode NumberToJSON sha256Hex store collected.
Proof. intros Ht Hr Hhex. by apply CollectResults_collected. Qed.

(** C38: no envelope of a map that fits Argo is longer than the width of a map assumes,
    whether it carries a result or a failure, inline or by reference. *)
Theorem envelope_bounded (NumberToJSON : spec_float → result string) (sha256Hex : string → string)
    (S : Type) `{Datastore S} index :
  number_token_law NumberToJSON → number_reads_law NumberToJSON →
  (∀ text, IsSHA256Ref (DigestBytes sha256Hex text) = true) → 0 <= index < MaxMapItems →
  (∀ body env, lenOf body <= MaxValueBytes → EncodePublishedItemResult NumberToJSON sha256Hex index body = Ok env →
    lenOf env <= maxEnvelopeBytes) ∧
  (∀ (store : option S) failure env store',
    EncodeItemFailure NumberToJSON sha256Hex store index failure = (Ok env, store') → lenOf env <= maxEnvelopeBytes).
Proof.
  intros Ht Hr Hhex Hi. split; [intros body env; by apply itemResult_bounded|intros *; by apply itemFailure_bounded].
Qed.

(** C39: a merge step's input is the array of its sources' values, in order, and never above
    the value limit. *)
Theorem DecodeMerge_bounded (NumberToJSON : spec_float → result string) (sha256Hex : string → string)
    (validateReferenceSchema : string → result unit) `{!ReferenceSchemaLaws validateReferenceSchema}
    (S : Type) `{Datastore S} `{!Opener S} (store : option S) parameters body :
  number_token_law NumberToJSON → number_reads_law NumberToJSON →
  DecodeMerge NumberToJSON sha256Hex validateReferenceSchema store parameters = Ok body →
  lenOf body <= MaxValueBytes ∧
  ∃ values, Forall2 (λ p v, Decode NumberToJSON sha256Hex validateReferenceSchema store p = Ok v) parameters values ∧
    body = "[" +:+ joinStrings "," (map vl_Body values) +:+ "]".
Proof. intros Ht Hr. by apply DecodeMerge_decoded. Qed.

(** ** Concrete values *)

(** A printer of integers: those that read back as the same double. *)
Definition integerOf (d : spec_float) : option Z :=
  match d with
  | S754_zero _ => Some 0
  | S754_finite s m e =>
      let z := if s then - Z.pos m else Z.pos m in
      if 0 <=? e then Some (z * 2 ^ e)
      else if z mod 2 ^ (- e) =? 0 then Some (z / 2 ^ (- e)) else None
  | _ => None
  end.
Definition integerNumbers (d : spec_float) : result string :=
  match integerOf d with
  | Some z =>
      match ParseFloat (itoa z) with
      | Some d' => if bool_decide (integerOf d' = Some z) then Ok (itoa z) else Err (ErrNew "unsupported number")
      | None => Err (ErrNew "unsupported number")
      end
  | None => Err (ErrNew "unsupported number")
  end.

Lemma integerNumbers_inv d t : integerNumbers d = Ok t →
  ∃ z d', t = itoa z ∧ ParseFloat t = Some d' ∧ integerNumbers d' = Ok t.
Proof.
  unfold integerNumbers at 1. destruct (integerOf d) as [z|]; [|done].
  destruct (ParseFloat (itoa z)) as [d'|] eqn:E; [|done]. case_bool_decide as Hz; [|done]. intros [= <-].
  exists z, d'. split_and!; [done|done|]. unfold integerNumbers. rewrite Hz, E. by rewrite bool_decide_eq_true_2.
Qed.
Lemma integerNumbers_token : number_token_law integerNumbers.
Proof. intros d t (z & _ & -> & _)%integerNumbers_inv. apply itoa_numberToken. Qed.
Lemma integerNumbers_reads : number_reads_law integerNumbers.
Proof. intros d t (z & d' & _ & ? & ?)%integerNumbers_inv. by exists d'. Qed.

(** A check that follows the schema. *)
Definition checkReference (body : string) : result unit :=
  match unmarshal body with
  | Some t => if refSchema t then Ok tt else Err (ErrNew "does not match the schema")
  | None => Err (ErrNew "invalid JSON")
  end.
#[local] Instance checkReference_laws : ReferenceSchemaLaws checkReference.
Proof.
  split.
  - intros body t Hu. unfold checkReference. rewrite Hu. by destruct (refSchema t).
  - intros ref [Hh Hs]. unfold checkReference, refText. rewrite unmarshal_print.
    2:{ apply refTree_wellFormed; [done|]. by apply sha256_quote. }
    change (refSchema (valueRefTree ref)) with (true && IsSHA256Ref (vr_Hash ref) &&
      match decodeInt (itoa (vr_Size ref)) with Some n => (1 <=? n) && (n <=? MaxValueBytes) | None => true end).
    rewrite Hh, decodeInt_itoa by (unfold MaxValueBytes in Hs; lia). cbn [andb].
    by replace ((1 <=? vr_Size ref) && (vr_Size ref <=? MaxValueBytes)) with true by lia.
Qed.

Import MemoryStore.
(** A value above the inline limit, and a small one. *)
Definition longBody : string := jsonText "'" +:+ ofBytes (replicate 4100 120) +:+ jsonText "'".
#[local] Abbreviation encode := (Encode integerNumbers checksumHash).
#[local] Abbreviation decode := (Decode integerNumbers checksumHash checkReference).

Lemma Decode_one_spelling_witness :
  EncodePublished integerNumbers checksumHash "[1,20]" = Ok "[1,20]".
Proof.
  refine (proj2 (Decode_one_spelling integerNumbers checksumHash checkReference store None "[1,20]"
    {| vl_Body := "[1,20]"; vl_Ref := None |} integerNumbers_token integerNumbers_reads _)).
  vm_compute. reflexivity.
Defined.

Lemma unspoiled_empty body : unspoiled checksumHash (∅ : store) body.
Proof.
  intros key object _ Hv. change ((∅ : gmap Key (string * string)) !! key = Some object) in Hv.
  by rewrite lookup_empty in Hv.
Qed.

Lemma Encode_Decode_witness :
  match encode (Some (∅ : store)) longBody with
  | (Ok p, Some s') => String.length p = 95%nat ∧ ∃ ref, decode (Some s') p = Ok {| vl_Body := longBody; vl_Ref := ref |}
  | _ => False
  end.
Proof.
  assert (match (encode (Some (∅ : store)) longBody).1 with Ok p => String.length p | Err _ => O end = 95%nat) as H
    by (vm_compute; reflexivity).
  pose proof (λ p st, Encode_Decode integerNumbers checksumHash checkReference store ∅ longBody p st
    integerNumbers_token integerNumbers_reads checksumHash_ref (unspoiled_empty longBody)) as HT.
  destruct (encode (Some (∅ : store)) longBody) as [[p|e] st]; [|discriminate H].
  destruct (HT p st eq_refl) as (s' & -> & Hd). split; [exact H|]. apply (Hd s'); [exact I|reflexivity].
Defined.

(** Two items of an inline list. *)
Definition twoItems : string := jsonText "[{'a':1},20]".

Lemma ExpandItems_DecodeItem_witness :
  ∃ expanded, ExpandItems integerNumbers checksumHash checkReference (None : option store) twoItems = Ok expanded ∧
  ∃ items envelopes, Expand integerNumbers twoItems = Ok items ∧ unmarshalRawItems expanded = Some envelopes ∧
    length envelopes = 2%nat ∧
    mapErr (DecodeItem integerNumbers checksumHash checkReference (None : option store)) envelopes = Ok (map Some items).
Proof.
  set (expanded := jsonText "[{'index':0,'value':{'a':1}},{'index':1,'value':20}]").
  assert (ExpandItems integerNumbers checksumHash checkReference (None : option store) twoItems = Ok expanded) as H
    by (vm_compute; reflexivity).
  exists expanded. split; [exact H|].
  destruct (ExpandItems_DecodeItem integerNumbers checksumHash checkReference store None twoItems expanded
    integerNumbers_token integerNumbers_reads H) as (input & items & envelopes & Hd & Hi & Hu & _ & Hm).
  assert (decode (None : option store) twoItems = Ok {| vl_Body := twoItems; vl_Ref := None |}) as Hd' by (vm_compute; reflexivity).
  rewrite Hd in Hd'. injection Hd' as ->. exists items, envelopes. split_and!; [exact Hi|exact Hu| |].
  - assert (length <$> unmarshalRawItems expanded = Some 2%nat) as Hl by (vm_compute; reflexivity).
    rewrite Hu in Hl. by injection Hl.
  - rewrite Hm. destruct items as [|i items]; [|reflexivity].
    assert (Expand integerNumbers twoItems ≠ Ok []) as Hne by (vm_compute; discriminate). by destruct Hne.
Defined.

(** Two results, out of order, one of them as a JSON string. *)
Definition twoResults : list Result :=
  [{| rs_Index := 1; rs_Body := "20" |}; {| rs_Index := 0; rs_Body := jsonText "{'a':1}" |}].
Definition rawResults : list string :=
  [jsonText "{'index':1,'value':20}"; jsonText "'{\'index\':0,\'value\':{\'a\':1}}'"].

Lemma CollectResults_collects_witness :
  CollectResults integerNumbers checksumHash checkReference (None : option store)
    ("[" +:+ joinStrings "," rawResults +:+ "]") = (Ok twoItems, None).
Proof.
  etransitivity; [apply (CollectResults_collects integerNumbers checksumHash checkReference store None _ rawResults twoResults
    twoItems integerNumbers_token integerNumbers_reads checksumHash_ref)|vm_compute; reflexivity].
  - vm_compute. reflexivity.
  - constructor; [|constructor; [|constructor]].
    + exists (jsonText "{'index':1,'value':20}"). split; [vm_compute; reflexivity|by left].
    + exists (jsonText "{'index':0,'value':{'a':1}}"). split; [vm_compute; reflexivity|right].
      split; vm_compute; reflexivity.
  - constructor; [|constructor; [|constructor]]; intros H; vm_compute in H; discriminate H.
  - vm_compute. reflexivity.
  - vm_compute. reflexivity.
Defined.

Lemma envelope_bounded_witness :
  match EncodePublishedItemResult integerNumbers checksumHash 340 longBody with
  | Ok env => lenOf env <= maxEnvelopeBytes
  | Err _ => False
  end.
Proof.
  assert (isOk (EncodePublishedItemResult integerNumbers checksumHash 340 longBody) = true) as H by (vm_compute; reflexivity).
  assert (0 <= 340 < MaxMapItems) as Hi by (split; [lia|vm_compute; reflexivity]).
  pose proof (λ env, proj1 (envelope_bounded integerNumbers checksumHash store 340 integerNumbers_token integerNumbers_reads
    checksumHash_ref Hi) longBody env) as HT.
  destruct (EncodePublishedItemResult integerNumbers checksumHash 340 longBody) as [env|]; [|discriminate H].
  apply HT; [vm_compute; discriminate|reflexivity].
Defined.

Lemma DecodeMerge_bounded_witness : lenOf (jsonText "[[1,20],'a']") <= MaxValueBytes.
Proof.
  apply (DecodeMerge_bounded integerNumbers checksumHash checkReference store None ["[1,20]"; jsonText "'a'"] _
    integerNumbers_token integerNumbers_reads). vm_compute. reflexivity.
Defined.
