(* ===== verification/Isolated.v ===== *)
(** * Steps of a remote target

    [orchestrator/isolated.go]: one attempt of a step or of a map item in a pod of its own,
    and the publication of source archives; [orchestrator/preflight.go]: the check of the
    pod's interpreter before any author code; [orchestrator/fatal.go]: the cause with which
    one invocation stops its run; the record of a pod's phase
    ([executionphase/evidence.go]).

    [PodWorld] is what they call outside this code: files, the runner's process, the probe of
    the environment.  A [Pod] computation fails with the errors the callers tell apart. *)

From S2P Require Import Prelude Utf16 Text SpecTypes PlanTypes Json JsonRaw Canonical SourceIdentity Journal Datastore Encode Artifact MapExec Retry Index Resolution World ArgoNames ArgoPods ArgoStatus ValueParam.
From Stdlib Require Import Ascii SpecFloat.
#[local] Open Scope Z_scope.

(** ** Data *)

(** [Body] is nil for an archive that is already in the store. *)
Record SourceArchive := { sr_Digest : string; sr_Body : option string }.
Definition EmbeddedSourceArchive (sha256Hex : string → string) (body : string) : SourceArchive :=
  {| sr_Digest := DigestBytes sha256Hex body; sr_Body := Some body |}.

(** [environment.Request], [environment.Report] without the facts that are not read here. *)
Record Request := { rq_Python : string; rq_ProjectRoot : string; rq_ControlPlaneVersion : string; rq_RequireSDK : bool; rq_Scope : Z }.
Definition rq_setRoot (root : string) (r : Request) : Request :=
  {| rq_Python := rq_Python r; rq_ProjectRoot := root; rq_ControlPlaneVersion := rq_ControlPlaneVersion r;
     rq_RequireSDK := rq_RequireSDK r; rq_Scope := rq_Scope r |}.
Record Finding := { fi_Code : string; fi_Message : string; fi_Fix : string }.
Record Report (R : Type) := { rp_ProjectRoot : string; rp_Findings : list Finding; rp_Executable : string; rp_Record : R }.
Arguments rp_ProjectRoot {R} _.
Arguments rp_Findings {R} _.
Arguments rp_Executable {R} _.
Arguments rp_Record {R} _.
(** [ProjectError]: an error in whose tree [errors.As] finds one. *)
Inductive checkError := ProjectError (e : error) | OtherError (e : error).

Record IsolatedStepConfig := {
  is_Plan : option WorkflowPlan;
  is_NodeID : string;
  is_Datastore : option DatastoreDescriptor;
  is_ProjectID : string;
  is_RunID : string;
  is_Environment : Request;
  is_WorkingDir : string;
  is_SourceArchives : gmap string SourceArchive;
  is_Attempt : Z;
  is_TerminationLog : string;
}.

Record InvocationFailure := {
  if_NodeID : string;
  if_Attempt : Z;
  if_MaxAttempts : Z;
  if_ExitCode : Z;
  if_TimedOutAfter : Z;
  if_Diagnostic : string;
  if_Fatal : option FatalFailure;
  if_ItemFailure : option Failure;
}.
Definition Retryable (failure : InvocationFailure) : bool :=
  (if_Attempt failure <? if_MaxAttempts failure) &&
  retryableOutcome {| so_NodeID := ""; so_Attempt := 0; so_Scope := None; so_Status := StatusFailed; so_ExitCode := if_ExitCode failure;
                      so_Diagnostic := ""; so_Fatal := None; so_RunnerMessage := ""; so_TimedOutAfter := 0 |}.

Record PublishedSourceArchive := { ps_PackageHash : string; ps_ArchiveHash : string; ps_Key : string; ps_Created : bool }.

(** ** Computations of a pod *)
Inductive podError :=
  | Plain (e : error)
  | Preflight (nodeID : string) (e : error)
  | Invocation (failure : InvocationFailure).
Definition Pod (W A : Type) : Type := W → (A + podError) * W.
#[global] Instance Pod_ret {W} : MRet (Pod W) := λ A a w, (inl a, w).
#[global] Instance Pod_bind {W} : MBind (Pod W) := λ A B f m w,
  match m w with (inl a, w') => f a w' | (inr e, w') => (inr e, w') end.

Section Monad.
Context {W : Type}.
Definition throw {A} (e : podError) : Pod W A := λ w, (inr e, w).
Definition orPlain {A} (r : result A) : Pod W A := λ w, (match r with Ok a => inl a | Err e => inr (Plain e) end, w).
(** An operation that fails with a plain error; one whose error is looked at. *)
Definition io {A} (f : W → result A * W) : Pod W A := λ w, let '(r, w') := f w in orPlain r w'.
Definition see {A} (f : W → A * W) : Pod W A := λ w, let '(a, w') := f w in (inl a, w').
(** [defer f()] *)
Definition deferred {A} (f : W → W) (m : Pod W A) : Pod W A := λ w, let '(r, w') := m w in (r, f w').
End Monad.

Class PodWorld (W R : Type) `{Datastore W} `{!Opener W} := {
  openFile : string → W → option error * W;
  writeFile : string → string → W → (Z * option error) * W;
  readFile : string → W → result string * W;
  mkdirTemp : string → W → result string * W;
  mkdir : string → W → option error * W;
  removeAll : string → W → W;
  createFile : string → W → option error * W;
  copyTo : string → string → W → option error * W;
  seekStart : string → W → option error * W;
  contextErr : W → option error * W;
  OpenDatastore : DatastoreDescriptor → W → option error * W;
  ExtractArchive : string → Z → string → string → W → option error * W;
  CheckEnvironment : Request → W → (Report R + checkError) * W;
  invokeSteps : list string → string → StepInvocationBatch → W → (list StepInvocationOutcome * option error) * W;
  pollDelay : Z → W → Z * W;
  waitOrDone : Z → W → bool * W;
}.

Section Isolated.
Context (NumberToJSON : spec_float → result string) (sha256Hex : string → string).
Context (ValidateJSONSchema : string → string → result unit) (validateManifestSchema validateEvidence validateFatal : string → result unit).
Context (ValidateExecution : WorkflowPlan → result unit) (VerifyArchive : string → string → result unit).
Context {W R : Type} `{PW : PodWorld W R} (marshalRecord : R → result string) (requirementHash realizationHash : R → string).
#[local] Abbreviation DigestBytes := (Canonical.DigestBytes sha256Hex).

Definition failing (f : W → option error * W) : W → result unit * W := λ w,
  let '(e, w') := f w in (match e with Some e => Err e | None => Ok tt end, w').
Definition wrapped {A} (format : string) (args : list errArg) (f : W → result A * W) : W → result A * W := λ w,
  let '(r, w') := f w in (wrapErr format args r, w').

(** ** Execution phases *)
Definition evidenceText (evidence : Evidence) : string :=
  "{" +:+ joinStrings "," ((if eqs (ph_Phase evidence) "" then [] else [quoted "'phase':" +:+ marshalString (ph_Phase evidence)]) ++
                           (if ph_Fatal evidence then [quoted "'fatal':true"] else [])) +:+ "}".
Fixpoint spaces (n : nat) : string := match n with O => "" | S n => " " +:+ spaces n end.

Definition Write (path : string) (evidence : Evidence) (w : W) : result unit * W :=
  if eqs path "" then (Ok tt, w)
  else
    let body := evidenceText evidence in
    match Parse validateEvidence body with
    | Err e => (Err (Errorf "invalid execution evidence: %w" [AWrap e]), w)
    | Ok _ =>
        let record := body +:+ spaces (Z.to_nat (RecordBytes - lenOf body)) in
        match openFile path w with
        | (Some e, w1) => (Err (Errorf "open execution evidence: %w" [AWrap e]), w1)
        | (None, w1) =>
            match writeFile path record w1 with
            | ((_, Some e), w2) => (Err (Errorf "write execution evidence: %w" [AWrap e]), w2)
            | ((written, None), w2) => (if written =? lenOf record then Ok tt else Err (ErrNew "short write"), w2)
            end
        end
    end.

(** ** The cause that stops a run *)
Definition FatalRunKey (project runID : string) : result Key :=
  if negb (ValidSafePathSegment runID) then Err (ErrNew "invalid fatal run id")
  else ParseKey ("projects/" +:+ NormalizeProjectKey sha256Hex project +:+ "/runs/" +:+ runID +:+ "/fatal.json").

Definition ParseFatalFailure (data : string) : result FatalFailure :=
  _ ← validateFatal data;
  match unmarshal data with
  | Some (JObj ms) =>
      match foldedString "message" ms, foldedString "type" ms, foldedString "nodeId" ms with
      | Some message, Some type, Some nodeID => Ok {| ff_Message := message; ff_Type := type; ff_NodeID := nodeID |}
      | _, _, _ => Err (ErrNew "json: cannot unmarshal")
      end
  | Some JNull => Ok {| ff_Message := ""; ff_Type := ""; ff_NodeID := "" |}
  | _ => Err (ErrNew "json: cannot unmarshal")
  end.

Definition PublishFatalRun (key : Key) (failure : FatalFailure) (w : W) : result unit * W :=
  match Marshal NumberToJSON (fatalTree failure) with
  | Err e => (Err e, w)
  | Ok body =>
      match ParseFatalFailure body with
      | Err e => (Err (Errorf "invalid fatal cause: %w" [AWrap e]), w)
      | Ok _ =>
          match Put key body {| po_ContentType := jsonContentType; po_IfAbsent := true |} w with
          | (Ok _, w') => (Ok tt, w')
          | (Err e, w') => (if isErr e ErrAlreadyExists then Ok tt else Err e, w')
          end
      end
  end.

Definition fatalLimit : Z := 12 * 1024 + 1024.
Definition ReadFatalRun (key : Key) (w : W) : result (option FatalFailure) :=
  match Open key w with
  | Err e => if isErr e ErrNotFound then Ok None else Err e
  | Ok (reader, info) =>
      if fatalLimit <? oi_Size info then Err (ErrNew "fatal cause exceeds size limit")
      else
        body ← readAllLimited (fatalLimit + 1) reader;
        if fatalLimit <? lenOf body then Err (ErrNew "fatal cause exceeds size limit")
        else failure ← ParseFatalFailure body; Ok (Some failure)
  end.

(** The loop of [WithFatalRunCancellation], for [rounds] turns: the cause that cancels the
    invocation, unless it is over first.  [pollDelay] draws the jitter. *)
Fixpoint watchFatalRun (rounds : nat) (key : Key) (backoff : Z) (w : W) : option FatalFailure * W :=
  match rounds with
  | O => (None, w)
  | S rounds =>
      let '(jitter, w1) := pollDelay (backoff / 5) w in
      let '(over, w2) := waitOrDone (backoff - backoff / 5 + jitter) w1 in
      if over then (None, w2)
      else
        match ReadFatalRun key w2 with
        | Ok (Some fatal) => (Some fatal, w2)
        | _ => watchFatalRun rounds key (Z.min (30 * Second) (2 * backoff)) w2
        end
  end.
Definition firstBackoff : Z := 5 * Second.

(** ** Source archives *)
Definition install (archive : SourceArchive) (packageHash : string) (w : W) : result string * W :=
  if negb (IsSHA256Ref (sr_Digest archive)) then
    (Err (Errorf "isolated source package %s has no pinned archive digest" [AStr packageHash]), w)
  else
    let key := sourceArchiveKey packageHash (sr_Digest archive) in
    match sr_Body archive with
    | None => (Ok key, w)
    | Some body =>
        if negb (eqs (DigestBytes body) (sr_Digest archive)) then
          (Err (Errorf "isolated source archive for %s does not match its pinned digest" [AStr packageHash]), w)
        else
          match VerifyArchive body packageHash, MustKey key with
          | Err e, _ => (Err e, w)
          | Ok _, Err e => (Err e, w)
          | Ok _, Ok k =>
              let '(r, w') := Put k body {| po_ContentType := SourceArchiveContentType; po_IfAbsent := true |} w in
              (_ ← ignoreExisting "write isolated source archive: %w" [] r; Ok key, w')
          end
    end.

Definition publishArchive (published : list PublishedSourceArchive) (entry : string * string) (w : W)
    : result (list PublishedSourceArchive) * W :=
  let '(packageHash, archive) := entry in
  match VerifyArchive archive packageHash with
  | Err e => (Err e, w)
  | Ok _ =>
      let archiveHash := DigestBytes archive in
      let key := sourceArchiveKey packageHash archiveHash in
      let record created := {| ps_PackageHash := packageHash; ps_ArchiveHash := archiveHash; ps_Key := key; ps_Created := created |} in
      match MustKey key with
      | Err e => (Err e, w)
      | Ok k =>
          match Put k archive {| po_ContentType := SourceArchiveContentType; po_IfAbsent := true |} w with
          | (Ok _, w') => (Ok (published ++ [record true]), w')
          | (Err e, w') =>
              if isErr e ErrAlreadyExists then
                match Get k w' with
                | Err e => (Err (Errorf "verify existing source archive %s: %w" [AStr key; AWrap e]), w')
                | Ok existing =>
                    let actual := DigestBytes (ob_Body existing) in
                    if negb (eqs actual archiveHash) || negb (eqs (oi_ContentType (ob_Info existing)) SourceArchiveContentType) then
                      (Err (Errorf "datastore already holds a different source archive at %s (%s, %s); expected %s"
                         [AStr key; AStr actual; AStr (oi_ContentType (ob_Info existing)); AStr archiveHash]), w')
                    else (Ok (published ++ [record false]), w')
                end
              else (Err (Errorf "publish source archive %s: %w" [AStr key; AWrap e]), w')
          end
      end
  end.
(** Sorted by package hash, bytewise. *)
Definition PublishSourceArchives (descriptor : DatastoreDescriptor) (archives : gmap string string) (w : W)
    : result (list PublishedSourceArchive) * W :=
  match OpenDatastore descriptor w with
  | (Some e, w1) => (Err (Errorf "open publication datastore: %w" [AWrap e]), w1)
  | (None, w1) =>
      worldFold publishArchive [] (map (λ hash, (hash, default "" (archives !! hash))) (sortStrings (map fst (map_to_list archives)))) w1
  end.

(** ** Preflight *)
Definition trimSuffix (suffix s : string) : string :=
  match stripPrefix (rev (bytesOf suffix)) (rev (bytesOf s)) with Some rest => ofBytes (rev rest) | None => s end.
(** [filepath.Join(dir, name)] *)
Definition joinPath (dir name : string) : string := Clean ((if eqs dir "" then "" else dir +:+ "/") +:+ name).
Definition RecordContentType : string := "application/vnd.massive.realized-environment+json".
(** [environment.Store] *)
Definition StoreEnvironment (record : R) (w : W) : result RunEnvironment * W :=
  match marshalRecord record with
  | Err e => (Err e, w)
  | Ok body =>
      let hash := DigestBytes body in
      match MustKey ("environments/sha256-" +:+ trimPrefix "sha256:" hash +:+ "/realized-environment.json") with
      | Err e => (Err e, w)
      | Ok key =>
          let '(r, w') := Put key body {| po_ContentType := RecordContentType; po_IfAbsent := true |} w in
          (_ ← ignoreExisting "persist realized environment: %w" [] r;
           Ok {| re_RequirementHash := requirementHash record; re_RealizationHash := realizationHash record;
                 re_Record := {| ar_Key := key_value key; ar_Hash := hash; ar_Size := lenOf body; ar_ContentType := RecordContentType |} |}, w')
      end
  end.

(** [PreflightError.Error] of [environment] *)
Definition findingText (finding : Finding) : string :=
  String "010" "  " +:+ fi_Code finding +:+ ": " +:+ fi_Message finding +:+ String "010" "    fix: " +:+ fi_Fix finding.
Definition reportErr (report : Report R) (root : string) : option error :=
  match rp_Findings report with
  | [] => None
  | findings => Some (ErrNew ("dependency preflight failed for " +:+ root +:+ "; no workflow module was imported" +:+
      foldr (λ f acc, findingText f +:+ acc) "" findings))
  end.

Definition MaxArchiveBytes : Z := 16384 * 1024 + 256 * 1024 * 1024 + 10240.
Definition tooLarge (packageHash : string) (bytes : Z) : error :=
  Errorf "datastore source archive for package %s is %d bytes, above the %d-byte limit of any source package"
    [AStr packageHash; AInt bytes; AInt MaxArchiveBytes].

(** The bytes and size of the archive, or a refusal, which another attempt cannot mend. *)
Definition fetchSourceArchive (packageHash digest path : string) (w : W) : result ((string * Z) + error) * W :=
  match MustKey (sourceArchiveKey packageHash digest) with
  | Err e => (Err e, w)
  | Ok key =>
      match Open key w with
      | Err e =>
          (if isErr e ErrNotFound || isErr e ErrAccessDenied then
             Ok (inr (Errorf "source archive %s for package %s is not readable from the datastore (%v); publish the bundle with `massive publish`, or grant the pod read access to it"
               [AStr digest; AStr packageHash; AErr e]))
           else Err (Errorf "open source archive for preflight: %w" [AWrap e]), w)
      | Ok (reader, info) =>
          if MaxArchiveBytes <? oi_Size info then (Ok (inr (tooLarge packageHash (oi_Size info))), w)
          else
            match createFile path w with
            | (Some e, w1) => (Err (Errorf "create source archive scratch file: %w" [AWrap e]), w1)
            | (None, w1) =>
                match readAllLimited (MaxArchiveBytes + 1) reader with
                | Err e => (Err (Errorf "read source archive for preflight: %w" [AWrap e]), w1)
                | Ok body =>
                    match copyTo path body w1 with
                    | (Some e, w2) => (Err (Errorf "read source archive for preflight: %w" [AWrap e]), w2)
                    | (None, w2) =>
                        let written := lenOf body in
                        if MaxArchiveBytes <? written then (Ok (inr (tooLarge packageHash written)), w2)
                        else if negb (written =? oi_Size info) then
                          (Err (Errorf "read %d of the %d bytes of source archive %s" [AInt written; AInt (oi_Size info); AStr digest]), w2)
                        else if negb (eqs (DigestBytes body) digest) then
                          (Ok (inr (Errorf "datastore source archive for package %s does not match its pinned digest %s" [AStr packageHash; AStr digest])), w2)
                        else
                          match seekStart path w2 with
                          | (Some e, w3) => (Err e, w3)
                          | (None, w3) => (Ok (inl (body, written)), w3)
                          end
                    end
                end
            end
      end
  end.

(** [json.Marshal] of the realized environment *)
Definition environmentText (e : RunEnvironment) : string :=
  let r := re_Record e in
  quoted "{'requirementHash':" +:+ marshalString (re_RequirementHash e) +:+
  quoted ",'realizationHash':" +:+ marshalString (re_RealizationHash e) +:+
  quoted ",'record':{'key':" +:+ marshalString (ar_Key r) +:+ quoted ",'hash':" +:+ marshalString (ar_Hash r) +:+
  quoted ",'size':" +:+ itoa (ar_Size r) +:+ quoted ",'contentType':" +:+ marshalString (ar_ContentType r) +:+ "}}".

(** [attemptEnvironmentKey] *)
Definition attemptEnvironmentKey (outputManifestKey : string) : result Key :=
  MustKey (trimSuffix "output-manifest.json" outputManifestKey +:+ "environment.json").

Definition archiveFor (packageHash scratch : string) (source : SourceArchive) : W → result ((string * Z) + error) * W :=
  match sr_Body source with
  | Some body => λ w, (Ok (inl (body, lenOf body)), w)
  | None => fetchSourceArchive packageHash (sr_Digest source) (joinPath scratch "source.tar")
  end.

Definition isolatedPreflight (request : Request) (descriptor : StepInvocationDescriptor) (source : SourceArchive) : Pod W string :=
  let refuse {A} e : Pod W A := throw (Preflight (sd_NodeID descriptor) e) in
  let packageHash := xp_PackageHash (sd_SourcePackage descriptor) in
  scratch ← io (wrapped "create preflight directory: %w" [] (mkdirTemp "massive-preflight-*"));
  deferred (removeAll scratch)
    (let root := joinPath scratch "source" in
     _ ← io (wrapped "create preflight directory: %w" [] (failing (mkdir root)));
     fetched ← io (archiveFor packageHash scratch source);
     match fetched with
     | inr refusal => refuse refusal
     | inl (archive, size) =>
         extracted ← see (ExtractArchive archive size packageHash root);
         match extracted with
         | Some e => refuse e
         | None =>
             checked ← see (CheckEnvironment (rq_setRoot root request));
             over ← see contextErr;
             match over with
             | Some e => throw (Plain e)
             | None =>
                 match checked with
                 | inr (ProjectError e) => refuse e
                 | inr (OtherError e) => throw (Plain e)
                 | inl report =>
                     match reportErr report ("source package " +:+ packageHash) with
                     | Some e => refuse e
                     | None =>
                         realized ← io (StoreEnvironment (rp_Record report));
                         key ← orPlain (attemptEnvironmentKey (xo_ManifestKey (sd_Output descriptor)));
                         _ ← io (wrapped "record attempt environment: %w" [] (putJSON key (environmentText realized)));
                         mret (rp_Executable report)
                     end
                 end
             end
         end
     end).

(** ** One attempt of a step or of a map item *)
Definition noArchive : SourceArchive := {| sr_Digest := ""; sr_Body := None |}.

Definition checkConfig (config : IsolatedStepConfig) : result (WorkflowPlan * DatastoreDescriptor) :=
  match is_Plan config with
  | None => Err (ErrNew "isolated step requires a workflow plan")
  | Some plan =>
      match is_Datastore config with
      | None => Err (ErrNew "isolated step requires datastore descriptor, project id, and run id")
      | Some binding =>
          if eqs (is_ProjectID config) "" || eqs (is_RunID config) "" then
            Err (ErrNew "isolated step requires datastore descriptor, project id, and run id")
          else if negb (ValidSafePathSegment (is_RunID config)) then
            Err (InvalidRunInputError "run id" (is_RunID config) "must be a safe path segment")
          else Ok (plan, binding)
      end
  end.

Definition isolatedNode (config : IsolatedStepConfig) (index : executionIndex) (mapItemIndex : option Z) : result PlanNode :=
  let kind := match mapItemIndex with Some _ => "map" | None => "step" end in
  match ix_nodesByID index !! is_NodeID config with
  | Some node =>
      let fits := match mapItemIndex with
                  | None => eqs (planKind node) "step" || eqs (planKind node) "exit-hook"
                  | Some _ => eqs (planKind node) "map"
                  end in
      if fits then Ok node else Err (Errorf "isolated node %q is not a plan %s" [AStr (is_NodeID config); AStr kind])
  | None => Err (Errorf "isolated node %q is not a plan %s" [AStr (is_NodeID config); AStr kind])
  end.

Definition checkAttempt (config : IsolatedStepConfig) (node : PlanNode) (policy : executionPolicy) : result Z :=
  let attempt := Z.max (is_Attempt config) 1 in
  if ep_maxAttempts policy <? attempt then
    Err (Errorf "isolated node %s attempt %d exceeds its retry policy of %d attempts"
      [AStr (GetString (pn_Id node)); AInt attempt; AInt (ep_maxAttempts policy)])
  else Ok attempt.

Definition putSchema (schema : SchemaEntry) (w : W) : result unit * W :=
  let hash := GetString (se_Hash schema) in
  let body := GetString (se_CanonicalJson schema) in
  match verifyDigest sha256Hex hash body, blobKeyForHash hash with
  | Err e, _ => (Err e, w)
  | Ok _, Err e => (Err e, w)
  | Ok _, Ok key =>
      let '(r, w') := putJSON key body w in (ignoreExisting "write isolated schema %s: %w" [AStr hash] r, w')
  end.

Definition putPackage (config : IsolatedStepConfig) (packages : gmap string sourcePackageArtifact) (sourcePackage : SourcePackageRef)
    (w : W) : result (gmap string sourcePackageArtifact) * W :=
  let packageHash := GetString (kr_PackageHash sourcePackage) in
  let archive := default noArchive (is_SourceArchives config !! packageHash) in
  match install archive packageHash w with
  | (Err e, w') => (Err e, w')
  | (Ok key, w') =>
      (Ok (<[GetString (kr_PackageId sourcePackage) :=
         {| sa_PackageID := GetString (kr_PackageId sourcePackage); sa_Language := GetString (kr_Language sourcePackage);
            sa_PackageHash := packageHash; sa_Key := key; sa_ArchiveHash := sr_Digest archive;
            sa_ContentType := SourceArchiveContentType |}]> packages), w')
  end.

Definition isolatedScope (node : PlanNode) (mapItemIndex : option Z) : option ExecutionScope := itemScope node <$> mapItemIndex.
Definition isolatedSchema (node : PlanNode) (mapItemIndex : option Z) : string :=
  match mapItemIndex with Some _ => GetString (pn_ItemInputSchema node) | None => GetString (pn_InputSchema node) end.

(** What the runner is started with. *)
Record Prepared := {
  pd_Index : executionIndex;
  pd_Node : PlanNode;
  pd_Policy : executionPolicy;
  pd_Attempt : Z;
  pd_Descriptor : StepInvocationDescriptor;
}.

Definition putInput (key : Key) (input : string) (schema : string) (w : W) : result DataArtifact * W :=
  match putJSON key input w with
  | (Err e, w') => (Err (Errorf "write isolated step input: %w" [AWrap e]), w')
  | (Ok _, w') =>
      (Ok {| da_Key := key_value key; da_Hash := DigestBytes input; da_ContentType := jsonContentType; da_Schema := schema |}, w')
  end.

Definition prepareInvocation (config : IsolatedStepConfig) (plan : WorkflowPlan) (binding : DatastoreDescriptor)
    (inputJSON : string) (mapItemIndex : option Z) : Pod W Prepared :=
  index ← orPlain (buildExecutionIndex ValidateExecution plan);
  node ← orPlain (isolatedNode config index mapItemIndex);
  let policy := policyForContract (ix_contractsByRef index !! GetString (pn_ContractRef node)) in
  attempt ← orPlain (checkAttempt config node policy);
  _ ← io (worldFold (λ _ schema, putSchema schema) tt (wp_Schemas plan));
  packages ← io (worldFold (putPackage config) ∅ (wp_SourcePackages plan));
  let index := ix_setPackages packages index in
  input ← orPlain (wrapErr "canonicalize isolated step input: %w" [] (CanonicalizeJSON NumberToJSON inputJSON));
  let projectKey := NormalizeProjectKey sha256Hex (is_ProjectID config) in
  key ← orPlain (runInputKey projectKey (is_RunID config) (GetString (pn_Id node)) (isolatedScope node mapItemIndex));
  artifact ← io (putInput key input (isolatedSchema node mapItemIndex));
  descriptor ← orPlain
    match mapItemIndex with
    | None => descriptorForStep (GetString (wp_PlanHash plan)) binding projectKey (is_RunID config) node artifact index attempt
    | Some i => descriptorForMapItem (GetString (wp_PlanHash plan)) binding projectKey (is_RunID config) node artifact index i attempt
    end;
  mret {| pd_Index := index; pd_Node := node; pd_Policy := policy; pd_Attempt := attempt; pd_Descriptor := descriptor |}.

Definition PythonRunnerCommand (python : string) : list string := [python; "-I"; "-m"; "massive.runner"; "{descriptor}"].
Definition runnerCommand (config : IsolatedStepConfig) (p : Prepared) : Pod W (list string) :=
  let descriptor := pd_Descriptor p in
  if eqs (xs_Language (sd_Symbol descriptor)) "python" then
    if eqs (rq_Python (is_Environment config)) "" then
      throw (Preflight (GetString (pn_Id (pd_Node p)))
        (ErrNew "Python tasks need MASSIVE_PYTHON; launch through the massive command installed by massive-workflows"))
    else
      python ← isolatedPreflight (is_Environment config) descriptor
        (default noArchive (is_SourceArchives config !! xp_PackageHash (sd_SourcePackage descriptor)));
      mret (PythonRunnerCommand python ++
        if eqs (is_TerminationLog config) "" then [] else ["--termination-log"; is_TerminationLog config])
  else mret [].

(** A runner that was killed while the record says the runtime was at work. *)
Definition checkDeath (config : IsolatedStepConfig) (outcomes : list StepInvocationOutcome) (err : option error) (w : W)
    : option error * W :=
  match err, outcomes with
  | None, [outcome] =>
      if negb (eqs (is_TerminationLog config) "") && eqs (so_Status outcome) StatusFailed && (so_ExitCode outcome <? 0) &&
         (so_TimedOutAfter outcome =? 0) then
        match readFile (is_TerminationLog config) w with
        | (Err e, w') => (Some (Errorf "runner died without execution phase evidence: %w" [AWrap e]), w')
        | (Ok body, w') =>
            match Parse validateEvidence body with
            | Err e => (Some (Errorf "runner died with invalid execution phase evidence: %w" [AWrap e]), w')
            | Ok evidence =>
                if eqs (ph_Phase evidence) Author then (None, w')
                else (Some (Errorf "runner died outside author execution (phase %s)" [AStr (ph_Phase evidence)]), w')
            end
        end
      else (None, w)
  | _, _ => (err, w)
  end.

Definition invocationFailure (p : Prepared) (mapItemIndex : option Z) (outcome : StepInvocationOutcome) : InvocationFailure :=
  {| if_NodeID := GetString (pn_Id (pd_Node p)); if_Attempt := pd_Attempt p; if_MaxAttempts := ep_maxAttempts (pd_Policy p);
     if_ExitCode := so_ExitCode outcome; if_TimedOutAfter := so_TimedOutAfter outcome;
     if_Diagnostic := runnerDiagnostic outcome +:+ attemptSuffix (pd_Attempt p) (pd_Policy p); if_Fatal := so_Fatal outcome;
     if_ItemFailure :=
       match mapItemIndex, mapItemFailure outcome (pd_Attempt p) with
       | Some _, (failure, true) => Some failure
       | _, _ => None
       end |}.

Definition isolatedOutput (p : Prepared) (mapItemIndex : option Z) (outcomes : list StepInvocationOutcome) : Pod W string :=
  match outcomes with
  | [outcome] =>
      if eqs (so_Status outcome) StatusSucceeded then
        output ← io (λ w, (resolveOutputArtifact NumberToJSON sha256Hex ValidateJSONSchema validateManifestSchema
          (pd_Index p) (pd_Descriptor p) w, w));
        mret (no_Body output)
      else throw (Invocation (invocationFailure p mapItemIndex outcome))
  | _ => throw (Plain (Errorf "isolated step %s produced no outcome" [AStr (GetString (pn_Id (pd_Node p)))]))
  end.

Definition runPrepared (config : IsolatedStepConfig) (mapItemIndex : option Z) (p : Prepared) : Pod W string :=
  command ← runnerCommand config p;
  '(outcomes, err) ← see (invokeSteps command (is_WorkingDir config)
    {| sb_Steps := [{| in_Descriptor := pd_Descriptor p; in_Timeout := ep_timeout (pd_Policy p) |}]; sb_MaxConcurrency := 1 |});
  err ← see (checkDeath config outcomes err);
  phase ← see (Write (is_TerminationLog config) {| ph_Phase := ArgoStatus.Publish; ph_Fatal := false |});
  match phase with
  | Err e => throw (Plain (ErrJoin (option_list err ++ [e])))
  | Ok _ =>
      match err with
      | Some e => match asFatal e with None => throw (Plain e) | Some _ => isolatedOutput p mapItemIndex outcomes end
      | None => isolatedOutput p mapItemIndex outcomes
      end
  end.

Definition runIsolatedInvocation (config : IsolatedStepConfig) (inputJSON : string) (mapItemIndex : option Z) : Pod W string :=
  _ ← io (Write (is_TerminationLog config) {| ph_Phase := Hydrate; ph_Fatal := false |});
  '(plan, binding) ← orPlain (checkConfig config);
  _ ← io (wrapped "open isolated datastore: %w" [] (failing (OpenDatastore binding)));
  prepared ← prepareInvocation config plan binding inputJSON mapItemIndex;
  runPrepared config mapItemIndex prepared.

Definition RunIsolatedStep (config : IsolatedStepConfig) (inputJSON : string) : Pod W string :=
  runIsolatedInvocation config inputJSON None.
Definition RunIsolatedMapItem (config : IsolatedStepConfig) (inputJSON : string) (itemIndex : Z) : Pod W string :=
  if itemIndex <? 0 then throw (Plain (Errorf "isolated map item index %d must be nonnegative" [AInt itemIndex]))
  else runIsolatedInvocation config inputJSON (Some itemIndex).
End Isolated.
