(* ===== verification/IsolatedSafety.v ===== *)
(** * What a remote step promises

    A pod returns a value only when its own attempt published it; what its runner reads is in
    the store; a kill is reported as the author's only on evidence; the first fatal cause of a
    run is the one that everybody reads; published archives are there, and stay. *)

From S2P Require Import Prelude Utf16 Text SpecTypes PlanTypes Json JsonRaw Canonical CanonicalText CanonicalForm SourceIdentity Journal JournalSafety Datastore Encode Artifact ArtifactSafety MapExec Retry Index Resolution World IndexSafety ArgoPods ArgoStatus ValueParam ValueEnvelopes Semantics Compile CompileSample Isolated.
From Stdlib Require Import SpecFloat.
#[local] Open Scope Z_scope.

(** ** Inversion of pods *)
Section Inversion.
Context {W : Type}.
Lemma pod_bind_inl {A B} (m : Pod W A) (f : A → Pod W B) w b w' :
  (m ≫= f) w = (inl b, w') ↔ ∃ a w1, m w = (inl a, w1) ∧ f a w1 = (inl b, w').
Proof.
  unfold mbind, Pod_bind. destruct (m w) as [[a|e] w1].
  - split; [by eauto|]. by intros (? & ? & [= <- <-] & ?).
  - split; [done|]. by intros (? & ? & ? & ?).
Qed.
Lemma pod_bind_inr {A B} (m : Pod W A) (f : A → Pod W B) w e w' :
  (m ≫= f) w = (inr e, w') → m w = (inr e, w') ∨ ∃ a w1, m w = (inl a, w1) ∧ f a w1 = (inr e, w').
Proof. unfold mbind, Pod_bind. destruct (m w) as [[a|e'] w1]; [by eauto|]. intros [= <- <-]. by left. Qed.
Lemma orPlain_inl {A} (r : result A) (w : W) a w' : orPlain r w = (inl a, w') ↔ r = Ok a ∧ w' = w.
Proof. unfold orPlain. destruct r; naive_solver. Qed.
Lemma io_inl {A} (f : W → result A * W) w a w' : io f w = (inl a, w') ↔ f w = (Ok a, w').
Proof. unfold io, orPlain. destruct (f w) as [[a'|e] w1]; naive_solver. Qed.
Lemma orPlain_inr {A} (r : result A) (w : W) e w' : orPlain r w = (inr e, w') → ∃ e', e = Plain e'.
Proof. unfold orPlain. destruct r; [done|]. intros [= <- _]. by eexists. Qed.
Lemma io_inr {A} (f : W → result A * W) w e w' : io f w = (inr e, w') → ∃ e', e = Plain e'.
Proof. unfold io. destruct (f w) as [r w1]. apply orPlain_inr. Qed.
Lemma see_inl {A} (f : W → A * W) w a w' : see f w = (inl a, w') ↔ f w = (a, w').
Proof. unfold see. destruct (f w). naive_solver. Qed.
Lemma see_not_inr {A} (f : W → A * W) w e w' : ¬ see f w = (inr e, w').
Proof. unfold see. by destruct (f w). Qed.
Lemma pod_bind_ends {A B} (m : Pod W A) (f : A → Pod W B) w r w' : (m ≫= f) w = (r, w') →
  (∃ e, m w = (inr e, w') ∧ r = inr e) ∨ ∃ a w1, m w = (inl a, w1) ∧ f a w1 = (r, w').
Proof. unfold mbind, Pod_bind. destruct (m w) as [[a|e] w1]; [by eauto|]. intros [= <- <-]. left. by eexists. Qed.
Lemma see_bind {A B} (f : W → A * W) (g : A → Pod W B) w : (see f ≫= g) w = let '(a, w1) := f w in g a w1.
Proof. unfold mbind, Pod_bind, see. by destruct (f w). Qed.
End Inversion.

#[local] Existing Instance extends_preorder.
Section Puts.
Context {W : Type} `{!Datastore W} `{!DatastoreLaws W}.
Lemma conditional_put_view key body contentType w r w' :
  Put key body {| po_ContentType := contentType; po_IfAbsent := true |} w = (r, w') →
  extends w w' ∧ (is_Some (view w !! key) → view w' = view w).
Proof.
  intros Hp. split.
  - intros k x Hx. destruct (decide (k = key)) as [->|Hne]; [|by rewrite (put_frame _ _ _ _ _ _ _ Hp Hne)].
    rewrite (put_absent _ _ _ _ _ _ Hp); [done|done|by eexists].
  - intros Hs. apply map_eq. intros k. destruct (decide (k = key)) as [->|Hne]; [by apply (put_absent _ _ _ _ _ _ Hp)|].
    by apply (put_frame _ _ _ _ _ _ _ Hp).
Qed.
End Puts.

Section Safety.
Context (NumberToJSON : spec_float → result string) (sha256Hex : string → string).
Context (ValidateJSONSchema : string → string → result unit) (validateManifestSchema validateEvidence validateFatal : string → result unit).
Context (ValidateExecution : WorkflowPlan → result unit) (VerifyArchive : string → string → result unit).
Context {W R : Type} `{!Datastore W} `{!Opener W} `{!PodWorld W R} `{!DatastoreLaws W} (marshalRecord : R → result string) (requirementHash realizationHash : R → string).
#[local] Abbreviation runIsolatedInvocation := (Isolated.runIsolatedInvocation NumberToJSON sha256Hex ValidateJSONSchema validateManifestSchema
  validateEvidence ValidateExecution VerifyArchive marshalRecord requirementHash realizationHash).
#[local] Abbreviation prepareInvocation := (Isolated.prepareInvocation NumberToJSON sha256Hex ValidateExecution VerifyArchive).
#[local] Abbreviation runPrepared := (Isolated.runPrepared NumberToJSON sha256Hex ValidateJSONSchema validateManifestSchema
  validateEvidence marshalRecord requirementHash realizationHash).
#[local] Abbreviation checkDeath := (Isolated.checkDeath validateEvidence).
#[local] Abbreviation isolatedOutput := (Isolated.isolatedOutput NumberToJSON sha256Hex ValidateJSONSchema validateManifestSchema).
#[local] Abbreviation runnerCommand := (Isolated.runnerCommand sha256Hex marshalRecord requirementHash realizationHash).
#[local] Abbreviation Write := (Isolated.Write validateEvidence).

(** ** Whose invocation it is *)
Definition isolatedProducer (config : IsolatedStepConfig) (plan : WorkflowPlan) (item : option Z) : Producer :=
  {| pr_ProjectKey := NormalizeProjectKey sha256Hex (is_ProjectID config); pr_PlanHash := GetString (wp_PlanHash plan);
     pr_RunID := is_RunID config; pr_NodeID := is_NodeID config; pr_Attempt := Z.max (is_Attempt config) 1;
     pr_Scope := (λ i, {| es_Frames := [{| fr_Kind := "map-item"; fr_MapID := is_NodeID config; fr_Index := i |}] |}) <$> item |}.

Lemma descriptorForStep_Ok planHash binding projectKey runID node input index attempt d :
  descriptorForStep planHash binding projectKey runID node input index attempt = Ok d →
  descriptorProducer d = {| pr_ProjectKey := projectKey; pr_PlanHash := planHash; pr_RunID := runID;
    pr_NodeID := GetString (pn_Id node); pr_Attempt := attempt; pr_Scope := None |} ∧
  sd_MaxAttempts d = ep_maxAttempts (policyForContract (ix_contractsByRef index !! GetString (pn_ContractRef node))) ∧
  xi_Artifact (sd_Input d) = {| xa_Key := da_Key input; xa_Hash := da_Hash input; xa_ContentType := da_ContentType input |}.
Proof.
  unfold descriptorForStep. destruct (ix_symbolsByRef index !! _); [|done]. destruct (ix_packagesByID index !! _); [|done].
  destruct (ix_contractsByRef index !! _) as [contract|]; [|done]. by intros (key & _ & [= <-])%bind_Ok.
Qed.

(** What [prepareInvocation] fixes. *)
Record preparedFor (config : IsolatedStepConfig) (plan : WorkflowPlan) (item : option Z) (p : Prepared) : Prop := {
  pf_producer : descriptorProducer (pd_Descriptor p) = isolatedProducer config plan item;
  pf_attempt : pd_Attempt p = Z.max (is_Attempt config) 1;
  pf_attempts : pd_Attempt p <= ep_maxAttempts (pd_Policy p);
  pf_max : sd_MaxAttempts (pd_Descriptor p) = ep_maxAttempts (pd_Policy p);
  pf_node : GetString (pn_Id (pd_Node p)) = is_NodeID config;
  pf_kind : match item with
            | None => planKind (pd_Node p) = "step" ∨ planKind (pd_Node p) = "exit-hook"
            | Some _ => planKind (pd_Node p) = "map"
            end;
}.

Lemma isolatedNode_Ok config index item node : isolatedNode config index item = Ok node →
  ix_nodesByID index !! is_NodeID config = Some node ∧
  match item with None => planKind node = "step" ∨ planKind node = "exit-hook" | Some _ => planKind node = "map" end.
Proof.
  unfold isolatedNode. destruct (ix_nodesByID index !! _) as [n|]; [|done]. destruct item as [i|].
  - destruct (eqs (planKind n) "map") eqn:E; [|done]. intros [= <-]. split; [done|]. by apply eqs_spec in E.
  - destruct (eqs (planKind n) "step" || eqs (planKind n) "exit-hook") eqn:E; [|done]. intros [= <-]. split; [done|].
    apply orb_prop in E as [E|E]; apply eqs_spec in E; auto.
Qed.

Lemma checkAttempt_Ok config node policy attempt : checkAttempt config node policy = Ok attempt →
  attempt = Z.max (is_Attempt config) 1 ∧ attempt <= ep_maxAttempts policy.
Proof. unfold checkAttempt. destruct (_ <? _) eqn:E; [done|]. intros [= <-]. lia. Qed.

Lemma prepareInvocation_for config plan binding inputJSON item w p w' :
  prepareInvocation config plan binding inputJSON item w = (inl p, w') → preparedFor config plan item p.
Proof.
  unfold Isolated.prepareInvocation. intros (index & w1 & [Hi ->]%orPlain_inl & H)%pod_bind_inl.
  apply pod_bind_inl in H as (node & w2 & [Hnode ->]%orPlain_inl & H).
  apply pod_bind_inl in H as (attempt & w3 & [Hat ->]%orPlain_inl & H).
  apply pod_bind_inl in H as ([] & w4 & _ & H). apply pod_bind_inl in H as (packages & w5 & _ & H).
  apply pod_bind_inl in H as (input & w6 & _ & H). apply pod_bind_inl in H as (key & w7 & _ & H).
  apply pod_bind_inl in H as (artifact & w8 & _ & H). apply pod_bind_inl in H as (d & w9 & [Hd ->]%orPlain_inl & H).
  injection H as <- <-. apply isolatedNode_Ok in Hnode as [Hnode Hkind]. apply checkAttempt_Ok in Hat as [-> Hle].
  destruct (buildExecutionIndex_Ok _ _ _ Hi) as (graph & order & _ & _ & Hidx & _).
  pose proof (ip_id _ _ Hidx _ _ Hnode) as Hid.
  assert (descriptorProducer d = isolatedProducer config plan item ∧
    sd_MaxAttempts d = ep_maxAttempts (policyForContract (ix_contractsByRef index !! GetString (pn_ContractRef node)))) as [Hp Hm].
  { destruct item as [i|].
    - unfold descriptorForMapItem in Hd. apply bind_Ok in Hd as (d0 & (Hp & Hm & _)%descriptorForStep_Ok & Hd).
      apply bind_Ok in Hd as (key' & _ & [= <-]). split; [|done]. unfold descriptorProducer in *. cbn in *. injection Hp. intros.
      unfold isolatedProducer, itemScope. cbn. rewrite Hid in *. by f_equal.
    - apply descriptorForStep_Ok in Hd as (Hp & Hm & _). split; [|done]. rewrite Hp. unfold isolatedProducer. cbn. by rewrite Hid. }
  by split.
Qed.

(** ** After the runner *)

(** What the code after the preparation does, when it ends in [r]. *)
Lemma runPrepared_ends config item p w r w' : runPrepared config item p w = (r, w') →
  (∃ e, runnerCommand config p w = (inr e, w') ∧ r = inr e) ∨
  ∃ command w1 outcomes err w2 err' w3 phase w4,
    runnerCommand config p w = (inl command, w1) ∧
    invokeSteps command (is_WorkingDir config)
      {| sb_Steps := [{| in_Descriptor := pd_Descriptor p; in_Timeout := ep_timeout (pd_Policy p) |}]; sb_MaxConcurrency := 1 |} w1 =
      ((outcomes, err), w2) ∧
    checkDeath config outcomes err w2 = (err', w3) ∧
    Write (is_TerminationLog config) {| ph_Phase := ArgoStatus.Publish; ph_Fatal := false |} w3 = (phase, w4) ∧
    match phase with
    | Err _ => ∃ e, r = inr (Plain e)
    | Ok _ =>
        match err' with
        | Some e => match asFatal e with Some _ => isolatedOutput p item outcomes w4 = (r, w') | None => r = inr (Plain e) end
        | None => isolatedOutput p item outcomes w4 = (r, w')
        end
    end.
Proof.
  unfold Isolated.runPrepared. intros [(e & He & ->)|(command & w1 & Hc & H)]%pod_bind_ends; [left; by exists e|right].
  rewrite see_bind in H. destruct (invokeSteps command _ _ w1) as [[outcomes err] w2] eqn:Ei.
  rewrite see_bind in H. destruct (checkDeath config outcomes err w2) as [err' w3] eqn:Ed.
  rewrite see_bind in H. destruct (Write _ _ w3) as [phase w4] eqn:Ew. exists command, w1, outcomes, err, w2, err', w3, phase, w4.
  split_and!; try done. destruct phase as [|e]; [|injection H as <- _; by eexists].
  destruct err' as [e|]; [|done]. destruct (asFatal e); [done|]. by injection H as <- _.
Qed.

Lemma runIsolated_inv config inputJSON item w r w' : runIsolatedInvocation config inputJSON item w = (r, w') →
  (∃ e, r = inr (Plain e)) ∨
  ∃ plan binding p w1 w2, is_Plan config = Some plan ∧ is_Datastore config = Some binding ∧
    prepareInvocation config plan binding inputJSON item w1 = (inl p, w2) ∧ runPrepared config item p w2 = (r, w').
Proof.
  unfold Isolated.runIsolatedInvocation. intros H.
  assert (∀ A (m : Pod W A) f, (∀ w e w', m w = (inr e, w') → ∃ e', e = Plain e') → ∀ w, (m ≫= f) w = (r, w') →
    (∃ e, r = inr (Plain e)) ∨ ∃ a w1, m w = (inl a, w1) ∧ f a w1 = (r, w')) as Hstep.
  { intros A m f He w0 [(e & Hm & ->)|Hm]%pod_bind_ends; [|by right]. destruct (He _ _ _ Hm) as [e' ->]. left. by eexists. }
  apply Hstep in H as [?|(u & w1 & _ & H)]; [by left| |intros ???; apply io_inr].
  apply Hstep in H as [?|([plan binding] & w2 & [Hc ->]%orPlain_inl & H)]; [by left| |intros ???; apply orPlain_inr].
  apply Hstep in H as [?|(u' & w3 & _ & H)]; [by left| |intros ???; apply io_inr].
  apply Hstep in H as [?|(p & w4 & Hp & H)]; [by left| |].
  - right. unfold checkConfig in Hc. destruct (is_Plan config) as [plan'|]; [|done]. destruct (is_Datastore config) as [b|]; [|done].
    destruct (_ || _); [done|]. destruct (negb _); [done|]. injection Hc as -> ->. by exists plan, binding, p, w3, w4.
  - clear. intros w e w'. unfold Isolated.prepareInvocation.
    repeat (intros [He|(? & ? & _ & He)]%pod_bind_inr; [by first [apply orPlain_inr in He|apply io_inr in He]|revert He]).
    done.
Qed.


(** What [checkDeath] lets pass. *)
Lemma checkDeath_passes config outcome w w' : checkDeath config [outcome] None w = (None, w') →
  is_TerminationLog config ≠ "" → so_Status outcome = StatusFailed → so_ExitCode outcome < 0 → so_TimedOutAfter outcome = 0 →
  ∃ body evidence, readFile (is_TerminationLog config) w = (Ok body, w') ∧ Parse validateEvidence body = Ok evidence ∧
    ph_Phase evidence = Author.
Proof.
  intros Hd Hlog Hs Hx Ht. unfold Isolated.checkDeath in Hd.
  rewrite (proj2 (eqs_false _ _) Hlog), (proj2 (eqs_spec _ _) Hs), (proj2 (Z.ltb_lt _ _) Hx), Ht in Hd. cbn [negb andb Z.eqb] in Hd.
  destruct (readFile _ w) as [[body|e] w1] eqn:Er; [|done]. destruct (Parse validateEvidence body) as [evidence|e] eqn:Ep; [|done].
  destruct (eqs (ph_Phase evidence) Author) eqn:Ea; [|done]. injection Hd as <-. exists body, evidence. by apply eqs_spec in Ea.
Qed.

(** The preflight never speaks for the runner. *)
Definition quiet {A} (m : Pod W A) : Prop := ∀ w failure w', m w ≠ (inr (Invocation failure), w').
Lemma quiet_bind {A B} (m : Pod W A) (f : A → Pod W B) : quiet m → (∀ a, quiet (f a)) → quiet (m ≫= f).
Proof. intros Hm Hf w failure w' [H|(a & w1 & _ & H)]%pod_bind_inr; [by eapply Hm|by eapply Hf]. Qed.
Lemma quiet_io {A} (f : W → result A * W) : quiet (io f).
Proof. intros w failure w' H. by apply io_inr in H as [e ?]. Qed.
Lemma quiet_orPlain {A} (r : result A) : quiet (orPlain r).
Proof. intros w failure w' H. by apply orPlain_inr in H as [e ?]. Qed.
Lemma quiet_see {A} (f : W → A * W) : quiet (see f).
Proof. intros w failure w' H. by apply see_not_inr in H. Qed.
Lemma quiet_deferred {A} f (m : Pod W A) : quiet m → quiet (deferred f m).
Proof. intros Hm w failure w'. unfold deferred. destruct (m w) as [r w1] eqn:E. intros [= -> _]. by eapply Hm. Qed.
Lemma quiet_throw {A} e : (∀ failure, e ≠ Invocation failure) → quiet (throw e : Pod W A).
Proof. intros He w failure w' [= H _]. by eapply He. Qed.
Lemma quiet_ret {A} (a : A) : quiet (mret a : Pod W A).
Proof. by intros w failure w'. Qed.

Lemma runnerCommand_quiet config p : quiet (runnerCommand config p).
Proof.
  unfold Isolated.runnerCommand, isolatedPreflight.
  repeat first [ apply quiet_bind; [|intros] | apply quiet_io | apply quiet_orPlain | apply quiet_see | apply quiet_deferred
               | by apply quiet_throw | apply quiet_ret | case_match ].
Qed.

(** Reading the record never gives the error of a fatal run. *)
Context (readFile_plain : ∀ path w e w', readFile path w = (Err e, w') → asFatal e = None).
Context (evidence_plain : ∀ message e, validateEvidence message = Err e → asFatal e = None).
Lemma Parse_plain message e : Parse validateEvidence message = Err e → asFatal e = None.
Proof.
  unfold Parse. destruct (_ <? _); [by intros [= <-]|]. destruct (validateEvidence message) as [[]|e'] eqn:E;
    [|intros [= <-]; by eapply evidence_plain]. cbn [mbind result_bind]. repeat (case_match; try done); by intros [= <-].
Qed.
Lemma asFatal_wrap format e : asFatal e = None → asFatal (Errorf format [AWrap e]) = None.
Proof. unfold asFatal. cbn. by intros ->. Qed.
Lemma checkDeath_plain config outcomes w e w' : checkDeath config outcomes None w = (Some e, w') → asFatal e = None.
Proof.
  unfold Isolated.checkDeath. destruct outcomes as [|outcome [|]]; [done| |done]. destruct (_ && _); [|done].
  destruct (readFile _ w) as [[body|e'] w1] eqn:Er.
  - destruct (Parse _ body) as [evidence|e'] eqn:Ep.
    + destruct (eqs _ _); [done|]. by intros [= <- _].
    + intros [= <- _]. apply asFatal_wrap. by eapply Parse_plain.
  - intros [= <- _]. apply asFatal_wrap. by eapply readFile_plain.
Qed.

(** The configuration of the attempt a target schedules next. *)
Definition withAttempt (attempt : Z) (config : IsolatedStepConfig) : IsolatedStepConfig :=
  {| is_Plan := is_Plan config; is_NodeID := is_NodeID config; is_Datastore := is_Datastore config; is_ProjectID := is_ProjectID config;
     is_RunID := is_RunID config; is_Environment := is_Environment config; is_WorkingDir := is_WorkingDir config;
     is_SourceArchives := is_SourceArchives config; is_Attempt := attempt; is_TerminationLog := is_TerminationLog config |}.


(** ** Published archives *)
Context (open_view : ∀ descriptor w e w', OpenDatastore descriptor w = (e, w') → view w' = view w).
#[local] Abbreviation publishArchive := (Isolated.publishArchive sha256Hex VerifyArchive).
#[local] Abbreviation PublishSourceArchives := (Isolated.PublishSourceArchives sha256Hex VerifyArchive).
#[local] Abbreviation DigestBytes := (Canonical.DigestBytes sha256Hex).

(** The archive of a record is in the store, under its content's address. *)
Definition archived (w : W) (packageHash archive : string) (record : PublishedSourceArchive) : Prop :=
  ps_PackageHash record = packageHash ∧ ps_ArchiveHash record = DigestBytes archive ∧ VerifyArchive archive packageHash = Ok tt ∧
  ps_Key record = sourceArchiveKey packageHash (DigestBytes archive) ∧
  ∃ key body, MustKey (ps_Key record) = Ok key ∧ view w !! key = Some (SourceArchiveContentType, body) ∧
    DigestBytes body = DigestBytes archive.

Lemma archived_extends w w' packageHash archive record : extends w w' → archived w packageHash archive record → archived w' packageHash archive record.
Proof. intros He (H1 & H2 & H3 & H4 & key & body & Hk & Hv & Hd). split_and!; try done. exists key, body. split_and!; auto. Qed.

Lemma publishArchive_step published packageHash archive w published' w' :
  publishArchive published (packageHash, archive) w = (Ok published', w') →
  ∃ record, published' = published ++ [record] ∧ extends w w' ∧ archived w' packageHash archive record ∧
    ∀ old, archived w packageHash archive old → ps_Created record = false ∧ view w' = view w.
Proof.
  unfold Isolated.publishArchive. destruct (VerifyArchive archive packageHash) as [[]|] eqn:Ev; [|done].
  destruct (MustKey (sourceArchiveKey packageHash (DigestBytes archive))) as [key|] eqn:Ek; [|done].
  destruct (Put key archive _ w) as [[info|e] w1] eqn:Ep; pose proof (conditional_put_view _ _ _ _ _ _ Ep) as [Hext Hsame].
  - intros [= <- <-]. eexists. destruct (put_ok _ _ _ _ _ _ Ep) as (_ & Hnone & Hview). split_and!; [done|done| |].
    + split_and!; try done. exists key, archive. split_and!; [done| |done]. rewrite Hview, lookup_insert_eq. done.
    + intros old (_ & _ & _ & -> & key' & body & Hk' & Hv & _). rewrite Ek in Hk'. injection Hk' as <-.
      rewrite Hnone in Hv by done. done.
  - destruct (isErr e ErrAlreadyExists) eqn:Ee; [|done]. destruct (Get key w1) as [existing|] eqn:Eg; [|done].
    destruct (get_ok _ _ _ Eg) as (ct & body & Hv & ->). cbn [ob_Body ob_Info oi_ContentType objectInfo].
    destruct (eqs (DigestBytes body) (DigestBytes archive)) eqn:Ed; [|done]. destruct (eqs ct SourceArchiveContentType) eqn:Et; [|done].
    apply eqs_spec in Ed, Et. subst ct. intros [= <- <-]. eexists. split_and!; [done|done| |].
    + split_and!; try done. by exists key, body.
    + intros old _. split; [done|]. apply Hsame. by eapply put_refused.
Qed.

Lemma publishArchives_fold entries : ∀ published w published' w',
  worldFold publishArchive published entries w = (Ok published', w') →
  ∃ records, published' = published ++ records ∧ extends w w' ∧
    Forall2 (λ entry record, archived w' entry.1 entry.2 record) entries records ∧
    (Forall (λ entry, ∃ old, archived w entry.1 entry.2 old) entries →
     view w' = view w ∧ Forall (λ record, ps_Created record = false) records).
Proof.
  induction entries as [|[packageHash archive] entries IH]; intros published w published' w'; cbn [worldFold].
  { intros [= <- <-]. exists []. rewrite app_nil_r. split_and!; [done|done|constructor|]. intros _. split; [done|constructor]. }
  destruct (publishArchive published (packageHash, archive) w) as [[acc|e] w1] eqn:E1; [|done].
  apply publishArchive_step in E1 as (record & -> & Hext1 & Har & Hold1). intros H1.
  destruct (IH _ _ _ _ H1) as (records & -> & Hext & Hrecords & Hold). exists (record :: records). rewrite <- app_assoc.
  split_and!; [done|by etrans|constructor; [by eapply archived_extends|done]|].
  intros [[old Ho] Hos]%Forall_cons. destruct (Hold1 _ Ho) as [Hc Hv]. destruct Hold as [Hv' Hc'].
  { eapply Forall_impl; [exact Hos|]. intros entry [o Hoe]. exists o. by eapply archived_extends. }
  split; [by rewrite Hv'|by constructor].
Qed.

(** C22: publishing source archives puts every one of them in the store under the address of
    its content, verified against its package, and changes no object; doing it again changes
    nothing and reports that nothing was created. *)
Theorem archives_published descriptor archives w published w' :
  PublishSourceArchives descriptor archives w = (Ok published, w') →
  extends w w' ∧ map ps_PackageHash published = sortStrings (map fst (map_to_list archives)) ∧
  (∀ record, record ∈ published → ∃ archive, archives !! ps_PackageHash record = Some archive ∧
    archived w' (ps_PackageHash record) archive record) ∧
  (∀ descriptor' again w'', PublishSourceArchives descriptor' archives w' = (Ok again, w'') →
    view w'' = view w' ∧ ∀ record, record ∈ again → ps_Created record = false).
Proof.
  set (entries := map (λ hash, (hash, default "" (archives !! hash))) (sortStrings (map fst (map_to_list archives)))).
  assert (∀ descriptor w published w', PublishSourceArchives descriptor archives w = (Ok published, w') → ∃ w1, view w1 = view w ∧
    worldFold publishArchive [] entries w1 = (Ok published, w')) as Hopen.
  { intros d v l v'. unfold Isolated.PublishSourceArchives. destruct (OpenDatastore d v) as [[e|] v1] eqn:Eo; [done|].
    intros Hf. exists v1. split; [by eapply open_view|done]. }
  intros (w1 & Hw1 & H1)%Hopen. destruct (publishArchives_fold _ _ _ _ _ H1) as (records & -> & Hext & Hall & _). cbn [app].
  split_and!.
  - intros k x Hx. apply Hext. by rewrite Hw1.
  - transitivity (map fst entries).
    + clear -Hall. induction Hall as [|entry record l k (E & _) _ IH]; [done|]. cbn [map]. by rewrite E, IH.
    + unfold entries. rewrite map_map. apply map_id.
  - intros record [i Hi]%list_elem_of_lookup. destruct (Forall2_lookup_r _ _ _ _ _ Hall Hi) as (entry & He & Har).
    apply list_elem_of_lookup_2 in He. unfold entries in He. apply list_elem_of_fmap in He as (hash & -> & Hh).
    cbn [fst snd] in Har. destruct (Har) as (E & _). rewrite <- E in *. unfold sortStrings in Hh. rewrite merge_sort_Permutation in Hh.
    apply list_elem_of_fmap in Hh as ([h archive] & Eh & Hin). apply elem_of_map_to_list in Hin. cbn [fst] in Eh. subst h.
    exists archive. rewrite Hin in Har. by rewrite Hin.
  - intros d2 again w'' (w2 & Hw2 & H2)%Hopen. destruct (publishArchives_fold _ _ _ _ _ H2) as (records2 & -> & _ & _ & Hold). cbn [app].
    destruct Hold as [Hv Hc].
    { apply Forall_forall. intros entry [i Hi]%list_elem_of_lookup. destruct (Forall2_lookup_l _ _ _ _ _ Hall Hi) as (record & _ & Har).
      exists record. eapply archived_extends; [|exact Har]. intros k x Hx. by rewrite Hw2. }
    split; [by rewrite Hv, Hw2|]. by apply Forall_forall.
Qed.

(** ** Before the runner *)

(** A write that asks for nothing is not refused because the object is there. *)
Context (plain_put : ∀ key body options w e w', Put key body options w = (Err e, w') → po_IfAbsent options = false →
  isErr e ErrAlreadyExists = false).

(** The object at the address of a digest has that digest. *)
Definition stored (w : W) (hash : string) : Prop :=
  ∃ key body, blobKeyForHash hash = Ok key ∧ view w !! key = Some (jsonContentType, body) ∧ DigestBytes body = hash.

Lemma blobKeyForHash_Ok hash key : blobKeyForHash hash = Ok key →
  ∃ digest, bytesOf hash = bytesOf "sha256:" ++ digest ∧ key_value key = "blobs/sha256/" +:+ ofBytes digest.
Proof.
  unfold blobKeyForHash, refDigest. destruct (stripPrefix _ _) as [digest|] eqn:Es; [|done]. destruct (_ =? _)%nat; [|done].
  cbn [mbind result_bind]. unfold BlobKeySHA256Hex. destruct (negb _); [done|]. intros (-> & _)%ParseKey_Ok. exists digest.
  split; [by apply stripPrefix_Some|done].
Qed.
Lemma blobKeyForHash_inj a b key : blobKeyForHash a = Ok key → blobKeyForHash b = Ok key → a = b.
Proof.
  intros (da & Ha & Ka)%blobKeyForHash_Ok (db & Hb & Kb)%blobKeyForHash_Ok. rewrite Ka in Kb. apply string_app_cancel in Kb.
  rewrite <- (ofBytes_bytesOf a), <- (ofBytes_bytesOf b), Ha, Hb, !ofBytes_app. by rewrite Kb.
Qed.

Lemma putJSON_view key body w info w' : putJSON key body w = (Ok info, w') → view w' = <[key := (jsonContentType, body)]> (view w).
Proof. intros Hp. unfold putJSON in Hp. by destruct (put_ok _ _ _ _ _ _ Hp) as (_ & _ & ->). Qed.

Lemma putSchema_stored schema w w' : putSchema sha256Hex schema w = (Ok tt, w') →
  stored w' (GetString (se_Hash schema)) ∧ ∀ hash, stored w hash → stored w' hash.
Proof.
  unfold putSchema, verifyDigest. case_bool_decide as Ed; [|done]. destruct (blobKeyForHash _) as [key|] eqn:Ek; [|done].
  destruct (putJSON key _ w) as [[info|e] w1] eqn:Ep; cbn [ignoreExisting].
  - intros [= <-]. apply putJSON_view in Ep. split.
    + exists key, (GetString (se_CanonicalJson schema)). by rewrite Ep, lookup_insert_eq.
    + intros hash (k & b & Hk & Hv & Hd). exists k. destruct (decide (k = key)) as [->|Hne].
      * rewrite (blobKeyForHash_inj _ _ _ Hk Ek) in *. eexists. by rewrite Ep, lookup_insert_eq.
      * exists b. by rewrite Ep, lookup_insert_ne.
  - unfold putJSON in Ep. by rewrite (plain_put _ _ _ _ _ _ Ep eq_refl).
Qed.
Lemma putSchemas_stored schemas : ∀ w w', worldFold (λ _ schema, putSchema sha256Hex schema) tt schemas w = (Ok tt, w') →
  (∀ schema, schema ∈ schemas → stored w' (GetString (se_Hash schema))) ∧ ∀ hash, stored w hash → stored w' hash.
Proof.
  induction schemas as [|schema schemas IH]; intros w w'; cbn [worldFold]; [intros [= <-]; split; [by intros ? ?%elem_of_nil|done]|].
  destruct (putSchema sha256Hex schema w) as [[[]|e] w1] eqn:E1; [|done]. apply putSchema_stored in E1 as [Hs Hk].
  intros [Hss Hks]%IH. split; [|auto]. intros x [->|Hx]%elem_of_cons; auto.
Qed.

(** An embedded archive is there, with its digest checked. *)
Definition installed (w : W) (packageHash : string) (archive : SourceArchive) : Prop :=
  IsSHA256Ref (sr_Digest archive) = true ∧ ∀ body, sr_Body archive = Some body → DigestBytes body = sr_Digest archive ∧
    ∃ key, MustKey (sourceArchiveKey packageHash (sr_Digest archive)) = Ok key ∧ is_Some (view w !! key).
Lemma install_installed archive packageHash w key w' :
  install sha256Hex VerifyArchive archive packageHash w = (Ok key, w') → extends w w' ∧ installed w' packageHash archive.
Proof.
  unfold install. destruct (IsSHA256Ref (sr_Digest archive)) eqn:Eref; [|done]. cbn [negb]. unfold installed.
  destruct (sr_Body archive) as [body|] eqn:Eb.
  - destruct (eqs (DigestBytes body) (sr_Digest archive)) eqn:Ed; [|done]. cbn [negb]. apply eqs_spec in Ed.
    destruct (VerifyArchive body packageHash) as [[]|]; [|done]. destruct (MustKey _) as [k|] eqn:Ek; [|done].
    destruct (Put k body _ w) as [r w1] eqn:Ep. pose proof (conditional_put_view _ _ _ _ _ _ Ep) as [Hext Hsame].
    intros Hr. assert (w1 = w') as -> by (by destruct (ignoreExisting _ _ r); injection Hr).
    split; [done|]. split; [done|]. intros body' [= <-]. split; [done|]. exists k. split; [done|].
    destruct r as [info|e]; [destruct (put_ok _ _ _ _ _ _ Ep) as (_ & _ & ->); rewrite lookup_insert_eq; by eexists|].
    cbn [ignoreExisting] in Hr. destruct (isErr e ErrAlreadyExists) eqn:Ee; [|done].
    rewrite Hsame; by eapply put_refused.
  - intros [= _ <-]. by split_and!.
Qed.
Lemma putPackages_installed config packages : ∀ acc w acc' w',
  worldFold (putPackage sha256Hex VerifyArchive config) acc packages w = (Ok acc', w') →
  extends w w' ∧ ∀ package, package ∈ packages → let packageHash := GetString (kr_PackageHash package) in
    installed w' packageHash (default noArchive (is_SourceArchives config !! packageHash)).
Proof.
  induction packages as [|package packages IH]; intros acc w acc' w'; cbn [worldFold].
  { intros [= _ <-]. split; [done|by intros ? ?%elem_of_nil]. }
  unfold putPackage at 1. destruct (install _ _ _ _ w) as [[key|e] w1] eqn:Ei; [|done]. apply install_installed in Ei as [He1 Hi].
  intros [He Hrest]%IH. split; [by etrans|]. cbn zeta in *. intros x [->|Hx]%elem_of_cons; [|by apply Hrest].
  destruct Hi as [Href Hi]. split; [done|]. intros body Hb. destruct (Hi _ Hb) as (? & key' & Hk & y & Hy). split; [done|].
  exists key'. split; [done|]. exists y. by apply He.
Qed.

End Safety.

(** ** The fatal cause *)
Section Fatal.
Context (NumberToJSON : spec_float → result string) (validateFatal : string → result unit).
Context {W : Type} `{!Datastore W} `{!Opener W} `{!DatastoreLaws W}.
Lemma quoteRune_length r : (length (quoteRune r) ≤ 6)%nat.
Proof. unfold quoteRune, encodeRune. repeat (case_match; cbn [length]; [lia|]). repeat case_match; cbn [length]; lia. Qed.
Lemma quoteBytes_length s : (length (quoteBytes s) ≤ 2 + 6 * length (runes s))%nat.
Proof.
  unfold quoteBytes. cbn [length]. rewrite length_app. cbn [length].
  assert (∀ l, length (l ≫= quoteRune) ≤ 6 * length l)%nat as Hl; [|specialize (Hl (runes s)); lia].
  induction l as [|r l IH]; [done|]. rewrite bind_cons, length_app. pose proof (quoteRune_length r). cbn [length]. lia.
Qed.

Context (number_token : number_token_law NumberToJSON) (number_reads : number_reads_law NumberToJSON).
#[local] Abbreviation ParseFatalFailure := (Isolated.ParseFatalFailure validateFatal).
#[local] Abbreviation PublishFatalRun := (Isolated.PublishFatalRun NumberToJSON validateFatal).
#[local] Abbreviation ReadFatalRun := (Isolated.ReadFatalRun validateFatal).
#[local] Abbreviation Marshal := (Encode.Marshal NumberToJSON).

(** The members of a cause in the order of its text. *)
Definition causeMembers (f : FatalFailure) : list (string * json) :=
  [("message", JStr (ff_Message f)); ("nodeId", JStr (ff_NodeID f))] ++ omitEmpty "type" (ff_Type f).
Lemma Marshal_cause f body : Marshal (fatalTree f) = Ok body →
  body = printJson (JObj (causeMembers f)) ∧ unmarshal body = Some (JObj (causeMembers f)).
Proof.
  intros H. assert (validStrings (fatalTree f) = true) as Hv by (unfold Encode.Marshal in H; by destruct (validStrings (fatalTree f))).
  assert (sortTree (fatalTree f) = JObj (causeMembers f)) as <-.
  { unfold fatalTree, causeMembers, omitEmpty. case_bool_decide; reflexivity. }
  apply Marshal_Ok in H as (H1 & _ & H2 & _); [done|done|done| |].
  - unfold fatalTree, omitEmpty in *. apply wellFormed_JObj. split; [done|].
    case_bool_decide; cbn [app validStrings forallb fst snd] in *; rewrite !andb_true_iff in Hv; (split; [nodup_keys|]);
      repeat apply Forall_cons_2; try apply Forall_nil_2; cbn [fst snd]; split; clear -Hv; tauto.
  - unfold fatalTree, omitEmpty. apply integerTree_JObj. case_bool_decide; repeat constructor.
Qed.

Lemma ParseFatalFailure_Marshal f body : Marshal (fatalTree f) = Ok body → validateFatal body = Ok tt →
  ParseFatalFailure body = Ok f.
Proof.
  intros [_ Hu]%Marshal_cause Hv. unfold Isolated.ParseFatalFailure. rewrite Hv. cbn [mbind result_bind]. rewrite Hu.
  unfold causeMembers, omitEmpty. case_bool_decide as Et; destruct f as [message type nodeID]; cbn [ff_Type ff_Message ff_NodeID app] in *.
  - subst type. reflexivity.
  - reflexivity.
Qed.

(** What the schema of a cause bounds. *)
Class FatalSchema : Prop := fatal_bounded : ∀ f body, Marshal (fatalTree f) = Ok body → validateFatal body = Ok tt →
  (length (runes (ff_Message f)) ≤ 1024 ∧ length (runes (ff_Type f)) ≤ 64 ∧ length (runes (ff_NodeID f)) ≤ 128)%nat.
Context {Hbounded : FatalSchema}.
Lemma cause_fits f body : Marshal (fatalTree f) = Ok body → validateFatal body = Ok tt → lenOf body <= fatalLimit.
Proof.
  intros H Hv. destruct (Hbounded f body H Hv) as (H1 & H2 & H3). destruct (Marshal_cause _ _ H) as [-> _].
  rewrite lenOf_print. pose proof (quoteBytes_length (ff_Message f)). pose proof (quoteBytes_length (ff_Type f)).
  pose proof (quoteBytes_length (ff_NodeID f)). unfold fatalLimit. unfold causeMembers, omitEmpty. case_bool_decide.
  - cbn [app]. rewrite pair_length. change (length (quoteBytes "message")) with 9%nat. change (length (quoteBytes "nodeId")) with 8%nat.
    cbn [printBytes]. lia.
  - change (printBytes (JObj ([("message", JStr (ff_Message f)); ("nodeId", JStr (ff_NodeID f))] ++ [("type", JStr (ff_Type f))]))) with
      (123 :: ((quoteBytes "message" ++ 58 :: quoteBytes (ff_Message f)) ++ 44 :: (quoteBytes "nodeId" ++ 58 :: quoteBytes (ff_NodeID f)) ++
        44 :: (quoteBytes "type" ++ 58 :: quoteBytes (ff_Type f))) ++ [125]).
    cbn [length]. rewrite !length_app. cbn [length]. rewrite !length_app. cbn [length]. rewrite !length_app. cbn [length].
    change (length (quoteBytes "message")) with 9%nat. change (length (quoteBytes "nodeId")) with 8%nat.
    change (length (quoteBytes "type")) with 6%nat. lia.
Qed.

(** An invocation of the run publishes a cause, with any result. *)
Definition publishes (key : Key) (w w' : W) : Prop := ∃ failure r, PublishFatalRun key failure w = (r, w').

Lemma PublishFatalRun_view key f w r w' : PublishFatalRun key f w = (r, w') → extends w w'.
Proof.
  unfold Isolated.PublishFatalRun. destruct (Marshal _) as [body|]; [|by intros [= _ <-]].
  destruct (Isolated.ParseFatalFailure _ body); [|by intros [= _ <-]].
  destruct (Put key body _ w) as [p w1] eqn:Ep. apply conditional_put_view in Ep as [He _]. destruct p; by intros [= _ <-].
Qed.

(** C23: the first cause published for a run is the one that every reader gets, whatever
    causes are published after it, and it fits the limit of a read. *)
Theorem first_fatal_cause `{!OpenerLaws W} key first w w1 w2 :
  view w !! key = None → PublishFatalRun key first w = (Ok tt, w1) → rtc (publishes key) w1 w2 → serving w2 →
  ReadFatalRun key w2 = Ok (Some first).
Proof.
  intros Hnone Hp Hs Hserv. unfold Isolated.PublishFatalRun in Hp. destruct (Marshal (fatalTree first)) as [body|] eqn:Em; [|done].
  destruct (Isolated.ParseFatalFailure validateFatal body) as [f'|] eqn:Epf; [|done].
  assert (validateFatal body = Ok tt) as Hv by (unfold Isolated.ParseFatalFailure in Epf; by destruct (validateFatal body) as [[]|]).
  assert (view w1 !! key = Some (jsonContentType, body)) as Hw1.
  { destruct (Put key body _ w) as [[info|e] w'] eqn:Eput.
    - injection Hp as <-. destruct (put_ok _ _ _ _ _ _ Eput) as (_ & _ & ->). by rewrite lookup_insert_eq.
    - destruct (isErr e ErrAlreadyExists) eqn:Ee; [|done]. destruct (put_refused _ _ _ _ _ _ Eput Ee) as [x Hx]. congruence. }
  assert (view w2 !! key = Some (jsonContentType, body)) as Hw2.
  { clear -Hw1 Hs. induction Hs as [|a b c (failure & r & Hab) _ IH]; [done|]. apply IH. by eapply PublishFatalRun_view. }
  unfold Isolated.ReadFatalRun. rewrite (open_serving _ _ _ _ Hserv Hw2). cbn [oi_Size objectInfo].
  pose proof (cause_fits _ _ Em Hv) as Hfit. unfold lenOf in *.
  destruct (fatalLimit <? Z.of_nat (String.length body)) eqn:El; [lia|]. unfold readAllLimited. cbn [rd_Bytes rd_Err].
  destruct (fatalLimit + 1 <=? Z.of_nat (String.length body)) eqn:El2; [lia|]. cbn [mbind result_bind]. rewrite El.
  by rewrite (ParseFatalFailure_Marshal _ _ Em Hv).
Qed.
End Fatal.


(** ** A step of the sample plan in a pod *)
#[local] Abbreviation store := MemoryStore.store.
#[local] Existing Instances MemoryStore.datastore MemoryStore.laws MemoryStore.opener MemoryStore.openerLaws.

(** A pod over the memory store with this runner. *)
Definition podWith (runner : StepInvocation → store → StepInvocationOutcome * store) : PodWorld store unit := {|
  openFile _ w := (None, w); writeFile _ record w := ((lenOf record, None), w); readFile _ w := (Ok (quoted "{'phase':'author'}"), w);
  mkdirTemp _ w := (Ok "/tmp/1", w); mkdir _ w := (None, w); removeAll _ w := w; createFile _ w := (None, w);
  copyTo _ _ w := (None, w); seekStart _ w := (None, w); contextErr w := (None, w); OpenDatastore _ w := (None, w);
  ExtractArchive _ _ _ _ w := (None, w); CheckEnvironment _ w := (inr (OtherError (ErrNew "no interpreter")), w);
  invokeSteps _ _ batch w := match sb_Steps batch with
    | [inv] => let '(outcome, w') := runner inv w in (([outcome], None), w')
    | _ => (([], None), w)
    end;
  pollDelay _ w := (0, w); waitOrDone _ w := (false, w) |}.
Definition outcomeOf (status : string) (code : Z) (inv : StepInvocation) : StepInvocationOutcome :=
  let d := in_Descriptor inv in
  {| so_NodeID := sd_NodeID d; so_Attempt := sd_Attempt d; so_Scope := sd_Scope d; so_Status := status; so_ExitCode := code;
     so_Diagnostic := ""; so_Fatal := None; so_RunnerMessage := ""; so_TimedOutAfter := 0 |}.
Definition anySchema (_ _ : string) : result unit := Ok tt.
(** It publishes a one; it is killed. *)
Definition publishing : PodWorld store unit := podWith (λ inv w,
  let d := in_Descriptor inv in
  let '(_, w') := PublishJSON smallNumbers checksumHash anySchema pass
    {| ds_ManifestKey := {| key_value := xo_ManifestKey (sd_Output d) |}; ds_Schema := xo_Schema (sd_Output d) |} (descriptorProducer d) "1" w in
  (outcomeOf StatusSucceeded 0 inv, w')).
Definition killed : PodWorld store unit := podWith (λ inv w, (outcomeOf StatusFailed (-1) inv, w)).

Definition podConfig : IsolatedStepConfig :=
  {| is_Plan := Some pipelinePlan; is_NodeID := "work"; is_Datastore := Some (LocalDatastoreDescriptor "/data"); is_ProjectID := "demo";
     is_RunID := "first"; is_Environment := {| rq_Python := ""; rq_ProjectRoot := ""; rq_ControlPlaneVersion := ""; rq_RequireSDK := false; rq_Scope := 0 |};
     is_WorkingDir := "/src";
     is_SourceArchives := list_to_map (map (λ p, (GetString (kr_PackageHash p), EmbeddedSourceArchive checksumHash "archive")) (wp_SourcePackages pipelinePlan));
     is_Attempt := 0; is_TerminationLog := "/dev/termination-log" |}.
Definition runPod (pw : PodWorld store unit) (w : store) : (string + podError) * store :=
  runIsolatedInvocation smallNumbers checksumHash anySchema pass pass pass anySchema (λ _, Ok "{}") (λ _, "") (λ _, "") podConfig " 1" None w
    (PW := pw).

Definition podValue {A} (r : (A + podError) * store) : option A := match r.1 with inl a => Some a | inr _ => None end.
Definition podFailure {A} (r : (A + podError) * store) : option InvocationFailure :=
  match r.1 with inr (Invocation failure) => Some failure | _ => None end.




Definition bundled : gmap string string := {["sha256:p" := "archive"]}.
Definition publishBundled (w : store) : result (list PublishedSourceArchive) * store :=
  PublishSourceArchives (PW := publishing) checksumHash anySchema (LocalDatastoreDescriptor "/data") bundled w.
Lemma archives_published_witness : ∃ published w', publishBundled ∅ = (Ok published, w') ∧ map ps_PackageHash published = ["sha256:p"] ∧
  ∀ again w'', publishBundled w' = (Ok again, w'') → view w'' = view w'.
Proof.
  assert (isOk (publishBundled ∅).1 = true) as H by (vm_compute; reflexivity).
  destruct (publishBundled ∅) as [[published|e] w'] eqn:E; [|discriminate H]. exists published, w'. split; [reflexivity|].
  unfold publishBundled in E.
  destruct (archives_published checksumHash anySchema (PodWorld0 := publishing) ltac:(intros d w e w2; cbn; congruence)
    (LocalDatastoreDescriptor "/data") bundled ∅ published w' E) as (_ & Hm & _ & Hagain).
  split; [exact Hm|]. intros again w'' H2. unfold publishBundled in H2.
  exact (proj1 (Hagain (LocalDatastoreDescriptor "/data") again w'' H2)).
Defined.

(** A schema that admits one cause only. *)
Definition sampleCause : FatalFailure := {| ff_Message := "stop"; ff_Type := "Stop"; ff_NodeID := "work" |}.
Definition causeText : string := quoted "{'message':'stop','nodeId':'work','type':'Stop'}".
Definition oneCause (body : string) : result unit := if eqs body causeText then Ok tt else Err (ErrNew "invalid").
Lemma oneCause_bounded : FatalSchema smallNumbers oneCause.
Proof.
  intros f body H. unfold oneCause. destruct (eqs body causeText) eqn:E; [|discriminate]. intros _. apply eqs_spec in E. subst body.
  apply (Marshal_cause smallNumbers smallNumbers_token smallNumbers_reads) in H as [_ H].
  assert (unmarshal causeText = Some (JObj (causeMembers sampleCause))) as H' by (vm_compute; reflexivity).
  assert (causeMembers f = causeMembers sampleCause) as E by congruence. clear -E. destruct f as [m t n].
  unfold causeMembers, omitEmpty in E. cbn in E. case_bool_decide; [discriminate E|]. injection E as -> -> ->. vm_compute. lia.
Qed.
Definition causeKey : Key := {| key_value := "projects/p/runs/first/fatal.json" |}.
Lemma first_fatal_cause_witness : ∃ w1,
  PublishFatalRun smallNumbers oneCause causeKey sampleCause ∅ = (Ok tt, w1) ∧ ReadFatalRun oneCause causeKey w1 = Ok (Some sampleCause).
Proof.
  assert (isOk (PublishFatalRun smallNumbers oneCause causeKey sampleCause (∅ : store)).1 = true) as H by (vm_compute; reflexivity).
  destruct (PublishFatalRun smallNumbers oneCause causeKey sampleCause (∅ : store)) as [[[]|e] w1] eqn:E; [|discriminate H]. exists w1.
  split; [reflexivity|]. apply (first_fatal_cause smallNumbers oneCause smallNumbers_token smallNumbers_reads
    (Hbounded := oneCause_bounded) causeKey sampleCause ∅ w1 w1).
  - reflexivity.
  - exact E.
  - reflexivity.
  - exact I.
Defined.
